(* ===== verification/_CoqProject ===== *)
-Q . S2P
Prelude.v
BaseUtil.v
CircularQueue.v
MemCmd.v
Request.v
Packet.v
CacheBlk.v
ReplPolicy.v
ReplPolicyFacts.v
Indexing.v
IndexingFacts.v
Tags.v
TagsFacts.v
Prefetch.v
PrefetchFacts.v
MSHR.v
MSHRFacts.v
Queues.v
QueuesFacts.v
CacheState.v
BaseCache.v
CoherentCache.v
CacheModes.v
CacheLogic.v
ModesLogic.v
CacheExamples.v
BlockingFacts.v
NoFillFacts.v
NoncoherentCache.v
ModesFacts.v
StoreSpec.v
FlushFacts.v
ModeExamples.v
DynInst.v
Rob.v
RobFacts.v
RobSafety.v
Commit.v
CommitStage.v
CoreExamples.v
CommitFacts.v
CommitStageFacts.v
CommitCycle.v
CommitTrap.v
Lsq.v
LsqFacts.v
LsqSpec.v
LsqUnit.v
LsqUnitFacts.v
LsqForward.v
LsqRead.v
LsqExamples.v
LsqInv.v
LsqQuiet.v
LsqExec.v
LsqOrder.v
LsqCommit.v
LsqInsert.v
LsqHistory.v
Defence.v
AddrRange.v
AddrRangeFacts.v
Memory.v
MemoryFacts.v
MemoryProtocol.v
Transparency.v
