(* ===== verification/Prelude.v ===== *)
(** * RaS cache: a verification development

    RaS is a cache design, implemented in a fork of gem5, that keeps speculative
    memory accesses from leaving traces in the cache. Three mechanisms work
    together. A speculative request is marked no-fill: a hit does not update the
    replacement state, and a miss is answered from a temporary block without a
    line being allocated. Lines are brought in by prefetchers whose choices do not
    reveal which line was accessed: a random-fill prefetcher and a prefetcher fed by
    a "safe history buffer" (SHB) of committed accesses. The tag store can be fully
    associative with random replacement. All paths below are relative to
    src/gem5/src.

    ** Parts of the program, and the files that model them

    A core sends a Packet (with its Request) to the CPU-side port of a cache. The
    cache looks the address up in its tag store, satisfies the packet from a block,
    or records a miss in an MSHR of the MSHR queue. Entries of the MSHR queue and of
    the write buffer are sent to the memory side when they are due; with nothing
    due, the prefetcher is asked. A response finds its MSHR through the packet's
    sender state, is filled into a block of the tag store or into the temporary
    block, and the MSHR's targets are answered. Evicted blocks go to the write
    buffer. Snoops from below are answered from blocks, MSHRs and the write buffer.

    - [Prelude]: faults and the error monad [res] (a failed assert, panic or fatal
      stops the simulation; C++ behaviour that is not defined is [Undefined]),
      unsigned integers of a width as [Z] with wrap-around, list lemmas, tactics.
    - [BaseUtil]: base/intmath.hh, bitfield.hh, flags.hh, sat_counter.hh, random.hh. The
      generator behind random.hh is the C++ library's; [RandomSource] gives its n-th
      draw and is a parameter everywhere.
    - [MemCmd], [Request], [Packet]: mem/packet.hh, packet.cc, request.hh.
    - [CacheBlk]: mem/cache/cache_blk.hh, cache_blk.cc, tags/tagged_entry.hh.
    - [ReplPolicy]: mem/cache/replacement_policies. A policy keeps its data in a list
      indexed by line; [ReplacementPolicy] is the interface the tag stores use.
    - [Indexing]: mem/cache/tags/indexing_policies, with the interface [IndexingPolicy].
    - [Tags]: mem/cache/tags/base.*, base_set_assoc.*, new_rand_tag.*; blocks are
      indices into the block array.
    - [Prefetch]: mem/cache/prefetch/base.*, queued.*, random_fill.*, shb.*; the cache and
      the TLB they consult are parameters.
    - [MSHR], [Queues]: mem/cache/mshr.*, queue.hh, queue_entry.hh, mshr_queue.*,
      write_queue.*, write_queue_entry.*. Pointers to MSHRs of caches above are
      returned as a list of notifications.
    - [CacheState], [BaseCache], [CoherentCache]: mem/cache/base.hh, base.cc, cache.cc in
      timing mode. The state is a record; member functions run in a state-and-error
      monad [M] and record what they send and schedule as a list of [Action]s. The
      answers of the ports are parameters ([Env]), as they come from other
      components. Virtual functions of [BaseCache] are section variables that
      [CoherentCache] instantiates; tag store and prefetcher are the type classes
      [TagStore] and [Prefetcher], with instances for the classes above.
    - [CacheModes]: the same classes in atomic and functional mode, and the write-back
      and invalidation of the whole cache. The neighbours' answers are the record
      [Peers], which may depend on what the cache has sent before.
    - [NoncoherentCache]: mem/cache/noncoherent_cache.cc over [BaseCache].
    - [AddrRange]: base/addr_range.hh. [Memory]: mem/abstract_mem.*, simple_mem.*.
    - [DynInst], [Rob], [Commit], [CommitStage]: cpu/base_dyn_inst.hh, cpu/o3/rob*.hh and
      commit*.hh, the part of the core that decides when an access is no longer
      speculative and that reports safe accesses to the history buffer: squashes in
      [Commit], retirement, traps, interrupts and the cycle in [CommitStage]. The
      interrupt controller is the class [BaseInterrupts]; what the load/store queue, the
      list of instructions in flight and program-counter events answer in a cycle is an
      [Env]; what the stage asks others to do is a list of [Action]s.
      [Lsq]: cpu/o3/lsq.hh, lsq_impl.hh, the requests and packets of loads and stores,
      where speculative loads are marked. Instructions live in a heap that the stages
      share by key.
    - [CircularQueue]: base/circular_queue.hh, with its iterators.
    - [LsqUnit]: cpu/o3/lsq_unit.hh, lsq_unit_impl.hh and the rest of lsq_impl.hh, the load
      and store queues of a thread: insertion, execution, forwarding, order violations,
      commit, write-back, squash, responses and snoops. Requests live in a map with their
      keys, so that a response to a request that is gone is [Undefined]; the instruction's
      own part of an access, the MMU and the cache are an [Env].

    ** What is proved

    - [ReplPolicyFacts]: LRU time stamps refine a recency list; tree pseudo-LRU, BRRIP
      and second chance pick the victims they should, and the search loops end.
    - [IndexingFacts]: construction, and the round trip from an address to tag and
      position and back, for the three policies, skewing hash included.
    - [TagsFacts]: a filled line is found and no other lookup changes; a no-fill access
      leaves the replacement state alone; filling the random store keeps its index
      bits unique and puts the line where the random draw says.
    - [PrefetchFacts]: random fill stays in the page and the security domain of its
      trigger; the SHB holds the most recent accesses, which block of a window was
      accessed has no influence on what it issues, and its schedule does not depend
      on its contents. Two defects of the prefetch queue are shown.
    - [MSHRFacts]: over every history of an MSHR, it may not fill exactly when all its
      waiting requests must not and nothing else has let it fill since its flags were
      computed, and no waiting request is lost.
    - [QueuesFacts]: entries are conserved over every history of the MSHR queue, and the
      ready list is a priority queue; a defect of [delay] is shown.
    - [CacheLogic], [ModesLogic]: [within R m], a logic of state-change frames for the
      monad, with the member functions of the cache classes proved to stay within any
      frame that has the required closure ([Frame], [CacheFrame]).
    - [BlockingFacts]: the back-pressure protocol as an invariant of all events, timing,
      atomic and functional, with what the port answers to a request.
    - [NoFillFacts]: the defence in the cache, for requests and for responses. Two cases
      are excluded, in which the code does not defend: requests of a cache above to a
      mostly exclusive cache, and whole-line writes the write allocator wants.
    - [StoreSpec]: what a tag store promises its cache, as the classes [LineStore] (lines
      that change one at a time; both stores) and [MapStore] (a finite map from lines of
      memory; the RaS store). [FlushFacts] and [Transparency] are proved against them.
    - [ModesFacts], [FlushFacts], [ModeExamples]: a functional read returns the newest data
      and changes nothing; writing back and invalidating the cache loses nothing; runs
      that show what is left of the defence in atomic mode and in a non-coherent cache.
    - [RobFacts], [RobSafety], [CommitFacts]: the visibility update computes the condition
      it stands for, squashes are exact and end, and the buffer's counters, order and
      iterators are consistent over every history, with the commit stage as its client.
    - [CommitStageFacts], [CommitCycle], [CommitTrap]: over every history of the commit stage
      (under the rules its theorem lists) no assertion fails; instructions retire in program
      order; traps are precise, and a thread is left alone until its trap fires. Two
      defects are shown: a squash request that outlives its squash, and an
      oldest-first policy that chooses by position.
    - [CircularQueue] proves that the vector with its indices refines an abstract queue.
    - [LsqForward], [LsqRead]: a load gets what memory holds after the older stores, or
      waits, or goes to memory when none of them has any of its bytes.
    - [LsqUnitFacts]: the scan of a store for the loads that overtook it.
    - [LsqInv], [LsqQuiet], [LsqExec], [LsqOrder], [LsqCommit], [LsqInsert], [LsqHistory]: the
      invariant of the queues over every history. [LsqInv] states it and the changes that
      leave the entries in their places ([quiet]); [LsqQuiet] and [LsqExec] prove that
      requests, translation, forwarding, execution of loads, responses to loads and snoops
      are such changes; [LsqOrder] is for entries that leave, [LsqCommit] for commit,
      write-back and squash, [LsqInsert] for entries that come; [LsqHistory] has the
      transition system. Three defects are shown: a store at the end of the address space
      is not seen by loads, transactional commands panic, and snoops compare 32 bits.
    - [LsqFacts], [LsqSpec]: an access is cut at line boundaries into requests that carry
      the mark the core decides, and what the history buffer is told of it.
    - [Defence]: reorder buffer, load/store queue and cache composed: after a visibility
      update the requests of an access are no-fill exactly when the mode of the core and
      the older instructions say so, and a speculative load leaves no trace in the tag
      store from the reorder buffer to the end of its cache access.
    - [AddrRangeFacts]: the stripes of an interleaved range partition it, and the bits
      that select a stripe can be taken out of an address and put back.
    - [MemoryFacts], [MemoryProtocol]: what the memory does with the packets of a cache;
      its timing port is a queue that loses, repeats and overtakes nothing within a line.
    - [Transparency]: the cache over the memory refines the memory. The relation [sim]
      spreads the bytes the core sees over lines, memory and the write-back under way;
      each atomic access is simulated by an access to a function on addresses (accesses of
      one security state and domain).
    - [Packet], [Request], [CacheBlk], [MemCmd], [BaseUtil] hold their own theorems: mark
      propagation, data round trips, functional reads, LL/SC atomicity, request
      splitting, coherence of the command table, saturation.
    - [CacheExamples], [CoreExamples], [LsqExamples]: small configurations, evaluated to make
      witnesses.

    ** Fuel and bounds

    Loops that are not over a list have fuel: the SHB's search for its next issue time
    (one round per tick of distance, proved enough), second chance (one round per
    candidate, proved enough), BRRIP and tree searches (depth of the tree), the lines of
    a split access ([whole_lines]) and the sends of its packets ([split_send]), with one
    round per line and per packet, the scans of the load and store queues, with one round
    per entry (one more for [write_back_loop]), and the cycles of a squash ([squash_cycles]), one per
    instruction of the buffer; the loop of [commitInsts] has one round per instruction of
    the buffer and one more. The theorems about them state that they return, those on
    forwarding and order violations included; [lsq_history_ok] is an invariant of the
    steps of the queues that do, and a run with every kind of loop is its witness.

    ** Plan

    Next: issue and the memory dependence predictor, arbitration between MSHRs and write
    buffer, transparency in timing mode, the coherence of two caches.

    ** Not modelled

    Statistics, tracing, probes, drain and checkpoint support and the deletion of
    packets do not influence the behaviour modelled. Not modelled yet: fetch,
    rename and issue, which decide what enters the buffer and the queues and when it
    completes, and are events of the model; the load and store queues are those of a core
    with one thread and without a checker; of the commit stage, program counters and
    the commit rename map. The theorems on the commit stage are for programs without
    hardware transactions. Not planned: compressed, sector and fully-associative LRU tags,
    the other prefetchers, crossbars and snoop filter, Ruby, and the rest of the
    simulator, which RaS does not touch. *)

From Stdlib Require Export ZArith Lia.
From stdpp Require Export base list numbers option decidable sets.

#[global] Set Default Goal Selector "!".

(** ** Faults and the error monad

    gem5 stops the simulation on a failed [assert], on [panic]/[panic_if] and
    on [fatal]/[fatal_if]; a C++ operation whose behaviour the language does
    not define (an empty [front()], a distribution with [max < min], reading
    an indeterminate member) is [Undefined]. *)

Inductive fault :=
  | AssertFail
  | Panic
  | Fatal
  | Undefined.

Inductive res (A : Type) :=
  | Ok (a : A)
  | Err (f : fault).
Arguments Ok {A} a.
Arguments Err {A} f.

Definition rbind {A B} (m : res A) (k : A -> res B) : res B :=
  match m with
  | Ok a => k a
  | Err f => Err f
  end.

Definition rmap {A B} (f : A -> B) (m : res A) : res B :=
  rbind m (fun a => Ok (f a)).

Definition is_ok {A} (m : res A) : bool :=
  match m with Ok _ => true | Err _ => false end.

#[global] Instance fault_eq_dec : EqDecision fault.
Proof. solve_decision. Defined.

#[global] Instance res_eq_dec {A} `{EqDecision A} : EqDecision (res A).
Proof. solve_decision. Defined.

Declare Scope ras_scope.
Delimit Scope ras_scope with ras.

Notation "'let*' x ':=' m 'in' k" := (rbind m (fun x => k))
  (at level 10, x pattern, m at level 100, k at level 200,
   format "'[v' 'let*'  x  ':='  m  'in' '/' k ']'") : ras_scope.

Notation "'assert!' b 'in' k" := (if b then k else Err AssertFail)
  (at level 10, b at level 100, k at level 200,
   format "'[v' 'assert!'  b  'in' '/' k ']'") : ras_scope.

Notation "'panic_if!' b 'in' k" := (if b then Err Panic else k)
  (at level 10, b at level 100, k at level 200,
   format "'[v' 'panic_if!'  b  'in' '/' k ']'") : ras_scope.

Notation "'fatal_if!' b 'in' k" := (if b then Err Fatal else k)
  (at level 10, b at level 100, k at level 200,
   format "'[v' 'fatal_if!'  b  'in' '/' k ']'") : ras_scope.

#[global] Open Scope ras_scope.

(** Left fold in the error monad: a C++ [for] loop over a container whose
    body may stop the simulation. *)
Fixpoint foldM {A S} (f : S -> A -> res S) (l : list A) (s : S) : res S :=
  match l with
  | [] => Ok s
  | x :: l' => let* s' := f s x in foldM f l' s'
  end.

(** Monadic inversion, used through [simplify_res]. *)
Lemma rbind_ok {A B} (m : res A) (k : A -> res B) b :
  rbind m k = Ok b -> exists a, m = Ok a /\ k a = Ok b.
Proof. destruct m as [a|f]; simpl; [eauto | discriminate]. Qed.

Lemma rbind_assoc {A B C} (m : res A) (f : A -> res B) (g : B -> res C) :
  rbind (rbind m f) g = rbind m (fun a => rbind (f a) g).
Proof. by destruct m. Qed.

Lemma foldM_app {A S} (f : S -> A -> res S) l1 l2 s :
  foldM f (l1 ++ l2) s = let* s' := foldM f l1 s in foldM f l2 s'.
Proof.
  revert s. induction l1 as [|x l1 IH]; intros s; simpl; [done|].
  destruct (f s x); simpl; [apply IH | done].
Qed.

(** A loop invariant over the elements already visited. *)
Lemma foldM_ind {A S} (f : S -> A -> res S) (I : list A -> S -> Prop) l s :
  I [] s ->
  (forall pre x post s, l = pre ++ x :: post -> I pre s ->
     exists s', f s x = Ok s' /\ I (pre ++ [x]) s') ->
  exists s', foldM f l s = Ok s' /\ I l s'.
Proof.
  intros H0 Hf. enough (forall l1 l2 s, l = l1 ++ l2 -> I l1 s ->
    exists s', foldM f l2 s = Ok s' /\ I l s') as Hg by by apply (Hg [] l).
  intros l1 l2. revert l1. induction l2 as [|x l2 IH]; intros l1 s1 Hl Hs; simpl.
  - rewrite app_nil_r in Hl. subst. eauto.
  - destruct (Hf l1 x l2 s1) as (s2 & -> & Hs2); [done..|].
    apply (IH (l1 ++ [x])); [by rewrite <- app_assoc|done].
Qed.

Lemma ok_inj {A} (x y : A) : Ok x = Ok y -> x = y.
Proof. congruence. Qed.

Ltac simplify_res :=
  repeat match goal with
  | H : Ok _ = Ok _ |- _ => apply ok_inj in H; simplify_eq
  | H : Ok _ = Err _ |- _ => discriminate H
  | H : Err _ = Ok _ |- _ => discriminate H
  | H : rbind ?m _ = Ok _ |- _ =>
      let a := fresh "a" in let E := fresh "E" in
      apply rbind_ok in H as (a & E & H); simpl in H
  | H : (if ?b then Err _ else _) = Ok _ |- _ =>
      let E := fresh "E" in destruct b eqn:E; [discriminate H|]
  | H : (if ?b then _ else Err _) = Ok _ |- _ =>
      let E := fresh "E" in destruct b eqn:E; [|discriminate H]
  end.

(** The same, also taking pairs apart and normalising boolean guards. *)
Ltac inv_res :=
  repeat (simplify_res;
    repeat match goal with
    | H : (let '(_, _) := ?p in _) = Ok _ |- _ => destruct p; simpl in H
    | H : negb _ = true |- _ => apply negb_true_iff in H
    | H : negb _ = false |- _ => apply negb_false_iff in H
    | H : _ && _ = true |- _ => apply andb_true_iff in H as [? ?]
    | H : _ || _ = false |- _ => apply orb_false_iff in H as [? ?]
    end).

(** Two runs of the same computation have the same result. *)
Ltac same_result :=
  repeat match goal with
  | H1 : ?m = Ok ?x, H2 : ?m = Ok ?y |- _ =>
      first [ unify x y; clear H2 | rewrite H1 in H2; apply ok_inj in H2; simplify_eq ]
  end.

(** ** Machine integers

    An unsigned w-bit value is a [Z] in [0, 2^w); arithmetic wraps. *)

Local Open Scope Z_scope.

Definition uwrap (w x : Z) : Z := x mod 2 ^ w.
Definition unot (w x : Z) : Z := 2 ^ w - 1 - x.
Definition in_word (w x : Z) : Prop := 0 <= x < 2 ^ w.
Definition in_wordb (w x : Z) : bool := (0 <=? x) && (x <? 2 ^ w).

Abbreviation u64 := (uwrap 64).
Abbreviation u32 := (uwrap 32).

(** The conversion of an out-of-range value to [int] (two's complement). *)
Definition swrap (w x : Z) : Z := (x + 2 ^ (w - 1)) mod 2 ^ w - 2 ^ (w - 1).

(** Truth value of a C++ integer in a condition. *)
Definition truthy (x : Z) : bool := negb (x =? 0).

Lemma pow2_pos k : 0 <= k -> 0 < 2 ^ k.
Proof. intros. by apply Z.pow_pos_nonneg. Qed.

Lemma uwrap_range w x : 0 <= w -> in_word w (uwrap w x).
Proof. intros. apply Z.mod_pos_bound, pow2_pos; lia. Qed.

Lemma uwrap_small w x : in_word w x -> uwrap w x = x.
Proof. intros. by apply Z.mod_small. Qed.

Lemma in_wordb_spec w x : in_wordb w x = true <-> in_word w x.
Proof. unfold in_wordb, in_word. lia. Qed.

Create HintDb ras.
#[export] Hint Resolve pow2_pos uwrap_range uwrap_small : ras.

(** [x & ~mask] with [mask = 2^k - 1] clears the low [k] bits. *)
Lemma land_unot_ones w k a :
  0 <= k <= w -> in_word w a ->
  Z.land a (unot w (2 ^ k - 1)) = a - a mod 2 ^ k.
Proof.
  intros Hk [Ha0 Ha1].
  replace (unot w (2 ^ k - 1)) with (Z.ldiff (Z.ones w) (Z.ones k)).
  - rewrite <- (Z.land_ones a k) by lia.
    rewrite Z.ldiff_land, Z.land_assoc.
    rewrite (Z.land_ones a w) by lia.
    rewrite (Z.mod_small a) by lia.
    rewrite <- Z.ldiff_land, Z.sub_nocarry_ldiff.
    + apply Z.bits_inj'. intros n Hn.
      rewrite !Z.ldiff_spec, Z.land_spec. by destruct (Z.testbit a n), (Z.testbit (Z.ones k) n).
    + apply Z.bits_inj'. intros n Hn.
      rewrite Z.ldiff_spec, Z.land_spec, Z.bits_0.
      by destruct (Z.testbit a n), (Z.testbit (Z.ones k) n).
  - unfold unot. rewrite <- Z.sub_nocarry_ldiff.
    + rewrite !Z.ones_equiv. lia.
    + apply Z.bits_inj'. intros n Hn. rewrite Z.ldiff_spec, Z.bits_0.
      destruct (decide (n < k)).
      * rewrite !Z.ones_spec_low by lia. done.
      * rewrite (Z.ones_spec_high k) by lia. done.
Qed.

Lemma land_ones_mod k a : 0 <= k -> Z.land a (2 ^ k - 1) = a mod 2 ^ k.
Proof.
  intros. replace (2 ^ k - 1) with (Z.ones k) by (rewrite Z.ones_equiv; lia).
  by apply Z.land_ones.
Qed.

Lemma align_down_div k a : 0 <= k -> a - a mod 2 ^ k = 2 ^ k * (a / 2 ^ k).
Proof. intros. pose proof (Z.div_mod a (2 ^ k)). pose proof (pow2_pos k). lia. Qed.

(** A value aligned to [2^k] plus a small one does not carry into its tag. *)
Lemma mod_pow2_mul_add k q r : 0 <= k -> 0 <= r < 2 ^ k -> (q * 2 ^ k + r) mod 2 ^ k = r.
Proof. intros. rewrite Z.add_comm, Z.mod_add, Z.mod_small; lia. Qed.

Lemma div_pow2_mul_add k q r : 0 <= k -> 0 <= r < 2 ^ k -> (q * 2 ^ k + r) / 2 ^ k = q.
Proof. intros. rewrite Z.add_comm, Z.div_add, Z.div_small; lia. Qed.

(** Masking does not exceed the mask. *)
Lemma land_le_r r m : 0 <= r -> 0 <= m -> Z.land r m <= m.
Proof.
  intros Hr Hm. rewrite <- (Z2N.id r), <- (Z2N.id m), <- N2Z.inj_land by done.
  apply N2Z.inj_le, N.land_le_r.
Qed.

(** Shifts and disjoint unions of bit fields as arithmetic. *)
Lemma uwrap_shiftl w t n :
  0 <= n <= w -> uwrap w (Z.shiftl t n) = (t mod 2 ^ (w - n)) * 2 ^ n.
Proof.
  intros Hn. unfold uwrap. rewrite Z.shiftl_mul_pow2 by lia.
  replace (2 ^ w) with (2 ^ (w - n) * 2 ^ n) by (rewrite <- Z.pow_add_r by lia; f_equal; lia).
  apply Z.mul_mod_distr_r; pose proof (pow2_pos n); pose proof (pow2_pos (w - n)); lia.
Qed.

Lemma lor_add_low k q r : 0 <= k -> 0 <= r < 2 ^ k -> Z.lor (q * 2 ^ k) r = q * 2 ^ k + r.
Proof.
  intros Hk Hr. rewrite <- Z.lxor_lor, <- Z.add_nocarry_lxor; [done| |].
  all: apply Z.bits_inj'; intros n Hn; rewrite Z.land_spec, Z.bits_0;
    destruct (decide (n < k));
    [by rewrite Z.mul_pow2_bits_low by lia
    |rewrite <- (Z.mod_small r (2 ^ k)) by done;
     rewrite Z.mod_pow2_bits_high by lia; apply andb_false_r].
Qed.

(** Splitting a number at bit [k]. *)
Lemma split_pow2 k a : 0 <= k -> a = a / 2 ^ k * 2 ^ k + a mod 2 ^ k.
Proof. intros. pose proof (Z.div_mod a (2 ^ k)). pose proof (pow2_pos k). lia. Qed.

(** ** Lists *)

Section lists.
Context {A : Type}.
Implicit Types l : list A.

(** Position and element of the first entry that satisfies a predicate:
    what a C++ range-for with an early return computes. *)
Fixpoint find_first (p : A -> bool) l : option (nat * A) :=
  match l with
  | [] => None
  | x :: l' => if p x then Some (O, x)
               else prod_map S id <$> find_first p l'
  end.

Lemma find_first_Some p l i x :
  find_first p l = Some (i, x) <->
  l !! i = Some x /\ p x = true /\
  forall j y, (j < i)%nat -> l !! j = Some y -> p y = false.
Proof.
  revert i. induction l as [|a l IH]; intros i; simpl.
  - split; [done|]. intros (H & _). by rewrite lookup_nil in H.
  - destruct (p a) eqn:Ea; split.
    + intros [= <- <-]. split_and!; [done..|]. lia.
    + intros (Hl & Hp & Hmin). destruct i as [|i]; [simpl in Hl; congruence|].
      specialize (Hmin O a ltac:(lia) eq_refl). congruence.
    + destruct (find_first p l) as [[i' x']|] eqn:Ef; simpl; [|done].
      intros [= <- <-]. destruct (proj1 (IH i') eq_refl) as (Hl & Hp & Hmin).
      split_and!; [done..|]. intros [|j] y Hj Hy; simpl in *; [congruence|].
      eapply Hmin; [|done]. lia.
    + intros (Hl & Hp & Hmin). destruct i as [|i]; simpl in *; [congruence|].
      rewrite (proj2 (IH i)); [done|]. split_and!; [done..|].
      intros j y Hj Hy. apply (Hmin (S j) y); [lia|done].
Qed.

Lemma find_first_None p l :
  find_first p l = None <-> Forall (fun x => p x = false) l.
Proof.
  induction l as [|a l IH]; simpl.
  - split; [constructor | done].
  - rewrite Forall_cons_iff. destruct (p a) eqn:Ea.
    + split; [done | intros [? _]; congruence].
    + destruct (find_first p l); simpl; split; try done.
      * intros [_ H]. by apply IH in H.
      * intros _. split; [done|]. by apply IH.
Qed.

(** Remove the entry at an index ([list::erase(it)]). *)
Definition remove_at (i : nat) l : list A := take i l ++ drop (S i) l.

(** Insert before an index ([list::insert(it, x)]). *)
Definition insert_at (i : nat) (x : A) l : list A := take i l ++ x :: drop i l.

Lemma length_remove_at i l :
  (i < length l)%nat -> length (remove_at i l) = pred (length l).
Proof.
  intros. unfold remove_at. rewrite length_app, length_take, length_drop. lia.
Qed.

Lemma length_insert_at i x l :
  length (insert_at i x l) = S (length l).
Proof.
  unfold insert_at. rewrite length_app. simpl.
  rewrite length_take, length_drop. lia.
Qed.

Lemma insert_at_Permutation i x l : insert_at i x l ≡ₚ x :: l.
Proof.
  unfold insert_at. rewrite <- Permutation_middle. by rewrite take_drop.
Qed.

Lemma remove_at_Permutation i x l :
  l !! i = Some x -> x :: remove_at i l ≡ₚ l.
Proof.
  intros H. unfold remove_at. rewrite Permutation_middle.
  by rewrite take_drop_middle.
Qed.

(** Byte ranges: [slice] is the source of a [memcpy], [splice] its effect on
    the destination. *)
Definition slice (off n : nat) l : list A := take n (drop off l).
Definition splice (off : nat) (src l : list A) : list A :=
  take off l ++ src ++ drop (off + length src) l.

Lemma length_slice off n l : (off + n <= length l)%nat -> length (slice off n l) = n.
Proof. intros. unfold slice. rewrite length_take, length_drop. lia. Qed.

Lemma length_splice off src l :
  (off + length src <= length l)%nat -> length (splice off src l) = length l.
Proof.
  intros. unfold splice. rewrite !length_app, length_take, length_drop. lia.
Qed.

Lemma lookup_splice off src l i :
  (off + length src <= length l)%nat ->
  splice off src l !! i =
    if decide (off <= i < off + length src)%nat then src !! (i - off)%nat else l !! i.
Proof.
  intros Hle. unfold splice.
  assert (Ht : length (take off l) = off) by (rewrite length_take; lia).
  destruct (decide (i < off)%nat).
  - rewrite lookup_app_l by lia. rewrite lookup_take_lt by lia.
    by rewrite decide_False by lia.
  - rewrite lookup_app_r by lia. rewrite Ht.
    destruct (decide (i - off < length src)%nat).
    + rewrite lookup_app_l by lia. by rewrite decide_True by lia.
    + rewrite lookup_app_r by lia. rewrite lookup_drop, decide_False by lia.
      f_equal. lia.
Qed.

Lemma lookup_slice off n l i :
  slice off n l !! i = if decide (i < n)%nat then l !! (off + i)%nat else None.
Proof.
  unfold slice. case_decide.
  - rewrite lookup_take_lt by lia. apply lookup_drop.
  - apply lookup_take_ge. lia.
Qed.

Lemma slice_splice off src l :
  (off + length src <= length l)%nat -> slice off (length src) (splice off src l) = src.
Proof.
  intros. apply list_eq. intros i. rewrite lookup_slice. case_decide.
  - rewrite lookup_splice by done. rewrite decide_True by lia. f_equal. lia.
  - symmetry. apply lookup_ge_None. lia.
Qed.
End lists.

Lemma Forall2_impl_l {A B} (P Q : A -> B -> Prop) l k :
  Forall2 P l k -> (forall x y, x ∈ l -> P x y -> Q x y) -> Forall2 Q l k.
Proof. induction 1; constructor; set_solver. Qed.
