(* ===== verification/BaseUtil.v ===== *)
(** * The base utilities the cache code calls

    [IntMath] models src/gem5/src/base/intmath.hh, [Bitfield] the extraction
    helpers of base/bitfield.hh, [SatCounter] the saturating counter of
    base/sat_counter.hh, and [RandomMT] the interface of base/random.hh: the
    Mersenne twister itself is the C++ library's, so a source of draws is a
    parameter whose only law is the range of [uniform_int_distribution]. *)

From Stdlib Require Import Zpow_facts.
From S2P Require Import Prelude.
Local Open Scope Z_scope.

(** ** base/intmath.hh *)
Module IntMath.

(** The loop of [power]: [e] is a uint32_t that is halved each round, so 32
    rounds exhaust it. *)
Fixpoint power_loop (fuel : nat) (e result component : Z) : Z :=
  match fuel with
  | O => result
  | S fuel' =>
      if truthy e then
        let result := if truthy (Z.land e 1) then u64 (result * component) else result in
        power_loop fuel' (Z.shiftr e 1) result (u64 (component * component))
      else result
  end.

Definition power (n e : Z) : Z := power_loop 32 e 1 n.

(** One rung of the binary search of [floorLog2]. *)
Definition log2_rung (k m : Z) (s : Z * Z) : Z * Z :=
  let '(y, ux) := s in
  if truthy (Z.land ux m) then (y + k, Z.shiftr ux k) else (y, ux).

(** [ts] is [sizeof(T)]: the wider rungs are compiled out for narrow types. *)
Definition floorLog2 (ts x : Z) : res Z :=
  assert! (0 <? x) in
  let s := (0, x) in
  let s := if 8 <=? ts then log2_rung 32 0xffffffff00000000 s else s in
  let s := if 4 <=? ts then log2_rung 16 0x00000000ffff0000 s else s in
  let s := if 2 <=? ts then log2_rung 8 0x000000000000ff00 s else s in
  let s := log2_rung 4 0x00000000000000f0 s in
  let s := log2_rung 2 0x000000000000000c s in
  let s := log2_rung 1 0x0000000000000002 s in
  Ok (fst s).

Definition ceilLog2 (ts n : Z) : res Z :=
  assert! (0 <? n) in
  if n =? 1 then Ok 0
  else let* y := floorLog2 ts (n - 1) in Ok (y + 1).

Definition isPowerOf2 (n : Z) : bool :=
  truthy n && negb (truthy (Z.land n (n - 1))).

(** [w] is the width of [T] in the three functions below. *)
Definition divCeil (w a b : Z) : Z := uwrap w (uwrap w (a + b) - 1) / b.

Definition roundUp (w val align : Z) : res Z :=
  assert! (isPowerOf2 align) in
  let mask := uwrap w (uwrap w align - 1) in
  Ok (Z.land (uwrap w (val + mask)) (unot w mask)).

Definition roundDown (w val align : Z) : res Z :=
  assert! (isPowerOf2 align) in
  let mask := uwrap w (uwrap w align - 1) in
  Ok (Z.land val (unot w mask)).

(** *** Lemmas *)

Lemma mul_pow_wrap r c e : u64 (r * u64 c ^ e) = u64 (r * c ^ e).
Proof.
  unfold uwrap. rewrite <- (Z.mul_mod_idemp_r _ (_ ^ _)) by lia.
  rewrite <- Zpower_mod by lia. by rewrite Z.mul_mod_idemp_r by lia.
Qed.

Lemma power_loop_spec fuel : forall e result component,
  0 <= e < 2 ^ Z.of_nat fuel -> in_word 64 result ->
  power_loop fuel e result component = u64 (result * component ^ e).
Proof.
  induction fuel as [|fuel IH]; intros e r c He Hr; simpl.
  - replace e with 0 by (simpl in He; lia). rewrite Z.pow_0_r, Z.mul_1_r.
    symmetry. by apply uwrap_small.
  - unfold truthy. destruct (Z.eqb_spec e 0) as [->|Hne]; simpl.
    + rewrite Z.pow_0_r, Z.mul_1_r. symmetry. by apply uwrap_small.
    + rewrite Z.shiftr_div_pow2 by lia. change (2 ^ 1) with 2.
      assert (Hland : Z.land e 1 = e mod 2) by apply (Z.land_ones e 1 ltac:(lia)).
      rewrite Hland.
      assert (0 <= e / 2 < 2 ^ Z.of_nat fuel) as Hdiv.
      { split; [apply Z.div_pos; lia|]. apply Z.div_lt_upper_bound; [lia|].
        rewrite Nat2Z.inj_succ, Z.pow_succ_r in He by lia. lia. }
      assert (He2 : c ^ e = (c * c) ^ (e / 2) * c ^ (e mod 2)).
      { rewrite (Z.div_mod e 2) at 1 by lia.
        rewrite Z.pow_add_r, Z.pow_mul_r, Z.pow_2_r; [done|lia..|].
        apply Z.mod_pos_bound; lia. }
      rewrite He2. pose proof (Z.mod_pos_bound e 2 ltac:(lia)) as Hm.
      destruct (Z.eqb_spec (e mod 2) 0) as [Hz|Hz]; simpl.
      * rewrite IH by done. rewrite Hz, Z.pow_0_r, Z.mul_1_r. apply mul_pow_wrap.
      * replace (e mod 2) with 1 by lia. rewrite Z.pow_1_r.
        rewrite IH by (auto with ras lia). rewrite mul_pow_wrap. unfold uwrap.
        rewrite Z.mul_mod_idemp_l by lia. f_equal. ring.
Qed.

Lemma land_high_ones k ux :
  0 <= k -> 0 <= ux < 2 ^ (2 * k) ->
  Z.land ux (Z.shiftl (Z.ones k) k) = Z.shiftl (Z.shiftr ux k) k.
Proof.
  intros Hk Hux.
  assert (Hs : Z.shiftr ux k = Z.land (Z.shiftr ux k) (Z.ones k)).
  { rewrite Z.land_ones, Z.shiftr_div_pow2 by lia. symmetry. apply Z.mod_small.
    split; [apply Z.div_pos; [lia|by apply pow2_pos]|].
    apply Z.div_lt_upper_bound; [by apply pow2_pos|].
    rewrite <- Z.pow_add_r by lia. replace (k + k) with (2 * k) by lia. lia. }
  rewrite Hs, Z.shiftl_land. apply Z.bits_inj'. intros n Hn.
  rewrite !Z.land_spec, !Z.shiftl_spec by lia.
  destruct (decide (n < k)).
  - rewrite !(Z.testbit_neg_r _ (n - k)) by lia. by rewrite !andb_false_r.
  - rewrite Z.shiftr_spec by lia. by replace (n - k + k) with n by lia.
Qed.

(** A rung keeps [y + log2 ux] and halves the width of [ux]. *)
Lemma log2_rung_spec k m y ux :
  0 < k -> m = Z.shiftl (Z.ones k) k -> 0 < ux < 2 ^ (2 * k) ->
  let '(y', ux') := log2_rung k m (y, ux) in
  0 < ux' < 2 ^ k /\ y' + Z.log2 ux' = y + Z.log2 ux.
Proof.
  intros Hk -> Hux. unfold log2_rung, truthy.
  rewrite land_high_ones by lia.
  assert (0 < 2 ^ k) by (apply pow2_pos; lia).
  assert (Hq : Z.shiftr ux k = ux / 2 ^ k) by (apply Z.shiftr_div_pow2; lia).
  rewrite Z.shiftl_mul_pow2 by lia.
  destruct (Z.eqb_spec (Z.shiftr ux k * 2 ^ k) 0) as [E|E]; simpl.
  - split; [|lia]. split; [lia|].
    assert (ux / 2 ^ k = 0) by nia. apply Z.div_small_iff in H0; lia.
  - assert (0 < ux / 2 ^ k) as Hpos.
    { pose proof (Z.div_pos ux (2 ^ k) ltac:(lia) ltac:(lia)). nia. }
    split.
    + split; [lia|]. rewrite Hq. apply Z.div_lt_upper_bound; [lia|].
      rewrite <- Z.pow_add_r by lia. replace (k + k) with (2 * k) by lia. lia.
    + rewrite Z.log2_shiftr by lia.
      assert (k <= Z.log2 ux).
      { apply Z.log2_le_pow2; [lia|]. destruct (decide (2 ^ k <= ux)); [done|].
        rewrite Z.div_small in Hpos; lia. }
      lia.
Qed.

Lemma log2_last x : 0 < x < 2 ^ 1 -> Z.log2 x = 0.
Proof. intros. by replace x with 1 by lia. Qed.

(** Apply [log2_rung_spec] to the next rung of the search. *)
Ltac rung k m :=
  match goal with
  | Hb : 0 < ?ux < _ |- context [log2_rung k m (?y, ?ux)] =>
      let H := fresh "H" in let y' := fresh "y" in let u' := fresh "ux" in
      pose proof (log2_rung_spec k m y ux ltac:(lia) ltac:(reflexivity) Hb) as H;
      destruct (log2_rung k m (y, ux)) as [y' u']; destruct H as [? ?]
  end.

Lemma floorLog2_correct ts x :
  ts ∈ [1; 2; 4; 8] -> 0 < x < 2 ^ (8 * ts) -> floorLog2 ts x = Ok (Z.log2 x).
Proof.
  intros Hts Hx. unfold floorLog2. destruct (Z.ltb_spec 0 x); [|lia]. f_equal.
  apply list_elem_of_In in Hts. destruct Hts as [<-|[<-|[<-|[<-|[]]]]];
    cbv [Z.leb Z.compare Pos.compare Pos.compare_cont].
  4: rung 32 0xffffffff00000000.
  3,4: rung 16 0x00000000ffff0000.
  2-4: rung 8 0x000000000000ff00.
  all: rung 4 0x00000000000000f0; rung 2 0x000000000000000c;
       rung 1 0x0000000000000002; simpl.
  all: match goal with H : 0 < ?u < 2 ^ 1 |- _ => apply log2_last in H end; lia.
Qed.

Lemma land_pred_pow2_iff n :
  0 < n -> Z.land n (n - 1) = 0 <-> exists k, 0 <= k /\ n = 2 ^ k.
Proof.
  intros Hn. split.
  - intros Hz. exists (Z.log2 n). split; [apply Z.log2_nonneg|].
    destruct (Z.log2_spec n Hn) as [Hlo Hhi].
    destruct (decide (n = 2 ^ Z.log2 n)) as [|Hne]; [done|exfalso].
    pose proof (pow2_pos (Z.log2 n) (Z.log2_nonneg n)).
    assert (Hbit : Z.testbit (Z.land n (n - 1)) (Z.log2 n) = true).
    { rewrite Z.land_spec, Z.bit_log2 by done. simpl.
      replace (Z.log2 n) with (Z.log2 (n - 1)); [apply Z.bit_log2; lia|].
      apply Z.log2_unique; [apply Z.log2_nonneg|lia]. }
    by rewrite Hz, Z.bits_0 in Hbit.
  - intros (k & Hk & ->).
    replace (2 ^ k - 1) with (Z.ones k) by (rewrite Z.ones_equiv; lia).
    rewrite Z.land_ones by lia. by apply Z.mod_same, Z.pow_nonzero.
Qed.

Lemma isPowerOf2_spec n :
  0 <= n -> isPowerOf2 n = true <-> exists k, 0 <= k /\ n = 2 ^ k.
Proof.
  intros Hn. unfold isPowerOf2, truthy.
  destruct (Z.eqb_spec n 0) as [->|Hne]; simpl.
  - split; [done|]. intros (k & Hk & Hp). pose proof (pow2_pos k Hk). lia.
  - rewrite <- land_pred_pow2_iff by lia. destruct (Z.eqb_spec (Z.land n (n - 1)) 0); simpl; naive_solver.
Qed.

Lemma isPowerOf2_pow2 k : 0 <= k -> isPowerOf2 (2 ^ k) = true.
Proof.
  intros. apply isPowerOf2_spec; [|by exists k].
  pose proof (pow2_pos k); lia.
Qed.

Lemma pow2_in_word w k : 0 <= k < w -> in_word w (2 ^ k).
Proof.
  intros. split; [pose proof (pow2_pos k); lia|]. by apply Z.pow_lt_mono_r; lia.
Qed.

Lemma round_mask w k : 0 <= k < w -> uwrap w (uwrap w (2 ^ k) - 1) = 2 ^ k - 1.
Proof.
  intros Hk. rewrite (uwrap_small w (2 ^ k)) by by apply pow2_in_word.
  apply uwrap_small. pose proof (pow2_in_word w k Hk) as [_ ?].
  pose proof (pow2_pos k ltac:(lia)). split; lia.
Qed.

Lemma roundDown_pow2 w k val :
  0 <= k < w -> in_word w val ->
  roundDown w val (2 ^ k) = Ok (val - val mod 2 ^ k).
Proof.
  intros. unfold roundDown. rewrite isPowerOf2_pow2 by lia.
  rewrite round_mask by lia. rewrite land_unot_ones; [done|lia|done].
Qed.

Lemma roundUp_pow2 w k val :
  0 <= k < w -> in_word w val -> in_word w (val + (2 ^ k - 1)) ->
  roundUp w val (2 ^ k) = Ok ((val + (2 ^ k - 1)) - (val + (2 ^ k - 1)) mod 2 ^ k).
Proof.
  intros. unfold roundUp. rewrite isPowerOf2_pow2 by lia.
  rewrite round_mask by lia. rewrite (uwrap_small w (val + _)) by done.
  rewrite land_unot_ones; [done|lia|done].
Qed.

End IntMath.

(** ** base/bitfield.hh *)
Module Bitfield.

Definition mask (nbits : Z) : Z :=
  if 64 <=? nbits then 2 ^ 64 - 1 else Z.shiftl 1 nbits - 1.

Definition bits (val first last : Z) : res Z :=
  assert! (last <=? first) in
  Ok (Z.land (Z.shiftr val last) (mask (first - last + 1))).

Definition bit (val b : Z) : res Z := bits val b b.

Definition mbits (val first last : Z) : Z :=
  Z.land val (Z.land (mask (first + 1)) (unot 64 (mask last))).

Definition mask2 (first last : Z) : Z := mbits (2 ^ 64 - 1) first last.

(** [insertBits] at [T = uint64_t]. *)
Definition insertBits (val first last bit_val : Z) : res Z :=
  assert! (last <=? first) in
  let bmask := mask2 first last in
  let val := Z.land val (unot 64 bmask) in
  Ok (Z.lor val (Z.land (u64 (Z.shiftl bit_val last)) bmask)).

Lemma mask_ones n : 0 <= n <= 64 -> mask n = Z.ones n.
Proof.
  intros Hn. unfold mask. rewrite Z.ones_equiv.
  destruct (Z.leb_spec 64 n).
  - replace n with 64 by lia. done.
  - rewrite Z.shiftl_mul_pow2 by lia. lia.
Qed.

Lemma bits_spec val first last :
  0 <= last <= first -> first < 64 ->
  bits val first last = Ok ((val / 2 ^ last) mod 2 ^ (first - last + 1)).
Proof.
  intros. unfold bits. destruct (Z.leb_spec last first); [|lia].
  rewrite mask_ones, Z.land_ones, Z.shiftr_div_pow2 by lia. done.
Qed.

(** The complement of a w-bit value, bit by bit. *)
Lemma unot_testbit w x i :
  0 <= w -> in_word w x -> 0 <= i ->
  Z.testbit (unot w x) i = (i <? w) && negb (Z.testbit x i).
Proof.
  intros Hw [Hx0 Hx1] Hi. unfold unot.
  replace (2 ^ w - 1) with (Z.ones w) by (rewrite Z.ones_equiv; lia).
  rewrite Z.sub_nocarry_ldiff.
  - rewrite Z.ldiff_spec. destruct (Z.ltb_spec i w).
    + by rewrite Z.ones_spec_low by lia.
    + by rewrite Z.ones_spec_high by lia.
  - apply Z.bits_inj'. intros n Hn. rewrite Z.ldiff_spec, Z.bits_0.
    destruct (decide (n < w)).
    + rewrite Z.ones_spec_low by lia. by rewrite andb_false_r.
    + rewrite <- (Z.mod_small x (2 ^ w)) by lia.
      by rewrite Z.mod_pow2_bits_high by lia.
Qed.

Lemma ones_testbit k i : 0 <= k -> 0 <= i -> Z.testbit (Z.ones k) i = (i <? k).
Proof.
  intros. destruct (Z.ltb_spec i k); [by apply Z.ones_spec_low|by apply Z.ones_spec_high].
Qed.

Lemma in_word_ones w k : 0 <= k <= w -> in_word w (Z.ones k).
Proof.
  intros Hk. unfold in_word. rewrite Z.ones_equiv.
  pose proof (pow2_pos k). pose proof (Z.pow_le_mono_r 2 k w). lia.
Qed.

Lemma mbits_testbit val first last i :
  0 <= last <= first -> first < 64 -> 0 <= i ->
  Z.testbit (mbits val first last) i = Z.testbit val i && (last <=? i) && (i <=? first).
Proof.
  intros Hl Hf Hi. unfold mbits. rewrite !mask_ones by lia.
  rewrite !Z.land_spec, unot_testbit, !ones_testbit by first [lia|by apply in_word_ones; lia].
  destruct (Z.testbit val i); simpl; [|done].
  destruct (Z.ltb_spec i (first + 1)), (Z.ltb_spec i 64), (Z.ltb_spec i last),
    (Z.leb_spec last i), (Z.leb_spec i first); simpl; lia || done.
Qed.

Lemma bit_spec a b : 0 <= b < 64 -> bit a b = Ok (Z.b2z (Z.testbit a b)).
Proof.
  intros Hb. unfold bit. rewrite bits_spec by lia. replace (b - b + 1) with 1 by lia.
  f_equal. change (2 ^ 1) with 2. symmetry. apply Z.testbit_spec'. lia.
Qed.

(** A one-bit insertion changes that bit and no other. *)
Lemma insertBits_bit val b (v : bool) :
  0 <= b < 64 -> in_word 64 val ->
  exists r, insertBits val b b (Z.b2z v) = Ok r /\ 0 <= r /\
    forall i, 0 <= i -> Z.testbit r i = if i =? b then v else Z.testbit val i.
Proof.
  intros Hb Hval. unfold insertBits. rewrite (proj2 (Z.leb_le b b)) by lia.
  assert (Hm : forall i, 0 <= i -> Z.testbit (mask2 b b) i = (i =? b)).
  { intros i Hi. unfold mask2. rewrite mbits_testbit by lia.
    change (2 ^ 64 - 1) with (Z.ones 64). rewrite ones_testbit by lia. lia. }
  assert (Hmw : in_word 64 (mask2 b b)).
  { unfold mask2, mbits. change (2 ^ 64 - 1) with (Z.ones 64).
    rewrite Z.land_comm, Z.land_ones by lia. by apply uwrap_range. }
  eexists. split; [done|]. split.
  { apply Z.lor_nonneg. split; apply Z.land_nonneg; [left; apply Hval|right; apply Hmw]. }
  intros i Hi. rewrite Z.lor_spec, !Z.land_spec, unot_testbit, Hm by done.
  destruct (Z.eqb_spec i b) as [->|Hne]; simpl.
  - rewrite andb_false_r, andb_false_r, andb_true_r. simpl.
    rewrite uwrap_small.
    + rewrite Z.shiftl_spec, Z.sub_diag by lia. by destruct v.
    + unfold in_word. rewrite Z.shiftl_mul_pow2 by lia.
      assert (2 ^ b <= 2 ^ 63) by (apply Z.pow_le_mono_r; lia). pose proof (pow2_pos b).
      destruct v; simpl; lia.
  - rewrite andb_false_r, orb_false_r, andb_true_r. simpl.
    destruct (Z.ltb_spec i 64); [by rewrite andb_true_r|]. rewrite andb_false_r.
    symmetry. rewrite <- (Z.mod_small val (2 ^ 64)) by done.
    by apply Z.mod_pow2_bits_high.
Qed.

End Bitfield.

(** ** base/sat_counter.hh

    [w] is the width of [T] in bits (8, 16, 32 or 64). *)
Module SatCounter.

Record t := mk { initialVal : Z; maxVal : Z; counter : Z }.

Definition set_counter (c : Z) (s : t) : t :=
  mk (initialVal s) (maxVal s) c.

(** Constructor. [1ULL << bits] is undefined from 64 bits on. *)
Definition make (w bits initial_val : Z) : res t :=
  if 64 <=? bits then Err Undefined else
  let maxVal := uwrap w (Z.shiftl 1 bits - 1) in
  fatal_if! (w <? bits) in
  fatal_if! (maxVal <? initial_val) in
  Ok (mk initial_val maxVal initial_val).

Definition pre_inc (s : t) : t :=
  if counter s <? maxVal s then set_counter (counter s + 1) s else s.

Definition pre_dec (s : t) : t :=
  if 0 <? counter s then set_counter (counter s - 1) s else s.

(** The type in which a [T] is shifted: integral promotion widens the narrow
    ones to [int]. *)
Definition promoted (w : Z) : Z := Z.max 32 w.

Definition shr_assign (w shift : Z) (s : t) : res t :=
  assert! (0 <=? shift) in
  if promoted w <=? shift then Err Undefined
  else Ok (set_counter (Z.shiftr (counter s) shift) s).

(** The shifted value is truncated to [T] before it is compared with
    [maxVal]; a promoted [int] that overflows its unsigned range is
    undefined. *)
Definition shl_assign (w shift : Z) (s : t) : res t :=
  assert! (0 <=? shift) in
  if promoted w <=? shift then Err Undefined else
  let wide := Z.shiftl (counter s) shift in
  if (w <? 32) && (2 ^ 32 <=? wide) then Err Undefined else
  let c := uwrap w wide in
  Ok (set_counter (if maxVal s <? c then maxVal s else c) s).

Definition add_nonneg (value : Z) (s : t) : t :=
  if value <=? maxVal s - counter s
  then set_counter (counter s + value) s
  else set_counter (maxVal s) s.

Definition sub_nonneg (value : Z) (s : t) : t :=
  if value <? counter s
  then set_counter (counter s - value) s
  else set_counter 0 s.

(** [value] is a [long long], whose least value has no negation. *)
Definition add_assign (value : Z) (s : t) : res t :=
  if 0 <=? value then Ok (add_nonneg value s)
  else if value =? - 2 ^ 63 then Err Undefined
  else Ok (sub_nonneg (- value) s).

Definition sub_assign (value : Z) (s : t) : res t :=
  if 0 <=? value then Ok (sub_nonneg value s)
  else if value =? - 2 ^ 63 then Err Undefined
  else Ok (add_nonneg (- value) s).

Definition reset (s : t) : t := set_counter (initialVal s) s.

Definition isSaturated (s : t) : bool := counter s =? maxVal s.

(** Returns the increment, as a uint8_t. *)
Definition saturate (s : t) : Z * t :=
  (uwrap 8 (maxVal s - counter s), set_counter (maxVal s) s).

(** The operations of a counter, so that a run is a list of them. *)
Inductive op :=
  | Inc | Dec | Shr (n : Z) | Shl (n : Z) | Add (v : Z) | Sub (v : Z)
  | Reset | Saturate.

Definition apply (w : Z) (s : t) (o : op) : res t :=
  match o with
  | Inc => Ok (pre_inc s)
  | Dec => Ok (pre_dec s)
  | Shr n => shr_assign w n s
  | Shl n => shl_assign w n s
  | Add v => add_assign v s
  | Sub v => sub_assign v s
  | Reset => Ok (reset s)
  | Saturate => Ok (saturate s).2
  end.

Definition wf (s : t) : Prop :=
  0 <= counter s <= maxVal s /\ 0 <= initialVal s <= maxVal s.

Lemma make_wf w bits v s :
  0 <= w -> 0 <= v -> make w bits v = Ok s -> wf s.
Proof.
  intros Hw Hv H. unfold make in H. simplify_res. unfold wf; simpl. lia.
Qed.

Lemma shiftr_le x n : 0 <= x -> 0 <= n -> 0 <= Z.shiftr x n <= x.
Proof.
  intros. rewrite Z.shiftr_div_pow2 by done. pose proof (pow2_pos n).
  split; [apply Z.div_pos; lia|]. apply Z.div_le_upper_bound; nia.
Qed.

Lemma apply_wf w s o s' : 0 <= w -> wf s -> apply w s o = Ok s' -> wf s'.
Proof.
  intros Hw [Hc Hi] H. destruct o; simpl in H;
    unfold pre_inc, pre_dec, shr_assign, shl_assign, add_assign, sub_assign,
      add_nonneg, sub_nonneg, reset in H;
    simplify_res; repeat case_match; simplify_res; unfold wf; simpl; try lia.
  - pose proof (shiftr_le (counter s) n). lia.
  - pose proof (uwrap_range w (Z.shiftl (counter s) n) Hw) as [? ?]. lia.
Qed.

(** A saturating counter never leaves [0, maxVal]: from any constructor
    call that succeeds, every sequence of increments, decrements, shifts,
    additions, subtractions, resets and saturations that completes keeps the
    counter (and its reset value) in range. *)
Theorem run_in_range w bits v ops s s' :
  0 <= w -> 0 <= v -> make w bits v = Ok s ->
  foldM (apply w) ops s = Ok s' ->
  0 <= counter s' <= maxVal s' /\ 0 <= initialVal s' <= maxVal s'.
Proof.
  intros Hw Hv Hm Hr. apply make_wf in Hm; [|done..].
  revert s Hm Hr. induction ops as [|o ops IH]; simpl; intros s Hwf Hr; simplify_res.
  - done.
  - apply (IH a); [|done]. by apply (apply_wf w s o).
Qed.

Lemma run_in_range_witness :
  exists s s', make 8 3 2 = Ok s /\ foldM (apply 8) [Inc; Shl 2; Add (-9); Saturate] s = Ok s'
    /\ (0 <= counter s' <= maxVal s' /\ 0 <= initialVal s' <= maxVal s').
Proof.
  eexists _, _. split; [reflexivity|]. split; [vm_compute; reflexivity|].
  apply (run_in_range 8 3 2 [Inc; Shl 2; Add (-9); Saturate] (mk 2 7 2) (mk 2 7 7));
    [lia|lia|reflexivity|vm_compute; reflexivity].
Defined.

(** Shifting a narrow saturating counter left can lose its high bits
    instead of saturating: the product is truncated to [T] before it is
    compared with the maximum, so a 6-bit counter at 33 shifted by 3 reads 8
    although 33 * 8 exceeds the maximum of 63. *)
Theorem shl_does_not_saturate :
  exists s s', make 8 6 33 = Ok s /\ shl_assign 8 3 s = Ok s' /\
    maxVal s < counter s * 2 ^ 3 /\ isSaturated s' = false /\ counter s' = 8.
Proof. by eexists _, _. Qed.

End SatCounter.

(** ** base/random.hh

    [draw n lo hi] is the [n]-th value the generator hands out, asked of
    [uniform_int_distribution(lo, hi)]. *)
Class RandomSource := {
  draw : nat -> Z -> Z -> Z;
  draw_range : forall n lo hi, lo <= hi -> lo <= draw n lo hi <= hi
}.

Module RandomMT.
Section random.
Context `{RandomSource}.

(** The generator state is the number of values drawn so far. An inverted
    range is a precondition violation of the distribution. *)
Definition random (lo hi : Z) (rng : nat) : res (Z * nat) :=
  if hi <? lo then Err Undefined else Ok (draw rng lo hi, S rng).

(** [random<uint64_t>()]: the whole range of the type. *)
Definition random_u64 (rng : nat) : res (Z * nat) :=
  random 0 (2 ^ 64 - 1) rng.

Lemma random_ok lo hi rng :
  lo <= hi -> exists v, random lo hi rng = Ok (v, S rng) /\ lo <= v <= hi.
Proof.
  intros Hle. unfold random. destruct (Z.ltb_spec hi lo); [lia|].
  eexists. split; [done|]. by apply draw_range.
Qed.

Lemma random_range lo hi rng v rng' :
  random lo hi rng = Ok (v, rng') -> lo <= v <= hi /\ rng' = S rng.
Proof.
  unfold random. destruct (Z.ltb_spec hi lo); [done|].
  intros [= <- <-]. split; [by apply draw_range|done].
Qed.
End random.

(** A concrete source, for running the model: the n-th draw walks the range. *)
Definition cycle_draw (n : nat) (lo hi : Z) : Z :=
  lo + Z.of_nat n mod (Z.max 1 (hi - lo + 1)).

#[global] Program Instance cycle_source : RandomSource := {| draw := cycle_draw |}.
Next Obligation.
  intros n lo hi Hle. unfold cycle_draw.
  pose proof (Z.mod_pos_bound (Z.of_nat n) (Z.max 1 (hi - lo + 1))). lia.
Qed.

End RandomMT.

(** ** base/flags.hh *)
Module Flags.

Definition isSet (f mask : Z) : bool := truthy (Z.land f mask).
Definition allSet (f mask : Z) : bool := Z.land f mask =? mask.
Definition noneSet (f mask : Z) : bool := Z.land f mask =? 0.
Definition clear (f mask : Z) : Z := Z.ldiff f mask.
Definition set (f mask : Z) : Z := Z.lor f mask.
Definition set_cond (f mask : Z) (condition : bool) : Z :=
  if condition then set f mask else clear f mask.
Definition replace (f flags mask : Z) : Z :=
  Z.lor (Z.ldiff f mask) (Z.land flags mask).

Lemma truthy_lor a b : truthy (Z.lor a b) = truthy a || truthy b.
Proof.
  unfold truthy.
  destruct (Z.eqb_spec a 0) as [->|Ha], (Z.eqb_spec b 0) as [->|Hb]; simpl; try done.
  - by apply negb_true_iff, Z.eqb_neq.
  - rewrite Z.lor_0_r. by apply negb_true_iff, Z.eqb_neq.
  - apply negb_true_iff, Z.eqb_neq. by rewrite Z.lor_eq_0_iff; intros [? _].
Qed.

Lemma isSet_set f m m' : isSet (set f m) m' = isSet f m' || truthy (Z.land m m').
Proof. unfold isSet, set. rewrite Z.land_lor_distr_l. apply truthy_lor. Qed.

(** Clearing disjoint bits is invisible, clearing a superset hides the bit. *)
Lemma isSet_clear_disjoint f m m' : Z.land m m' = 0 -> isSet (clear f m) m' = isSet f m'.
Proof.
  intros Hd. unfold isSet, clear. f_equal. apply Z.bits_inj'. intros n Hn.
  rewrite !Z.land_spec, Z.ldiff_spec.
  assert (Z.testbit (Z.land m m') n = false) as Hb by (rewrite Hd; apply Z.bits_0).
  rewrite Z.land_spec in Hb.
  by destruct (Z.testbit f n), (Z.testbit m n), (Z.testbit m' n).
Qed.

Lemma isSet_clear_sub f m m' : Z.land m m' = m' -> isSet (clear f m) m' = false.
Proof.
  intros Hs. unfold isSet, clear, truthy.
  replace (Z.land (Z.ldiff f m) m') with 0; [done|].
  symmetry. apply Z.bits_inj'. intros n Hn. rewrite Z.land_spec, Z.ldiff_spec, Z.bits_0.
  assert (Z.testbit (Z.land m m') n = Z.testbit m' n) as Hb by by rewrite Hs.
  rewrite Z.land_spec in Hb.
  by destruct (Z.testbit f n), (Z.testbit m n), (Z.testbit m' n).
Qed.

(** Keeping only the bits of a mask. *)
Lemma isSet_land f m m' : isSet (Z.land f m) m' = truthy (Z.land f (Z.land m m')).
Proof. unfold isSet. by rewrite Z.land_assoc. Qed.

End Flags.
