(* ===== verification/CircularQueue.v ===== *)
(** * Circular queues: base/circular_queue.hh

    [CircularQueue] is a vector of [_capacity] slots addressed by indices that only
    grow; an index is reduced modulo the capacity when a slot is read or written.
    Popping and advancing the tail move the bounds and leave the slots alone, so the
    slots outside the queue keep their last values and come back into it: the load and
    store queues rely on that. The abstract queue [Spec] therefore has the elements of
    the queue and the [spare] slots, in the order in which they will be reused. *)

From S2P Require Import Prelude.

Local Open Scope Z_scope.

Module CircularQueue.

Record t (A : Type) := mk {
  data : list A;
  _capacity : Z;
  _size : Z;
  _head : Z
}.
Arguments mk {A}.
Arguments data {A}.
Arguments _capacity {A}.
Arguments _size {A}.
Arguments _head {A}.

(** An iterator is an index; [_cq] tells whether it points to a queue at all. *)
Record iterator := It { _cq : bool; _idx : Z }.

Section queue.
Context {A : Type}.
Implicit Types (q : t A) (x : A).

(** The constructor; [x] is a default-constructed element. *)
Definition make x (size : Z) : t A := mk (replicate (Z.to_nat size) x) size 0 1.

(** [operator\[\]], read and written through. *)
Definition slot (index : Z) q : res nat :=
  assert! (0 <=? index) in
  if _capacity q =? 0 then Err Undefined else Ok (Z.to_nat (index mod _capacity q)).
Definition get (index : Z) q : res A :=
  let* n := slot index q in
  match data q !! n with Some x => Ok x | None => Err Undefined end.
Definition set (index : Z) x q : res (t A) :=
  let* n := slot index q in
  if (n <? length (data q))%nat then Ok (mk (<[n := x]> (data q)) (_capacity q) (_size q) (_head q))
  else Err Undefined.

Definition flush q : t A := mk (data q) (_capacity q) 0 1.
Definition isValidIdx (idx : Z) q : bool := (_head q <=? idx) && (idx <? u64 (_head q + _size q)).
Definition head q : Z := _head q.
Definition tail q : Z := u64 (_head q + _size q - 1).
Definition capacity q : Z := _capacity q.
Definition size q : Z := _size q.
Definition empty q : bool := _size q =? 0.
Definition full q : bool := _size q =? _capacity q.
Definition front q : res A := get (head q) q.
Definition back q : res A := get (tail q) q.
Definition set_front x q : res (t A) := set (head q) x q.
Definition set_back x q : res (t A) := set (tail q) x q.

Definition pop_front (num_elem : Z) q : res (t A) :=
  assert! (num_elem <=? size q) in
  Ok (mk (data q) (_capacity q) (u64 (_size q - num_elem)) (u64 (_head q + num_elem))).
Definition pop_back q : res (t A) :=
  assert! negb (empty q) in Ok (mk (data q) (_capacity q) (u64 (_size q - 1)) (_head q)).
Definition advance_tail q : t A :=
  if full q then mk (data q) (_capacity q) (_size q) (u64 (_head q + 1))
  else mk (data q) (_capacity q) (u64 (_size q + 1)) (_head q).
Definition push_back x q : res (t A) := set_back x (advance_tail q).
Definition advance_tail_n (len : Z) q : t A :=
  let remaining := u64 (_capacity q - _size q) in
  if remaining <? len then
    let overflow := len - remaining in
    mk (data q) (_capacity q) (u64 (_size q + (len - overflow))) (u64 (_head q + overflow))
  else mk (data q) (_capacity q) (u64 (_size q + len)) (_head q).

Definition begin q : iterator := It true (_head q).
Definition end_ q : iterator := It true (u64 (tail q + 1)).
Definition getIterator (idx : Z) q : iterator := It true idx.

Definition null : iterator := It false 0.
Definition dereferenceable q (i : iterator) : bool := _cq i && isValidIdx (_idx i) q.
Definition it_eqb (i j : iterator) : bool := Bool.eqb (_cq i) (_cq j) && (_idx i =? _idx j).
Definition it_ltb (i j : iterator) : bool := _idx i <? _idx j.
Definition it_leb (i j : iterator) : bool := negb (it_ltb j i).
Definition deref q (i : iterator) : res A := if _cq i then get (_idx i) q else Err Undefined.
Definition assign (i : iterator) x q : res (t A) := if _cq i then set (_idx i) x q else Err Undefined.
Definition incr (i : iterator) : iterator := It (_cq i) (u64 (_idx i + 1)).
Definition decr q (i : iterator) : res iterator :=
  assert! (_cq i && (head q <? _idx i)) in Ok (It (_cq i) (_idx i - 1)).
Definition it_add (n : Z) (i : iterator) : iterator := It (_cq i) (u64 (_idx i + n)).
Definition it_sub q (n : Z) (i : iterator) : res iterator :=
  assert! (_cq i && (u64 (head q + n) <=? _idx i)) in Ok (It (_cq i) (u64 (_idx i - n))).
Definition it_diff (i j : iterator) : Z := swrap 64 (_idx i) - swrap 64 (_idx j).

(** ** Well-formed queues and their slots in queue order *)

(** The indices have not come to the end of their 64 bits. *)
Definition wf q : Prop :=
  length (data q) = Z.to_nat (_capacity q) /\ 0 < _capacity q /\ 0 <= _size q <= _capacity q /\
  0 < _head q /\ _head q + _capacity q < 2 ^ 64.

(** All slots, the one at the head first. *)
Definition window q : list A := rotate (Z.to_nat (_head q)) (data q).
Definition contents q : list A := take (Z.to_nat (_size q)) (window q).
Definition spare q : list A := drop (Z.to_nat (_size q)) (window q).

Lemma window_split q : window q = contents q ++ spare q.
Proof. symmetry. apply take_drop. Qed.

Lemma length_window q : wf q -> length (window q) = Z.to_nat (_capacity q).
Proof. intros (H & _). unfold window. by rewrite length_rotate. Qed.

Lemma length_contents q : wf q -> length (contents q) = Z.to_nat (_size q).
Proof. intros H. unfold contents. rewrite length_take, length_window by done. destruct H as (_&_&?&_). lia. Qed.

Lemma length_spare q : wf q -> length (spare q) = (Z.to_nat (_capacity q) - Z.to_nat (_size q))%nat.
Proof. intros H. unfold spare. by rewrite length_drop, length_window. Qed.

Lemma slot_ok q n :
  wf q -> (n < length (window q))%nat ->
  slot (_head q + Z.of_nat n) q = Ok (rotate_nat_add (Z.to_nat (_head q)) n (length (data q))).
Proof.
  intros Hwf Hn. rewrite length_window in Hn by done. destruct Hwf as (Hl & Hc & Hs & Hh & Hw). unfold slot.
  rewrite (proj2 (Z.leb_le _ _)) by lia. rewrite (proj2 (Z.eqb_neq _ _)) by lia.
  unfold rotate_nat_add. rewrite Hl, !Z2Nat.id by lia. done.
Qed.

Lemma get_window q n :
  wf q -> get (_head q + Z.of_nat n) q =
    if decide (n < length (window q))%nat then match window q !! n with Some x => Ok x | None => Err Undefined end
    else get (_head q + Z.of_nat n) q.
Proof.
  intros Hwf. case_decide as Hn; [|done]. unfold get. rewrite slot_ok by done. cbn [rbind].
  unfold window in *. rewrite length_rotate in Hn. by rewrite lookup_rotate_r by done.
Qed.

Lemma get_ok q n x : wf q -> window q !! n = Some x -> get (_head q + Z.of_nat n) q = Ok x.
Proof.
  intros Hwf Hn. rewrite get_window by done. rewrite decide_True by by eapply lookup_lt_Some. by rewrite Hn.
Qed.

Lemma set_ok q n x :
  wf q -> (n < length (window q))%nat ->
  exists q', set (_head q + Z.of_nat n) x q = Ok q' /\ wf q' /\ window q' = <[n := x]> (window q) /\
    _size q' = _size q /\ _head q' = _head q /\ _capacity q' = _capacity q.
Proof.
  intros Hwf Hn. unfold set. rewrite slot_ok by done. cbn [rbind].
  unfold window in Hn. rewrite length_rotate in Hn.
  assert (rotate_nat_add (Z.to_nat (_head q)) n (length (data q)) < length (data q))%nat as Hr
    by (apply rotate_nat_add_lt; lia).
  rewrite (proj2 (Nat.ltb_lt _ _) Hr). eexists. split; [reflexivity|].
  destruct Hwf as (Hl & Hc & Hs & Hh & Hw). split_and!; try done.
  - unfold wf. simpl. rewrite length_insert. split_and!; (done || lia).
  - unfold window. simpl. by apply rotate_insert_l.
Qed.

(** ** The slots under the operations *)

Lemma rotate_succ (l : list A) n :
  l <> [] -> rotate (S n) l = drop 1 (rotate n l) ++ take 1 (rotate n l).
Proof.
  intros Hl. assert (0 < length l)%nat as Hpos by (destruct l; simpl; [done|lia]).
  apply list_eq. intros i. destruct (decide (i < length l)%nat) as [Hi|Hi].
  2:{ rewrite !lookup_ge_None_2; [done| |]; rewrite ?length_app, ?length_drop, ?length_take, ?length_rotate; lia. }
  rewrite lookup_rotate_r by done.
  destruct (decide (i < length l - 1)%nat).
  - rewrite lookup_app_l by (rewrite length_drop, length_rotate; lia).
    rewrite lookup_drop, lookup_rotate_r by lia. f_equal. unfold rotate_nat_add. f_equal. f_equal. lia.
  - rewrite lookup_app_r by (rewrite length_drop, length_rotate; lia).
    rewrite length_drop, length_rotate. replace (i - (length l - 1))%nat with 0%nat by lia.
    rewrite lookup_take_lt, lookup_rotate_r by lia. f_equal. unfold rotate_nat_add. f_equal.
    replace (Z.of_nat (S n) + Z.of_nat i) with (Z.of_nat n + Z.of_nat 0 + 1 * Z.of_nat (length l)) by lia.
    by rewrite Z.mod_add by lia.
Qed.

Lemma rotate_add (l : list A) n m :
  (m <= length l)%nat -> rotate (n + m) l = drop m (rotate n l) ++ take m (rotate n l).
Proof.
  induction m as [|m IH]; intros Hm; [by rewrite Nat.add_0_r, app_nil_r, drop_0|].
  rewrite Nat.add_succ_r, rotate_succ by (intros ->; simpl in *; lia). rewrite IH by lia.
  assert (m < length (rotate n l))%nat as Hlt by (rewrite length_rotate; lia).
  destruct (lookup_lt_is_Some_2 _ _ Hlt) as [x Hx].
  rewrite (drop_S _ x m Hx), (take_S_r _ m x Hx). simpl. by rewrite drop_0, <- app_assoc.
Qed.

Lemma pop_front_ok q n :
  wf q -> 0 <= n <= _size q -> _head q + n + _capacity q < 2 ^ 64 ->
  exists q', pop_front n q = Ok q' /\ wf q' /\ _head q' = _head q + n /\ _size q' = _size q - n /\
    _capacity q' = _capacity q /\ data q' = data q /\
    contents q' = drop (Z.to_nat n) (contents q) /\ spare q' = spare q ++ take (Z.to_nat n) (contents q).
Proof.
  intros Hwf Hn Hh. pose proof Hwf as (Hl & Hc & Hs & Hh0 & Hw).
  unfold pop_front, size. rewrite (proj2 (Z.leb_le _ _)) by lia. rewrite !uwrap_small by (unfold in_word; lia).
  eexists. split; [reflexivity|]. split_and!; try done; try (unfold wf; simpl; split_and!; (done || lia)).
  - unfold contents, window. cbn [data _head _size]. rewrite Z2Nat.inj_add, rotate_add by (rewrite ?Hl; lia).
    fold (window q). rewrite take_app_le by (rewrite length_drop, length_window by done; lia).
    rewrite skipn_firstn_comm. f_equal. lia.
  - unfold spare, contents. unfold window at 1. cbn [data _head _size].
    rewrite Z2Nat.inj_add, rotate_add by (rewrite ?Hl; lia). fold (window q).
    rewrite drop_app_le by (rewrite length_drop, length_window by done; lia).
    rewrite drop_drop, take_take. rewrite Nat.min_l by lia.
    do 2 f_equal. lia.
Qed.

Lemma pop_back_ok q :
  wf q -> 0 < _size q ->
  exists q', pop_back q = Ok q' /\ wf q' /\ _head q' = _head q /\ _size q' = _size q - 1 /\
    _capacity q' = _capacity q /\ data q' = data q /\ window q' = window q.
Proof.
  intros (Hl & Hc & Hs & Hh0 & Hw) Hpos. unfold pop_back, empty. rewrite (proj2 (Z.eqb_neq _ _)) by lia. simpl.
  rewrite uwrap_small by (unfold in_word; lia). eexists. split; [reflexivity|].
  split_and!; try done; unfold wf; simpl; split_and!; (done || lia).
Qed.

Lemma advance_tail_room q :
  wf q -> _size q < _capacity q ->
  let q' := advance_tail q in
  wf q' /\ _head q' = _head q /\ _size q' = _size q + 1 /\ _capacity q' = _capacity q /\ window q' = window q.
Proof.
  intros (Hl & Hc & Hs & Hh0 & Hw) Hlt. unfold advance_tail, full. rewrite (proj2 (Z.eqb_neq _ _)) by lia.
  simpl. rewrite uwrap_small by (unfold in_word; lia). unfold wf. simpl. split_and!; (done || lia).
Qed.

Lemma advance_tail_full q :
  wf q -> _size q = _capacity q -> _head q + 1 + _capacity q < 2 ^ 64 ->
  let q' := advance_tail q in
  wf q' /\ _head q' = _head q + 1 /\ _size q' = _size q /\ _capacity q' = _capacity q /\
  window q' = drop 1 (window q) ++ take 1 (window q).
Proof.
  intros (Hl & Hc & Hs & Hh0 & Hw) Heq Hh. unfold advance_tail, full. rewrite (proj2 (Z.eqb_eq _ _)) by lia.
  simpl. rewrite uwrap_small by (unfold in_word; lia).
  split_and!; [unfold wf; simpl; split_and!; (done || lia)|done..|].
  unfold window. simpl. replace (Z.to_nat (_head q + 1)) with (Z.to_nat (_head q) + 1)%nat by lia.
  apply rotate_add. lia.
Qed.

Lemma advance_tail_n_iter n q :
  wf q -> _head q + Z.of_nat n + _capacity q < 2 ^ 64 ->
  advance_tail_n (Z.of_nat n) q = Nat.iter n advance_tail q.
Proof.
  intros Hwf Hn.
  assert (forall m, (m <= n)%nat -> Nat.iter m advance_tail q =
    mk (data q) (_capacity q) (Z.min (_capacity q) (_size q + Z.of_nat m))
      (_head q + Z.max 0 (_size q + Z.of_nat m - _capacity q))) as Hit.
  { destruct Hwf as (Hl & Hc & Hs & Hh0 & Hw). induction m as [|m IH]; intros Hm.
    - rewrite Z.min_r, Z.max_l, !Z.add_0_r by lia. by destruct q.
    - cbn [Nat.iter nat_rect]. fold (Nat.iter m advance_tail q). rewrite IH by lia. unfold advance_tail, full.
      cbn [_size _capacity _head data].
      destruct (Z.eqb_spec (Z.min (_capacity q) (_size q + Z.of_nat m)) (_capacity q));
        rewrite uwrap_small by (unfold in_word; lia); f_equal; lia. }
  rewrite Hit by done. destruct Hwf as (Hl & Hc & Hs & Hh0 & Hw).
  unfold advance_tail_n. rewrite (uwrap_small 64 (_capacity q - _size q)) by (unfold in_word; lia).
  destruct (Z.ltb_spec (_capacity q - _size q) (Z.of_nat n));
    rewrite !uwrap_small by (unfold in_word; lia); f_equal; lia.
Qed.

End queue.

(** ** The abstract queue *)
Module Spec.

(** The index of the first element, the elements, and the slots not in use, the next
    one to be used first. *)
Record state (A : Type) := St { first : Z; elems : list A; rest : list A }.
Arguments St {A}.
Arguments first {A}.
Arguments elems {A}.
Arguments rest {A}.

Inductive op (A : Type) :=
  | PushBack (x : A) | AdvanceTail | AdvanceTailBy (n : nat) | PopFront (n : nat) | PopBack
  | Flush | Get (index : Z) | Set_ (index : Z) (x : A).
Arguments PushBack {A}.
Arguments AdvanceTail {A}.
Arguments AdvanceTailBy {A}.
Arguments PopFront {A}.
Arguments PopBack {A}.
Arguments Flush {A}.
Arguments Get {A}.
Arguments Set_ {A}.

Section spec.
Context {A : Type}.
Implicit Types (s : state A) (x : A).

Definition slots s : list A := elems s ++ rest s.
Definition with_slots (l : list A) s : state A :=
  St (first s) (take (length (elems s)) l) (drop (length (elems s)) l).
Definition place (index : Z) s : nat := Z.to_nat ((index - first s) mod Z.of_nat (length (slots s))).

(** The next unused slot joins the queue; in a full queue the first element becomes
    the last one. *)
Definition advance s : state A :=
  match rest s with
  | x :: r => St (first s) (elems s ++ [x]) r
  | [] => St (first s + 1) (drop 1 (elems s) ++ take 1 (elems s)) []
  end.

Definition step (o : op A) s : res (state A * option A) :=
  match o with
  | PushBack x =>
      let s := advance s in
      Ok (with_slots (<[pred (length (elems s)) := x]> (slots s)) s, None)
  | AdvanceTail => Ok (advance s, None)
  | AdvanceTailBy n => Ok (Nat.iter n advance s, None)
  | PopFront n =>
      assert! (n <=? length (elems s))%nat in
      Ok (St (first s + Z.of_nat n) (drop n (elems s)) (rest s ++ take n (elems s)), None)
  | PopBack =>
      assert! (0 <? length (elems s))%nat in
      Ok (St (first s) (take (pred (length (elems s))) (elems s))
            (drop (pred (length (elems s))) (elems s) ++ rest s), None)
  | Flush => Ok (St 1 [] (rotate (place 1 s) (slots s)), None)
  | Get index =>
      assert! (0 <=? index) in
      match slots s !! place index s with Some x => Ok (s, Some x) | None => Err Undefined end
  | Set_ index x =>
      assert! (0 <=? index) in Ok (with_slots (<[place index s := x]> (slots s)) s, None)
  end.

Fixpoint run (ops : list (op A)) s : res (state A * list A) :=
  match ops with
  | [] => Ok (s, [])
  | o :: ops =>
      let* (s, x) := step o s in
      let* (s, l) := run ops s in
      Ok (s, option_list x ++ l)
  end.
End spec.
End Spec.

(** ** The code implements it *)
Section refinement.
Context {A : Type}.
Implicit Types (q : t A) (x : A).
Import Spec.

Definition abs q : state A := St (_head q) (contents q) (spare q).

Definition exec (o : op A) q : res (t A * option A) :=
  match o with
  | PushBack x => let* q := push_back x q in Ok (q, None)
  | AdvanceTail => Ok (advance_tail q, None)
  | AdvanceTailBy n => Ok (advance_tail_n (Z.of_nat n) q, None)
  | PopFront n => let* q := pop_front (Z.of_nat n) q in Ok (q, None)
  | PopBack => let* q := pop_back q in Ok (q, None)
  | Flush => Ok (flush q, None)
  | Get index => let* x := get index q in Ok (q, Some x)
  | Set_ index x => let* q := set index x q in Ok (q, None)
  end.

Fixpoint exec_all (ops : list (op A)) q : res (t A * list A) :=
  match ops with
  | [] => Ok (q, [])
  | o :: ops =>
      let* (q, x) := exec o q in
      let* (q, l) := exec_all ops q in
      Ok (q, option_list x ++ l)
  end.

(** How far an operation can move the indices. *)
Definition moves (o : op A) : Z :=
  match o with
  | PushBack _ | AdvanceTail => 1
  | AdvanceTailBy n | PopFront n => Z.of_nat n
  | _ => 0
  end.
Definition moves_all (ops : list (op A)) : Z := foldr (fun o n => moves o + n) 0 ops.

Lemma moves_nonneg o : 0 <= moves o.
Proof. destruct o; simpl; lia. Qed.
Lemma moves_all_nonneg ops : 0 <= moves_all ops.
Proof. induction ops as [|o ops IH]; simpl; [lia|]. pose proof (moves_nonneg o). lia. Qed.

Lemma slots_abs q : slots (abs q) = window q.
Proof. symmetry. apply window_split. Qed.

Lemma with_slots_abs l q q' :
  wf q -> _head q' = _head q -> _size q' = _size q -> window q' = l -> with_slots l (abs q) = abs q'.
Proof.
  intros Hwf Hh Hs <-. unfold with_slots, abs. simpl. rewrite length_contents, Hh by done.
  unfold contents, spare. by rewrite Hs.
Qed.

Lemma advance_abs q :
  wf q -> _head q + 1 + _capacity q < 2 ^ 64 ->
  wf (advance_tail q) /\ advance (abs q) = abs (advance_tail q) /\ _capacity (advance_tail q) = _capacity q /\
  _head (advance_tail q) <= _head q + 1 /\ 0 < _size (advance_tail q).
Proof.
  intros Hwf Hw. pose proof (length_spare q Hwf) as Hsp. pose proof (length_window q Hwf) as Hlw.
  unfold advance, abs. cbn [first elems rest].
  pose proof Hwf as (_ & Hc & Hs & _).
  destruct (decide (_size q = _capacity q)) as [He|He].
  - destruct (advance_tail_full q Hwf He Hw) as (Hwf' & Hh' & Hs' & Hc' & Hwin). split_and!; try lia; [done|].
    rewrite (nil_length_inv (spare q)) by lia. rewrite Hh'.
    unfold contents, spare. rewrite Hs', Hwin, He.
    rewrite (take_ge (window q)), (take_ge (_ ++ _)), (drop_ge (_ ++ _))
      by (rewrite ?length_app, ?length_drop, ?length_take, ?Hlw; lia). done.
  - destruct (advance_tail_room q Hwf ltac:(lia)) as (Hwf' & Hh' & Hs' & Hc' & Hwin). split_and!; try lia; [done|].
    destruct (spare q) as [|x r] eqn:Hr; [simpl in Hsp; lia|]. rewrite Hh'.
    unfold contents, spare in *. rewrite Hs', Hwin. replace (Z.to_nat (_size q + 1)) with (S (Z.to_nat (_size q))) by lia.
    assert (window q !! Z.to_nat (_size q) = Some x) as Hx.
    { rewrite <- (Nat.add_0_r (Z.to_nat (_size q))), <- lookup_drop, Hr. done. }
    rewrite (take_S_r _ _ x Hx). f_equal. rewrite (drop_S _ x _ Hx) in Hr. congruence.
Qed.

Lemma iter_advance_abs n : forall q,
  wf q -> _head q + Z.of_nat n + _capacity q < 2 ^ 64 ->
  wf (Nat.iter n advance_tail q) /\ Nat.iter n advance (abs q) = abs (Nat.iter n advance_tail q) /\
  _capacity (Nat.iter n advance_tail q) = _capacity q /\ _head (Nat.iter n advance_tail q) <= _head q + Z.of_nat n.
Proof.
  induction n as [|n IH]; intros q Hwf Hn; [simpl; split_and!; (done || lia)|].
  destruct (IH q Hwf ltac:(lia)) as (H1 & H2 & H3 & H4). cbn [Nat.iter nat_rect].
  fold (Nat.iter n (@advance A) (abs q)). fold (Nat.iter n (@advance_tail A) q).
  rewrite H2. destruct (advance_abs (Nat.iter n advance_tail q) H1 ltac:(lia)) as (H5 & H6 & H7 & H8 & _).
  split_and!; [done|done|lia|lia].
Qed.

Lemma place_abs index q :
  wf q -> 0 <= index -> slot index q = Ok (rotate_nat_add (Z.to_nat (_head q)) (place index (abs q)) (length (data q)))
    /\ (place index (abs q) < length (window q))%nat.
Proof.
  intros Hwf Hi. pose proof (length_window q Hwf) as Hlw. pose proof Hwf as (Hl & Hc & Hs & Hh & Hw).
  unfold place. rewrite slots_abs, Hlw, Z2Nat.id by lia. cbn [abs first].
  pose proof (Z.mod_pos_bound (index - _head q) (_capacity q) Hc). split; [|lia].
  unfold slot. rewrite (proj2 (Z.leb_le _ _)) by lia. rewrite (proj2 (Z.eqb_neq _ _)) by lia. f_equal.
  unfold rotate_nat_add. f_equal. rewrite Hl, !Z2Nat.id by lia.
  rewrite Zplus_mod_idemp_r. f_equal. lia.
Qed.

Lemma get_abs index q :
  wf q -> 0 <= index -> get index q = match window q !! place index (abs q) with Some x => Ok x | None => Err Undefined end.
Proof.
  intros Hwf Hi. destruct (place_abs index q Hwf Hi) as [Hs Hp]. unfold get. rewrite Hs. cbn [rbind].
  unfold window in *. rewrite length_rotate in Hp. by rewrite lookup_rotate_r.
Qed.

Lemma set_abs index x q :
  wf q -> 0 <= index ->
  exists q', set index x q = Ok q' /\ wf q' /\ _capacity q' = _capacity q /\ _head q' = _head q /\ _size q' = _size q /\
    window q' = <[place index (abs q) := x]> (window q).
Proof.
  intros Hwf Hi. destruct (place_abs index q Hwf Hi) as [Hs Hp].
  destruct (set_ok q (place index (abs q)) x Hwf Hp) as (q' & Hset & H1 & H2 & H3 & H4 & H5).
  exists q'. split_and!; try done. unfold set in *. rewrite Hs. by rewrite slot_ok in Hset by done.
Qed.

Lemma flush_abs q :
  wf q -> 1 + _capacity q < 2 ^ 64 ->
  wf (flush q) /\ abs (flush q) = St 1 [] (rotate (place 1 (abs q)) (window q)).
Proof.
  intros Hwf Hw1. pose proof (length_window q Hwf) as Hlw. pose proof Hwf as (Hl & Hc & Hs & Hh & Hw).
  split; [unfold wf; simpl; split_and!; (done || lia)|].
  pose proof (place_abs 1 q Hwf ltac:(lia)) as [_ Hp].
  assert (place 1 (abs q) = Z.to_nat ((1 - _head q) mod _capacity q)) as Hpl.
  { unfold place. by rewrite slots_abs, Hlw, Z2Nat.id by lia. }
  revert Hp Hpl. generalize (place 1 (abs q)) as p. intros p Hp Hpl.
  unfold abs, contents, spare. simpl. f_equal. unfold window at 1. simpl. rewrite drop_0.
  apply list_eq. intros i. destruct (decide (i < length (data q))%nat) as [Hi|Hi].
  2:{ rewrite !lookup_ge_None_2; [done| |]; rewrite length_rotate; lia. }
  rewrite !lookup_rotate_r by lia.
  unfold window in *. rewrite length_rotate in *.
  rewrite lookup_rotate_r by (apply rotate_nat_add_lt; lia). f_equal.
  subst p. unfold rotate_nat_add. rewrite Hl in *.
  rewrite !Z2Nat.id by (try (apply Z.mod_pos_bound; lia); lia).
  rewrite Zplus_mod_idemp_r, (Z.add_comm (_ mod _)), Z.add_assoc, Zplus_mod_idemp_r. do 2 f_equal. lia.
Qed.

Lemma set_back_place q :
  wf q -> 0 < _size q -> 0 <= tail q /\ place (tail q) (abs q) = pred (Z.to_nat (_size q)).
Proof.
  intros Hwf Hs0. pose proof (length_window q Hwf) as Hlw. pose proof Hwf as (Hl & Hc & Hs & Hh & Hw).
  unfold tail. rewrite uwrap_small by (unfold in_word; lia). split; [lia|].
  unfold place. rewrite slots_abs, Hlw, Z2Nat.id by lia. cbn [abs first]. rewrite Z.mod_small by lia. lia.
Qed.

(** One operation. *)
Lemma exec_abs o q :
  wf q -> _head q + moves o + _capacity q < 2 ^ 64 ->
  match exec o q with
  | Ok (q', x) => Spec.step o (abs q) = Ok (abs q', x) /\ wf q' /\ _capacity q' = _capacity q /\
                  _head q' <= Z.max 1 (_head q + moves o)
  | Err f => Spec.step o (abs q) = Err f
  end.
Proof.
  intros Hwf Hm. pose proof Hwf as (Hl & Hc & Hs & Hh & Hw). pose proof (length_contents q Hwf) as Hlc.
  destruct o as [x| |n|n| | |index|index x]; cbn [exec moves Spec.step] in *.
  - destruct (advance_abs q Hwf Hm) as (Hwf' & Ha & Hcap & Hhd & Hs0).
    unfold push_back, set_back. destruct (set_back_place (advance_tail q) Hwf' Hs0) as [Ht Hpl].
    destruct (set_abs (tail (advance_tail q)) x (advance_tail q) Hwf' Ht) as (q' & -> & H1 & H2 & H3 & H4 & H5).
    cbn [rbind]. rewrite Ha. split_and!; [|done|lia|lia]. cbn [abs elems] in *. rewrite slots_abs, length_contents by done.
    rewrite (with_slots_abs _ _ q' Hwf') by (done || (by rewrite H5, Hpl)). done.
  - destruct (advance_abs q Hwf Hm) as (Hwf' & -> & Hcap & Hhd & _). split_and!; (done || lia).
  - rewrite advance_tail_n_iter by done.
    destruct (iter_advance_abs n q Hwf Hm) as (H1 & -> & H3 & H4). split_and!; (done || lia).
  - cbn [abs elems rest first]. rewrite Hlc. destruct (Nat.leb_spec n (Z.to_nat (_size q))).
    + destruct (pop_front_ok q (Z.of_nat n) Hwf) as (q' & -> & H1 & H2 & H3 & H4 & _ & H5 & H6); [lia|lia|].
      cbn [rbind]. split_and!; [|done|done|lia]. unfold abs. by rewrite H2, H5, H6, Nat2Z.id.
    + unfold pop_front, size. by rewrite (proj2 (Z.leb_gt _ _)) by lia.
  - cbn [abs elems rest first]. rewrite Hlc. destruct (Nat.ltb_spec 0 (Z.to_nat (_size q))).
    + destruct (pop_back_ok q Hwf ltac:(lia)) as (q' & -> & H1 & H2 & H3 & H4 & _ & H5).
      cbn [rbind]. split_and!; [|done|done|lia]. unfold abs. rewrite H2. do 3 f_equal; unfold contents, spare; rewrite H3, H5.
      * rewrite take_take. f_equal. lia.
      * symmetry. rewrite <- (take_drop (Z.to_nat (_size q)) (window q)) at 1.
        rewrite drop_app_le by (rewrite length_take, length_window by done; lia). do 2 f_equal. lia.
    + unfold pop_back, empty. by rewrite (proj2 (Z.eqb_eq _ _)) by lia.
  - destruct (flush_abs q Hwf ltac:(lia)) as [H1 H2]. split_and!; [|done|done|simpl; lia].
    rewrite slots_abs. by rewrite H2.
  - unfold get at 1. unfold slot. destruct (Z.leb_spec 0 index) as [Hi|Hi]; [|done].
    fold (slot index q). pose proof (get_abs index q Hwf Hi) as Hg. unfold get, slot in Hg.
    rewrite (proj2 (Z.leb_le _ _) Hi) in Hg. rewrite Hg, slots_abs.
    by destruct (window q !! place index (abs q)); cbn [rbind]; [split_and!; (done || lia)|].
  - destruct (Z.leb_spec 0 index) as [Hi|Hi].
    + destruct (set_abs index x q Hwf Hi) as (q' & -> & H1 & H2 & H3 & H4 & H5). cbn [rbind].
      rewrite slots_abs. rewrite (with_slots_abs _ _ q' Hwf) by done. split_and!; (done || lia).
    + unfold set, slot. by rewrite (proj2 (Z.leb_gt _ _)) by lia.
Qed.

(** C38. A circular queue is a queue. For every sequence of operations whose indices
    stay within 64 bits, the vector with its head and size answers what the abstract
    queue answers and stops where it stops: elements come out in the order in which
    they went in, the queue never holds more than its capacity, a push into a full
    queue replaces the oldest element, an index keeps naming the same element until it
    leaves the queue, and a slot that left the queue keeps its value until it is used
    again. *)
Theorem circular_queue_refines ops : forall q,
  wf q -> _head q + moves_all ops + _capacity q < 2 ^ 64 ->
  match exec_all ops q with
  | Ok (q', l) => Spec.run ops (abs q) = Ok (abs q', l) /\ wf q' /\ _capacity q' = _capacity q
  | Err f => Spec.run ops (abs q) = Err f
  end.
Proof.
  induction ops as [|o ops IH]; intros q Hwf Hm; [done|].
  cbn [moves_all foldr] in Hm. fold (moves_all ops) in Hm.
  pose proof (moves_nonneg o). pose proof (moves_all_nonneg ops). pose proof Hwf as (_ & _ & _ & Hh & _).
  pose proof (exec_abs o q Hwf ltac:(lia)) as Hstep. cbn [exec_all Spec.run].
  destruct (exec o q) as [[q1 x]|f]; [|by rewrite Hstep].
  destruct Hstep as (-> & Hwf1 & Hc1 & Hh1). cbn [rbind].
  specialize (IH q1 Hwf1 ltac:(lia)). destruct (exec_all ops q1) as [[q2 l]|f]; cbn [rbind]; [|by rewrite IH].
  destruct IH as (-> & Hwf2 & Hc2). split_and!; [done|done|congruence].
Qed.

End refinement.

Definition example_ops : list (Spec.op Z) :=
  [Spec.PushBack 10; Spec.PushBack 20; Spec.PushBack 30; Spec.PushBack 40; Spec.Get 2; Spec.PopFront 2;
   Spec.AdvanceTail; Spec.Get 5; Spec.PopBack; Spec.Get 4].

(** Three slots: the fourth push replaces the first, and after two pops the freed slot
    comes back into the queue with the value it had. *)
Lemma circular_queue_refines_witness :
  (exists q', exec_all example_ops (make 0 3) = Ok (q', [20; 20; 40]) /\
    Spec.run example_ops (abs (make 0 3)) = Ok (abs q', [20; 20; 40])).
Proof.
  pose proof (circular_queue_refines example_ops (make 0 3)) as H.
  assert (exists q', exec_all example_ops (make 0 3) = Ok (q', [20; 20; 40])) as [q' Hq]
    by (eexists; vm_compute; reflexivity).
  exists q'. split; [exact Hq|]. rewrite Hq in H. apply H; [|vm_compute; reflexivity].
  unfold wf. split_and!; (reflexivity || discriminate).
Defined.

End CircularQueue.
