(* ===== verification/MemCmd.v ===== *)
(** * Memory commands

    The command enumeration of src/gem5/src/mem/packet.hh, the attribute table
    [MemCmd::commandInfo] of mem/packet.cc, and the predicates on a command. *)

From S2P Require Import Prelude.

Module MemCmd.

(** [MemCmd::Command]; the two deprecated slots of the table have no
    enumerator. *)
Inductive Command :=
  | InvalidCmd | ReadReq | ReadResp | ReadRespWithInvalidate | WriteReq
  | WriteResp | WriteCompleteResp | WritebackDirty | WritebackClean
  | WriteClean | CleanEvict | SoftPFReq | SoftPFExReq | HardPFReq
  | SoftPFResp | HardPFResp | WriteLineReq | UpgradeReq | SCUpgradeReq
  | UpgradeResp | SCUpgradeFailReq | UpgradeFailResp | ReadExReq
  | ReadExResp | ReadCleanReq | ReadSharedReq | LoadLockedReq
  | StoreCondReq | StoreCondFailReq | StoreCondResp | SwapReq | SwapResp
  | MemFenceReq | MemSyncReq | MemSyncResp | MemFenceResp
  | CleanSharedReq | CleanSharedResp | CleanInvalidReq | CleanInvalidResp
  | InvalidDestError | BadAddressError | FunctionalReadError
  | FunctionalWriteError | PrintReq | FlushReq | InvalidateReq
  | InvalidateResp | HTMReq | HTMReqResp | HTMAbort.

#[global] Instance Command_eq_dec : EqDecision Command.
Proof. solve_decision. Defined.

(** [MemCmd::Attribute]. *)
Inductive Attribute :=
  | IsRead | IsWrite | IsUpgrade | IsInvalidate | IsClean | NeedsWritable
  | IsRequest | IsResponse | NeedsResponse | IsEviction | IsSWPrefetch
  | IsHWPrefetch | IsLlsc | HasData | IsError | IsPrint | IsFlush | FromCache.

#[global] Instance Attribute_eq_dec : EqDecision Attribute.
Proof. solve_decision. Defined.

(** [MemCmd::commandInfo]: attributes and response command of each entry. *)
Definition commandInfo (c : Command) : list Attribute * Command :=
  match c with
  | InvalidCmd => ([], InvalidCmd)
  | ReadReq => ([IsRead; IsRequest; NeedsResponse], ReadResp)
  | ReadResp => ([IsRead; IsResponse; HasData], InvalidCmd)
  | ReadRespWithInvalidate =>
      ([IsRead; IsResponse; HasData; IsInvalidate], InvalidCmd)
  | WriteReq =>
      ([IsWrite; NeedsWritable; IsRequest; NeedsResponse; HasData], WriteResp)
  | WriteResp => ([IsWrite; IsResponse], InvalidCmd)
  | WriteCompleteResp => ([IsWrite; IsResponse], InvalidCmd)
  | WritebackDirty =>
      ([IsWrite; IsRequest; IsEviction; HasData; FromCache], InvalidCmd)
  | WritebackClean =>
      ([IsWrite; IsRequest; IsEviction; HasData; FromCache], InvalidCmd)
  | WriteClean => ([IsWrite; IsRequest; HasData; FromCache], InvalidCmd)
  | CleanEvict => ([IsRequest; IsEviction; FromCache], InvalidCmd)
  | SoftPFReq => ([IsRead; IsRequest; IsSWPrefetch; NeedsResponse], SoftPFResp)
  | SoftPFExReq =>
      ([IsRead; NeedsWritable; IsInvalidate; IsRequest; IsSWPrefetch;
        NeedsResponse], SoftPFResp)
  | HardPFReq =>
      ([IsRead; IsRequest; IsHWPrefetch; NeedsResponse; FromCache], HardPFResp)
  | SoftPFResp => ([IsRead; IsResponse; IsSWPrefetch; HasData], InvalidCmd)
  | HardPFResp => ([IsRead; IsResponse; IsHWPrefetch; HasData], InvalidCmd)
  | WriteLineReq =>
      ([IsWrite; NeedsWritable; IsRequest; NeedsResponse; HasData], WriteResp)
  | UpgradeReq =>
      ([IsInvalidate; NeedsWritable; IsUpgrade; IsRequest; NeedsResponse;
        FromCache], UpgradeResp)
  | SCUpgradeReq =>
      ([IsInvalidate; NeedsWritable; IsUpgrade; IsLlsc; IsRequest;
        NeedsResponse; FromCache], UpgradeResp)
  | UpgradeResp => ([IsUpgrade; IsResponse], InvalidCmd)
  | SCUpgradeFailReq =>
      ([IsRead; NeedsWritable; IsInvalidate; IsLlsc; IsRequest; NeedsResponse;
        FromCache], UpgradeFailResp)
  | UpgradeFailResp => ([IsRead; IsResponse; HasData], InvalidCmd)
  | ReadExReq =>
      ([IsRead; NeedsWritable; IsInvalidate; IsRequest; NeedsResponse;
        FromCache], ReadExResp)
  | ReadExResp => ([IsRead; IsResponse; HasData], InvalidCmd)
  | ReadCleanReq => ([IsRead; IsRequest; NeedsResponse; FromCache], ReadResp)
  | ReadSharedReq => ([IsRead; IsRequest; NeedsResponse; FromCache], ReadResp)
  | LoadLockedReq => ([IsRead; IsLlsc; IsRequest; NeedsResponse], ReadResp)
  | StoreCondReq =>
      ([IsWrite; NeedsWritable; IsLlsc; IsRequest; NeedsResponse; HasData],
       StoreCondResp)
  | StoreCondFailReq =>
      ([IsWrite; NeedsWritable; IsLlsc; IsRequest; NeedsResponse; HasData],
       StoreCondResp)
  | StoreCondResp => ([IsWrite; IsLlsc; IsResponse], InvalidCmd)
  | SwapReq =>
      ([IsRead; IsWrite; NeedsWritable; IsRequest; HasData; NeedsResponse],
       SwapResp)
  | SwapResp => ([IsRead; IsWrite; IsResponse; HasData], InvalidCmd)
  | MemFenceReq => ([IsRequest; NeedsResponse], MemFenceResp)
  | MemSyncReq => ([IsRequest; NeedsResponse], MemSyncResp)
  | MemSyncResp => ([IsResponse], InvalidCmd)
  | MemFenceResp => ([IsResponse], InvalidCmd)
  | CleanSharedReq =>
      ([IsRequest; IsClean; NeedsResponse; FromCache], CleanSharedResp)
  | CleanSharedResp => ([IsResponse; IsClean], InvalidCmd)
  | CleanInvalidReq =>
      ([IsRequest; IsInvalidate; IsClean; NeedsResponse; FromCache],
       CleanInvalidResp)
  | CleanInvalidResp => ([IsResponse; IsInvalidate; IsClean], InvalidCmd)
  | InvalidDestError => ([IsResponse; IsError], InvalidCmd)
  | BadAddressError => ([IsResponse; IsError], InvalidCmd)
  | FunctionalReadError => ([IsRead; IsResponse; IsError], InvalidCmd)
  | FunctionalWriteError => ([IsWrite; IsResponse; IsError], InvalidCmd)
  | PrintReq => ([IsRequest; IsPrint], InvalidCmd)
  | FlushReq => ([IsRequest; IsFlush; NeedsWritable], InvalidCmd)
  | InvalidateReq =>
      ([IsInvalidate; IsRequest; NeedsWritable; NeedsResponse; FromCache],
       InvalidateResp)
  | InvalidateResp => ([IsInvalidate; IsResponse], InvalidCmd)
  | HTMReq => ([IsRead; IsRequest; NeedsResponse], HTMReqResp)
  | HTMReqResp => ([IsRead; IsResponse], InvalidCmd)
  | HTMAbort => ([IsRead; IsRequest], InvalidCmd)
  end.

Definition testCmdAttrib (c : Command) (a : Attribute) : bool :=
  bool_decide (a ∈ (commandInfo c).1).

Definition isRead c := testCmdAttrib c IsRead.
Definition isWrite c := testCmdAttrib c IsWrite.
Definition isUpgrade c := testCmdAttrib c IsUpgrade.
Definition isRequest c := testCmdAttrib c IsRequest.
Definition isResponse c := testCmdAttrib c IsResponse.
Definition needsWritable c := testCmdAttrib c NeedsWritable.
Definition needsResponse c := testCmdAttrib c NeedsResponse.
Definition isInvalidate c := testCmdAttrib c IsInvalidate.
Definition isEviction c := testCmdAttrib c IsEviction.
Definition isClean c := testCmdAttrib c IsClean.
Definition fromCache c := testCmdAttrib c FromCache.
Definition isWriteback c := testCmdAttrib c IsEviction && testCmdAttrib c HasData.
Definition hasData c := testCmdAttrib c HasData.
Definition isLLSC c := testCmdAttrib c IsLlsc.
Definition isSWPrefetch c := testCmdAttrib c IsSWPrefetch.
Definition isHWPrefetch c := testCmdAttrib c IsHWPrefetch.
Definition isPrefetch c := testCmdAttrib c IsSWPrefetch || testCmdAttrib c IsHWPrefetch.
Definition isError c := testCmdAttrib c IsError.
Definition isPrint c := testCmdAttrib c IsPrint.
Definition isFlush c := testCmdAttrib c IsFlush.
Definition responseCommand (c : Command) : Command := (commandInfo c).2.

(** Command equality as the code writes it, [cmd == MemCmd::X]. *)
Definition eqb (a b : Command) : bool := bool_decide (a = b).

(** Facts read off the table, one case per command. *)
Ltac table := let c := fresh "c" in intros c; destruct c; vm_compute; first [done | tauto].

Lemma request_not_response c : isRequest c = true -> isResponse c = false.
Proof. revert c. table. Qed.

Lemma response_final c : isResponse c = true -> needsResponse c = false.
Proof. revert c. table. Qed.

Lemma response_of_request c :
  needsResponse c = true ->
  isRequest c = true /\ isResponse (responseCommand c) = true /\
  isError (responseCommand c) = false.
Proof. revert c. table. Qed.

Lemma write_response c :
  needsResponse c = true -> isWrite (responseCommand c) = isWrite c.
Proof. revert c. table. Qed.

Lemma writeback_no_response c : isEviction c = true -> needsResponse c = false.
Proof. revert c. table. Qed.

Lemma hardpf_resp : responseCommand HardPFReq = HardPFResp.
Proof. done. Qed.

(** The command table is coherent: every command that needs a response is
    a request whose response entry is a non-error response command that itself
    needs none; no command is both a request and a response; a write is
    answered by a write and a read by a read; only requests that need a
    response have one; and an eviction never waits for an answer. *)
Lemma command_table_coherent c :
  (needsResponse c = true ->
     isRequest c = true /\ isResponse (responseCommand c) = true /\
     isError (responseCommand c) = false /\
     needsResponse (responseCommand c) = false /\
     isWrite (responseCommand c) = isWrite c /\
     (isRead (responseCommand c) = isRead c)) /\
  (needsResponse c = false -> responseCommand c = InvalidCmd) /\
  isRequest c && isResponse c = false /\
  (isEviction c = true -> needsResponse c = false).
Proof. revert c. table. Qed.

End MemCmd.
