(* ===== verification/Request.v ===== *)
(** * Memory requests

    The state, flags and accessors of class [Request] in
    src/gem5/src/mem/request.hh that the memory system uses. A member the
    constructors leave uninitialised ([domainID]) is an [option]: [None] is an
    indeterminate value, and reading it is [Undefined]. *)

From S2P Require Import Prelude BaseUtil.
Local Open Scope Z_scope.

Module Request.

(** ** Flag constants *)

Definition INST_FETCH := 0x00000100.
Definition UNCACHEABLE := 0x00000400.
Definition STRICT_ORDER := 0x00000800.
Definition PRIVILEGED := 0x00008000.
Definition CACHE_BLOCK_ZERO := 0x00010000.
Definition RELEASE := 0x00040000.
Definition NO_ACCESS := 0x00080000.
Definition LLSC := 0x00200000.
Definition MEM_SWAP := 0x00400000.
Definition MEM_SWAP_COND := 0x00800000.
Definition PREFETCH := 0x01000000.
Definition PF_EXCLUSIVE := 0x02000000.
Definition ATOMIC_RETURN_OP := 0x40000000.
Definition ATOMIC_NO_RETURN_OP := 0x80000000.
Definition SECURE := 0x10000000.
Definition INVALIDATE := 0x0000000100000000.
Definition CLEAN := 0x0000000200000000.
Definition DST_BITS := 0x0000003000000000.
Definition HTM_START := 0x0000010000000000.
Definition HTM_COMMIT := 0x0000020000000000.
Definition HTM_CANCEL := 0x0000040000000000.
Definition HTM_ABORT := 0x0000080000000000.
Definition HTM_CMD := Z.lor HTM_START (Z.lor HTM_COMMIT (Z.lor HTM_CANCEL HTM_ABORT)).
Definition STORE_NO_DATA := Z.lor CACHE_BLOCK_ZERO (Z.lor CLEAN INVALIDATE).
Definition NO_FILL := 0x0000100000000000.
Definition SHT_MATCH := 0x0000200000000000.
Definition SPEC_STATS := 0x0000400000000000.
Definition DEMAND_FETCH := 0x0000800000000000.
Definition STICKY_FLAGS := INST_FETCH.

Definition wbRequestorId := 0.
Definition funcRequestorId := 1.
Definition intRequestorId := 2.
Definition invldRequestorId := 2 ^ 16 - 1.

(** Validity of the members ([PrivateFlags]). *)
Definition VALID_SIZE := 0x0001.
Definition VALID_PADDR := 0x0002.
Definition VALID_VADDR := 0x0004.
Definition VALID_INST_SEQ_NUM := 0x0008.
Definition VALID_PC := 0x0010.
Definition VALID_CONTEXT_ID := 0x0020.
Definition VALID_DOMAIN_ID := 0x0040.
Definition VALID_EXTRA_DATA := 0x0080.
Definition STICKY_PRIVATE_FLAGS := VALID_DOMAIN_ID.

(** [ContextSwitchTaskId]. *)
Definition TaskId_Prefetcher : Z := 1022.
Definition TaskId_Unknown : Z := 1024.

(** ** State *)

Record t := mk {
  _paddr : Z;
  _size : Z;
  _byteEnable : list bool;
  _requestorId : Z;
  _flags : Z;
  privateFlags : Z;
  _time : Z;
  _taskId : Z;
  _vaddr : Z;
  _extraData : Z;
  _contextId : Z;
  _pc : Z;
  _reqInstSeqNum : Z;
  atomicOpFunctor : option (list Z -> list Z);
  domainID : option Z;
  _localAccessor : option (list Z -> list Z)
}.

Definition with_paddr (v : Z) (r : t) : t :=
mk v (_size r) (_byteEnable r) (_requestorId r) (_flags r) (privateFlags r) (_time
    r) (_taskId r) (_vaddr r) (_extraData r) (_contextId r) (_pc r) (_reqInstSeqNum
    r) (atomicOpFunctor r) (domainID r)
    (_localAccessor r).
Definition with_size (v : Z) (r : t) : t :=
mk (_paddr r) v (_byteEnable r) (_requestorId r) (_flags r) (privateFlags r) (_time
    r) (_taskId r) (_vaddr r) (_extraData r) (_contextId r) (_pc r) (_reqInstSeqNum
    r) (atomicOpFunctor r) (domainID r)
    (_localAccessor r).
Definition with_byteEnable (v : list bool) (r : t) : t :=
mk (_paddr r) (_size r) v (_requestorId r) (_flags r) (privateFlags r) (_time r)
    (_taskId r) (_vaddr r) (_extraData r) (_contextId r) (_pc r) (_reqInstSeqNum r)
    (atomicOpFunctor r) (domainID r)
    (_localAccessor r).
Definition with_requestorId (v : Z) (r : t) : t :=
mk (_paddr r) (_size r) (_byteEnable r) v (_flags r) (privateFlags r) (_time r)
    (_taskId r) (_vaddr r) (_extraData r) (_contextId r) (_pc r) (_reqInstSeqNum r)
    (atomicOpFunctor r) (domainID r)
    (_localAccessor r).
Definition with_flags (v : Z) (r : t) : t :=
mk (_paddr r) (_size r) (_byteEnable r) (_requestorId r) v (privateFlags r) (_time
    r) (_taskId r) (_vaddr r) (_extraData r) (_contextId r) (_pc r) (_reqInstSeqNum
    r) (atomicOpFunctor r) (domainID r)
    (_localAccessor r).
Definition withprivateFlags (v : Z) (r : t) : t :=
mk (_paddr r) (_size r) (_byteEnable r) (_requestorId r) (_flags r) v (_time r)
    (_taskId r) (_vaddr r) (_extraData r) (_contextId r) (_pc r) (_reqInstSeqNum r)
    (atomicOpFunctor r) (domainID r)
    (_localAccessor r).
Definition with_time (v : Z) (r : t) : t :=
mk (_paddr r) (_size r) (_byteEnable r) (_requestorId r) (_flags r) (privateFlags r)
    v (_taskId r) (_vaddr r) (_extraData r) (_contextId r) (_pc r) (_reqInstSeqNum
    r) (atomicOpFunctor r) (domainID r)
    (_localAccessor r).
Definition with_taskId (v : Z) (r : t) : t :=
mk (_paddr r) (_size r) (_byteEnable r) (_requestorId r) (_flags r) (privateFlags r)
    (_time r) v (_vaddr r) (_extraData r) (_contextId r) (_pc r) (_reqInstSeqNum r)
    (atomicOpFunctor r) (domainID r)
    (_localAccessor r).
Definition with_vaddr (v : Z) (r : t) : t :=
mk (_paddr r) (_size r) (_byteEnable r) (_requestorId r) (_flags r) (privateFlags r)
    (_time r) (_taskId r) v (_extraData r) (_contextId r) (_pc r) (_reqInstSeqNum r)
    (atomicOpFunctor r) (domainID r)
    (_localAccessor r).
Definition with_extraData (v : Z) (r : t) : t :=
mk (_paddr r) (_size r) (_byteEnable r) (_requestorId r) (_flags r) (privateFlags r)
    (_time r) (_taskId r) (_vaddr r) v (_contextId r) (_pc r) (_reqInstSeqNum r)
    (atomicOpFunctor r) (domainID r)
    (_localAccessor r).
Definition with_contextId (v : Z) (r : t) : t :=
mk (_paddr r) (_size r) (_byteEnable r) (_requestorId r) (_flags r) (privateFlags r)
    (_time r) (_taskId r) (_vaddr r) (_extraData r) v (_pc r) (_reqInstSeqNum r)
    (atomicOpFunctor r) (domainID r)
    (_localAccessor r).
Definition with_pc (v : Z) (r : t) : t :=
mk (_paddr r) (_size r) (_byteEnable r) (_requestorId r) (_flags r) (privateFlags r)
    (_time r) (_taskId r) (_vaddr r) (_extraData r) (_contextId r) v (_reqInstSeqNum
    r) (atomicOpFunctor r) (domainID r)
    (_localAccessor r).
Definition with_reqInstSeqNum (v : Z) (r : t) : t :=
mk (_paddr r) (_size r) (_byteEnable r) (_requestorId r) (_flags r) (privateFlags r)
    (_time r) (_taskId r) (_vaddr r) (_extraData r) (_contextId r) (_pc r) v
    (atomicOpFunctor r) (domainID r)
    (_localAccessor r).
Definition withatomicOpFunctor (v : option (list Z -> list Z)) (r : t) : t :=
mk (_paddr r) (_size r) (_byteEnable r) (_requestorId r) (_flags r) (privateFlags r)
    (_time r) (_taskId r) (_vaddr r) (_extraData r) (_contextId r) (_pc r)
    (_reqInstSeqNum r) v (domainID r)
    (_localAccessor r).
Definition withdomainID (v : option Z) (r : t) : t :=
mk (_paddr r) (_size r) (_byteEnable r) (_requestorId r) (_flags r) (privateFlags r)
    (_time r) (_taskId r) (_vaddr r) (_extraData r) (_contextId r) (_pc r)
    (_reqInstSeqNum r) (atomicOpFunctor r) v (_localAccessor r).
Definition with_localAccessor (v : option (list Z -> list Z)) (r : t) : t :=
mk (_paddr r) (_size r) (_byteEnable r) (_requestorId r) (_flags r) (privateFlags r)
    (_time r) (_taskId r) (_vaddr r) (_extraData r) (_contextId r) (_pc r)
    (_reqInstSeqNum r) (atomicOpFunctor r) (domainID r) v.

(** ** Constructors *)

(** [Request()]: every member at its default initialiser. *)
Definition default : t :=
  mk 0 0 [] invldRequestorId 0 0 (2 ^ 64 - 1) TaskId_Unknown (2 ^ 64 - 1) 0 (-1)
    (2 ^ 64 - 1)
    0 None None None.

(** [Request(paddr, size, flags, id)], at simulated time [now]. *)
Definition make (now paddr size flags id : Z) : t :=
  mk paddr size (replicate (Z.to_nat size) true) id (Flags.set 0 flags)
    (Flags.set 0 (Z.lor VALID_PADDR VALID_SIZE)) now TaskId_Unknown (2 ^ 64 - 1) 0 (-1)
    (2 ^ 64 - 1) 0 None None None.

Definition setVirt (now vaddr size flags id pc : Z)
    (amo : option (list Z -> list Z)) (r : t) : t :=
  let r := with_vaddr vaddr (with_size size (with_requestorId id (with_pc pc r))) in
  let r := with_time now r in
  let r := with_flags (Flags.set (Z.land (_flags r) STICKY_FLAGS) flags) r in
  let r := withprivateFlags
    (Flags.set (Z.land (privateFlags r) STICKY_PRIVATE_FLAGS)
      (Z.lor VALID_VADDR (Z.lor VALID_SIZE VALID_PC))) r in
  with_localAccessor None (withatomicOpFunctor amo r).

Definition setContext (cid : Z) (r : t) : t :=
  withprivateFlags (Flags.set (privateFlags r) VALID_CONTEXT_ID) (with_contextId cid r).

(** [Request(vaddr, size, flags, id, pc, cid, atomic_op)]. *)
Definition make_virt (now vaddr size flags id pc cid : Z)
    (amo : option (list Z -> list Z)) : t :=
  with_byteEnable (replicate (Z.to_nat size) true)
    (setContext cid (setVirt now vaddr size flags id pc amo default)).

(** The copy constructor [Request(const Request&)]: it copies the private
    flags, but its initialiser list has no entry for [domainID]. *)
Definition copy (other : t) : t :=
  withdomainID None other.

(** ** Domain identifier *)

Definition setDomainID (id : Z) (r : t) : t :=
  withdomainID (Some id)
    (withprivateFlags (Flags.set (privateFlags r) VALID_DOMAIN_ID) r).

Definition getDomainID (r : t) : res Z :=
  match domainID r with Some d => Ok d | None => Err Undefined end.

Definition validateDomainID (r : t) : res unit :=
  assert! (Flags.isSet (privateFlags r) VALID_DOMAIN_ID) in Ok tt.

(** ** Accessors *)

Definition hasPaddr (r : t) : bool := Flags.isSet (privateFlags r) VALID_PADDR.
Definition hasVaddr (r : t) : bool := Flags.isSet (privateFlags r) VALID_VADDR.
Definition hasSize (r : t) : bool := Flags.isSet (privateFlags r) VALID_SIZE.
Definition hasPC (r : t) : bool := Flags.isSet (privateFlags r) VALID_PC.
Definition hasContextId (r : t) : bool := Flags.isSet (privateFlags r) VALID_CONTEXT_ID.
Definition extraDataValid (r : t) : bool := Flags.isSet (privateFlags r) VALID_EXTRA_DATA.

Definition getPaddr (r : t) : res Z := assert! (hasPaddr r) in Ok (_paddr r).
Definition getVaddr (r : t) : res Z := assert! (hasVaddr r) in Ok (_vaddr r).
Definition getSize (r : t) : res Z := assert! (hasSize r) in Ok (_size r).
Definition getPC (r : t) : res Z := assert! (hasPC r) in Ok (_pc r).
Definition contextId (r : t) : res Z := assert! (hasContextId r) in Ok (_contextId r).
Definition getExtraData (r : t) : res Z := assert! (extraDataValid r) in Ok (_extraData r).
Definition requestorId (r : t) : Z := _requestorId r.
Definition taskId (r : t) : Z := _taskId r.

Definition setPaddr (paddr : Z) (r : t) : t :=
  withprivateFlags (Flags.set (privateFlags r) VALID_PADDR) (with_paddr paddr r).

Definition setExtraData (v : Z) (r : t) : t :=
  withprivateFlags (Flags.set (privateFlags r) VALID_EXTRA_DATA) (with_extraData v r).

Definition setPC (pc : Z) (r : t) : t :=
  with_pc pc (withprivateFlags (Flags.set (privateFlags r) VALID_PC) r).

Definition getFlags (r : t) : res Z :=
  assert! (hasPaddr r || hasVaddr r) in Ok (_flags r).

Definition setFlags (f : Z) (r : t) : res t :=
  assert! (hasPaddr r || hasVaddr r) in Ok (with_flags (Flags.set (_flags r) f) r).

Definition clearFlags (f : Z) (r : t) : res t :=
  assert! (hasPaddr r || hasVaddr r) in Ok (with_flags (Flags.clear (_flags r) f) r).

Definition setByteEnable (be : list bool) (r : t) : res t :=
  assert! (Z.of_nat (length be) =? _size r) in Ok (with_byteEnable be r).

Definition setReqInstSeqNum (n : Z) (r : t) : t :=
  with_reqInstSeqNum n (withprivateFlags (Flags.set (privateFlags r) VALID_INST_SEQ_NUM) r).

Definition isMasked (r : t) : bool := existsb negb (_byteEnable r).

Definition isUncacheable (r : t) : bool := Flags.isSet (_flags r) UNCACHEABLE.
Definition isInstFetch (r : t) : bool := Flags.isSet (_flags r) INST_FETCH.
Definition isPrefetch (r : t) : bool :=
  Flags.isSet (_flags r) PREFETCH || Flags.isSet (_flags r) PF_EXCLUSIVE.
Definition isPrefetchEx (r : t) : bool := Flags.isSet (_flags r) PF_EXCLUSIVE.
Definition isLLSC (r : t) : bool := Flags.isSet (_flags r) LLSC.
Definition isSwap (r : t) : bool := Flags.isSet (_flags r) (Z.lor MEM_SWAP MEM_SWAP_COND).
Definition isCondSwap (r : t) : bool := Flags.isSet (_flags r) MEM_SWAP_COND.
Definition isSecure (r : t) : bool := Flags.isSet (_flags r) SECURE.
Definition isStrictlyOrdered (r : t) : bool := Flags.isSet (_flags r) STRICT_ORDER.
Definition isShtMatch (r : t) : bool := Flags.isSet (_flags r) SHT_MATCH.
Definition specStatAdded (r : t) : bool := Flags.isSet (_flags r) SPEC_STATS.
Definition isNoFill (r : t) : bool := Flags.isSet (_flags r) NO_FILL.
Definition isDemandFetch (r : t) : bool := Flags.isSet (_flags r) DEMAND_FETCH.
Definition isRelease (r : t) : bool := Flags.isSet (_flags r) RELEASE.
Definition isLocalAccess (r : t) : bool := match _localAccessor r with Some _ => true | None => false end.
Definition isHTMStart (r : t) : bool := Flags.isSet (_flags r) HTM_START.
Definition isHTMCommit (r : t) : bool := Flags.isSet (_flags r) HTM_COMMIT.
Definition isHTMAbort (r : t) : bool := Flags.isSet (_flags r) HTM_ABORT.
Definition isHTMCmd (r : t) : bool :=
  Flags.isSet (_flags r) HTM_START || Flags.isSet (_flags r) HTM_COMMIT ||
  Flags.isSet (_flags r) HTM_CANCEL || Flags.isSet (_flags r) HTM_ABORT.
Definition isAtomic (r : t) : bool :=
  Flags.isSet (_flags r) ATOMIC_RETURN_OP || Flags.isSet (_flags r) ATOMIC_NO_RETURN_OP.
Definition getDest (r : t) : Z := Z.land (_flags r) DST_BITS.
Definition isCacheClean (r : t) : bool := Flags.isSet (_flags r) CLEAN.
Definition isCacheInvalidate (r : t) : bool := Flags.isSet (_flags r) INVALIDATE.
Definition isCacheMaintenance (r : t) : bool :=
  Flags.isSet (_flags r) (Z.lor CLEAN INVALIDATE).

Definition splitOnVaddr (split_addr : Z) (r : t) : res (t * t) :=
  assert! (hasVaddr r) in
  assert! (negb (hasPaddr r)) in
  assert! ((_vaddr r <? split_addr) && (split_addr <? u64 (_vaddr r + _size r))) in
  let size1 := u32 (split_addr - _vaddr r) in
  let req1 := with_size size1 (copy r) in
  let req2 := with_size (u32 (_size r - size1)) (with_vaddr split_addr (copy r)) in
  Ok (with_byteEnable (take (Z.to_nat size1) (_byteEnable r)) req1,
      with_byteEnable (drop (Z.to_nat size1) (_byteEnable r)) req2).

(** ** Theorems *)

Lemma isSet_set_same f m : truthy m = true -> Flags.isSet (Flags.set f m) m = true.
Proof. intros. rewrite Flags.isSet_set, Z.land_diag, H. apply orb_true_r. Qed.

(** Copying a request loses its security domain: the copy still claims,
    through its private flags, to have a valid domain identifier, so
    [validateDomainID] accepts it, but the identifier itself was not copied
    and reading it is undefined. *)
Theorem copy_loses_domain id r :
  let r' := copy (setDomainID id r) in
  getDomainID (setDomainID id r) = Ok id /\
  validateDomainID r' = Ok tt /\ getDomainID r' = Err Undefined.
Proof.
  split_and!; [done| |done]. unfold validateDomainID. simpl.
  by rewrite isSet_set_same.
Qed.

Lemma make_valid now paddr size flags id :
  hasPaddr (make now paddr size flags id) = true /\
  hasSize (make now paddr size flags id) = true.
Proof. done. Qed.

(** Splitting a virtual access at an interior address partitions it: the
    two halves are adjacent, their sizes and byte-enable masks add up to those
    of the original, and both keep its flags and requestor. *)
Theorem splitOnVaddr_partition split_addr r req1 req2 :
  splitOnVaddr split_addr r = Ok (req1, req2) ->
  in_word 32 (_size r) -> 0 <= _vaddr r -> _vaddr r + _size r < 2 ^ 64 ->
  length (_byteEnable r) = Z.to_nat (_size r) ->
  _vaddr req1 = _vaddr r /\ _vaddr req2 = _vaddr req1 + _size req1 /\
  _size req1 + _size req2 = _size r /\ 0 < _size req1 /\ 0 < _size req2 /\
  _byteEnable req1 ++ _byteEnable req2 = _byteEnable r /\
  length (_byteEnable req1) = Z.to_nat (_size req1) /\
  _flags req1 = _flags r /\ _flags req2 = _flags r /\
  requestorId req1 = requestorId r /\ requestorId req2 = requestorId r.
Proof.
  intros H Hs Hv Hend Hlen. unfold splitOnVaddr in H. simplify_res.
  destruct Hs as [Hs0 Hs1].
  apply andb_true_iff in E1 as [El Er].
  rewrite uwrap_small in Er by (split; lia).
  assert (Hz : u32 (split_addr - _vaddr r) = split_addr - _vaddr r).
  { apply uwrap_small. split; lia. }
  simpl. rewrite Hz.
  rewrite (uwrap_small 32 (_size r - _)) by (split; lia).
  split_and!; try done; try lia.
  - apply take_drop.
  - rewrite length_take. lia.
Qed.

Lemma splitOnVaddr_partition_witness :
  exists r1 r2,
    splitOnVaddr 0x1040 (make_virt 0 0x1030 32 0 7 0 0 None) = Ok (r1, r2) /\
    _size r1 + _size r2 = 32.
Proof.
  eexists _, _. split; [vm_compute; reflexivity|].
  eapply (splitOnVaddr_partition 0x1040 (make_virt 0 0x1030 32 0 7 0 0 None));
    [vm_compute; reflexivity|split; vm_compute; congruence|vm_compute; congruence
    |vm_compute; reflexivity|vm_compute; reflexivity].
Defined.

End Request.
