(* ===== verification/Packet.v ===== *)
(** * Packets

    Class [Packet] of src/gem5/src/mem/packet.hh and mem/packet.cc: its flags,
    constructors (which carry the no-fill marking of RaS), the response
    conversion, address matching, and the data movement between a packet and a
    cache block. A packet holds its request and its payload by value; the
    payload is [None] when the data pointer is null. *)

From S2P Require Import Prelude BaseUtil MemCmd Request.
Local Open Scope Z_scope.

Module Packet.
Import MemCmd (Command).

(** ** Flag constants *)
Definition COPY_FLAGS := 0x000000FF.
Definition RESPONDER_FLAGS := 0x00000009.
Definition HAS_SHARERS := 0x00000001.
Definition EXPRESS_SNOOP := 0x00000002.
Definition RESPONDER_HAD_WRITABLE := 0x00000004.
Definition CACHE_RESPONDING := 0x00000008.
Definition WRITE_THROUGH := 0x00000010.
Definition SATISFIED := 0x00000020.
Definition FAILS_TRANSACTION := 0x00000040.
Definition FROM_TRANSACTION := 0x00000080.
Definition VALID_ADDR := 0x00000100.
Definition VALID_SIZE := 0x00000200.
Definition STATIC_DATA := 0x00001000.
Definition DYNAMIC_DATA := 0x00002000.
Definition SUPPRESS_FUNC_ERROR := 0x00008000.
Definition BLOCK_CACHED := 0x00010000.
Definition MAY_NOT_FILL := 0x00020000.
Definition NO_FILL_LOWER := 0x00040000.

(** The sender-state stack of a packet: an MSHR of some cache, or the state
    of another component. *)
Inductive SenderState :=
  | SS_MSHR (cache_id mshr_id : nat)
  | SS_Other (tag : Z).

#[global] Instance SenderState_eq_dec : EqDecision SenderState.
Proof. solve_decision. Defined.

(** ** State *)

Record t := mk {
  flags : Z;
  cmd : MemCmd.Command;
  id : Z;
  req : Request.t;
  data : option (list Z);
  addr : Z;
  _isSecure : bool;
  size : Z;
  bytesValid : list bool;
  _qosValue : Z;
  htmReturnReason : Z;
  htmTransactionUid : Z;
  headerDelay : Z;
  snoopDelay : Z;
  payloadDelay : Z;
  senderState : list SenderState
}.

Definition with_flags (v : Z) (r : t) : t :=
mk v (cmd r) (id r) (req r) (data r) (addr r) (_isSecure r) (size r) (bytesValid r)
    (_qosValue r) (htmReturnReason r) (htmTransactionUid r) (headerDelay r)
    (snoopDelay r) (payloadDelay r) (senderState r).
Definition with_cmd (v : MemCmd.Command) (r : t) : t :=
mk (flags r) v (id r) (req r) (data r) (addr r) (_isSecure r) (size r) (bytesValid
    r) (_qosValue r) (htmReturnReason r) (htmTransactionUid r) (headerDelay r)
    (snoopDelay r) (payloadDelay r) (senderState r).
Definition with_id (v : Z) (r : t) : t :=
mk (flags r) (cmd r) v (req r) (data r) (addr r) (_isSecure r) (size r) (bytesValid
    r) (_qosValue r) (htmReturnReason r) (htmTransactionUid r) (headerDelay r)
    (snoopDelay r) (payloadDelay r) (senderState r).
Definition with_req (v : Request.t) (r : t) : t :=
mk (flags r) (cmd r) (id r) v (data r) (addr r) (_isSecure r) (size r) (bytesValid
    r) (_qosValue r) (htmReturnReason r) (htmTransactionUid r) (headerDelay r)
    (snoopDelay r) (payloadDelay r) (senderState r).
Definition with_data (v : option (list Z)) (r : t) : t :=
mk (flags r) (cmd r) (id r) (req r) v (addr r) (_isSecure r) (size r) (bytesValid r)
    (_qosValue r) (htmReturnReason r) (htmTransactionUid r) (headerDelay r)
    (snoopDelay r) (payloadDelay r) (senderState r).
Definition with_addr (v : Z) (r : t) : t :=
mk (flags r) (cmd r) (id r) (req r) (data r) v (_isSecure r) (size r) (bytesValid r)
    (_qosValue r) (htmReturnReason r) (htmTransactionUid r) (headerDelay r)
    (snoopDelay r) (payloadDelay r) (senderState r).
Definition with_isSecure (v : bool) (r : t) : t :=
mk (flags r) (cmd r) (id r) (req r) (data r) (addr r) v (size r) (bytesValid r)
    (_qosValue r) (htmReturnReason r) (htmTransactionUid r) (headerDelay r)
    (snoopDelay r) (payloadDelay r) (senderState r).
Definition with_size (v : Z) (r : t) : t :=
mk (flags r) (cmd r) (id r) (req r) (data r) (addr r) (_isSecure r) v (bytesValid r)
    (_qosValue r) (htmReturnReason r) (htmTransactionUid r) (headerDelay r)
    (snoopDelay r) (payloadDelay r) (senderState r).
Definition with_bytesValid (v : list bool) (r : t) : t :=
mk (flags r) (cmd r) (id r) (req r) (data r) (addr r) (_isSecure r) (size r) v
    (_qosValue r) (htmReturnReason r) (htmTransactionUid r) (headerDelay r)
    (snoopDelay r) (payloadDelay r) (senderState r).
Definition with_qosValue (v : Z) (r : t) : t :=
mk (flags r) (cmd r) (id r) (req r) (data r) (addr r) (_isSecure r) (size r)
    (bytesValid r) v (htmReturnReason r) (htmTransactionUid r) (headerDelay r)
    (snoopDelay r) (payloadDelay r) (senderState r).
Definition with_htmReturnReason (v : Z) (r : t) : t :=
mk (flags r) (cmd r) (id r) (req r) (data r) (addr r) (_isSecure r) (size r)
    (bytesValid r) (_qosValue r) v (htmTransactionUid r) (headerDelay r) (snoopDelay
    r) (payloadDelay r) (senderState r).
Definition with_htmTransactionUid (v : Z) (r : t) : t :=
mk (flags r) (cmd r) (id r) (req r) (data r) (addr r) (_isSecure r) (size r)
    (bytesValid r) (_qosValue r) (htmReturnReason r) v (headerDelay r) (snoopDelay
    r) (payloadDelay r) (senderState r).
Definition with_headerDelay (v : Z) (r : t) : t :=
mk (flags r) (cmd r) (id r) (req r) (data r) (addr r) (_isSecure r) (size r)
    (bytesValid r) (_qosValue r) (htmReturnReason r) (htmTransactionUid r) v
    (snoopDelay r) (payloadDelay r) (senderState r).
Definition with_snoopDelay (v : Z) (r : t) : t :=
mk (flags r) (cmd r) (id r) (req r) (data r) (addr r) (_isSecure r) (size r)
    (bytesValid r) (_qosValue r) (htmReturnReason r) (htmTransactionUid r)
    (headerDelay r) v (payloadDelay r) (senderState r).
Definition with_payloadDelay (v : Z) (r : t) : t :=
mk (flags r) (cmd r) (id r) (req r) (data r) (addr r) (_isSecure r) (size r)
    (bytesValid r) (_qosValue r) (htmReturnReason r) (htmTransactionUid r)
    (headerDelay r) (snoopDelay r) v (senderState r).
Definition with_senderState (v : list SenderState) (r : t) : t :=
mk (flags r) (cmd r) (id r) (req r) (data r) (addr r) (_isSecure r) (size r)
    (bytesValid r) (_qosValue r) (htmReturnReason r) (htmTransactionUid r)
    (headerDelay r) (snoopDelay r) (payloadDelay r) v.

(** ** No-fill marking *)

Definition setNoFillLower (p : t) : t := with_flags (Flags.set (flags p) NO_FILL_LOWER) p.
Definition clearNoFillLower (p : t) : t := with_flags (Flags.clear (flags p) NO_FILL_LOWER) p.
Definition isNoFillLower (p : t) : bool := Flags.isSet (flags p) NO_FILL_LOWER.
Definition setMayNotFill (p : t) : t := with_flags (Flags.set (flags p) MAY_NOT_FILL) p.
Definition clearMayNotFill (p : t) : t := with_flags (Flags.clear (flags p) MAY_NOT_FILL) p.
Definition isMayNotFill (p : t) : bool := Flags.isSet (flags p) MAY_NOT_FILL.

(** ** Command predicates lifted to packets *)

Definition isRead (p : t) := MemCmd.isRead (cmd p).
Definition isWrite (p : t) := MemCmd.isWrite (cmd p).
Definition isUpgrade (p : t) := MemCmd.isUpgrade (cmd p).
Definition isRequest (p : t) := MemCmd.isRequest (cmd p).
Definition isResponse (p : t) := MemCmd.isResponse (cmd p).
Definition needsWritable (p : t) : res bool :=
  assert! (isRequest p) in Ok (MemCmd.needsWritable (cmd p)).
Definition needsResponse (p : t) := MemCmd.needsResponse (cmd p).
Definition isInvalidate (p : t) := MemCmd.isInvalidate (cmd p).
Definition isEviction (p : t) := MemCmd.isEviction (cmd p).
Definition isClean (p : t) := MemCmd.isClean (cmd p).
Definition fromCache (p : t) := MemCmd.fromCache (cmd p).
Definition isWriteback (p : t) := MemCmd.isWriteback (cmd p).
Definition hasData (p : t) := MemCmd.hasData (cmd p).
Definition hasRespData (p : t) := MemCmd.hasData (MemCmd.responseCommand (cmd p)).
Definition isLLSC (p : t) := MemCmd.isLLSC (cmd p).
Definition isError (p : t) := MemCmd.isError (cmd p).
Definition isPrint (p : t) := MemCmd.isPrint (cmd p).
Definition cmd_is (p : t) (c : Command) : bool := MemCmd.eqb (cmd p) c.

Definition isDemandFetch (p : t) : bool :=
  Request.isDemandFetch (req p) && (isRead p || isWrite p).
Definition getDomainID (p : t) : res Z := Request.getDomainID (req p).
Definition requestorId (p : t) : Z := Request.requestorId (req p).
Definition isAtomicOp (p : t) : bool := Request.isAtomic (req p).

Definition mustCheckAbove (p : t) : bool := cmd_is p MemCmd.HardPFReq || isEviction p.
Definition isCleanEviction (p : t) : bool :=
  cmd_is p MemCmd.CleanEvict || cmd_is p MemCmd.WritebackClean.
Definition isMaskedWrite (p : t) : bool :=
  cmd_is p MemCmd.WriteReq && Request.isMasked (req p).

(** ** Snoop and coherence flags *)

Definition cacheResponding (p : t) : bool := Flags.isSet (flags p) CACHE_RESPONDING.
Definition setCacheResponding (p : t) : res t :=
  assert! (isRequest p) in
  assert! (negb (cacheResponding p)) in
  Ok (with_flags (Flags.set (flags p) CACHE_RESPONDING) p).
Definition setHasSharers (p : t) : t := with_flags (Flags.set (flags p) HAS_SHARERS) p.
Definition hasSharers (p : t) : bool := Flags.isSet (flags p) HAS_SHARERS.
Definition setExpressSnoop (p : t) : t := with_flags (Flags.set (flags p) EXPRESS_SNOOP) p.
Definition isExpressSnoop (p : t) : bool := Flags.isSet (flags p) EXPRESS_SNOOP.
Definition responderHadWritable (p : t) : bool :=
  Flags.isSet (flags p) RESPONDER_HAD_WRITABLE.
Definition setResponderHadWritable (p : t) : res t :=
  assert! (cacheResponding p) in
  assert! (negb (responderHadWritable p)) in
  Ok (with_flags (Flags.set (flags p) RESPONDER_HAD_WRITABLE) p).
Definition copyResponderFlags (p pkt : t) : res t :=
  assert! (isRequest p) in
  assert! (negb (cacheResponding pkt) || negb (cacheResponding p)) in
  Ok (with_flags (Flags.set (flags p) (Z.land (flags pkt) RESPONDER_FLAGS)) p).
Definition setWriteThrough (p : t) : res t :=
  assert! (isWrite p && (isEviction p || cmd_is p MemCmd.WriteClean)) in
  Ok (with_flags (Flags.set (flags p) WRITE_THROUGH) p).
Definition clearWriteThrough (p : t) : t := with_flags (Flags.clear (flags p) WRITE_THROUGH) p.
Definition writeThrough (p : t) : bool := Flags.isSet (flags p) WRITE_THROUGH.
Definition satisfied (p : t) : bool := Flags.isSet (flags p) SATISFIED.
Definition setSatisfied (p : t) : res t :=
  assert! (isClean p) in
  assert! (negb (satisfied p)) in
  Ok (with_flags (Flags.set (flags p) SATISFIED) p).
Definition setBlockCached (p : t) : t := with_flags (Flags.set (flags p) BLOCK_CACHED) p.
Definition isBlockCached (p : t) : bool := Flags.isSet (flags p) BLOCK_CACHED.
Definition clearBlockCached (p : t) : t := with_flags (Flags.clear (flags p) BLOCK_CACHED) p.

Definition isHtmTransactional (p : t) : bool := Flags.isSet (flags p) FROM_TRANSACTION.
Definition setHtmTransactional (uid : Z) (p : t) : t :=
  with_htmTransactionUid uid (with_flags (Flags.set (flags p) FROM_TRANSACTION) p).
Definition htmTransactionFailedInCache (p : t) : bool :=
  Flags.isSet (flags p) FAILS_TRANSACTION.
(** [HtmCacheFailure::NO_FAIL] is 0. *)
Definition setHtmTransactionFailedInCache (rc : Z) (p : t) : t :=
  with_htmReturnReason rc
    (if rc =? 0 then p else with_flags (Flags.set (flags p) FAILS_TRANSACTION) p).

(** ** Address and size *)

Definition getAddr (p : t) : res Z :=
  assert! (Flags.isSet (flags p) VALID_ADDR) in Ok (addr p).
Definition getSize (p : t) : res Z :=
  assert! (Flags.isSet (flags p) VALID_SIZE) in Ok (size p).
Definition isSecure (p : t) : res bool :=
  assert! (Flags.isSet (flags p) VALID_ADDR) in Ok (_isSecure p).
Definition setAddr (a : Z) (p : t) : res t :=
  assert! (Flags.isSet (flags p) VALID_ADDR) in Ok (with_addr a p).
Definition setSize (n : Z) (p : t) : res t :=
  assert! (negb (Flags.isSet (flags p) VALID_SIZE)) in
  Ok (with_flags (Flags.set (flags p) VALID_SIZE) (with_size n p)).
Definition setSizeSHT (n : Z) (p : t) : res t :=
  assert! (Flags.isSet (flags p) VALID_SIZE) in Ok (with_size n p).
Definition getOffset (blk_size : Z) (p : t) : res Z :=
  let* a := getAddr p in Ok (Z.land a (u32 (blk_size - 1))).
Definition getBlockAddr (blk_size : Z) (p : t) : res Z :=
  let* a := getAddr p in Ok (Z.land a (unot 64 (u32 (blk_size - 1)))).

Definition isWholeLineWrite (blk_size : Z) (p : t) : res bool :=
  if cmd_is p MemCmd.WriteReq || cmd_is p MemCmd.WriteLineReq then
    let* off := getOffset blk_size p in
    if off =? 0 then let* n := getSize p in Ok (n =? blk_size) else Ok false
  else Ok false.

(** The three overloads of [matchBlockAddr], then the two of [matchAddr]. *)
Definition matchBlockAddr (a : Z) (is_secure : bool) (blk_size : Z) (p : t) : res bool :=
  let* b := getBlockAddr blk_size p in
  if b =? a then let* s := isSecure p in Ok (eqb s is_secure) else Ok false.

Definition matchBlockAddr_id (a : Z) (is_secure : bool) (did blk_size : Z) (p : t) : res bool :=
  let* m := matchBlockAddr a is_secure blk_size p in
  if m then let* d := getDomainID p in Ok (d =? did) else Ok false.

Definition matchBlockAddr_pkt (pkt : t) (blk_size : Z) (p : t) : res bool :=
  let* b := getBlockAddr blk_size pkt in
  let* s := isSecure pkt in
  let* d := getDomainID pkt in
  matchBlockAddr_id b s d blk_size p.

Definition matchAddr (a : Z) (is_secure : bool) (did : Z) (p : t) : res bool :=
  let* b := getAddr p in
  if b =? a then
    let* s := isSecure p in
    if eqb s is_secure then let* d := getDomainID p in Ok (d =? did) else Ok false
  else Ok false.

Definition matchAddr_pkt (pkt p : t) : res bool :=
  let* a := getAddr pkt in
  let* s := isSecure pkt in
  let* d := getDomainID pkt in
  matchAddr a s d p.

(** ** Payload *)

Definition hasDataPtr (p : t) : bool :=
  Flags.isSet (flags p) (Z.lor STATIC_DATA DYNAMIC_DATA).

Definition getConstPtr (p : t) : res (list Z) :=
  assert! (hasDataPtr p) in
  match data p with Some d => Ok d | None => Err Undefined end.

Definition getPtr (p : t) : res (list Z) :=
  assert! (hasDataPtr p) in
  assert! (negb (isMaskedWrite p)) in
  match data p with Some d => Ok d | None => Err Undefined end.

(** [allocate]: fresh storage of [getSize] bytes, contents unspecified in the
    source and zero here. *)
Definition allocate (p : t) : res t :=
  if hasData p || hasRespData p then
    assert! (Flags.noneSet (flags p) (Z.lor STATIC_DATA DYNAMIC_DATA)) in
    let* n := getSize p in
    Ok (with_data (Some (replicate (Z.to_nat n) 0))
          (with_flags (Flags.set (flags p) DYNAMIC_DATA) p))
  else Ok p.

Definition deleteData (p : t) : t :=
  with_data None (with_flags (Flags.clear (flags p) (Z.lor STATIC_DATA DYNAMIC_DATA)) p).

Definition dataStatic (d : list Z) (p : t) : res t :=
  assert! (Flags.noneSet (flags p) (Z.lor STATIC_DATA DYNAMIC_DATA)) in
  Ok (with_data (Some d) (with_flags (Flags.set (flags p) STATIC_DATA) p)).

Definition dataDynamic (d : list Z) (p : t) : res t :=
  assert! (Flags.noneSet (flags p) (Z.lor STATIC_DATA DYNAMIC_DATA)) in
  Ok (with_data (Some d) (with_flags (Flags.set (flags p) DYNAMIC_DATA) p)).

(** [setData(p)]: [src] is the memory from the source pointer on. A copy past
    either buffer is undefined. *)
Definition setData (src : list Z) (p : t) : res t :=
  let* d := getPtr p in
  let* n := getSize p in
  let n := Z.to_nat n in
  if (length src <? n)%nat || (length d <? n)%nat then Err Undefined
  else Ok (with_data (Some (splice 0 (take n src) d)) p).

Definition setDataFromBlock (blk_data : list Z) (blkSize : Z) (p : t) : res t :=
  let* off := getOffset blkSize p in
  setData (drop (Z.to_nat off) blk_data) p.

(** The byte-enabled copy of a masked write. *)
Fixpoint masked_copy (be : list bool) (src dst : list Z) : list Z :=
  match be, src, dst with
  | b :: be', s :: src', d :: dst' => (if b then s else d) :: masked_copy be' src' dst'
  | _, _, _ => dst
  end.

(** [writeData(p)]: [dst] is the memory from the destination pointer on. *)
Definition writeData (dst : list Z) (p : t) : res (list Z) :=
  let* d := getConstPtr p in
  let* n := getSize p in
  let n := Z.to_nat n in
  if (length dst <? n)%nat || (length d <? n)%nat then Err Undefined
  else if negb (isMaskedWrite p) then Ok (splice 0 (take n d) dst)
  else
    assert! (length (Request._byteEnable (req p)) =? n)%nat in
    Ok (masked_copy (Request._byteEnable (req p)) d dst).

Definition writeDataToBlock (blk_data : list Z) (blkSize : Z) (p : t) : res (list Z) :=
  let* off := getOffset blkSize p in
  let off := Z.to_nat off in
  let* d := writeData (drop off blk_data) p in
  Ok (take off blk_data ++ d).

(** ** Constructors *)

Definition set_if (b : bool) (m f : Z) : Z := if b then Flags.set f m else f.

(** [Packet(req, cmd)]; [pid] is the request pointer used as packet id. *)
Definition make (pid : Z) (r : Request.t) (c : Command) : res t :=
  let hp := Request.hasPaddr r in
  let addr := if hp then Request._paddr r else 0 in
  let sec := if hp then Request.isSecure r else false in
  assert! (negb (Request.isHTMCmd r) || (addr =? 0)) in
  let sz := if Request.hasSize r then Request._size r else 0 in
  let f := set_if hp VALID_ADDR 0 in
  let f := set_if (Request.isHTMCmd r) VALID_ADDR f in
  let f := set_if (Request.hasSize r) VALID_SIZE f in
  let f := set_if (Request.isNoFill r) MAY_NOT_FILL f in
  Ok (mk f c pid r None addr sec sz [] 0 0 0 0 0 0 []).

(** [Packet(req, cmd, blkSize, id)]. *)
Definition make_blk (pid : Z) (r : Request.t) (c : Command) (blkSize : Z) : t :=
  let hp := Request.hasPaddr r in
  let addr := if hp then Z.land (Request._paddr r) (unot 64 (blkSize - 1)) else 0 in
  let sec := if hp then Request.isSecure r else false in
  let f := set_if hp VALID_ADDR 0 in
  let f := set_if (Request.isNoFill r) MAY_NOT_FILL f in
  let f := Flags.set f VALID_SIZE in
  mk f c pid r None addr sec blkSize [] 0 0 0 0 0 0 [].

(** [Packet(pkt, clear_flags, alloc_data)]. *)
Definition make_copy (pkt : t) (clear_flags alloc_data : bool) : res t :=
  let f := if clear_flags then 0 else Flags.set 0 (Z.land (flags pkt) COPY_FLAGS) in
  let f := Flags.set f (Z.land (flags pkt) (Z.lor VALID_ADDR VALID_SIZE)) in
  let p := mk f (cmd pkt) (id pkt) (req pkt) None (addr pkt) (_isSecure pkt)
    (size pkt) (bytesValid pkt) (_qosValue pkt) 0 0 (headerDelay pkt) 0
    (payloadDelay pkt) (senderState pkt) in
  let p := if isMayNotFill pkt then setMayNotFill p else clearMayNotFill p in
  let p := if isHtmTransactional pkt
           then setHtmTransactional (htmTransactionUid pkt) p else p in
  let p := if htmTransactionFailedInCache pkt
           then setHtmTransactionFailedInCache (htmReturnReason pkt) p else p in
  if alloc_data then
    if Flags.isSet (flags pkt) STATIC_DATA
    then Ok (with_data (data pkt) (with_flags (Flags.set (flags p) STATIC_DATA) p))
    else allocate p
  else Ok p.

Definition makeReadCmd (r : Request.t) : Command :=
  if Request.isHTMCmd r then
    if Request.isHTMAbort r then MemCmd.HTMAbort else MemCmd.HTMReq
  else if Request.isLLSC r then MemCmd.LoadLockedReq
  else if Request.isPrefetchEx r then MemCmd.SoftPFExReq
  else if Request.isPrefetch r then MemCmd.SoftPFReq
  else MemCmd.ReadReq.

Definition makeWriteCmd (r : Request.t) : Command :=
  if Request.isLLSC r then MemCmd.StoreCondReq
  else if Request.isSwap r || Request.isAtomic r then MemCmd.SwapReq
  else if Request.isCacheInvalidate r then
    if Request.isCacheClean r then MemCmd.CleanInvalidReq else MemCmd.InvalidateReq
  else if Request.isCacheClean r then MemCmd.CleanSharedReq
  else MemCmd.WriteReq.

Definition createRead (pid : Z) (r : Request.t) : res t := make pid r (makeReadCmd r).
Definition createWrite (pid : Z) (r : Request.t) : res t := make pid r (makeWriteCmd r).

(** ** Responses *)

Definition makeResponse (p : t) : res t :=
  assert! (needsResponse p) in
  assert! (isRequest p) in
  Ok (with_flags (Flags.clear (flags p) EXPRESS_SNOOP)
       (with_cmd (MemCmd.responseCommand (cmd p)) p)).

Definition makeTimingResponse (p : t) : res t := makeResponse p.
Definition makeAtomicResponse (p : t) : res t := makeResponse p.

Definition setFunctionalResponseStatus (success : bool) (p : t) : t :=
  if success then p
  else if isWrite p then with_cmd MemCmd.FunctionalWriteError p
  else with_cmd MemCmd.FunctionalReadError p.

Definition copyError (pkt p : t) : res t :=
  assert! (isError pkt) in Ok (with_cmd (cmd pkt) p).

Definition convertScToWrite (p : t) : res t :=
  assert! (isLLSC p) in assert! (isWrite p) in Ok (with_cmd MemCmd.WriteReq p).
Definition convertLlToRead (p : t) : res t :=
  assert! (isLLSC p) in assert! (isRead p) in Ok (with_cmd MemCmd.ReadReq p).

(** ** Sender state *)

Definition pushSenderState (s : SenderState) (p : t) : t :=
  with_senderState (s :: senderState p) p.

Definition popSenderState (p : t) : res (SenderState * t) :=
  match senderState p with
  | [] => Err AssertFail
  | s :: l => Ok (s, with_senderState l p)
  end.

(** [findNextSenderState<MSHR>]. *)
Fixpoint find_mshr (l : list SenderState) : option (nat * nat) :=
  match l with
  | [] => None
  | SS_MSHR c m :: _ => Some (c, m)
  | SS_Other _ :: l' => find_mshr l'
  end.
Definition findNextSenderState_MSHR (p : t) : option (nat * nat) :=
  find_mshr (senderState p).

(** ** Functional accesses *)

(** [trySatisfyFunctional(obj, addr, is_secure, size, data)]; the result is
    the verdict, the packet, and the other agent's data. The two scans of the
    valid-byte vector stop at the first invalid byte. *)
Definition trySatisfyFunctional_data (vaddr : Z) (is_secure : bool) (vsize : Z)
    (vdata : option (list Z)) (p : t) : res (bool * t * option (list Z)) :=
  let* func_start := getAddr p in
  let* n := getSize p in
  let func_end := u64 (func_start + n - 1) in
  let val_start := vaddr in
  let val_end := u64 (val_start + vsize - 1) in
  if negb (eqb is_secure (_isSecure p)) || (val_end <? func_start) || (func_end <? val_start)
  then Ok (false, p, vdata)
  else if isPrint p then
    assert! (match vdata with Some _ => false | None => true end) in Ok (false, p, vdata)
  else
    match vdata with
    | None => Ok (false, p, None)
    | Some d =>
        let val_offset := Z.to_nat (if val_start <? func_start then func_start - val_start else 0) in
        let func_offset := Z.to_nat (if func_start <? val_start then val_start - func_start else 0) in
        let overlap := Z.to_nat (Z.min val_end func_end + 1 - Z.max val_start func_start) in
        if isRead p then
          let* dst := getPtr p in
          if (length d <? val_offset + overlap)%nat || (length dst <? func_offset + overlap)%nat
          then Err Undefined else
          let dst' := splice func_offset (slice val_offset overlap d) dst in
          let bv := match bytesValid p with
                    | [] => replicate (Z.to_nat n) false
                    | l => l
                    end in
          if (length bv <? func_offset + overlap)%nat || (length bv <? Z.to_nat n)%nat
          then Err Undefined else
          let before := forallb (fun b => b) (take func_offset bv) in
          let bv' := splice func_offset (replicate overlap true) bv in
          let all := before && forallb (fun b => b) (slice (func_offset + overlap)
                                 (Z.to_nat n - (func_offset + overlap)) bv') in
          Ok (all, with_bytesValid bv' (with_data (Some dst') p), Some d)
        else if isWrite p then
          let* src := getConstPtr p in
          if (length src <? func_offset + overlap)%nat || (length d <? val_offset + overlap)%nat
          then Err Undefined else
          Ok (false, p, Some (splice val_offset (slice func_offset overlap src) d))
        else Err Panic
    end.

(** [trySatisfyFunctional(other)]. *)
Definition trySatisfyFunctional (other p : t) : res (bool * t * t) :=
  if isMaskedWrite other then Ok (false, p, other)
  else
    let* a := getAddr other in
    let* s := isSecure other in
    let* n := getSize other in
    let* d := (if hasData other then let* d := getPtr other in Ok (Some d) else Ok None) in
    let* (b, p', d') := trySatisfyFunctional_data a s n d p in
    Ok (b, p', match d' with Some x => with_data (Some x) other | None => other end).

(** ** Well-formed packets and their accessors *)

Definition valid (p : t) : Prop :=
  Flags.isSet (flags p) VALID_ADDR = true /\ Flags.isSet (flags p) VALID_SIZE = true.

Lemma getAddr_valid p : valid p -> getAddr p = Ok (addr p).
Proof. intros [H _]. unfold getAddr. by rewrite H. Qed.
Lemma isSecure_valid p : valid p -> isSecure p = Ok (_isSecure p).
Proof. intros [H _]. unfold isSecure. by rewrite H. Qed.
Lemma getSize_valid p : valid p -> getSize p = Ok (size p).
Proof. intros [_ H]. unfold getSize. by rewrite H. Qed.

Lemma offset_mask k : 0 <= k < 32 -> u32 (2 ^ k - 1) = 2 ^ k - 1.
Proof.
  intros. apply uwrap_small. pose proof (IntMath.pow2_in_word 32 k ltac:(lia)) as [_ ?].
  pose proof (pow2_pos k). split; lia.
Qed.

Lemma getBlockAddr_valid p k :
  valid p -> 0 <= k < 32 -> in_word 64 (addr p) ->
  getBlockAddr (2 ^ k) p = Ok (addr p - addr p mod 2 ^ k).
Proof.
  intros Hv Hk Ha. unfold getBlockAddr. rewrite getAddr_valid by done. simpl.
  rewrite offset_mask by done. rewrite land_unot_ones; [done|lia|done].
Qed.

Lemma getOffset_valid p k :
  valid p -> 0 <= k < 32 -> getOffset (2 ^ k) p = Ok (addr p mod 2 ^ k).
Proof.
  intros Hv Hk. unfold getOffset. rewrite getAddr_valid by done. simpl.
  by rewrite offset_mask, land_ones_mod by lia.
Qed.

(** Evaluate flag tests on constants once the packet's own flags are set. *)
Ltac flags :=
  unfold isMayNotFill, isNoFillLower, setMayNotFill, clearMayNotFill, setNoFillLower;
  simpl; rewrite ?Flags.isSet_set, ?Flags.isSet_land;
  repeat first
    [ rewrite Flags.isSet_clear_disjoint by reflexivity
    | rewrite Flags.isSet_clear_sub by reflexivity
    | rewrite Flags.isSet_set ];
  simpl.

Lemma make_MayNotFill pid r c p :
  make pid r c = Ok p -> isMayNotFill p = Request.isNoFill r /\ isNoFillLower p = false.
Proof.
  unfold make. intros. simplify_res. unfold isMayNotFill, isNoFillLower, set_if. simpl.
  destruct (Request.hasPaddr r), (Request.isHTMCmd r), (Request.hasSize r),
    (Request.isNoFill r); done.
Qed.

Lemma make_blk_MayNotFill pid r c n :
  isMayNotFill (make_blk pid r c n) = Request.isNoFill r.
Proof.
  unfold make_blk, isMayNotFill, set_if. simpl.
  by destruct (Request.hasPaddr r), (Request.isNoFill r).
Qed.

Lemma allocate_flags p p' m :
  allocate p = Ok p' -> Z.land DYNAMIC_DATA m = 0 ->
  Flags.isSet (flags p') m = Flags.isSet (flags p) m.
Proof.
  unfold allocate. intros H Hm. destruct (hasData p || hasRespData p); simplify_res; [|done].
  simpl. rewrite Flags.isSet_set, Hm. apply orb_false_r.
Qed.

Lemma make_copy_marks pkt clear_flags alloc_data p :
  make_copy pkt clear_flags alloc_data = Ok p ->
  isMayNotFill p = isMayNotFill pkt /\ isNoFillLower p = false.
Proof.
  unfold make_copy, isNoFillLower. intros H.
  unfold isMayNotFill in *. revert H.
  set (f0 := Flags.set (if clear_flags then 0 else _) _).
  assert (Hf0 : Flags.isSet f0 MAY_NOT_FILL = false /\ Flags.isSet f0 NO_FILL_LOWER = false).
  { subst f0. destruct clear_flags; rewrite !Flags.isSet_set, ?Flags.isSet_land.
    - by rewrite <- !Z.land_assoc, !Z.land_0_r.
    - by rewrite <- !Z.land_assoc, !Z.land_0_r. }
  destruct Hf0 as [H1 H2].
  destruct (Flags.isSet (flags pkt) MAY_NOT_FILL), (isHtmTransactional pkt),
    (htmTransactionFailedInCache pkt), alloc_data, (Flags.isSet (flags pkt) STATIC_DATA);
    unfold setHtmTransactionFailedInCache; try destruct (htmReturnReason pkt =? 0);
    intros H; simplify_res;
    rewrite ?(allocate_flags _ _ _ H) by reflexivity; simpl;
    rewrite ?Flags.isSet_set; simpl;
    rewrite ?Flags.isSet_clear_sub, ?Flags.isSet_clear_disjoint by reflexivity;
    rewrite ?Flags.isSet_set, ?H1, ?H2; done.
Qed.

(** What a copy without data keeps. *)
Lemma make_copy_keeps pkt clear_flags :
  valid pkt -> exists p, make_copy pkt clear_flags false = Ok p /\ valid p /\
    addr p = addr pkt /\ size p = size pkt /\ req p = req pkt /\ _isSecure p = _isSecure pkt.
Proof.
  intros [Ha Hs]. unfold make_copy, valid. eexists. split; [reflexivity|].
  assert (truthy (Z.land (Z.land (flags pkt) (Z.lor VALID_ADDR VALID_SIZE)) VALID_ADDR) = true) as Ha'
    by (rewrite <- Z.land_assoc; exact Ha).
  assert (truthy (Z.land (Z.land (flags pkt) (Z.lor VALID_ADDR VALID_SIZE)) VALID_SIZE) = true) as Hs'
    by (rewrite <- Z.land_assoc; exact Hs).
  set (f0 := if clear_flags then 0 else _).
  destruct (isMayNotFill pkt), (isHtmTransactional pkt), (htmTransactionFailedInCache pkt);
    unfold setHtmTransactionFailedInCache; try destruct (htmReturnReason pkt =? 0); simpl;
    rewrite ?Flags.isSet_set, ?Flags.isSet_clear_disjoint by reflexivity;
    rewrite ?Flags.isSet_set, ?Ha', ?Hs', ?orb_true_r; auto.
Qed.

Lemma packet_make_valid pid r c :
  Request.hasPaddr r = true -> Request.hasSize r = true -> Request.isHTMCmd r = false ->
  exists p, make pid r c = Ok p /\ valid p /\ addr p = Request._paddr r /\ size p = Request._size r /\
    req p = r /\ _isSecure p = Request.isSecure r /\ cmd p = c /\
    isMayNotFill p = Request.isNoFill r /\ Flags.noneSet (flags p) (Z.lor STATIC_DATA DYNAMIC_DATA) = true.
Proof.
  intros Hp Hs Hh. destruct (make pid r c) as [p|] eqn:Hm; [|by unfold make in Hm; rewrite Hh in Hm].
  exists p. pose proof (make_MayNotFill _ _ _ _ Hm) as [Hn _]. revert Hm. unfold make.
  rewrite Hp, Hs, Hh. intros. simplify_res. unfold valid, set_if in *. simpl in *.
  destruct (Request.isNoFill r); split_and!; done.
Qed.

(** The no-fill mark enters with the request and survives every way a
    packet is derived: a packet built from a request is marked exactly when the
    request carries NO_FILL, a copied packet is marked exactly when the
    original is (whatever [clear_flags] says), and turning it into a response
    leaves the mark alone. The downstream mark NO_FILL_LOWER, in contrast, is
    never inherited by a copy. *)
Theorem nofill_mark_propagation pid r c pkt clear_flags alloc_data :
  (forall p, make pid r c = Ok p -> isMayNotFill p = Request.isNoFill r) /\
  (forall p, make_copy pkt clear_flags alloc_data = Ok p ->
     isMayNotFill p = isMayNotFill pkt /\ isNoFillLower p = false) /\
  (forall p, makeResponse pkt = Ok p ->
     isMayNotFill p = isMayNotFill pkt /\ isNoFillLower p = isNoFillLower pkt /\
     isResponse p = true).
Proof.
  split_and!.
  - intros p H. by apply make_MayNotFill in H as [-> _].
  - intros p H. by apply make_copy_marks in H.
  - intros p H. unfold makeResponse in H. simplify_res.
    split_and!; [by flags|by flags|]. unfold isResponse. simpl.
    by apply MemCmd.response_of_request.
Qed.

(** *** Data movement *)

(** A packet that carries [size] bytes within one block of [2^k] bytes. *)
Definition carries (k : Z) (d : list Z) (p : t) : Prop :=
  valid p /\ 0 <= k < 32 /\ 0 <= size p /\ addr p mod 2 ^ k + size p <= 2 ^ k /\
  hasDataPtr p = true /\ isMaskedWrite p = false /\
  data p = Some d /\ length d = Z.to_nat (size p).

Lemma splice_0_all (src l : list Z) : length src = length l -> splice 0 src l = src.
Proof.
  intros H. unfold splice. simpl. rewrite drop_ge by lia. apply app_nil_r.
Qed.

Lemma writeDataToBlock_carries k d p blk :
  carries k d p -> length blk = Z.to_nat (2 ^ k) ->
  writeDataToBlock blk (2 ^ k) p = Ok (splice (Z.to_nat (addr p mod 2 ^ k)) d blk).
Proof.
  intros (Hv & Hk & Hs & Hfit & Hptr & Hmask & Hd & Hlen) Hblk.
  pose proof (Z.mod_pos_bound (addr p) (2 ^ k) (pow2_pos k ltac:(lia))) as Hoff.
  unfold writeDataToBlock. rewrite getOffset_valid by done. simpl.
  unfold writeData, getConstPtr. rewrite Hptr, Hd. simpl.
  rewrite getSize_valid by done. simpl. rewrite Hmask.
  rewrite (proj2 (Nat.ltb_ge _ _)) by (rewrite length_drop; lia).
  rewrite (proj2 (Nat.ltb_ge _ _)) by lia. simpl.
  rewrite (take_ge d) by lia. unfold splice. simpl. by rewrite drop_drop.
Qed.

Lemma setDataFromBlock_carries k d p blk :
  carries k d p -> length blk = Z.to_nat (2 ^ k) ->
  setDataFromBlock blk (2 ^ k) p =
    Ok (with_data (Some (slice (Z.to_nat (addr p mod 2 ^ k)) (length d) blk)) p).
Proof.
  intros (Hv & Hk & Hs & Hfit & Hptr & Hmask & Hd & Hlen) Hblk.
  pose proof (Z.mod_pos_bound (addr p) (2 ^ k) (pow2_pos k ltac:(lia))) as Hoff.
  unfold setDataFromBlock. rewrite getOffset_valid by done. simpl.
  unfold setData, getPtr. rewrite Hptr, Hmask, Hd. simpl.
  rewrite getSize_valid by done. simpl.
  rewrite (proj2 (Nat.ltb_ge _ _)) by (rewrite length_drop; lia).
  rewrite (proj2 (Nat.ltb_ge _ _)) by lia. simpl. rewrite <- Hlen.
  rewrite splice_0_all by (rewrite length_take, length_drop; lia). done.
Qed.

(** Block data round trip: writing a packet's payload into a cache block
    and reading the same range back returns the payload, keeps the block's
    length, and leaves every byte outside the packet's range as it was. *)
Theorem block_data_roundtrip k d d' p q blk :
  carries k d p -> carries k d' q -> addr q = addr p -> size q = size p ->
  length blk = Z.to_nat (2 ^ k) ->
  exists blk', writeDataToBlock blk (2 ^ k) p = Ok blk' /\
    length blk' = length blk /\
    setDataFromBlock blk' (2 ^ k) q = Ok (with_data (Some d) q) /\
    forall i, ~ (addr p mod 2 ^ k <= Z.of_nat i < addr p mod 2 ^ k + size p) ->
      blk' !! i = blk !! i.
Proof.
  intros Hp Hq Ha Hsz Hblk. rewrite (writeDataToBlock_carries k d) by done.
  assert (Hfit : (Z.to_nat (addr p mod 2 ^ k) + length d <= length blk)%nat).
  { destruct Hp as (_ & Hk & ? & ? & _ & _ & _ & ?).
    pose proof (Z.mod_pos_bound (addr p) (2 ^ k) (pow2_pos k ltac:(lia))). lia. }
  eexists. split; [done|]. split; [by apply length_splice|]. split.
  - rewrite (setDataFromBlock_carries k d') by (rewrite ?length_splice; done).
    destruct Hp as (_ & _ & _ & _ & _ & _ & _ & Hd).
    destruct Hq as (_ & _ & _ & _ & _ & _ & _ & Hd').
    rewrite Ha. replace (length d') with (length d) by congruence.
    by rewrite slice_splice.
  - intros i Hi. rewrite lookup_splice by done. rewrite decide_False; [done|].
    destruct Hp as (_ & Hk & ? & _ & _ & _ & _ & ?).
    pose proof (Z.mod_pos_bound (addr p) (2 ^ k) (pow2_pos k ltac:(lia))). lia.
Qed.

(** *** Functional accesses *)

Lemma forallb_take_drop (f : bool -> bool) (n : nat) l :
  forallb f l = forallb f (take n l) && forallb f (drop n l).
Proof. rewrite <- forallb_app. by rewrite take_drop. Qed.

(** The two scans around the updated range see every byte. *)
Lemma valid_scan off n (bv : list bool) :
  (off + n <= length bv)%nat ->
  let bv' := splice off (replicate n true) bv in
  forallb (fun b => b) (take off bv) &&
  forallb (fun b => b) (slice (off + n) (length bv - (off + n)) bv') =
  forallb (fun b => b) bv'.
Proof.
  intros Hle bv'.
  assert (Hl : length bv' = length bv).
  { apply length_splice. by rewrite length_replicate. }
  rewrite (forallb_take_drop _ off bv'), (forallb_take_drop _ n (drop off bv')).
  replace (take off bv') with (take off bv).
  2:{ subst bv'. unfold splice. rewrite take_app_le by (rewrite length_take; lia).
      by rewrite take_take, Nat.min_id. }
  replace (take n (drop off bv')) with (replicate n true).
  2:{ rewrite <- (length_replicate n true) at 2. symmetry. apply slice_splice.
      by rewrite length_replicate. }
  replace (forallb (fun b => b) (replicate n true)) with true
    by (clear; induction n; simpl; auto).
  simpl. f_equal. unfold slice. rewrite take_ge; [by rewrite drop_drop|].
  rewrite length_drop. lia.
Qed.

(** The other agent's range [a, a + len) intersects the packet's. *)
Definition overlaps (a len : Z) (p : t) : Prop :=
  a < addr p + size p /\ addr p < a + len.

Lemma no_wrap_end a n : 0 < n -> 0 <= a -> a + n <= 2 ^ 64 -> u64 (a + n - 1) = a + n - 1.
Proof. intros. apply uwrap_small. split; lia. Qed.

(** A functional read that overlaps another agent's data copies exactly
    the overlapping bytes (byte [i] of the packet becomes the byte of the other
    buffer at the same address, the rest is kept), marks exactly those bytes
    valid in addition to the ones that were, reports completion iff every byte
    of the packet is now valid, and leaves the other agent's data unchanged. *)
Theorem functional_read_correct a d dst p :
  valid p -> isRead p = true -> isPrint p = false -> isMaskedWrite p = false ->
  hasDataPtr p = true -> data p = Some dst -> length dst = Z.to_nat (size p) ->
  bytesValid p = [] \/ length (bytesValid p) = Z.to_nat (size p) ->
  0 <= addr p -> 0 < size p -> addr p + size p <= 2 ^ 64 ->
  0 <= a -> (0 < length d)%nat -> a + Z.of_nat (length d) <= 2 ^ 64 ->
  overlaps a (Z.of_nat (length d)) p ->
  exists done p',
    trySatisfyFunctional_data a (_isSecure p) (Z.of_nat (length d)) (Some d) p
      = Ok (done, p', Some d) /\
    done = forallb (fun b => b) (bytesValid p') /\
    length (bytesValid p') = Z.to_nat (size p) /\
    (exists dst', data p' = Some dst' /\
      forall i, (i < Z.to_nat (size p))%nat ->
        let byte := addr p + Z.of_nat i in
        if decide (a <= byte < a + Z.of_nat (length d)) then
          dst' !! i = d !! Z.to_nat (byte - a) /\ bytesValid p' !! i = Some true
        else dst' !! i = dst !! i /\
             bytesValid p' !! i = Some (default false (bytesValid p !! i))).
Proof.
  intros Hv Hr Hpr Hmw Hptr Hdata Hdst Hbv Ha Hn Hw Ha' Hd Hw' [Ho1 Ho2].
  unfold trySatisfyFunctional_data.
  rewrite getAddr_valid, getSize_valid by done. simpl.
  rewrite !no_wrap_end by lia.
  destruct (Z.ltb_spec (a + Z.of_nat (length d) - 1) (addr p)); [lia|].
  destruct (Z.ltb_spec (addr p + size p - 1) a); [lia|].
  rewrite eqb_reflx, Hpr, Hr. simpl.
  set (vo := Z.to_nat (if a <? addr p then addr p - a else 0)).
  set (fo := Z.to_nat (if addr p <? a then a - addr p else 0)).
  set (ov := Z.to_nat _).
  assert (Hvo : Z.of_nat vo = Z.max 0 (addr p - a)) by (subst vo; destruct (Z.ltb_spec a (addr p)); lia).
  assert (Hfo : Z.of_nat fo = Z.max 0 (a - addr p)) by (subst fo; destruct (Z.ltb_spec (addr p) a); lia).
  assert (Hov : Z.of_nat ov = Z.min (a + Z.of_nat (length d)) (addr p + size p) - Z.max a (addr p))
    by (subst ov; lia).
  unfold getPtr. rewrite Hptr, Hmw, Hdata. simpl.
  rewrite (proj2 (Nat.ltb_ge (length d) _)) by lia.
  rewrite (proj2 (Nat.ltb_ge (length dst) _)) by lia. simpl.
  set (bv := match bytesValid p with [] => _ | _ => _ end).
  assert (Hlbv : length bv = Z.to_nat (size p)).
  { subst bv. destruct Hbv as [->|Hl]; [apply length_replicate|].
    destruct (bytesValid p); [simpl in Hl; lia|done]. }
  assert (Hbvi : forall i, (i < length bv)%nat -> bv !! i = Some (default false (bytesValid p !! i))).
  { intros i Hi. destruct (lookup_lt_is_Some_2 bv i Hi) as [b Hb]. rewrite Hb. f_equal.
    subst bv. destruct (bytesValid p) as [|x l]; simpl in *.
    - apply lookup_replicate in Hb as [-> _]. done.
    - by rewrite Hb. }
  rewrite (proj2 (Nat.ltb_ge (length bv) (fo + ov))) by lia.
  rewrite (proj2 (Nat.ltb_ge (length bv) (Z.to_nat (size p)))) by lia. simpl.
  assert (Hsl : length (slice vo ov d) = ov) by (apply length_slice; lia).
  eexists _, _. split; [done|]. split.
  { simpl. rewrite <- Hlbv. apply valid_scan. lia. }
  split; [simpl; rewrite length_splice; rewrite ?length_replicate; lia|].
  eexists. split; [reflexivity|]. intros i Hi. simpl.
  rewrite !lookup_splice by (rewrite ?Hsl, ?length_replicate; lia).
  rewrite Hsl, length_replicate. case_decide as Hin.
  - rewrite !(decide_True (P := (fo <= i < fo + ov)%nat)) by lia. split.
    + rewrite lookup_slice, decide_True by lia. f_equal. lia.
    + apply lookup_replicate. split; [done|lia].
  - rewrite !(decide_False (P := (fo <= i < fo + ov)%nat)) by lia.
    split; [done|]. apply Hbvi. lia.
Qed.

(** A read of 4 bytes at 0x1002 against a 4-byte buffer at 0x1000. *)
Definition example_read : t :=
  mk (Z.lor VALID_ADDR (Z.lor VALID_SIZE DYNAMIC_DATA)) MemCmd.ReadReq 0
    (Request.make 0 0x1002 4 0 0) (Some [0; 0; 0; 0]) 0x1002 false 4 [] 0 0 0 0 0 0 [].

Lemma functional_read_correct_witness :
  exists done p', trySatisfyFunctional_data 0x1000 false 4 (Some [1; 2; 3; 4]) example_read
      = Ok (done, p', Some [1; 2; 3; 4]) /\ done = forallb (fun b => b) (bytesValid p').
Proof.
  destruct (functional_read_correct 0x1000 [1; 2; 3; 4] [0; 0; 0; 0] example_read)
    as (b & p' & H1 & H2 & _);
    [ split; reflexivity | reflexivity | reflexivity | reflexivity | reflexivity
    | reflexivity | reflexivity | left; reflexivity | vm_compute; congruence
    | reflexivity | vm_compute; congruence | vm_compute; congruence | simpl; lia
    | vm_compute; congruence | split; reflexivity | ].
  exists b, p'. split; [exact H1|exact H2].
Defined.

Lemma block_data_roundtrip_witness :
  exists blk', writeDataToBlock (replicate 8 0) (2 ^ 3) (with_data (Some [5; 6; 7; 8]) example_read)
    = Ok blk' /\ setDataFromBlock blk' (2 ^ 3) example_read
    = Ok (with_data (Some [5; 6; 7; 8]) example_read).
Proof.
  destruct (block_data_roundtrip 3 [5; 6; 7; 8] [0; 0; 0; 0]
    (with_data (Some [5; 6; 7; 8]) example_read) example_read (replicate 8 0))
    as (b & H1 & _ & H2 & _); try reflexivity.
  - unfold carries, valid. repeat split; vm_compute; congruence.
  - unfold carries, valid. repeat split; vm_compute; congruence.
  - exists b. split; [exact H1|exact H2].
Defined.

End Packet.
