(* ===== verification/CacheBlk.v ===== *)
(** * Cache blocks

    [TaggedEntry] (src/gem5/src/mem/cache/tags/tagged_entry.hh), [CacheBlk]
    and [TempCacheBlk] (mem/cache/cache_blk.hh, cache_blk.cc): tag match,
    coherence bits, insertion and invalidation, and the load-locked /
    store-conditional lock list. The position of a block (set and way) is the
    [ReplaceableEntry] part; its replacement data lives with the policy. *)

From S2P Require Import Prelude BaseUtil MemCmd Request Packet.
Local Open Scope Z_scope.

Definition MaxTick : Z := 2 ^ 64 - 1.
Definition MaxAddr : Z := 2 ^ 64 - 1.

Module CacheBlk.

(** Coherence bits. *)
Definition WritableBit := 0x02.
Definition ReadableBit := 0x04.
Definition DirtyBit := 0x08.
Definition AllBits := 0x0E.

(** ** Locks *)

Record Lock := mkLock { lock_contextId : Z; lowAddr : Z; highAddr : Z }.

#[global] Instance Lock_eq_dec : EqDecision Lock.
Proof. solve_decision. Defined.

(** First and last byte of a request. *)
Definition req_range (r : Request.t) : res (Z * Z) :=
  let* lo := Request.getPaddr r in
  let* n := Request.getSize r in
  Ok (lo, u64 (lo + n - 1)).

Definition Lock_matches (l : Lock) (r : Request.t) : res bool :=
  let* (lo, hi) := req_range r in
  let* cid := Request.contextId r in
  Ok ((lock_contextId l =? cid) && (lowAddr l <=? lo) && (hi <=? highAddr l)).

Definition Lock_intersects (l : Lock) (r : Request.t) : res bool :=
  let* (lo, hi) := req_range r in
  Ok ((lo <=? highAddr l) && (lowAddr l <=? hi)).

Definition Lock_make (r : Request.t) : res Lock :=
  let* cid := Request.contextId r in
  let* (lo, hi) := req_range r in
  Ok (mkLock cid lo hi).

(** ** State *)

Record t := mk {
  _valid : bool;
  _secure : bool;
  _tag : Z;
  _index_bits : Z;
  _set : Z;
  _way : Z;
  domainID : Z;
  data : list Z;
  whenReady : Z;
  lockList : list Lock;
  coherence : Z;
  _taskId : Z;
  _srcRequestorId : Z;
  _refCount : Z;
  _tickInserted : Z;
  _prefetched : bool
}.

Definition with_valid (v : bool) (r : t) : t :=
mk v (_secure r) (_tag r) (_index_bits r) (_set r) (_way r) (domainID r) (data r)
    (whenReady r) (lockList r) (coherence r) (_taskId r) (_srcRequestorId r)
    (_refCount r) (_tickInserted r) (_prefetched r).
Definition with_secure (v : bool) (r : t) : t :=
mk (_valid r) v (_tag r) (_index_bits r) (_set r) (_way r) (domainID r) (data r)
    (whenReady r) (lockList r) (coherence r) (_taskId r) (_srcRequestorId r)
    (_refCount r) (_tickInserted r) (_prefetched r).
Definition with_tag (v : Z) (r : t) : t :=
mk (_valid r) (_secure r) v (_index_bits r) (_set r) (_way r) (domainID r) (data r)
    (whenReady r) (lockList r) (coherence r) (_taskId r) (_srcRequestorId r)
    (_refCount r) (_tickInserted r) (_prefetched r).
Definition with_index_bits (v : Z) (r : t) : t :=
mk (_valid r) (_secure r) (_tag r) v (_set r) (_way r) (domainID r) (data r)
    (whenReady r) (lockList r) (coherence r) (_taskId r) (_srcRequestorId r)
    (_refCount r) (_tickInserted r) (_prefetched r).
Definition with_set (v : Z) (r : t) : t :=
mk (_valid r) (_secure r) (_tag r) (_index_bits r) v (_way r) (domainID r) (data r)
    (whenReady r) (lockList r) (coherence r) (_taskId r) (_srcRequestorId r)
    (_refCount r) (_tickInserted r) (_prefetched r).
Definition with_way (v : Z) (r : t) : t :=
mk (_valid r) (_secure r) (_tag r) (_index_bits r) (_set r) v (domainID r) (data r)
    (whenReady r) (lockList r) (coherence r) (_taskId r) (_srcRequestorId r)
    (_refCount r) (_tickInserted r) (_prefetched r).
Definition with_domainID (v : Z) (r : t) : t :=
mk (_valid r) (_secure r) (_tag r) (_index_bits r) (_set r) (_way r) v (data r)
    (whenReady r) (lockList r) (coherence r) (_taskId r) (_srcRequestorId r)
    (_refCount r) (_tickInserted r) (_prefetched r).
Definition with_data (v : list Z) (r : t) : t :=
mk (_valid r) (_secure r) (_tag r) (_index_bits r) (_set r) (_way r) (domainID r) v
    (whenReady r) (lockList r) (coherence r) (_taskId r) (_srcRequestorId r)
    (_refCount r) (_tickInserted r) (_prefetched r).
Definition with_whenReady (v : Z) (r : t) : t :=
mk (_valid r) (_secure r) (_tag r) (_index_bits r) (_set r) (_way r) (domainID r)
    (data r) v (lockList r) (coherence r) (_taskId r) (_srcRequestorId r) (_refCount
    r) (_tickInserted r) (_prefetched r).
Definition with_lockList (v : list Lock) (r : t) : t :=
mk (_valid r) (_secure r) (_tag r) (_index_bits r) (_set r) (_way r) (domainID r)
    (data r) (whenReady r) v (coherence r) (_taskId r) (_srcRequestorId r)
    (_refCount r) (_tickInserted r) (_prefetched r).
Definition with_coherence (v : Z) (r : t) : t :=
mk (_valid r) (_secure r) (_tag r) (_index_bits r) (_set r) (_way r) (domainID r)
    (data r) (whenReady r) (lockList r) v (_taskId r) (_srcRequestorId r) (_refCount
    r) (_tickInserted r) (_prefetched r).
Definition with_taskId (v : Z) (r : t) : t :=
mk (_valid r) (_secure r) (_tag r) (_index_bits r) (_set r) (_way r) (domainID r)
    (data r) (whenReady r) (lockList r) (coherence r) v (_srcRequestorId r)
    (_refCount r) (_tickInserted r) (_prefetched r).
Definition with_srcRequestorId (v : Z) (r : t) : t :=
mk (_valid r) (_secure r) (_tag r) (_index_bits r) (_set r) (_way r) (domainID r)
    (data r) (whenReady r) (lockList r) (coherence r) (_taskId r) v (_refCount r)
    (_tickInserted r) (_prefetched r).
Definition with_refCount (v : Z) (r : t) : t :=
mk (_valid r) (_secure r) (_tag r) (_index_bits r) (_set r) (_way r) (domainID r)
    (data r) (whenReady r) (lockList r) (coherence r) (_taskId r) (_srcRequestorId
    r) v (_tickInserted r) (_prefetched r).
Definition with_tickInserted (v : Z) (r : t) : t :=
mk (_valid r) (_secure r) (_tag r) (_index_bits r) (_set r) (_way r) (domainID r)
    (data r) (whenReady r) (lockList r) (coherence r) (_taskId r) (_srcRequestorId
    r) (_refCount r) v (_prefetched r).
Definition with_prefetched (v : bool) (r : t) : t :=
mk (_valid r) (_secure r) (_tag r) (_index_bits r) (_set r) (_way r) (domainID r)
    (data r) (whenReady r) (lockList r) (coherence r) (_taskId r) (_srcRequestorId
    r) (_refCount r) (_tickInserted r) v.

(** ** TaggedEntry *)

Definition isValid (b : t) : bool := _valid b.
Definition isSecure (b : t) : bool := _secure b.
Definition getTag (b : t) : Z := _tag b.
Definition getIndexBits (b : t) : Z := _index_bits b.
Definition getDomainID (b : t) : Z := domainID b.

Definition matchTag (tag : Z) (is_secure : bool) (b : t) : bool :=
  isValid b && (getTag b =? tag) && eqb (isSecure b) is_secure.

Definition matchIndex (index_bits : Z) (is_secure : bool) (b : t) : bool :=
  isValid b && (getIndexBits b =? index_bits) && eqb (isSecure b) is_secure.

(** [CacheBlk::matchIndex] with the security domain. *)
Definition matchIndex_dom (index_bits : Z) (is_secure : bool) (did : Z) (b : t) : bool :=
  isValid b && (getIndexBits b =? index_bits) && eqb (isSecure b) is_secure &&
  (getDomainID b =? did).

Definition tagged_insert (tag index_bits : Z) (is_secure : bool) (b : t) : res t :=
  assert! (negb (isValid b)) in
  let b := with_valid true b in
  let b := with_tag tag b in
  let b := with_index_bits index_bits b in
  Ok (if is_secure then with_secure true b else b).

Definition tagged_invalidate (b : t) : t :=
  with_secure false (with_tag MaxAddr (with_valid false b)).

(** ** Coherence and timing *)

Definition setCoherenceBits (bits : Z) (b : t) : res t :=
  assert! (isValid b) in Ok (with_coherence (Z.lor (coherence b) bits) b).

Definition clearCoherenceBits (bits : Z) (b : t) : t :=
  with_coherence (Z.ldiff (coherence b) bits) b.

Definition isSet (bits : Z) (b : t) : bool :=
  isValid b && truthy (Z.land (coherence b) bits).

Definition setWhenReady (tick : Z) (b : t) : res t :=
  assert! (_tickInserted b <=? tick) in Ok (with_whenReady tick b).

Definition getWhenReady (b : t) : res Z :=
  assert! (negb (whenReady b =? MaxTick)) in Ok (whenReady b).

Definition getAge (now : Z) (b : t) : res Z :=
  assert! (_tickInserted b <=? now) in Ok (now - _tickInserted b).

Definition increaseRefCount (b : t) : t := with_refCount (u32 (_refCount b + 1)) b.

(** ** Insertion and invalidation *)

Definition invalidate (b : t) : res t :=
  let b := tagged_invalidate b in
  let b := with_prefetched false b in
  let b := clearCoherenceBits AllBits b in
  let b := with_taskId Request.TaskId_Unknown b in
  let* b := setWhenReady MaxTick b in
  let b := with_refCount 0 b in
  let b := with_srcRequestorId Request.invldRequestorId b in
  let b := with_domainID 0 b in
  Ok (with_lockList [] b).

(** [CacheBlk::insert(tag, index_bits, is_secure, src_requestor_ID, task_ID)];
    the overload without index bits passes 0. *)
Definition insert (now tag index_bits : Z) (is_secure : bool) (src task : Z) (b : t) : res t :=
  assert! (negb (isValid b)) in
  let* b := tagged_insert tag index_bits is_secure b in
  let b := with_srcRequestorId src b in
  let b := with_taskId task b in
  let b := with_tickInserted now b in
  Ok (increaseRefCount b).

Definition insert_noindex (now tag : Z) (is_secure : bool) (src task : Z) (b : t) : res t :=
  insert now tag 0 is_secure src task b.

(** The move assignment [dest = std::move(other)]: returns both blocks. *)
Definition move_assign (now : Z) (dest other : t) : res (t * t) :=
  assert! (negb (isValid dest)) in
  assert! (isValid other) in
  let* d := tagged_insert (getTag other) (getIndexBits other) (isSecure other) dest in
  let d := if _prefetched other then with_prefetched true d else d in
  let* d := setCoherenceBits (coherence other) d in
  let d := with_taskId (_taskId other) d in
  let* d := setWhenReady now d in
  let d := with_refCount (_refCount other) d in
  let d := with_srcRequestorId (_srcRequestorId other) d in
  let other' := with_lockList (lockList d) other in
  let d := with_lockList (lockList other) d in
  let d := with_domainID (domainID other) d in
  let* other' := invalidate other' in
  Ok (d, other').

(** ** Load-locked / store-conditional *)

(** The erase loops over the lock list. *)
Fixpoint erase_if (p : Lock -> res bool) (l : list Lock) : res (list Lock) :=
  match l with
  | [] => Ok []
  | x :: l' =>
      let* b := p x in
      let* r := erase_if p l' in
      Ok (if b then r else x :: r)
  end.

Definition trackLoadLocked (p : Packet.t) (b : t) : res t :=
  assert! (Packet.isLLSC p) in
  let* l := erase_if (fun k => Lock_intersects k (Packet.req p)) (lockList b) in
  let* k := Lock_make (Packet.req p) in
  Ok (with_lockList (k :: l) b).

Definition clearLoadLocks (r : Request.t) (b : t) : res t :=
  let* l := erase_if (fun k =>
      let* i := Lock_intersects k r in
      if i then let* cid := Request.contextId r in Ok (negb (lock_contextId k =? cid))
      else Ok false) (lockList b) in
  Ok (with_lockList l b).

(** Search and erase the first matching lock. *)
Fixpoint take_match (r : Request.t) (l : list Lock) : res (bool * list Lock) :=
  match l with
  | [] => Ok (false, [])
  | x :: l' =>
      let* m := Lock_matches x r in
      if m then Ok (true, l')
      else let* (s, r') := take_match r l' in Ok (s, x :: r')
  end.

(** [checkWrite]: the verdict, the packet (a store-conditional writes its
    outcome into the request) and the block. *)
Definition checkWrite (p : Packet.t) (b : t) : res (bool * Packet.t * t) :=
  assert! (Packet.isWrite p) in
  if negb (Packet.isLLSC p) && match lockList b with [] => true | _ => false end
  then Ok (true, p, b)
  else
    let r := Packet.req p in
    if Packet.isLLSC p then
      let* (success, l) := take_match r (lockList b) in
      let r' := Request.setExtraData (if success then 1 else 0) r in
      let p' := Packet.with_req r' p in
      let* b' := clearLoadLocks r' (with_lockList l b) in
      Ok (success, p', b')
    else
      let* b' := clearLoadLocks r b in
      Ok (true, p, b').

(** A block as the constructor leaves it. *)
Definition empty (set way : Z) (bytes : list Z) : t :=
  mk false false MaxAddr 0 set way 0 bytes MaxTick [] 0 Request.TaskId_Unknown
    Request.invldRequestorId 0 0 false.

(** Two blocks that agree on everything but the reference counter, which only
    feeds statistics. *)
Definition same_but_refs (a b : t) : Prop := with_refCount 0 a = with_refCount 0 b.

(** ** Lemmas *)

(** A request of context [c] that covers bytes [lo..hi]. *)
Definition covers (r : Request.t) (c lo hi : Z) : Prop :=
  Request.contextId r = Ok c /\ req_range r = Ok (lo, hi) /\ lo <= hi.

Definition lock_hits (lo hi : Z) (k : Lock) : bool := (lo <=? highAddr k) && (lowAddr k <=? hi).

Definition lock_holds (c lo hi : Z) (k : Lock) : bool :=
  (lock_contextId k =? c) && (lowAddr k <=? lo) && (hi <=? highAddr k).

Lemma erase_if_filter p (f : Lock -> bool) l :
  (forall x, p x = Ok (f x)) -> erase_if p l = Ok (List.filter (fun x => negb (f x)) l).
Proof.
  intros Hp. induction l as [|x l IH]; simpl; [done|].
  rewrite Hp, IH. simpl. by destruct (f x).
Qed.

Lemma intersects_covers k r c lo hi :
  covers r c lo hi -> Lock_intersects k r = Ok (lock_hits lo hi k).
Proof. intros (_ & Hr & _). unfold Lock_intersects. by rewrite Hr. Qed.

Lemma matches_covers k r c lo hi :
  covers r c lo hi -> Lock_matches k r = Ok (lock_holds c lo hi k).
Proof. intros (Hc & Hr & _). unfold Lock_matches. by rewrite Hr, Hc. Qed.

Lemma clearLoadLocks_covers r c lo hi b :
  covers r c lo hi ->
  clearLoadLocks r b = Ok (with_lockList (List.filter
    (fun k => negb (lock_hits lo hi k && negb (lock_contextId k =? c))) (lockList b)) b).
Proof.
  intros Hr. unfold clearLoadLocks.
  rewrite (erase_if_filter _ (fun k => lock_hits lo hi k && negb (lock_contextId k =? c))); [done|].
  intros x. rewrite (intersects_covers x r c lo hi Hr). simpl.
  destruct Hr as (-> & _). by destruct (lock_hits lo hi x).
Qed.

Lemma take_match_covers r c lo hi l :
  covers r c lo hi ->
  exists l', take_match r l = Ok (existsb (lock_holds c lo hi) l, l') /\
    (forall k, In k l' -> In k l) /\
    (forall k, In k l -> lock_holds c lo hi k = false -> In k l').
Proof.
  intros Hr. induction l as [|x l (l' & IH & Hsub & Hsup)]; simpl; [by exists []|].
  rewrite (matches_covers x r c lo hi Hr). simpl.
  destruct (lock_holds c lo hi x) eqn:Ex; simpl.
  - exists l. split_and!; [done|auto|]. intros k [<-|]; congruence.
  - rewrite IH. simpl. exists (x :: l'). split_and!; [done| |]; simpl; naive_solver.
Qed.

Lemma setExtraData_covers v r c lo hi : covers r c lo hi -> covers (Request.setExtraData v r) c lo hi.
Proof.
  unfold covers, Request.setExtraData, req_range, Request.contextId, Request.getPaddr,
    Request.getSize, Request.hasContextId, Request.hasPaddr, Request.hasSize. simpl.
  rewrite !Flags.isSet_set. simpl. by rewrite !orb_false_r.
Qed.

Lemma trackLoadLocked_covers p b c lo hi :
  Packet.isLLSC p = true -> covers (Packet.req p) c lo hi ->
  trackLoadLocked p b = Ok (with_lockList
    (mkLock c lo hi :: List.filter (fun k => negb (lock_hits lo hi k)) (lockList b)) b).
Proof.
  intros Hl Hr. unfold trackLoadLocked. rewrite Hl.
  rewrite (erase_if_filter _ (lock_hits lo hi)) by (intros; by eapply intersects_covers).
  simpl. unfold Lock_make. destruct Hr as (-> & -> & _). done.
Qed.

(** The locks a write by context [c'] leaves behind. *)
Lemma checkWrite_other p b c' lo hi :
  Packet.isWrite p = true -> covers (Packet.req p) c' lo hi -> lockList b <> [] ->
  exists s p' b', checkWrite p b = Ok (s, p', b') /\
    forall k, lock_contextId k <> c' ->
      In k (lockList b') <-> In k (lockList b) /\ lock_hits lo hi k = false.
Proof.
  intros Hw Hr Hne. unfold checkWrite. rewrite Hw.
  assert (Hflt : forall k l, lock_contextId k <> c' ->
    In k (List.filter (fun k => negb (lock_hits lo hi k && negb (lock_contextId k =? c'))) l)
    <-> In k l /\ lock_hits lo hi k = false).
  { intros k l Hk. rewrite filter_In. apply Z.eqb_neq in Hk. rewrite Hk. simpl.
    rewrite andb_true_r, negb_true_iff. done. }
  destruct (Packet.isLLSC p) eqn:El; simpl.
  - destruct (take_match_covers _ _ _ _ (lockList b) Hr) as (l' & -> & Hsub & Hsup). simpl.
    rewrite (clearLoadLocks_covers _ c' lo hi) by by apply setExtraData_covers.
    eexists _, _, _. split; [done|]. intros k Hk. simpl. rewrite Hflt by done.
    split; [naive_solver|]. intros [Hin Hh]. split; [|done]. apply Hsup; [done|].
    unfold lock_holds. apply Z.eqb_neq in Hk. by rewrite Hk.
  - destruct (lockList b) as [|x l] eqn:Eb; [done|].
    rewrite (clearLoadLocks_covers _ c' lo hi) by done. simpl.
    eexists _, _, _. split; [done|]. intros k Hk. simpl. rewrite Eb. apply Hflt. done.
Qed.

Lemma checkWrite_sc p b c lo hi :
  Packet.isWrite p = true -> Packet.isLLSC p = true -> covers (Packet.req p) c lo hi ->
  exists p' b', checkWrite p b = Ok (existsb (lock_holds c lo hi) (lockList b), p', b') /\
    Request._extraData (Packet.req p') =
      (if existsb (lock_holds c lo hi) (lockList b) then 1 else 0).
Proof.
  intros Hw Hl Hr. unfold checkWrite. rewrite Hw, Hl. simpl.
  destruct (take_match_covers _ _ _ _ (lockList b) Hr) as (l' & -> & _). simpl.
  rewrite (clearLoadLocks_covers _ c lo hi) by by apply setExtraData_covers.
  by eexists _, _.
Qed.

(** C40. Load-locked / store-conditional atomicity of a cache block: after a load-locked
    of a context, and one write of another context, the store-conditional of the first
    context to (part of) the locked range succeeds, and reports success in the request,
    exactly when the other write did not touch the locked range. (The comment in
    [checkWrite] says that a normal write of another context clears the whole list, and
    the one at the list that it holds what was locked since the last store; the code
    removes only the locks that the write overlaps, and that is what is stated here.) *)
Theorem llsc_atomic b pll pw psc c c' lo hi wlo whi slo shi :
  Packet.isLLSC pll = true -> covers (Packet.req pll) c lo hi ->
  Packet.isWrite pw = true -> covers (Packet.req pw) c' wlo whi -> c' <> c ->
  Packet.isWrite psc = true -> Packet.isLLSC psc = true ->
  covers (Packet.req psc) c slo shi -> lo <= slo -> shi <= hi ->
  exists b1 b2 b3 s pw' psc',
    trackLoadLocked pll b = Ok b1 /\ checkWrite pw b1 = Ok (s, pw', b2) /\
    checkWrite psc b2 = Ok (negb ((wlo <=? hi) && (lo <=? whi)), psc', b3) /\
    Request._extraData (Packet.req psc') =
      (if (wlo <=? hi) && (lo <=? whi) then 0 else 1).
Proof.
  intros Hll Hrl Hw Hrw Hne Hsw Hsl Hrs Hlo Hhi.
  rewrite (trackLoadLocked_covers _ _ c lo hi) by done. eexists.
  set (b1 := with_lockList _ b).
  destruct (checkWrite_other pw b1 c' wlo whi) as (s & pw' & b2 & Hcw & Hlocks); [done..|].
  destruct (checkWrite_sc psc b2 c slo shi) as (psc' & b3 & Hsc & Hx); [done..|].
  exists b2, b3, s, pw', psc'. split; [done|]. split; [done|]. rewrite Hsc.
  assert (Hs : existsb (lock_holds c slo shi) (lockList b2) =
               negb ((wlo <=? hi) && (lo <=? whi))).
  { apply eq_bool_prop_intro. rewrite !Is_true_true. rewrite existsb_exists. split.
    - intros (k & Hin & Hk). unfold lock_holds in Hk.
      apply Hlocks in Hin as [Hin Hh]; [|lia]. destruct Hin as [<-|Hin].
      + unfold lock_hits in Hh; simpl in Hh. by rewrite Hh.
      + apply filter_In in Hin as [_ Hin]. unfold lock_hits in Hin.
        destruct Hrs as (_ & _ & ?). lia.
    - intros Hno. exists (mkLock c lo hi). split.
      + apply Hlocks; [done|]. split; [by left|]. by apply negb_true_iff in Hno.
      + unfold lock_holds. simpl. lia. }
  rewrite Hx, Hs. by destruct ((wlo <=? hi) && (lo <=? whi)).
Qed.

(** An 8-byte access of context [c] at physical address [a]. *)
Definition example_access (c a : Z) (m : MemCmd.Command) : Packet.t :=
  Packet.make_blk 0 (Request.setPaddr a (Request.make_virt 0 a 8 0 0 0 c None)) m 8.

Lemma llsc_atomic_witness :
  exists b1 b2 b3 s pw' psc',
    trackLoadLocked (example_access 1 0x100 MemCmd.LoadLockedReq) (empty 0 0 []) = Ok b1 /\
    checkWrite (example_access 2 0x104 MemCmd.WriteReq) b1 = Ok (s, pw', b2) /\
    checkWrite (example_access 1 0x100 MemCmd.StoreCondReq) b2 = Ok (false, psc', b3).
Proof.
  destruct (llsc_atomic (empty 0 0 []) (example_access 1 0x100 MemCmd.LoadLockedReq)
    (example_access 2 0x104 MemCmd.WriteReq) (example_access 1 0x100 MemCmd.StoreCondReq)
    1 2 0x100 0x107 0x104 0x10b 0x100 0x107)
    as (b1 & b2 & b3 & s & pw' & psc' & H1 & H2 & H3 & _);
    [ reflexivity | unfold covers; split_and!; [reflexivity|reflexivity|lia]
    | reflexivity | unfold covers; split_and!; [reflexivity|reflexivity|lia] | lia
    | reflexivity | reflexivity | unfold covers; split_and!; [reflexivity|reflexivity|lia]
    | lia | lia | ].
  exists b1, b2, b3, s, pw', psc'. split; [exact H1|]. split; [exact H2|exact H3].
Defined.

End CacheBlk.

(** ** TempCacheBlk *)
Module TempCacheBlk.

Record t := mk { blk : CacheBlk.t; _addr : Z }.

Definition invalidate (b : t) : res t :=
  let* k := CacheBlk.invalidate (blk b) in Ok (mk k MaxAddr).

Definition insert (addr tag index_bits : Z) (is_secure : bool) (b : t) : res t :=
  let* k := CacheBlk.tagged_insert tag index_bits is_secure (blk b) in
  Ok (mk k addr).

Definition getAddr (b : t) : Z := _addr b.

End TempCacheBlk.
