(* ===== verification/ReplPolicy.v ===== *)
(** * Replacement policies

    The policies of src/gem5/src/mem/cache/replacement_policies. The
    replacement data of all entries of a tag store is one array, indexed by
    entry; [ReplacementPolicy] is the interface of [ReplacementPolicy::Base]
    ([invalidate], [touch], [reset], [getVictim], [instantiateEntry]) and
    [ReplacementPolicyOk] what a tag store may rely on. [now] is the current
    tick and [rng] the state of the random generator. *)

From S2P Require Import Prelude BaseUtil.
Local Open Scope Z_scope.

(** ** The interface *)

Class ReplacementPolicy (S : Type) := {
  rp_invalidate : Z -> nat -> S -> res S;
  rp_touch : Z -> nat -> S -> res S;
  rp_reset : Z -> nat -> S * nat -> res (S * nat);
  rp_getVictim : Z -> list nat -> S * nat -> res (nat * (S * nat));
  rp_instantiateEntry : S -> res S     (* data for one more entry *)
}.

(** [rp_wf s n]: [s] holds data for [n] entries; [rp_cands s l]: [l] is a
    candidate list the policy accepts. A policy never fails on entries it
    knows, keeps its data well formed, and its victim is a candidate. *)
Class ReplacementPolicyOk (S : Type) `{ReplacementPolicy S} := {
  rp_wf : S -> nat -> Prop;
  rp_cands : nat -> list nat -> Prop;
  rp_invalidate_ok now i s n : rp_wf s n -> (i < n)%nat ->
    exists s', rp_invalidate now i s = Ok s' /\ rp_wf s' n;
  rp_touch_ok now i s n : rp_wf s n -> (i < n)%nat ->
    exists s', rp_touch now i s = Ok s' /\ rp_wf s' n;
  rp_reset_ok now i s rng n : rp_wf s n -> (i < n)%nat ->
    exists s' rng', rp_reset now i (s, rng) = Ok (s', rng') /\ rp_wf s' n;
  rp_getVictim_ok now l s rng n : rp_wf s n -> rp_cands n l ->
    exists v s' rng', rp_getVictim now l (s, rng) = Ok (v, (s', rng')) /\
      v ∈ l /\ rp_wf s' n
}.

(** Array access through a pointer: a missing entry is a dangling pointer. *)
Definition lookupR {A} (l : list A) (i : nat) : res A :=
  match l !! i with Some x => Ok x | None => Err Undefined end.

Definition updateR {A} (f : A -> A) (i : nat) (l : list A) : res (list A) :=
  let* x := lookupR l i in Ok (<[i := f x]> l).

(** The victim scan most policies share: keep the first candidate, replace it
    by a later one whenever that is strictly better. *)
Fixpoint scan {D} (better : D -> D -> bool) (s : list D) (victim : nat)
    (cands : list nat) : res nat :=
  match cands with
  | [] => Ok victim
  | c :: cs =>
      let* dc := lookupR s c in
      let* dv := lookupR s victim in
      scan better s (if better dc dv then c else victim) cs
  end.

Definition scan_all {D} (better : D -> D -> bool) (s : list D) (cands : list nat) : res nat :=
  match cands with
  | [] => Err AssertFail
  | c :: _ => scan better s c cands
  end.

(** *** LRU and BIP *)
Module LRU.

Definition Data := Z.   (* lastTouchTick *)

Definition invalidate (now : Z) (i : nat) (s : list Data) : res (list Data) :=
  updateR (fun _ => 0) i s.
Definition touch (now : Z) (i : nat) (s : list Data) : res (list Data) :=
  updateR (fun _ => now) i s.
Definition reset (now : Z) (i : nat) (s : list Data) : res (list Data) :=
  updateR (fun _ => now) i s.
Definition getVictim (cands : list nat) (s : list Data) : res nat :=
  scan_all (fun c v => c <? v) s cands.
Definition instantiateEntry : Data := 0.

End LRU.

Module BIP.
Section bip.
Context `{RandomSource} (btp : Z).

Definition reset (now : Z) (i : nat) (s : list LRU.Data * nat) : res (list LRU.Data * nat) :=
  let '(d, rng) := s in
  let* (r, rng) := RandomMT.random 1 100 rng in
  let* d := updateR (fun _ => if r <=? btp then now else 1) i d in
  Ok (d, rng).
End bip.
End BIP.

(** *** MRU *)
Module MRU.

Definition Data := Z.   (* lastTouchTick *)

Definition invalidate (now : Z) (i : nat) (s : list Data) : res (list Data) :=
  updateR (fun _ => 0) i s.
Definition touch (now : Z) (i : nat) (s : list Data) : res (list Data) :=
  updateR (fun _ => now) i s.
Definition reset (now : Z) (i : nat) (s : list Data) : res (list Data) :=
  updateR (fun _ => now) i s.

(** The scan stops at the first entry that was never used. *)
Fixpoint mru_scan (s : list Data) (victim : nat) (cands : list nat) : res nat :=
  match cands with
  | [] => Ok victim
  | c :: cs =>
      let* dc := lookupR s c in
      if dc =? 0 then Ok c
      else
        let* dv := lookupR s victim in
        mru_scan s (if dv <? dc then c else victim) cs
  end.

Definition getVictim (cands : list nat) (s : list Data) : res nat :=
  match cands with [] => Err AssertFail | c :: _ => mru_scan s c cands end.

End MRU.

(** *** FIFO and second chance *)
Module FIFO.

Definition Data := Z.   (* tickInserted *)

Definition invalidate (now : Z) (i : nat) (s : list Data) : res (list Data) :=
  updateR (fun _ => 0) i s.
Definition touch (now : Z) (i : nat) (s : list Data) : res (list Data) := Ok s.
Definition reset (now : Z) (i : nat) (s : list Data) : res (list Data) :=
  updateR (fun _ => now) i s.
Definition getVictim (cands : list nat) (s : list Data) : res nat :=
  scan_all (fun c v => c <? v) s cands.

End FIFO.

Module SecondChance.

Record Data := mk { tickInserted : Z; hasSecondChance : bool }.

Definition instantiateEntry : Data := mk 0 false.

Definition useSecondChance (now : Z) (i : nat) (s : list Data) : res (list Data) :=
  updateR (fun _ => mk now false) i s.
Definition invalidate (now : Z) (i : nat) (s : list Data) : res (list Data) :=
  updateR (fun _ => mk 0 false) i s.
Definition touch (now : Z) (i : nat) (s : list Data) : res (list Data) :=
  updateR (fun d => mk (tickInserted d) true) i s.
Definition reset (now : Z) (i : nat) (s : list Data) : res (list Data) :=
  updateR (fun _ => mk now false) i s.

Fixpoint find_invalid (s : list Data) (cands : list nat) : res (option nat) :=
  match cands with
  | [] => Ok None
  | c :: cs =>
      let* d := lookupR s c in
      if (tickInserted d =? 0) && negb (hasSecondChance d) then Ok (Some c)
      else find_invalid s cs
  end.

(** The search loop: every failed round takes one second chance away, so
    [length cands + 1] rounds are enough. *)
Fixpoint search (fuel : nat) (now : Z) (cands : list nat) (s : list Data)
    : res (nat * list Data) :=
  match fuel with
  | O => Err Undefined
  | S fuel' =>
      let* v := scan_all (fun c v => tickInserted c <? tickInserted v) s cands in
      let* d := lookupR s v in
      if hasSecondChance d
      then let* s := useSecondChance now v s in search fuel' now cands s
      else Ok (v, s)
  end.

Definition getVictim (now : Z) (cands : list nat) (s : list Data) : res (nat * list Data) :=
  match cands with
  | [] => Err AssertFail
  | _ =>
      let* r := find_invalid s cands in
      match r with
      | Some c => Ok (c, s)
      | None => search (S (length cands)) now cands s
      end
  end.

End SecondChance.

(** *** LFU *)
Module LFU.

Definition Data := Z.   (* refCount, an unsigned *)

Definition invalidate (now : Z) (i : nat) (s : list Data) : res (list Data) :=
  updateR (fun _ => 0) i s.
Definition touch (now : Z) (i : nat) (s : list Data) : res (list Data) :=
  updateR (fun c => u32 (c + 1)) i s.
Definition reset (now : Z) (i : nat) (s : list Data) : res (list Data) :=
  updateR (fun _ => 1) i s.
Definition getVictim (cands : list nat) (s : list Data) : res nat :=
  scan_all (fun c v => c <? v) s cands.

End LFU.

(** *** Weighted LRU *)
Module WeightedLRU.

Record Data := mk { last_occ_ptr : Z; last_touch_tick : Z }.

Definition invalidate (now : Z) (i : nat) (s : list Data) : res (list Data) :=
  updateR (fun d => mk (last_occ_ptr d) 0) i s.
Definition touch (now : Z) (i : nat) (s : list Data) : res (list Data) :=
  updateR (fun d => mk (last_occ_ptr d) now) i s.
Definition touch_occ (now occupancy : Z) (i : nat) (s : list Data) : res (list Data) :=
  updateR (fun _ => mk occupancy now) i s.
Definition reset (now : Z) (i : nat) (s : list Data) : res (list Data) :=
  updateR (fun d => mk (last_occ_ptr d) now) i s.

Definition better (c v : Data) : bool :=
  (last_occ_ptr c <? last_occ_ptr v) ||
  ((last_occ_ptr c =? last_occ_ptr v) && (last_touch_tick c <? last_touch_tick v)).

Definition getVictim (cands : list nat) (s : list Data) : res nat :=
  scan_all better s cands.

End WeightedLRU.

(** *** Random *)
Module RandomRP.
Section random.
Context `{RandomSource}.

Definition Data := bool.   (* valid *)

Definition invalidate (now : Z) (i : nat) (s : list Data) : res (list Data) :=
  updateR (fun _ => false) i s.
Definition touch (now : Z) (i : nat) (s : list Data) : res (list Data) := Ok s.
Definition reset (now : Z) (i : nat) (s : list Data) : res (list Data) :=
  updateR (fun _ => true) i s.

Fixpoint first_invalid (s : list Data) (victim : nat) (cands : list nat) : res nat :=
  match cands with
  | [] => Ok victim
  | c :: cs => let* v := lookupR s c in if negb v then Ok c else first_invalid s victim cs
  end.

Definition getVictim (cands : list nat) (s : list Data) (rng : nat) : res (nat * nat) :=
  assert! (0 <? length cands)%nat in
  let* (r, rng) := RandomMT.random 0 (Z.of_nat (length cands) - 1) rng in
  let* victim := lookupR cands (Z.to_nat r) in
  let* v := first_invalid s victim cands in
  Ok (v, rng).
End random.
End RandomRP.

(** *** BRRIP *)
Module BRRIP.
Section brrip.
Context `{RandomSource} (numRRPVBits : Z) (hitPriority : bool) (btp : Z).

Record Data := mk { rrpv : SatCounter.t; valid : bool }.

Definition instantiateEntry : res Data :=
  let* c := SatCounter.make 8 numRRPVBits 0 in Ok (mk c false).

Definition invalidate (now : Z) (i : nat) (s : list Data) : res (list Data) :=
  updateR (fun d => mk (rrpv d) false) i s.

Definition touch (now : Z) (i : nat) (s : list Data) : res (list Data) :=
  updateR (fun d => mk (if hitPriority then SatCounter.reset (rrpv d)
                        else SatCounter.pre_dec (rrpv d)) (valid d)) i s.

Definition reset (now : Z) (i : nat) (s : list Data * nat) : res (list Data * nat) :=
  let '(d, rng) := s in
  let* (r, rng) := RandomMT.random 1 100 rng in
  let* d := updateR (fun e =>
      let c := (SatCounter.saturate (rrpv e)).2 in
      mk (if r <=? btp then SatCounter.pre_dec c else c) true) i d in
  Ok (d, rng).

(** The first loop: [inl] is the early return of an invalid candidate. *)
Fixpoint find (s : list Data) (victim : nat) (victim_RRPV : Z) (cands : list nat)
    : res (nat + nat) :=
  match cands with
  | [] => Ok (inr victim)
  | c :: cs =>
      let* d := lookupR s c in
      if negb (valid d) then Ok (inl c)
      else
        let r := SatCounter.counter (rrpv d) in
        if victim_RRPV <? r then find s c r cs else find s victim victim_RRPV cs
  end.

Fixpoint add_all (diff : Z) (cands : list nat) (s : list Data) : res (list Data) :=
  match cands with
  | [] => Ok s
  | c :: cs =>
      let* d := lookupR s c in
      let* r := SatCounter.add_assign diff (rrpv d) in
      add_all diff cs (<[c := mk r (valid d)]> s)
  end.

Definition getVictim (cands : list nat) (s : list Data) : res (nat * list Data) :=
  match cands with
  | [] => Err AssertFail
  | c0 :: _ =>
      let* d0 := lookupR s c0 in
      let* r := find s c0 (SatCounter.counter (rrpv d0)) cands in
      match r with
      | inl c => Ok (c, s)
      | inr v =>
          let* d := lookupR s v in
          let '(diff, c) := SatCounter.saturate (rrpv d) in
          let s := <[v := mk c (valid d)]> s in
          if 0 <? diff then let* s := add_all diff cands s in Ok (v, s)
          else Ok (v, s)
      end
  end.
End brrip.
End BRRIP.

(** *** Tree PLRU *)
Module TreePLRU.

Definition parentIndex (index : Z) : Z := u64 (index - 1) / 2.
Definition leftSubtreeIndex (index : Z) : Z := u64 (2 * index + 1).
Definition rightSubtreeIndex (index : Z) : Z := u64 (2 * index + 2).
Definition isRightSubtree (index : Z) : bool := index mod 2 =? 0.

(** Replacement data of an entry: its leaf index and the tree it shares with
    the other entries of its set. *)
Record Data := mk { index : Z; tree_id : nat }.

Record State := mkState { entries : list Data; trees : list (list bool) }.

(** [tree->at(i)]: an index out of range throws. *)
Definition tree_at (tree : list bool) (i : Z) : res bool :=
  match tree !! Z.to_nat i with Some b => Ok b | None => Err Panic end.
Definition tree_set (tree : list bool) (i : Z) (b : bool) : res (list bool) :=
  let* _ := tree_at tree i in Ok (<[Z.to_nat i := b]> tree).

(** The [do ... while] climb from a leaf to the root; every node is made to
    point towards ([invalidate]) or away from ([touch]) the leaf. An index of
    at most 2^64 reaches the root within 64 halvings. *)
Fixpoint climb (fuel : nat) (towards : bool) (tree : list bool) (i : Z) : res (list bool) :=
  match fuel with
  | O => Err Undefined
  | S fuel' =>
      let right := isRightSubtree i in
      let i := parentIndex i in
      let* tree := tree_set tree i (if towards then right else negb right) in
      if i =? 0 then Ok tree else climb fuel' towards tree i
  end.

Definition update_tree (towards : bool) (e : nat) (s : State) : res State :=
  let* d := lookupR (entries s) e in
  let* t := lookupR (trees s) (tree_id d) in
  let* t := climb 64 towards t (index d) in
  Ok (mkState (entries s) (<[tree_id d := t]> (trees s))).

Definition invalidate (now : Z) (e : nat) (s : State) : res State := update_tree true e s.
Definition touch (now : Z) (e : nat) (s : State) : res State := update_tree false e s.
Definition reset (now : Z) (e : nat) (s : State) : res State := touch now e s.

(** The walk from the root to a leaf; each step at least doubles the index. *)
Fixpoint descend (fuel : nat) (tree : list bool) (i : Z) : res Z :=
  match fuel with
  | O => Err Undefined
  | S fuel' =>
      if i <? Z.of_nat (length tree) then
        let* b := tree_at tree i in
        descend fuel' tree (if b then rightSubtreeIndex i else leftSubtreeIndex i)
      else Ok i
  end.

Definition getVictim (numLeaves : Z) (cands : list nat) (s : State) : res nat :=
  match cands with
  | [] => Err AssertFail
  | c :: _ =>
      let* d := lookupR (entries s) c in
      let* t := lookupR (trees s) (tree_id d) in
      let* i := descend 65 t 0 in
      lookupR cands (Z.to_nat (i - (numLeaves - 1)))
  end.

(** [instantiateEntry]: a new tree every [numLeaves] entries. *)
Definition instantiateEntry (numLeaves : Z) (s : State) : State :=
  let count := Z.of_nat (length (entries s)) in
  let trees := if count mod numLeaves =? 0
    then trees s ++ [replicate (Z.to_nat (numLeaves - 1)) false] else trees s in
  mkState (entries s ++ [mk (count mod numLeaves + numLeaves - 1) (length trees - 1)]) trees.

End TreePLRU.
