(* ===== verification/ReplPolicyFacts.v ===== *)
(** * Correctness of the replacement policies

    The shared victim scan, a refinement of LRU to an abstract recency list,
    termination and victim choice of second chance, the aging step of BRRIP,
    and the pointer tree of TreePLRU. *)

From Stdlib Require Import Sorted.
From S2P Require Import Prelude BaseUtil ReplPolicy.
Local Open Scope Z_scope.

(** ** Array access *)

Lemma lookupR_lt {A} (l : list A) i : (i < length l)%nat -> exists x, l !! i = Some x /\ lookupR l i = Ok x.
Proof.
  intros H. destruct (lookup_lt_is_Some_2 l i H) as [x Hx]. exists x.
  unfold lookupR. by rewrite Hx.
Qed.

Lemma lookupR_Ok {A} (l : list A) i x : lookupR l i = Ok x <-> l !! i = Some x.
Proof. unfold lookupR. destruct (l !! i); split; congruence. Qed.

Lemma updateR_lt {A} (f : A -> A) (l : list A) i :
  (i < length l)%nat -> exists x, l !! i = Some x /\ updateR f i l = Ok (<[i := f x]> l).
Proof.
  intros H. destruct (lookupR_lt l i H) as (x & Hx & Hr). exists x.
  unfold updateR. by rewrite Hr.
Qed.

Definition in_range (n : nat) (l : list nat) : Prop := Forall (fun c => (c < n)%nat) l.

(** ** The victim scan *)

(** The key of an entry; entries out of range never arise. *)
Definition key (s : list Z) (i : nat) : Z := default 0 (s !! i).


(** With integer keys the scan returns the first entry of least key. *)
Lemma scan_min_spec {D} (k : D -> Z) (s : list D) cands : forall v dv,
  s !! v = Some dv -> in_range (length s) cands ->
  exists w dw, scan (fun a b => k a <? k b) s v cands = Ok w /\ s !! w = Some dw /\
    (w = v \/ w ∈ cands) /\ k dw <= k dv /\
    forall c dc, c ∈ cands -> s !! c = Some dc -> k dw <= k dc.
Proof.
  induction cands as [|c cs IH]; intros v dv Hv Hr; simpl.
  - exists v, dv. split_and!; auto; [lia|]. intros ? ? H. by apply elem_of_nil in H.
  - apply Forall_cons_iff in Hr as [Hc Hr].
    destruct (lookupR_lt s c Hc) as (dc & Hdc & ->). simpl.
    rewrite (proj2 (lookupR_Ok s v dv) Hv). simpl.
    destruct (Z.ltb_spec (k dc) (k dv)).
    + destruct (IH c dc Hdc Hr) as (w & dw & -> & Hw & Hin & Hb & Hall).
      exists w, dw. split_and!; [done|done|set_solver|lia|].
      intros c' dc' Hc' Hd'. apply elem_of_cons in Hc' as [->|]; [|eauto].
      by simplify_eq.
    + destruct (IH v dv Hv Hr) as (w & dw & -> & Hw & Hin & Hb & Hall).
      exists w, dw. split_and!; [done|done|set_solver|lia|].
      intros c' dc' Hc' Hd'. apply elem_of_cons in Hc' as [->|]; [|eauto].
      simplify_eq. lia.
Qed.

(** The first of the minimal ones: everything before it is strictly larger. *)
Lemma scan_min_first {D} (k : D -> Z) (s : list D) cands : forall v dv w dw,
  s !! v = Some dv -> in_range (length s) cands ->
  scan (fun a b => k a <? k b) s v cands = Ok w -> s !! w = Some dw ->
  (w = v /\ (forall c dc, c ∈ cands -> s !! c = Some dc -> k dv <= k dc)) \/
  (exists l1 l2, cands = l1 ++ w :: l2 /\ k dw < k dv /\
     (forall c dc, c ∈ l1 -> s !! c = Some dc -> k dw < k dc)).
Proof.
  induction cands as [|c cs IH]; intros v dv w dw Hv Hr Hs Hw; simpl in Hs.
  - simplify_res. left. split; [done|]. intros ? ? H. by apply elem_of_nil in H.
  - apply Forall_cons_iff in Hr as [Hc Hr].
    destruct (lookupR_lt s c Hc) as (dc & Hdc & E). rewrite E in Hs. simpl in Hs.
    rewrite (proj2 (lookupR_Ok s v dv) Hv) in Hs. simpl in Hs.
    destruct (Z.ltb_spec (k dc) (k dv)).
    + right. destruct (IH c dc w dw Hdc Hr Hs Hw) as [[-> Hle]|(l1 & l2 & -> & Hlt & Hl1)].
      * exists [], cs. simplify_eq. split_and!; [done|lia|]. intros ? ? Hin. by apply elem_of_nil in Hin.
      * exists (c :: l1), l2. split_and!; [done|lia|]. intros c' dc' Hin Hd'.
        apply elem_of_cons in Hin as [->|]; [|eauto]. simplify_eq. lia.
    + destruct (IH v dv w dw Hv Hr Hs Hw) as [[-> Hle]|(l1 & l2 & -> & Hlt & Hl1)].
      * left. split; [done|]. intros c' dc' Hin Hd'.
        apply elem_of_cons in Hin as [->|]; [|eauto]. simplify_eq. lia.
      * right. exists (c :: l1), l2. split_and!; [done|lia|]. intros c' dc' Hin Hd'.
        apply elem_of_cons in Hin as [->|]; [|eauto]. simplify_eq. lia.
Qed.

Lemma scan_all_min {D} (k : D -> Z) (s : list D) cands :
  cands <> [] -> in_range (length s) cands ->
  exists l1 w l2 dw, scan_all (fun a b => k a <? k b) s cands = Ok w /\
    cands = l1 ++ w :: l2 /\ s !! w = Some dw /\
    (forall c dc, c ∈ l1 -> s !! c = Some dc -> k dw < k dc) /\
    (forall c dc, c ∈ cands -> s !! c = Some dc -> k dw <= k dc).
Proof.
  intros Hne Hr. destruct cands as [|c0 cs]; [done|]. unfold scan_all.
  pose proof Hr as Hr'. apply Forall_cons_iff in Hr' as [Hc0 _].
  destruct (lookup_lt_is_Some_2 s c0 Hc0) as [d0 Hd0].
  destruct (scan_min_spec k s (c0 :: cs) c0 d0 Hd0 Hr) as (w & dw & Hs & Hw & Hin & _ & Hall).
  destruct (scan_min_first k s (c0 :: cs) c0 d0 w dw Hd0 Hr Hs Hw)
    as [[-> Hle]|(l1 & l2 & Heq & Hlt & Hl1)].
  - exists [], c0, cs, dw. split_and!; [done|done|done| |done].
    intros ? ? H. by apply elem_of_nil in H.
  - exists l1, w, l2, dw. split_and!; done.
Qed.

(** ** LRU refines a recency list *)
Module LRUSpec.

Inductive op := Touch (i : nat) | Reset (i : nat) | Invalidate (i : nat).

(** The concrete run: the k-th operation happens at tick [t]. *)
Definition step (s : list LRU.Data) (e : Z * op) : res (list LRU.Data) :=
  match e with
  | (t, Touch i) => LRU.touch t i s
  | (t, Reset i) => LRU.reset t i s
  | (t, Invalidate i) => LRU.invalidate t i s
  end.

(** The abstract state: the used entries, least recently used first. *)
Definition remove (i : nat) (r : list nat) : list nat := List.filter (fun j => negb (j =? i)%nat) r.

Definition spec_step (r : list nat) (e : Z * op) : list nat :=
  match e.2 with
  | Touch i | Reset i => remove i r ++ [i]
  | Invalidate i => remove i r
  end.

Definition mem (i : nat) (r : list nat) : bool := existsb (fun j => (j =? i)%nat) r.

(** An unused candidate first, else the least recently used one. *)
Definition spec_victim (cands r : list nat) : option nat :=
  match List.find (fun c => negb (mem c r)) cands with
  | Some c => Some c
  | None => List.find (fun j => mem j cands) r
  end.

Definition target (o : op) : nat :=
  match o with Touch i | Reset i | Invalidate i => i end.

(** Positive, strictly increasing ticks. *)
Fixpoint timeline (last : Z) (l : list (Z * op)) : Prop :=
  match l with
  | [] => True
  | (t, _) :: l' => last < t /\ timeline t l'
  end.

Record sim (n : nat) (last : Z) (s : list Z) (r : list nat) : Prop := {
  sim_len : length s = n;
  sim_in : forall i, In i r -> (i < n)%nat;
  sim_used : forall i, In i r -> 0 < key s i <= last;
  sim_free : forall i, (i < n)%nat -> ~ In i r -> key s i = 0;
  sim_sorted : StronglySorted (fun i j => key s i < key s j) r
}.

Lemma mem_In i r : mem i r = true <-> In i r.
Proof.
  unfold mem. rewrite existsb_exists. split.
  - intros (j & Hj & E). apply Nat.eqb_eq in E. by subst.
  - intros. exists i. split; [done|]. apply Nat.eqb_refl.
Qed.

Lemma remove_In i j r : In j (remove i r) <-> In j r /\ j <> i.
Proof.
  unfold remove. rewrite filter_In, negb_true_iff, Nat.eqb_neq. done.
Qed.

Lemma key_insert s i j x : (i < length s)%nat -> key (<[i := x]> s) j = if decide (i = j) then x else key s j.
Proof.
  intros Hi. unfold key. case_decide.
  - subst. by rewrite list_lookup_insert_eq.
  - by rewrite list_lookup_insert_ne.
Qed.

Lemma sorted_weaken (f g : nat -> Z) r :
  (forall i, In i r -> f i = g i) ->
  StronglySorted (fun i j => f i < f j) r -> StronglySorted (fun i j => g i < g j) r.
Proof.
  intros Hfg. induction 1 as [|a l Hs IH Ha]; constructor.
  - apply IH. intros; apply Hfg; by right.
  - rewrite List.Forall_forall in *. intros x Hx.
    rewrite <- !Hfg by (simpl; auto). auto.
Qed.

Lemma sorted_filter (R : nat -> nat -> Prop) p r :
  StronglySorted R r -> StronglySorted R (List.filter p r).
Proof.
  induction 1 as [|a l Hs IH Ha]; simpl; [constructor|].
  destruct (p a); [|done]. constructor; [done|].
  rewrite List.Forall_forall in *. intros x Hx. apply filter_In in Hx as [Hx _]. auto.
Qed.

Lemma sorted_snoc (R : nat -> nat -> Prop) r i :
  StronglySorted R r -> (forall j, In j r -> R j i) -> StronglySorted R (r ++ [i]).
Proof.
  induction 1 as [|a l Hs IH Ha]; intros Hr; simpl.
  - repeat constructor.
  - constructor; [apply IH; intros; apply Hr; by right|].
    rewrite List.Forall_forall in *. intros x Hx. apply in_app_iff in Hx as [Hx|[<-|[]]]; [auto|].
    apply Hr. by left.
Qed.

Lemma sim_step n last s r t o :
  sim n last s r -> 0 <= last < t -> (target o < n)%nat ->
  exists s', step s (t, o) = Ok s' /\ sim n t s' (spec_step r (t, o)).
Proof.
  intros [Hlen Hin Hused Hfree Hsort] Ht Ho.
  set (i := target o) in *.
  destruct (updateR_lt (fun _ : Z => t) s i ltac:(lia)) as (x & Hx & Hu).
  destruct (updateR_lt (fun _ : Z => 0) s i ltac:(lia)) as (x' & _ & Hu0).
  assert (Hsort' : forall y, StronglySorted
    (fun a b => key (<[i := y]> s) a < key (<[i := y]> s) b) (remove i r)).
  { intros y. apply (sorted_weaken (key s)); [|by apply sorted_filter].
    intros j Hj. apply remove_In in Hj as [_ Hne].
    rewrite key_insert by lia. by rewrite decide_False by congruence. }
  assert (Htouch : sim n t (<[i := t]> s) (remove i r ++ [i])).
  { constructor.
    - by rewrite length_insert.
    - intros j Hj. apply in_app_iff in Hj as [Hj|[<-|[]]]; [|done].
      apply remove_In in Hj as [Hj _]. auto.
    - intros j Hj. rewrite key_insert by lia. case_decide; [lia|].
      apply in_app_iff in Hj as [Hj|[<-|[]]]; [|done].
      apply remove_In in Hj as [Hj _]. specialize (Hused j Hj). lia.
    - intros j Hj Hno. rewrite key_insert by lia. case_decide as Hd.
      + subst j. destruct Hno. apply in_app_iff. right. by left.
      + apply Hfree; [done|]. intros Hjr. apply Hno, in_app_iff. left. by apply remove_In.
    - apply sorted_snoc; [apply Hsort'|]. intros j Hj. apply remove_In in Hj as [Hj Hne].
      rewrite !key_insert by lia. rewrite decide_False by congruence.
      rewrite decide_True by done. specialize (Hused j Hj). lia. }
  destruct o as [j|j|j]; subst i; simpl in *.
  - by exists (<[j := t]> s).
  - by exists (<[j := t]> s).
  - exists (<[j := 0]> s). split; [done|]. constructor.
    + by rewrite length_insert.
    + intros k Hk. apply remove_In in Hk as [Hk _]. auto.
    + intros k Hk. apply remove_In in Hk as [Hk Hne]. rewrite key_insert by lia.
      rewrite decide_False by congruence. specialize (Hused k Hk). lia.
    + intros k Hk Hno. rewrite key_insert by lia. case_decide; [done|].
      apply Hfree; [done|]. intros Hkr. apply Hno. by apply remove_In.
    + apply Hsort'.
Qed.

Lemma sim_run n ops : forall last s r,
  sim n last s r -> 0 <= last -> timeline last ops ->
  Forall (fun e => (target e.2 < n)%nat) ops ->
  exists s' last', foldM step ops s = Ok s' /\ sim n last' s' (fold_left spec_step ops r).
Proof.
  induction ops as [|[t o] ops IH]; intros last s r Hs Hl Ht Hr; simpl in *.
  - by exists s, last.
  - destruct Ht as [Ht Hts]. apply Forall_cons_iff in Hr as [Ho Hr].
    destruct (sim_step n last s r t o Hs ltac:(lia) Ho) as (s' & E & Hs').
    unfold step in E. rewrite E. simpl. apply (IH t); [done|lia|done|done].
Qed.

Lemma sorted_find_min (f : nat -> Z) p r v w :
  StronglySorted (fun i j => f i < f j) r -> List.find p r = Some w ->
  In v r -> p v = true -> f w <= f v.
Proof.
  induction 1 as [|a l Hs IH Ha]; simpl; [done|]. destruct (p a) eqn:Ep.
  - intros [= ->] [->|Hv] _; [lia|]. rewrite List.Forall_forall in Ha. specialize (Ha v Hv). lia.
  - intros Hf [->|Hv] Hp; [congruence|auto].
Qed.

Lemma sorted_key_inj (f : nat -> Z) r v w :
  StronglySorted (fun i j => f i < f j) r -> In v r -> In w r -> f v = f w -> v = w.
Proof.
  induction 1 as [|a l Hs IH Ha]; simpl; [done|]. rewrite List.Forall_forall in Ha.
  intros [->|Hv] [->|Hw] E; auto.
  - specialize (Ha w Hw). lia.
  - specialize (Ha v Hv). lia.
Qed.

Lemma sim_victim n last s r cands :
  sim n last s r -> cands <> [] -> in_range n cands ->
  exists v, LRU.getVictim cands s = Ok v /\ spec_victim cands r = Some v.
Proof.
  intros [Hlen Hin Hused Hfree Hsort] Hne Hr.
  destruct (scan_all_min (fun z : Z => z) s cands Hne) as (l1 & v & l2 & dv & Hs & Hc & Hv & Hl1 & Hall).
  { by rewrite Hlen. }
  unfold in_range in Hr. exists v. split; [done|].
  assert (Hk : forall c, c ∈ cands -> s !! c = Some (key s c)).
  { intros c Hcin. rewrite Forall_forall in Hr. specialize (Hr c Hcin).
    rewrite <- Hlen in Hr. destruct (lookup_lt_is_Some_2 s c Hr) as [y Hy].
    unfold key. by rewrite Hy. }
  assert (Hvin : v ∈ cands) by (rewrite Hc; set_solver).
  assert (dv = key s v) as -> by (unfold key; by rewrite Hv).
  unfold spec_victim.
  destruct (mem v r) eqn:Emv.
  - (* every candidate is in use *)
    apply mem_In in Emv. pose proof (Hused v Emv) as Hpos.
    destruct (List.find (fun c => negb (mem c r)) cands) as [c|] eqn:Ef.
    + apply List.find_some in Ef as [Hcin Hcf]. apply list_elem_of_In in Hcin.
      rewrite negb_true_iff in Hcf.
      assert (key s c = 0).
      { apply Hfree; [rewrite Forall_forall in Hr; auto|]. rewrite <- mem_In. congruence. }
      pose proof (Hall c _ Hcin (Hk c Hcin)). lia.
    + destruct (List.find (fun j => mem j cands) r) as [w|] eqn:Ew.
      * pose proof (List.find_some _ _ Ew) as [Hwr Hwc]. apply mem_In, list_elem_of_In in Hwc.
        assert (mem v cands = true) as Hmv by (apply mem_In; by apply list_elem_of_In).
        pose proof (sorted_find_min _ _ _ v w Hsort Ew Emv Hmv) as H1.
        pose proof (Hall w _ Hwc (Hk w Hwc)) as H2.
        f_equal. symmetry. apply (sorted_key_inj (key s) r v w Hsort Emv Hwr). lia.
      * pose proof (List.find_none _ _ Ew v Emv) as Hno. simpl in Hno.
        assert (mem v cands = true) by (apply mem_In; by apply list_elem_of_In). congruence.
  - (* [v] is the first unused candidate *)
    assert (Hv0 : key s v = 0).
    { apply Hfree; [rewrite Forall_forall in Hr; auto|]. rewrite <- mem_In. congruence. }
    rewrite Hc. assert (Hl1m : forall c, In c l1 -> mem c r = true).
    { intros c Hc1. apply list_elem_of_In in Hc1.
      assert (Hcin : c ∈ cands) by (rewrite Hc; set_solver).
      pose proof (Hl1 c _ Hc1 (Hk c Hcin)) as Hlt.
      destruct (mem c r) eqn:Em; [done|].
      assert (key s c = 0); [|lia]. apply Hfree; [rewrite Forall_forall in Hr; auto|].
      rewrite <- mem_In. congruence. }
    replace (List.find (fun c => negb (mem c r)) (l1 ++ v :: l2)) with (Some v); [done|].
    clear - Hl1m Emv. induction l1 as [|c l1 IH]; simpl.
    + by rewrite Emv.
    + rewrite Hl1m by by left. simpl. apply IH. intros; apply Hl1m; by right.
Qed.

(** C33. The timestamp implementation of LRU refines a recency list. Started
    from fresh entries, any sequence of touches, resets and invalidations at
    increasing ticks succeeds, and [getVictim] then returns exactly what the
    abstract policy picks: the first candidate not in use if there is one,
    otherwise the candidate used least recently. *)
Theorem lru_refines_recency n ops cands :
  timeline 0 ops -> Forall (fun e => (target e.2 < n)%nat) ops ->
  cands <> [] -> Forall (fun c => (c < n)%nat) cands ->
  exists s v, foldM step ops (replicate n LRU.instantiateEntry) = Ok s /\
    LRU.getVictim cands s = Ok v /\
    spec_victim cands (fold_left spec_step ops []) = Some v.
Proof.
  intros Ht Ho Hne Hc.
  assert (Hinit : sim n 0 (replicate n LRU.instantiateEntry) []).
  { constructor; [apply length_replicate|done|done| |constructor].
    intros i Hi _. unfold key. by rewrite lookup_replicate_2. }
  destruct (sim_run n ops 0 _ [] Hinit ltac:(lia) Ht Ho) as (s & last & Hrun & Hsim).
  destruct (sim_victim n last s _ cands Hsim Hne Hc) as (v & Hv & Hspec).
  by exists s, v.
Qed.

Lemma lru_refines_recency_witness :
  exists s v, foldM step [(5, Reset 0); (7, Reset 1); (9, Reset 2); (12, Touch 0)]
      (replicate 3 LRU.instantiateEntry) = Ok s /\
    LRU.getVictim [0; 1; 2]%nat s = Ok v /\ v = 1%nat.
Proof.
  destruct (lru_refines_recency 3 [(5, Reset 0); (7, Reset 1); (9, Reset 2); (12, Touch 0)]
    [0; 1; 2]%nat) as (s & v & H1 & H2 & H3).
  - simpl. lia.
  - repeat (constructor; [simpl; lia|]). constructor.
  - discriminate.
  - repeat (constructor; [lia|]). constructor.
  - exists s, v. split; [exact H1|]. split; [exact H2|].
    vm_compute in H3. congruence.
Defined.

End LRUSpec.

(** ** The pointer tree of TreePLRU

    Nodes are numbered from 1 below ([q = index + 1]): the children of [q] are
    [2q] and [2q + 1], the ancestors of a leaf [j] are [j / 2^e], and the path
    to [j] is its binary expansion. *)
Module TreePLRUFacts.
Import TreePLRU.

Lemma parent_node j : 2 <= j < 2 ^ 64 -> parentIndex (j - 1) = j / 2 - 1.
Proof.
  intros. unfold parentIndex. rewrite uwrap_small by (split; lia).
  replace (j - 1 - 1) with (j + (-1) * 2) by lia. rewrite Z.div_add by lia. lia.
Qed.

Lemma right_node j : 0 <= j -> isRightSubtree (j - 1) = Z.testbit j 0.
Proof.
  intros. unfold isRightSubtree.
  pose proof (Z.testbit_spec' j 0 ltac:(lia)) as Hb. rewrite Z.div_1_r in Hb.
  destruct (Z.testbit j 0); simpl in Hb; apply Z.eqb_eq || apply Z.eqb_neq;
    Z.to_euclidean_division_equations; lia.
Qed.

Definition node (tree : list bool) (q : Z) : option bool := tree !! Z.to_nat (q - 1).

Lemma tree_set_ok tree q b :
  1 <= q <= Z.of_nat (length tree) ->
  tree_set tree (q - 1) b = Ok (<[Z.to_nat (q - 1) := b]> tree).
Proof.
  intros Hq. unfold tree_set, tree_at.
  destruct (lookup_lt_is_Some_2 tree (Z.to_nat (q - 1)) ltac:(lia)) as [x ->]. done.
Qed.

Lemma node_insert tree q q' b :
  1 <= q <= Z.of_nat (length tree) -> 1 <= q' ->
  node (<[Z.to_nat (q - 1) := b]> tree) q' = if decide (q = q') then Some b else node tree q'.
Proof.
  intros Hq Hq'. unfold node. case_decide.
  - subst. apply list_lookup_insert_eq. lia.
  - apply list_lookup_insert_ne. lia.
Qed.

(** The climb writes the path bits on the ancestors of the leaf, and nothing
    above [j / 2]. *)
Lemma climb_spec towards fuel : forall tree j,
  2 <= j < 2 ^ Z.of_nat (S fuel) -> j < 2 ^ 64 -> j / 2 <= Z.of_nat (length tree) ->
  exists tree', climb fuel towards tree (j - 1) = Ok tree' /\ length tree' = length tree /\
    (forall q, j / 2 < q -> node tree' q = node tree q) /\
    (forall e, 1 <= e -> 1 <= j / 2 ^ e ->
       node tree' (j / 2 ^ e) = Some (if towards then Z.testbit j (e - 1) else negb (Z.testbit j (e - 1)))).
Proof.
  induction fuel as [|fuel IH]; intros tree j Hj Hj64 Hlen.
  { change (2 ^ Z.of_nat 1) with 2 in Hj. lia. }
  simpl climb. rewrite parent_node by lia. rewrite right_node by lia.
  assert (Hp : 1 <= j / 2) by (apply Z.div_le_lower_bound; lia).
  rewrite tree_set_ok by lia. simpl.
  set (b := if towards then _ else _). set (tree1 := <[Z.to_nat (j / 2 - 1) := b]> tree).
  assert (Hl1 : length tree1 = length tree) by apply length_insert.
  assert (Hn1 : forall q, 1 <= q -> node tree1 q = if decide (j / 2 = q) then Some b else node tree q)
    by (intros; apply node_insert; lia).
  destruct (Z.eqb_spec (j / 2 - 1) 0) as [E|E].
  - exists tree1. split_and!; [done|done| |].
    + intros q Hq. rewrite Hn1 by lia. by rewrite decide_False by lia.
    + intros e He Hpos. assert (e = 1) as ->.
      { destruct (decide (e = 1)); [done|exfalso].
        assert (j / 2 ^ e <= j / 2 ^ 2).
        { apply Z.div_le_compat_l; [lia|]. split; [lia|]. by apply Z.pow_le_mono_r; lia. }
        change (2 ^ 2) with 4 in *. assert (j < 4).
        { pose proof (Z.div_mod j 2 ltac:(lia)). pose proof (Z.mod_pos_bound j 2 ltac:(lia)). lia. }
        rewrite (Z.div_small j 4) in * by lia. lia. }
      change (2 ^ 1) with 2. rewrite Hn1 by lia. by rewrite decide_True by lia.
  - assert (Hj2 : 2 <= j / 2 < 2 ^ Z.of_nat (S fuel)).
    { split; [lia|]. apply Z.div_lt_upper_bound; [lia|].
      rewrite Nat2Z.inj_succ, Z.pow_succ_r in Hj by lia. lia. }
    assert (j / 2 / 2 <= j / 2) by (apply Z.div_le_upper_bound; lia).
    assert (j / 2 <= j) by (apply Z.div_le_upper_bound; lia).
    destruct (IH tree1 (j / 2)) as (tree' & -> & Hl' & Hframe & Hpath); [done|lia|lia|].
    exists tree'. split_and!; [done|lia| |].
    + intros q Hq. rewrite Hframe by lia. rewrite Hn1 by lia. by rewrite decide_False by lia.
    + intros e He Hpos. destruct (decide (e = 1)) as [->|Hne].
      * change (2 ^ 1) with 2. rewrite Hframe.
        -- rewrite Hn1 by lia. by rewrite decide_True by lia.
        -- apply Z.div_lt; lia.
      * assert (Hsplit : j / 2 ^ e = j / 2 / 2 ^ (e - 1)).
        { rewrite Z.div_div by (try apply pow2_pos; lia).
          f_equal. rewrite <- Z.pow_succ_r by lia. f_equal. lia. }
        rewrite Hsplit in *. rewrite Hpath by lia.
        assert (Z.testbit (j / 2) (e - 1 - 1) = Z.testbit j (e - 1)) as ->; [|done].
        replace (j / 2) with (Z.shiftr j 1) by (rewrite Z.shiftr_div_pow2; [done|lia]).
        rewrite Z.shiftr_spec by lia. f_equal. lia.
Qed.

(** The walk from node [q] of depth [d] ends at a leaf below [q]. *)
Lemma descend_spec k fuel : forall tree d q,
  1 <= k <= 62 -> Z.of_nat (length tree) = 2 ^ k - 1 ->
  0 <= d <= k -> k - d < Z.of_nat fuel -> 2 ^ d <= q < 2 ^ (d + 1) ->
  exists l, descend fuel tree (q - 1) = Ok (l - 1) /\ 2 ^ k <= l < 2 ^ (k + 1) /\
    l / 2 ^ (k - d) = q /\
    (d < k -> exists b, node tree q = Some b /\ l / 2 ^ (k - d - 1) = 2 * q + Z.b2z b).
Proof.
  induction fuel as [|fuel IH]; intros tree d q Hk Hlen Hd Hf Hq; [lia|].
  assert (Hk64 : 2 ^ (k + 1) <= 2 ^ 63) by (apply Z.pow_le_mono_r; lia).
  assert (Hdk : 2 ^ d <= 2 ^ k) by (apply Z.pow_le_mono_r; lia).
  pose proof (pow2_pos d ltac:(lia)).
  simpl descend. rewrite Hlen. destruct (Z.ltb_spec (q - 1) (2 ^ k - 1)).
  - assert (d < k).
    { destruct (decide (d = k)); [subst; lia|lia]. }
    assert (Hqk : q < 2 ^ k) by lia.
    destruct (lookup_lt_is_Some_2 tree (Z.to_nat (q - 1)) ltac:(lia)) as [b Hb].
    unfold tree_at. rewrite Hb. simpl.
    assert (Hnext : (if b then rightSubtreeIndex (q - 1) else leftSubtreeIndex (q - 1))
                    = (2 * q + Z.b2z b) - 1).
    { unfold rightSubtreeIndex, leftSubtreeIndex.
      assert (2 ^ k <= 2 ^ 62) by (apply Z.pow_le_mono_r; lia).
      destruct b; simpl; rewrite uwrap_small; (try split); lia. }
    rewrite Hnext.
    assert (Hd1 : 2 ^ (d + 1) = 2 * 2 ^ d) by (rewrite Z.pow_add_r; lia).
    assert (Hd2 : 2 ^ (d + 1 + 1) = 2 * 2 ^ (d + 1)) by (rewrite (Z.pow_add_r 2 (d + 1)); lia).
    destruct (IH tree (d + 1) (2 * q + Z.b2z b)) as (l & -> & Hl & Hdiv & _);
      [done|done|lia|lia|destruct b; simpl; lia|].
    exists l. replace (k - (d + 1)) with (k - d - 1) in Hdiv by lia.
    split; [done|]. split; [done|]. split.
    + replace (k - d) with (k - d - 1 + 1) by lia. rewrite Z.pow_add_r by lia.
      rewrite <- Z.div_div by (try apply Z.pow_nonzero; lia).
      rewrite Hdiv. change (2 ^ 1) with 2.
      rewrite Z.mul_comm, Z.div_add_l by lia.
      destruct b; [change (Z.b2z true / 2) with 0|change (Z.b2z false / 2) with 0]; lia.
    + intros _. exists b. done.
  - assert (d = k) as ->.
    { destruct (decide (d = k)); [done|exfalso].
      assert (2 ^ (d + 1) <= 2 ^ k) by (apply Z.pow_le_mono_r; lia). lia. }
    exists q. rewrite Z.sub_diag, Z.div_1_r. split_and!; [done|lia|lia|done|].
    intros; lia.
Qed.

(** A walk that follows the bits of [j] ends at [j]. *)
Lemma descend_path k fuel tree j : forall e,
  1 <= k <= 62 -> Z.of_nat (length tree) = 2 ^ k - 1 ->
  2 ^ k <= j < 2 ^ (k + 1) -> 0 <= e <= k -> e < Z.of_nat fuel ->
  (forall e', 1 <= e' -> 1 <= j / 2 ^ e' -> node tree (j / 2 ^ e') = Some (Z.testbit j (e' - 1))) ->
  descend fuel tree (j / 2 ^ e - 1) = Ok (j - 1).
Proof.
  induction fuel as [|fuel IH]; intros e Hk Hlen Hj He Hf Hpath; [lia|].
  assert (2 ^ (k + 1) <= 2 ^ 63) by (apply Z.pow_le_mono_r; lia).
  assert (Hk1 : 2 ^ (k + 1) = 2 * 2 ^ k) by (rewrite Z.pow_add_r; lia).
  simpl descend. rewrite Hlen. destruct (decide (e = 0)) as [->|Hne].
  - rewrite Z.div_1_r. destruct (Z.ltb_spec (j - 1) (2 ^ k - 1)); [lia|done].
  - assert (Hpe : 0 < 2 ^ e) by (apply pow2_pos; lia).
    assert (Hlow : 1 <= j / 2 ^ e).
    { apply Z.div_le_lower_bound; [lia|]. assert (2 ^ e <= 2 ^ k) by (apply Z.pow_le_mono_r; lia). lia. }
    assert (Hup : j / 2 ^ e < 2 ^ k).
    { apply Z.div_lt_upper_bound; [lia|]. assert (2 ^ 1 <= 2 ^ e) by (apply Z.pow_le_mono_r; lia). nia. }
    destruct (Z.ltb_spec (j / 2 ^ e - 1) (2 ^ k - 1)); [|lia].
    unfold tree_at. pose proof (Hpath e ltac:(lia) Hlow) as Hn. unfold node in Hn. rewrite Hn. simpl.
    rewrite <- (IH (e - 1)); [|done|done|done|lia|lia|done]. f_equal.
    assert (Hs : j / 2 ^ (e - 1) = 2 * (j / 2 ^ e) + Z.b2z (Z.testbit j (e - 1))).
    { rewrite (Z.div_mod (j / 2 ^ (e - 1)) 2) at 1 by lia.
      rewrite Z.div_div by (try apply pow2_pos; lia).
      rewrite <- Z.testbit_spec' by lia. f_equal. f_equal. f_equal.
      rewrite Z.mul_comm, <- Z.pow_succ_r by lia. f_equal. lia. }
    rewrite Hs. unfold rightSubtreeIndex, leftSubtreeIndex.
    assert (2 ^ k <= 2 ^ 62) by (apply Z.pow_le_mono_r; lia).
    destruct (Z.testbit j (e - 1)); simpl; rewrite uwrap_small by (split; lia); lia.
Qed.

(** One set of [2^k] entries: candidate [w] is leaf [w] of tree [t]. *)
Definition set_of (k : Z) (t : nat) (cands : list nat) (s : State) : Prop :=
  length cands = Z.to_nat (2 ^ k) /\ NoDup cands /\
  (exists tree, trees s !! t = Some tree /\ Z.of_nat (length tree) = 2 ^ k - 1) /\
  forall w c, cands !! w = Some c -> entries s !! c = Some (mk (Z.of_nat w + 2 ^ k - 1) t).

Lemma update_tree_ok k t cands s w e towards :
  1 <= k <= 62 -> set_of k t cands s -> cands !! w = Some e ->
  exists s' tree', update_tree towards e s = Ok s' /\ set_of k t cands s' /\
    trees s' !! t = Some tree' /\
    forall j, j = Z.of_nat w + 2 ^ k -> forall x, 1 <= x -> 1 <= j / 2 ^ x ->
      node tree' (j / 2 ^ x) = Some (if towards then Z.testbit j (x - 1) else negb (Z.testbit j (x - 1))).
Proof.
  intros Hk (Hlen & Hnd & (tree & Ht & Htl) & Hent) Hw.
  unfold update_tree. rewrite (proj2 (lookupR_Ok _ _ _) (Hent w e Hw)). cbn [rbind index tree_id].
  rewrite (proj2 (lookupR_Ok _ _ _) Ht). cbn [rbind].
  assert (Hwk : Z.of_nat w < 2 ^ k).
  { apply lookup_lt_Some in Hw. rewrite Hlen in Hw. lia. }
  assert (2 ^ 1 <= 2 ^ k) by (apply Z.pow_le_mono_r; lia).
  assert (2 ^ k <= 2 ^ 62) by (apply Z.pow_le_mono_r; lia).
  destruct (climb_spec towards 64 tree (Z.of_nat w + 2 ^ k)) as (tree' & E & Hl' & _ & Hpath).
  - change (Z.of_nat 65) with 65. lia.
  - lia.
  - assert ((Z.of_nat w + 2 ^ k) / 2 < 2 ^ k) by (apply Z.div_lt_upper_bound; lia). lia.
  - rewrite E. cbn [rbind]. eexists _, tree'. split; [done|]. split_and!; simpl.
    + split_and!; [done|done| |done]. exists tree'. simpl. split; [|lia].
      apply list_lookup_insert_eq. by apply lookup_lt_Some in Ht.
    + apply list_lookup_insert_eq. by apply lookup_lt_Some in Ht.
    + intros j -> x Hx Hpos. by apply Hpath.
Qed.

(** The victim is the candidate of the leaf the walk reaches. *)
Lemma getVictim_leaf k t cands s tree :
  1 <= k <= 62 -> set_of k t cands s -> trees s !! t = Some tree ->
  exists l v, descend 65 tree 0 = Ok (l - 1) /\ 2 ^ k <= l < 2 ^ (k + 1) /\
    cands !! Z.to_nat (l - 2 ^ k) = Some v /\ getVictim (2 ^ k) cands s = Ok v /\
    exists b, node tree 1 = Some b /\ l / 2 ^ (k - 1) = 2 + Z.b2z b.
Proof.
  intros Hk (Hlen & Hnd & (tree0 & Ht & Htl) & Hent) Ht'.
  assert (tree0 = tree) as -> by congruence.
  destruct (descend_spec k 65 tree 0 1) as (l & Hd & Hl & _ & Hb); [done|done|lia|lia|done|].
  assert (Hk1 : 2 ^ (k + 1) = 2 * 2 ^ k) by (rewrite Z.pow_add_r; lia).
  destruct (lookup_lt_is_Some_2 cands (Z.to_nat (l - 2 ^ k))) as [v Hv]; [rewrite Hlen; lia|].
  exists l, v. split; [done|]. split; [done|]. split; [done|]. split.
  - unfold getVictim. destruct cands as [|c cs] eqn:Ec; [by rewrite lookup_nil in Hv|].
    rewrite (proj2 (lookupR_Ok _ _ _) (Hent O c eq_refl)). cbn [rbind index tree_id].
    rewrite (proj2 (lookupR_Ok _ _ _) Ht). cbn [rbind]. change (1 - 1) with 0 in Hd. rewrite Hd. cbn [rbind].
    replace (l - 1 - (2 ^ k - 1)) with (l - 2 ^ k) by lia. by apply lookupR_Ok.
  - destruct (Hb ltac:(lia)) as (b & Hn & He). exists b. split; [done|].
    by replace (k - 0 - 1) with (k - 1) in He by lia.
Qed.

(** C34. Tree pseudo-LRU over a set of [2^k] ways ([k] at least 1): touching
    or resetting a way makes the next victim a different way of the set,
    invalidating a way makes it the next victim, and in every state the victim
    search ends on one of the candidates. *)
Theorem tree_plru_victim k t cands s w e now :
  1 <= k <= 62 -> set_of k t cands s -> cands !! w = Some e ->
  (forall update, update = touch \/ update = reset ->
     exists s' v, update now e s = Ok s' /\ getVictim (2 ^ k) cands s' = Ok v /\ v ∈ cands /\ v <> e) /\
  (exists s', invalidate now e s = Ok s' /\ getVictim (2 ^ k) cands s' = Ok e) /\
  (exists v, getVictim (2 ^ k) cands s = Ok v /\ v ∈ cands).
Proof.
  intros Hk Hs Hw.
  assert (Hwk : Z.of_nat w < 2 ^ k).
  { destruct Hs as [Hlen _]. apply lookup_lt_Some in Hw. rewrite Hlen in Hw. lia. }
  assert (Hk1 : 2 ^ (k + 1) = 2 * 2 ^ k) by (rewrite Z.pow_add_r; lia).
  set (j := Z.of_nat w + 2 ^ k).
  assert (Hroot : j / 2 ^ k = 1) by (symmetry; apply Z.div_unique with (Z.of_nat w); lia).
  split; [|split].
  - intros update Hu. assert (update now e s = update_tree false e s) as -> by by destruct Hu as [-> | ->].
    destruct (update_tree_ok k t cands s w e false Hk Hs Hw) as (s' & tree' & E & Hs' & Ht' & Hp).
    destruct (getVictim_leaf k t cands s' tree' Hk Hs' Ht') as (l & v & _ & Hl & Hv & Hg & b & Hn & Hb).
    exists s', v. split_and!; [done|done|by eapply list_elem_of_lookup_2|].
    intros ->. destruct Hs as (_ & Hnd & _).
    pose proof (NoDup_lookup cands _ _ e Hnd Hv Hw) as Heq.
    assert (l = j) as -> by (unfold j; lia).
    pose proof (Hp j eq_refl k ltac:(lia) ltac:(lia)) as Hn'. rewrite Hroot in Hn'.
    rewrite Hn in Hn'. injection Hn' as ->.
    assert (Hs : j / 2 ^ (k - 1) = 2 * (j / 2 ^ k) + Z.b2z (Z.testbit j (k - 1))).
    { rewrite Z.testbit_spec' by lia. rewrite (Z.div_mod (j / 2 ^ (k - 1)) 2) at 1 by lia.
      rewrite Z.div_div by (try apply pow2_pos; lia).
      f_equal. f_equal. f_equal. rewrite Z.mul_comm, <- Z.pow_succ_r by lia. f_equal. lia. }
    rewrite Hb, Hroot in Hs. destruct (Z.testbit j (k - 1)); simpl in Hs; lia.
  - destruct (update_tree_ok k t cands s w e true Hk Hs Hw) as (s' & tree' & E & Hs' & Ht' & Hp).
    destruct (getVictim_leaf k t cands s' tree' Hk Hs' Ht') as (l & v & Hd & Hl & Hv & Hg & _).
    exists s'. split; [done|]. rewrite Hg. f_equal.
    destruct Hs' as (_ & _ & (tr & Htr & Htl) & _).
    assert (tr = tree') as -> by congruence.
    assert (Hdj : descend 65 tree' (j / 2 ^ k - 1) = Ok (j - 1)).
    { apply (descend_path k); [done|done|lia|lia|lia|]. intros x Hx Hpos. by apply (Hp j). }
    rewrite Hroot in Hdj. change (1 - 1) with 0 in Hdj. rewrite Hd in Hdj.
    assert (l = j) as -> by (simplify_res; congruence || lia).
    unfold j in Hv. replace (Z.of_nat w + 2 ^ k - 2 ^ k) with (Z.of_nat w) in Hv by lia.
    rewrite Nat2Z.id in Hv. congruence.
  - pose proof Hs as (_ & _ & (tree & Ht & _) & _).
    destruct (getVictim_leaf k t cands s tree Hk Hs Ht) as (l & v & _ & _ & Hv & Hg & _).
    exists v. split; [done|]. by eapply list_elem_of_lookup_2.
Qed.

(** Four ways: the state after four [instantiateEntry] calls. *)
Definition example_set : State :=
  instantiateEntry 4 (instantiateEntry 4 (instantiateEntry 4
    (instantiateEntry 4 (mkState [] [])))).

Lemma tree_plru_victim_witness :
  (exists s' v, reset 0 2 example_set = Ok s' /\ getVictim (2 ^ 2) [0; 1; 2; 3]%nat s' = Ok v /\
     v ∈ [0; 1; 2; 3]%nat /\ v <> 2%nat) /\
  exists s', invalidate 0 2 example_set = Ok s' /\ getVictim (2 ^ 2) [0; 1; 2; 3]%nat s' = Ok 2%nat.
Proof.
  destruct (tree_plru_victim 2 0 [0; 1; 2; 3]%nat example_set 2 2%nat 0) as (Hr & H & _).
  - lia.
  - unfold set_of. split_and!; [reflexivity| | |].
    + repeat constructor; set_solver.
    + eexists. split; reflexivity.
    + intros [|[|[|[|w]]]] c Hc; simplify_eq/=; reflexivity.
  - reflexivity.
  - split; [apply Hr; by right|exact H].
Defined.

End TreePLRUFacts.

(** ** Second chance *)
Module SecondChanceFacts.
Import SecondChance.

Definition chance (s : list Data) (c : nat) : bool :=
  match s !! c with Some d => hasSecondChance d | None => false end.

Definition chances (s : list Data) (cands : list nat) : nat :=
  length (List.filter (chance s) cands).

Lemma filter_length_le (p q : nat -> bool) l :
  (forall x, p x = true -> q x = true) ->
  (length (List.filter p l) <= length (List.filter q l))%nat.
Proof.
  intros Hpq. induction l as [|x l IH]; simpl; [lia|].
  destruct (p x) eqn:Ep; [rewrite (Hpq x Ep); simpl; lia|].
  destruct (q x); simpl; lia.
Qed.

Lemma filter_length_lt (p q : nat -> bool) l v :
  (forall x, p x = true -> q x = true) -> v ∈ l -> q v = true -> p v = false ->
  (length (List.filter p l) < length (List.filter q l))%nat.
Proof.
  intros Hpq Hv Hq Hp. induction l as [|x l IH]; [by apply elem_of_nil in Hv|].
  simpl. apply elem_of_cons in Hv as [<-|Hv].
  - rewrite Hq, Hp. simpl. pose proof (filter_length_le p q l Hpq). lia.
  - specialize (IH Hv). destruct (p x) eqn:Ep; [rewrite (Hpq x Ep); simpl; lia|].
    destruct (q x); simpl; lia.
Qed.

Lemma chances_use s cands v now d :
  s !! v = Some d -> hasSecondChance d = true -> v ∈ cands ->
  (chances (<[v := mk now false]> s) cands < chances s cands)%nat.
Proof.
  intros Hv Hd Hin. apply (filter_length_lt _ _ _ v); [|done| |].
  - intros x. unfold chance. destruct (decide (x = v)) as [->|Hne].
    + rewrite list_lookup_insert_eq by by apply lookup_lt_Some in Hv. done.
    + by rewrite list_lookup_insert_ne.
  - unfold chance. by rewrite Hv.
  - unfold chance. by rewrite list_lookup_insert_eq by by apply lookup_lt_Some in Hv.
Qed.

(** How a search may change the data: entries that had a second chance lose
    it and are re-stamped, all others are untouched. *)
Definition used (now : Z) (cands : list nat) (s s' : list Data) : Prop :=
  length s' = length s /\
  forall i, s' !! i = s !! i \/
    (i ∈ cands /\ (exists d, s !! i = Some d /\ hasSecondChance d = true) /\
     s' !! i = Some (mk now false)).

Lemma used_refl now cands s : used now cands s s.
Proof. split; [done|]. by left. Qed.

Lemma used_step now cands s s' v d :
  s !! v = Some d -> hasSecondChance d = true -> v ∈ cands ->
  used now cands (<[v := mk now false]> s) s' -> used now cands s s'.
Proof.
  intros Hv Hd Hin [Hlen Hall]. rewrite length_insert in Hlen. split; [done|].
  intros i. destruct (decide (i = v)) as [->|Hne].
  - right. split_and!; [done|by exists d|].
    destruct (Hall v) as [->|(_ & _ & ->)]; [|done].
    by rewrite list_lookup_insert_eq by by apply lookup_lt_Some in Hv.
  - destruct (Hall i) as [->|(Hi & Hd' & ->)].
    + left. by rewrite list_lookup_insert_ne.
    + right. rewrite list_lookup_insert_ne in Hd' by done. done.
Qed.

Lemma search_ok now cands : cands <> [] -> forall fuel s,
  in_range (length s) cands -> (chances s cands < fuel)%nat ->
  exists v s' d, search fuel now cands s = Ok (v, s') /\ v ∈ cands /\
    s' !! v = Some d /\ hasSecondChance d = false /\ used now cands s s' /\
    (forall c dc, c ∈ cands -> s' !! c = Some dc -> tickInserted d <= tickInserted dc).
Proof.
  intros Hne. induction fuel as [|fuel IH]; intros s Hr Hf; [lia|].
  simpl. destruct (scan_all_min tickInserted s cands Hne Hr)
    as (l1 & v & l2 & d & -> & Hc & Hv & _ & Hmin). simpl.
  rewrite (proj2 (lookupR_Ok s v d) Hv). simpl.
  assert (Hin : v ∈ cands) by (rewrite Hc; set_solver).
  destruct (hasSecondChance d) eqn:Hd.
  - unfold useSecondChance, updateR. rewrite (proj2 (lookupR_Ok s v d) Hv). simpl.
    destruct (IH (<[v := mk now false]> s)) as (w & s' & dw & -> & Hw & Hs' & Hdw & Hu & Hm).
    + by rewrite length_insert.
    + pose proof (chances_use s cands v now d Hv Hd Hin). lia.
    + exists w, s', dw. split_and!; try done. by apply (used_step now cands s s' v d).
  - exists v, s, d. split_and!; try done. apply used_refl.
Qed.

Lemma find_invalid_ok s cands :
  in_range (length s) cands ->
  exists r, find_invalid s cands = Ok r /\
    match r with
    | Some c => c ∈ cands /\ s !! c = Some (mk 0 false)
    | None => True
    end.
Proof.
  induction cands as [|c cs IH]; intros Hr; simpl; [by exists None|].
  apply Forall_cons_iff in Hr as [Hc Hr].
  destruct (lookupR_lt s c Hc) as (d & Hd & ->). simpl.
  destruct (Z.eqb_spec (tickInserted d) 0), (hasSecondChance d) eqn:E; simpl.
  2: { exists (Some c). split; [done|]. split; [set_solver|]. destruct d; simpl in *. congruence. }
  all: destruct (IH Hr) as (r & -> & H); exists r; split; [done|]; destruct r; [|done];
    destruct H; split; [set_solver|done].
Qed.

(** Second chance terminates: on any non-empty candidate list the victim
    search ends within one round per candidate and returns a candidate that
    has no second chance left, having only taken second chances away (and
    re-stamped those entries with the current tick) on the way. *)
Theorem second_chance_terminates now cands s :
  cands <> [] -> Forall (fun c => (c < length s)%nat) cands ->
  exists v s' d, getVictim now cands s = Ok (v, s') /\ v ∈ cands /\
    s' !! v = Some d /\ hasSecondChance d = false /\
    length s' = length s /\
    forall i, s' !! i = s !! i \/
      (i ∈ cands /\ (exists d, s !! i = Some d /\ hasSecondChance d = true) /\
       s' !! i = Some (mk now false)).
Proof.
  intros Hne Hr. unfold getVictim.
  destruct (find_invalid_ok s cands Hr) as (r & Hf & Hr').
  destruct cands as [|c cs] eqn:Ec; [done|]. rewrite <- Ec in *. rewrite Hf. simpl.
  destruct r as [x|].
  - destruct Hr' as [Hx Hs]. exists x, s, (mk 0 false). split_and!; try done. by left.
  - destruct (search_ok now cands Hne (S (length cands)) s Hr)
      as (v & s' & d & Hs & Hv & Hl & Hd & (? & ?) & _).
    { unfold chances. pose proof (filter_length_le (chance s) (fun _ => true) cands ltac:(done)).
      assert (length (List.filter (fun _ => true) cands) = length cands); [|lia].
      clear. induction cands; simpl; congruence. }
    exists v, s', d. split_and!; done.
Qed.

Lemma second_chance_terminates_witness :
  exists v s' d, getVictim 50 [0; 1]%nat [mk 3 true; mk 7 true] = Ok (v, s') /\
    s' !! v = Some d /\ hasSecondChance d = false.
Proof.
  destruct (second_chance_terminates 50 [0; 1]%nat [mk 3 true; mk 7 true])
    as (v & s' & d & H1 & _ & H2 & H3 & _).
  - discriminate.
  - repeat (constructor; [simpl; lia|]). constructor.
  - exists v, s', d. split; [exact H1|]. split; [exact H2|exact H3].
Defined.

End SecondChanceFacts.

(** ** BRRIP *)
Module BRRIPFacts.
Import BRRIP.

(** Every entry has a well-formed counter with the same maximum [M]. *)
Definition wf (M : Z) (s : list Data) : Prop :=
  Forall (fun d => SatCounter.wf (rrpv d) /\ SatCounter.maxVal (rrpv d) = M) s.

Definition cnt (s : list Data) (c : nat) : Z :=
  match s !! c with Some d => SatCounter.counter (rrpv d) | None => 0 end.

Lemma wf_lookup M s c d : wf M s -> s !! c = Some d ->
  0 <= SatCounter.counter (rrpv d) <= M /\ SatCounter.maxVal (rrpv d) = M /\ SatCounter.wf (rrpv d).
Proof.
  intros Hwf Hd. unfold wf in Hwf. rewrite Forall_lookup in Hwf.
  destruct (Hwf c d Hd) as [[? ?] <-]. split_and!; try done; lia.
Qed.

Lemma find_ok s : forall cands v, in_range (length s) cands ->
  (exists l1 c l2 d, find s v (cnt s v) cands = Ok (inl c) /\ cands = l1 ++ c :: l2 /\
     s !! c = Some d /\ valid d = false /\
     (forall x dx, x ∈ l1 -> s !! x = Some dx -> valid dx = true)) \/
  (exists w, find s v (cnt s v) cands = Ok (inr w) /\ (w = v \/ w ∈ cands) /\
     cnt s v <= cnt s w /\ (forall x, x ∈ cands -> cnt s x <= cnt s w) /\
     (forall x dx, x ∈ cands -> s !! x = Some dx -> valid dx = true)).
Proof.
  induction cands as [|c cs IH]; intros v Hr; simpl.
  { right. exists v. split_and!; [done|by left|lia| |]; intros ? ?; try (intros ? H; revert H);
      try (intros H; by apply elem_of_nil in H); intros; set_solver. }
  apply Forall_cons_iff in Hr as [Hc Hr].
  destruct (lookupR_lt s c Hc) as (d & Hd & ->). simpl.
  destruct (valid d) eqn:Ev; simpl.
  2: { left. exists [], c, cs, d. split_and!; try done. intros; set_solver. }
  assert (Hcnt : SatCounter.counter (rrpv d) = cnt s c) by (unfold cnt; by rewrite Hd).
  rewrite Hcnt.
  assert (Hrest : forall u, cnt s v <= cnt s u -> cnt s c <= cnt s u -> (u = v \/ u = c) ->
    find s u (cnt s u) cs = (if cnt s v <? cnt s c then find s c (cnt s c) cs else find s v (cnt s v) cs) ->
    (exists l1 c0 l2 d0, find s u (cnt s u) cs = Ok (inl c0) /\ c :: cs = l1 ++ c0 :: l2 /\
       s !! c0 = Some d0 /\ valid d0 = false /\
       (forall x dx, x ∈ l1 -> s !! x = Some dx -> valid dx = true)) \/
    (exists w, find s u (cnt s u) cs = Ok (inr w) /\ (w = v \/ w ∈ c :: cs) /\
       cnt s v <= cnt s w /\ (forall x, x ∈ c :: cs -> cnt s x <= cnt s w) /\
       (forall x dx, x ∈ c :: cs -> s !! x = Some dx -> valid dx = true))).
  { intros u Hvu Hcu Hu _. destruct (IH u Hr) as [(l1 & c0 & l2 & d0 & -> & -> & Hs & Hv & Hl)|
      (w & -> & Hw & Hle & Hall & Hval)].
    - left. exists (c :: l1), c0, l2, d0. split_and!; try done.
      intros x dx Hx Hdx. apply elem_of_cons in Hx as [->|Hx]; [congruence|eauto].
    - right. exists w. split_and!; [done|set_solver|lia| |].
      + intros x Hx. apply elem_of_cons in Hx as [->|Hx]; [lia|auto].
      + intros x dx Hx Hdx. apply elem_of_cons in Hx as [->|Hx]; [congruence|eauto]. }
  destruct (Z.ltb_spec (cnt s v) (cnt s c)).
  - apply Hrest; [lia|lia|by right|done].
  - apply Hrest; [lia|lia|by left|done].
Qed.

Lemma cnt_insert s c c' d :
  (c < length s)%nat ->
  cnt (<[c := d]> s) c' = if decide (c = c') then SatCounter.counter (rrpv d) else cnt s c'.
Proof.
  intros Hc. unfold cnt. case_decide.
  - subst. by rewrite list_lookup_insert_eq.
  - by rewrite list_lookup_insert_ne.
Qed.

Lemma wf_insert M s c d :
  wf M s -> SatCounter.wf (rrpv d) -> SatCounter.maxVal (rrpv d) = M -> wf M (<[c := d]> s).
Proof. intros. apply Forall_insert; done. Qed.

Lemma add_nonneg_min diff (x : SatCounter.t) :
  SatCounter.wf x -> 0 <= diff ->
  SatCounter.counter (SatCounter.add_nonneg diff x) =
    Z.min (SatCounter.maxVal x) (SatCounter.counter x + diff) /\
  SatCounter.maxVal (SatCounter.add_nonneg diff x) = SatCounter.maxVal x /\
  SatCounter.wf (SatCounter.add_nonneg diff x).
Proof.
  intros [Hc Hi] Hd. unfold SatCounter.add_nonneg, SatCounter.wf.
  destruct (Z.leb_spec diff (SatCounter.maxVal x - SatCounter.counter x)); simpl; lia.
Qed.

Lemma add_all_ok M diff cands : forall s, wf M s -> 0 <= diff -> NoDup cands ->
  in_range (length s) cands ->
  exists s', add_all diff cands s = Ok s' /\ wf M s' /\ length s' = length s /\
    forall c, cnt s' c = if decide (c ∈ cands) then Z.min M (cnt s c + diff) else cnt s c.
Proof.
  induction cands as [|c cs IH]; intros s Hwf Hd Hnd Hr; simpl.
  - exists s. split_and!; [done|done|done|]. intros c. destruct (decide (c ∈ [])) as [Hc|]; [set_solver|done].
  - apply NoDup_cons in Hnd as [Hni Hnd]. apply Forall_cons_iff in Hr as [Hc Hr].
    destruct (lookupR_lt s c Hc) as (d & Hdl & ->). simpl.
    unfold SatCounter.add_assign. destruct (Z.leb_spec 0 diff); [|lia]. simpl.
    destruct (wf_lookup M s c d Hwf Hdl) as (Hrange & Hmax & Hw).
    destruct (add_nonneg_min diff (rrpv d) Hw Hd) as (Hcn & Hmx & Hwf').
    set (d' := mk _ _).
    destruct (IH (<[c := d']> s)) as (s' & -> & Hwf2 & Hlen & Hcnt).
    + apply wf_insert; simpl; [done|done|congruence].
    + done.
    + done.
    + by rewrite length_insert.
    + rewrite length_insert in Hlen. exists s'. split_and!; [done|done|done|].
      intros c'. rewrite Hcnt, cnt_insert by done.
      destruct (decide (c = c')) as [<-|Hne].
      * destruct (decide (c ∈ cs)) as [|_]; [done|].
        destruct (decide (c ∈ c :: cs)) as [_|Hn]; [|exfalso; apply Hn; set_solver].
        unfold cnt. rewrite Hdl. simpl. rewrite Hcn, Hmax. done.
      * destruct (decide (c' ∈ cs)), (decide (c' ∈ c :: cs)); set_solver.
Qed.

(** BRRIP victim selection. On a non-empty duplicate-free candidate list:
    if some candidate is invalid, the first such candidate is returned and
    nothing changes; otherwise the victim has the largest re-reference value
    of the candidates, and every candidate ages by the victim's distance to
    the maximum, saturating there, so the victim ends at the maximum while
    entries outside the candidates keep their value. *)
Theorem brrip_victim M cands s :
  wf M s -> M < 256 -> cands <> [] -> NoDup cands ->
  Forall (fun c => (c < length s)%nat) cands ->
  (exists l1 c l2 d, getVictim cands s = Ok (c, s) /\ cands = l1 ++ c :: l2 /\
     s !! c = Some d /\ valid d = false /\
     (forall x dx, x ∈ l1 -> s !! x = Some dx -> valid dx = true)) \/
  (exists v s', getVictim cands s = Ok (v, s') /\ v ∈ cands /\ wf M s' /\
     (forall x, x ∈ cands -> cnt s x <= cnt s v) /\
     cnt s' v = M /\
     (forall x, x ∈ cands -> cnt s' x = Z.min M (cnt s x + (M - cnt s v))) /\
     (forall x, x ∉ cands -> cnt s' x = cnt s x)).
Proof.
  intros Hwf HM Hne Hnd Hr. destruct cands as [|c0 cs]; [done|].
  unfold getVictim. remember (c0 :: cs) as cands eqn:Ec.
  pose proof Hr as Hr'. rewrite Ec in Hr'. apply Forall_cons_iff in Hr' as [Hc0 _].
  destruct (lookupR_lt s c0 Hc0) as (d0 & Hd0 & ->). cbn [rbind].
  replace (SatCounter.counter (rrpv d0)) with (cnt s c0) by (unfold cnt; by rewrite Hd0).
  destruct (find_ok s cands c0 Hr) as [(l1 & c & l2 & d & -> & Hc & Hs & Hv & Hl)|
    (w & -> & Hw & Hle & Hall & Hval)]; cbn [rbind].
  - left. exists l1, c, l2, d. done.
  - right. assert (Hwin : w ∈ cands) by (destruct Hw as [->|]; [set_solver|done]).
    assert (Hwl : (w < length s)%nat) by (rewrite Forall_forall in Hr; auto).
    destruct (lookupR_lt s w Hwl) as (d & Hd & ->). cbn [rbind].
    destruct (wf_lookup M s w d Hwf Hd) as (Hrange & Hmax & Hw').
    assert (Hcw : cnt s w = SatCounter.counter (rrpv d)) by (unfold cnt; by rewrite Hd).
    unfold SatCounter.saturate. rewrite Hmax.
    rewrite (uwrap_small 8) by (split; [lia|change (2 ^ 8) with 256; lia]).
    rewrite <- Hcw. set (d' := mk _ _).
    assert (Hwf1 : wf M (<[w := d']> s)).
    { apply wf_insert; [done| |done]. destruct Hw' as [? ?]. split; simpl; lia. }
    assert (Hc1 : forall x, cnt (<[w := d']> s) x = if decide (w = x) then M else cnt s x)
      by (intros; by rewrite cnt_insert).
    destruct (Z.ltb_spec 0 (M - cnt s w)) as [Hd0'|Hd0'].
    + destruct (add_all_ok M (M - cnt s w) cands (<[w := d']> s)) as (s' & -> & Hwf2 & Hlen & Hcnt);
        [done|lia|done|by rewrite length_insert|]. cbn [rbind].
      exists w, s'. split; [done|]. split; [done|]. split; [done|]. split; [done|].
      split_and!.
      * rewrite Hcnt, Hc1. rewrite !decide_True by done. lia.
      * intros x Hx. rewrite Hcnt, Hc1. rewrite (decide_True (P := x ∈ cands)) by done.
        destruct (decide (w = x)) as [<-|]; lia.
      * intros x Hx. rewrite Hcnt, Hc1. rewrite (decide_False (P := x ∈ cands)) by done.
        by rewrite decide_False by (intros <-; done).
    + assert (M = cnt s w) as HMw by lia.
      exists w, (<[w := d']> s). split; [done|]. split; [done|]. split; [done|]. split; [done|].
      split_and!.
      * rewrite Hc1. by rewrite decide_True.
      * intros x Hx. rewrite Hc1. specialize (Hall x Hx). destruct (decide (w = x)) as [<-|]; lia.
      * intros x Hx. rewrite Hc1. by rewrite decide_False by (intros <-; done).
Qed.

Lemma brrip_victim_witness :
  exists v s', getVictim [0; 1]%nat [mk (SatCounter.mk 0 3 1) true; mk (SatCounter.mk 0 3 2) true]
    = Ok (v, s') /\ cnt s' v = 3.
Proof.
  destruct (brrip_victim 3 [0; 1]%nat [mk (SatCounter.mk 0 3 1) true; mk (SatCounter.mk 0 3 2) true])
    as [(l1 & c & l2 & d & _ & Hc & Hs & Hv & _)|(v & s' & H1 & _ & _ & _ & H2 & _)].
  - repeat constructor; simpl; lia.
  - lia.
  - discriminate.
  - repeat constructor; set_solver.
  - repeat (constructor; [simpl; lia|]). constructor.
  - exfalso. destruct l1 as [|x [|y [|z l1]]]; simplify_eq/=.
  - exists v, s'. split; [exact H1|exact H2].
Defined.

End BRRIPFacts.

(** ** The policies behind the interface

    A candidate list is acceptable when it is not empty and names known
    entries. *)
Module Instances.

Definition entries_ok {A} (s : list A) (n : nat) : Prop := length s = n.
Definition cands_ok (n : nat) (l : list nat) : Prop := l <> [] /\ in_range n l.

(** Policies without a random choice leave the generator alone. *)
Definition pure_reset {S} (f : Z -> nat -> S -> res S) (now : Z) (i : nat) (s : S * nat) :
    res (S * nat) :=
  let* d := f now i s.1 in Ok (d, s.2).
Definition pure_victim {S} (f : list nat -> S -> res nat) (now : Z) (l : list nat) (s : S * nat) :
    res (nat * (S * nat)) :=
  let* v := f l s.1 in Ok (v, s).

Lemma updateR_ok {A} (f : A -> A) i (s : list A) n :
  entries_ok s n -> (i < n)%nat -> exists s', updateR f i s = Ok s' /\ entries_ok s' n.
Proof.
  unfold entries_ok. intros <- Hi. destruct (updateR_lt f s i Hi) as (x & _ & ->). eexists. split; [done|].
  apply length_insert.
Qed.

Lemma pure_reset_ok {A} (f : A -> A) now i (s : list A) rng n :
  entries_ok s n -> (i < n)%nat ->
  exists s' rng', pure_reset (fun _ => updateR f) now i (s, rng) = Ok (s', rng') /\ entries_ok s' n.
Proof.
  intros Hs Hi. destruct (updateR_ok f i s n Hs Hi) as (s' & Hs' & ?).
  exists s', rng. unfold pure_reset. simpl. by rewrite Hs'.
Qed.

Lemma scan_victim_ok {A} (k : A -> Z) now l (s : list A) rng n :
  entries_ok s n -> cands_ok n l ->
  exists v s' rng', pure_victim (fun l => (fun s => scan_all (fun a b => k a <? k b) s l)) now l (s, rng)
    = Ok (v, (s', rng')) /\ v ∈ l /\ entries_ok s' n.
Proof.
  unfold entries_ok. intros <- [Hne Hr]. destruct (scan_all_min k s l Hne Hr) as (l1 & w & l2 & dw & Hs & -> & _).
  exists w, s, rng. unfold pure_victim. simpl. rewrite Hs. split; [done|]. split; [|done].
  apply elem_of_app. right. apply elem_of_cons. by left.
Qed.

#[global] Instance lru_policy : ReplacementPolicy (list LRU.Data) := {|
  rp_invalidate := LRU.invalidate; rp_touch := LRU.touch;
  rp_reset := pure_reset LRU.reset; rp_getVictim := pure_victim LRU.getVictim;
  rp_instantiateEntry s := Ok (s ++ [LRU.instantiateEntry])
|}.

#[global] Program Instance lru_ok : ReplacementPolicyOk (list LRU.Data) :=
  {| rp_wf := entries_ok; rp_cands := cands_ok |}.
Next Obligation. intros. by apply updateR_ok. Qed.
Next Obligation. intros. by apply updateR_ok. Qed.
Next Obligation. intros now i s rng n. by apply (pure_reset_ok (fun _ => now) now). Qed.
Next Obligation. intros now l s rng n. by apply (scan_victim_ok id now). Qed.

(** FIFO is a policy over the same data as LRU, so its state is wrapped. *)
Record fifo_state := mkFifo { fifo : list FIFO.Data }.
Definition in_fifo (f : list FIFO.Data -> res (list FIFO.Data)) (s : fifo_state) : res fifo_state :=
  let* d := f (fifo s) in Ok (mkFifo d).

#[global] Instance fifo_policy : ReplacementPolicy fifo_state := {|
  rp_invalidate now i := in_fifo (FIFO.invalidate now i);
  rp_touch now i := in_fifo (FIFO.touch now i);
  rp_reset := pure_reset (fun now i => in_fifo (FIFO.reset now i));
  rp_getVictim := pure_victim (fun l s => FIFO.getVictim l (fifo s));
  rp_instantiateEntry s := Ok (mkFifo (fifo s ++ [0]))
|}.

Section with_random.
Context `{RandomSource}.

#[global] Instance random_policy : ReplacementPolicy (list RandomRP.Data) := {|
  rp_invalidate := RandomRP.invalidate; rp_touch := RandomRP.touch;
  rp_reset := pure_reset RandomRP.reset;
  rp_getVictim now l s :=
    let* (v, rng) := RandomRP.getVictim l s.1 s.2 in Ok (v, (s.1, rng));
  rp_instantiateEntry s := Ok (s ++ [false])
|}.

Lemma first_invalid_in s cands : forall v, in_range (length s) cands ->
  exists w, RandomRP.first_invalid s v cands = Ok w /\ (w = v \/ w ∈ cands).
Proof.
  induction cands as [|c cs IH]; intros v Hr; simpl; [eauto|].
  apply Forall_cons_iff in Hr as [Hc Hr]. destruct (lookupR_lt s c Hc) as (d & _ & ->). simpl.
  destruct d; simpl; [|exists c; set_solver].
  destruct (IH v Hr) as (w & -> & ?). exists w. set_solver.
Qed.

#[global] Program Instance random_ok : ReplacementPolicyOk (list RandomRP.Data) :=
  {| rp_wf := entries_ok; rp_cands := cands_ok |}.
Next Obligation. intros. by apply updateR_ok. Qed.
Next Obligation. intros. by eexists. Qed.
Next Obligation. intros now i s rng n. by apply (pure_reset_ok (fun _ => true) now). Qed.
Next Obligation.
  unfold entries_ok. intros now l s rng n <- [Hne Hr]. unfold rp_getVictim, random_policy, RandomRP.getVictim. simpl.
  assert (Hlen : (0 < length l)%nat) by (destruct l; [done|simpl; lia]).
  rewrite (proj2 (Nat.ltb_lt _ _) Hlen).
  destruct (RandomMT.random_ok 0 (Z.of_nat (length l) - 1) rng) as (r & -> & Hr'); [lia|]. simpl.
  destruct (lookupR_lt l (Z.to_nat r)) as (c & Hc & ->); [lia|]. simpl.
  destruct (first_invalid_in s l c Hr) as (w & -> & Hw). simpl.
  exists w, s, (S rng). split; [done|]. split; [|done].
  destruct Hw as [->|]; [by eapply list_elem_of_lookup_2|done].
Qed.
End with_random.

End Instances.
