(* ===== verification/Indexing.v ===== *)
(** * Indexing policies

    src/gem5/src/mem/cache/tags/indexing_policies: how an address selects the
    entries it may live in, and how the address of an entry is rebuilt from
    its tag. [Indexing] is the base class, then [SetAssociative], the RaS
    [NewRandIdx] (one set, extra index bits kept in the entry) and
    [SkewedAssociative]. Entries are pointers into the tag store's block
    array, so they are array indices. *)

From S2P Require Import Prelude BaseUtil.
Local Open Scope Z_scope.

(** ** The base class *)
Module Indexing.

(** [sets] are the locations; [None] is a pointer [setEntry] has not set. *)
Record t := mk {
  assoc : Z;
  numSets : Z;
  setShift : Z;
  setMask : Z;
  sets : list (list (option nat));
  tagShift : Z
}.

(** Constructor. The members are initialised before the checks run, so a zero
    capacity divides by zero and zero sets fail inside [floorLog2]. *)
Definition make (size entry_size assoc : Z) : res t :=
  let row := u32 (entry_size * assoc) in
  if row =? 0 then Err Undefined else
  let numSets := u32 (size / row) in
  let* setShift := IntMath.floorLog2 4 entry_size in
  let* setBits := IntMath.floorLog2 4 numSets in
  fatal_if! negb (IntMath.isPowerOf2 numSets) in
  fatal_if! (assoc <=? 0) in
  Ok (mk assoc numSets setShift (u32 (numSets - 1))
        (replicate (Z.to_nat numSets) (replicate (Z.to_nat assoc) None))
        (setShift + setBits)).

(** [sets[set][way]] *)
Definition getEntry (set way : Z) (p : t) : option (option nat) :=
  sets p !! Z.to_nat set ≫= fun row => row !! Z.to_nat way.

(** [setEntry]: the location gets the pointer; the result also carries the
    position [entry->setPosition] stores in the entry. *)
Definition setEntry (entry : nat) (index : Z) (p : t) : res (t * (Z * Z)) :=
  let set := u32 (index / assoc p) in
  let way := u32 (index mod assoc p) in
  assert! (set <? numSets p) in
  match sets p !! Z.to_nat set with
  | None => Err Undefined
  | Some row =>
      Ok (mk (assoc p) (numSets p) (setShift p) (setMask p)
            (<[Z.to_nat set := <[Z.to_nat way := Some entry]> row]> (sets p)) (tagShift p),
          (set, way))
  end.

(** The [setEntry] calls of a tag store's [tagsInit]: entry [i] gets index
    [i]. The positions are returned in entry order. *)
Fixpoint link_from (i n : nat) (p : t) : res (t * list (Z * Z)) :=
  match n with
  | O => Ok (p, [])
  | S n' =>
      let* (p, pos) := setEntry i (Z.of_nat i) p in
      let* (p, ps) := link_from (S i) n' p in
      Ok (p, pos :: ps)
  end.

Definition extractTag (p : t) (addr : Z) : Z := Z.shiftr addr (tagShift p).

Definition extractIndex (p : t) (addr : Z) : Z := 0.

(** Every caller dereferences the pointers it gets: a null one is undefined
    behaviour. *)
Fixpoint deref_all (l : list (option nat)) : res (list nat) :=
  match l with
  | [] => Ok []
  | None :: _ => Err Undefined
  | Some e :: l' => let* es := deref_all l' in Ok (e :: es)
  end.

(** The layout after every entry [i] has been given index [i]. *)
Definition full_row (assoc : nat) (set : nat) : list (option nat) :=
  Some <$> seq (set * assoc) assoc.

Record wf (p : t) : Prop := {
  wf_assoc : 0 < assoc p < 2 ^ 31;
  wf_setBits : 0 <= tagShift p - setShift p;
  wf_setShift : 0 <= setShift p;
  wf_word : tagShift p <= 32;
  wf_numSets : numSets p = 2 ^ (tagShift p - setShift p);
  wf_setMask : setMask p = numSets p - 1;
  wf_sets : sets p = full_row (Z.to_nat (assoc p)) <$> seq 0 (Z.to_nat (numSets p))
}.

Lemma deref_all_full n k : deref_all (Some <$> seq n k) = Ok (seq n k).
Proof. revert n. induction k as [|k IH]; intros n; simpl; [done|]. by rewrite IH. Qed.

Lemma wf_lookup_row p s :
  wf p -> 0 <= s < numSets p ->
  sets p !! Z.to_nat s = Some (full_row (Z.to_nat (assoc p)) (Z.to_nat s)).
Proof.
  intros Hwf Hs. rewrite (wf_sets p Hwf), list_lookup_fmap, lookup_seq_lt by lia. done.
Qed.

End Indexing.

(** ** What a tag store asks of an indexing policy *)

Class IndexingPolicy (I : Type) := {
  ip_setEntry : nat -> Z -> I -> res (I * (Z * Z));
  ip_extractTag : I -> Z -> Z;
  ip_extractIndex : I -> Z -> Z;
  ip_getPossibleEntries : I -> Z -> res (list nat);
  ip_regenerateAddr : I -> Z -> Z * Z -> res Z;       (* from the entry's position *)
  ip_regenerateAddr_bits : I -> Z -> Z -> res Z       (* from stored index bits *)
}.

(** What a tag store relies on: [n] entries, [align] the block of an
    address. An entry that two addresses may both live in tells them apart by
    tag and index bits, down to their block. *)
Class IndexingPolicyOk (I : Type) `{IndexingPolicy I} := {
  ip_wf : I -> nat -> Prop;
  ip_shift : I -> Z;
  ip_entries_ok p n a : ip_wf p n -> in_word 64 a ->
    exists es, ip_getPossibleEntries p a = Ok es /\ es <> [] /\ NoDup es /\
      Forall (fun e => (e < n)%nat) es;
  ip_same_block p n a a' e es es' : ip_wf p n -> in_word 64 a -> in_word 64 a' ->
    ip_getPossibleEntries p a = Ok es -> ip_getPossibleEntries p a' = Ok es' ->
    e ∈ es -> e ∈ es' -> ip_extractTag p a = ip_extractTag p a' ->
    ip_extractIndex p a = ip_extractIndex p a' ->
    a / 2 ^ ip_shift p = a' / 2 ^ ip_shift p;
  ip_block_only p n a a' : ip_wf p n -> in_word 64 a -> in_word 64 a' ->
    a / 2 ^ ip_shift p = a' / 2 ^ ip_shift p ->
    ip_getPossibleEntries p a = ip_getPossibleEntries p a' /\
    ip_extractTag p a = ip_extractTag p a' /\ ip_extractIndex p a = ip_extractIndex p a'
}.

(** ** Set associative *)
Module SetAssociative.
Import Indexing.

Definition extractSet (p : t) (addr : Z) : Z :=
  u32 (Z.land (Z.shiftr addr (setShift p)) (setMask p)).

(** The set is a [uint32_t], so it is shifted in 32 bits. *)
Definition regenerateAddr (p : t) (tag : Z) (pos : Z * Z) : res Z :=
  Ok (Z.lor (u64 (Z.shiftl tag (tagShift p))) (u32 (Z.shiftl pos.1 (setShift p)))).

Definition regenerateAddr_bits (p : t) (tag index_bits : Z) : res Z := Err Panic.

Definition getPossibleEntries (p : t) (addr : Z) : res (list nat) :=
  match sets p !! Z.to_nat (extractSet p addr) with
  | Some row => deref_all row
  | None => Err Undefined
  end.

#[global] Instance set_associative : IndexingPolicy t := {|
  ip_setEntry := Indexing.setEntry;
  ip_extractTag := Indexing.extractTag;
  ip_extractIndex := Indexing.extractIndex;
  ip_getPossibleEntries := getPossibleEntries;
  ip_regenerateAddr := regenerateAddr;
  ip_regenerateAddr_bits := regenerateAddr_bits
|}.

End SetAssociative.

(** ** The RaS index: one set *)
Module NewRandIdx.

Record t := mk { base : Indexing.t; nbits : Z; indexMask : Z }.

(** [1 << k] on [int] overflows from 31 bits on. *)
Definition make (size entry_size assoc nbits : Z) : res t :=
  let* b := Indexing.make size entry_size assoc in
  let* lines := IntMath.floorLog2 8 (size / entry_size) in
  if 31 <=? lines + nbits then Err Undefined else
  fatal_if! negb (Indexing.numSets b =? 1) in
  Ok (mk b nbits (Z.shiftl 1 (lines + nbits) - 1)).

Definition extractSet (p : t) (addr : Z) : res Z := Err Panic.

Definition extractTag (p : t) (addr : Z) : Z :=
  Z.shiftr addr (Indexing.tagShift (base p) + nbits p).

Definition extractIndex (p : t) (addr : Z) : Z :=
  Z.land (Z.shiftr addr (Indexing.setShift (base p))) (indexMask p).

Definition regenerateAddr_bits (p : t) (tag index_bits : Z) : res Z :=
  Ok (Z.lor (u64 (Z.shiftl tag (Indexing.tagShift (base p) + nbits p)))
            (u64 (Z.shiftl index_bits (Indexing.setShift (base p))))).

Definition regenerateAddr (p : t) (tag : Z) (pos : Z * Z) : res Z := Err Panic.

Definition getPossibleEntries (p : t) (addr : Z) : res (list nat) :=
  match Indexing.sets (base p) !! 0%nat with
  | Some row => Indexing.deref_all row
  | None => Err Undefined
  end.

#[global] Instance new_rand_idx : IndexingPolicy t := {|
  ip_setEntry e i p := let* (b, pos) := Indexing.setEntry e i (base p) in Ok (mk b (nbits p) (indexMask p), pos);
  ip_extractTag := extractTag;
  ip_extractIndex := extractIndex;
  ip_getPossibleEntries := getPossibleEntries;
  ip_regenerateAddr := regenerateAddr;
  ip_regenerateAddr_bits := regenerateAddr_bits
|}.

End NewRandIdx.

(** ** Skewed associative *)
Module SkewedAssociative.
Import Indexing.

Definition NUM_SKEWING_FUNCTIONS : Z := 8.

Record t := mk { base : Indexing.t; msbShift : Z }.

Definition make (size entry_size assoc : Z) : res t :=
  let* b := Indexing.make size entry_size assoc in
  let* setBits := IntMath.floorLog2 4 (numSets b) in
  let msbShift := setBits - 1 in
  panic_if! (64 <? setShift b + 2 * (msbShift + 1)) in
  fatal_if! (numSets b <=? 2) in
  Ok (mk b msbShift).

Section skew.
Variable ms : Z.   (* msbShift *)

Definition hash (addr : Z) : res Z :=
  let* lsb := Bitfield.bit addr 0 in
  let* msb := Bitfield.bit addr ms in
  let xor_bit := Z.lxor msb lsb in
  Bitfield.insertBits (Z.shiftr addr 1) ms ms xor_bit.

Definition dehash (addr : Z) : res Z :=
  let* msb := Bitfield.bit addr (ms - 1) in
  let* xor_bit := Bitfield.bit addr ms in
  let lsb := Z.lxor msb xor_bit in
  let addr_no_msb := Bitfield.mbits addr (ms - 1) 0 in
  Bitfield.insertBits (u64 (Z.shiftl addr_no_msb 1)) 0 0 lsb.

(** [for (i = 0; i < n; i++) x = f(x)] *)
Fixpoint repeatM (f : Z -> res Z) (n : nat) (x : Z) : res Z :=
  match n with O => Ok x | S n' => let* y := f x in repeatM f n' y end.

(** [f(a1) ^ g(a2) ^ z] *)
Definition mix (f g : Z -> res Z) (a1 a2 z : Z) : res Z :=
  let* x := f a1 in
  let* y := g a2 in
  Ok (Z.lxor (Z.lxor x y) z).

Definition skew (addr way : Z) : res Z :=
  let* addr1 := Bitfield.bits addr ms 0 in
  let* addr2 := Bitfield.bits addr (2 * (ms + 1) - 1) (ms + 1) in
  let* addr1 :=
    match way mod NUM_SKEWING_FUNCTIONS with
    | 0 => mix hash hash addr1 addr2 addr2
    | 1 => mix hash hash addr1 addr2 addr1
    | 2 => mix hash dehash addr1 addr2 addr2
    | 3 => mix hash dehash addr1 addr2 addr1
    | 4 => mix dehash hash addr1 addr2 addr2
    | 5 => mix dehash hash addr1 addr2 addr1
    | 6 => mix dehash dehash addr1 addr2 addr2
    | 7 => mix dehash dehash addr1 addr2 addr1
    | _ => Err Panic
    end in
  repeatM hash (Z.to_nat (way / NUM_SKEWING_FUNCTIONS)) addr1.

Definition deskew (addr way : Z) : res Z :=
  let* addr1 := Bitfield.bits addr ms 0 in
  let* addr2 := Bitfield.bits addr (2 * (ms + 1) - 1) (ms + 1) in
  let* addr1 :=
    if NUM_SKEWING_FUNCTIONS <=? way
    then repeatM dehash (Z.to_nat (way / NUM_SKEWING_FUNCTIONS)) addr1
    else Ok addr1 in
  match way mod 8 with
  | 0 => let* y := hash addr2 in dehash (Z.lxor (Z.lxor addr1 y) addr2)
  | 1 => let* y := hash addr2 in repeatM hash (Z.to_nat ms) (Z.lxor addr1 y)
  | 2 => let* y := dehash addr2 in dehash (Z.lxor (Z.lxor addr1 y) addr2)
  | 3 => let* y := dehash addr2 in repeatM hash (Z.to_nat ms) (Z.lxor addr1 y)
  | 4 => let* y := hash addr2 in hash (Z.lxor (Z.lxor addr1 y) addr2)
  | 5 => let* y := hash addr2 in repeatM hash (Z.to_nat (ms + 1)) (Z.lxor addr1 y)
  | 6 => let* y := dehash addr2 in hash (Z.lxor (Z.lxor addr1 y) addr2)
  | 7 => let* y := dehash addr2 in repeatM hash (Z.to_nat (ms + 1)) (Z.lxor addr1 y)
  | _ => Err Panic
  end.
End skew.

Definition extractSet (p : t) (addr way : Z) : res Z :=
  let* s := skew (msbShift p) (Z.shiftr addr (setShift (base p))) way in
  Ok (u32 (Z.land s (setMask (base p)))).

Definition regenerateAddr (p : t) (tag : Z) (pos : Z * Z) : res Z :=
  let addr_set := Z.lor (u64 (Z.shiftl tag (msbShift p + 1))) pos.1 in
  let* d := deskew (msbShift p) addr_set pos.2 in
  Ok (Z.lor (u64 (Z.shiftl tag (tagShift (base p))))
            (u64 (Z.shiftl (Z.land d (setMask (base p))) (setShift (base p))))).

Definition regenerateAddr_bits (p : t) (tag index_bits : Z) : res Z := Err Panic.

(** One entry per way, each from the set its own skewing function selects. *)
Fixpoint entries_from (p : t) (addr : Z) (way : nat) (n : nat) : res (list nat) :=
  match n with
  | O => Ok []
  | S n' =>
      let* set := extractSet p addr (Z.of_nat way) in
      match getEntry set (Z.of_nat way) (base p) with
      | Some (Some e) => let* es := entries_from p addr (S way) n' in Ok (e :: es)
      | _ => Err Undefined
      end
  end.

Definition getPossibleEntries (p : t) (addr : Z) : res (list nat) :=
  entries_from p addr 0 (Z.to_nat (assoc (base p))).

#[global] Instance skewed_associative : IndexingPolicy t := {|
  ip_setEntry e i p := let* (b, pos) := Indexing.setEntry e i (base p) in Ok (mk b (msbShift p), pos);
  ip_extractTag := fun p => Indexing.extractTag (base p);
  ip_extractIndex := fun p => Indexing.extractIndex (base p);
  ip_getPossibleEntries := getPossibleEntries;
  ip_regenerateAddr := regenerateAddr;
  ip_regenerateAddr_bits := regenerateAddr_bits
|}.

End SkewedAssociative.
