(* ===== verification/IndexingFacts.v ===== *)
(** * Indexing policies: an address survives the trip through its entry

    For the three policies, rebuilding the address of an entry from the tag
    (and position or index bits) an address was filed under gives back that
    address, aligned to its block. For the skewed policy this is the fact that
    its hash is a linear feedback shift register, whose steps can be undone by
    running it forward. *)

From S2P Require Import Prelude BaseUtil Indexing.
Local Open Scope Z_scope.

(** ** The skewing hash as a shift register *)
Module SkewFacts.
Import SkewedAssociative.

Section register.
Variable ms : Z.
Hypothesis Hms : 1 <= ms < 32.

Definition nb (x : Z) : Prop := in_word (ms + 1) x.

(** The register step and its inverse, bit by bit. *)
Definition H_bit (x i : Z) : bool :=
  if i =? ms then xorb (Z.testbit x ms) (Z.testbit x 0) else Z.testbit x (i + 1).
Definition D_bit (x i : Z) : bool :=
  if i =? 0 then xorb (Z.testbit x (ms - 1)) (Z.testbit x ms)
  else if i <=? ms then Z.testbit x (i - 1) else false.

Lemma nb_high x i : nb x -> ms < i -> Z.testbit x i = false.
Proof.
  intros Hx Hi. rewrite <- (Z.mod_small x (2 ^ (ms + 1))) by apply Hx.
  apply Z.mod_pow2_bits_high. lia.
Qed.

Lemma nb_of_bits x : 0 <= x -> (forall i, ms < i -> Z.testbit x i = false) -> nb x.
Proof.
  intros Hx Hb. replace x with (x mod 2 ^ (ms + 1)); [apply uwrap_range; lia|].
  apply Z.bits_inj'. intros n Hn. destruct (decide (n < ms + 1)).
  - by rewrite Z.mod_pow2_bits_low by lia.
  - rewrite Z.mod_pow2_bits_high by lia. symmetry. apply Hb. lia.
Qed.

Lemma nb_word x : nb x -> in_word 64 x.
Proof.
  intros [? ?]. split; [done|]. apply Z.lt_le_trans with (2 ^ (ms + 1)); [done|].
  apply Z.pow_le_mono_r; lia.
Qed.

Lemma nb_lxor x y : nb x -> nb y -> nb (Z.lxor x y).
Proof.
  intros Hx Hy. apply nb_of_bits.
  - apply Z.lxor_nonneg. split; intros; [apply Hy|apply Hx].
  - intros i Hi. by rewrite Z.lxor_spec, !nb_high.
Qed.

Lemma xor_b2z a b : Z.lxor (Z.b2z a) (Z.b2z b) = Z.b2z (xorb a b).
Proof. by destruct a, b. Qed.

Lemma hash_spec x :
  nb x -> exists y, hash ms x = Ok y /\ nb y /\ forall i, 0 <= i -> Z.testbit y i = H_bit x i.
Proof.
  intros Hx. unfold hash. rewrite !Bitfield.bit_spec by lia. cbn [rbind].
  rewrite xor_b2z.
  destruct (Bitfield.insertBits_bit (Z.shiftr x 1) ms
      (xorb (Z.testbit x ms) (Z.testbit x 0))) as (y & -> & Hy & Hb); [lia| |].
  { apply nb_word in Hx as [? ?]. rewrite Z.shiftr_div_pow2 by lia. change (2 ^ 1) with 2.
    split; [apply Z.div_pos; lia|]. apply Z.div_lt_upper_bound; lia. }
  assert (Hbits : forall i, 0 <= i -> Z.testbit y i = H_bit x i).
  { intros i Hi. rewrite Hb by done. unfold H_bit. destruct (i =? ms); [done|].
    by rewrite Z.shiftr_spec by done. }
  exists y. split; [done|]. split; [|done].
  apply nb_of_bits; [done|]. intros i Hi. rewrite Hbits by lia. unfold H_bit.
  rewrite (proj2 (Z.eqb_neq i ms)) by lia. apply nb_high; [done|lia].
Qed.

Lemma dehash_spec x :
  nb x -> exists y, dehash ms x = Ok y /\ nb y /\ forall i, 0 <= i -> Z.testbit y i = D_bit x i.
Proof.
  intros Hx. unfold dehash. rewrite !Bitfield.bit_spec by lia. cbn [rbind].
  rewrite xor_b2z.
  set (v := u64 (Z.shiftl (Bitfield.mbits x (ms - 1) 0) 1)).
  assert (Hv : forall i, 0 <= i -> Z.testbit v i = (1 <=? i) && (i <=? ms) && Z.testbit x (i - 1)).
  { intros i Hi. unfold v, uwrap. destruct (decide (i < 64)).
    - rewrite Z.mod_pow2_bits_low by lia. destruct (Z.leb_spec 1 i).
      + rewrite Z.shiftl_spec, Bitfield.mbits_testbit by lia.
        destruct (Z.leb_spec 0 (i - 1)), (Z.leb_spec (i - 1) (ms - 1)), (Z.leb_spec i ms); try lia;
          destruct (Z.testbit x (i - 1)); done.
      + by rewrite Z.shiftl_spec_low by lia.
    - rewrite Z.mod_pow2_bits_high by lia. destruct (Z.leb_spec i ms); [lia|].
      by rewrite andb_false_r. }
  destruct (Bitfield.insertBits_bit v 0 (xorb (Z.testbit x (ms - 1)) (Z.testbit x ms)))
    as (y & -> & Hy & Hb); [lia|by apply uwrap_range|].
  assert (Hbits : forall i, 0 <= i -> Z.testbit y i = D_bit x i).
  { intros i Hi. rewrite Hb by done. unfold D_bit. destruct (Z.eqb_spec i 0); [done|].
    rewrite Hv by done. destruct (Z.leb_spec 1 i), (Z.leb_spec i ms); done || lia. }
  exists y. split; [done|]. split; [|done].
  apply nb_of_bits; [done|]. intros i Hi. rewrite Hbits by lia. unfold D_bit.
  rewrite (proj2 (Z.eqb_neq i 0)), (proj2 (Z.leb_gt i ms)) by lia. done.
Qed.

(** The register as total functions. *)
Definition H (x : Z) : Z := match hash ms x with Ok y => y | Err _ => 0 end.
Definition D (x : Z) : Z := match dehash ms x with Ok y => y | Err _ => 0 end.

Lemma hash_H x : nb x -> hash ms x = Ok (H x) /\ nb (H x) /\
  forall i, 0 <= i -> Z.testbit (H x) i = H_bit x i.
Proof. intros Hx. unfold H. destruct (hash_spec x Hx) as (y & -> & ? & ?). done. Qed.

Lemma dehash_D x : nb x -> dehash ms x = Ok (D x) /\ nb (D x) /\
  forall i, 0 <= i -> Z.testbit (D x) i = D_bit x i.
Proof. intros Hx. unfold D. destruct (dehash_spec x Hx) as (y & -> & ? & ?). done. Qed.

Lemma nb_H x : nb x -> nb (H x).
Proof. intros. by apply hash_H. Qed.
Lemma nb_D x : nb x -> nb (D x).
Proof. intros. by apply dehash_D. Qed.

Lemma D_H x : nb x -> D (H x) = x.
Proof.
  intros Hx. apply Z.bits_inj'. intros i Hi.
  destruct (hash_H x Hx) as (_ & HH & HbH).
  destruct (dehash_D (H x) HH) as (_ & _ & ->); [|done]. unfold D_bit.
  destruct (Z.eqb_spec i 0) as [->|].
  - rewrite !HbH by lia. unfold H_bit. rewrite (proj2 (Z.eqb_neq (ms - 1) ms)), Z.eqb_refl by lia.
    replace (ms - 1 + 1) with ms by lia. by destruct (Z.testbit x ms), (Z.testbit x 0).
  - destruct (Z.leb_spec i ms).
    + rewrite HbH by lia. unfold H_bit. rewrite (proj2 (Z.eqb_neq (i - 1) ms)) by lia.
      f_equal. lia.
    + symmetry. by apply nb_high.
Qed.

Lemma H_D x : nb x -> H (D x) = x.
Proof.
  intros Hx. apply Z.bits_inj'. intros i Hi.
  destruct (dehash_D x Hx) as (_ & HD & HbD).
  destruct (hash_H (D x) HD) as (_ & _ & ->); [|done]. unfold H_bit.
  destruct (Z.eqb_spec i ms) as [->|].
  - rewrite !HbD by lia. unfold D_bit. rewrite Z.eqb_refl, (proj2 (Z.eqb_neq ms 0)),
      (proj2 (Z.leb_le ms ms)) by lia.
    by destruct (Z.testbit x ms), (Z.testbit x (ms - 1)).
  - rewrite HbD by lia. unfold D_bit. rewrite (proj2 (Z.eqb_neq (i + 1) 0)) by lia.
    destruct (Z.leb_spec (i + 1) ms); [f_equal; lia|]. symmetry. apply nb_high; [done|lia].
Qed.

Lemma H_lxor x y : nb x -> nb y -> H (Z.lxor x y) = Z.lxor (H x) (H y).
Proof.
  intros Hx Hy. apply Z.bits_inj'. intros i Hi.
  destruct (hash_H _ (nb_lxor x y Hx Hy)) as (_ & _ & ->); [|done].
  rewrite Z.lxor_spec. destruct (hash_H x Hx) as (_ & _ & ->); [|done].
  destruct (hash_H y Hy) as (_ & _ & ->); [|done]. unfold H_bit. rewrite !Z.lxor_spec.
  destruct (i =? ms); [|done].
  by destruct (Z.testbit x ms), (Z.testbit x 0), (Z.testbit y ms), (Z.testbit y 0).
Qed.

(** *** Runs *)
Lemma nb_iter (f : Z -> Z) n x : (forall x, nb x -> nb (f x)) -> nb x -> nb (Nat.iter n f x).
Proof. intros Hf Hx. induction n; simpl; auto. Qed.

Lemma repeatM_iter g f n x :
  (forall x, nb x -> g x = Ok (f x) /\ nb (f x)) -> nb x ->
  repeatM g n x = Ok (Nat.iter n f x).
Proof.
  intros Hg. revert x. induction n as [|n IH]; intros x Hx; [done|].
  cbn [repeatM]. destruct (Hg x Hx) as [-> Hf]. cbn [rbind]. rewrite IH by done.
  by rewrite Nat.iter_succ_r.
Qed.

Lemma repeatM_hash n x : nb x -> repeatM (hash ms) n x = Ok (Nat.iter n H x).
Proof. apply repeatM_iter. intros y Hy. by destruct (hash_H y Hy) as (? & ? & _). Qed.
Lemma repeatM_dehash n x : nb x -> repeatM (dehash ms) n x = Ok (Nat.iter n D x).
Proof. apply repeatM_iter. intros y Hy. by destruct (dehash_D y Hy) as (? & ? & _). Qed.

Lemma iter_D_H n x : nb x -> Nat.iter n D (Nat.iter n H x) = x.
Proof.
  intros Hx. induction n as [|n IH]; [done|]. rewrite Nat.iter_succ_r, Nat.iter_succ.
  rewrite D_H; [done|]. by apply nb_iter; [apply nb_H|].
Qed.

Lemma iter_H_lxor n x y : nb x -> nb y ->
  Nat.iter n H (Z.lxor x y) = Z.lxor (Nat.iter n H x) (Nat.iter n H y).
Proof.
  intros Hx Hy. induction n as [|n IH]; [done|]. rewrite !Nat.iter_succ.
  rewrite IH. apply H_lxor; apply nb_iter; auto using nb_H.
Qed.

(** After [k] steps the low bits of the register are its old bits [k..]. *)
Lemma iter_H_low k x i :
  nb x -> 0 <= i -> Z.of_nat k + i <= ms -> Z.testbit (Nat.iter k H x) i = Z.testbit x (Z.of_nat k + i).
Proof.
  intros Hx. revert i. induction k as [|k IH]; intros i Hi Hle; [done|].
  rewrite !Nat.iter_succ.
  destruct (hash_H (Nat.iter k H x)) as (_ & _ & ->); [by apply nb_iter; [apply nb_H|]| |done].
  unfold H_bit. rewrite (proj2 (Z.eqb_neq i ms)) by lia. rewrite IH by lia. f_equal. lia.
Qed.

(** The feedback recurrence: [H^(ms+1) + H^ms] is the identity. *)
Lemma iter_H_recurrence x :
  nb x ->
  Z.lxor (Nat.iter (Z.to_nat (ms + 1)) H x) (Nat.iter (Z.to_nat ms) H x) = x.
Proof.
  intros Hx.
  assert (Hn : forall k, nb (Nat.iter k H x)) by (intros; by apply nb_iter; [apply nb_H|]).
  apply Z.bits_inj'. intros i Hi. rewrite Z.lxor_spec. destruct (decide (ms < i)).
  { by rewrite !nb_high. }
  replace (Z.to_nat (ms + 1)) with (Z.to_nat (ms - i) + S (Z.to_nat i))%nat by lia.
  replace (Z.to_nat ms) with (Z.to_nat (ms - i) + Z.to_nat i)%nat by lia.
  rewrite !Nat.iter_add.
  rewrite (iter_H_low _ (Nat.iter (S _) H x)), (iter_H_low _ (Nat.iter (Z.to_nat i) H x)) by (done || lia).
  replace (Z.of_nat (Z.to_nat (ms - i)) + i) with ms by lia.
  rewrite Nat.iter_succ. destruct (hash_H _ (Hn (Z.to_nat i))) as (_ & _ & ->); [|lia].
  unfold H_bit. rewrite Z.eqb_refl, (iter_H_low _ _ 0) by (done || lia).
  replace (Z.of_nat (Z.to_nat i) + 0) with i by lia.
  by destruct (Z.testbit _ ms), (Z.testbit x i).
Qed.

(** So running the register forward [ms] steps undoes [x ^ hash x], and one
    more step undoes [x ^ dehash x]. *)
Lemma undo_hash_xor x : nb x -> Nat.iter (Z.to_nat ms) H (Z.lxor (H x) x) = x.
Proof.
  intros Hx. rewrite iter_H_lxor by auto using nb_H. rewrite <- Nat.iter_succ_r.
  replace (S (Z.to_nat ms)) with (Z.to_nat (ms + 1)) by lia. by apply iter_H_recurrence.
Qed.

Lemma undo_dehash_xor x : nb x -> Nat.iter (Z.to_nat (ms + 1)) H (Z.lxor (D x) x) = x.
Proof.
  intros Hx. replace (Z.to_nat (ms + 1)) with (S (Z.to_nat ms)) by lia.
  rewrite Nat.iter_succ_r, H_lxor, H_D by auto using nb_D.
  rewrite Z.lxor_comm. by apply undo_hash_xor.
Qed.

(** *** [deskew] undoes [skew] *)

Lemma lxor_cancel3 a b c : Z.lxor (Z.lxor (Z.lxor (Z.lxor a b) c) b) c = a.
Proof.
  apply Z.bits_inj'. intros i _. rewrite !Z.lxor_spec.
  by destruct (Z.testbit a i), (Z.testbit b i), (Z.testbit c i).
Qed.
Lemma lxor_cancel2 a b c : Z.lxor (Z.lxor (Z.lxor a b) c) b = Z.lxor a c.
Proof.
  apply Z.bits_inj'. intros i _. rewrite !Z.lxor_spec.
  by destruct (Z.testbit a i), (Z.testbit b i), (Z.testbit c i).
Qed.

Lemma mix_ok f F g G a1 a2 z :
  (forall x, nb x -> f x = Ok (F x) /\ nb (F x)) -> (forall x, nb x -> g x = Ok (G x) /\ nb (G x)) ->
  nb a1 -> nb a2 -> nb z ->
  mix f g a1 a2 z = Ok (Z.lxor (Z.lxor (F a1) (G a2)) z) /\
  nb (Z.lxor (Z.lxor (F a1) (G a2)) z).
Proof.
  intros Hf Hg H1 H2 Hz. unfold mix. destruct (Hf a1 H1) as [-> ?], (Hg a2 H2) as [-> ?].
  split; [done|]. auto using nb_lxor.
Qed.

Lemma hash_Hok x : nb x -> hash ms x = Ok (H x) /\ nb (H x).
Proof. intros Hx. by destruct (hash_H x Hx) as (? & ? & _). Qed.
Lemma dehash_Dok x : nb x -> dehash ms x = Ok (D x) /\ nb (D x).
Proof. intros Hx. by destruct (dehash_D x Hx) as (? & ? & _). Qed.

(** The skewing functions and their inverses, way by way. *)
Lemma skew_ways (w a1 a2 : Z) :
  0 <= w < 8 -> nb a1 -> nb a2 ->
  exists m, nb m /\
    match w with
    | 0 => mix (hash ms) (hash ms) a1 a2 a2 | 1 => mix (hash ms) (hash ms) a1 a2 a1
    | 2 => mix (hash ms) (dehash ms) a1 a2 a2 | 3 => mix (hash ms) (dehash ms) a1 a2 a1
    | 4 => mix (dehash ms) (hash ms) a1 a2 a2 | 5 => mix (dehash ms) (hash ms) a1 a2 a1
    | 6 => mix (dehash ms) (dehash ms) a1 a2 a2 | 7 => mix (dehash ms) (dehash ms) a1 a2 a1
    | _ => Err Panic
    end = Ok m /\
    match w with
    | 0 => let* y := hash ms a2 in dehash ms (Z.lxor (Z.lxor m y) a2)
    | 1 => let* y := hash ms a2 in repeatM (hash ms) (Z.to_nat ms) (Z.lxor m y)
    | 2 => let* y := dehash ms a2 in dehash ms (Z.lxor (Z.lxor m y) a2)
    | 3 => let* y := dehash ms a2 in repeatM (hash ms) (Z.to_nat ms) (Z.lxor m y)
    | 4 => let* y := hash ms a2 in hash ms (Z.lxor (Z.lxor m y) a2)
    | 5 => let* y := hash ms a2 in repeatM (hash ms) (Z.to_nat (ms + 1)) (Z.lxor m y)
    | 6 => let* y := dehash ms a2 in hash ms (Z.lxor (Z.lxor m y) a2)
    | 7 => let* y := dehash ms a2 in repeatM (hash ms) (Z.to_nat (ms + 1)) (Z.lxor m y)
    | _ => Err Panic
    end = Ok a1.
Proof.
  intros Hw H1 H2.
  destruct (hash_Hok a2 H2) as [Eh Hh], (dehash_Dok a2 H2) as [Ed Hd].
  assert (Hc : w = 0 \/ w = 1 \/ w = 2 \/ w = 3 \/ w = 4 \/ w = 5 \/ w = 6 \/ w = 7) by lia.
  assert (Hshift : forall x, nb x -> nb (Z.lxor (H x) x) /\ nb (Z.lxor (D x) x))
    by (intros; split; auto using nb_lxor, nb_H, nb_D).
  destruct (Hshift a1 H1) as [Hs1 Hs2].
  repeat match type of Hc with _ \/ _ => destruct Hc as [->|Hc] | _ = _ => subst w end.
  all: match goal with |- exists m, _ /\ mix ?f ?g ?x ?y ?z = _ /\ _ =>
    let go Hf Hg := (destruct (mix_ok f _ g _ x y z Hf Hg) as [Em Hm]; [assumption..|];
      eexists; split; [exact Hm|]; split; [exact Em|]) in
    first [go hash_Hok hash_Hok | go hash_Hok dehash_Dok
          | go dehash_Dok hash_Hok | go dehash_Dok dehash_Dok] end.
  all: rewrite ?Eh, ?Ed; cbn [rbind]; rewrite ?lxor_cancel3, ?lxor_cancel2, ?repeatM_hash by done.
  all: first
    [ by rewrite undo_hash_xor
    | by rewrite undo_dehash_xor
    | destruct (dehash_Dok (H a1) (nb_H a1 H1)) as [-> _]; by rewrite D_H
    | destruct (hash_Hok (D a1) (nb_D a1 H1)) as [-> _]; by rewrite H_D ].
Qed.

Lemma skew_deskew addr way :
  0 <= way ->
  exists s, skew ms addr way = Ok s /\ nb s /\
    forall addr', addr' mod 2 ^ (ms + 1) = s ->
      (addr' / 2 ^ (ms + 1)) mod 2 ^ (ms + 1) = (addr / 2 ^ (ms + 1)) mod 2 ^ (ms + 1) ->
      deskew ms addr' way = Ok (addr mod 2 ^ (ms + 1)).
Proof.
  intros Hway. unfold skew, deskew.
  assert (Hb : forall a, Bitfield.bits a ms 0 = Ok (a mod 2 ^ (ms + 1)) /\
    Bitfield.bits a (2 * (ms + 1) - 1) (ms + 1) = Ok ((a / 2 ^ (ms + 1)) mod 2 ^ (ms + 1))).
  { intros a. rewrite !Bitfield.bits_spec by lia. rewrite Z.pow_0_r, Z.div_1_r.
    split; do 2 f_equal; f_equal; lia. }
  destruct (Hb addr) as [-> ->]. cbn [rbind].
  set (a1 := addr mod _). set (a2 := (addr / _) mod _).
  assert (H1 : nb a1) by (apply uwrap_range; lia).
  assert (H2 : nb a2) by (apply uwrap_range; lia).
  destruct (skew_ways (way mod 8) a1 a2) as (m & Hm & Hsk & Hde); [|done|done|].
  { apply Z.mod_pos_bound. lia. }
  change NUM_SKEWING_FUNCTIONS with 8. rewrite Hsk. cbn [rbind].
  rewrite repeatM_hash by done.
  set (s := Nat.iter (Z.to_nat (way / 8)) H m).
  assert (Hs : nb s) by (apply nb_iter; [apply nb_H|done]).
  exists s. split; [done|]. split; [done|]. intros addr' E1 E2.
  destruct (Hb addr') as [-> ->]. cbn [rbind]. rewrite E1, E2.
  assert (Hun : (if 8 <=? way then repeatM (dehash ms) (Z.to_nat (way / 8)) s else Ok s) = Ok m).
  { destruct (Z.leb_spec 8 way).
    - rewrite repeatM_dehash by done. unfold s. by rewrite iter_D_H.
    - unfold s. by rewrite Z.div_small by lia. }
  rewrite Hun. cbn [rbind]. exact Hde.
Qed.
End register.
End SkewFacts.

(** ** Construction: [tagsInit] fills every location *)
Module Linking.
Import Indexing.

(** The locations once the first [k] entries are linked. *)
Definition cell (A k s w : nat) : option nat :=
  if (s * A + w <? k)%nat then Some (s * A + w)%nat else None.
Definition table (A N k : nat) : list (list (option nat)) :=
  (fun s => cell A k s <$> seq 0 A) <$> seq 0 N.

Lemma table_lookup A N k s :
  (s < N)%nat -> table A N k !! s = Some (cell A k s <$> seq 0 A).
Proof. intros. unfold table. by rewrite list_lookup_fmap, lookup_seq_lt by done. Qed.

Lemma fmap_seq_const {X} (f : nat -> X) c n : (forall w, (w < n)%nat -> f w = c) ->
  f <$> seq 0 n = replicate n c.
Proof.
  intros Hf. apply list_eq. intros i. rewrite list_lookup_fmap.
  destruct (decide (i < n)%nat).
  - rewrite lookup_seq_lt, lookup_replicate_2 by done. simpl. by rewrite Hf.
  - rewrite lookup_seq_ge by lia. symmetry. apply lookup_ge_None. rewrite length_replicate. lia.
Qed.

Lemma table_0 A N : table A N 0 = replicate N (replicate A None).
Proof. apply fmap_seq_const. intros s _. apply fmap_seq_const. done. Qed.

Lemma table_full A N : table A N (N * A) = full_row A <$> seq 0 N.
Proof.
  unfold table. apply list_fmap_ext. intros i s Hs. apply lookup_seq in Hs as [-> Hs].
  unfold full_row. apply list_eq. intros w. rewrite !list_lookup_fmap.
  destruct (decide (w < A)%nat).
  - rewrite !lookup_seq_lt by done. simpl. f_equal. unfold cell.
    rewrite (proj2 (Nat.ltb_lt _ _)) by nia. done.
  - by rewrite !lookup_seq_ge by lia.
Qed.

(** Linking entry [k] is one more cell of the table. *)
Lemma table_step A N k :
  (k < N * A)%nat ->
  <[(k / A)%nat := <[(k mod A)%nat := Some k]> (cell A k (k / A) <$> seq 0 A)]> (table A N k) =
  table A N (S k).
Proof.
  intros Hk. assert (HA : A <> O) by lia.
  pose proof (Nat.div_mod_eq k A) as Hdm. pose proof (Nat.mod_upper_bound k A HA) as Hm.
  assert (Hs : (k / A < N)%nat) by (apply Nat.Div0.div_lt_upper_bound; lia).
  assert (Hcell : forall s w, (w < A)%nat -> (s, w) <> (k / A, k mod A)%nat ->
    cell A k s w = cell A (S k) s w).
  { intros s w Hw Hne. unfold cell.
    destruct (Nat.ltb_spec (s * A + w) k), (Nat.ltb_spec (s * A + w) (S k)); try done; [lia|].
    exfalso. apply Hne. assert (E : k = (w + s * A)%nat) by lia. rewrite E.
    rewrite Nat.div_add, Nat.Div0.mod_add, Nat.div_small, Nat.mod_small by lia. done. }
  apply list_eq. intros s. destruct (decide (s < N)%nat).
  2: { rewrite !lookup_ge_None_2; [done|..];
       rewrite ?length_insert; unfold table; rewrite length_fmap, length_seq; lia. }
  rewrite (table_lookup _ _ (S k)) by done.
  destruct (decide (s = k / A)%nat) as [->|Hne].
  - rewrite list_lookup_insert_eq by (unfold table; by rewrite length_fmap, length_seq).
    f_equal. apply list_eq. intros w. rewrite list_lookup_fmap.
    destruct (decide (w < A)%nat).
    2: { rewrite lookup_ge_None_2, lookup_seq_ge; [done|lia|].
         rewrite length_insert, length_fmap, length_seq. lia. }
    rewrite lookup_seq_lt by done. simpl. destruct (decide (w = k mod A)%nat) as [->|Hw].
    + rewrite list_lookup_insert_eq by (rewrite length_fmap, length_seq; lia).
      f_equal. unfold cell. rewrite (proj2 (Nat.ltb_lt _ _)) by lia. f_equal. lia.
    + rewrite list_lookup_insert_ne, list_lookup_fmap, lookup_seq_lt by done. simpl.
      f_equal. apply Hcell; congruence || done.
  - rewrite list_lookup_insert_ne, table_lookup by done. f_equal.
    apply list_fmap_ext. intros i w Hw. apply lookup_seq in Hw as [-> Hw].
    apply Hcell; congruence || lia.
Qed.

Definition with_sets (p : t) (ss : list (list (option nat))) : t :=
  mk (assoc p) (numSets p) (setShift p) (setMask p) ss (tagShift p).

Lemma link_from_table (p : t) (A N : nat) :
  assoc p = Z.of_nat A -> numSets p = Z.of_nat N -> Z.of_nat (N * A) <= 2 ^ 31 ->
  forall n k, (k + n = N * A)%nat ->
  exists pos, link_from k n (with_sets p (table A N k)) =
    Ok (with_sets p (table A N (N * A)), pos) /\ length pos = n /\
    forall i, (i < n)%nat -> pos !! i = Some (Z.of_nat ((k + i) / A), Z.of_nat ((k + i) mod A)).
Proof.
  intros HA HN Hlim. induction n as [|n IH]; intros k Hk.
  { exists []. rewrite <- Hk, Nat.add_0_r. split_and!; [done|done|lia]. }
  assert (HA0 : A <> O) by lia. cbn [link_from]. unfold setEntry, with_sets. cbn [assoc numSets setShift setMask sets tagShift].
  rewrite HA. assert (HkZ : Z.of_nat k < 2 ^ 31) by lia.
  assert (Hs : (k / A < N)%nat) by (apply Nat.Div0.div_lt_upper_bound; lia).
  pose proof (Nat.mod_upper_bound k A HA0). assert (k / A <= k)%nat by (apply Nat.Div0.div_le_upper_bound; nia).
  rewrite <- Nat2Z.inj_div, <- Nat2Z.inj_mod.
  rewrite !uwrap_small by (split; [lia|]; apply Z.lt_le_trans with (2 ^ 31); [nia|done]).
  rewrite HN, (proj2 (Z.ltb_lt _ _)) by lia. rewrite !Nat2Z.id, table_lookup by done.
  cbn [rbind]. rewrite table_step by lia.
  destruct (IH (S k) ltac:(lia)) as (pos & Hpos & Hlen & Hnth).
  fold (with_sets p (table A N (S k))) in *.
  eexists. rewrite <- HA, <- HN. unfold with_sets in Hpos |- *. cbn [setShift setMask tagShift] in *.
  rewrite Hpos. cbn [rbind]. split; [done|]. split; [simpl; lia|].
  intros [|i] Hi; simpl; [by rewrite Nat.add_0_r|].
  rewrite Hnth by lia. do 3 f_equal; lia || (f_equal; lia).
Qed.

(** Construction. For a power-of-two line size and number of sets, with
    at most 4 GiB per way and 2^31 lines, the constructor succeeds, and after
    [tagsInit] has linked every line the locations form the full table: set
    [s], way [w] holds line [s * assoc + w], whose position is [(s, w)]. *)
Theorem construction_wf (sh n assoc : Z) :
  0 <= sh < 31 -> 0 <= n < 32 -> sh + n <= 32 -> 0 < assoc < 2 ^ 31 -> 2 ^ sh * assoc < 2 ^ 32 ->
  2 ^ n * assoc <= 2 ^ 31 ->
  exists p p' pos, make (2 ^ sh * assoc * 2 ^ n) (2 ^ sh) assoc = Ok p /\
    link_from 0 (Z.to_nat (2 ^ n * assoc)) p = Ok (p', pos) /\ wf p' /\
    setShift p' = sh /\ numSets p' = 2 ^ n /\
    forall i, 0 <= i < 2 ^ n * assoc -> pos !! Z.to_nat i = Some (i / assoc, i mod assoc).
Proof.
  intros Hsh Hn Hsn Ha Hrow Hlines. pose proof (pow2_pos sh). pose proof (pow2_pos n).
  assert (H4 : 4 ∈ [1; 2; 4; 8]) by set_solver.
  assert (Hsh32 : in_word 32 (2 ^ sh)) by (apply IntMath.pow2_in_word; lia).
  assert (Hn32 : in_word 32 (2 ^ n)) by (apply IntMath.pow2_in_word; lia).
  unfold make. rewrite (uwrap_small 32 (_ * assoc)) by (split; nia).
  rewrite (proj2 (Z.eqb_neq _ _)) by nia.
  rewrite (Z.mul_comm _ (2 ^ n)), Z.div_mul by nia. rewrite (uwrap_small 32 (2 ^ n)) by done.
  unfold in_word in *. change (2 ^ 32) with (2 ^ (8 * 4)) in *.
  rewrite !IntMath.floorLog2_correct by (done || lia). cbn [rbind].
  rewrite !Z.log2_pow2, IntMath.isPowerOf2_pow2 by lia. cbn [negb].
  rewrite (proj2 (Z.leb_gt _ _)) by lia.
  rewrite <- (table_0 (Z.to_nat assoc) (Z.to_nat (2 ^ n))).
  set (p := mk _ _ _ _ _ _).
  assert (Hlines' : (Z.to_nat (2 ^ n) * Z.to_nat assoc)%nat = Z.to_nat (2 ^ n * assoc)) by nia.
  destruct (link_from_table p (Z.to_nat assoc) (Z.to_nat (2 ^ n)) ltac:(simpl; lia) ltac:(simpl; lia)
    ltac:(lia) (Z.to_nat (2 ^ n * assoc)) 0 ltac:(lia)) as (pos & Hpos & _ & Hnth).
  exists p, (with_sets p (full_row (Z.to_nat assoc) <$> seq 0 (Z.to_nat (2 ^ n)))), pos.
  split; [done|]. rewrite <- table_full. split; [exact Hpos|]. split; [|split; [done|split; [done|]]].
  - constructor; cbn [with_sets p Indexing.assoc setShift tagShift numSets setMask sets].
    + lia.
    + lia.
    + lia.
    + lia.
    + f_equal; lia.
    + apply uwrap_small. change (2 ^ 32) with (2 ^ (8 * 4)). unfold in_word. lia.
    + apply table_full.
  - intros i Hi. rewrite Hnth by lia. rewrite Nat.add_0_l, Nat2Z.inj_div, Nat2Z.inj_mod.
    by rewrite !Z2Nat.id by lia.
Qed.

Lemma construction_wf_witness :
  exists p p' pos, make 512 64 2 = Ok p /\ link_from 0 8 p = Ok (p', pos) /\ wf p' /\
    setShift p' = 6 /\ numSets p' = 4 /\
    forall i, 0 <= i < 8 -> pos !! Z.to_nat i = Some (i / 2, i mod 2).
Proof. apply (construction_wf 6 2 2); vm_compute; split || idtac; done. Defined.

End Linking.

(** ** Round trips *)
Module RoundTrip.
Import Indexing.

(** [addr] with its block offset cleared. *)
Definition align (setShift addr : Z) : Z := addr - addr mod 2 ^ setShift.

Section parts.
Variables (sh n a : Z).
Hypotheses (Hsh : 0 <= sh) (Hn : 0 <= n) (Hw : sh + n <= 64) (Ha : in_word 64 a).

Lemma tag_word : 0 <= a / 2 ^ (sh + n) < 2 ^ (64 - (sh + n)).
Proof.
  destruct Ha. split; [apply Z.div_pos; [lia|apply pow2_pos; lia]|].
  apply Z.div_lt_upper_bound; [apply pow2_pos; lia|]. rewrite <- Z.pow_add_r by lia.
  by replace (sh + n + (64 - (sh + n))) with 64 by lia.
Qed.

(** Tag and set fields put side by side give the aligned address. *)
Lemma join_fields :
  Z.lor (u64 (Z.shiftl (a / 2 ^ (sh + n)) (sh + n))) ((a / 2 ^ sh) mod 2 ^ n * 2 ^ sh) =
  align sh a.
Proof.
  pose proof tag_word as Ht. rewrite uwrap_shiftl by lia. rewrite Z.mod_small by done.
  assert (Hset : 0 <= (a / 2 ^ sh) mod 2 ^ n < 2 ^ n)
    by (apply Z.mod_pos_bound, pow2_pos; lia).
  rewrite lor_add_low; [|lia|].
  - unfold align. rewrite align_down_div by lia.
    rewrite (split_pow2 n (a / 2 ^ sh)) at 2 by lia.
    rewrite Z.div_div by (pose proof (pow2_pos sh); pose proof (pow2_pos n); lia).
    rewrite !Z.pow_add_r by lia. ring.
  - rewrite Z.pow_add_r by lia. pose proof (pow2_pos sh). nia.
Qed.
End parts.

(** Tag and set give back the block. *)
Lemma sa_regenerate (p : t) (a way : Z) :
  wf p -> in_word 64 a ->
  SetAssociative.regenerateAddr p (extractTag p a) (SetAssociative.extractSet p a, way) =
  Ok (align (setShift p) a).
Proof.
  intros [Hassoc Hsb Hss Hword Hns Hmask _] Ha.
  unfold SetAssociative.regenerateAddr, SetAssociative.extractSet, extractTag. cbn [fst].
  rewrite Hmask, Hns, land_ones_mod, !Z.shiftr_div_pow2 by lia.
  set (n := tagShift p - setShift p) in *.
  assert (Hset : 0 <= (a / 2 ^ setShift p) mod 2 ^ n < 2 ^ n)
    by (apply Z.mod_pos_bound, pow2_pos; lia).
  assert (Hpow : 2 ^ n * 2 ^ setShift p <= 2 ^ 32)
    by (rewrite <- Z.pow_add_r by lia; apply Z.pow_le_mono_r; lia).
  pose proof (pow2_pos (setShift p)).
  rewrite (uwrap_small 32 (_ mod _)) by (split; nia).
  rewrite (uwrap_small 32) by (rewrite Z.shiftl_mul_pow2 by lia; split; nia).
  rewrite (Z.shiftl_mul_pow2 (_ mod _)) by lia.
  replace (tagShift p) with (setShift p + n) by lia. f_equal.
  apply join_fields; [lia..|done].
Qed.

(** The parameters [SkewedAssociative]'s constructor accepts. *)
Record skew_wf (p : SkewedAssociative.t) : Prop := {
  sk_base : wf (SkewedAssociative.base p);
  sk_msb : SkewedAssociative.msbShift p + 1 =
    tagShift (SkewedAssociative.base p) - setShift (SkewedAssociative.base p);
  sk_two : 1 <= SkewedAssociative.msbShift p
}.

Lemma skew_extractSet p a way :
  skew_wf p -> 0 <= way ->
  exists s, SkewedAssociative.extractSet p a way = Ok s /\
    SkewedAssociative.skew (SkewedAssociative.msbShift p)
      (a / 2 ^ setShift (SkewedAssociative.base p)) way = Ok s /\
    0 <= s < numSets (SkewedAssociative.base p).
Proof.
  intros [Hb Hmsb Htwo] Hway. destruct Hb as [_ Hsb Hss Hword Hns Hmask _].
  unfold SkewedAssociative.extractSet. rewrite Z.shiftr_div_pow2 by lia.
  destruct (SkewFacts.skew_deskew (SkewedAssociative.msbShift p) ltac:(lia)
    (a / 2 ^ setShift (SkewedAssociative.base p)) way Hway) as (s & -> & [Hs0 Hs1] & _).
  cbn [rbind]. rewrite Hmsb in Hs1. rewrite Hmask, Hns, land_ones_mod by lia.
  exists s. rewrite Z.mod_small by lia. rewrite uwrap_small; [done|].
  split; [done|]. apply Z.lt_le_trans with (1 := Hs1). apply Z.pow_le_mono_r; lia.
Qed.

Lemma sk_regenerate (p : SkewedAssociative.t) (a way : Z) :
  skew_wf p -> in_word 64 a -> 0 <= way ->
  exists set, SkewedAssociative.extractSet p a way = Ok set /\
    0 <= set < numSets (SkewedAssociative.base p) /\
    SkewedAssociative.regenerateAddr p (extractTag (SkewedAssociative.base p) a) (set, way) =
    Ok (align (setShift (SkewedAssociative.base p)) a).
Proof.
  intros Hwf Ha Hway.
  destruct (skew_extractSet p a way Hwf Hway) as (s & Hs & Hskew & Hrange).
  exists s. split; [done|]. split; [done|].
  destruct Hwf as [[_ Hsb Hss Hword Hns Hmask _] Hmsb Htwo].
  set (b := SkewedAssociative.base p) in *. set (ms := SkewedAssociative.msbShift p) in *.
  destruct (SkewFacts.skew_deskew ms ltac:(lia) (a / 2 ^ setShift b) way Hway)
    as (s' & Hs' & Hnb & Hde).
  rewrite Hskew in Hs'. injection Hs' as <-.
  unfold SkewedAssociative.regenerateAddr, extractTag. fold b ms. cbn [fst snd].
  rewrite Z.shiftr_div_pow2 by lia. set (n := tagShift b - setShift b) in *.
  set (T := (a / 2 ^ tagShift b) mod 2 ^ (64 - (ms + 1))).
  rewrite (uwrap_shiftl 64 _ (ms + 1)) by lia. fold T.
  rewrite lor_add_low by (rewrite ?Hmsb; lia).
  rewrite Hde.
  - cbn [rbind]. f_equal. rewrite Hmask, Hns, land_ones_mod, Hmsb by lia.
    rewrite Zmod_mod, (uwrap_shiftl 64 _ (setShift b)) by lia.
    rewrite (Z.mod_small (_ mod 2 ^ n)).
    + replace (tagShift b) with (setShift b + n) by lia. apply join_fields; lia || done.
    + assert (2 ^ n <= 2 ^ (64 - setShift b)) by (apply Z.pow_le_mono_r; lia).
      pose proof (Z.mod_pos_bound (a / 2 ^ setShift b) (2 ^ n) ltac:(apply pow2_pos; lia)). lia.
  - apply mod_pow2_mul_add; [lia|]. rewrite Hmsb. lia.
  - rewrite div_pow2_mul_add by (rewrite ?Hmsb; lia).
    pose proof (pow2_pos (setShift b) Hss). pose proof (pow2_pos (ms + 1) ltac:(lia)).
    rewrite Z.div_div by lia.
    rewrite <- Z.pow_add_r by lia. replace (setShift b + (ms + 1)) with (tagShift b) by lia.
    unfold T. rewrite <- Znumtheory.Zmod_div_mod; [done|..]; try (apply pow2_pos; lia).
    exists (2 ^ (64 - (ms + 1) - (ms + 1))). rewrite <- Z.pow_add_r by lia. f_equal. lia.
Qed.

(** The parameters [NewRandIdx]'s constructor accepts, [lb] being the log of
    the number of lines. *)
Record rand_wf (p : NewRandIdx.t) : Prop := {
  nr_base : wf (NewRandIdx.base p);
  nr_one : numSets (NewRandIdx.base p) = 1;
  nr_nbits : 0 <= NewRandIdx.nbits p;
  nr_mask : exists lb, 0 <= lb /\ lb + NewRandIdx.nbits p < 31 /\
    NewRandIdx.indexMask p = 2 ^ (lb + NewRandIdx.nbits p) - 1
}.

(** Tag and index bits overlap; together they cover the block address. *)
Lemma nr_regenerate (p : NewRandIdx.t) (a : Z) :
  rand_wf p -> in_word 64 a ->
  NewRandIdx.regenerateAddr_bits p (NewRandIdx.extractTag p a) (NewRandIdx.extractIndex p a) =
  Ok (align (setShift (NewRandIdx.base p)) a).
Proof.
  intros [[_ Hsb Hss Hword Hns Hmask _] Hone Hnb (lb & Hlb & Hlim & Him)] Ha.
  unfold NewRandIdx.regenerateAddr_bits, NewRandIdx.extractTag, NewRandIdx.extractIndex.
  set (b := NewRandIdx.base p) in *. set (k := NewRandIdx.nbits p) in *.
  assert (Hts : tagShift b = setShift b).
  { destruct (decide (tagShift b - setShift b = 0)); [lia|].
    rewrite Hone in Hns. pose proof (Z.pow_gt_1 2 (tagShift b - setShift b)). lia. }
  rewrite Him, Hts. f_equal. unfold align. apply Z.bits_inj'. intros i Hi.
  replace (a - a mod 2 ^ setShift b) with (Z.shiftl (Z.shiftr a (setShift b)) (setShift b))
    by (rewrite Z.shiftl_mul_pow2, Z.shiftr_div_pow2 by lia; rewrite align_down_div by lia; ring).
  rewrite Z.lor_spec. unfold uwrap. destruct (decide (i < 64)).
  - rewrite !Z.mod_pow2_bits_low, !Z.shiftl_spec by lia.
    destruct (decide (i < setShift b)).
    { rewrite !(Z.testbit_neg_r _ (i - _)) by lia. done. }
    replace (2 ^ (lb + k) - 1) with (Z.ones (lb + k)) by (rewrite Z.ones_equiv; lia).
    rewrite Z.land_spec, !(Z.shiftr_spec a (setShift b)), Bitfield.ones_testbit by lia.
    replace (i - setShift b + setShift b) with i by lia.
    destruct (decide (i < setShift b + k)).
    + rewrite (Z.testbit_neg_r _ (i - (setShift b + k))) by lia.
      rewrite (proj2 (Z.ltb_lt _ _)) by lia. by rewrite andb_true_r.
    + rewrite Z.shiftr_spec by lia.
      replace (i - (setShift b + k) + (setShift b + k)) with i by lia.
      by destruct (Z.testbit a i).
  - rewrite !Z.mod_pow2_bits_high, Z.shiftl_spec, Z.shiftr_spec by lia.
    replace (i - setShift b + setShift b) with i by lia.
    rewrite <- (Z.mod_small a (2 ^ 64)) by done. by rewrite Z.mod_pow2_bits_high by lia.
Qed.

End RoundTrip.

(** ** The policies keep their promise to the tag store *)
Module PolicyOk.
Import Indexing RoundTrip.

Lemma align_block sh a a' : 0 <= sh -> align sh a = align sh a' -> a / 2 ^ sh = a' / 2 ^ sh.
Proof.
  intros Hsh. unfold align. rewrite !align_down_div by done. intros E.
  pose proof (pow2_pos sh Hsh). nia.
Qed.

(** A field above bit [sh] depends on the block only. *)
Lemma shiftr_block sh k a : 0 <= sh -> sh <= k -> Z.shiftr a k = (a / 2 ^ sh) / 2 ^ (k - sh).
Proof.
  intros Hsh Hk. rewrite Z.shiftr_div_pow2 by lia.
  rewrite Z.div_div by (pose proof (pow2_pos sh); pose proof (pow2_pos (k - sh)); lia).
  rewrite <- Z.pow_add_r by lia. do 2 f_equal. lia.
Qed.

Lemma seq_ok k n : (0 < k)%nat -> seq n k <> [] /\ NoDup (seq n k).
Proof. intros Hk. split; [destruct k; [lia|done]|apply NoDup_seq]. Qed.

(** *** Set associative *)
Definition sa_wf (p : t) (n : nat) : Prop :=
  wf p /\ n = Z.to_nat (numSets p * assoc p).

Lemma sa_extractSet p a :
  wf p -> SetAssociative.extractSet p a = (a / 2 ^ setShift p) mod numSets p /\
  0 <= SetAssociative.extractSet p a < numSets p.
Proof.
  intros [_ Hsb Hss Hword Hns Hmask _].
  unfold SetAssociative.extractSet. rewrite Hmask, Hns, land_ones_mod, Z.shiftr_div_pow2 by lia.
  assert (Hb : 0 <= (a / 2 ^ setShift p) mod 2 ^ (tagShift p - setShift p) < 2 ^ (tagShift p - setShift p))
    by (apply Z.mod_pos_bound, pow2_pos; lia).
  rewrite uwrap_small; [done|]. split; [lia|].
  apply Z.lt_le_trans with (2 ^ (tagShift p - setShift p)); [lia|apply Z.pow_le_mono_r; lia].
Qed.

Lemma sa_entries p a :
  wf p -> SetAssociative.getPossibleEntries p a =
    Ok (seq (Z.to_nat (SetAssociative.extractSet p a) * Z.to_nat (assoc p)) (Z.to_nat (assoc p))).
Proof.
  intros Hwf. destruct (sa_extractSet p a Hwf) as [_ Hr].
  unfold SetAssociative.getPossibleEntries. rewrite wf_lookup_row by done.
  apply deref_all_full.
Qed.

#[global] Program Instance set_associative_ok : IndexingPolicyOk t :=
  {| ip_wf := sa_wf; ip_shift := setShift |}.
Next Obligation.
  intros p n a [Hwf ->] Ha. destruct (sa_extractSet p a Hwf) as [_ Hr].
  eexists. split; [by apply sa_entries|].
  pose proof (wf_assoc p Hwf). destruct (seq_ok (Z.to_nat (assoc p))
    (Z.to_nat (SetAssociative.extractSet p a) * Z.to_nat (assoc p))) as [Hne Hnd]; [lia|].
  split; [done|]. split; [done|]. apply Forall_forall. intros e He. apply elem_of_seq in He. nia.
Qed.
Next Obligation.
  intros p n a a' e es es' [Hwf ->] Ha Ha' Hes Hes' He He' Htag _. simpl in *.
  rewrite sa_entries in Hes, Hes' by done. simplify_res. apply elem_of_seq in He, He'.
  pose proof (wf_assoc p Hwf). pose proof (wf_setShift p Hwf).
  destruct (sa_extractSet p a Hwf) as [_ ?]. destruct (sa_extractSet p a' Hwf) as [_ ?].
  assert (Hset : SetAssociative.extractSet p a = SetAssociative.extractSet p a') by nia.
  apply align_block; [done|].
  pose proof (sa_regenerate p a 0 Hwf Ha) as E1. pose proof (sa_regenerate p a' 0 Hwf Ha') as E2.
  rewrite Htag, Hset, E2 in E1. by simplify_res.
Qed.
Next Obligation.
  intros p n a a' [Hwf ->] Ha Ha' Hb. simpl in *. rewrite !sa_entries by done.
  destruct (sa_extractSet p a Hwf) as [-> _]. destruct (sa_extractSet p a' Hwf) as [-> _].
  rewrite Hb. split; [done|]. split; [|done]. unfold extractTag.
  destruct Hwf as [_ Hsb Hss _ _ _ _]. rewrite !(shiftr_block (setShift p)) by lia. by rewrite Hb.
Qed.

(** *** Skewed associative *)
Import SkewedAssociative.

Definition sk_wf (p : SkewedAssociative.t) (n : nat) : Prop :=
  skew_wf p /\ n = Z.to_nat (numSets (base p) * assoc (base p)).

Lemma getEntry_full p s w :
  wf p -> 0 <= s < numSets p -> 0 <= w < assoc p ->
  getEntry s w p = Some (Some (Z.to_nat s * Z.to_nat (assoc p) + Z.to_nat w)%nat).
Proof.
  intros Hwf Hs Hw. unfold getEntry. rewrite wf_lookup_row by done. simpl.
  unfold full_row. rewrite list_lookup_fmap, lookup_seq_lt by lia. done.
Qed.

(** The entry way [w] contributes. *)
Definition sk_entry (p : SkewedAssociative.t) (a : Z) (w : nat) : nat :=
  match extractSet p a (Z.of_nat w) with
  | Ok s => (Z.to_nat s * Z.to_nat (assoc (base p)) + w)%nat
  | Err _ => O
  end.

Lemma sk_entries_from p a k : forall w, skew_wf p -> (w + k <= Z.to_nat (assoc (base p)))%nat ->
  entries_from p a w k = Ok (sk_entry p a <$> seq w k).
Proof.
  induction k as [|k IH]; intros w Hwf Hk; [done|]. cbn [entries_from seq fmap list_fmap].
  destruct (skew_extractSet p a (Z.of_nat w) Hwf ltac:(lia)) as (s & Hs & _ & Hr).
  rewrite Hs. cbn [rbind]. rewrite getEntry_full by (apply Hwf || lia).
  rewrite IH by (done || lia). cbn [rbind]. unfold sk_entry at 2. rewrite Hs, Nat2Z.id. done.
Qed.

Lemma sk_entry_spec p a w :
  skew_wf p -> (w < Z.to_nat (assoc (base p)))%nat ->
  exists s, extractSet p a (Z.of_nat w) = Ok s /\ 0 <= s < numSets (base p) /\
    Z.of_nat (sk_entry p a w) / assoc (base p) = s /\
    Z.of_nat (sk_entry p a w) mod assoc (base p) = Z.of_nat w.
Proof.
  intros Hwf Hw. destruct (skew_extractSet p a (Z.of_nat w) Hwf ltac:(lia)) as (s & Hs & _ & Hr).
  exists s. split; [done|]. split; [done|]. unfold sk_entry. rewrite Hs.
  assert (E : Z.of_nat (Z.to_nat s * Z.to_nat (assoc (base p)) + w) = Z.of_nat w + s * assoc (base p)) by nia.
  rewrite E, Z.div_add, Z.mod_add by lia.
  rewrite Z.div_small, Z.mod_small by lia. lia.
Qed.

Lemma sk_entries p a :
  skew_wf p -> getPossibleEntries p a = Ok (sk_entry p a <$> seq 0 (Z.to_nat (assoc (base p)))).
Proof. intros Hwf. by apply sk_entries_from. Qed.

#[global] Program Instance skewed_associative_ok : IndexingPolicyOk SkewedAssociative.t :=
  {| ip_wf := sk_wf; ip_shift p := setShift (base p) |}.
Next Obligation.
  intros p n a [Hwf ->] Ha. pose proof (wf_assoc _ (sk_base p Hwf)).
  eexists. split; [by apply sk_entries|]. split; [|split].
  - destruct (Z.to_nat (assoc (base p))) eqn:E; [lia|done].
  - apply NoDup_fmap_2_strong; [|apply NoDup_seq].
    intros x y Hx Hy E. apply elem_of_seq in Hx, Hy.
    destruct (sk_entry_spec p a x Hwf ltac:(lia)) as (s & _ & _ & _ & Hmx).
    destruct (sk_entry_spec p a y Hwf ltac:(lia)) as (s' & _ & _ & _ & Hmy).
    rewrite E in Hmx. lia.
  - apply Forall_forall. intros e He. apply list_elem_of_fmap in He as (w & -> & Hw).
    apply elem_of_seq in Hw.
    destruct (sk_entry_spec p a w Hwf ltac:(lia)) as (s & _ & Hs & Hd & Hm).
    pose proof (Z.div_mod (Z.of_nat (sk_entry p a w)) (assoc (base p)) ltac:(lia)). nia.
Qed.
Next Obligation.
  intros p n a a' e es es' [Hwf ->] Ha Ha' Hes Hes' He He' Htag _. simpl in *.
  rewrite sk_entries in Hes, Hes' by done. simplify_res.
  apply list_elem_of_fmap in He as (w & -> & Hw), He' as (w' & E & Hw').
  apply elem_of_seq in Hw, Hw'.
  destruct (sk_entry_spec p a w Hwf ltac:(lia)) as (s & Hs & _ & Hd & Hm).
  destruct (sk_entry_spec p a' w' Hwf ltac:(lia)) as (s' & Hs' & _ & Hd' & Hm').
  rewrite E in Hd, Hm. assert (w = w') as -> by lia. assert (s = s') as -> by congruence.
  destruct (sk_regenerate p a (Z.of_nat w') Hwf Ha ltac:(lia)) as (z & Hz & _ & Hr).
  destruct (sk_regenerate p a' (Z.of_nat w') Hwf Ha' ltac:(lia)) as (z' & Hz' & _ & Hr').
  apply align_block; [apply (wf_setShift _ (sk_base p Hwf))|].
  rewrite Hs in Hz. rewrite Hs' in Hz'. simplify_res. rewrite Htag in Hr. congruence.
Qed.
Next Obligation.
  intros p n a a' [Hwf ->] Ha Ha' Hb. simpl in *. rewrite !sk_entries by done.
  destruct (sk_base p Hwf) as [_ Hsb Hss Hword _ _ _].
  split; [|split; [|done]].
  - f_equal. apply list_fmap_ext. intros _ w _. unfold sk_entry, extractSet.
    by rewrite !Z.shiftr_div_pow2, Hb by lia.
  - unfold Indexing.extractTag. rewrite !(shiftr_block (setShift (base p))) by lia. by rewrite Hb.
Qed.

(** *** RaS *)
Definition nr_wf (p : NewRandIdx.t) (n : nat) : Prop :=
  rand_wf p /\ n = Z.to_nat (assoc (NewRandIdx.base p)).

Lemma nr_entries p a :
  rand_wf p -> NewRandIdx.getPossibleEntries p a = Ok (seq 0 (Z.to_nat (assoc (NewRandIdx.base p)))).
Proof.
  intros [Hwf Hone _ _]. unfold NewRandIdx.getPossibleEntries.
  rewrite (wf_lookup_row _ 0) by (done || lia). apply deref_all_full.
Qed.

Lemma nr_tagShift p : rand_wf p -> tagShift (NewRandIdx.base p) = setShift (NewRandIdx.base p).
Proof.
  intros [[_ Hsb Hss Hword Hns _ _] Hone _ _]. rewrite Hone in Hns.
  destruct (decide (tagShift (NewRandIdx.base p) - setShift (NewRandIdx.base p) = 0)); [lia|].
  pose proof (Z.pow_gt_1 2 (tagShift (NewRandIdx.base p) - setShift (NewRandIdx.base p))). lia.
Qed.

#[global] Program Instance new_rand_ok : IndexingPolicyOk NewRandIdx.t :=
  {| ip_wf := nr_wf; ip_shift p := setShift (NewRandIdx.base p) |}.
Next Obligation.
  intros p n a [Hwf ->] Ha. pose proof (wf_assoc _ (nr_base p Hwf)).
  eexists. split; [by apply nr_entries|].
  destruct (seq_ok (Z.to_nat (assoc (NewRandIdx.base p))) 0) as [Hne Hnd]; [lia|].
  split; [done|]. split; [done|]. apply Forall_forall. intros e He. apply elem_of_seq in He. lia.
Qed.
Next Obligation.
  intros p n a a' e es es' [Hwf ->] Ha Ha' _ _ _ _ Htag Hidx. simpl in *.
  apply align_block; [apply (wf_setShift _ (nr_base p Hwf))|].
  pose proof (nr_regenerate p a Hwf Ha) as E. rewrite Htag, Hidx in E.
  rewrite (nr_regenerate p a' Hwf Ha') in E. congruence.
Qed.
Next Obligation.
  intros p n a a' [Hwf ->] Ha Ha' Hb. simpl in *. rewrite !nr_entries by done.
  pose proof (nr_tagShift p Hwf). pose proof (nr_nbits p Hwf).
  pose proof (wf_setShift _ (nr_base p Hwf)).
  split; [done|]. unfold NewRandIdx.extractTag, NewRandIdx.extractIndex.
  rewrite !(shiftr_block (setShift (NewRandIdx.base p))) by lia. by rewrite Hb.
Qed.

(** ** The address of an entry *)

(** Set-associative indexing: every address has candidate entries, all
    distinct, and its block address is rebuilt from the tag it is filed under
    and the position (set, way) of whichever candidate it is stored in. *)
Theorem set_associative_roundtrip (p : Indexing.t) (a : Z) :
  wf p -> in_word 64 a ->
  exists es, SetAssociative.getPossibleEntries p a = Ok es /\ length es = Z.to_nat (assoc p) /\
    NoDup es /\
    forall e, e ∈ es ->
      SetAssociative.regenerateAddr p (Indexing.extractTag p a)
        (Z.of_nat e / assoc p, Z.of_nat e mod assoc p) = Ok (align (setShift p) a).
Proof.
  intros Hwf Ha. eexists. split; [by apply sa_entries|]. split; [apply length_seq|].
  split; [apply NoDup_seq|]. intros e He. apply elem_of_seq in He.
  pose proof (wf_assoc p Hwf). destruct (sa_extractSet p a Hwf) as [_ Hr].
  replace (Z.of_nat e / assoc p) with (SetAssociative.extractSet p a).
  - by apply sa_regenerate.
  - apply Z.div_unique with (Z.of_nat e - assoc p * SetAssociative.extractSet p a); lia || nia.
Qed.

Lemma set_associative_roundtrip_witness :
  exists es, SetAssociative.getPossibleEntries (Indexing.mk 2 4 6 3 (full_row 2 <$> seq 0 4) 8) 0x12345 = Ok es /\
    length es = 2%nat /\ NoDup es /\
    forall e, e ∈ es ->
      SetAssociative.regenerateAddr (Indexing.mk 2 4 6 3 (full_row 2 <$> seq 0 4) 8)
        (Indexing.extractTag (Indexing.mk 2 4 6 3 (full_row 2 <$> seq 0 4) 8) 0x12345)
        (Z.of_nat e / 2, Z.of_nat e mod 2) = Ok 0x12340.
Proof.
  apply (set_associative_roundtrip (Indexing.mk 2 4 6 3 (full_row 2 <$> seq 0 4) 8) 0x12345).
  - constructor; simpl; done || lia.
  - done.
Defined.

(** C32. Skewed-associative indexing: way [w] looks in the set its own hash of
    the set and tag bits selects, different ways give different entries, and
    still the block address is rebuilt from tag and position for every
    candidate. *)
Theorem skewed_associative_roundtrip (p : SkewedAssociative.t) (a : Z) :
  skew_wf p -> in_word 64 a ->
  exists es, getPossibleEntries p a = Ok es /\ length es = Z.to_nat (assoc (base p)) /\
    NoDup es /\
    forall e, e ∈ es ->
      SkewedAssociative.regenerateAddr p (Indexing.extractTag (base p) a)
        (Z.of_nat e / assoc (base p), Z.of_nat e mod assoc (base p)) =
      Ok (align (setShift (base p)) a).
Proof.
  intros Hwf Ha.
  destruct (ip_entries_ok p (Z.to_nat (numSets (base p) * assoc (base p))) a) as (es & Hes & _ & Hnd & _);
    [by split|done|].
  pose proof Hes as Hes'. simpl in Hes'. rewrite sk_entries in Hes' by done.
  injection Hes' as <-. eexists. split; [by apply sk_entries|].
  split; [by rewrite length_fmap, length_seq|]. split; [done|].
  intros e He. apply list_elem_of_fmap in He as (w & -> & Hw). apply elem_of_seq in Hw.
  destruct (sk_entry_spec p a w Hwf ltac:(lia)) as (s & Hs & _ & -> & ->).
  destruct (sk_regenerate p a (Z.of_nat w) Hwf Ha ltac:(lia)) as (z & Hz & _ & Hr).
  rewrite Hs in Hz. injection Hz as <-. done.
Qed.

Definition example_skewed : SkewedAssociative.t :=
  SkewedAssociative.mk (Indexing.mk 9 4 6 3 (full_row 9 <$> seq 0 4) 8) 1.

Lemma skewed_associative_roundtrip_witness :
  exists es, getPossibleEntries example_skewed 0x12345 = Ok es /\ length es = 9%nat /\ NoDup es /\
    forall e, e ∈ es ->
      SkewedAssociative.regenerateAddr example_skewed (Indexing.extractTag (base example_skewed) 0x12345)
        (Z.of_nat e / 9, Z.of_nat e mod 9) = Ok 0x12340.
Proof.
  apply (skewed_associative_roundtrip example_skewed 0x12345).
  - constructor; [constructor|..]; simpl; done || lia.
  - done.
Defined.

(** C31. RaS indexing: all lines are candidates of every address, and the
    block address is rebuilt from the tag and the index bits the line stores
    (the two fields overlap, and together cover the address), so two addresses
    with equal tag and index bits are in the same block. *)
Theorem new_rand_roundtrip (p : NewRandIdx.t) (a a' : Z) :
  rand_wf p -> in_word 64 a -> in_word 64 a' ->
  NewRandIdx.getPossibleEntries p a = Ok (seq 0 (Z.to_nat (assoc (NewRandIdx.base p)))) /\
  NewRandIdx.regenerateAddr_bits p (NewRandIdx.extractTag p a) (NewRandIdx.extractIndex p a) =
    Ok (align (setShift (NewRandIdx.base p)) a) /\
  (NewRandIdx.extractTag p a = NewRandIdx.extractTag p a' ->
   NewRandIdx.extractIndex p a = NewRandIdx.extractIndex p a' ->
   align (setShift (NewRandIdx.base p)) a = align (setShift (NewRandIdx.base p)) a').
Proof.
  intros Hwf Ha Ha'. split; [by apply nr_entries|]. split; [by apply nr_regenerate|].
  intros Ht Hi. pose proof (nr_regenerate p a Hwf Ha) as E. rewrite Ht, Hi in E.
  rewrite (nr_regenerate p a' Hwf Ha') in E. congruence.
Qed.

Definition example_rand : NewRandIdx.t :=
  NewRandIdx.mk (Indexing.mk 4 1 6 0 [full_row 4 0] 6) 4 63.

Lemma new_rand_roundtrip_witness :
  NewRandIdx.getPossibleEntries example_rand 0x12345 = Ok [0; 1; 2; 3]%nat /\
  NewRandIdx.regenerateAddr_bits example_rand (NewRandIdx.extractTag example_rand 0x12345)
    (NewRandIdx.extractIndex example_rand 0x12345) = Ok 0x12340 /\
  (NewRandIdx.extractTag example_rand 0x12345 = NewRandIdx.extractTag example_rand 0x12350 ->
   NewRandIdx.extractIndex example_rand 0x12345 = NewRandIdx.extractIndex example_rand 0x12350 ->
   0x12340 = 0x12340).
Proof.
  apply (new_rand_roundtrip example_rand 0x12345 0x12350); [|done|done].
  constructor; [constructor; simpl; done || lia|done|done|].
  exists 2. split; [lia|]. split; [simpl; lia|done].
Defined.

End PolicyOk.
