(* ===== verification/Tags.v ===== *)
(** * Tag stores

    [BaseTags] (src/gem5/src/mem/cache/tags/base.hh, base.cc), the
    conventional [BaseSetAssoc] (base_set_assoc.hh, .cc) and the RaS
    [NewRandTag] (new_rand_tag.hh, .cc). A store is its indexing policy, the
    replacement data of its entries and its blocks; a block pointer is an
    index into the block array. Statistics are not part of the state. *)

From S2P Require Import Prelude BaseUtil MemCmd Request Packet CacheBlk ReplPolicy Indexing.
Local Open Scope Z_scope.

(** ** Common part *)
Module BaseTags.

Record t (I R : Type) := mk {
  indexingPolicy : I;
  replacementData : R;
  blks : list CacheBlk.t;
  allocAssoc : Z;
  blkSize : Z;
  lookupLatency : Z
}.
Arguments mk {I R}.
Arguments indexingPolicy {I R}.
Arguments replacementData {I R}.
Arguments blks {I R}.
Arguments allocAssoc {I R}.
Arguments blkSize {I R}.
Arguments lookupLatency {I R}.

Section base_tags.
Context {I R : Type} `{IndexingPolicy I} `{ReplacementPolicy R}.

Definition set_replacement (r : R) (s : t I R) : t I R :=
  mk (indexingPolicy s) r (blks s) (allocAssoc s) (blkSize s) (lookupLatency s).
Definition set_blks (b : list CacheBlk.t) (s : t I R) : t I R :=
  mk (indexingPolicy s) (replacementData s) b (allocAssoc s) (blkSize s) (lookupLatency s).
Definition set_indexing (i : I) (s : t I R) : t I R :=
  mk i (replacementData s) (blks s) (allocAssoc s) (blkSize s) (lookupLatency s).
Definition set_allocAssoc (a : Z) (s : t I R) : t I R :=
  mk (indexingPolicy s) (replacementData s) (blks s) a (blkSize s) (lookupLatency s).

(** Reading and writing through a block pointer. *)
Definition getBlk (e : nat) (s : t I R) : res CacheBlk.t := lookupR (blks s) e.
Definition updBlk (f : CacheBlk.t -> res CacheBlk.t) (e : nat) (s : t I R) : res (t I R) :=
  let* b := getBlk e s in
  let* b := f b in
  Ok (set_blks (<[e := b]> (blks s)) s).

(** The range-for over the possible entries with its early return. *)
Fixpoint search (p : CacheBlk.t -> bool) (s : t I R) (entries : list nat) : res (option nat) :=
  match entries with
  | [] => Ok None
  | e :: es => let* b := getBlk e s in if p b then Ok (Some e) else search p s es
  end.

Definition extractTag (addr : Z) (s : t I R) : Z := ip_extractTag (indexingPolicy s) addr.
Definition extractIndex (addr : Z) (s : t I R) : Z := ip_extractIndex (indexingPolicy s) addr.
Definition blkAlign (addr : Z) (s : t I R) : Z := Z.land addr (unot 64 (blkSize s - 1)).
Definition extractBlkOffset (addr : Z) (s : t I R) : Z := Z.land addr (blkSize s - 1).

Definition findBlock (addr : Z) (is_secure : bool) (s : t I R) : res (option nat) :=
  let* entries := ip_getPossibleEntries (indexingPolicy s) addr in
  search (CacheBlk.matchTag (extractTag addr s) is_secure) s entries.

(** With the security domain: a block of another domain is passed over. *)
Definition findBlock_dom (addr : Z) (is_secure : bool) (domainID : Z) (s : t I R) : res (option nat) :=
  let* entries := ip_getPossibleEntries (indexingPolicy s) addr in
  search (fun b => CacheBlk.matchTag (extractTag addr s) is_secure b &&
                   (domainID =? CacheBlk.getDomainID b)) s entries.

Definition findMappingHitBlock (pkt : Packet.t) (s : t I R) : res (option nat) := Err Panic.

Definition insertBlock (now maxRequestors : Z) (pkt : Packet.t) (e : nat) (s : t I R) : res (t I R) :=
  let* b := getBlk e s in
  assert! (negb (CacheBlk.isValid b)) in
  let requestor_id := Request.requestorId (Packet.req pkt) in
  assert! (requestor_id <? maxRequestors) in
  let* addr := Packet.getAddr pkt in
  let* sec := Packet.isSecure pkt in
  let* b := CacheBlk.insert now (extractTag addr s) (extractIndex addr s) sec
              requestor_id (Request.taskId (Packet.req pkt)) b in
  let* did := Packet.getDomainID pkt in
  Ok (set_blks (<[e := CacheBlk.with_domainID did b]> (blks s)) s).

Definition moveBlock (now : Z) (src dest : nat) (s : t I R) : res (t I R) :=
  let* d := getBlk dest s in
  assert! (negb (CacheBlk.isValid d)) in
  let* o := getBlk src s in
  assert! (CacheBlk.isValid o) in
  let* (d, o) := CacheBlk.move_assign now d o in
  assert! (CacheBlk.isValid d) in
  assert! (negb (CacheBlk.isValid o)) in
  Ok (set_blks (<[src := o]> (<[dest := d]> (blks s))) s).

Definition invalidate (e : nat) (s : t I R) : res (t I R) :=
  let* b := getBlk e s in
  assert! (CacheBlk.isValid b) in
  updBlk CacheBlk.invalidate e s.

(** [forEachBlk] and [anyBlk] visit the blocks in array order. *)
Definition forEachBlk {A} (visit : A -> CacheBlk.t -> res (A * CacheBlk.t)) (a : A) (s : t I R) :
    res (A * t I R) :=
  let* (a, bs) :=
    (fix go (a : A) (bs : list CacheBlk.t) : res (A * list CacheBlk.t) :=
       match bs with
       | [] => Ok (a, [])
       | b :: bs =>
           let* (a, b) := visit a b in
           let* (a, bs) := go a bs in
           Ok (a, b :: bs)
       end) a (blks s) in
  Ok (a, set_blks bs s).

Definition anyBlk (visit : CacheBlk.t -> bool) (s : t I R) : bool := existsb visit (blks s).

Definition setWayAllocationMax (ways : Z) (s : t I R) : res (t I R) :=
  fatal_if! (ways <? 1) in Ok (set_allocAssoc (u32 ways) s).

(** [tagsInit]: link every block to its location and give it replacement
    data. [bytes] is the block's part of the data array. *)
Fixpoint tagsInit_from (i : nat) (bytes : list (list Z)) (s : t I R) : res (t I R) :=
  match bytes with
  | [] => Ok s
  | d :: bytes =>
      let* (ip, pos) := ip_setEntry i (Z.of_nat i) (indexingPolicy s) in
      let* r := rp_instantiateEntry (replacementData s) in
      let blk := CacheBlk.empty pos.1 pos.2 d in
      tagsInit_from (S i) bytes
        (set_replacement r (set_indexing ip (set_blks (blks s ++ [blk]) s)))
  end.

Definition tagsInit (bytes : list (list Z)) (s : t I R) : res (t I R) := tagsInit_from 0 bytes s.

(** Update of the replacement data through the policy. *)
Definition touch (now : Z) (e : nat) (s : t I R) : res (t I R) :=
  let* r := rp_touch now e (replacementData s) in Ok (set_replacement r s).
Definition reset (now : Z) (e : nat) (s : t I R) (rng : nat) : res (t I R * nat) :=
  let* (r, rng) := rp_reset now e (replacementData s, rng) in Ok (set_replacement r s, rng).
Definition rp_drop (now : Z) (e : nat) (s : t I R) : res (t I R) :=
  let* r := rp_invalidate now e (replacementData s) in Ok (set_replacement r s).

(** What [accessBlock] does with the block it found. *)
Definition on_hit (now : Z) (no_fill : bool) (hit : option nat) (s : t I R) : res (t I R) :=
  match hit with
  | None => Ok s
  | Some e =>
      let* s := updBlk (fun b => Ok (CacheBlk.increaseRefCount b)) e s in
      if no_fill then Ok s else touch now e s
  end.

End base_tags.
End BaseTags.

(** ** BaseSetAssoc *)
Module BaseSetAssoc.
Import BaseTags.
Section sa.
Context {I R : Type} `{IndexingPolicy I} `{ReplacementPolicy R}.

Definition accessBlock (now addr : Z) (is_secure : bool) (s : t I R) : res (option nat * t I R * Z) :=
  let* hit := findBlock addr is_secure s in
  let* s := on_hit now false hit s in
  Ok (hit, s, lookupLatency s).

Definition accessBlock_dom (now addr : Z) (is_secure : bool) (domainID : Z) (no_fill : bool)
    (s : t I R) : res (option nat * t I R * Z) :=
  let* hit := findBlock_dom addr is_secure domainID s in
  let* s := on_hit now no_fill hit s in
  Ok (hit, s, lookupLatency s).

(** The victim and the list of blocks to evict. *)
Definition findVictim (now addr : Z) (is_secure : bool) (size : Z) (s : t I R) (rng : nat) :
    res (nat * list nat * t I R * nat) :=
  let* entries := ip_getPossibleEntries (indexingPolicy s) addr in
  let* (victim, (r, rng)) := rp_getVictim now entries (replacementData s, rng) in
  Ok (victim, [victim], set_replacement r s, rng).

Definition findVictim_dom (now addr : Z) (is_secure : bool) (domainID size : Z) (s : t I R) (rng : nat) :
    res (nat * list nat * t I R * nat) :=
  findVictim now addr is_secure size s rng.

Definition insertBlock (now maxRequestors : Z) (pkt : Packet.t) (e : nat) (s : t I R) (rng : nat) :
    res (t I R * nat) :=
  let* s := BaseTags.insertBlock now maxRequestors pkt e s in
  reset now e s rng.

Definition moveBlock (now : Z) (src dest : nat) (s : t I R) (rng : nat) : res (t I R * nat) :=
  let* s := BaseTags.moveBlock now src dest s in
  let* s := rp_drop now src s in
  reset now dest s rng.

Definition invalidate (now : Z) (e : nat) (s : t I R) : res (t I R) :=
  let* s := BaseTags.invalidate e s in
  rp_drop now e s.

Definition regenerateBlkAddr (e : nat) (s : t I R) : res Z :=
  let* b := getBlk e s in
  ip_regenerateAddr (indexingPolicy s) (CacheBlk.getTag b) (CacheBlk._set b, CacheBlk._way b).

End sa.
End BaseSetAssoc.

(** ** NewRandTag *)
Module NewRandTag.
Import BaseTags.
Section nr.
Context {I R : Type} `{IndexingPolicy I} `{ReplacementPolicy R} `{RandomSource}.

Definition findBlock (addr : Z) (is_secure : bool) (s : t I R) : res (option nat) := Err Panic.

(** The domain is a parameter the match does not use. *)
Definition findBlock_dom (addr : Z) (is_secure : bool) (domainID : Z) (s : t I R) : res (option nat) :=
  let tag := extractTag addr s in
  let index_bits := extractIndex addr s in
  let* entries := ip_getPossibleEntries (indexingPolicy s) addr in
  search (fun b => CacheBlk.isValid b && eqb (CacheBlk.isSecure b) is_secure &&
                   (CacheBlk.getTag b =? tag) && (CacheBlk.getIndexBits b =? index_bits)) s entries.

(** The counting loop: the last match and the number of matches. *)
Fixpoint count_matches (p : CacheBlk.t -> bool) (s : t I R) (entries : list nat)
    (hit : option nat) (n : nat) : res (option nat * nat) :=
  match entries with
  | [] => Ok (hit, n)
  | e :: es =>
      let* b := getBlk e s in
      if p b then count_matches p s es (Some e) (S n) else count_matches p s es hit n
  end.

(** After the loop: one match must hold another tag, otherwise there is none. *)
Definition check_match (tag : Z) (s : t I R) (r : option nat * nat) : res (option nat) :=
  match r with
  | (Some e, 1%nat) =>
      let* b := getBlk e s in
      assert! (negb (CacheBlk.getTag b =? tag)) in Ok (Some e)
  | (_, O) => Ok None
  | _ => Err AssertFail
  end.

Definition findMappingHitBlock (pkt : Packet.t) (s : t I R) : res (option nat) :=
  let* addr := Packet.getAddr pkt in
  let* is_secure := Packet.isSecure pkt in
  let* domainID := Packet.getDomainID pkt in
  let* entries := ip_getPossibleEntries (indexingPolicy s) addr in
  let* r := count_matches (CacheBlk.matchIndex_dom (extractIndex addr s) is_secure domainID)
              s entries None 0 in
  check_match (extractTag addr s) s r.

Definition accessBlock (now addr : Z) (is_secure : bool) (s : t I R) : res (option nat * t I R * Z) :=
  let* hit := findBlock addr is_secure s in
  let* s := on_hit now false hit s in
  Ok (hit, s, lookupLatency s).

Definition accessBlock_dom (now addr : Z) (is_secure : bool) (domainID : Z) (no_fill : bool)
    (s : t I R) : res (option nat * t I R * Z) :=
  let* hit := findBlock_dom addr is_secure domainID s in
  let* s := on_hit now no_fill hit s in
  Ok (hit, s, lookupLatency s).

(** [entries[random_mt.random<uint64_t>() & (allocAssoc-1)]] *)
Definition random_entry (s : t I R) (entries : list nat) (rng : nat) : res (nat * nat) :=
  let* (r, rng) := RandomMT.random_u64 rng in
  let* victim := lookupR entries (Z.to_nat (u32 (Z.land r (u32 (allocAssoc s - 1))))) in
  Ok (victim, rng).

(** The entry whose index bits match, else a random one. *)
Definition choose (p : CacheBlk.t -> bool) (addr : Z) (s : t I R) (rng : nat) :
    res (nat * list nat * t I R * nat) :=
  let* entries := ip_getPossibleEntries (indexingPolicy s) addr in
  let* r := count_matches p s entries None 0 in
  let* m := check_match (extractTag addr s) s r in
  match m with
  | Some victim => Ok (victim, [victim], s, rng)
  | None =>
      let* (victim, rng) := random_entry s entries rng in
      Ok (victim, [victim], s, rng)
  end.

Definition findVictim (now addr : Z) (is_secure : bool) (size : Z) (s : t I R) (rng : nat) :
    res (nat * list nat * t I R * nat) :=
  choose (CacheBlk.matchIndex (extractIndex addr s) is_secure) addr s rng.

Definition findVictim_dom (now addr : Z) (is_secure : bool) (domainID size : Z) (s : t I R) (rng : nat) :
    res (nat * list nat * t I R * nat) :=
  choose (CacheBlk.matchIndex_dom (extractIndex addr s) is_secure domainID) addr s rng.

Definition randomEviction (addr : Z) (s : t I R) (rng : nat) : res (list nat * nat) :=
  let* entries := ip_getPossibleEntries (indexingPolicy s) addr in
  let* (victim, rng) := random_entry s entries rng in
  Ok ([victim], rng).

Definition insertBlock (now maxRequestors : Z) (pkt : Packet.t) (e : nat) (s : t I R) (rng : nat) :
    res (t I R * nat) :=
  let* s := BaseTags.insertBlock now maxRequestors pkt e s in
  reset now e s rng.

Definition moveBlock (now : Z) (src dest : nat) (s : t I R) (rng : nat) : res (t I R * nat) :=
  let* s := BaseTags.moveBlock now src dest s in
  let* s := rp_drop now src s in
  reset now dest s rng.

Definition invalidate (now : Z) (e : nat) (s : t I R) : res (t I R) :=
  let* s := BaseTags.invalidate e s in
  rp_drop now e s.

Definition regenerateBlkAddr (e : nat) (s : t I R) : res Z :=
  let* b := getBlk e s in
  ip_regenerateAddr_bits (indexingPolicy s) (CacheBlk.getTag b) (CacheBlk.getIndexBits b).

End nr.
End NewRandTag.
