(* ===== verification/TagsFacts.v ===== *)
(** * Correctness of the tag stores

    Lookups find what was inserted and nothing else, a no-fill access leaves
    no trace in the replacement state, and the RaS store keeps its index bits
    unique, which is what its assertions rely on. *)

From S2P Require Import Prelude BaseUtil MemCmd Request Packet.
From S2P Require Import CacheBlk ReplPolicy ReplPolicyFacts Indexing IndexingFacts Tags.
Local Open Scope Z_scope.

Module TagsFacts.
Import BaseTags.

Section facts.
Context {I R : Type} `{IndexingPolicyOk I} `{ReplacementPolicyOk R}.
Implicit Types s : t I R.

(** The number of lines is what the indexing and replacement policies manage. *)
Record wf (s : t I R) (n : nat) : Prop := {
  wf_len : length (blks s) = n;
  wf_ip : ip_wf (indexingPolicy s) n;
  wf_rp : rp_wf (replacementData s) n;
  (* an invalid line is not marked secure *)
  wf_secure : forall e b, blks s !! e = Some b -> CacheBlk._valid b = false ->
    CacheBlk._secure b = false;
  wf_tick : forall e b, blks s !! e = Some b -> CacheBlk._tickInserted b <= MaxTick
}.

(** ** Searching *)

Lemma search_spec p s es :
  in_range (length (blks s)) es ->
  (exists l1 e l2 b, search p s es = Ok (Some e) /\ es = l1 ++ e :: l2 /\ blks s !! e = Some b /\
     p b = true /\ forall x bx, x ∈ l1 -> blks s !! x = Some bx -> p bx = false) \/
  (search p s es = Ok None /\ forall x bx, x ∈ es -> blks s !! x = Some bx -> p bx = false).
Proof.
  induction es as [|e es IH]; intros Hr; simpl.
  { right. split; [done|]. intros ? ? Hx. by apply elem_of_nil in Hx. }
  apply Forall_cons_iff in Hr as [He Hr]. unfold getBlk.
  destruct (lookupR_lt (blks s) e He) as (b & Hb & ->). simpl. destruct (p b) eqn:Ep.
  { left. exists [], e, es, b. split_and!; try done. intros ? ? Hx. by apply elem_of_nil in Hx. }
  destruct (IH Hr) as [(l1 & c & l2 & bc & -> & -> & Hc & Hp & Hl)|[-> Hall]].
  - left. exists (e :: l1), c, l2, bc. split_and!; try done.
    intros x bx Hx Hbx. apply elem_of_cons in Hx as [->|Hx]; [congruence|eauto].
  - right. split; [done|]. intros x bx Hx Hbx. apply elem_of_cons in Hx as [->|Hx]; [congruence|eauto].
Qed.

Lemma search_none p s es :
  in_range (length (blks s)) es -> search p s es = Ok None ->
  forall x bx, x ∈ es -> blks s !! x = Some bx -> p bx = false.
Proof.
  intros Hr Hs. destruct (search_spec p s es Hr) as [(l1 & c & l2 & bc & Hs' & _)|[_ Hall]]; [congruence|done].
Qed.

(** A search looks only at the entries it is given. *)
Lemma search_ext p p' s s' es :
  (forall e, e ∈ es -> blks s !! e = blks s' !! e \/
     exists b b', blks s !! e = Some b /\ blks s' !! e = Some b' /\ p b = p' b') ->
  (forall b, p b = p' b) ->
  search p s es = search p' s' es.
Proof.
  intros He Hp. induction es as [|e es IH]; simpl; [done|]. unfold getBlk, lookupR.
  assert (Hrest : search p s es = search p' s' es)
    by (apply IH; intros; apply He; set_solver).
  destruct (He e ltac:(set_solver)) as [->|(b & b' & -> & -> & Hpb)].
  - destruct (blks s' !! e); simpl; [|done]. by rewrite Hp, Hrest.
  - simpl. by rewrite Hpb, Hrest.
Qed.

(** When exactly one entry matches, the search returns it. *)
Lemma search_unique p s es e b :
  in_range (length (blks s)) es -> e ∈ es -> blks s !! e = Some b -> p b = true ->
  (forall x bx, x ∈ es -> x <> e -> blks s !! x = Some bx -> p bx = false) ->
  search p s es = Ok (Some e).
Proof.
  intros Hr He Hb Hp Huniq.
  destruct (search_spec p s es Hr) as [(l1 & c & l2 & bc & Hs & -> & Hc & Hpc & _)|[_ Hall]].
  - destruct (decide (c = e)) as [->|Hne]; [done|].
    rewrite (Huniq c bc) in Hpc; [done|set_solver|done|done].
  - rewrite (Hall e b) in Hp; done.
Qed.

Lemma search_replacement p s r es : search p (set_replacement r s) es = search p s es.
Proof. apply search_ext; [intros; by left|done]. Qed.

(** ** Lookup after insertion *)

(** Two addresses of one line. *)
Definition same_block (s : t I R) (a a' : Z) : Prop :=
  a / 2 ^ ip_shift (indexingPolicy s) = a' / 2 ^ ip_shift (indexingPolicy s).

Lemma insertBlock_inv now mr pkt e (s s' : t I R) rng rng' :
  BaseSetAssoc.insertBlock now mr pkt e s rng = Ok (s', rng') ->
  exists a sec did b b' r, Packet.getAddr pkt = Ok a /\ Packet.isSecure pkt = Ok sec /\
    Packet.getDomainID pkt = Ok did /\ blks s !! e = Some b /\ CacheBlk._valid b = false /\
    rp_reset now e (replacementData s, rng) = Ok (r, rng') /\
    s' = set_replacement r (set_blks (<[e := b']> (blks s)) s) /\
    CacheBlk._valid b' = true /\ CacheBlk._tag b' = extractTag a s /\
    CacheBlk._index_bits b' = extractIndex a s /\
    CacheBlk._secure b' = (if sec then true else CacheBlk._secure b) /\ CacheBlk.domainID b' = did /\
    CacheBlk._set b' = CacheBlk._set b /\ CacheBlk._way b' = CacheBlk._way b /\
    CacheBlk._tickInserted b' = now.
Proof.
  unfold BaseSetAssoc.insertBlock, BaseTags.insertBlock, reset, getBlk, CacheBlk.insert,
    CacheBlk.tagged_insert, CacheBlk.isValid. intros Hi. inv_res.
  match goal with Hb : lookupR (blks s) e = Ok ?b |- _ => apply lookupR_Ok in Hb; rename b into blk end.
  match goal with Hs : Packet.isSecure pkt = Ok ?c |- _ => rename c into sec end.
  eexists _, sec, _, blk, _, _.
  repeat (split; [first [eassumption|reflexivity]|]).
  destruct sec; repeat (split; [first [eassumption|reflexivity]|]); done.
Qed.

(** Writing one line changes the searches that can see it, and no other. *)
Lemma search_written p s e b b' es :
  blks s !! e = Some b -> in_range (length (blks s)) es -> e ∈ es -> p b' = true ->
  search p s es = Ok None ->
  search p (set_blks (<[e := b']> (blks s)) s) es = Ok (Some e).
Proof.
  intros Hb Hr He Hp Hnone. pose proof (lookup_lt_Some _ _ _ Hb) as Hlt.
  apply search_unique with b'; [simpl; by rewrite length_insert|done| |done|].
  - simpl. by apply list_lookup_insert_eq.
  - intros x bx Hx Hne Hbx. simpl in Hbx. rewrite list_lookup_insert_ne in Hbx by done.
    eapply search_none; eauto.
Qed.

Lemma search_unseen p s e b b' es :
  blks s !! e = Some b -> (e ∉ es \/ p b' = p b) ->
  search p (set_blks (<[e := b']> (blks s)) s) es = search p s es.
Proof.
  intros Hb Hcase. apply search_ext; [|done]. intros x Hx. simpl.
  destruct (decide (x = e)) as [->|Hne].
  - destruct Hcase as [?|Hp]; [done|]. right. exists b', b.
    rewrite list_lookup_insert_eq by (by eapply lookup_lt_Some). done.
  - left. by rewrite list_lookup_insert_ne.
Qed.

Lemma insertBlock_wf now mr pkt e (s s' : t I R) rng rng' n :
  wf s n -> now <= MaxTick -> BaseSetAssoc.insertBlock now mr pkt e s rng = Ok (s', rng') -> wf s' n.
Proof.
  intros [Hlen Hip Hrp Hsec Htick] Hnow Hi.
  destruct (insertBlock_inv _ _ _ _ _ _ _ _ Hi) as (a & sec & did & b & b' & r & _ & _ & _ & Hb &
    _ & Hr & -> & Hv & _ & _ & _ & _ & _ & _ & Ht').
  pose proof (lookup_lt_Some _ _ _ Hb) as Hlt. rewrite Hlen in Hlt.
  destruct (rp_reset_ok now e (replacementData s) rng n Hrp Hlt) as (r0 & g & Er & Hwf).
  rewrite Hr in Er. simplify_res. constructor; simpl.
  - by rewrite length_insert.
  - done.
  - done.
  - intros x bx Hx Hvx. destruct (decide (x = e)) as [->|].
    + rewrite list_lookup_insert_eq in Hx by lia. congruence.
    + rewrite list_lookup_insert_ne in Hx by done. eauto.
  - intros x bx Hx. destruct (decide (x = e)) as [->|].
    + rewrite list_lookup_insert_eq in Hx by lia. simplify_eq. lia.
    + rewrite list_lookup_insert_ne in Hx by done. eauto.
Qed.

(** Invalidation of a valid line succeeds and clears it. *)
Lemma invalidate_ok now e s n b :
  wf s n -> blks s !! e = Some b -> CacheBlk._valid b = true ->
  exists b' r, BaseSetAssoc.invalidate now e s = Ok (set_replacement r (set_blks (<[e := b']> (blks s)) s)) /\
    wf (set_replacement r (set_blks (<[e := b']> (blks s)) s)) n /\
    CacheBlk._valid b' = false /\ CacheBlk._set b' = CacheBlk._set b /\ CacheBlk._way b' = CacheBlk._way b.
Proof.
  intros [Hlen Hip Hrp Hsec Htick] Hb Hv. pose proof (lookup_lt_Some _ _ _ Hb) as Hlt.
  unfold BaseSetAssoc.invalidate, invalidate, updBlk, getBlk, rp_drop.
  rewrite (proj2 (lookupR_Ok _ _ _) Hb). cbn [rbind]. unfold CacheBlk.isValid. rewrite Hv. cbn [rbind].
  unfold CacheBlk.invalidate, CacheBlk.setWhenReady. simpl CacheBlk._tickInserted.
  rewrite (proj2 (Z.leb_le _ _)) by (by eapply Htick). cbn [rbind].
  rewrite Hlen in Hlt. cbn [replacementData set_blks].
  destruct (rp_invalidate_ok now e (replacementData s) n Hrp Hlt) as (r & -> & Hwf). cbn [rbind].
  eexists _, r. split; [done|]. split; [|done]. constructor; simpl.
  - by rewrite length_insert.
  - done.
  - done.
  - intros x bx Hx Hvx. destruct (decide (x = e)) as [->|].
    + rewrite list_lookup_insert_eq in Hx by lia. by simplify_eq.
    + rewrite list_lookup_insert_ne in Hx by done. eauto.
  - intros x bx Hx. destruct (decide (x = e)) as [->|].
    + rewrite list_lookup_insert_eq in Hx by lia. simplify_eq. simpl. by eapply Htick.
    + rewrite list_lookup_insert_ne in Hx by done. eauto.
Qed.

(** ** The conventional store *)

Section set_assoc.
(** Its policies have no index bits. *)
Hypothesis no_index : forall (p : I) a, ip_extractIndex p a = 0.

(** C11. A filled line is found, and only it. Take a conventional store that is well
    formed, over any indexing policy without index bits (set-associative, skewed) and any
    replacement policy. After [insertBlock] of a packet whose line was absent, at one of
    the places where it may be, a lookup of any address of that line in the same security
    state and domain returns the line, and every other lookup (other line, other security
    state, other domain) returns what it returned before; the store stays well formed. *)
Theorem insert_then_lookup now mr pkt e (s s' : t I R) rng rng' n a sec did es :
  wf s n -> now <= MaxTick -> BaseSetAssoc.insertBlock now mr pkt e s rng = Ok (s', rng') ->
  Packet.getAddr pkt = Ok a -> in_word 64 a -> Packet.isSecure pkt = Ok sec ->
  Packet.getDomainID pkt = Ok did ->
  ip_getPossibleEntries (indexingPolicy s) a = Ok es -> e ∈ es ->
  findBlock_dom a sec did s = Ok None ->
  wf s' n /\
  (forall a', in_word 64 a' -> same_block s a a' -> findBlock_dom a' sec did s' = Ok (Some e)) /\
  (forall a' sec' did', in_word 64 a' ->
     ~ (same_block s a a' /\ sec' = sec /\ did' = did) ->
     findBlock_dom a' sec' did' s' = findBlock_dom a' sec' did' s).
Proof.
  intros Hwf Hnow Hi Ha Haw Hsec Hdid Hes He Hnone.
  split; [by eapply insertBlock_wf|].
  destruct (insertBlock_inv _ _ _ _ _ _ _ _ Hi) as (a0 & sec0 & did0 & b & b' & r & Ha0 & Hs0 & Hd0 &
    Hb & Hv & _ & -> & Hv' & Ht' & _ & Hs' & Hd' & _).
  assert (a0 = a) as -> by congruence. assert (sec0 = sec) as -> by congruence.
  assert (did0 = did) as -> by congruence. clear Ha0 Hs0 Hd0.
  rewrite (wf_secure s n Hwf e b Hb Hv) in Hs'.
  assert (Hsb : CacheBlk._secure b' = sec) by (by destruct sec). clear Hs'.
  pose proof (wf_ip s n Hwf) as Hip. unfold findBlock_dom, extractTag in *.
  cbn [indexingPolicy set_replacement set_blks] in *.
  split.
  - intros a' Ha' Hsame.
    destruct (ip_block_only _ n a a' Hip Haw Ha' Hsame) as (Ee & Et & _).
    rewrite <- Ee, Hes, <- Et. rewrite Hes in Hnone. cbn [rbind] in *.
    rewrite search_replacement.
    destruct (ip_entries_ok _ n a Hip Haw) as (es0 & Hes0 & _ & _ & Hr).
    assert (es0 = es) as -> by congruence.
    apply search_written with b; [done|by rewrite (wf_len s n Hwf)|done| |done].
    unfold CacheBlk.matchTag, CacheBlk.isValid, CacheBlk.getTag, CacheBlk.isSecure, CacheBlk.getDomainID.
    rewrite Hv', Ht', Hsb, Hd', !Z.eqb_refl. by destruct sec.
  - intros a' sec' did' Ha' Hne.
    destruct (ip_entries_ok _ n a' Hip Ha') as (es' & Hes' & _). rewrite Hes'. cbn [rbind].
    rewrite search_replacement. apply search_unseen with b; [done|].
    destruct (decide (e ∈ es')) as [He'|]; [right|by left].
    unfold CacheBlk.matchTag, CacheBlk.isValid, CacheBlk.getTag, CacheBlk.isSecure, CacheBlk.getDomainID.
    rewrite Hv, Hv', Ht', Hsb, Hd'. cbn [andb].
    destruct (Z.eqb_spec (ip_extractTag (indexingPolicy s) a) (ip_extractTag (indexingPolicy s) a'))
      as [Et|]; [|done].
    destruct (eqb sec sec') eqn:Es; [|done]. apply eqb_prop in Es as <-.
    destruct (Z.eqb_spec did' did) as [->|]; [|done]. exfalso. apply Hne. split; [|done].
    eapply ip_same_block; [done..|]. by rewrite !no_index.
Qed.
End set_assoc.

(** ** Accesses *)

(** Two stores a later replacement decision or lookup cannot tell apart: only
    reference counters, which feed statistics, may differ. *)
Record same_but_refs (s s' : t I R) : Prop := {
  sr_ip : indexingPolicy s = indexingPolicy s';
  sr_rp : replacementData s = replacementData s';
  sr_alloc : allocAssoc s = allocAssoc s';
  sr_blkSize : blkSize s = blkSize s';
  sr_lat : lookupLatency s = lookupLatency s';
  sr_blks : Forall2 CacheBlk.same_but_refs (blks s) (blks s')
}.

#[global] Instance blk_same_refl : Reflexive CacheBlk.same_but_refs.
Proof. by intros b. Qed.
#[global] Instance blk_same_sym : Symmetric CacheBlk.same_but_refs.
Proof. by intros b b' E. Qed.
#[global] Instance blk_same_trans : Transitive CacheBlk.same_but_refs.
Proof. intros b b' b'' E E'. unfold CacheBlk.same_but_refs in *. congruence. Qed.

#[global] Instance same_but_refs_equiv : Equivalence same_but_refs.
Proof.
  split.
  - intros s. constructor; done || reflexivity.
  - intros s s' []. constructor; done || (symmetry; done).
  - intros s s' s'' [] []. constructor; try congruence. etransitivity; done.
Qed.

Lemma on_hit_nofill now hit s s' : on_hit now true hit s = Ok s' -> same_but_refs s s'.
Proof.
  destruct hit as [e|]; simpl; intros Ho; [|by simplify_res].
  unfold updBlk in Ho. inv_res.
  match goal with Hb : getBlk e s = Ok ?b |- _ => apply lookupR_Ok in Hb end.
  constructor; try done. simpl. apply Forall2_same_length_lookup. split; [by rewrite length_insert|].
  intros i x y Hx Hy. destruct (decide (i = e)) as [->|].
  - rewrite list_lookup_insert_eq in Hy by (by eapply lookup_lt_Some). by simplify_eq.
  - rewrite list_lookup_insert_ne in Hy by done. by simplify_eq.
Qed.

(** Lookups do not see reference counters. *)
Lemma search_same p s s' es :
  same_but_refs s s' -> (forall b b', CacheBlk.same_but_refs b b' -> p b = p b') ->
  search p s es = search p s' es.
Proof.
  intros [_ _ _ _ _ Hbs] Hp. induction es as [|e es IH]; simpl; [done|].
  unfold getBlk, lookupR. destruct (blks s !! e) as [b|] eqn:Eb.
  - destruct (Forall2_lookup_l _ _ _ _ _ Hbs Eb) as (b' & -> & Hbb). simpl.
    by rewrite (Hp b b' Hbb), IH.
  - assert (blks s' !! e = None) as ->; [|done].
    apply lookup_ge_None. rewrite <- (Forall2_length _ _ _ Hbs). by apply lookup_ge_None.
Qed.

Lemma find_same a sec did s s' :
  same_but_refs s s' ->
  findBlock_dom a sec did s = findBlock_dom a sec did s' /\
  NewRandTag.findBlock_dom a sec did s = NewRandTag.findBlock_dom a sec did s'.
Proof.
  intros Hs. unfold findBlock_dom, NewRandTag.findBlock_dom, extractTag, extractIndex.
  rewrite <- (sr_ip s s' Hs). destruct (ip_getPossibleEntries _ _); simpl; [|done].
  split; apply search_same; try done; intros b b' Hb; unfold CacheBlk.same_but_refs in Hb;
    destruct b, b'; simplify_eq/=; done.
Qed.

Lemma on_hit_nofill_ok now hit s :
  (forall e, hit = Some e -> (e < length (blks s))%nat) ->
  exists s', on_hit now true hit s = Ok s' /\ same_but_refs s s'.
Proof.
  intros Hlt. assert (Hok : exists s', on_hit now true hit s = Ok s').
  { destruct hit as [e|]; simpl; [|eauto]. unfold updBlk, getBlk.
    destruct (lookupR_lt (blks s) e (Hlt e eq_refl)) as (b & _ & ->). simpl. eauto. }
  destruct Hok as (s' & Hs'). exists s'. split; [done|by eapply on_hit_nofill].
Qed.

(** A search over the candidates of an address succeeds, and a hit is a line. *)
Lemma search_candidates p s n a es :
  wf s n -> in_word 64 a -> ip_getPossibleEntries (indexingPolicy s) a = Ok es ->
  exists h, search p s es = Ok h /\ forall e, h = Some e -> e ∈ es /\ (e < length (blks s))%nat.
Proof.
  intros Hwf Ha Hes. destruct (ip_entries_ok _ n a (wf_ip s n Hwf) Ha) as (es0 & Hes0 & _ & _ & Hr).
  assert (es0 = es) as -> by congruence. rewrite <- (wf_len s n Hwf) in Hr.
  destruct (search_spec p s es Hr) as [(l1 & e & l2 & b & -> & -> & Hb & _)|[-> _]].
  - exists (Some e). split; [done|]. intros ? [= <-]. split; [set_solver|by eapply lookup_lt_Some].
  - by exists None.
Qed.

(** C9. A no-fill access leaves no trace. In both stores, [accessBlock] with
    [no_fill] succeeds, returns the verdict of the plain lookup and the lookup
    latency, and the store afterwards has the same replacement state, the same
    lines (reference counters aside) and answers every lookup as before. *)
Theorem nofill_access_traceless now a sec did (s : t I R) n :
  wf s n -> in_word 64 a ->
  (exists h s', BaseSetAssoc.accessBlock_dom now a sec did true s = Ok (h, s', lookupLatency s) /\
     findBlock_dom a sec did s = Ok h /\ same_but_refs s s' /\
     forall a' sec' did', findBlock_dom a' sec' did' s' = findBlock_dom a' sec' did' s) /\
  (exists h s', NewRandTag.accessBlock_dom now a sec did true s = Ok (h, s', lookupLatency s) /\
     NewRandTag.findBlock_dom a sec did s = Ok h /\ same_but_refs s s' /\
     forall a' sec' did', NewRandTag.findBlock_dom a' sec' did' s' =
       NewRandTag.findBlock_dom a' sec' did' s).
Proof.
  intros Hwf Ha. destruct (ip_entries_ok _ n a (wf_ip s n Hwf) Ha) as (es & Hes & _).
  unfold BaseSetAssoc.accessBlock_dom, NewRandTag.accessBlock_dom, findBlock_dom at 1 2,
    NewRandTag.findBlock_dom at 1 2. rewrite Hes. cbn [rbind].
  split; match goal with |- context [search ?p s es] =>
    destruct (search_candidates p s n a es Hwf Ha Hes) as (h & -> & Hh); cbn [rbind];
    destruct (on_hit_nofill_ok now h s) as (s' & -> & Hsame); [intros e ->; by apply Hh|] end;
    exists h, s'; cbn [rbind]; rewrite <- (sr_lat _ _ Hsame);
    (split; [done|split; [done|split; [done|]]]); intros; symmetry; by apply find_same.
Qed.

End facts.
End TagsFacts.

(** ** Running the conventional store *)
Module Examples.
Import BaseTags TagsFacts.

(** Two sets of two ways, 64-byte lines, LRU. *)
Definition sa_store : t Indexing.t (list LRU.Data) :=
  mk (Indexing.mk 2 2 6 1 (Indexing.full_row 2 <$> seq 0 2) 7) [0; 0; 0; 0]
    [CacheBlk.empty 0 0 []; CacheBlk.empty 0 1 []; CacheBlk.empty 1 0 []; CacheBlk.empty 1 1 []]
    2 64 1.

(** A read of address [a] in security domain [did]. *)
Definition example_req (a did : Z) : Packet.t :=
  Packet.make_blk 0 (Request.setDomainID did (Request.make 0 a 8 0 0)) MemCmd.ReadReq 64.

(** The store after a fill; it keeps its old value should the fill stop. *)
Definition sa_filled : t Indexing.t (list LRU.Data) :=
  match BaseSetAssoc.insertBlock 5 10 (example_req 0x1040 3) 2 sa_store 0 with
  | Ok (s, _) => s
  | Err _ => sa_store
  end.

Lemma sa_store_wf : wf sa_store 4.
Proof.
  constructor.
  - done.
  - split; [constructor; simpl; done || lia|done].
  - done.
  - intros e b Hb. do 4 (destruct e as [|e]; [by simplify_eq/=|]). done.
  - intros e b Hb. do 4 (destruct e as [|e]; [by simplify_eq/=|]). done.
Defined.

Lemma sa_no_index (p : Indexing.t) a : ip_extractIndex p a = 0.
Proof. reflexivity. Defined.

Lemma insert_then_lookup_witness :
  findBlock_dom 0x1078 false 3 sa_filled = Ok (Some 2%nat) /\
  findBlock_dom 0x1078 false 4 sa_filled = findBlock_dom 0x1078 false 4 sa_store.
Proof.
  destruct (insert_then_lookup sa_no_index 5 10 (example_req 0x1040 3) 2 sa_store sa_filled 0 0 4
    0x1040 false 3 [2; 3]%nat sa_store_wf) as (_ & H1 & H2).
  1-9: first [by vm_compute|apply elem_of_cons; by left].
  split; [apply H1; [by vm_compute|reflexivity]|apply H2; [by vm_compute|intros (_ & _ & ?); lia]].
Defined.

Lemma nofill_access_traceless_witness :
  exists h s', BaseSetAssoc.accessBlock_dom 9 0x1040 false 3 true sa_store = Ok (h, s', 1) /\
    same_but_refs sa_store s'.
Proof.
  destruct (nofill_access_traceless 9 0x1040 false 3 sa_store 4 sa_store_wf) as [(h & s' & H1 & _ & H2 & _) _].
  - by vm_compute.
  - exists h, s'. split; [exact H1|exact H2].
Defined.

End Examples.

(** ** The RaS store *)
Module NewRandFacts.
Import BaseTags TagsFacts.

Section ras.
Context {R : Type} `{ReplacementPolicyOk R} `{RandomSource}.
Abbreviation store := (t NewRandIdx.t R).
Implicit Types s : store.

(** No two valid lines of one security state share their index bits: each
    index has at most one line mapped to it. *)
Definition index_unique (s : store) : Prop :=
  forall e e' b b', blks s !! e = Some b -> blks s !! e' = Some b' ->
    CacheBlk._valid b = true -> CacheBlk._valid b' = true ->
    CacheBlk._secure b = CacheBlk._secure b' ->
    CacheBlk._index_bits b = CacheBlk._index_bits b' -> e = e'.

Lemma count_no_match p s es h k :
  in_range (length (blks s)) es ->
  (forall x b, x ∈ es -> blks s !! x = Some b -> p b = false) ->
  NewRandTag.count_matches p s es h k = Ok (h, k).
Proof.
  revert h k. induction es as [|e es IH]; intros h k Hr Hno; simpl; [done|].
  apply Forall_cons_iff in Hr as [He Hr]. unfold getBlk.
  destruct (lookupR_lt (blks s) e He) as (b & Hb & ->). simpl.
  rewrite (Hno e b) by set_solver. apply IH; [done|]. intros; eapply Hno; set_solver.
Qed.

Lemma count_one p s es h k :
  in_range (length (blks s)) es -> NoDup es ->
  (forall x y bx bY, x ∈ es -> y ∈ es -> blks s !! x = Some bx -> blks s !! y = Some bY ->
     p bx = true -> p bY = true -> x = y) ->
  (exists e b, e ∈ es /\ blks s !! e = Some b /\ p b = true /\
     NewRandTag.count_matches p s es h k = Ok (Some e, S k)) \/
  (NewRandTag.count_matches p s es h k = Ok (h, k) /\
   forall x b, x ∈ es -> blks s !! x = Some b -> p b = false).
Proof.
  revert h k. induction es as [|e es IH]; intros h k Hr Hnd Huniq.
  { right. split; [done|]. intros ? ? Hx. by apply elem_of_nil in Hx. }
  pose proof Hr as Hr0. apply Forall_cons_iff in Hr as [He Hr]. apply NoDup_cons in Hnd as [Hni Hnd].
  simpl. unfold getBlk. destruct (lookupR_lt (blks s) e He) as (b & Hb & ->). simpl.
  destruct (p b) eqn:Ep.
  - left. exists e, b. split; [set_solver|]. split; [done|]. split; [done|].
    apply count_no_match; [done|]. intros x bx Hx Hbx. destruct (p bx) eqn:Epx; [|done].
    exfalso. apply Hni. rewrite (Huniq e x b bx); set_solver.
  - destruct (IH h k Hr Hnd) as [(e' & b' & He' & Hb' & Hp & Hc)|[Hc Hno]].
    { intros; eapply Huniq; set_solver. }
    + left. exists e', b'. split; [set_solver|done].
    + right. split; [done|]. intros x bx Hx Hbx. apply elem_of_cons in Hx as [->|Hx]; [congruence|eauto].
Qed.

Lemma candidates s n a :
  wf s n -> in_word 64 a ->
  NewRandIdx.getPossibleEntries (indexingPolicy s) a = Ok (seq 0 n) /\ (0 < n)%nat /\
  in_range (length (blks s)) (seq 0 n).
Proof.
  intros Hwf Ha. destruct (wf_ip s n Hwf) as [Hr Hn].
  rewrite PolicyOk.nr_entries, <- Hn by done. split; [done|].
  pose proof (Indexing.wf_assoc _ (RoundTrip.nr_base _ Hr)). split; [lia|].
  rewrite (wf_len s n Hwf). apply Forall_forall. intros x Hx. apply elem_of_seq in Hx. lia.
Qed.

(** The random draw is a line, the one at the draw modulo a power of two. *)
Lemma random_entry_ok s n rng :
  allocAssoc s = Z.of_nat n -> (0 < n)%nat -> Z.of_nat n < 2 ^ 32 ->
  exists v r, NewRandTag.random_entry s (seq 0 n) rng = Ok (v, S rng) /\ (v < n)%nat /\
    0 <= r < 2 ^ 64 /\ r = draw rng 0 (2 ^ 64 - 1) /\ Z.of_nat v = Z.land r (Z.of_nat n - 1).
Proof.
  intros Ha Hn Hlim. unfold NewRandTag.random_entry, RandomMT.random_u64, RandomMT.random.
  assert (Hdraw : 0 <= draw rng 0 (2 ^ 64 - 1) <= 2 ^ 64 - 1) by (by apply draw_range).
  destruct (Z.ltb_spec (2 ^ 64 - 1) 0); [lia|]. cbn [rbind].
  rewrite Ha, (uwrap_small 32 (Z.of_nat n - 1)) by (split; lia).
  set (r := draw rng 0 (2 ^ 64 - 1)) in *.
  assert (Hland : 0 <= Z.land r (Z.of_nat n - 1) <= Z.of_nat n - 1).
  { split; [apply Z.land_nonneg; lia|]. apply land_le_r; lia. }
  rewrite uwrap_small by (split; lia).
  unfold lookupR. rewrite lookup_seq_lt by lia. cbn [rbind].
  exists (Z.to_nat (Z.land r (Z.of_nat n - 1))), r. split; [done|]. split; [lia|]. split; [lia|].
  split; [done|lia].
Qed.

Lemma match_unique idx sec s :
  index_unique s -> forall x y bx bY, blks s !! x = Some bx -> blks s !! y = Some bY ->
  CacheBlk.matchIndex idx sec bx = true -> CacheBlk.matchIndex idx sec bY = true -> x = y.
Proof.
  unfold CacheBlk.matchIndex, CacheBlk.isValid, CacheBlk.getIndexBits, CacheBlk.isSecure.
  intros Hu x y bx bY Hx Hy Mx My. inv_res.
  repeat match goal with E : Bool.eqb _ _ = true |- _ => apply eqb_prop in E
    | E : (_ =? _) = true |- _ => apply Z.eqb_eq in E end.
  eapply Hu; [exact Hx|exact Hy|done|done|congruence|congruence].
Qed.

(** The victim of an address that misses: the line mapped to its index if
    there is one, else the line the random draw selects. *)
Lemma findVictim_ok now a sec did size s n rng :
  wf s n -> index_unique s -> in_word 64 a -> allocAssoc s = Z.of_nat n -> Z.of_nat n < 2 ^ 32 ->
  NewRandTag.findBlock_dom a sec did s = Ok None ->
  exists v rng', NewRandTag.findVictim now a sec size s rng = Ok (v, [v], s, rng') /\ (v < n)%nat /\
    (forall e b, blks s !! e = Some b -> CacheBlk.matchIndex (extractIndex a s) sec b = true -> e = v) /\
    ((exists b, blks s !! v = Some b /\ CacheBlk.matchIndex (extractIndex a s) sec b = true /\ rng' = rng)
     \/ (rng' = S rng /\ Z.of_nat v = Z.land (draw rng 0 (2 ^ 64 - 1)) (Z.of_nat n - 1))).
Proof.
  intros Hwf Hu Ha Halloc Hlim Hmiss.
  destruct (candidates s n a Hwf Ha) as (Hes & Hn & Hr).
  unfold NewRandTag.findBlock_dom in Hmiss. unfold NewRandTag.findVictim, NewRandTag.choose.
  cbn [ip_getPossibleEntries NewRandIdx.new_rand_idx] in *. rewrite Hes in *. cbn [rbind] in *.
  set (m := CacheBlk.matchIndex (extractIndex a s) sec) in *.
  assert (Hrange : forall e b, blks s !! e = Some b -> e ∈ seq 0 n).
  { intros e b Hb. apply elem_of_seq. apply lookup_lt_Some in Hb. rewrite (wf_len s n Hwf) in Hb. lia. }
  destruct (count_one m s (seq 0 n) None 0 Hr (NoDup_seq 0 n)) as
    [(e & b & He & Hb & Hm & ->)|[-> Hno]].
  { intros x y bx bY _ _ Hx Hy. by apply (match_unique (extractIndex a s) sec s Hu). }
  - cbn [rbind NewRandTag.check_match]. unfold getBlk. rewrite (proj2 (lookupR_Ok _ _ _) Hb). cbn [rbind].
    destruct (Z.eqb_spec (CacheBlk.getTag b) (extractTag a s)) as [Et|Et].
    + exfalso. pose proof (search_none _ s (seq 0 n) Hr Hmiss e b He Hb) as Hall. cbv beta in Hall.
      unfold m, CacheBlk.matchIndex in Hm. inv_res.
      rewrite Et, Z.eqb_refl in Hall.
      repeat match goal with E : _ = true |- _ => rewrite E in Hall end. done.
    + cbn [negb rbind]. exists e, rng. apply elem_of_seq in He.
      split; [done|]. split; [lia|]. split.
      * intros x bx Hx Hmx. by eapply (match_unique (extractIndex a s) sec s Hu).
      * left. exists b. done.
  - cbn [rbind NewRandTag.check_match].
    destruct (random_entry_ok s n rng Halloc Hn Hlim) as (v & r & -> & Hv & _ & -> & Hrv). cbn [rbind].
    exists v, (S rng). split; [done|]. split; [done|]. split; [|by right].
    intros e b Hb Hm. rewrite (Hno e b (Hrange e b Hb) Hb) in Hm. done.
Qed.

(** The fill of a missing line, composed as [BaseCache::allocateBlock] and
    [handleFill] do: choose a victim, drop it if it is valid, insert. *)
Definition ras_fill (now mr size : Z) (pkt : Packet.t) (s : store) (rng : nat) :
    res (nat * store * nat) :=
  let* a := Packet.getAddr pkt in
  let* sec := Packet.isSecure pkt in
  let* (v, _, s, rng) := NewRandTag.findVictim now a sec size s rng in
  let* b := getBlk v s in
  let* s := if CacheBlk.isValid b then NewRandTag.invalidate now v s else Ok s in
  let* (s, rng) := NewRandTag.insertBlock now mr pkt v s rng in
  Ok (v, s, rng).

(** Insertion into an invalid line never fails. *)
Lemma insertBlock_ok now mr pkt e s rng n b a sec did :
  wf s n -> blks s !! e = Some b -> CacheBlk._valid b = false ->
  Request.requestorId (Packet.req pkt) < mr ->
  Packet.getAddr pkt = Ok a -> Packet.isSecure pkt = Ok sec -> Packet.getDomainID pkt = Ok did ->
  exists s' rng', NewRandTag.insertBlock now mr pkt e s rng = Ok (s', rng').
Proof.
  intros Hwf Hb Hv Hr Ha Hs Hd. pose proof (lookup_lt_Some _ _ _ Hb) as Hlt.
  unfold NewRandTag.insertBlock, BaseTags.insertBlock, getBlk, CacheBlk.insert,
    CacheBlk.tagged_insert, CacheBlk.isValid.
  rewrite (proj2 (lookupR_Ok _ _ _) Hb). cbn [rbind]. rewrite Hv. cbn [negb].
  rewrite (proj2 (Z.ltb_lt _ _) Hr), Ha. cbn [rbind]. rewrite Hs. cbn [rbind]. rewrite Hd. cbn [rbind].
  unfold reset. cbn [replacementData set_blks]. rewrite (wf_len s n Hwf) in Hlt.
  destruct (rp_reset_ok now e (replacementData s) rng n (wf_rp s n Hwf) Hlt) as (r & g & -> & _).
  cbn [rbind]. eauto.
Qed.

(** C10. Filling the RaS store. When the line is absent and index bits are
    unique, the fill succeeds (no assertion fires), keeps the store well formed
    and the index bits unique, and afterwards the line is found where it was
    put. The line displaced is the one mapped to the same index bits if there
    is one; otherwise its position is the random draw masked to the number of
    lines, whatever address is filled. *)
Theorem ras_fill_correct now mr size pkt s rng n a sec did :
  wf s n -> index_unique s -> allocAssoc s = Z.of_nat n -> Z.of_nat n < 2 ^ 32 ->
  now <= MaxTick -> Request.requestorId (Packet.req pkt) < mr ->
  Packet.getAddr pkt = Ok a -> in_word 64 a -> Packet.isSecure pkt = Ok sec ->
  Packet.getDomainID pkt = Ok did -> NewRandTag.findBlock_dom a sec did s = Ok None ->
  exists v s' rng', ras_fill now mr size pkt s rng = Ok (v, s', rng') /\
    wf s' n /\ index_unique s' /\ allocAssoc s' = Z.of_nat n /\
    (forall did', NewRandTag.findBlock_dom a sec did' s' = Ok (Some v)) /\
    (forall e, e <> v -> blks s' !! e = blks s !! e) /\
    ((exists b, blks s !! v = Some b /\ CacheBlk.matchIndex (extractIndex a s) sec b = true) \/
     Z.of_nat v = Z.land (draw rng 0 (2 ^ 64 - 1)) (Z.of_nat n - 1)).
Proof.
  intros Hwf Hu Halloc Hlim Hnow Hreq Ha Haw Hsec Hdid Hmiss.
  destruct (findVictim_ok now a sec did size s n rng Hwf Hu Haw Halloc Hlim Hmiss)
    as (v & rng1 & Hv & Hvn & Honly & Hwhy).
  unfold ras_fill. rewrite Ha. cbn [rbind]. rewrite Hsec. cbn [rbind]. rewrite Hv. cbn [rbind].
  pose proof (wf_len s n Hwf) as Hlen.
  destruct (lookup_lt_is_Some_2 (blks s) v) as [b Hb]; [lia|].
  unfold getBlk. rewrite (proj2 (lookupR_Ok _ _ _) Hb). cbn [rbind].
  (* the store with the victim dropped *)
  assert (Hmid : exists s1 b1, (if CacheBlk.isValid b then NewRandTag.invalidate now v s else Ok s) = Ok s1 /\
    wf s1 n /\ blks s1 !! v = Some b1 /\ CacheBlk._valid b1 = false /\ allocAssoc s1 = allocAssoc s /\
    indexingPolicy s1 = indexingPolicy s /\ forall e, e <> v -> blks s1 !! e = blks s !! e).
  { unfold CacheBlk.isValid. destruct (CacheBlk._valid b) eqn:Evb.
    - destruct (invalidate_ok now v s n b Hwf Hb Evb) as (b1 & r & Hi & Hwf1 & Hv1 & _).
      eexists _, b1. split; [exact Hi|]. split; [done|]. simpl.
      rewrite list_lookup_insert_eq by lia. repeat (split; [done|]).
      intros e He. by rewrite list_lookup_insert_ne.
    - exists s, b. done. }
  destruct Hmid as (s1 & b1 & -> & Hwf1 & Hb1 & Hv1 & Hal1 & Hip1 & Hframe1). cbn [rbind].
  destruct (insertBlock_ok now mr pkt v s1 rng1 n b1 a sec did Hwf1 Hb1 Hv1 Hreq Ha Hsec Hdid)
    as (s2 & rng2 & Hins). rewrite Hins. cbn [rbind].
  pose proof (insertBlock_wf now mr pkt v s1 s2 rng1 rng2 n Hwf1 Hnow Hins) as Hwf2.
  destruct (insertBlock_inv _ _ _ _ _ _ _ _ Hins) as (a0 & sec0 & did0 & b0 & b2 & r & Ha0 & Hs0 & _ &
    Hb0 & _ & _ & -> & Hv2 & Ht2 & Hi2 & Hs2 & _).
  assert (a0 = a) as -> by congruence. assert (sec0 = sec) as -> by congruence.
  assert (b0 = b1) as -> by congruence.
  rewrite (wf_secure s1 n Hwf1 v b1 Hb1 Hv1) in Hs2.
  assert (Hsb : CacheBlk._secure b2 = sec) by (by destruct sec). clear Hs2.
  pose proof (wf_len s1 n Hwf1) as Hlen1.
  assert (Hcell : forall e, <[v := b2]> (blks s1) !! e = if decide (e = v) then Some b2 else blks s !! e).
  { intros e. destruct (decide (e = v)) as [->|]; [apply list_lookup_insert_eq; lia|].
    rewrite list_lookup_insert_ne by done. by apply Hframe1. }
  unfold extractTag, extractIndex in Ht2, Hi2, Hwhy, Honly. rewrite Hip1 in Ht2, Hi2.
  eexists v, _, rng2. split; [done|]. split; [done|].
  assert (Huniq : index_unique (set_replacement r (set_blks (<[v := b2]> (blks s1)) s1))).
  { intros e e' x x' Hx Hx' Vx Vx' Sx Ix. simpl in Hx, Hx'. rewrite Hcell in Hx, Hx'.
    assert (Hm : forall z bz, blks s !! z = Some bz -> CacheBlk._valid bz = true ->
      CacheBlk._secure bz = sec -> CacheBlk._index_bits bz = ip_extractIndex (indexingPolicy s) a -> z = v).
    { intros z bz Hz Vz Sz Iz. eapply Honly; [done|]. unfold CacheBlk.matchIndex, CacheBlk.isValid,
        CacheBlk.getIndexBits, CacheBlk.isSecure. rewrite Vz, Iz, Sz, Z.eqb_refl. by destruct sec. }
    destruct (decide (e = v)) as [->|Hne], (decide (e' = v)) as [->|Hne']; simplify_eq; try done.
    - symmetry. eapply Hm; [done|done|congruence|congruence].
    - eapply Hm; [done|done|congruence|congruence].
    - by eapply Hu. }
  split; [done|]. split; [simpl; congruence|]. split; [|split].
  - intros did'. unfold NewRandTag.findBlock_dom.
    destruct (candidates (set_replacement r (set_blks (<[v := b2]> (blks s1)) s1)) n a Hwf2 Haw)
      as (Hes & _ & Hr). cbn [ip_getPossibleEntries NewRandIdx.new_rand_idx]. rewrite Hes. cbn [rbind].
    apply search_unique with b2; [done|apply elem_of_seq; lia|simpl; rewrite Hcell; by destruct (decide (v = v))| |].
    + unfold CacheBlk.isValid, CacheBlk.isSecure, CacheBlk.getTag, CacheBlk.getIndexBits, extractTag, extractIndex.
      cbn [indexingPolicy set_replacement set_blks]. rewrite Hip1, Hv2, Hsb, Ht2, Hi2, !Z.eqb_refl. by destruct sec.
    + intros x bx Hx Hne Hbx. apply not_true_is_false. intros Hp. inv_res.
      repeat match goal with E : Bool.eqb _ _ = true |- _ => apply eqb_prop in E
        | E : (_ =? _) = true |- _ => apply Z.eqb_eq in E end.
      apply Hne. apply (Huniq x v bx b2); [done| |done|done|unfold CacheBlk.isSecure in *; congruence|].
      * simpl. rewrite Hcell. by destruct (decide (v = v)).
      * unfold CacheBlk.getIndexBits, extractIndex in *. cbn [indexingPolicy set_replacement set_blks] in *.
        rewrite Hi2, <- Hip1. done.
  - intros e He. simpl. rewrite Hcell. by destruct (decide (e = v)).
  - destruct Hwhy as [(bv & Hbv & Hm & _)|[_ Hr]]; [left; by exists bv|by right].
Qed.

End ras.

(** Four lines, four extra index bits, random replacement. *)
Definition ras_store : t NewRandIdx.t (list RandomRP.Data) :=
  mk PolicyOk.example_rand [false; false; false; false]
    [CacheBlk.empty 0 0 []; CacheBlk.empty 0 1 []; CacheBlk.empty 0 2 []; CacheBlk.empty 0 3 []] 4 64 1.

Lemma ras_store_wf : wf ras_store 4.
Proof.
  constructor.
  - done.
  - split; [|done]. constructor; [constructor; simpl; done || lia|done|done|].
    exists 2. split; [lia|]. split; [simpl; lia|done].
  - done.
  - intros e b Hb. do 4 (destruct e as [|e]; [by simplify_eq/=|]). done.
  - intros e b Hb. do 4 (destruct e as [|e]; [by simplify_eq/=|]). done.
Defined.

Lemma ras_fill_correct_witness :
  exists v s' rng', ras_fill 5 10 512 (Examples.example_req 0x1040 3) ras_store 6 = Ok (v, s', rng') /\
    NewRandTag.findBlock_dom 0x1040 false 3 s' = Ok (Some v) /\ index_unique s'.
Proof.
  destruct (ras_fill_correct 5 10 512 (Examples.example_req 0x1040 3) ras_store 6 4 0x1040 false 3
    ras_store_wf) as (v & s' & rng' & H1 & _ & H2 & _ & H3 & _).
  all: try (by vm_compute).
  - intros e e' b b' Hb _ Hv. do 4 (destruct e as [|e]; [by simplify_eq/=|]). done.
  - exists v, s', rng'. split; [exact H1|]. split; [apply H3|exact H2].
Defined.

End NewRandFacts.
