(* ===== verification/Prefetch.v ===== *)
(** * Prefetchers

    src/gem5/src/mem/cache/prefetch: the base class ([PrefetchBase]), the
    queued prefetcher ([Queued]), the RaS random-fill prefetcher
    ([RandomFill]) and the safe history buffer ([SHB]). What a prefetcher asks
    of its cache is the record [CacheView]; the TLB, which is not part of the
    cache, is the parameter [translate]. Statistics are not modelled, except
    the two counters the throttle reads. *)

From S2P Require Import Prelude BaseUtil MemCmd Request Packet CacheBlk.
Local Open Scope Z_scope.

(** ** Prefetcher::Base *)
Module PrefetchBase.

(** The questions a prefetcher puts to its cache. *)
Record CacheView := mkView {
  inCache : Z -> bool -> Z -> res bool;
  inMissQueue : Z -> bool -> Z -> res bool;
  hasBeenPrefetched : Z -> bool -> Z -> res bool;
  coalesce : bool
}.

Record Params := mkParams {
  blkSize : Z;
  lBlkSize : Z;
  onMiss : bool;
  onRead : bool;
  onWrite : bool;
  onData : bool;
  onInst : bool;
  requestorId : Z;
  pageBytes : Z;
  prefetchOnAccess : bool;
  useVirtualAddresses : bool;
  hasTlb : bool;
  clockPeriod : Z
}.

Record PrefetchInfo := mkInfo {
  address : Z;
  pc : Z;
  pf_requestorId : Z;
  validPC : bool;
  secure : bool;
  pf_size : Z;
  write : bool;
  paddress : Z;
  cacheMiss : bool;
  pf_domainID : Z;
  pf_data : option (list Z)
}.

(** [PrefetchInfo(pkt, addr, miss)]: the payload is copied unless the access
    is a read that missed. *)
Definition info_of_pkt (pkt : Packet.t) (addr : Z) (miss : bool) : res PrefetchInfo :=
  let r := Packet.req pkt in
  let* pc := if Request.hasPC r then Request.getPC r else Ok 0 in
  let* sec := Packet.isSecure pkt in
  let* size := Request.getSize r in
  let* pa := Request.getPaddr r in
  let* did := Packet.getDomainID pkt in
  let info d := mkInfo addr pc (Request.requestorId r) (Request.hasPC r) sec size
                  (Packet.isWrite pkt) pa miss did d in
  if negb (Packet.isWrite pkt) && miss then Ok (info None)
  else
    let* a := Packet.getAddr pkt in
    let offset := Z.to_nat (u64 (pa - a)) in
    let* d := Packet.getConstPtr pkt in
    if (length d <? offset + Z.to_nat size)%nat then Err Undefined
    else Ok (info (Some (slice offset (Z.to_nat size) d))).

(** [PrefetchInfo(pfi, addr)] *)
Definition info_at (pfi : PrefetchInfo) (addr : Z) : PrefetchInfo :=
  mkInfo addr (pc pfi) (pf_requestorId pfi) (validPC pfi) (secure pfi) (pf_size pfi)
    (write pfi) (paddress pfi) (cacheMiss pfi) (pf_domainID pfi) None.

Definition getPC (pfi : PrefetchInfo) : res Z := assert! (validPC pfi) in Ok (pc pfi).

(** The domain is not compared. *)
Definition sameAddr (a b : PrefetchInfo) : bool :=
  (address a =? address b) && eqb (secure a) (secure b).

Section base.
Variable P : Params.

Definition samePage (a b : Z) : res bool :=
  let* x := IntMath.roundDown 64 a (pageBytes P) in
  let* y := IntMath.roundDown 64 b (pageBytes P) in
  Ok (x =? y).

Definition blockAddress (a : Z) : Z := Z.land a (unot 64 (u64 (blkSize P - 1))).
Definition blockIndex (a : Z) : Z := Z.shiftr a (lBlkSize P).
Definition pageAddress (a : Z) : res Z := IntMath.roundDown 64 a (pageBytes P).
Definition pageOffset (a : Z) : Z := Z.land a (u64 (pageBytes P - 1)).
Definition pageIthBlockAddress (page blockIndex : Z) : Z :=
  u64 (page + u32 (Z.shiftl blockIndex (lBlkSize P))).

Definition observeAccess (pkt : Packet.t) (miss : bool) : bool :=
  let fetch := Request.isInstFetch (Packet.req pkt) in
  let read := Packet.isRead pkt in
  let inv := Packet.isInvalidate pkt in
  if negb miss && negb (prefetchOnAccess P) then false
  else if Request.isUncacheable (Packet.req pkt) then false
  else if fetch && negb (onInst P) then false
  else if negb fetch && negb (onData P) then false
  else if negb fetch && read && negb (onRead P) then false
  else if negb fetch && negb read && negb (onWrite P) then false
  else if negb fetch && negb read && inv then false
  else if Packet.cmd_is pkt MemCmd.CleanEvict then false
  else if onMiss P then miss
  else true.

(** The part [probeNotify] and [directNotify] share: [None] for the packets
    they ignore, else whether the access was useful to an earlier prefetch. *)
Definition notify_filter (view : CacheView) (pkt : Packet.t) : res (option bool) :=
  if MemCmd.isSWPrefetch (Packet.cmd pkt) then Ok None
  else if Request.isCacheMaintenance (Packet.req pkt) then Ok None
  else if Packet.isWrite pkt && coalesce view then Ok None
  else
    panic_if! negb (Request.hasPaddr (Packet.req pkt)) in
    let* a := Packet.getAddr pkt in
    let* sec := Packet.isSecure pkt in
    let* did := Packet.getDomainID pkt in
    let* useful := hasBeenPrefetched view a sec did in
    Ok (Some useful).

(** [probeNotify]: the new count of useful prefetches and the info [notify] is
    called with, if it is called. *)
Definition probeNotify (view : CacheView) (pkt : Packet.t) (miss : bool) (useful : Z) :
    res (Z * option PrefetchInfo) :=
  let* f := notify_filter view pkt in
  match f with
  | None => Ok (useful, None)
  | Some hit =>
      let useful := if hit then u64 (useful + 1) else useful in
      if observeAccess pkt miss then
        if useVirtualAddresses P && Request.hasVaddr (Packet.req pkt) then
          let* va := Request.getVaddr (Packet.req pkt) in
          let* pfi := info_of_pkt pkt va miss in Ok (useful, Some pfi)
        else if negb (useVirtualAddresses P) then
          let* pa := Request.getPaddr (Packet.req pkt) in
          let* pfi := info_of_pkt pkt pa miss in Ok (useful, Some pfi)
        else Ok (useful, None)
      else Ok (useful, None)
  end.

(** [directNotify]: random fill, without the access filter. *)
Definition directNotify (view : CacheView) (pkt : Packet.t) (useful : Z) :
    res (Z * option PrefetchInfo) :=
  let* f := notify_filter view pkt in
  match f with
  | None => Ok (useful, None)
  | Some hit =>
      let useful := if hit then u64 (useful + 1) else useful in
      panic_if! (useVirtualAddresses P) in
      let* pa := Request.getPaddr (Packet.req pkt) in
      let* pfi := info_of_pkt pkt pa true in
      Ok (useful, Some pfi)
  end.
End base.
End PrefetchBase.

(** ** Prefetcher::Queued *)
Module Queued.
Import PrefetchBase.

Record QParams := mkQ {
  base : Params;
  queueSize : Z;
  latency : Z;
  queueSquash : bool;
  queueFilter : bool;
  cacheSnoop : bool;
  tagPrefetch : bool;
  throttleControlPct : Z
}.

Record DeferredPacket := mkDP {
  pfInfo : PrefetchInfo;
  tick : Z;
  pkt : option Packet.t;
  priority : Z;
  translationRequest : option Request.t;
  ongoingTranslation : bool
}.

Record t := mk {
  pfq : list DeferredPacket;
  pfqMissingTranslation : list DeferredPacket;
  issuedPrefetches : Z;
  usefulPrefetches : Z
}.

Definition set_pfq (q : list DeferredPacket) (s : t) : t :=
  mk q (pfqMissingTranslation s) (issuedPrefetches s) (usefulPrefetches s).
Definition set_missing (q : list DeferredPacket) (s : t) : t :=
  mk (pfq s) q (issuedPrefetches s) (usefulPrefetches s).
Definition set_issued (n : Z) (s : t) : t :=
  mk (pfq s) (pfqMissingTranslation s) n (usefulPrefetches s).
Definition set_useful (n : Z) (s : t) : t :=
  mk (pfq s) (pfqMissingTranslation s) (issuedPrefetches s) n.

(** [DeferredPacket::operator>] *)
Definition dp_gt (a b : DeferredPacket) : bool := priority b <? priority a.

(** What the TLB does with a request: answer later, fault, or translate. *)
Inductive TlbOutcome := Deferred | Faulted | Translated (paddr : Z).

Section queued.
Variables (Q : QParams) (view : CacheView) (translate : Request.t -> TlbOutcome) (now : Z).

(** [DeferredPacket::createPkt]. The packet id, an address, is only traced. *)
Definition createPkt (paddr blk_size requestor_id : Z) (tag_prefetch : bool) (t : Z)
    (dp : DeferredPacket) : res DeferredPacket :=
  let r := Request.make now paddr blk_size 0 requestor_id in
  let* r := if secure (pfInfo dp) then Request.setFlags Request.SECURE r else Ok r in
  let r := Request.setDomainID (pf_domainID (pfInfo dp)) r in
  let r := Request.with_taskId Request.TaskId_Prefetcher r in
  let* p := Packet.make 0 r MemCmd.HardPFReq in
  let* p := Packet.allocate p in
  let* p := if tag_prefetch && validPC (pfInfo dp) then
              let* pc := getPC (pfInfo dp) in
              Ok (Packet.with_req (Request.setPC pc (Packet.req p)) p)
            else Ok p in
  Ok (mkDP (pfInfo dp) t (Some p) (priority dp) (translationRequest dp) (ongoingTranslation dp)).

Definition getMaxPermittedPrefetches (total : Z) (s : t) : Z :=
  if (0 <? total) && (0 <? issuedPrefetches s) then
    let throttle_pfs := u64 (total * throttleControlPct Q) / 100 in
    let min_pfs := if u64 (total - throttle_pfs) =? 0 then 1 else u64 (total - throttle_pfs) in
    u64 (min_pfs + u64 (u64 (total - min_pfs) * usefulPrefetches s) / issuedPrefetches s)
  else total.

(** The walk that makes room: from the last entry towards the head while the
    priority is that of the last entry. [i] is the position reached. *)
Fixpoint oldest_of_level (q : list DeferredPacket) (lvl : Z) (i : nat) : nat :=
  match i with
  | O => O
  | S j => match q !! j with
           | Some d => if priority d =? lvl then oldest_of_level q lvl j else i
           | None => i
           end
  end.

(** The insertion walk: [--it] until the head or an entry that is not lower. *)
Fixpoint insert_walk (q : list DeferredPacket) (dpp : DeferredPacket) (i : nat) : nat :=
  match i with
  | O => O
  | S j => match q !! j with
           | Some d => if negb (j =? 0)%nat && dp_gt dpp d then insert_walk q dpp j else j
           | None => j
           end
  end.

(** Dropping an entry when the queue is full. *)
Definition make_room (queue : list DeferredPacket) : res (list DeferredPacket) :=
  if u64 (Z.of_nat (length queue)) =? queueSize Q then
    match length queue with
    | O => Err Panic
    | S O => Err Panic
    | S last =>
        match queue !! last with
        | Some d => Ok (remove_at (oldest_of_level queue (priority d) last) queue)
        | None => Err Undefined
        end
    end
  else Ok queue.

(** Placing the new entry. *)
Definition place (dpp : DeferredPacket) (queue : list DeferredPacket) : list DeferredPacket :=
  match queue with
  | [] => [dpp]
  | head :: _ =>
      let i := insert_walk queue dpp (length queue) in
      let i := if (i =? 0)%nat && negb (dp_gt dpp head) then 1%nat else i in
      insert_at i dpp queue
  end.

Definition addToQueue (queue : list DeferredPacket) (dpp : DeferredPacket) : res (list DeferredPacket) :=
  let* queue := make_room queue in
  Ok (place dpp queue).

(** [alreadyInQueue]. The scan leaves the iterator one past the entry found,
    so it is the following entry, if any, whose priority is raised. *)
Definition set_priority (p : Z) (d : DeferredPacket) : DeferredPacket :=
  mkDP (pfInfo d) (tick d) (pkt d) p (translationRequest d) (ongoingTranslation d).

Fixpoint bubble (q : list DeferredPacket) (it prev : nat) : list DeferredPacket :=
  match prev with
  | O => q
  | S p =>
      match q !! it, q !! p with
      | Some a, Some b =>
          if dp_gt a b then bubble (<[it := b]> (<[p := a]> q)) p p else bubble q it p
      | _, _ => q
      end
  end.

Definition alreadyInQueue (queue : list DeferredPacket) (pfi : PrefetchInfo) (prio : Z) :
    bool * list DeferredPacket :=
  match find_first (fun d => sameAddr (pfInfo d) pfi) queue with
  | None => (false, queue)
  | Some (i, _) =>
      let it := S i in
      match queue !! it with
      | Some d =>
          if priority d <? prio
          then (true, bubble (<[it := set_priority prio d]> queue) it it)
          else (true, queue)
      | None => (true, queue)
      end
  end.

Definition createPrefetchRequest (addr : Z) (pfi : PrefetchInfo) (pkt : Packet.t) : res Request.t :=
  let* fl := Request.getFlags (Packet.req pkt) in
  let* pc := getPC pfi in
  let* cid := Request.contextId (Packet.req pkt) in
  let r := Request.make_virt now addr (blkSize (base Q)) fl (requestorId (base Q)) pc cid None in
  let* r := Request.setFlags Request.PREFETCH r in
  Ok (Request.setDomainID (pf_domainID pfi) r).

(** [cacheSnoop && (inCache(..) || inMissQueue(..))] *)
Definition redundant (target_paddr : Z) (pfi : PrefetchInfo) : res bool :=
  if cacheSnoop Q then
    let* c := inCache view target_paddr (secure pfi) (pf_domainID pfi) in
    if c then Ok true else inMissQueue view target_paddr (secure pfi) (pf_domainID pfi)
  else Ok false.

Definition pf_time : Z := u64 (now + u64 (clockPeriod (base Q) * latency Q)).

(** The [queueFilter] prologue of [insert]: [None] when the prefetch is
    already queued. *)
Definition filter_queues (new_pfi : PrefetchInfo) (prio : Z) (s : t) : bool * t :=
  if queueFilter Q then
    let '(f, q) := alreadyInQueue (pfq s) new_pfi prio in
    let s := set_pfq q s in
    if f then (true, s)
    else
      let '(f, q) := alreadyInQueue (pfqMissingTranslation s) new_pfi prio in
      (f, set_missing q s)
  else (false, s).

(** Queue a prefetch whose physical address is known. *)
Definition enqueue_pa (target_paddr : Z) (new_pfi : PrefetchInfo) (prio : Z) (s : t) : res t :=
  let* r := redundant target_paddr new_pfi in
  if r then Ok s
  else
    let* dpp := createPkt target_paddr (blkSize (base Q)) (requestorId (base Q)) (tagPrefetch Q) pf_time
                  (mkDP new_pfi 0 None prio None false) in
    let* q := addToQueue (pfq s) dpp in
    Ok (set_pfq q s).

(** Queue a prefetch that has to be translated first. *)
Definition enqueue_tr (treq : Request.t) (new_pfi : PrefetchInfo) (prio : Z) (s : t) : res t :=
  let* q := addToQueue (pfqMissingTranslation s) (mkDP new_pfi 0 None prio (Some treq) false) in
  Ok (set_missing q s).

Definition insert (pkt : Packet.t) (new_pfi : PrefetchInfo) (prio : Z) (s : t) : res t :=
  let '(found, s) := filter_queues new_pfi prio s in
  if found then Ok s
  else
    let r := Packet.req pkt in
    let* orig_addr := if useVirtualAddresses (base Q) then Request.getVaddr r else Request.getPaddr r in
    let target := address new_pfi in
    let positive_stride := orig_addr <=? target in
    let stride := if positive_stride then u64 (target - orig_addr) else u64 (orig_addr - target) in
    let shift a := if positive_stride then u64 (a + stride) else u64 (a - stride) in
    let* same := samePage (base Q) orig_addr target in
    if same then
      let* target_paddr :=
        if useVirtualAddresses (base Q) then let* pa := Request.getPaddr r in Ok (shift pa)
        else Ok target in
      enqueue_pa target_paddr new_pfi prio s
    else if negb (Request.hasContextId r) then Ok s
    else if useVirtualAddresses (base Q) then
      let* tr := createPrefetchRequest target new_pfi pkt in enqueue_tr tr new_pfi prio s
    else if Request.hasVaddr r then
      let* va := Request.getVaddr r in
      let* tr := createPrefetchRequest (shift va) new_pfi pkt in enqueue_tr tr new_pfi prio s
    else Ok s.

(** [translationComplete] for an entry taken out of the missing queue. *)
Definition translationComplete (dp : DeferredPacket) (failed : bool) (s : t) : res t :=
  if failed then Ok s
  else
    match translationRequest dp with
    | None => Err Undefined
    | Some r =>
        let* target_paddr := Request.getPaddr r in
        let* red := redundant target_paddr (pfInfo dp) in
        if red then Ok s
        else
          let* dp := createPkt target_paddr (blkSize (base Q)) (requestorId (base Q)) (tagPrefetch Q)
                       pf_time dp in
          let* q := addToQueue (pfq s) dp in
          Ok (set_pfq q s)
    end.

(** [startTranslation] on one entry. [None]: the TLB answered at once and
    [translationComplete] has erased the entry. *)
Definition startTranslation (dp : DeferredPacket) (s : t) : res (option DeferredPacket * t) :=
  match translationRequest dp with
  | None => Err AssertFail
  | Some r =>
      if ongoingTranslation dp then Ok (Some dp, s)
      else
        match translate r with
        | Deferred => Ok (Some (mkDP (pfInfo dp) (tick dp) (pkt dp) (priority dp) (Some r) true), s)
        | Faulted => let* s := translationComplete dp true s in Ok (None, s)
        | Translated pa =>
            let dp := mkDP (pfInfo dp) (tick dp) (pkt dp) (priority dp)
                        (Some (Request.setPaddr pa r)) false in
            let* s := translationComplete dp false s in Ok (None, s)
        end
  end.

(** The loop of [processMissingTranslations] over the entries [todo]; the
    missing queue is what it leaves behind. *)
Fixpoint process (max : nat) (todo : list DeferredPacket) (s : t) : res (list DeferredPacket * t) :=
  match max, todo with
  | O, _ => Ok (todo, s)
  | _, [] => Ok ([], s)
  | S max, dp :: todo =>
      let* (kept, s) := startTranslation dp s in
      let* (rest, s) := process max todo s in
      Ok (match kept with Some dp => dp :: rest | None => rest end, s)
  end.

Definition processMissingTranslations (max : Z) (s : t) : res t :=
  let* (rest, s) := process (Z.to_nat max) (pfqMissingTranslation s) s in
  Ok (set_missing rest s).

Definition getPacket (s : t) : res (option Packet.t * t) :=
  let* s := match pfq s with [] => processMissingTranslations (queueSize Q) s | _ => Ok s end in
  match pfq s with
  | [] => Ok (None, s)
  | d :: q =>
      let s := set_issued (u64 (issuedPrefetches s + 1)) (set_pfq q s) in
      match pkt d with
      | None => Err AssertFail
      | Some p =>
          let* s := processMissingTranslations (u32 (queueSize Q - Z.of_nat (length q))) s in
          Ok (Some p, s)
      end
  end.

Definition nextPrefetchReadyTime (s : t) : res Z :=
  match pfq s with
  | [] => Ok MaxTick
  | d :: _ =>
      if tick d <? now then
        if clockPeriod (base Q) =? 0 then Err Undefined
        else Ok (u64 (now - now mod clockPeriod (base Q) + clockPeriod (base Q)))
      else Ok (tick d)
  end.

(** Squashing the queued prefetches of a line that is now demanded. *)
Definition squash (blk_addr : Z) (is_secure : bool) (q : list DeferredPacket) : list DeferredPacket :=
  List.filter (fun d => negb ((address (pfInfo d) =? blk_addr) && eqb (secure (pfInfo d)) is_secure)) q.

(** [notify], over the virtual [calculatePrefetch] and [insert]. *)
Section notify.
Variable calculatePrefetch : PrefetchInfo -> nat -> res (list (Z * Z) * nat).
Variable insert : Packet.t -> PrefetchInfo -> Z -> t -> res t.

Fixpoint notify_loop (pkt : Packet.t) (pfi : PrefetchInfo) (max_pfs num_pfs : Z)
    (addresses : list (Z * Z)) (s : t) : res t :=
  match addresses with
  | [] => Ok s
  | (a, prio) :: rest =>
      let a := blockAddress (base Q) a in
      let* same := samePage (base Q) a (address pfi) in
      if hasTlb (base Q) || same then
        let* s := insert pkt (info_at pfi a) prio s in
        let num_pfs := num_pfs + 1 in
        if num_pfs =? max_pfs then Ok s else notify_loop pkt pfi max_pfs num_pfs rest s
      else notify_loop pkt pfi max_pfs num_pfs rest s
  end.

Definition notify (pkt : Packet.t) (pfi : PrefetchInfo) (s : t) (rng : nat) : res (t * nat) :=
  let blk_addr := blockAddress (base Q) (address pfi) in
  let s := if queueSquash Q then set_pfq (squash blk_addr (secure pfi) (pfq s)) s else s in
  let* (addresses, rng) := calculatePrefetch pfi rng in
  let max_pfs := getMaxPermittedPrefetches (Z.of_nat (length addresses)) s in
  let* s := notify_loop pkt pfi max_pfs 0 addresses s in
  Ok (s, rng).
End notify.
End queued.
End Queued.

(** ** Prefetcher::RandomFill *)
Module RandomFill.
Import PrefetchBase Queued.

Record RParams := mkR { queued : QParams; lowRange : Z; highRange : Z; degree : Z }.

Definition make (q : QParams) (low high degree : Z) : res RParams :=
  panic_if! (low <? -32) || (32 <? low) in
  panic_if! (high <? -32) || (32 <? high) in
  Ok (mkR q low high degree).

Section random_fill.
Context `{RandomSource}.
Variables (F : RParams) (view : CacheView) (now : Z).
Abbreviation P := (base (queued F)).

Definition insert (pkt : Packet.t) (new_pfi : PrefetchInfo) (prio : Z) (s : t) : res t :=
  let '(found, s) := filter_queues (queued F) new_pfi prio s in
  if found then Ok s
  else
    panic_if! (useVirtualAddresses P) in
    let* orig_addr := Request.getPaddr (Packet.req pkt) in
    let target_paddr := address new_pfi in
    let* same := samePage P orig_addr target_paddr in
    panic_if! negb same in
    enqueue_pa (queued F) view now target_paddr new_pfi prio s.

(** [blk_addr + (random_offset << lBlkSize)]: the offset is an [int], sign
    extended when it is added to the address. *)
Definition offset_addr (blk_addr random_offset : Z) : Z :=
  u64 (blk_addr + swrap 32 (Z.shiftl random_offset (lBlkSize P))).

(** One candidate: the random offset, reflected when it leaves the page. *)
Definition candidate (blk_addr random_offset : Z) : res Z :=
  let new_addr := offset_addr blk_addr random_offset in
  let* same := samePage P blk_addr new_addr in
  if same then Ok new_addr
  else
    let new_addr := offset_addr blk_addr (swrap 32 (- random_offset)) in
    let* same := samePage P blk_addr new_addr in
    panic_if! negb same in
    panic_if! negb (new_addr =? blockAddress P new_addr) in
    Ok new_addr.

Fixpoint candidates (d : nat) (blk_addr : Z) (rng : nat) : res (list (Z * Z) * nat) :=
  match d with
  | O => Ok ([], rng)
  | S d =>
      let* (off, rng) := RandomMT.random (lowRange F) (highRange F) rng in
      let* a := candidate blk_addr off in
      let* (rest, rng) := candidates d blk_addr rng in
      Ok ((a, 0) :: rest, rng)
  end.

Definition calculatePrefetch (pfi : PrefetchInfo) (rng : nat) : res (list (Z * Z) * nat) :=
  candidates (Z.to_nat (degree F)) (blockAddress P (address pfi)) rng.

(** The prefetcher the RaS cache drives: [Queued::notify] with the overrides
    above. *)
Definition notify (pkt : Packet.t) (pfi : PrefetchInfo) (s : t) (rng : nat) : res (t * nat) :=
  Queued.notify (queued F) calculatePrefetch insert pkt pfi s rng.

(** [directNotify] down to the queue. *)
Definition directNotify (pkt : Packet.t) (s : t) (rng : nat) : res (t * nat) :=
  let* (useful, info) := PrefetchBase.directNotify P view pkt (usefulPrefetches s) in
  let s := set_useful useful s in
  match info with
  | None => Ok (s, rng)
  | Some pfi => notify pkt pfi s rng
  end.
End random_fill.
End RandomFill.

(** ** Prefetcher::SHB *)
Module SHB.
Import PrefetchBase.

Record SParams := mkS {
  base : Params;
  shbSize : Z;
  shbIssue : Z;
  issueInterval : Z;
  maxIssueInterval : Z;
  blkNum : Z;
  shbSelect : Z
}.

(** Constructor: constant issue uses the one interval. *)
Definition make (b : Params) (size issue interval max_interval blk_num select : Z) : res SParams :=
  let mx := if issue =? 1 then interval else max_interval in
  panic_if! (issue =? 2) && (mx <=? interval) in
  Ok (mkS b size issue interval mx blk_num select).

Record shbReqInfo := mkReq { addr : Z; secure : bool; domainID : Z; requestorID : Z }.

Record t := mk { shb : list shbReqInfo; readyTime : Z }.

Section shb.
Context `{RandomSource}.
Variables (S : SParams) (now : Z).

Definition notifySHB (pkt : Packet.t) (s : t) : res t :=
  let* a := Packet.getAddr pkt in
  if blkSize (base S) =? 0 then Err Undefined else
  let align_addr := a - a mod blkSize (base S) in
  let* did := Packet.getDomainID pkt in
  assert! (Z.of_nat (length (shb s)) <=? shbSize S) in
  let l := if Z.of_nat (length (shb s)) =? shbSize S then removelast (shb s) else shb s in
  (* [pop_back] on an empty buffer *)
  if (Z.of_nat (length (shb s)) =? shbSize S) && (length (shb s) =? 0)%nat then Err Undefined else
  let* sec := Packet.isSecure pkt in
  Ok (mk (mkReq align_addr sec did (Packet.requestorId pkt) :: l) (readyTime s)).

(** The window of an address: its blocks are prefetched with equal chance. *)
Definition window (a : Z) : res Z :=
  let w := u32 (blkNum S * blkSize (base S)) in
  if w =? 0 then Err Undefined else Ok (a - a mod w).

Definition getPacket (s : t) (rng : nat) : res (option Packet.t * t * nat) :=
  match shb s with
  | [] => Ok (None, s, rng)
  | _ =>
      assert! (Z.of_nat (length (shb s)) <=? shbSize S) in
      panic_if! negb (shbSelect S =? 1) in
      let* (idx, rng) := RandomMT.random 0 (u32 (Z.of_nat (length (shb s)) - 1)) rng in
      match shb s !! Z.to_nat idx with
      | None => Err Undefined
      | Some e =>
          let* lo := window (addr e) in
          let* (blk_offset, rng) := RandomMT.random 0 (u32 (blkNum S - 1)) rng in
          let pkt_addr := u64 (lo + u32 (blk_offset * blkSize (base S))) in
          let r := Request.make now pkt_addr (blkSize (base S)) 0 (requestorID e) in
          let* r := if secure e then Request.setFlags Request.SECURE r else Ok r in
          let r := Request.setDomainID (domainID e) r in
          let r := Request.with_taskId Request.TaskId_Prefetcher r in
          let* r := Request.clearFlags Request.DEMAND_FETCH r in
          let* p := Packet.make 0 r MemCmd.HardPFReq in
          let* p := Packet.allocate p in
          Ok (Some p, s, rng)
      end
  end.

(** The loop of the random issue mode; each round moves the ready time forward
    by at least one tick, so the distance to the present bounds the rounds. *)
Fixpoint advance (fuel : nat) (ready : Z) (rng : nat) : res (Z * nat) :=
  if now <? ready then Ok (ready, rng)
  else match fuel with
  | O => Err Undefined
  | Datatypes.S fuel =>
      let* (c, rng) := RandomMT.random (u32 (issueInterval S)) (u32 (maxIssueInterval S)) rng in
      advance fuel (u64 (ready + u64 (c * clockPeriod (base S)))) rng
  end.

Definition nextPrefetchReadyTime (s : t) (rng : nat) : res (Z * t * nat) :=
  if shbIssue S =? 1 then
    let issue_tick := u64 (issueInterval S * clockPeriod (base S)) in
    if issue_tick =? 0 then Err Undefined
    else Ok (u64 (now - now mod issue_tick + issue_tick), s, rng)
  else
    assert! (shbIssue S =? 2) in
    let* (ready, rng) := advance (Z.to_nat (now - readyTime s + 1)) (readyTime s) rng in
    Ok (ready, mk (shb s) ready, rng).
End shb.
End SHB.
