(* ===== verification/PrefetchFacts.v ===== *)
(** * Correctness of the prefetchers

    Random fill stays in the page of the access that triggers it; the prefetch
    queue is bounded and loses only the entry it names; the safe history
    buffer holds the most recent accesses, issues from the window of one of
    them, and what it issues does not depend on the offset inside a window. *)

From S2P Require Import Prelude BaseUtil MemCmd Request Packet CacheBlk Prefetch.
Local Open Scope Z_scope.

Module RandomFillFacts.
Import PrefetchBase Queued RandomFill.

(** Blocks of [2^lb] bytes, pages of [2^pb] bytes with at least 64 blocks. *)
Record geometry (P : Params) (lb pb : Z) : Prop := {
  g_blk : blkSize P = 2 ^ lb;
  g_lblk : lBlkSize P = lb;
  g_page : pageBytes P = 2 ^ pb;
  g_lb : 0 <= lb <= 24;
  g_pb : lb + 6 <= pb < 64
}.

Lemma samePage_spec P lb pb a b :
  geometry P lb pb -> in_word 64 a -> in_word 64 b ->
  samePage P a b = Ok (a / 2 ^ pb =? b / 2 ^ pb).
Proof.
  intros [Hb Hl Hp Hlb Hpb] Ha Hw. unfold samePage. rewrite Hp.
  rewrite !IntMath.roundDown_pow2 by (done || lia). cbn [rbind]. f_equal.
  rewrite !align_down_div by lia. pose proof (pow2_pos pb).
  destruct (Z.eqb_spec (a / 2 ^ pb) (b / 2 ^ pb)) as [->|Hne]; [apply Z.eqb_refl|].
  apply Z.eqb_neq. intros E. apply Hne. nia.
Qed.

Lemma blockAddress_spec P lb pb a :
  geometry P lb pb -> in_word 64 a -> blockAddress P a = a / 2 ^ lb * 2 ^ lb.
Proof.
  intros [Hb Hl Hp Hlb Hpb] Ha. unfold blockAddress. rewrite Hb.
  pose proof (pow2_pos lb). pose proof (Z.pow_lt_mono_r 2 lb 64).
  rewrite uwrap_small by (split; lia). rewrite land_unot_ones by (done || lia).
  rewrite align_down_div by lia. ring.
Qed.

Lemma offset_addr_spec F lb pb blk off :
  geometry (base (queued F)) lb pb -> -32 <= off <= 32 ->
  offset_addr F blk off = u64 (blk + off * 2 ^ lb).
Proof.
  intros [Hb Hl Hp Hlb Hpb] Hoff. unfold offset_addr. rewrite Hl. do 2 f_equal.
  rewrite Z.shiftl_mul_pow2 by lia. unfold swrap.
  assert (2 ^ lb <= 2 ^ 24) by (apply Z.pow_le_mono_r; lia). pose proof (pow2_pos lb).
  rewrite Z.mod_small; [lia|]. change (2 ^ (32 - 1)) with 2147483648. change (2 ^ 32) with 4294967296.
  change (2 ^ 24) with 16777216 in *. nia.
Qed.

(** What a candidate must satisfy: block aligned, in the page of the trigger,
    at most 32 blocks from it. *)
Definition good (lb pb blk a : Z) : Prop :=
  in_word 64 a /\ a mod 2 ^ lb = 0 /\ a / 2 ^ pb = blk / 2 ^ pb /\
  exists off, -32 <= off <= 32 /\ a = u64 (blk + off * 2 ^ lb).

(** An aligned block [k] of a page with [n >= 64] blocks: one of the two
    reflections of an offset stays in the page. *)
Lemma reflect_in_page n k off :
  64 <= n -> 0 <= k < n -> -32 <= off <= 32 -> 0 <= k + off < n \/ 0 <= k - off < n.
Proof. lia. Qed.

Section one.
Variables (F : RParams) (lb pb q k : Z).
Hypothesis G : geometry (base (queued F)) lb pb.
(** The trigger: block [k] of page [q]. *)
Abbreviation n := (2 ^ (pb - lb)).
Abbreviation blk := (q * 2 ^ pb + k * 2 ^ lb).
Hypotheses (Hk : 0 <= k < n) (Hblk : in_word 64 blk) (Hq : 0 <= q).

Lemma page_split : 2 ^ pb = n * 2 ^ lb.
Proof. destruct G. rewrite <- Z.pow_add_r by lia. f_equal. lia. Qed.

Lemma page_top : (q + 1) * 2 ^ pb <= 2 ^ 64.
Proof.
  destruct G as [_ _ _ Hlb Hpb]. destruct Hblk as [_ Hlt].
  assert (E : 2 ^ 64 = 2 ^ (64 - pb) * 2 ^ pb) by (rewrite <- Z.pow_add_r by lia; f_equal; lia).
  pose proof (pow2_pos pb). pose proof (pow2_pos lb). rewrite E in *. nia.
Qed.

Lemma in_page_block j :
  0 <= j < n -> in_word 64 (q * 2 ^ pb + j * 2 ^ lb) /\
  (q * 2 ^ pb + j * 2 ^ lb) / 2 ^ pb = q /\ (q * 2 ^ pb + j * 2 ^ lb) mod 2 ^ lb = 0.
Proof.
  intros Hj. destruct G as [_ _ _ Hlb Hpb]. pose proof page_split as Hs. pose proof page_top as Ht.
  pose proof (pow2_pos lb ltac:(lia)).
  assert (Hr : 0 <= j * 2 ^ lb < 2 ^ pb) by nia.
  split; [split; nia|]. split; [apply div_pow2_mul_add; lia|].
  rewrite Hs, Z.mul_assoc, <- Z.mul_add_distr_r. apply Z.mod_mul. lia.
Qed.

(** The candidate computed from an offset is good, and no panic fires. *)
Lemma candidate_ok off :
  -32 <= off <= 32 -> exists a, candidate F blk off = Ok a /\ good lb pb blk a.
Proof.
  intros Hoff. pose proof G as [_ _ _ Hlb Hpb].
  assert (Hn : 64 <= n) by (change 64 with (2 ^ 6); apply Z.pow_le_mono_r; lia).
  assert (Hgood : forall o, -32 <= o <= 32 -> u64 (blk + o * 2 ^ lb) / 2 ^ pb = blk / 2 ^ pb ->
    good lb pb blk (u64 (blk + o * 2 ^ lb))).
  { intros o Ho Hp. split; [by apply uwrap_range|]. split; [|split; [done|by exists o]].
    unfold uwrap. rewrite <- Znumtheory.Zmod_div_mod; [|apply pow2_pos; lia|lia|].
    - rewrite page_split, Z.mul_assoc, <- !Z.mul_add_distr_r. apply Z.mod_mul.
      pose proof (pow2_pos lb). lia.
    - exists (2 ^ (64 - lb)). rewrite <- Z.pow_add_r by lia. f_equal. lia. }
  assert (Hin : forall o, 0 <= k + o < n ->
    u64 (blk + o * 2 ^ lb) = q * 2 ^ pb + (k + o) * 2 ^ lb /\
    u64 (blk + o * 2 ^ lb) / 2 ^ pb = blk / 2 ^ pb).
  { intros o Ho. destruct (in_page_block (k + o) Ho) as (Hw & Hd & _).
    destruct (in_page_block k Hk) as (_ & Hd0 & _).
    replace (blk + o * 2 ^ lb) with (q * 2 ^ pb + (k + o) * 2 ^ lb) by ring.
    rewrite uwrap_small by done. split; [done|]. congruence. }
  unfold candidate. rewrite (offset_addr_spec F lb pb) by done.
  rewrite (samePage_spec _ lb pb) by first [done|apply uwrap_range; lia]. cbn [rbind].
  destruct (Z.eqb_spec (blk / 2 ^ pb) (u64 (blk + off * 2 ^ lb) / 2 ^ pb)) as [E|E].
  { eexists. split; [done|]. by apply Hgood. }
  assert (Hneg : 0 <= k - off < n).
  { destruct (reflect_in_page n k off Hn Hk Hoff) as [Hc|]; [|done]. exfalso. apply E.
    symmetry. by apply Hin. }
  assert (Hsw : swrap 32 (- off) = - off).
  { unfold swrap. rewrite Z.mod_small; change (2 ^ (32 - 1)) with 2147483648; change (2 ^ 32) with 4294967296; lia. }
  rewrite Hsw, (offset_addr_spec F lb pb) by (done || lia).
  destruct (Hin (- off) ltac:(lia)) as [Ex Ep].
  rewrite (samePage_spec _ lb pb) by first [done|apply uwrap_range; lia].
  rewrite Ep, Z.eqb_refl. cbn [rbind negb].
  destruct (in_page_block (k + - off) ltac:(lia)) as (Hw & _ & Hm).
  rewrite (blockAddress_spec _ lb pb) by first [done|apply uwrap_range; lia].
  rewrite <- Ex in Hm. pose proof (split_pow2 lb (u64 (blk + - off * 2 ^ lb)) ltac:(lia)) as Hal.
  rewrite Hm, Z.add_0_r in Hal. rewrite <- Hal, Z.eqb_refl. cbn [negb].
  eexists. split; [done|]. apply Hgood; [lia|done].
Qed.
End one.

(** The block of an address, as a block of its page. *)
Lemma block_of_page P lb pb a :
  geometry P lb pb -> in_word 64 a ->
  exists q k, blockAddress P a = q * 2 ^ pb + k * 2 ^ lb /\ 0 <= k < 2 ^ (pb - lb) /\ 0 <= q /\
    in_word 64 (q * 2 ^ pb + k * 2 ^ lb) /\ q = a / 2 ^ pb.
Proof.
  intros G Ha. pose proof G as [_ _ _ Hlb Hpb]. rewrite (blockAddress_spec P lb pb) by done.
  pose proof (pow2_pos lb). pose proof (pow2_pos (pb - lb)). destruct Ha as [Ha0 Ha1].
  exists (a / 2 ^ pb), ((a / 2 ^ lb) mod 2 ^ (pb - lb)).
  assert (Hs : 2 ^ pb = 2 ^ lb * 2 ^ (pb - lb)) by (rewrite <- Z.pow_add_r by lia; f_equal; lia).
  assert (E : a / 2 ^ lb * 2 ^ lb = a / 2 ^ pb * 2 ^ pb + (a / 2 ^ lb) mod 2 ^ (pb - lb) * 2 ^ lb).
  { rewrite (split_pow2 (pb - lb) (a / 2 ^ lb)) at 1 by lia.
    rewrite Z.div_div by lia. rewrite Hs. ring. }
  assert (0 <= a / 2 ^ pb) by (apply Z.div_pos; [lia|apply pow2_pos; lia]).
  assert (0 <= (a / 2 ^ lb) mod 2 ^ (pb - lb) < 2 ^ (pb - lb)) by (apply Z.mod_pos_bound; lia).
  split; [done|]. split; [done|]. split; [done|]. split; [|done]. rewrite <- E.
  pose proof (Z.mul_div_le a (2 ^ lb)). pose proof (Z.div_pos a (2 ^ lb)). split; lia || nia.
Qed.

Section many.
Context `{RandomSource}.
Variables (F : RParams) (lb pb : Z).
Hypothesis G : geometry (base (queued F)) lb pb.
Hypotheses (Hlow : -32 <= lowRange F) (Hle : lowRange F <= highRange F) (Hhigh : highRange F <= 32).

Lemma candidates_ok q k d : forall rng,
  0 <= k < 2 ^ (pb - lb) -> in_word 64 (q * 2 ^ pb + k * 2 ^ lb) -> 0 <= q ->
  exists l, candidates F d (q * 2 ^ pb + k * 2 ^ lb) rng = Ok (l, (rng + d)%nat) /\ length l = d /\
    Forall (fun c => good lb pb (q * 2 ^ pb + k * 2 ^ lb) c.1 /\ c.2 = 0) l.
Proof.
  induction d as [|d IH]; intros rng Hk Hb Hq; cbn [candidates].
  { exists []. split; [do 2 f_equal; lia|done]. }
  destruct (RandomMT.random_ok (lowRange F) (highRange F) rng Hle) as (off & -> & Hoff). cbn [rbind].
  destruct (candidate_ok F lb pb q k G Hk Hb Hq off ltac:(lia)) as (a & -> & Ha). cbn [rbind].
  destruct (IH (S rng) Hk Hb Hq) as (l & -> & Hlen & Hall). cbn [rbind].
  eexists. split; [do 2 f_equal; lia|]. split; [simpl; lia|]. by constructor.
Qed.

(** C27. Random fill never leaves the page. With offsets of at most 32 blocks
    either way and pages of at least 64 blocks, [calculatePrefetch] succeeds
    (neither panic fires) for every trigger address, draws once per candidate,
    and every candidate is block aligned, lies in the page of the trigger and
    is at most 32 blocks away from its block. *)
Theorem random_fill_in_page (pfi : PrefetchInfo) (rng : nat) :
  in_word 64 (address pfi) -> 0 <= degree F ->
  exists l, calculatePrefetch F pfi rng = Ok (l, (rng + Z.to_nat (degree F))%nat) /\
    length l = Z.to_nat (degree F) /\
    Forall (fun c => exists off, -32 <= off <= 32 /\
      c.1 = u64 (address pfi / 2 ^ lb * 2 ^ lb + off * 2 ^ lb) /\
      c.1 mod 2 ^ lb = 0 /\ c.1 / 2 ^ pb = address pfi / 2 ^ pb /\ c.2 = 0) l.
Proof.
  intros Ha Hd. unfold calculatePrefetch.
  destruct (block_of_page _ lb pb _ G Ha) as (q & k & E & Hk & Hq & Hw & Hqa).
  pose proof (blockAddress_spec _ lb pb _ G Ha) as E2. rewrite E.
  destruct (candidates_ok q k (Z.to_nat (degree F)) rng Hk Hw Hq) as (l & -> & Hlen & Hall).
  exists l. split; [done|]. split; [done|]. eapply Forall_impl; [exact Hall|].
  intros [c pr] [(_ & Hm & Hp & off & Hoff & Hc) Hpr]. exists off. simpl in *.
  rewrite <- E2, E. split; [done|]. split; [done|]. split; [done|]. split; [|done].
  rewrite Hp, <- Hqa. destruct (in_page_block F lb pb q k G Hk Hw Hq k Hk) as (_ & -> & _). done.
Qed.
End many.

Definition example_params : Params :=
  mkParams 64 6 true true true true true 7 4096 true false false 500.
Definition example_fill : RParams :=
  mkR (mkQ example_params 32 1 true true true true 0) (-32) 32 2.
Definition example_info (a : Z) : PrefetchInfo := mkInfo a 0 1 false false 8 false a true 3 None.

Lemma example_geometry : geometry example_params 6 12.
Proof. constructor; simpl; lia || done. Qed.

Lemma random_fill_in_page_witness :
  exists l, calculatePrefetch example_fill (example_info 0x10fc8) 60 = Ok (l, 62%nat) /\ length l = 2%nat /\
    Forall (fun c => c.1 / 2 ^ 12 = 0x10) l.
Proof.
  destruct (random_fill_in_page example_fill 6 12 example_geometry) with (pfi := example_info 0x10fc8) (rng := 60%nat)
    as (l & H1 & H2 & H3).
  - simpl; lia.
  - simpl; lia.
  - simpl; lia.
  - by vm_compute.
  - simpl; lia.
  - exists l. split; [exact H1|]. split; [exact H2|]. eapply Forall_impl; [exact H3|].
    intros c (off & _ & _ & _ & Hp & _). exact Hp.
Defined.

End RandomFillFacts.

(** ** The prefetch queue *)
Module QueuedFacts.
Import PrefetchBase Queued.

Lemma oldest_of_level_spec q lvl i :
  (i < length q)%nat -> (forall d, q !! i = Some d -> priority d = lvl) ->
  exists j d, oldest_of_level q lvl i = j /\ (j <= i)%nat /\ q !! j = Some d /\ priority d = lvl /\
    (forall x dx, (j <= x <= i)%nat -> q !! x = Some dx -> priority dx = lvl) /\
    (forall dx, q !! pred j = Some dx -> j <> O -> priority dx <> lvl).
Proof.
  induction i as [|i IH]; intros Hi Hlvl; simpl.
  - destruct (lookup_lt_is_Some_2 q 0 Hi) as [d Hd]. exists O, d.
    split; [done|]. split; [lia|]. split; [done|]. split; [auto|]. split.
    + intros x dx Hx Hdx. replace x with O in Hdx by lia. auto.
    + intros. lia.
  - destruct (lookup_lt_is_Some_2 q i ltac:(lia)) as [d Hd]. rewrite Hd.
    destruct (lookup_lt_is_Some_2 q (S i) Hi) as [d1 Hd1].
    destruct (Z.eqb_spec (priority d) lvl) as [E|E].
    + destruct IH as (j & dj & Hj & Hle & Hdj & Hp & Hall & Hpred); [lia|congruence|].
      exists j, dj. split; [done|]. split; [lia|]. split; [done|]. split; [done|]. split; [|done].
      intros x dx Hx Hdx. destruct (decide (x = S i)) as [->|]; [eauto|]. eapply Hall; [|done]. lia.
    + exists (S i), d1. split; [done|]. split; [lia|]. split; [done|]. split; [auto|]. split.
      * intros x dx Hx Hdx. replace x with (S i) in Hdx by lia. auto.
      * intros dx Hdx _. simpl in Hdx. congruence.
Qed.

Lemma place_permutation dpp q : place dpp q ≡ₚ dpp :: q.
Proof. destruct q as [|h q]; simpl; [done|]. apply insert_at_Permutation. Qed.

Section add.
Variable Q : QParams.
Hypothesis HQ : 2 <= queueSize Q < 2 ^ 32.

Lemma full_spec (q : list DeferredPacket) : Z.of_nat (length q) <= queueSize Q ->
  u64 (Z.of_nat (length q)) = Z.of_nat (length q).
Proof. intros. apply uwrap_small. split; [lia|]. change (2 ^ 32) with 4294967296 in *. lia. Qed.

(** The prefetch queue is bounded and drops exactly one entry when full.
    With a capacity of at least two, adding to a queue within its capacity
    succeeds and stays within it. Below capacity nothing is lost; at capacity
    the entry lost is the foremost of the run of entries that share the
    priority of the last one. *)
Theorem add_to_queue_bounded (q : list DeferredPacket) (dpp : DeferredPacket) :
  Z.of_nat (length q) <= queueSize Q ->
  exists q', addToQueue Q q dpp = Ok q' /\ dpp ∈ q' /\ Z.of_nat (length q') <= queueSize Q /\
    ((Z.of_nat (length q) < queueSize Q /\ q' ≡ₚ dpp :: q) \/
     (Z.of_nat (length q) = queueSize Q /\ exists i v z, q !! i = Some v /\ last q = Some z /\
        v :: q' ≡ₚ dpp :: q /\
        (forall x d, (i <= x)%nat -> q !! x = Some d -> priority d = priority z) /\
        (forall d, q !! pred i = Some d -> i <> O -> priority d <> priority z))).
Proof.
  intros Hlen. unfold addToQueue, make_room. rewrite full_spec by done.
  destruct (Z.eqb_spec (Z.of_nat (length q)) (queueSize Q)) as [Efull|Efull].
  - destruct (length q) as [|[|m]] eqn:El; [lia|lia|].
    destruct (lookup_lt_is_Some_2 q (S m) ltac:(lia)) as [z Hz]. rewrite Hz.
    destruct (oldest_of_level_spec q (priority z) (S m)) as (i & v & Hi & Hle & Hv & Hpv & Hall & Hpred);
      [lia|congruence|].
    rewrite Hi. cbn [rbind].
    pose proof (remove_at_Permutation i v q Hv) as Hperm.
    pose proof (place_permutation dpp (remove_at i q)) as Hpl.
    eexists. split; [done|]. split; [rewrite Hpl; set_solver|]. split.
    + rewrite Hpl. simpl. rewrite length_remove_at by lia. lia.
    + right. split; [lia|]. exists i, v, z. split; [done|].
      split; [rewrite last_lookup, El; done|].
      split; [rewrite Hpl, Permutation_swap, Hperm; done|]. split; [|done].
      intros x d Hx Hd. eapply Hall; [|exact Hd]. apply lookup_lt_Some in Hd. lia.
  - cbn [rbind]. pose proof (place_permutation dpp q) as Hpl.
    eexists. split; [done|]. split; [rewrite Hpl; set_solver|]. split; [rewrite Hpl; simpl; lia|].
    left. split; [lia|done].
Qed.
End add.

Definition example_q : QParams := RandomFill.queued RandomFillFacts.example_fill.
Definition entry (a prio : Z) : DeferredPacket :=
  mkDP (RandomFillFacts.example_info a) 0 None prio None false.

Lemma add_to_queue_bounded_witness :
  exists q', addToQueue example_q [entry 0x40 2; entry 0x80 1] (entry 0xc0 1) = Ok q' /\
    entry 0xc0 1 ∈ q'.
Proof.
  destruct (add_to_queue_bounded example_q ltac:(simpl; lia) [entry 0x40 2; entry 0x80 1] (entry 0xc0 1))
    as (q' & H1 & H2 & _).
  - simpl. lia.
  - exists q'. split; [exact H1|exact H2].
Defined.

Lemma insert_walk_stop q dpp j d :
  q !! j = Some d -> dp_gt dpp d = false -> insert_walk q dpp (S j) = j.
Proof. intros Hd Hgt. simpl. rewrite Hd, Hgt. by rewrite andb_false_r. Qed.

(** The queue is not first-in first-out. When every priority is equal (as
    for random fill), a new prefetch is placed before the last entry of a
    queue of two or more, which it overtakes; the documented order, by priority
    and then by age, is not kept, even for a sorted queue with distinct
    priorities. *)
Theorem queue_order_not_kept :
  (forall Q q0 z dpp, q0 <> [] -> Forall (fun d => priority d = priority dpp) (q0 ++ [z]) ->
     Z.of_nat (S (length q0)) < queueSize Q -> queueSize Q < 2 ^ 32 ->
     addToQueue Q (q0 ++ [z]) dpp = Ok (q0 ++ [dpp; z])) /\
  rmap (map priority) (addToQueue example_q [entry 0x40 5; entry 0x80 3] (entry 0xc0 1)) = Ok [5; 1; 3].
Proof.
  split; [|by vm_compute].
  intros Q q0 z dpp Hne Hall Hlen HQ. unfold addToQueue, make_room.
  assert (El : length (q0 ++ [z]) = S (length q0)) by (rewrite length_app; simpl; lia).
  rewrite El, uwrap_small by (split; [lia|change (2 ^ 32) with 4294967296 in *; lia]).
  rewrite (proj2 (Z.eqb_neq _ _)) by lia. cbn [rbind]. f_equal.
  assert (Hz : (q0 ++ [z]) !! length q0 = Some z)
    by (rewrite lookup_app_r by lia; by rewrite Nat.sub_diag).
  assert (Hw : insert_walk (q0 ++ [z]) dpp (S (length q0)) = length q0).
  { apply insert_walk_stop with z; [done|]. apply Forall_app in Hall as [_ Hall].
    apply Forall_cons_iff in Hall as [Hp _]. unfold dp_gt. rewrite Hp. apply Z.ltb_irrefl. }
  destruct q0 as [|h q0]; [done|]. unfold place. cbn [app] in *. rewrite El, Hw. cbn [length Nat.eqb andb].
  unfold insert_at. cbn [length take drop]. rewrite take_app_length, drop_app_length. done.
Qed.

(** A duplicate prefetch raises the wrong entry. [alreadyInQueue] steps its
    iterator past the entry it finds, so the new priority goes to the entry
    behind it (here a different line), and to no entry when the duplicate is
    last. *)
Theorem duplicate_raises_neighbour :
  let q := [entry 0x40 1; entry 0x80 1; entry 0xc0 1] in
  (let '(found, q') := alreadyInQueue q (RandomFillFacts.example_info 0x40) 9 in
   found = true /\ (fun d => (address (pfInfo d), priority d)) <$> q' = [(0x80, 9); (0x40, 1); (0xc0, 1)]) /\
  alreadyInQueue q (RandomFillFacts.example_info 0xc0) 9 = (true, q).
Proof. by vm_compute. Qed.

End QueuedFacts.

(** ** Random fill, from the trigger to the queue *)
Module FillFacts.
Import PrefetchBase Queued RandomFill RandomFillFacts.

(** A queued prefetch is a hardware-prefetch packet for exactly the line and
    the security domain recorded with it. *)
Definition queued_ok (d : DeferredPacket) : Prop :=
  priority d = 0 /\ exists p, pkt d = Some p /\ Packet.cmd p = MemCmd.HardPFReq /\
    Packet.getAddr p = Ok (address (pfInfo d)) /\ Packet.isSecure p = Ok (secure (pfInfo d)) /\
    Packet.getDomainID p = Ok (pf_domainID (pfInfo d)) /\
    Packet.isMayNotFill p = false /\ Packet.isDemandFetch p = false.

Lemma createPkt_ok now pa sz rid tag t d :
  exists p, createPkt now pa sz rid tag t d =
    Ok (mkDP (pfInfo d) t (Some p) (priority d) (translationRequest d) (ongoingTranslation d)) /\
    Packet.cmd p = MemCmd.HardPFReq /\ Packet.getAddr p = Ok pa /\
    Packet.isSecure p = Ok (secure (pfInfo d)) /\
    Packet.getDomainID p = Ok (pf_domainID (pfInfo d)) /\
    Packet.isMayNotFill p = false /\ Packet.isDemandFetch p = false.
Proof.
  unfold createPkt, getPC. destruct tag, (validPC (pfInfo d)) eqn:Ev, (secure (pfInfo d)) eqn:E;
    (eexists; split; [reflexivity|]); rewrite ?E; repeat split.
Qed.

Section fill.
Context `{RandomSource}.
Variables (F : RParams) (view : CacheView) (now lb pb : Z).
Hypothesis G : geometry (base (queued F)) lb pb.
Hypothesis HQ : 2 <= queueSize (queued F) < 2 ^ 32.
Hypothesis Hpa : useVirtualAddresses (base (queued F)) = false.
(** The cache answers the prefetcher's questions. *)
Hypothesis Hview : forall a s d, (exists b, inCache view a s d = Ok b) /\ (exists b, inMissQueue view a s d = Ok b).

Definition inv (s : t) : Prop :=
  pfqMissingTranslation s = [] /\ Forall queued_ok (pfq s) /\
  Z.of_nat (length (pfq s)) <= queueSize (queued F).

Lemma filter_queues_inv pfi s :
  inv s -> exists f, filter_queues (queued F) pfi 0 s = (f, s).
Proof.
  intros (Hm & Hall & _). destruct s as [q m iss use]. simpl in Hm, Hall. subst m.
  unfold filter_queues, alreadyInQueue. simpl. destruct (queueFilter (queued F)); [|by exists false].
  destruct (find_first _ q) as [[i e]|]; [|by exists false].
  exists true. destruct (q !! S i) as [d|] eqn:Ed; [|done].
  rewrite Forall_lookup in Hall. by destruct (Hall _ _ Ed) as [-> _].
Qed.

Lemma redundant_ok a pfi : exists b, redundant (queued F) view a pfi = Ok b.
Proof.
  unfold redundant. destruct (cacheSnoop (queued F)); [|eauto].
  destruct (Hview a (secure pfi) (pf_domainID pfi)) as [[b ->] [c Hc]]. simpl. destruct b; eauto.
Qed.

(** The entries of a queue are old ones or come from one trigger. *)
Definition from_trigger (s0 : t) (did page : Z) (s : t) : Prop :=
  forall d, d ∈ pfq s -> d ∈ pfq s0 \/
    (pf_domainID (pfInfo d) = did /\ address (pfInfo d) / 2 ^ pb = page /\ address (pfInfo d) mod 2 ^ lb = 0).

Lemma insert_ok pkt pfi pa s0 s :
  inv s -> Request.getPaddr (Packet.req pkt) = Ok pa -> in_word 64 pa ->
  in_word 64 (address pfi) -> address pfi / 2 ^ pb = pa / 2 ^ pb -> address pfi mod 2 ^ lb = 0 ->
  from_trigger s0 (pf_domainID pfi) (pa / 2 ^ pb) s ->
  exists s', insert F view now pkt pfi 0 s = Ok s' /\ inv s' /\
    from_trigger s0 (pf_domainID pfi) (pa / 2 ^ pb) s'.
Proof.
  intros Hinv Hp Hpw Ha Hpage Hal Hfrom. unfold insert.
  destruct (filter_queues_inv pfi s Hinv) as (f & ->). destruct f; [eauto|].
  rewrite Hpa, Hp. cbn [rbind]. rewrite (samePage_spec _ lb pb) by done.
  rewrite Hpage, Z.eqb_refl. cbn [rbind negb]. unfold enqueue_pa.
  destruct (redundant_ok (address pfi) pfi) as (r & ->). cbn [rbind]. destruct r; [eauto|].
  destruct (createPkt_ok now (address pfi) (blkSize (base (queued F))) (requestorId (base (queued F))) (tagPrefetch (queued F))
    (pf_time (queued F) now) (mkDP pfi 0 None 0 None false)) as (p & -> & Hok). cbn [rbind].
  destruct Hinv as (Hm & Hall & Hlen). unfold addToQueue, make_room.
  set (new := mkDP _ _ _ _ _ _).
  assert (Hnew : queued_ok new) by (split; [done|]; exists p; done).
  assert (Hroom : exists q', (if u64 (Z.of_nat (length (pfq s))) =? queueSize (queued F) then
      match length (pfq s) with O => Err Panic | S O => Err Panic | S last =>
        match pfq s !! last with
        | Some d => Ok (remove_at (oldest_of_level (pfq s) (priority d) last) (pfq s)) | None => Err Undefined end end
    else Ok (pfq s)) = Ok q' /\ Forall queued_ok q' /\ (forall d, d ∈ q' -> d ∈ pfq s) /\
    Z.of_nat (length q') < queueSize (queued F)).
  { rewrite (QueuedFacts.full_spec (queued F)) by done.
    destruct (Z.eqb_spec (Z.of_nat (length (pfq s))) (queueSize (queued F))) as [Ef|Ef].
    2: { exists (pfq s). split; [done|]. split; [done|]. split; [done|lia]. }
    destruct (length (pfq s)) as [|[|m]] eqn:El; [lia|lia|].
    destruct (lookup_lt_is_Some_2 (pfq s) (S m) ltac:(lia)) as [z Hz]. rewrite Hz.
    destruct (QueuedFacts.oldest_of_level_spec (pfq s) (priority z) (S m)) as (i & v & -> & Hle & Hv & _);
      [lia|congruence|].
    pose proof (remove_at_Permutation i v (pfq s) Hv) as Hperm.
    eexists. split; [done|]. split.
    { rewrite <- Hperm in Hall. by apply Forall_cons_iff in Hall as [_ Hall]. }
    split; [intros d Hd; rewrite <- Hperm; set_solver|]. rewrite length_remove_at by lia. lia. }
  destruct Hroom as (q' & -> & Hall' & Hsub & Hlen'). cbn [rbind].
  pose proof (QueuedFacts.place_permutation new q') as Hpl.
  eexists. split; [done|]. split; [split; [done|split]|]; simpl.
  - rewrite Hpl. by constructor.
  - rewrite Hpl. simpl. lia.
  - intros d Hd. simpl in Hd. rewrite Hpl in Hd. apply elem_of_cons in Hd as [->|Hd]; [|auto].
    right. simpl. done.
Qed.

Lemma notify_loop_ok pkt pfi pa mx l : forall num s0 s,
  inv s -> Request.getPaddr (Packet.req pkt) = Ok pa -> in_word 64 pa -> address pfi = pa ->
  Forall (fun c => in_word 64 c.1 /\ c.1 mod 2 ^ lb = 0 /\ c.1 / 2 ^ pb = pa / 2 ^ pb /\ c.2 = 0) l ->
  from_trigger s0 (pf_domainID pfi) (pa / 2 ^ pb) s ->
  exists s', notify_loop (queued F) (insert F view now) pkt pfi mx num l s = Ok s' /\ inv s' /\
    from_trigger s0 (pf_domainID pfi) (pa / 2 ^ pb) s'.
Proof.
  induction l as [|[a pr] l IH]; intros num s0 s Hinv Hp Hpw Hpfi Hl Hfrom; cbn [notify_loop]; [eauto|].
  apply Forall_cons_iff in Hl as [(Haw & Ham & Hap & Hpr) Hl]. simpl in *. subst pr.
  assert (Hba : blockAddress (base (queued F)) a = a).
  { rewrite (blockAddress_spec _ lb pb) by done. pose proof (split_pow2 lb a). destruct G. lia. }
  rewrite Hba, Hpfi, (samePage_spec _ lb pb) by done. rewrite Hap, Z.eqb_refl. cbn [rbind]. rewrite orb_true_r.
  destruct (insert_ok pkt (info_at pfi a) pa s0 s) as (s' & -> & Hinv' & Hfrom'); try done. cbn [rbind].
  destruct (_ =? mx); [eauto|]. by apply IH.
Qed.

Lemma info_of_pkt_inv pkt a m pfi :
  info_of_pkt pkt a m = Ok pfi ->
  address pfi = a /\ Packet.getDomainID pkt = Ok (pf_domainID pfi).
Proof.
  unfold info_of_pkt. intros Hi. inv_res.
  destruct (negb (Packet.isWrite pkt) && m); inv_res; done.
Qed.

Lemma directNotify_inv pkt u u' pfi :
  PrefetchBase.directNotify (base (queued F)) view pkt u = Ok (u', Some pfi) ->
  Request.getPaddr (Packet.req pkt) = Ok (Request._paddr (Packet.req pkt)) /\
  address pfi = Request._paddr (Packet.req pkt) /\ Packet.getDomainID pkt = Ok (pf_domainID pfi).
Proof.
  unfold PrefetchBase.directNotify. intros Hd. apply rbind_ok in Hd as ([hit|] & _ & Hd); [|done].
  rewrite Hpa in Hd. simplify_res.
  match goal with Hi : info_of_pkt _ _ _ = Ok _ |- _ => destruct (info_of_pkt_inv _ _ _ _ Hi) as [-> ?] end.
  match goal with Hg : Request.getPaddr _ = Ok _ |- _ => pose proof Hg as Hg'; unfold Request.getPaddr in Hg' end.
  simplify_res. done.
Qed.

(** C26. Random fill from trigger to queue. Take a random-fill prefetcher trained on
    physical addresses, with pages of at least 64 blocks, offsets drawn from a range
    within [-32, 32], a queue of at least two entries and any other settings
    (program-counter tags, filtering, squashing, throttling, a TLB or none), whose queries
    the cache answers and in whose queues nothing waits for a translation. For a trigger
    that [PrefetchBase::directNotify] accepts, with its physical address and its security
    domain, [directNotify] succeeds and keeps the queue bounded and well formed (each
    entry is a prefetch packet for the block and domain recorded with it, marked neither
    no-fill nor demand); every prefetch it queues is for a block of the trigger's page and
    carries the trigger's security domain. *)
Theorem random_fill_queues_own_domain pkt pfi useful s rng :
  -32 <= lowRange F -> lowRange F <= highRange F -> highRange F <= 32 -> 0 <= degree F ->
  inv s -> PrefetchBase.directNotify (base (queued F)) view pkt (usefulPrefetches s) = Ok (useful, Some pfi) ->
  in_word 64 (Request._paddr (Packet.req pkt)) ->
  exists s' rng', directNotify F view now pkt s rng = Ok (s', rng') /\ inv s' /\
    Packet.getDomainID pkt = Ok (pf_domainID pfi) /\
    from_trigger s (pf_domainID pfi) (Request._paddr (Packet.req pkt) / 2 ^ pb) s'.
Proof.
  intros Hlow Hle Hhigh Hdeg Hinv Hdn Haw. unfold directNotify. rewrite Hdn. cbn [rbind].
  destruct (directNotify_inv _ _ _ _ Hdn) as (Hpaddr & Haddr & Hdid). rewrite <- Haddr in *.
  unfold notify, Queued.notify, calculatePrefetch.
  destruct (block_of_page _ lb pb _ G Haw) as (q & k & E & Hk & Hq & Hw & Hqa). rewrite E.
  destruct (candidates_ok F lb pb G Hlow Hle Hhigh q k (Z.to_nat (degree F)) rng Hk Hw Hq) as (l & -> & _ & Hall).
  cbn [rbind]. set (mx := getMaxPermittedPrefetches _ _ _).
  set (s1 := if queueSquash (queued F) then _ else _).
  assert (Hs1 : inv s1 /\ from_trigger s (pf_domainID pfi) (address pfi / 2 ^ pb) s1).
  { destruct Hinv as (Hm & Hok & Hlen). unfold s1. destruct (queueSquash (queued F)); simpl.
    - assert (Hsub : forall d, d ∈ squash (q * 2 ^ pb + k * 2 ^ lb) (secure pfi) (pfq s) -> d ∈ pfq s).
      { intros d Hd. unfold squash in Hd. apply list_elem_of_In, List.filter_In in Hd as [Hd _].
        by apply list_elem_of_In. }
      split; [split; [done|split]|].
      + apply Forall_forall. intros d Hd. rewrite Forall_forall in Hok. auto.
      + etransitivity; [|exact Hlen]. simpl. unfold squash.
        pose proof (List.filter_length_le (fun d => negb ((address (pfInfo d) =? q * 2 ^ pb + k * 2 ^ lb) &&
          eqb (secure (pfInfo d)) (secure pfi))) (pfq s)). lia.
      + intros d Hd. left. simpl in Hd. auto.
    - split; [done|]. intros d Hd. by left. }
  destruct Hs1 as [Hinv1 Hfrom1].
  destruct (notify_loop_ok pkt pfi (address pfi) mx l 0 s s1) as (s' & -> & Hinv' & Hfrom'); try done.
  - eapply Forall_impl; [exact Hall|]. intros c [(Hcw & Hcm & Hcp & _) Hc0]. split_and!; try done.
    rewrite Hcp. by destruct (in_page_block F lb pb q k G Hk Hw Hq k Hk) as (_ & -> & _).
  - cbn [rbind]. eexists s', _. split; [done|]. split; [done|]. split; done.
Qed.
End fill.

Definition example_view : CacheView :=
  mkView (fun _ _ _ => Ok false) (fun _ _ _ => Ok false) (fun _ _ _ => Ok false) false.
Definition example_trigger : Packet.t :=
  Packet.make_blk 0 (Request.setDomainID 3 (Request.make 0 0x10fc8 8 0 1)) MemCmd.ReadReq 64.

Lemma random_fill_queues_own_domain_witness :
  exists s' rng', directNotify example_fill example_view 1000 example_trigger (mk [] [] 0 0) 60 = Ok (s', rng') /\
    forall d, d ∈ pfq s' -> pf_domainID (pfInfo d) = 3 /\ address (pfInfo d) / 2 ^ 12 = 0x10.
Proof.
  destruct (random_fill_queues_own_domain example_fill example_view 1000 6 12 example_geometry)
    with (pkt := example_trigger) (pfi := example_info 0x10fc8) (useful := 0) (s := mk [] [] 0 0) (rng := 60%nat)
    as (s' & rng' & H1 & _ & _ & H2).
  all: try (simpl; lia).
  all: try reflexivity.
  - intros. split; by eexists.
  - split; [reflexivity|]. split; [constructor|simpl; lia].
  - by vm_compute.
  - exists s', rng'. split; [exact H1|]. intros d Hd. destruct (H2 d Hd) as [Hn|(Hd1 & Hd2 & _)].
    + exfalso. inversion Hn.
    + split; [exact Hd1|exact Hd2].
Defined.

End FillFacts.

(** ** The safe history buffer *)
Module SHBFacts.
Import PrefetchBase SHB.

(** *** Contents *)

(** The record kept of an access. *)
Definition record_of (S : SParams) (pkt : Packet.t) (e : shbReqInfo) : Prop :=
  exists a, Packet.getAddr pkt = Ok a /\ addr e = a - a mod blkSize (base S) /\
    Packet.isSecure pkt = Ok (secure e) /\ Packet.getDomainID pkt = Ok (domainID e) /\
    requestorID e = Packet.requestorId pkt.

Lemma removelast_take {A} (l : list A) : removelast l = take (pred (length l)) l.
Proof. apply List.removelast_firstn_len. Qed.

(** One notification of a buffer within its size. *)
Lemma notifySHB_record (S : SParams) p e s :
  0 < shbSize S -> 0 < blkSize (base S) -> Z.of_nat (length (shb s)) <= shbSize S -> record_of S p e ->
  notifySHB S p s = Ok (mk (e :: take (pred (Z.to_nat (shbSize S))) (shb s)) (readyTime s)).
Proof.
  intros Hs Hb Hlen (a & Ha & Hea & Hsec & Hdid & Hreq). unfold notifySHB. rewrite Ha. cbn [rbind].
  rewrite (proj2 (Z.eqb_neq _ _)) by lia. rewrite Hdid. cbn [rbind]. rewrite (proj2 (Z.leb_le _ _)) by lia.
  assert (Hne : (Z.of_nat (length (shb s)) =? shbSize S) && (length (shb s) =? 0)%nat = false).
  { apply andb_false_iff. destruct (Nat.eqb_spec (length (shb s)) 0) as [E0|]; [|by right].
    left. apply Z.eqb_neq. lia. }
  rewrite Hne, Hsec. cbn [rbind]. rewrite <- Hea, <- Hreq. do 3 f_equal; [by destruct e|].
  destruct (Z.eqb_spec (Z.of_nat (length (shb s))) (shbSize S)).
  - rewrite removelast_take. f_equal. lia.
  - by rewrite take_ge by lia.
Qed.

(** C24. The history buffer is a sliding window. Notified of accesses
    [p1 ... pk] in turn from an empty buffer, it succeeds and holds the records
    of the [shbSize] most recent ones, newest first: block address, security
    state, security domain and requestor. *)
Theorem shb_holds_most_recent (S : SParams) (pkts : list Packet.t) (es : list shbReqInfo) (r0 : Z) :
  0 < shbSize S -> 0 < blkSize (base S) -> Forall2 (record_of S) pkts es ->
  foldM (fun s p => notifySHB S p s) pkts (mk [] r0) =
    Ok (mk (take (Z.to_nat (shbSize S)) (reverse es)) r0).
Proof.
  intros Hs Hb. revert es. induction pkts as [|p pkts IH] using rev_ind; intros es Hes.
  { apply Forall2_nil_inv_l in Hes as ->. cbn [foldM]. change (reverse []) with (@nil shbReqInfo). by rewrite take_nil. }
  apply Forall2_app_inv_l in Hes as (es0 & l & Hes0 & Hl & ->).
  apply Forall2_cons_inv_l in Hl as (e & l' & He & Hnil & ->). apply Forall2_nil_inv_l in Hnil as ->.
  rewrite foldM_app, (IH es0 Hes0), reverse_snoc. cbn [rbind foldM].
  rewrite (notifySHB_record S p e) by (done || (simpl; rewrite length_take; lia)). cbn [rbind shb readyTime].
  destruct (Z.to_nat (shbSize S)) as [|n] eqn:En; [lia|]. cbn [take Nat.pred]. rewrite take_take.
  by rewrite Nat.min_l by lia.
Qed.

(** *** What is issued *)

(** Entries of one window that agree on everything but the offset in it. *)
Definition same_window (S : SParams) (e e' : shbReqInfo) : Prop :=
  addr e / (blkNum S * blkSize (base S)) = addr e' / (blkNum S * blkSize (base S)) /\
  secure e = secure e' /\ domainID e = domainID e' /\ requestorID e = requestorID e'.

Section issue.
Context `{RandomSource}.
Variable S : SParams.
Hypothesis HW : 0 < blkNum S * blkSize (base S) < 2 ^ 32.
Hypotheses (HN : 0 < blkNum S) (HB : 0 < blkSize (base S)).

Lemma window_spec a :
  window S a = Ok (a / (blkNum S * blkSize (base S)) * (blkNum S * blkSize (base S))).
Proof.
  unfold window. rewrite uwrap_small by (split; lia). rewrite (proj2 (Z.eqb_neq _ _)) by lia.
  f_equal. pose proof (Z.div_mod a (blkNum S * blkSize (base S))). lia.
Qed.

(** C23. The offset inside a window does not show. Two history buffers whose
    entries lie, position by position, in the same windows (with equal security
    state, domain and requestor) issue the same packet for the same random
    draws: which block of its window an access touched has no influence on the
    prefetch traffic. *)
Theorem shb_window_noninterference now s s' rng :
  Forall2 (same_window S) (shb s) (shb s') ->
  rmap (fun r => (r.1.1, r.2)) (getPacket S now s rng) = rmap (fun r => (r.1.1, r.2)) (getPacket S now s' rng).
Proof.
  intros Hs. unfold getPacket. pose proof (Forall2_length _ _ _ Hs) as Hlen.
  destruct (shb s) as [|e0 l0] eqn:E1, (shb s') as [|e0' l0'] eqn:E2; try done.
  rewrite <- Hlen. destruct (_ <=? shbSize S); [|done]. destruct (negb _); [done|].
  destruct (RandomMT.random 0 _ rng) as [[idx rng1]|]; [|done]. cbn [rbind rmap].
  destruct ((e0 :: l0) !! Z.to_nat idx) as [e|] eqn:Ee.
  - destruct (Forall2_lookup_l _ _ _ _ _ Hs Ee) as (e' & -> & (Hw & Hsec & Hd & Hr)).
    rewrite !window_spec, Hw, Hsec, Hd, Hr. cbn [rbind].
    destruct (RandomMT.random 0 _ rng1) as [[off rng2]|]; [|done]. cbn [rbind].
    destruct (if secure e' then _ else _); [|done]. cbn [rbind].
    destruct (Request.clearFlags _ _); [|done]. cbn [rbind].
    destruct (Packet.make _ _ _); [|done]. cbn [rbind]. by destruct (Packet.allocate _).
  - assert ((e0' :: l0') !! Z.to_nat idx = None) as ->; [|done].
    apply lookup_ge_None. rewrite <- Hlen. by apply lookup_ge_None.
Qed.

(** The packet built for an address. *)
Lemma issue_pkt_ok now a sz rid (sec : bool) did :
  exists p, (let r := Request.make now a sz 0 rid in
    let* r := if sec then Request.setFlags Request.SECURE r else Ok r in
    let r := Request.setDomainID did r in
    let r := Request.with_taskId Request.TaskId_Prefetcher r in
    let* r := Request.clearFlags Request.DEMAND_FETCH r in
    let* p := Packet.make 0 r MemCmd.HardPFReq in
    Packet.allocate p) = Ok p /\
    Packet.cmd p = MemCmd.HardPFReq /\ Packet.isMayNotFill p = false /\ Packet.isDemandFetch p = false /\
    Packet.getAddr p = Ok a /\ Packet.isSecure p = Ok sec /\ Packet.getDomainID p = Ok did.
Proof.
  destruct sec; (eexists; split; [vm_compute; reflexivity|]); repeat split.
Qed.

(** C25. What the history buffer issues. From a non-empty buffer within its capacity, with
    random selection ([shbSelect] 1), a capacity below 2^32 and records whose windows lie
    within the 64-bit address space, a packet is issued and the buffer stays as it is: a
    hardware prefetch without the no-fill and demand marks, of one block of the window of
    one recorded access, in that access's security state and domain. *)
Theorem shb_issues_from_window now s rng :
  shb s <> [] -> Z.of_nat (length (shb s)) <= shbSize S -> shbSize S < 2 ^ 32 -> shbSelect S = 1 ->
  Forall (fun e => in_word 64 (addr e) /\ (addr e / (blkNum S * blkSize (base S)) + 1) *
    (blkNum S * blkSize (base S)) <= 2 ^ 64) (shb s) ->
  exists p rng' e k, getPacket S now s rng = Ok (Some p, s, rng') /\ e ∈ shb s /\ 0 <= k < blkNum S /\
    Packet.cmd p = MemCmd.HardPFReq /\ Packet.isMayNotFill p = false /\ Packet.isDemandFetch p = false /\
    Packet.getAddr p = Ok (addr e / (blkNum S * blkSize (base S)) * (blkNum S * blkSize (base S)) +
      k * blkSize (base S)) /\
    Packet.isSecure p = Ok (secure e) /\ Packet.getDomainID p = Ok (domainID e).
Proof.
  intros Hne Hlen Hlim Hsel Hall. unfold getPacket. destruct (shb s) as [|e0 l0] eqn:El; [done|].
  rewrite (proj2 (Z.leb_le _ _)) by done. rewrite Hsel. cbn [Z.eqb negb Pos.eqb].
  set (l := e0 :: l0) in *. assert (Hpos : (0 < length l)%nat) by (simpl; lia).
  rewrite uwrap_small by (split; lia).
  destruct (RandomMT.random_ok 0 (Z.of_nat (length l) - 1) rng ltac:(lia)) as (idx & -> & Hidx). cbn [rbind].
  destruct (lookup_lt_is_Some_2 l (Z.to_nat idx) ltac:(lia)) as [e He]. rewrite He.
  rewrite window_spec. cbn [rbind]. rewrite (uwrap_small 32 (blkNum S - 1)) by (split; nia).
  destruct (RandomMT.random_ok 0 (blkNum S - 1) (Datatypes.S rng) ltac:(lia)) as (k & -> & Hk). cbn [rbind].
  rewrite (uwrap_small 32 (k * _)) by (split; nia).
  rewrite Forall_lookup in Hall. destruct (Hall _ _ He) as [Haw Htop].
  set (a := addr e / _ * _ + _).
  assert (Ha : in_word 64 a).
  { unfold a. pose proof (Z.div_pos (addr e) (blkNum S * blkSize (base S)) ltac:(apply Haw) ltac:(lia)). split; nia. }
  rewrite (uwrap_small 64 a) by done.
  assert (Hin : e ∈ l) by (by eapply list_elem_of_lookup_2).
  destruct (issue_pkt_ok now a (blkSize (base S)) (requestorID e) (secure e) (domainID e)) as (p & Hp & Hok).
  exists p, (Datatypes.S (Datatypes.S rng)), e, k. split; [|by split; [done|split; [lia|]]].
  cbv zeta in Hp. revert Hp. clearbody a.
  destruct (if secure e then _ else _); [|done]. cbn [rbind].
  destruct (Request.clearFlags _ _); [|done]. cbn [rbind].
  destruct (Packet.make _ _ _); [|done]. cbn [rbind]. by intros ->.
Qed.

(** *** When it is issued *)

Lemma advance_ok now fuel : forall ready rng,
  let period := clockPeriod (base S) in
  0 < period -> 0 < issueInterval S <= maxIssueInterval S -> maxIssueInterval S < 2 ^ 32 ->
  0 <= ready -> 0 <= now -> now + maxIssueInterval S * period < 2 ^ 64 ->
  now - ready < Z.of_nat fuel ->
  exists r rng', advance S now fuel ready rng = Ok (r, rng') /\ now < r /\
    r <= Z.max ready (now + maxIssueInterval S * period) /\ ready <= r.
Proof.
  induction fuel as [|fuel IH]; intros ready rng period Hp Hi Hm Hr Hn Hlim Hf; cbn [advance].
  - destruct (Z.ltb_spec now ready); [|lia]. exists ready, rng. split; [done|lia].
  - destruct (Z.ltb_spec now ready); [exists ready, rng; split; [done|lia]|].
    rewrite !(uwrap_small 32) by (split; lia).
    destruct (RandomMT.random_ok (issueInterval S) (maxIssueInterval S) rng ltac:(lia)) as (c & -> & Hc).
    cbn [rbind]. fold period.
    assert (period <= c * period <= maxIssueInterval S * period) by nia.
    rewrite (uwrap_small 64 (c * period)) by (split; lia).
    rewrite (uwrap_small 64 (ready + _)) by (split; lia).
    destruct (IH (ready + c * period) (Datatypes.S rng)) as (r & rng' & -> & Hr1 & Hr2 & Hr3); try done; try (fold period; lia).
    exists r, rng'. split; [done|]. fold period in Hr2. lia.
Qed.

(** The issue schedule. In constant mode the next issue time is the next
    multiple of the interval, strictly in the future and at most one interval
    away; in random mode the loop terminates with a time strictly in the
    future, no further away than the old schedule or one maximal interval. In
    neither mode does it depend on what the buffer holds. *)
Theorem shb_schedule now (s : t) rng :
  let period := clockPeriod (base S) in
  0 < period -> 0 < issueInterval S <= maxIssueInterval S -> maxIssueInterval S < 2 ^ 32 ->
  0 <= now -> 0 <= readyTime s -> now + maxIssueInterval S * period < 2 ^ 64 ->
  (shbIssue S = 1 -> exists r, nextPrefetchReadyTime S now s rng = Ok (r, s, rng) /\
     now < r <= now + issueInterval S * period /\ r mod (issueInterval S * period) = 0) /\
  (shbIssue S = 2 -> exists r rng', nextPrefetchReadyTime S now s rng = Ok (r, mk (shb s) r, rng') /\
     now < r <= Z.max (readyTime s) (now + maxIssueInterval S * period) /\
     forall l, nextPrefetchReadyTime S now (mk l (readyTime s)) rng = Ok (r, mk l r, rng')).
Proof.
  intros period Hp Hi Hm Hn Hr Hlim. unfold nextPrefetchReadyTime. fold period. split; intros ->.
  - cbn [Z.eqb Pos.eqb]. set (T := issueInterval S * period).
    assert (HT : 0 < T <= maxIssueInterval S * period) by (unfold T; nia).
    rewrite (uwrap_small 64 T) by (split; lia). rewrite (proj2 (Z.eqb_neq _ _)) by lia.
    pose proof (Z.mod_pos_bound now T ltac:(lia)). pose proof (Z.div_mod now T ltac:(lia)).
    rewrite uwrap_small by (split; lia). eexists. split; [done|]. split; [lia|].
    replace (now - now mod T + T) with ((now / T + 1) * T) by lia. apply Z.mod_mul. lia.
  - cbn [Z.eqb Pos.eqb].
    destruct (advance_ok now (Z.to_nat (now - readyTime s + 1)) (readyTime s) rng) as (r & rng' & E & Hr1 & Hr2 & _);
      try done; try lia.
    cbn [readyTime shb]. rewrite E. cbn [rbind]. exists r, rng'. split; [done|]. split; [fold period in Hr2; lia|done].
Qed.
End issue.

(** *** Examples *)
Definition example_shb : SParams := mkS RandomFillFacts.example_params 2 2 4 8 16 1.
Definition e1 : shbReqInfo := mkReq 0x1040 false 3 0.
Definition e2 : shbReqInfo := mkReq 0x1380 false 3 0.

Lemma shb_holds_most_recent_witness :
  foldM (fun s p => notifySHB example_shb p s)
    [CacheBlk.example_access 1 0x40 MemCmd.ReadReq] (mk [] 0) = Err Undefined /\
  foldM (fun s p => notifySHB example_shb p s)
    [FillFacts.example_trigger; FillFacts.example_trigger; FillFacts.example_trigger] (mk [] 0) =
    Ok (mk [mkReq 0x10fc0 false 3 1; mkReq 0x10fc0 false 3 1] 0).
Proof.
  split; [by vm_compute|].
  apply (shb_holds_most_recent example_shb [FillFacts.example_trigger; FillFacts.example_trigger; FillFacts.example_trigger]
    [mkReq 0x10fc0 false 3 1; mkReq 0x10fc0 false 3 1; mkReq 0x10fc0 false 3 1] 0); [simpl; lia|simpl; lia|].
  do 3 (constructor; [exists 0x10fc0; by vm_compute|]). constructor.
Defined.

Lemma shb_window_noninterference_witness :
  rmap (fun r => (r.1.1, r.2)) (getPacket example_shb 9 (mk [e1] 0) 5) =
  rmap (fun r => (r.1.1, r.2)) (getPacket example_shb 9 (mk [e2] 0) 5).
Proof.
  apply (shb_window_noninterference example_shb); [simpl; lia|].
  repeat constructor.
Defined.

Lemma shb_issues_from_window_witness :
  exists p rng' e k, getPacket example_shb 9 (mk [e1; e2] 0) 5 = Ok (Some p, mk [e1; e2] 0, rng') /\
    e ∈ [e1; e2] /\ 0 <= k < 16 /\ Packet.getDomainID p = Ok (domainID e).
Proof.
  destruct (shb_issues_from_window example_shb) with (now := 9) (s := mk [e1; e2] 0) (rng := 5%nat)
    as (p & rng' & e & k & H1 & H2 & H3 & _ & _ & _ & _ & _ & H4).
  all: try (simpl; lia).
  - discriminate.
  - do 2 (constructor; [by vm_compute|]). constructor.
  - exists p, rng', e, k. split; [exact H1|]. split; [exact H2|]. split; [exact H3|exact H4].
Defined.

Lemma shb_schedule_witness :
  exists r rng', nextPrefetchReadyTime example_shb 9000 (mk [e1] 0) 5 = Ok (r, mk [e1] r, rng') /\ 9000 < r.
Proof.
  destruct (shb_schedule example_shb 9000 (mk [e1] 0) 5) as [_ H2].
  all: try (simpl; lia).
  destruct (H2 eq_refl) as (r & rng' & H3 & H4 & _). exists r, rng'. split; [exact H3|apply H4].
Defined.

End SHBFacts.
