(* ===== verification/MSHR.v ===== *)
(** * Miss status holding registers

    [MSHR] and its [TargetList] (src/gem5/src/mem/cache/mshr.hh, mshr.cc): the
    requests waiting for one line, split into those the outstanding request
    will serve and those deferred until after it, with the flags summarised
    over each list; among them the RaS [mayNotFill]. An operation that sets or
    clears the pending mark of an upper-level cache's MSHR, found through the
    packet's sender state, reports it as an [Upstream] effect. *)

From S2P Require Import Prelude BaseUtil MemCmd Request Packet CacheBlk.
Local Open Scope Z_scope.

Module MSHR.

Inductive Source := FromCPU | FromSnoop | FromPrefetcher.

#[global] Instance Source_eq_dec : EqDecision Source.
Proof. solve_decision. Defined.

Definition is_source (a b : Source) : bool := bool_decide (a = b).

Record Target := mkTarget {
  recvTime : Z;
  t_readyTime : Z;
  t_order : Z;
  pkt : Packet.t;
  source : Source;
  markedPending : bool;
  t_allocOnFill : bool;
  t_mayNotFill : bool;
  t_demandFetch : bool
}.

(** The constructor takes the two fill marks from the packet. *)
Definition Target_make (now : Z) (p : Packet.t) (readyTime order : Z) (source : Source)
    (markedPending alloc_on_fill : bool) : Target :=
  mkTarget now readyTime order p source markedPending alloc_on_fill
    (Packet.isMayNotFill p) (Packet.isDemandFetch p).

Definition set_pkt (p : Packet.t) (x : Target) : Target :=
  mkTarget (recvTime x) (t_readyTime x) (t_order x) p (source x) (markedPending x)
    (t_allocOnFill x) (t_mayNotFill x) (t_demandFetch x).
Definition clear_marked (x : Target) : Target :=
  mkTarget (recvTime x) (t_readyTime x) (t_order x) (pkt x) (source x) false
    (t_allocOnFill x) (t_mayNotFill x) (t_demandFetch x).

(** Effects on the MSHRs of the caches a request came through. *)
Inductive Upstream := SetPending (cache mshr : nat) | ClearPending (cache mshr : nat).

(** ** Target lists *)

Record TargetList := mkTL {
  tgts : list Target;
  needsWritable : bool;
  hasUpgrade : bool;
  allocOnFill : bool;
  mayNotFill : bool;
  demandFetch : bool;
  hasFromCache : bool;
  tl_blkAddr : Z;
  tl_blkSize : Z;
  canMergeWrites : bool;
  writesBitmap : list bool
}.

Definition set_tgts (v : list Target) (r : TargetList) : TargetList :=
mkTL v (needsWritable r) (hasUpgrade r) (allocOnFill r) (mayNotFill r) (demandFetch
    r) (hasFromCache r) (tl_blkAddr r) (tl_blkSize r) (canMergeWrites r)
    (writesBitmap r).
Definition set_needsWritable (v : bool) (r : TargetList) : TargetList :=
mkTL (tgts r) v (hasUpgrade r) (allocOnFill r) (mayNotFill r) (demandFetch r)
    (hasFromCache r) (tl_blkAddr r) (tl_blkSize r) (canMergeWrites r) (writesBitmap r).
Definition set_hasUpgrade (v : bool) (r : TargetList) : TargetList :=
mkTL (tgts r) (needsWritable r) v (allocOnFill r) (mayNotFill r) (demandFetch r)
    (hasFromCache r) (tl_blkAddr r) (tl_blkSize r) (canMergeWrites r) (writesBitmap r).
Definition set_allocOnFill (v : bool) (r : TargetList) : TargetList :=
mkTL (tgts r) (needsWritable r) (hasUpgrade r) v (mayNotFill r) (demandFetch r)
    (hasFromCache r) (tl_blkAddr r) (tl_blkSize r) (canMergeWrites r) (writesBitmap r).
Definition set_mayNotFill (v : bool) (r : TargetList) : TargetList :=
mkTL (tgts r) (needsWritable r) (hasUpgrade r) (allocOnFill r) v (demandFetch r)
    (hasFromCache r) (tl_blkAddr r) (tl_blkSize r) (canMergeWrites r) (writesBitmap r).
Definition set_demandFetch (v : bool) (r : TargetList) : TargetList :=
mkTL (tgts r) (needsWritable r) (hasUpgrade r) (allocOnFill r) (mayNotFill r) v
    (hasFromCache r) (tl_blkAddr r) (tl_blkSize r) (canMergeWrites r) (writesBitmap r).
Definition set_hasFromCache (v : bool) (r : TargetList) : TargetList :=
mkTL (tgts r) (needsWritable r) (hasUpgrade r) (allocOnFill r) (mayNotFill r)
    (demandFetch r) v (tl_blkAddr r) (tl_blkSize r) (canMergeWrites r) (writesBitmap r).
Definition set_tl_blkAddr (v : Z) (r : TargetList) : TargetList :=
mkTL (tgts r) (needsWritable r) (hasUpgrade r) (allocOnFill r) (mayNotFill r)
    (demandFetch r) (hasFromCache r) v (tl_blkSize r) (canMergeWrites r)
    (writesBitmap r).
Definition set_tl_blkSize (v : Z) (r : TargetList) : TargetList :=
mkTL (tgts r) (needsWritable r) (hasUpgrade r) (allocOnFill r) (mayNotFill r)
    (demandFetch r) (hasFromCache r) (tl_blkAddr r) v (canMergeWrites r)
    (writesBitmap r).
Definition set_canMergeWrites (v : bool) (r : TargetList) : TargetList :=
mkTL (tgts r) (needsWritable r) (hasUpgrade r) (allocOnFill r) (mayNotFill r)
    (demandFetch r) (hasFromCache r) (tl_blkAddr r) (tl_blkSize r) v (writesBitmap r).
Definition set_writesBitmap (v : list bool) (r : TargetList) : TargetList :=
mkTL (tgts r) (needsWritable r) (hasUpgrade r) (allocOnFill r) (mayNotFill r)
    (demandFetch r) (hasFromCache r) (tl_blkAddr r) (tl_blkSize r) (canMergeWrites
    r) v.

(** The constructor; the block geometry is set by [init]. *)
Definition TargetList_make : TargetList :=
  mkTL [] false false false true false false 0 0 false [].

Definition resetFlags (l : TargetList) : TargetList :=
  mkTL (tgts l) false false false true false false (tl_blkAddr l) (tl_blkSize l) true
    (replicate (length (writesBitmap l)) false).

(** [writesBitmap.resize(blk_size)] *)
Definition resize (n : nat) (l : list bool) : list bool := take n l ++ replicate (n - length l) false.

Definition init (blk_addr blk_size : Z) (l : TargetList) : TargetList :=
  resetFlags (set_writesBitmap (resize (Z.to_nat blk_size) (writesBitmap l))
    (set_tl_blkSize blk_size (set_tl_blkAddr blk_addr l))).

Definition isReset (l : TargetList) : bool :=
  negb (needsWritable l) && negb (hasUpgrade l) && negb (allocOnFill l) && mayNotFill l &&
  negb (demandFetch l) && negb (hasFromCache l) && canMergeWrites l.

Definition isWholeLineWrite (l : TargetList) : bool := forallb (fun b => b) (writesBitmap l).

Definition no_merge_flags : Z :=
  Z.lor Request.UNCACHEABLE (Z.lor Request.STRICT_ORDER (Z.lor Request.PRIVILEGED
    (Z.lor Request.LLSC (Z.lor Request.MEM_SWAP (Z.lor Request.MEM_SWAP_COND Request.SECURE))))).

Definition is_nil {A} (l : list A) : bool := match l with [] => true | _ => false end.

Definition updateWriteFlags (p : Packet.t) (l : TargetList) : res TargetList :=
  if isWholeLineWrite l then Ok l
  else if canMergeWrites l then
    if negb (Packet.isWrite p) then Ok (set_canMergeWrites false l)
    else
      let* req_flags := Request.getFlags (Packet.req p) in
      let compat_write := negb (Flags.isSet req_flags no_merge_flags) in
      let first_write := is_nil (tgts l) in
      let* l :=
        if first_write || compat_write then
          let* offset := Packet.getOffset (tl_blkSize l) p in
          let* n := Packet.getSize p in
          let off := Z.to_nat offset in
          let n := Z.to_nat n in
          if (length (writesBitmap l) <? off + n)%nat then Err Undefined
          else Ok (set_writesBitmap (splice off (replicate n true) (writesBitmap l)) l)
        else Ok l in
      Ok (set_canMergeWrites (canMergeWrites l && compat_write) l)
  else Ok l.

Definition updateFlags (p : Packet.t) (src : Source) (alloc_on_fill : bool) (l : TargetList) :
    res TargetList :=
  if is_source src FromSnoop then Ok l
  else
    let* nw := Packet.needsWritable p in
    let l := if nw then set_needsWritable true l else l in
    let l := if Packet.isUpgrade p || Packet.cmd_is p MemCmd.StoreCondReq
             then set_hasUpgrade true l else l in
    let l := set_allocOnFill (allocOnFill l || alloc_on_fill) l in
    let l := set_mayNotFill (mayNotFill l && Packet.isMayNotFill p) l in
    let l := set_demandFetch (demandFetch l || Packet.isDemandFetch p) l in
    if is_source src FromPrefetcher then Ok l
    else
      let l := set_hasFromCache (hasFromCache l || Packet.fromCache p) l in
      updateWriteFlags p l.

(** Whether the update turned a no-fill MSHR into one that may fill. *)
Definition TL_updateMayNotFill (may_not_fill : bool) (l : TargetList) : bool * TargetList :=
  if allocOnFill l
  then (mayNotFill l && negb may_not_fill, set_mayNotFill may_not_fill l)
  else (false, l).

Definition populateFlags (l : TargetList) : res TargetList :=
  foldM (fun l x => updateFlags (pkt x) (source x) (t_allocOnFill x) l) (tgts l) (resetFlags l).

Definition add (now : Z) (p : Packet.t) (readyTime order : Z) (src : Source)
    (markPending alloc_on_fill : bool) (l : TargetList) : res (TargetList * list Upstream) :=
  let* l := updateFlags p src alloc_on_fill l in
  let '(marked, up) :=
    if markPending then
      match Packet.findNextSenderState_MSHR p with
      | Some (c, m) => (true, [SetPending c m])
      | None => (false, [])
      end
    else (false, []) in
  Ok (set_tgts (tgts l ++ [Target_make now p readyTime order src marked alloc_on_fill]) l, up).

Definition replaceUpgrade (p : Packet.t) : res Packet.t :=
  let has_data := Packet.hasData p || Packet.hasRespData p in
  let p :=
    if Packet.cmd_is p MemCmd.UpgradeReq then Packet.with_cmd MemCmd.ReadExReq p
    else if Packet.cmd_is p MemCmd.SCUpgradeReq then Packet.with_cmd MemCmd.SCUpgradeFailReq p
    else if Packet.cmd_is p MemCmd.StoreCondReq then Packet.with_cmd MemCmd.StoreCondFailReq p
    else p in
  if negb has_data then
    assert! (negb (Packet.hasData p)) in
    if Packet.hasRespData p then Packet.allocate p else Ok p
  else Ok p.

Fixpoint map_pkts (f : Packet.t -> res Packet.t) (l : list Target) : res (list Target) :=
  match l with
  | [] => Ok []
  | x :: l => let* p := f (pkt x) in let* l := map_pkts f l in Ok (set_pkt p x :: l)
  end.

Definition replaceUpgrades (l : TargetList) : res TargetList :=
  if negb (hasUpgrade l) then Ok l
  else let* ts := map_pkts replaceUpgrade (tgts l) in
       Ok (set_hasUpgrade false (set_tgts ts l)).

(** [clearDownstreamPending(begin, end)] on a range of targets. *)
Fixpoint clear_pending (l : list Target) : list Target * list Upstream :=
  match l with
  | [] => ([], [])
  | x :: l =>
      let '(l, up) := clear_pending l in
      if markedPending x then
        (clear_marked x :: l,
         match Packet.findNextSenderState_MSHR (pkt x) with
         | Some (c, m) => ClearPending c m :: up
         | None => up
         end)
      else (x :: l, up)
  end.

Definition TL_clearDownstreamPending (l : TargetList) : TargetList * list Upstream :=
  let '(ts, up) := clear_pending (tgts l) in (set_tgts ts l, up).

(** The first target that satisfies a functional request ends the walk. *)
Fixpoint satisfy_targets (l : list Target) (p : Packet.t) : res (bool * Packet.t * list Target) :=
  match l with
  | [] => Ok (false, p, [])
  | x :: l =>
      let* (b, p, q) := Packet.trySatisfyFunctional (pkt x) p in
      if b then Ok (true, p, set_pkt q x :: l)
      else
        let* (b, p, l) := satisfy_targets l p in
        Ok (b, p, set_pkt q x :: l)
  end.

(** ** The register *)

Record t := mk {
  domainID : Z;
  readyTime : Z;
  _isUncacheable : bool;
  inService : bool;
  order : Z;
  blkAddr : Z;
  blkSize : Z;
  isSecure : bool;
  downstreamPending : bool;
  pendingModified : bool;
  postInvalidate : bool;
  postDowngrade : bool;
  wasWholeLineWrite : bool;
  isForward : bool;
  targets : TargetList;
  deferredTargets : TargetList
}.

Definition with_domainID (v : Z) (r : t) : t :=
mk v (readyTime r) (_isUncacheable r) (inService r) (order r) (blkAddr r) (blkSize
    r) (isSecure r) (downstreamPending r) (pendingModified r) (postInvalidate r)
    (postDowngrade r) (wasWholeLineWrite r) (isForward r) (targets r)
    (deferredTargets r).
Definition with_readyTime (v : Z) (r : t) : t :=
mk (domainID r) v (_isUncacheable r) (inService r) (order r) (blkAddr r) (blkSize r)
    (isSecure r) (downstreamPending r) (pendingModified r) (postInvalidate r)
    (postDowngrade r) (wasWholeLineWrite r) (isForward r) (targets r)
    (deferredTargets r).
Definition with__isUncacheable (v : bool) (r : t) : t :=
mk (domainID r) (readyTime r) v (inService r) (order r) (blkAddr r) (blkSize r)
    (isSecure r) (downstreamPending r) (pendingModified r) (postInvalidate r)
    (postDowngrade r) (wasWholeLineWrite r) (isForward r) (targets r)
    (deferredTargets r).
Definition with_inService (v : bool) (r : t) : t :=
mk (domainID r) (readyTime r) (_isUncacheable r) v (order r) (blkAddr r) (blkSize r)
    (isSecure r) (downstreamPending r) (pendingModified r) (postInvalidate r)
    (postDowngrade r) (wasWholeLineWrite r) (isForward r) (targets r)
    (deferredTargets r).
Definition with_order (v : Z) (r : t) : t :=
mk (domainID r) (readyTime r) (_isUncacheable r) (inService r) v (blkAddr r)
    (blkSize r) (isSecure r) (downstreamPending r) (pendingModified r)
    (postInvalidate r) (postDowngrade r) (wasWholeLineWrite r) (isForward r)
    (targets r) (deferredTargets r).
Definition with_blkAddr (v : Z) (r : t) : t :=
mk (domainID r) (readyTime r) (_isUncacheable r) (inService r) (order r) v (blkSize
    r) (isSecure r) (downstreamPending r) (pendingModified r) (postInvalidate r)
    (postDowngrade r) (wasWholeLineWrite r) (isForward r) (targets r)
    (deferredTargets r).
Definition with_blkSize (v : Z) (r : t) : t :=
mk (domainID r) (readyTime r) (_isUncacheable r) (inService r) (order r) (blkAddr r)
    v (isSecure r) (downstreamPending r) (pendingModified r) (postInvalidate r)
    (postDowngrade r) (wasWholeLineWrite r) (isForward r) (targets r)
    (deferredTargets r).
Definition with_isSecure (v : bool) (r : t) : t :=
mk (domainID r) (readyTime r) (_isUncacheable r) (inService r) (order r) (blkAddr r)
    (blkSize r) v (downstreamPending r) (pendingModified r) (postInvalidate r)
    (postDowngrade r) (wasWholeLineWrite r) (isForward r) (targets r)
    (deferredTargets r).
Definition with_downstreamPending (v : bool) (r : t) : t :=
mk (domainID r) (readyTime r) (_isUncacheable r) (inService r) (order r) (blkAddr r)
    (blkSize r) (isSecure r) v (pendingModified r) (postInvalidate r) (postDowngrade
    r) (wasWholeLineWrite r) (isForward r) (targets r) (deferredTargets r).
Definition with_pendingModified (v : bool) (r : t) : t :=
mk (domainID r) (readyTime r) (_isUncacheable r) (inService r) (order r) (blkAddr r)
    (blkSize r) (isSecure r) (downstreamPending r) v (postInvalidate r)
    (postDowngrade r) (wasWholeLineWrite r) (isForward r) (targets r)
    (deferredTargets r).
Definition with_postInvalidate (v : bool) (r : t) : t :=
mk (domainID r) (readyTime r) (_isUncacheable r) (inService r) (order r) (blkAddr r)
    (blkSize r) (isSecure r) (downstreamPending r) (pendingModified r) v
    (postDowngrade r) (wasWholeLineWrite r) (isForward r) (targets r)
    (deferredTargets r).
Definition with_postDowngrade (v : bool) (r : t) : t :=
mk (domainID r) (readyTime r) (_isUncacheable r) (inService r) (order r) (blkAddr r)
    (blkSize r) (isSecure r) (downstreamPending r) (pendingModified r)
    (postInvalidate r) v (wasWholeLineWrite r) (isForward r) (targets r)
    (deferredTargets r).
Definition with_wasWholeLineWrite (v : bool) (r : t) : t :=
mk (domainID r) (readyTime r) (_isUncacheable r) (inService r) (order r) (blkAddr r)
    (blkSize r) (isSecure r) (downstreamPending r) (pendingModified r)
    (postInvalidate r) (postDowngrade r) v (isForward r) (targets r)
    (deferredTargets r).
Definition with_isForward (v : bool) (r : t) : t :=
mk (domainID r) (readyTime r) (_isUncacheable r) (inService r) (order r) (blkAddr r)
    (blkSize r) (isSecure r) (downstreamPending r) (pendingModified r)
    (postInvalidate r) (postDowngrade r) (wasWholeLineWrite r) v (targets r)
    (deferredTargets r).
Definition with_targets (v : TargetList) (r : t) : t :=
mk (domainID r) (readyTime r) (_isUncacheable r) (inService r) (order r) (blkAddr r)
    (blkSize r) (isSecure r) (downstreamPending r) (pendingModified r)
    (postInvalidate r) (postDowngrade r) (wasWholeLineWrite r) (isForward r) v
    (deferredTargets r).
Definition with_deferredTargets (v : TargetList) (r : t) : t :=
mk (domainID r) (readyTime r) (_isUncacheable r) (inService r) (order r) (blkAddr r)
    (blkSize r) (isSecure r) (downstreamPending r) (pendingModified r)
    (postInvalidate r) (postDowngrade r) (wasWholeLineWrite r) (isForward r)
    (targets r) v.

(** The constructor. *)
Definition make : t :=
  mk 0 0 false false 0 0 0 false false false false false false false TargetList_make TargetList_make.

Definition front (l : TargetList) : res Target :=
  match tgts l with [] => Err Undefined | x :: _ => Ok x end.

Definition getNumTargets (m : t) : nat :=
  (length (tgts (targets m)) + length (tgts (deferredTargets m)))%nat.
Definition hasTargets (m : t) : bool := negb (is_nil (tgts (targets m))).
Definition getTarget (m : t) : res Target :=
  assert! (hasTargets m) in front (targets m).
Definition popTarget (m : t) : res t :=
  match tgts (targets m) with
  | [] => Err Undefined
  | _ :: ts => Ok (with_targets (set_tgts ts (targets m)) m)
  end.

Definition isCleaning (m : t) : res bool :=
  let* x := front (targets m) in Ok (Packet.isClean (pkt x)).
Definition isPendingModified (m : t) : res bool := assert! (inService m) in Ok (pendingModified m).
Definition hasPostInvalidate (m : t) : res bool := assert! (inService m) in Ok (postInvalidate m).
Definition hasPostDowngrade (m : t) : res bool := assert! (inService m) in Ok (postDowngrade m).

(** [allocate]. The members [pendingModified], [postInvalidate] and
    [postDowngrade] keep their old values until [markInService]. *)
Definition allocate (now blk_addr blk_size : Z) (target : Packet.t) (when_ready _order : Z)
    (alloc_on_fill : bool) (m : t) : res (t * list Upstream) :=
  let* sec := Packet.isSecure target in
  let* did := Packet.getDomainID target in
  let m := with_blkAddr blk_addr (with_blkSize blk_size (with_isSecure sec m)) in
  let m := with_readyTime when_ready (with_order _order m) in
  let m := with_isForward false (with_wasWholeLineWrite false m) in
  let m := with__isUncacheable (Request.isUncacheable (Packet.req target)) m in
  let m := with_inService false (with_downstreamPending false m) in
  let m := with_domainID did m in
  let m := with_targets (init blk_addr blk_size (targets m)) m in
  let m := with_deferredTargets (init blk_addr blk_size (deferredTargets m)) m in
  let src := if Packet.cmd_is target MemCmd.HardPFReq then FromPrefetcher else FromCPU in
  let* (ts, up) := add now target when_ready _order src true alloc_on_fill (targets m) in
  let* x := front ts in
  let* same := Packet.matchBlockAddr_pkt (pkt x) blk_size target in
  assert! same in
  Ok (with_targets ts m, up).

Definition clearDownstreamPending (m : t) : res (t * list Upstream) :=
  assert! (downstreamPending m) in
  let '(ts, up) := TL_clearDownstreamPending (targets m) in
  Ok (with_targets ts (with_downstreamPending false m), up).

Definition markInService (pending_modified_resp : bool) (m : t) : res (t * list Upstream) :=
  assert! (negb (inService m)) in
  let m := with_inService true m in
  let m := with_pendingModified (needsWritable (targets m) || pending_modified_resp) m in
  let m := with_postInvalidate false (with_postDowngrade false m) in
  let '(ts, up) := if negb (downstreamPending m) then TL_clearDownstreamPending (targets m)
                   else (targets m, []) in
  let m := with_targets ts m in
  Ok (with_wasWholeLineWrite (isWholeLineWrite (targets m)) m, up).

Definition deallocate (m : t) : res t :=
  assert! (is_nil (tgts (targets m))) in
  let m := with_targets (resetFlags (targets m)) m in
  assert! (isReset (deferredTargets m)) in
  Ok (with_inService false m).

(** Whether a new target has to wait for the response to the current one. *)
Definition must_defer (p : Packet.t) (m : t) : res bool :=
  let* x := front (targets m) in
  if Request.isCacheMaintenance (Packet.req p) ||
     Request.isCacheMaintenance (Packet.req (pkt x)) ||
     negb (is_nil (tgts (deferredTargets m)))
  then Ok true
  else if inService m then
    let* pi := hasPostInvalidate m in
    if pi then Ok true
    else
      let* nw := Packet.needsWritable p in
      if nw then
        let* pm := isPendingModified m in
        let* pd := hasPostDowngrade m in
        Ok (negb pm || pd || isForward m)
      else Ok false
  else Ok false.

Definition allocateTarget (now : Z) (p : Packet.t) (whenReady _order : Z) (alloc_on_fill : bool)
    (m : t) : res (t * list Upstream) :=
  let* did := Packet.getDomainID p in
  assert! (did =? domainID m) in
  let* defer := must_defer p m in
  if defer then
    let* p := if inService m && postInvalidate m then replaceUpgrade p else Ok p in
    let* (ds, up) := add now p whenReady _order FromCPU true alloc_on_fill (deferredTargets m) in
    Ok (with_deferredTargets ds m, up)
  else
    let* (ts, up) := add now p whenReady _order FromCPU (negb (inService m)) alloc_on_fill (targets m) in
    Ok (with_targets ts m, up).

(** The part of [handleSnoop] that saves the snoop for later replay. *)
Definition save_snoop (now : Z) (p : Packet.t) (_order : Z) (will_respond pm : bool) (m : t) :
    res (Packet.t * t * list Upstream) :=
  let* cp_pkt :=
    if will_respond then Packet.make_copy p true true
    else Ok (Packet.make_blk (Packet.id p) (Request.copy (Packet.req p)) (Packet.cmd p) (blkSize m)) in
  let* p :=
    if will_respond then
      let* p := Packet.setCacheResponding p in
      Packet.setResponderHadWritable p
    else if pm && Packet.isClean p then Packet.setSatisfied p
    else Ok p in
  let* (ts, up) := add now cp_pkt now _order FromSnoop
                     (downstreamPending m && needsWritable (targets m)) false (targets m) in
  let m := with_targets ts m in
  let* nw := Packet.needsWritable p in
  let m := if nw || Packet.isInvalidate p then with_postInvalidate true m else m in
  Ok (p, m, up).

(** [handleSnoop]: whether this MSHR takes care of the snoop, the snoop packet
    and the MSHR. *)
Definition handleSnoop (now : Z) (p : Packet.t) (_order : Z) (m : t) :
    res (bool * Packet.t * t * list Upstream) :=
  let* nw := Packet.needsWritable p in
  panic_if! (negb (eqb nw (Packet.isInvalidate p)) && negb (Request.isCacheMaintenance (Packet.req p))) in
  let inv := nw || Request.isCacheInvalidate (Packet.req p) in
  if negb (inService m) || (Packet.isExpressSnoop p && downstreamPending m) then
    if inv then
      let* ts := replaceUpgrades (targets m) in
      let* ds := replaceUpgrades (deferredTargets m) in
      Ok (false, p, with_deferredTargets ds (with_targets ts m), [])
    else Ok (false, p, m, [])
  else
    let* ds := if inv then replaceUpgrades (deferredTargets m) else Ok (deferredTargets m) in
    let m := with_deferredTargets ds m in
    let* x := front (targets m) in
    let* pi := hasPostInvalidate m in
    if pi || Request.isCacheInvalidate (Packet.req (pkt x)) then Ok (true, p, m, [])
    else
      let* pm := isPendingModified m in
      let will_respond := pm && Packet.needsResponse p && negb (Packet.isClean p) in
      let* (p, m, up) :=
        if pm || Packet.isInvalidate p then save_snoop now p _order will_respond pm m
        else Ok (p, m, []) in
      let* nw := Packet.needsWritable p in
      let '(p, m) :=
        if negb nw && negb (Request.isUncacheable (Packet.req p))
        then (Packet.setHasSharers p, with_postDowngrade true m) else (p, m) in
      Ok (will_respond, p, m, up).

(** [extractServiceableTargets]: the ready list and what stays. After a
    response with an invalidation only the first request and the snoops are
    served. *)
Fixpoint split_invalidated (l : list Target) : res (list Target * list Target) :=
  match l with
  | [] => Ok ([], [])
  | x :: l =>
      let* (ready, rest) := split_invalidated l in
      if is_source (source x) FromCPU then Ok (ready, x :: rest)
      else assert! (is_source (source x) FromSnoop) in Ok (x :: ready, rest)
  end.

Definition extractServiceableTargets (p : Packet.t) (m : t) : res (TargetList * t) :=
  let fresh := init (blkAddr m) (blkSize m) TargetList_make in
  if Packet.cmd_is p MemCmd.ReadRespWithInvalidate then
    match tgts (targets m) with
    | [] => Err Undefined
    | x :: l =>
        assert! (is_source (source x) FromCPU || is_source (source x) FromPrefetcher) in
        let* (ready, rest) := split_invalidated l in
        let* ready := populateFlags (set_tgts (x :: ready) fresh) in
        let* ts := populateFlags (set_tgts rest (targets m)) in
        Ok (ready, with_targets ts m)
    end
  else
    let* ts := populateFlags fresh in
    Ok (targets m, with_targets ts m).

(** [promoteDeferredTargets] *)
Definition promoteDeferredTargets (now : Z) (m : t) : res (bool * t) :=
  let ts := tgts (targets m) in
  let ds := tgts (deferredTargets m) in
  if is_nil ts && is_nil ds then Ok (false, m)
  else
    let it := match find_first (fun x => Request.isCacheMaintenance (Packet.req (pkt x))) ds with
              | Some (i, _) => i
              | None => length ds
              end in
    let '(ts, ds) :=
      if (it =? 0)%nat && negb (is_nil ds) then
        if is_nil ts then (ts ++ take 1 ds, drop 1 ds) else (ts, ds)
      else (ts ++ take it ds, drop it ds) in
    let* dl := populateFlags (set_tgts ds (deferredTargets m)) in
    let* tl := populateFlags (set_tgts ts (targets m)) in
    let* x := front tl in
    let m := with_targets tl (with_deferredTargets dl m) in
    Ok (true, with_order (t_order x) (with_readyTime (Z.max now (t_readyTime x)) m)).

(** [std::find_if_not]; the predicate asserts the source. *)
Fixpoint prefix_while (pred : Target -> res bool) (l : list Target) : res nat :=
  match l with
  | [] => Ok O
  | x :: l => let* b := pred x in if b then rmap S (prefix_while pred l) else Ok O
  end.

Definition promoteIf (pred : Target -> res bool) (m : t) : res (t * list Upstream) :=
  assert! (negb (downstreamPending m)) in
  let ds := tgts (deferredTargets m) in
  let* n := prefix_while pred ds in
  let '(moved, up) := clear_pending (take n ds) in
  let m := with_targets (set_tgts (tgts (targets m) ++ moved) (targets m)) m in
  let* dl := populateFlags (set_tgts (drop n ds) (deferredTargets m)) in
  Ok (with_deferredTargets dl m, up).

Definition readable_pred (x : Target) : res bool :=
  assert! (is_source (source x) FromCPU) in
  if Request.isCacheInvalidate (Packet.req (pkt x)) then Ok false
  else let* nw := Packet.needsWritable (pkt x) in Ok (negb nw).

Definition promoteReadable (m : t) : res (t * list Upstream) :=
  if is_nil (tgts (deferredTargets m)) then Ok (m, [])
  else
    let* pi := hasPostInvalidate m in
    if pi then Ok (m, []) else promoteIf readable_pred m.

Definition writable_pred (x : Target) : res bool :=
  assert! (is_source (source x) FromCPU) in
  Ok (negb (Request.isCacheInvalidate (Packet.req (pkt x)))).

(** The first deferred target is read before the emptiness of the list is
    known, but only used when the list needs a writable copy. *)
Definition promoteWritable (m : t) : res (t * list Upstream) :=
  if needsWritable (deferredTargets m) then
    let* pi := hasPostInvalidate m in
    let* pd := hasPostDowngrade m in
    let* x := front (deferredTargets m) in
    if negb (pi || pd) && negb (Request.isCacheInvalidate (Packet.req (pkt x))) then
      assert! (negb (needsWritable (targets m))) in
      promoteIf writable_pred (with_targets (set_needsWritable true (targets m)) m)
    else Ok (m, [])
  else Ok (m, []).

Definition trySatisfyFunctional (p : Packet.t) (m : t) : res (bool * Packet.t * t) :=
  if Packet.isPrint p then
    let* (_, p, _) := Packet.trySatisfyFunctional_data (blkAddr m) (isSecure m) (blkSize m) None p in
    Ok (false, p, m)
  else
    let* (b, p, ts) := satisfy_targets (tgts (targets m)) p in
    let m := with_targets (set_tgts ts (targets m)) m in
    if b then Ok (true, p, m)
    else
      let* (b, p, ds) := satisfy_targets (tgts (deferredTargets m)) p in
      Ok (b, p, with_deferredTargets (set_tgts ds (deferredTargets m)) m).

Definition delay (now delay_ticks : Z) (m : t) : res t :=
  assert! (readyTime m <=? now) in Ok (with_readyTime (u64 (now + delay_ticks)) m).

Definition matchBlockAddr (addr : Z) (is_secure : bool) (m : t) : res bool :=
  assert! (hasTargets m) in
  Ok ((blkAddr m =? addr) && eqb (isSecure m) is_secure).
Definition matchBlockAddr_id (addr : Z) (is_secure : bool) (id : Z) (m : t) : res bool :=
  assert! (hasTargets m) in
  Ok ((blkAddr m =? addr) && eqb (isSecure m) is_secure && (domainID m =? id)).
Definition matchBlockAddr_pkt (p : Packet.t) (m : t) : res bool :=
  assert! (hasTargets m) in
  let* b := Packet.matchBlockAddr (blkAddr m) (isSecure m) (blkSize m) p in
  if b then let* did := Packet.getDomainID p in Ok (did =? domainID m) else Ok false.
(** [conflictAddr(entry)], the other entry given by its [matchBlockAddr]. *)
Definition conflictAddr (other : Z -> bool -> Z -> res bool) (m : t) : res bool :=
  assert! (hasTargets m) in other (blkAddr m) (isSecure m) (domainID m).

Definition updateMayNotFill (may_not_fill : bool) (m : t) : bool * t :=
  let '(b, ts) := TL_updateMayNotFill may_not_fill (targets m) in (b, with_targets ts m).

End MSHR.
