(* ===== verification/MSHRFacts.v ===== *)
(** * Correctness of the miss registers

    The fill decision of an MSHR is the one its waiting requests ask for, its
    requests all belong to its security domain, and no operation loses one. *)

From S2P Require Import Prelude BaseUtil MemCmd Request Packet CacheBlk MSHR.
From stdpp Require Import relations.
Local Open Scope Z_scope.

Module MSHRFacts.
Import MSHR.

(** A request waiting for data, as opposed to a snoop to be replayed. *)
Definition waiting (x : Target) : bool := negb (is_source (source x) FromSnoop).

(** What has been said about the line since the flags of the target list were last
    computed from its targets, other than by a target that is still in it: that it may be
    filled, and that it is to be allocated. *)
Record Said := mkSaid { mayFill : bool; toAllocate : bool }.
Definition nothing : Said := mkSaid false false.

(** The flags of a list are those of its waiting requests and of what has been said since. *)
Record summary (g : Said) (l : TargetList) : Prop := {
  s_may : mayNotFill l = negb (mayFill g) && forallb (fun x => negb (waiting x) || Packet.isMayNotFill (pkt x)) (tgts l);
  s_alloc : allocOnFill l = toAllocate g || existsb (fun x => waiting x && t_allocOnFill x) (tgts l)
}.

(** Every waiting request is of domain [d]. *)
Definition domain_ok (d : Z) (l : TargetList) : Prop :=
  Forall (fun x => waiting x = true -> Packet.getDomainID (pkt x) = Ok d) (tgts l).

Lemma updateWriteFlags_frame p l l' :
  updateWriteFlags p l = Ok l' ->
  tgts l' = tgts l /\ mayNotFill l' = mayNotFill l /\ demandFetch l' = demandFetch l /\
  allocOnFill l' = allocOnFill l.
Proof.
  unfold updateWriteFlags. intros Hu. destruct (isWholeLineWrite l); [by inv_res|].
  destruct (canMergeWrites l); [|by inv_res]. destruct (negb (Packet.isWrite p)); [by inv_res|].
  inv_res. destruct (_ || _); inv_res; done.
Qed.

Lemma updateFlags_spec p src a l l' :
  updateFlags p src a l = Ok l' ->
  tgts l' = tgts l /\
  mayNotFill l' = (if is_source src FromSnoop then mayNotFill l
                   else mayNotFill l && Packet.isMayNotFill p) /\
  demandFetch l' = (if is_source src FromSnoop then demandFetch l
                    else demandFetch l || Packet.isDemandFetch p) /\
  allocOnFill l' = (if is_source src FromSnoop then allocOnFill l else allocOnFill l || a).
Proof.
  unfold updateFlags. destruct (is_source src FromSnoop); intros Hu; [by simplify_res|].
  apply rbind_ok in Hu as (nw & _ & Hu).
  assert (Hpre : forall l0 : TargetList, tgts l0 = tgts l -> mayNotFill l0 = mayNotFill l ->
    demandFetch l0 = demandFetch l -> allocOnFill l0 = allocOnFill l ->
    (if is_source src FromPrefetcher then
       Ok (set_demandFetch (demandFetch l0 || Packet.isDemandFetch p)
            (set_mayNotFill (mayNotFill l0 && Packet.isMayNotFill p) (set_allocOnFill (allocOnFill l0 || a) l0)))
     else updateWriteFlags p (set_hasFromCache (hasFromCache l0 || Packet.fromCache p)
       (set_demandFetch (demandFetch l0 || Packet.isDemandFetch p)
            (set_mayNotFill (mayNotFill l0 && Packet.isMayNotFill p) (set_allocOnFill (allocOnFill l0 || a) l0)))))
      = Ok l' ->
    tgts l' = tgts l /\ mayNotFill l' = mayNotFill l && Packet.isMayNotFill p /\
    demandFetch l' = demandFetch l || Packet.isDemandFetch p /\ allocOnFill l' = allocOnFill l || a).
  { intros l0 E1 E2 E3 E4. rewrite <- E1, <- E2, <- E3, <- E4.
    destruct (is_source src FromPrefetcher); intros Hr; [by simplify_res|].
    by apply updateWriteFlags_frame in Hr. }
  eapply Hpre; [..|exact Hu]; destruct nw; destruct (Packet.isUpgrade p || _); done.
Qed.

Lemma add_spec now p rt o src mk al l l' up :
  add now p rt o src mk al l = Ok (l', up) ->
  exists l1 marked, updateFlags p src al l = Ok l1 /\
    l' = set_tgts (tgts l1 ++ [Target_make now p rt o src marked al]) l1.
Proof.
  unfold add. intros Ha. apply rbind_ok in Ha as (l1 & Hu & Ha). exists l1.
  destruct mk; [|by simplify_res; eexists].
  destruct (Packet.findNextSenderState_MSHR p) as [[c m]|]; simplify_res; by eexists.
Qed.

Lemma add_summary g now p rt o src mk al l l' up d :
  summary g l -> domain_ok d l -> add now p rt o src mk al l = Ok (l', up) ->
  (is_source src FromSnoop = false -> Packet.getDomainID p = Ok d) ->
  summary g l' /\ domain_ok d l' /\
  exists x, tgts l' = tgts l ++ [x] /\ pkt x = p /\ source x = src.
Proof.
  intros [Hm Ha] Hdom Hadd Hp. destruct (add_spec _ _ _ _ _ _ _ _ _ _ Hadd) as (l1 & mkd & Hu & ->).
  destruct (updateFlags_spec _ _ _ _ _ Hu) as (Ht & Em & Ed & Ea). split; [|split].
  - constructor; simpl; rewrite ?Em, ?Ea, ?Ht, ?forallb_app, ?existsb_app, ?Hm, ?Ha; simpl;
      unfold waiting; simpl; destruct (is_source src FromSnoop); simpl;
      rewrite ?andb_true_r, ?orb_false_r, ?andb_assoc, ?orb_assoc; done.
  - unfold domain_ok. simpl. rewrite Ht. apply Forall_app. split; [done|]. constructor; [|done].
    unfold waiting. simpl. intros Hw. apply Hp. by destruct (is_source src FromSnoop).
  - eexists. simpl. rewrite Ht. done.
Qed.

Lemma populateFlags_summary l l' :
  populateFlags l = Ok l' -> summary nothing l' /\ tgts l' = tgts l.
Proof.
  unfold populateFlags.
  assert (Hgen : forall todo done l0, 
    mayNotFill l0 = forallb (fun x => negb (waiting x) || Packet.isMayNotFill (pkt x)) done ->
    allocOnFill l0 = existsb (fun x => waiting x && t_allocOnFill x) done ->
    foldM (fun l x => updateFlags (pkt x) (source x) (t_allocOnFill x) l) todo l0 = Ok l' ->
    tgts l' = tgts l0 /\
    mayNotFill l' = forallb (fun x => negb (waiting x) || Packet.isMayNotFill (pkt x)) (done ++ todo) /\
    allocOnFill l' = existsb (fun x => waiting x && t_allocOnFill x) (done ++ todo)).
  { induction todo as [|x todo IH]; intros dn l0 Hm Ha Hf; simpl in Hf.
    - simplify_res. by rewrite app_nil_r.
    - apply rbind_ok in Hf as (l1 & Hu & Hf).
      destruct (updateFlags_spec _ _ _ _ _ Hu) as (Ht & Em & Ed & Ea).
      replace (dn ++ x :: todo) with ((dn ++ [x]) ++ todo) by by rewrite <- app_assoc.
      rewrite <- Ht. apply IH; [..|exact Hf]; rewrite ?forallb_app, ?existsb_app;
        rewrite ?Em, ?Ea, <- ?Hm, <- ?Ha; simpl; unfold waiting;
        destruct (is_source (source x) FromSnoop); simpl; rewrite ?andb_true_r, ?orb_false_r; done. }
  intros Hf. destruct (Hgen (tgts l) [] (resetFlags l) eq_refl eq_refl Hf) as (Ht & Hm & Ha).
  split; [|done]. constructor; rewrite Ht; done.
Qed.

Lemma summary_init a n l : tgts l = [] -> summary nothing (init a n l).
Proof. intros E. constructor; simpl; by rewrite E. Qed.

(** Replacing upgrades changes commands, not what a summary reads. *)
Lemma replaceUpgrade_same p p' :
  replaceUpgrade p = Ok p' ->
  Packet.req p' = Packet.req p /\ Packet.isMayNotFill p' = Packet.isMayNotFill p.
Proof.
  unfold replaceUpgrade. set (q := if Packet.cmd_is p MemCmd.UpgradeReq then _ else _).
  assert (Hq : Packet.req q = Packet.req p /\ Packet.flags q = Packet.flags p).
  { unfold q. repeat (destruct (Packet.cmd_is p _); [done|]). done. }
  clearbody q. destruct Hq as [Hr Hf]. unfold Packet.isMayNotFill. rewrite <- Hf, <- Hr.
  destruct (negb _); [|by intros; simplify_res].
  intros He. simplify_res. destruct (Packet.hasRespData q); [|by simplify_res].
  unfold Packet.allocate in He. destruct (_ || _); simplify_res; [|done].
  split; [done|]. simpl. rewrite Flags.isSet_set. by rewrite orb_false_r.
Qed.

Lemma map_pkts_same l l' :
  map_pkts replaceUpgrade l = Ok l' ->
  Forall2 (fun x y => source x = source y /\ t_allocOnFill x = t_allocOnFill y /\
    Packet.req (pkt x) = Packet.req (pkt y) /\
    Packet.isMayNotFill (pkt x) = Packet.isMayNotFill (pkt y)) l l'.
Proof.
  revert l'. induction l as [|x l IH]; intros l' Hm; simpl in Hm; [by simplify_res|].
  apply rbind_ok in Hm as (p & Hp & Hm). apply rbind_ok in Hm as (l1 & Hl & Hm). simplify_res.
  apply replaceUpgrade_same in Hp as [Hr Hf]. constructor; [|auto]. simpl. done.
Qed.

(** Lists that agree on what a summary reads. *)
Lemma summary_ext l l' :
  mayNotFill l = mayNotFill l' -> allocOnFill l = allocOnFill l' ->
  Forall2 (fun x y => source x = source y /\ t_allocOnFill x = t_allocOnFill y /\
    Packet.req (pkt x) = Packet.req (pkt y) /\
    Packet.isMayNotFill (pkt x) = Packet.isMayNotFill (pkt y)) (tgts l) (tgts l') ->
  (forall g, summary g l -> summary g l') /\ (forall d, domain_ok d l -> domain_ok d l').
Proof.
  intros E1 E3 HF. split.
  - intros g [Hm Ha]. rewrite E1 in Hm. rewrite E3 in Ha.
    clear E1 E3. constructor; [rewrite Hm|rewrite Ha]; clear Hm Ha; f_equal;
      induction HF as [|x y xs ys (H1 & H2 & H3 & H4) _ IH]; simpl; try done; f_equal; try exact IH;
      unfold waiting; rewrite ?H1, ?H2, ?H4; done.
  - intros d. unfold domain_ok. clear E1 E3.
    induction HF as [|x y xs ys (H1 & _ & H3 & _) _ IH]; [done|].
    rewrite !Forall_cons_iff. intros [Hx Hxs]. split; [|auto].
    unfold waiting, Packet.getDomainID in *. by rewrite <- H1, <- H3.
Qed.

Lemma replaceUpgrades_keeps l l' :
  replaceUpgrades l = Ok l' -> (forall g, summary g l -> summary g l') /\ (forall d, domain_ok d l -> domain_ok d l').
Proof.
  unfold replaceUpgrades. destruct (negb (hasUpgrade l)); intros Hr; simplify_res; [done|].
  apply summary_ext; try done. simpl. by apply map_pkts_same.
Qed.

Lemma clear_pending_same l :
  Forall2 (fun x y => source x = source y /\ t_allocOnFill x = t_allocOnFill y /\
    Packet.req (pkt x) = Packet.req (pkt y) /\
    Packet.isMayNotFill (pkt x) = Packet.isMayNotFill (pkt y)) l (clear_pending l).1.
Proof.
  induction l as [|x l IH]; simpl; [constructor|]. destruct (clear_pending l) as [l' up]. simpl in IH.
  destruct (markedPending x); constructor; auto.
Qed.

Lemma clearDownstream_keeps l :
  (forall g, summary g l -> summary g (TL_clearDownstreamPending l).1) /\
  (forall d, domain_ok d l -> domain_ok d (TL_clearDownstreamPending l).1).
Proof.
  unfold TL_clearDownstreamPending. pose proof (clear_pending_same (tgts l)) as Hc.
  destruct (clear_pending (tgts l)) as [ts up]. by apply summary_ext.
Qed.

(** ** The life of an MSHR *)

(** Deferred targets join the target list, which does not recompute its flags. *)
Inductive promoted : t -> t -> Prop :=
  | promoted_readable m m' up : promoteReadable m = Ok (m', up) -> promoted m m'
  | promoted_writable m m' up : promoteWritable m = Ok (m', up) -> promoted m m'.

(** Every operation between the allocation of an MSHR and its deallocation. The
    promotions by a response are followed, in the same response, by an extraction. Dropping a target and the
    acknowledgement of a prefetch are remembered. *)
Inductive step : t * Said -> t * Said -> Prop :=
  | step_target now p w o a m m' up g :
      allocateTarget now p w o a m = Ok (m', up) -> step (m, g) (m', g)
  | step_snoop now p o m b p' m' up g :
      handleSnoop now p o m = Ok (b, p', m', up) -> step (m, g) (m', g)
  | step_service b m m' up g : markInService b m = Ok (m', up) -> step (m, g) (m', g)
  | step_clear m m' up g : clearDownstreamPending m = Ok (m', up) -> step (m, g) (m', g)
  | step_delay now d m m' g : delay now d m = Ok m' -> step (m, g) (m', g)
  | step_functional p m b p' m' g : trySatisfyFunctional p m = Ok (b, p', m') -> step (m, g) (m', g)
  | step_response p m m1 l m' g :
      rtc promoted m m1 -> extractServiceableTargets p m1 = Ok (l, m') -> step (m, g) (m', nothing)
  | step_promote now m b m' g :
      promoteDeferredTargets now m = Ok (b, m') -> step (m, g) (m', if b then nothing else g)
  | step_drop m x m' g :
      front (targets m) = Ok x -> popTarget m = Ok m' ->
      step (m, g) (m', mkSaid (mayFill g || waiting x && negb (Packet.isMayNotFill (pkt x)))
                             (toAllocate g || waiting x && t_allocOnFill x))
  | step_allow m g :
      step (m, g) ((updateMayNotFill false m).2, mkSaid (mayFill g || allocOnFill (targets m)) (toAllocate g)).

(** An MSHR allocated from an idle register and used since. *)
Definition reachable (m : t) (g : Said) : Prop :=
  exists m0 m1 now a n p w o al up, tgts (targets m0) = [] /\ tgts (deferredTargets m0) = [] /\
    allocate now a n p w o al m0 = Ok (m1, up) /\ rtc step (m1, nothing) (m, g).

(** What holds also between a promotion and the extraction that follows. *)
Record kept (m : t) : Prop := {
  k_dsum : summary nothing (deferredTargets m);
  k_dom : domain_ok (domainID m) (targets m);
  k_ddom : domain_ok (domainID m) (deferredTargets m)
}.

Record inv (g : Said) (m : t) : Prop := {
  i_sum : summary g (targets m);
  i_dsum : summary nothing (deferredTargets m);
  i_dom : domain_ok (domainID m) (targets m);
  i_ddom : domain_ok (domainID m) (deferredTargets m)
}.

Lemma allocate_inv now a n p w o al m m' up :
  tgts (targets m) = [] -> tgts (deferredTargets m) = [] ->
  allocate now a n p w o al m = Ok (m', up) -> inv nothing m'.
Proof.
  intros Ht Hd Ha. unfold allocate in Ha.
  apply rbind_ok in Ha as (sec & _ & Ha). apply rbind_ok in Ha as (did & Hdid & Ha).
  apply rbind_ok in Ha as ([ts u] & Hadd & Ha). apply rbind_ok in Ha as (x & _ & Ha).
  apply rbind_ok in Ha as (same & _ & Ha). simplify_res. cbn in Hadd.
  assert (Hdom0 : domain_ok did (init a n (targets m))) by (unfold domain_ok; simpl; by rewrite Ht).
  destruct (add_summary _ _ _ _ _ _ _ _ _ _ _ did (summary_init a n _ Ht) Hdom0 Hadd)
    as (Hs & Hdom & _); [done|].
  constructor; simpl; [done|by apply summary_init|done|].
  unfold domain_ok. simpl. by rewrite Hd.
Qed.

Lemma allocateTarget_inv g now p w o a m m' up :
  inv g m -> allocateTarget now p w o a m = Ok (m', up) -> inv g m'.
Proof.
  intros [Hs Hds Hd Hdd] Ha. unfold allocateTarget in Ha.
  apply rbind_ok in Ha as (did & Hdid & Ha). simplify_res.
  match goal with He : (did =? _) = true |- _ => apply Z.eqb_eq in He as -> end.
  match goal with Hm : must_defer p m = Ok ?x |- _ => destruct x end.
  - apply rbind_ok in Ha as (p' & Hp & Ha). apply rbind_ok in Ha as ([ds u] & Hadd & Ha). simplify_res.
    assert (Hdid' : Packet.getDomainID p' = Ok (domainID m)).
    { destruct (inService m && postInvalidate m); [|by simplify_res].
      apply replaceUpgrade_same in Hp as [Hr _]. unfold Packet.getDomainID in *. by rewrite Hr. }
    destruct (add_summary _ _ _ _ _ _ _ _ _ _ _ (domainID m) Hds Hdd Hadd) as (? & ? & _); [done|].
    by constructor.
  - apply rbind_ok in Ha as ([ts u] & Hadd & Ha). simplify_res.
    destruct (add_summary _ _ _ _ _ _ _ _ _ _ _ (domainID m) Hs Hd Hadd) as (? & ? & _); [done|].
    by constructor.
Qed.

Lemma save_snoop_inv g now p o wr pm m p' m' up :
  inv g m -> save_snoop now p o wr pm m = Ok (p', m', up) -> inv g m'.
Proof.
  intros [Hs Hds Hd Hdd] Ha. unfold save_snoop in Ha.
  apply rbind_ok in Ha as (cp & _ & Ha). apply rbind_ok in Ha as (q & _ & Ha).
  apply rbind_ok in Ha as ([ts u] & Hadd & Ha). apply rbind_ok in Ha as (nw & _ & Ha). simplify_res.
  destruct (add_summary _ _ _ _ _ _ _ _ _ _ _ (domainID m) Hs Hd Hadd) as (? & ? & _); [done|].
  destruct (_ || _); by constructor.
Qed.

Lemma handleSnoop_inv g now p o m b p' m' up :
  inv g m -> handleSnoop now p o m = Ok (b, p', m', up) -> inv g m'.
Proof.
  intros [Hs Hds Hd Hdd] Ha. unfold handleSnoop in Ha. apply rbind_ok in Ha as (nw & _ & Ha).
  match type of Ha with (if ?c then Err _ else _) = _ => destruct c; [done|] end.
  cbv zeta in Ha. destruct (negb (inService m) || _).
  { destruct (nw || _); [|by simplify_res].
    apply rbind_ok in Ha as (ts & Ht & Ha). apply rbind_ok in Ha as (ds & Hdt & Ha). simplify_res.
    apply replaceUpgrades_keeps in Ht as [? ?], Hdt as [? ?]. constructor; simpl; auto. }
  apply rbind_ok in Ha as (ds & Hdt & Ha). apply rbind_ok in Ha as (x & _ & Ha).
  apply rbind_ok in Ha as (pi & _ & Ha).
  set (m1 := with_deferredTargets ds m) in *.
  assert (Hinv1 : inv g m1).
  { destruct (nw || _).
    - apply replaceUpgrades_keeps in Hdt as [? ?]. constructor; simpl; auto.
    - injection Hdt as <-. by constructor. }
  clearbody m1. destruct (pi || _); [by simplify_res|].
  apply rbind_ok in Ha as (pm & _ & Ha). apply rbind_ok in Ha as ([[p1 m2] u1] & Hsv & Ha).
  apply rbind_ok in Ha as (nw2 & _ & Ha).
  assert (Hinv2 : inv g m2).
  { destruct (pm || _); [by eapply save_snoop_inv|]. by simplify_res. }
  destruct Hinv2. destruct (negb nw2 && _); simplify_res; by constructor.
Qed.

Lemma populate_domain l l' d : populateFlags l = Ok l' -> domain_ok d l -> domain_ok d l'.
Proof. intros Hp Hd. apply populateFlags_summary in Hp as [_ Ht]. unfold domain_ok. by rewrite Ht. Qed.

(** What [extractServiceableTargets] hands out and keeps: the same targets. *)
Lemma split_invalidated_perm l r k : split_invalidated l = Ok (r, k) -> r ++ k ≡ₚ l.
Proof.
  revert r k. induction l as [|x l IH]; intros r k Hs; simpl in Hs; [by simplify_res|].
  apply rbind_ok in Hs as ([r' k'] & Hs' & Hs). specialize (IH _ _ Hs').
  destruct (is_source (source x) FromCPU); simplify_res; simpl; rewrite <- IH; [|done].
  by rewrite Permutation_middle.
Qed.

Lemma extract_spec p m l m' :
  extractServiceableTargets p m = Ok (l, m') ->
  tgts l ++ tgts (targets m') ≡ₚ tgts (targets m) /\ deferredTargets m' = deferredTargets m /\
  domainID m' = domainID m /\ summary nothing (targets m') /\
  (Packet.cmd_is p MemCmd.ReadRespWithInvalidate = false -> l = targets m).
Proof.
  unfold extractServiceableTargets. intros He. destruct (Packet.cmd_is p _).
  - destruct (tgts (targets m)) as [|x ts]; [done|].
    match type of He with (if ?c then _ else _) = _ => destruct c; [|done] end.
    apply rbind_ok in He as ([r k] & Hs & He). apply rbind_ok in He as (rl & Hr & He).
    apply rbind_ok in He as (tl & Htl & He). simplify_res.
    apply populateFlags_summary in Hr as [_ Hr], Htl as [Hsum Htl]. simpl in *. rewrite Hr, Htl.
    split; [simpl; by rewrite (split_invalidated_perm _ _ _ Hs)|done].
  - apply rbind_ok in He as (tl & Htl & He). simplify_res.
    apply populateFlags_summary in Htl as [Hsum Htl]. simpl in *. rewrite Htl. by rewrite app_nil_r.
Qed.

Lemma promote_spec now m b m' :
  promoteDeferredTargets now m = Ok (b, m') ->
  tgts (targets m') ++ tgts (deferredTargets m') = tgts (targets m) ++ tgts (deferredTargets m) /\
  domainID m' = domainID m /\ (b = false -> m' = m) /\
  (b = true -> summary nothing (targets m') /\ summary nothing (deferredTargets m')).
Proof.
  unfold promoteDeferredTargets. intros Hp. destruct (is_nil _ && is_nil _); [by simplify_res|].
  set (it := match find_first _ _ with Some _ => _ | None => _ end) in Hp.
  match type of Hp with (let '(_, _) := ?c in _) = _ => destruct c as [ts ds] eqn:Ec end.
  assert (Happ : ts ++ ds = tgts (targets m) ++ tgts (deferredTargets m)).
  { destruct (_ && _); [destruct (is_nil _)|]; simplify_eq; rewrite <- ?app_assoc, ?take_drop; done. }
  apply rbind_ok in Hp as (dl & Hdl & Hp). apply rbind_ok in Hp as (tl & Htl & Hp).
  apply rbind_ok in Hp as (x & _ & Hp). simplify_res.
  apply populateFlags_summary in Hdl as [Hds Hdl], Htl as [Hts Htl]. simpl in *.
  rewrite Hdl, Htl. done.
Qed.

Lemma perm_domain d (l : TargetList) a b :
  a ++ b ≡ₚ tgts l -> domain_ok d l ->
  Forall (fun x => waiting x = true -> Packet.getDomainID (pkt x) = Ok d) a /\
  Forall (fun x => waiting x = true -> Packet.getDomainID (pkt x) = Ok d) b.
Proof. intros Hp Hd. unfold domain_ok in Hd. rewrite <- Hp in Hd. by apply Forall_app. Qed.

Lemma clear_pending_domain d l :
  Forall (fun x => waiting x = true -> Packet.getDomainID (pkt x) = Ok d) l ->
  Forall (fun x => waiting x = true -> Packet.getDomainID (pkt x) = Ok d) (clear_pending l).1.
Proof.
  intros Hl. pose proof (clear_pending_same l) as Hs. revert Hl.
  induction Hs as [|x y xs ys (H1 & _ & H3 & _) _ IH]; [done|]. rewrite !Forall_cons_iff. intros [Hx Hxs].
  split; [|auto]. unfold waiting, Packet.getDomainID in *. by rewrite <- H1, <- H3.
Qed.

Lemma promoteIf_kept pred m m' up : kept m -> promoteIf pred m = Ok (m', up) -> kept m'.
Proof.
  intros [Hds Hd Hdd] H. unfold promoteIf in H. destruct (negb (downstreamPending m)); [|discriminate H].
  apply rbind_ok in H as (n & _ & H). pose proof (clear_pending_domain (domainID m) (take n (tgts (deferredTargets m)))) as Hc.
  destruct (clear_pending (take n _)) as [moved u]. apply rbind_ok in H as (dl & Hdl & H). simplify_res.
  apply populateFlags_summary in Hdl as [Hsum Htg]. simpl in *. unfold domain_ok in *. simpl in *.
  constructor; [done|simpl|]; unfold domain_ok; simpl; [|rewrite Htg; by apply Forall_drop].
  apply Forall_app. split; [done|]. by apply Hc, Forall_take.
Qed.

Lemma promoted_kept m m' : promoted m m' -> kept m -> kept m'.
Proof.
  intros [m0 m1 up H|m0 m1 up H] Hk.
  - unfold promoteReadable in H. destruct (is_nil _); [by simplify_res|]. apply rbind_ok in H as (pi & _ & H).
    destruct pi; [by simplify_res|]. by eapply promoteIf_kept.
  - unfold promoteWritable in H. destruct (needsWritable _); [|by simplify_res].
    apply rbind_ok in H as (pi & _ & H). apply rbind_ok in H as (pd & _ & H). apply rbind_ok in H as (x & _ & H).
    destruct (negb _ && _); [|by simplify_res]. destruct (negb (needsWritable _)); [|discriminate H].
    eapply promoteIf_kept; [|exact H]. by destruct Hk.
Qed.

Lemma response_inv p m m1 l m' : kept m -> rtc promoted m m1 -> extractServiceableTargets p m1 = Ok (l, m') -> inv nothing m'.
Proof.
  intros Hk Hp He. assert (kept m1) as [Hds Hd Hdd] by (induction Hp; eauto using promoted_kept). clear Hp Hk.
  destruct (extract_spec _ _ _ _ He) as (Hp & Hde & Hdo & Hsum & _).
  destruct (perm_domain _ _ _ _ Hp Hd) as [_ ?]. constructor; rewrite ?Hde, ?Hdo; done.
Qed.

(** Functional accesses change the data of the waiting packets. *)
Lemma satisfy_targets_same l : forall p b p' l', satisfy_targets l p = Ok (b, p', l') ->
  Forall2 (fun x y => source x = source y /\ t_allocOnFill x = t_allocOnFill y /\
    Packet.req (pkt x) = Packet.req (pkt y) /\
    Packet.isMayNotFill (pkt x) = Packet.isMayNotFill (pkt y)) l l'.
Proof.
  assert (forall q p b p' q', Packet.trySatisfyFunctional q p = Ok (b, p', q') ->
    Packet.req q = Packet.req q' /\ Packet.isMayNotFill q = Packet.isMayNotFill q') as Hq.
  { intros q p b p' q' H. unfold Packet.trySatisfyFunctional in H. destruct (Packet.isMaskedWrite q); [by simplify_res|].
    apply rbind_ok in H as (? & _ & H). apply rbind_ok in H as (? & _ & H). apply rbind_ok in H as (? & _ & H).
    apply rbind_ok in H as (? & _ & H). apply rbind_ok in H as ([[? ?] d'] & _ & H). destruct d'; by simplify_res. }
  induction l as [|x l IH]; intros p b p' l' H; simpl in H; [by simplify_res|].
  apply rbind_ok in H as ([[b1 p1] q] & Hx%Hq & H). destruct b1.
  - simplify_res. constructor; [done|]. apply Forall_Forall2_diag, Forall_forall. done.
  - apply rbind_ok in H as ([[b2 p2] l2] & Hl & H). simplify_res. constructor; [done|]. by eapply IH.
Qed.

Lemma functional_inv g p m b p' m' : inv g m -> trySatisfyFunctional p m = Ok (b, p', m') -> inv g m'.
Proof.
  intros [Hs Hds Hd Hdd] H. unfold trySatisfyFunctional in H. destruct (Packet.isPrint p).
  { apply rbind_ok in H as ([[? ?] ?] & _ & H). by simplify_res. }
  apply rbind_ok in H as ([[b1 p1] ts] & Ht%satisfy_targets_same & H).
  destruct (summary_ext (targets m) (set_tgts ts (targets m)) eq_refl eq_refl Ht) as [Hk1 Hk2].
  destruct b1; [simplify_res; constructor; simpl; auto|].
  apply rbind_ok in H as ([[b2 p2] ds] & Hdt%satisfy_targets_same & H). simplify_res.
  destruct (summary_ext (deferredTargets m) (set_tgts ds (deferredTargets m)) eq_refl eq_refl Hdt) as [Hk3 Hk4].
  constructor; simpl; auto.
Qed.

Lemma drop_inv g m x m' : inv g m -> front (targets m) = Ok x -> popTarget m = Ok m' ->
  inv (mkSaid (mayFill g || waiting x && negb (Packet.isMayNotFill (pkt x))) (toAllocate g || waiting x && t_allocOnFill x)) m'.
Proof.
  intros [[Hm Ha] Hds Hd Hdd] Hx Hp. unfold front, popTarget in *. destruct (tgts (targets m)) as [|y ts] eqn:Et; [done|].
  simplify_res. simpl in Hm, Ha. constructor; [constructor; simpl|done| |done].
  - rewrite Hm. by destruct (mayFill g), (waiting x), (Packet.isMayNotFill (pkt x)).
  - by rewrite Ha, orb_assoc.
  - unfold domain_ok in *. rewrite Et in Hd. by apply Forall_cons_1 in Hd as [_ ?].
Qed.

Lemma allow_inv g m : inv g m -> inv (mkSaid (mayFill g || allocOnFill (targets m)) (toAllocate g)) (updateMayNotFill false m).2.
Proof.
  intros [[Hm Ha] Hds Hd Hdd]. unfold updateMayNotFill, TL_updateMayNotFill.
  destruct (allocOnFill (targets m)) eqn:Hal; constructor; try done; (constructor; simpl; [|congruence]).
  - by rewrite orb_true_r.
  - by rewrite orb_false_r.
Qed.

Lemma step_inv m g m' g' : inv g m -> step (m, g) (m', g') -> inv g' m'.
Proof.
  intros Hinv Hs. inversion Hs as [now p w o a ? ? up ? H|now p o ? b p' ? up ? H|b ? ? up ? H|? ? up ? H|
    now d ? ? ? H|p ? b p' ? ? H|p ? m1 l ? ? Hp H|now ? b ? ? H|? x ? ? Hx H|]; subst.
  - by eapply allocateTarget_inv.
  - by eapply handleSnoop_inv.
  - destruct Hinv as [Hs' Hds Hd Hdd]. unfold markInService in H. simplify_res.
    pose proof (clearDownstream_keeps (targets m)) as [Hk1 Hk2].
    simpl in H. destruct (negb (downstreamPending m)); [|simplify_res; by constructor].
    destruct (TL_clearDownstreamPending (targets m)) as [ts u]. simplify_res. constructor; simpl; auto.
  - destruct Hinv as [Hs' Hds Hd Hdd]. unfold clearDownstreamPending in H. simplify_res.
    pose proof (clearDownstream_keeps (targets m)) as [Hk1 Hk2].
    destruct (TL_clearDownstreamPending (targets m)) as [ts u]. simplify_res. constructor; simpl; auto.
  - destruct Hinv. unfold delay in H. simplify_res. by constructor.
  - by eapply functional_inv.
  - destruct Hinv. by eapply response_inv.
  - destruct Hinv as [Hs' Hds Hd Hdd]. destruct (promote_spec _ _ _ _ H) as (Hp & Hdo & Hf & Ht).
    destruct b; [|by rewrite Hf by done].
    destruct (Ht eq_refl). constructor; try done; rewrite Hdo; unfold domain_ok in *;
      assert (HF : Forall (fun x => waiting x = true -> Packet.getDomainID (pkt x) = Ok (domainID m))
        (tgts (targets m') ++ tgts (deferredTargets m'))) by (rewrite Hp; by apply Forall_app);
      by apply Forall_app in HF as [? ?].
  - by eapply drop_inv.
  - by apply allow_inv.
Qed.

Lemma reachable_inv m g : reachable m g -> inv g m.
Proof.
  intros (m0 & m1 & now & a & n & p & w & o & al & up & Ht & Hd & Ha & Hr).
  assert (Hi : inv nothing m1) by by eapply allocate_inv.
  change (inv (m, g).2 (m, g).1). change (inv (m1, nothing).2 (m1, nothing).1) in Hi. clear -Hi Hr.
  induction Hr as [|[x gx] [y gy] z Hs _ IH]; [done|]. by eapply IH, step_inv.
Qed.

(** C12. The fill decision and the domain of an MSHR. Take any MSHR in any state between
    its allocation and its deallocation, after any sequence of further targets, snoops,
    sends, functional accesses, delays, responses (which may promote deferred targets that
    can be served with the line they bring, and then extract targets), promotions of the
    deferred targets, targets dropped and acknowledgements that let it fill after all.
    (The only states left out are those inside a response, after such a promotion and
    before the extraction; the decision to fill has been taken before.) The MSHR is a
    no-fill one exactly when every request waiting in its target list is marked
    may-not-fill and, since its flags were last computed from its targets, no
    acknowledgement has let it fill while it allocated and no unmarked request has been
    dropped; it allocates exactly when one of the waiting requests does, or one dropped
    since then did; and every waiting request, deferred ones included, belongs to the
    MSHR's security domain. *)
Theorem mshr_fill_decision (m : t) (g : Said) :
  reachable m g ->
  (mayNotFill (targets m) = true <-> mayFill g = false /\
     forall x, x ∈ tgts (targets m) -> waiting x = true -> Packet.isMayNotFill (pkt x) = true) /\
  (allocOnFill (targets m) = true <-> toAllocate g = true \/
     exists x, x ∈ tgts (targets m) /\ waiting x = true /\ t_allocOnFill x = true) /\
  (forall x, x ∈ tgts (targets m) ++ tgts (deferredTargets m) -> waiting x = true ->
     Packet.getDomainID (pkt x) = Ok (domainID m)).
Proof.
  intros [[Hs1 Hs2] _ Hd1 Hd2]%reachable_inv. split; [|split].
  - rewrite Hs1, andb_true_iff, negb_true_iff, forallb_forall. setoid_rewrite list_elem_of_In. f_equiv. split.
    + intros H x Hx Hw. specialize (H x Hx). by rewrite Hw in H.
    + intros H x Hx. destruct (waiting x) eqn:Hw; [by apply H|done].
  - rewrite Hs2, orb_true_iff, existsb_exists. setoid_rewrite list_elem_of_In. f_equiv. split.
    + intros (x & Hx & Hb). apply andb_true_iff in Hb as [? ?]. eauto.
    + intros (x & Hx & Hw & Hal). exists x. by rewrite Hw, Hal.
  - intros x Hx Hw. unfold domain_ok in *. rewrite Forall_forall in Hd1, Hd2.
    apply elem_of_app in Hx as [Hx|Hx]; auto.
Qed.

(** C29. No waiting request is lost. Extraction hands out or keeps every target
    of the list, and hands out all of them unless the response carries an
    invalidation; promotion keeps all targets in order, and fails to promote
    only when none is left. *)
Theorem mshr_conserves_targets (m : t) :
  (forall p l m', extractServiceableTargets p m = Ok (l, m') ->
     tgts l ++ tgts (targets m') ≡ₚ tgts (targets m) /\ deferredTargets m' = deferredTargets m /\
     (Packet.cmd_is p MemCmd.ReadRespWithInvalidate = false -> tgts (targets m') = [])) /\
  (forall now b m', promoteDeferredTargets now m = Ok (b, m') ->
     tgts (targets m') ++ tgts (deferredTargets m') = tgts (targets m) ++ tgts (deferredTargets m) /\
     (b = false <-> getNumTargets m = 0%nat)).
Proof.
  split.
  - intros p l m' He. destruct (extract_spec _ _ _ _ He) as (Hp & Hd & _ & _ & Hl).
    split; [done|]. split; [done|]. intros Hc. rewrite (Hl Hc) in Hp.
    apply Permutation_length in Hp. rewrite length_app in Hp.
    destruct (tgts (targets m')); [done|simpl in Hp; lia].
  - intros now b m' Hp. destruct (promote_spec _ _ _ _ Hp) as (Happ & _ & _). split; [done|].
    unfold promoteDeferredTargets in Hp. unfold getNumTargets.
    destruct (tgts (targets m)) as [|x ts] eqn:E1, (tgts (deferredTargets m)) as [|y ds] eqn:E2;
      cbn [is_nil andb] in Hp; [by simplify_res|..]; (split; [|simpl; lia]).
    all: intros ->; match type of Hp with (let '(_, _) := ?c in _) = _ => destruct c end;
      apply rbind_ok in Hp as (? & _ & Hp); apply rbind_ok in Hp as (? & _ & Hp);
      apply rbind_ok in Hp as (? & _ & Hp); by simplify_res.
Qed.

(** An 8-byte request of domain 3, marked no-fill or not. *)
Definition example_pkt (flags : Z) : Packet.t :=
  Packet.make_blk 0 (Request.setDomainID 3 (Request.make 0 0x1040 64 flags 0)) MemCmd.ReadReq 64.
Definition example_mshr : res (t * list Upstream) :=
  let* (m, _) := allocate 5 0x1040 64 (example_pkt Request.NO_FILL) 5 1 true make in
  allocateTarget 6 (example_pkt Request.NO_FILL) 6 2 true m.
Definition example_m : t := match example_mshr with Ok (m, _) => m | Err _ => make end.

Lemma example_reachable : reachable example_m nothing.
Proof.
  destruct (allocate 5 0x1040 64 (example_pkt Request.NO_FILL) 5 1 true make) as [[m1 up]|] eqn:E;
    [|by vm_compute in E].
  exists make, m1, 5, 0x1040, 64, (example_pkt Request.NO_FILL), 5, 1, true, up.
  split; [done|]. split; [done|]. split; [done|]. apply rtc_once.
  destruct (allocateTarget 6 (example_pkt Request.NO_FILL) 6 2 true m1) as [[m2 up2]|] eqn:E2.
  - replace example_m with m2; [by eapply step_target|].
    unfold example_m, example_mshr. rewrite E. cbn [rbind]. by rewrite E2.
  - exfalso. vm_compute in E. by simplify_res.
Defined.

(** A prefetch, a no-fill load that joins its MSHR, and the prefetch dropped: the only waiting
    request is marked, and the MSHR still fills. *)
Definition dropped_prefetch : res t :=
  let pf := Packet.make_blk 0 (Request.setDomainID 3 (Request.make 0 0x1040 64 0 0)) MemCmd.HardPFReq 64 in
  let* (m, _) := allocate 5 0x1040 64 pf 5 1 true make in
  let* (m, _) := allocateTarget 6 (example_pkt Request.NO_FILL) 6 2 true m in
  popTarget m.

Lemma dropped_target_still_fills :
  exists m, dropped_prefetch = Ok m /\ mayNotFill (targets m) = false /\
    (fun x => Packet.isMayNotFill (pkt x)) <$> tgts (targets m) = [true].
Proof. eexists. split; [vm_compute; reflexivity|]. by vm_compute. Qed.

Lemma mshr_fill_decision_witness :
  (mayNotFill (targets example_m) = true <-> mayFill nothing = false /\
     forall x, x ∈ tgts (targets example_m) -> waiting x = true -> Packet.isMayNotFill (pkt x) = true) /\
  length (tgts (targets example_m)) = 2%nat.
Proof.
  destruct (mshr_fill_decision example_m nothing example_reachable) as [H _].
  split; [exact H|by vm_compute].
Defined.

End MSHRFacts.
