(* ===== verification/Queues.v ===== *)
(** * The miss and write queues

    [Queue<Entry>] (src/gem5/src/mem/cache/queue.hh), [WriteQueueEntry]
    (write_queue_entry.hh, .cc), [MSHRQueue] (mshr_queue.hh, .cc) and
    [WriteQueue] (write_queue.hh, .cc). Entries live in a fixed array; the
    allocated, ready and free lists hold entry indices. The iterators an entry
    keeps into the lists ([allocIter], [readyIter]) stand for its position, so
    they are not stored. *)

From S2P Require Import Prelude BaseUtil MemCmd Request Packet CacheBlk MSHR.
Local Open Scope Z_scope.

(** ** What the queue asks of its entries ([QueueEntry]) *)
Class QueueEntry (E : Type) := {
  qe_make : E;
  qe_readyTime : E -> Z;
  qe_inService : E -> bool;
  qe_isUncacheable : E -> bool;
  qe_matchBlockAddr : Z -> bool -> E -> res bool;
  qe_matchBlockAddr_id : Z -> bool -> Z -> E -> res bool;
  qe_matchBlockAddr_pkt : Packet.t -> E -> res bool;
  qe_conflictAddr : (Z -> bool -> Z -> res bool) -> E -> res bool;
  qe_trySatisfyFunctional : Packet.t -> E -> res (bool * Packet.t * E);
  qe_deallocate : E -> res E
}.

Module Queue.

Record t (E : Type) := mk {
  numEntries : Z;
  numReserve : Z;
  entries : list E;
  allocatedList : list nat;
  readyList : list nat;
  freeList : list nat;
  _numInService : Z;
  allocated : Z
}.
Arguments mk {E}.
Arguments numEntries {E}.
Arguments numReserve {E}.
Arguments entries {E}.
Arguments allocatedList {E}.
Arguments readyList {E}.
Arguments freeList {E}.
Arguments _numInService {E}.
Arguments allocated {E}.

Section queue.
Context {E : Type} `{QueueEntry E}.
Implicit Types q : t E.

Definition set_entries (l : list E) q : t E :=
  mk (numEntries q) (numReserve q) l (allocatedList q) (readyList q) (freeList q)
    (_numInService q) (allocated q).
Definition set_lists (al rl fl : list nat) q : t E :=
  mk (numEntries q) (numReserve q) (entries q) al rl fl (_numInService q) (allocated q).
Definition set_readyList (rl : list nat) q : t E :=
  set_lists (allocatedList q) rl (freeList q) q.
Definition set_counts (inservice alloc : Z) q : t E :=
  mk (numEntries q) (numReserve q) (entries q) (allocatedList q) (readyList q) (freeList q)
    inservice alloc.

(** Constructor: all entries free, in order. *)
Definition make (num_entries reserve : Z) : t E :=
  let n := Z.to_nat (num_entries + reserve) in
  mk (num_entries + reserve) reserve (replicate n qe_make) [] [] (seq 0 n) 0 0.

Definition entry (e : nat) q : res E :=
  match entries q !! e with Some x => Ok x | None => Err Undefined end.
Definition put (e : nat) (x : E) q : t E := set_entries (<[e := x]> (entries q)) q.

(** [list.erase(it)], [it] being the position of [e]. *)
Fixpoint erase (e : nat) (l : list nat) : res (list nat) :=
  match l with
  | [] => Err Undefined
  | x :: l => if (x =? e)%nat then Ok l else let* l := erase e l in Ok (x :: l)
  end.

Definition ready_of q (e : nat) : Z :=
  match entries q !! e with Some x => qe_readyTime x | None => 0 end.

(** The scan of [addToReadyList] for the first later entry. *)
Fixpoint insert_ready q (e : nat) (l : list nat) : res (list nat) :=
  match l with
  | [] => Err Panic
  | x :: l' =>
      if ready_of q e <? ready_of q x then Ok (e :: l)
      else let* l' := insert_ready q e l' in Ok (x :: l')
  end.

Definition addToReadyList (e : nat) q : res (t E) :=
  match last (readyList q) with
  | None => Ok (set_readyList (readyList q ++ [e]) q)
  | Some z =>
      if ready_of q z <=? ready_of q e then Ok (set_readyList (readyList q ++ [e]) q)
      else let* l := insert_ready q e (readyList q) in Ok (set_readyList l q)
  end.

Definition isEmpty q : bool := allocated q =? 0.
Definition isFull q : bool := numEntries q - numReserve q <=? allocated q.
Definition numInService q : Z := _numInService q.

(** The first allocated entry that satisfies a test. *)
Fixpoint find_entry (p : E -> res bool) q (l : list nat) : res (option nat) :=
  match l with
  | [] => Ok None
  | e :: l => let* x := entry e q in
              let* b := p x in
              if b then Ok (Some e) else find_entry p q l
  end.

Definition findMatch (blk_addr : Z) (is_secure ignore_uncacheable : bool) q : res (option nat) :=
  find_entry (fun x => if ignore_uncacheable && qe_isUncacheable x then Ok false
                       else qe_matchBlockAddr blk_addr is_secure x) q (allocatedList q).

Definition findMatch_dom (blk_addr : Z) (is_secure : bool) (domainID : Z) (ignore_uncacheable : bool) q :
    res (option nat) :=
  find_entry (fun x => if ignore_uncacheable && qe_isUncacheable x then Ok false
                       else qe_matchBlockAddr_id blk_addr is_secure domainID x) q (allocatedList q).

Fixpoint satisfy (p : Packet.t) (l : list nat) q : res (bool * Packet.t * t E) :=
  match l with
  | [] => Ok (false, p, q)
  | e :: l =>
      let* x := entry e q in
      let* m := qe_matchBlockAddr_pkt p x in
      if m then
        let* (b, p, x) := qe_trySatisfyFunctional p x in
        let q := put e x q in
        if b then Ok (true, p, q) else satisfy p l q
      else satisfy p l q
  end.

Definition trySatisfyFunctional (p : Packet.t) q : res (bool * Packet.t * t E) :=
  satisfy p (allocatedList q) q.

Definition findPending (other : Z -> bool -> Z -> res bool) q : res (option nat) :=
  find_entry (qe_conflictAddr other) q (readyList q).

Definition getNext (now : Z) q : option nat :=
  match readyList q with
  | [] => None
  | e :: _ => if now <? ready_of q e then None else Some e
  end.

Definition nextReadyTime q : Z :=
  match readyList q with [] => MaxTick | e :: _ => ready_of q e end.

(** [deallocate], without the notification of the drain manager. *)
Definition deallocate (e : nat) q : res (t E) :=
  let* x := entry e q in
  let* al := erase e (allocatedList q) in
  let* rl := if qe_inService x then Ok (readyList q) else erase e (readyList q) in
  let* x' := qe_deallocate x in
  Ok (put e x' (set_counts (if qe_inService x then _numInService q - 1 else _numInService q)
                  (allocated q - 1)
                  (set_lists al rl (e :: freeList q) q))).

(** The bookkeeping [MSHRQueue::allocate] and [WriteQueue::allocate] share,
    around the entry's own [allocate]. *)
Definition allocate_entry {U} (num_targets : E -> nat) (alloc : E -> res (E * U)) q :
    res (nat * t E * U) :=
  match freeList q with
  | [] => Err AssertFail
  | e :: fl =>
      let* x := entry e q in
      assert! (num_targets x =? 0)%nat in
      let* (x, u) := alloc x in
      let q := put e x (set_lists (allocatedList q ++ [e]) (readyList q) fl q) in
      let* q := addToReadyList e q in
      Ok (e, set_counts (_numInService q) (allocated q + 1) q, u)
  end.

End queue.
End Queue.

(** ** MSHRQueue *)
#[global] Instance mshr_entry : QueueEntry MSHR.t := {|
  qe_make := MSHR.make;
  qe_readyTime := MSHR.readyTime;
  qe_inService := MSHR.inService;
  qe_isUncacheable := MSHR._isUncacheable;
  qe_matchBlockAddr := MSHR.matchBlockAddr;
  qe_matchBlockAddr_id := MSHR.matchBlockAddr_id;
  qe_matchBlockAddr_pkt := MSHR.matchBlockAddr_pkt;
  qe_conflictAddr := MSHR.conflictAddr;
  qe_trySatisfyFunctional := MSHR.trySatisfyFunctional;
  qe_deallocate := MSHR.deallocate
|}.

Module MSHRQueue.
Import Queue.

Record t := mk { queue : Queue.t MSHR.t; demandReserve : Z }.

Definition with_queue (q : Queue.t MSHR.t) (s : t) : t := mk q (demandReserve s).

Definition make (num_entries reserve demand_reserve : Z) : t :=
  mk (Queue.make num_entries reserve) demand_reserve.

Definition allocate (now blk_addr blk_size : Z) (pkt : Packet.t) (when_ready order : Z)
    (alloc_on_fill : bool) (s : t) : res (nat * t * list MSHR.Upstream) :=
  let* (e, q, up) := allocate_entry MSHR.getNumTargets
    (MSHR.allocate now blk_addr blk_size pkt when_ready order alloc_on_fill) (queue s) in
  Ok (e, with_queue q s, up).

Definition moveToFront (e : nat) (s : t) : res t :=
  let q := queue s in
  let* m := entry e q in
  if negb (MSHR.inService m) then
    let* rl := erase e (readyList q) in Ok (with_queue (set_readyList (e :: rl) q) s)
  else Ok s.

(** [std::find_if(readyIter, end, readyTime >= other)] followed by [splice]:
    the entries before and from the entry on are kept apart, the entry is taken
    out and put back before the one found. *)
Fixpoint split_at_entry (e : nat) (l : list nat) : res (list nat * list nat) :=
  match l with
  | [] => Err Undefined
  | x :: l' => if (x =? e)%nat then Ok ([], l)
               else let* (a, b) := split_at_entry e l' in Ok (x :: a, b)
  end.

Definition delay (now : Z) (e : nat) (delay_ticks : Z) (s : t) : res t :=
  let q := queue s in
  let* m := entry e q in
  let* m := MSHR.delay now delay_ticks m in
  let q := put e m q in
  let* (before, from) := split_at_entry e (readyList q) in
  let it := match find_first (fun x => ready_of q x <=? MSHR.readyTime m) from with
            | Some (i, _) => i
            | None => length from
            end in
  (* splicing an element before itself leaves the list as it is *)
  let l := if (it =? 0)%nat then from
           else insert_at (it - 1) e (drop 1 from) in
  Ok (with_queue (set_readyList (before ++ l) q) s).

Definition markInService (e : nat) (pending_modified_resp : bool) (s : t) : res (t * list MSHR.Upstream) :=
  let q := queue s in
  let* m := entry e q in
  let* (m, up) := MSHR.markInService pending_modified_resp m in
  let* rl := erase e (readyList q) in
  let q := set_readyList rl (put e m q) in
  Ok (with_queue (set_counts (_numInService q + 1) (allocated q) q) s, up).

Definition markPending (e : nat) (s : t) : res t :=
  let q := queue s in
  let* m := entry e q in
  assert! (MSHR.inService m) in
  let q := put e (MSHR.with_inService false m) q in
  let q := set_counts (_numInService q - 1) (allocated q) q in
  let* q := addToReadyList e q in
  Ok (with_queue q s).

Definition deallocate (e : nat) (s : t) : res t :=
  let* q := Queue.deallocate e (queue s) in Ok (with_queue q s).

Definition isFull (s : t) : bool := Queue.isFull (queue s).

(** Whether the queue stops being full. *)
Definition forceDeallocateTarget (now : Z) (e : nat) (s : t) : res (bool * t) :=
  let was_full := isFull s in
  let* m := entry e (queue s) in
  assert! (MSHR.hasTargets m) in
  let* m := MSHR.popTarget m in
  let s := with_queue (put e m (queue s)) s in
  let* s :=
    if negb (MSHR.hasTargets m) then
      let* (promoted, m) := MSHR.promoteDeferredTargets now m in
      let s := with_queue (put e m (queue s)) s in
      if promoted then Ok s else deallocate e s
    else Ok s in
  Ok (was_full && negb (isFull s), s).

Definition havePending (s : t) : bool := negb (MSHR.is_nil (readyList (queue s))).

Definition canPrefetch (s : t) : bool :=
  allocated (queue s) <? numEntries (queue s) - (numReserve (queue s) + 1 + demandReserve s).

End MSHRQueue.

(** ** Write queue *)
Module WriteQueueEntry.

Record Target := mkTarget { recvTime : Z; t_readyTime : Z; t_order : Z; pkt : Packet.t }.

Record t := mk {
  domainID : Z;
  readyTime : Z;
  _isUncacheable : bool;
  inService : bool;
  order : Z;
  blkAddr : Z;
  blkSize : Z;
  isSecure : bool;
  targets : list Target
}.

Definition make : t := mk 0 0 false false 0 0 0 false [].

Definition with_targets (l : list Target) (w : t) : t :=
  mk (domainID w) (readyTime w) (_isUncacheable w) (inService w) (order w) (blkAddr w) (blkSize w)
    (isSecure w) l.
Definition with_inService (b : bool) (w : t) : t :=
  mk (domainID w) (readyTime w) (_isUncacheable w) b (order w) (blkAddr w) (blkSize w)
    (isSecure w) (targets w).

Definition getNumTargets (w : t) : nat := length (targets w).
Definition hasTargets (w : t) : bool := negb (MSHR.is_nil (targets w)).
Definition getTarget (w : t) : res Target :=
  match targets w with [] => Err AssertFail | x :: _ => Ok x end.
Definition popTarget (w : t) : res t :=
  match targets w with [] => Err Undefined | _ :: l => Ok (with_targets l w) end.

Definition allocate (now blk_addr blk_size : Z) (target : Packet.t) (when_ready _order : Z) (w : t) :
    res (t * unit) :=
  let* sec := Packet.isSecure target in
  let unc := Request.isUncacheable (Packet.req target) in
  let* did := Packet.getDomainID target in
  panic_if! (negb unc && negb (MSHR.is_nil (targets w))) in
  panic_if! negb ((Packet.isWrite target && unc) || (Packet.isEviction target && negb unc) ||
                  Packet.cmd_is target MemCmd.WriteClean) in
  let ts := targets w ++ [mkTarget now when_ready _order target] in
  let* x := match ts with [] => Err Undefined | x :: _ => Ok x end in
  let* same := Packet.matchBlockAddr_pkt (pkt x) blk_size target in
  assert! same in
  Ok (mk did when_ready unc false _order blk_addr blk_size sec ts, tt).

Definition deallocate (w : t) : res t :=
  assert! (MSHR.is_nil (targets w)) in Ok (with_inService false w).

Fixpoint satisfy_targets (l : list Target) (p : Packet.t) : res (bool * Packet.t * list Target) :=
  match l with
  | [] => Ok (false, p, [])
  | x :: l =>
      let* (b, p, y) := Packet.trySatisfyFunctional (pkt x) p in
      let x := mkTarget (recvTime x) (t_readyTime x) (t_order x) y in
      if b then Ok (true, p, x :: l)
      else let* (b, p, l) := satisfy_targets l p in Ok (b, p, x :: l)
  end.

Definition trySatisfyFunctional (p : Packet.t) (w : t) : res (bool * Packet.t * t) :=
  if Packet.isPrint p then
    let* (_, p, _) := Packet.trySatisfyFunctional_data (blkAddr w) (isSecure w) (blkSize w) None p in
    Ok (false, p, w)
  else
    let* (b, p, l) := satisfy_targets (targets w) p in Ok (b, p, with_targets l w).

Definition matchBlockAddr (addr : Z) (is_secure : bool) (w : t) : res bool :=
  assert! (hasTargets w) in Ok ((blkAddr w =? addr) && eqb (isSecure w) is_secure).
Definition matchBlockAddr_id (addr : Z) (is_secure : bool) (id : Z) (w : t) : res bool :=
  assert! (hasTargets w) in
  Ok ((blkAddr w =? addr) && eqb (isSecure w) is_secure && (domainID w =? id)).
Definition matchBlockAddr_pkt (p : Packet.t) (w : t) : res bool :=
  assert! (hasTargets w) in Packet.matchBlockAddr_id (blkAddr w) (isSecure w) (domainID w) (blkSize w) p.
Definition conflictAddr (other : Z -> bool -> Z -> res bool) (w : t) : res bool :=
  assert! (hasTargets w) in other (blkAddr w) (isSecure w) (domainID w).

End WriteQueueEntry.

#[global] Instance wq_entry : QueueEntry WriteQueueEntry.t := {|
  qe_make := WriteQueueEntry.make;
  qe_readyTime := WriteQueueEntry.readyTime;
  qe_inService := WriteQueueEntry.inService;
  qe_isUncacheable := WriteQueueEntry._isUncacheable;
  qe_matchBlockAddr := WriteQueueEntry.matchBlockAddr;
  qe_matchBlockAddr_id := WriteQueueEntry.matchBlockAddr_id;
  qe_matchBlockAddr_pkt := WriteQueueEntry.matchBlockAddr_pkt;
  qe_conflictAddr := WriteQueueEntry.conflictAddr;
  qe_trySatisfyFunctional := WriteQueueEntry.trySatisfyFunctional;
  qe_deallocate := WriteQueueEntry.deallocate
|}.

Module WriteQueue.
Import Queue.

Definition t := Queue.t WriteQueueEntry.t.

Definition make (num_entries reserve : Z) : t := Queue.make num_entries reserve.

Definition allocate (now blk_addr blk_size : Z) (pkt : Packet.t) (when_ready order : Z) (q : t) :
    res (nat * t) :=
  let* (e, q, _) := allocate_entry WriteQueueEntry.getNumTargets
    (WriteQueueEntry.allocate now blk_addr blk_size pkt when_ready order) q in
  Ok (e, q).

Definition markInService (e : nat) (q : t) : res t :=
  let* w := entry e q in
  let* w := WriteQueueEntry.popTarget w in
  Queue.deallocate e (put e w q).

End WriteQueue.
