(* ===== verification/QueuesFacts.v ===== *)
(** * The queues keep their entries: free, waiting or in service

    A refinement view of [Queue<Entry>]: the free and allocated lists partition
    the entry array, and the ready list holds exactly the allocated entries
    that are not in service. Every queue operation of [MSHRQueue] and
    [WriteQueue] keeps it. *)

From stdpp Require Import relations sorting.
From S2P Require Import Prelude BaseUtil MemCmd Request Packet CacheBlk MSHR Queues.
Local Open Scope Z_scope.

Module QueueFacts.
Import Queue.

Section facts.
Context {E : Type} `{QueueEntry E}.
Implicit Types q : t E.

Definition waitingb (es : list E) (e : nat) : bool :=
  match es !! e with Some x => negb (qe_inService x) | None => false end.

Record wf q : Prop := {
  wf_size : Z.of_nat (length (entries q)) = numEntries q;
  wf_part : allocatedList q ++ freeList q ≡ₚ seq 0 (length (entries q));
  wf_ready : readyList q ≡ₚ List.filter (waitingb (entries q)) (allocatedList q);
  wf_free : Forall (fun e => waitingb (entries q) e = true) (freeList q);
  wf_alloc : allocated q = Z.of_nat (length (allocatedList q));
  wf_serv : _numInService q = allocated q - Z.of_nat (length (readyList q))
}.

Lemma entry_lookup e q x : entry e q = Ok x <-> entries q !! e = Some x.
Proof. unfold entry. destruct (entries q !! e); split; intros; simplify_eq; congruence. Qed.

Lemma erase_perm e l l' : erase e l = Ok l' -> l ≡ₚ e :: l'.
Proof.
  revert l'. induction l as [|x l IH]; intros l' He; simpl in He; [done|].
  destruct (x =? e)%nat eqn:Hx.
  - apply Nat.eqb_eq in Hx as ->. by simplify_res.
  - apply rbind_ok in He as (l2 & Hl & He). simplify_res. rewrite (IH _ Hl). constructor.
Qed.

Lemma erase_ok e l : e ∈ l -> exists l', erase e l = Ok l'.
Proof.
  induction l as [|x l IH]; intros He; [by apply elem_of_nil in He|]. simpl.
  destruct (x =? e)%nat eqn:Hx; [by eexists|].
  apply elem_of_cons in He as [->|He]; [by rewrite Nat.eqb_refl in Hx|].
  destruct (IH He) as [l' ->]. by eexists.
Qed.

Lemma insert_ready_perm q e l l' : insert_ready q e l = Ok l' -> l' ≡ₚ e :: l.
Proof.
  revert l'. induction l as [|x l IH]; intros l' He; simpl in He; [done|].
  destruct (_ <? _); [by simplify_res|].
  apply rbind_ok in He as (l2 & Hl & He). simplify_res. rewrite (IH _ Hl). constructor.
Qed.

Lemma addToReadyList_perm e q q' :
  addToReadyList e q = Ok q' -> exists rl, q' = set_readyList rl q /\ rl ≡ₚ e :: readyList q.
Proof.
  unfold addToReadyList. intros Ha.
  assert (Hsnoc : readyList q ++ [e] ≡ₚ e :: readyList q) by (by rewrite Permutation_app_comm).
  destruct (last (readyList q)); [|simplify_res; eauto].
  destruct (_ <=? _); [simplify_res; eauto|].
  apply rbind_ok in Ha as (l & Hl & Ha). simplify_res. eauto using insert_ready_perm.
Qed.

Lemma filter_perm (f : nat -> bool) l l' : l ≡ₚ l' -> List.filter f l ≡ₚ List.filter f l'.
Proof.
  induction 1; simpl; repeat case_match; eauto using Permutation; try constructor; done.
Qed.

Lemma waitingb_put_eq e (x y : E) es : es !! e = Some y -> waitingb (<[e := x]> es) e = negb (qe_inService x).
Proof.
  intros Hy. unfold waitingb. rewrite list_lookup_insert_eq; [done|by eapply lookup_lt_Some].
Qed.

Lemma waitingb_put_ne e e' (x : E) es : e <> e' -> waitingb (<[e := x]> es) e' = waitingb es e'.
Proof. intros. unfold waitingb. by rewrite list_lookup_insert_ne. Qed.

Lemma filter_put_ne e (x : E) es l :
  e ∉ l -> List.filter (waitingb (<[e := x]> es)) l = List.filter (waitingb es) l.
Proof.
  intros Hn. apply List.filter_ext_in. intros a Ha. apply waitingb_put_ne.
  intros ->. by apply Hn, list_elem_of_In.
Qed.

(** Where an entry of the allocated list sits. *)
Lemma alloc_split (e : nat) (l : list nat) : NoDup l -> e ∈ l -> exists l', l ≡ₚ e :: l' /\ e ∉ l'.
Proof.
  intros Hnd He. destruct (list_elem_of_split _ _ He) as (l1 & l2 & ->).
  assert (Hp : l1 ++ e :: l2 ≡ₚ e :: (l1 ++ l2)) by (by rewrite Permutation_middle).
  exists (l1 ++ l2). split; [done|]. rewrite Hp in Hnd. by apply NoDup_cons in Hnd as [? _].
Qed.

Lemma part_nodup q : wf q -> NoDup (allocatedList q ++ freeList q).
Proof. intros []. rewrite wf_part0. apply NoDup_seq. Qed.

Lemma part_lookup q e : wf q -> e ∈ allocatedList q ++ freeList q -> exists x, entries q !! e = Some x.
Proof.
  intros [] He. rewrite wf_part0 in He. apply elem_of_seq in He. apply lookup_lt_is_Some. lia.
Qed.

(** Writing an entry back without touching its [inService] bit. *)
Lemma put_wf e x y q :
  wf q -> entries q !! e = Some y -> qe_inService x = qe_inService y -> wf (put e x q).
Proof.
  intros [] Hy Hx.
  assert (Hw : forall a, waitingb (<[e := x]> (entries q)) a = waitingb (entries q) a).
  { intros a. destruct (decide (e = a)) as [<-|Hn]; [|by apply waitingb_put_ne].
    rewrite (waitingb_put_eq _ _ y) by done. unfold waitingb. by rewrite Hy, Hx. }
  constructor; simpl; rewrite ?length_insert; try done.
  - by erewrite List.filter_ext.
  - eapply Forall_impl; [done|]. intros a. by rewrite Hw.
Qed.

Lemma set_ready_wf rl q : wf q -> rl ≡ₚ readyList q -> wf (set_readyList rl q).
Proof.
  intros [] Hp. constructor; simpl; try done.
  - by rewrite Hp.
  - by rewrite wf_serv0, Hp.
Qed.

Lemma free_put e (x : E) es l :
  e ∉ l -> Forall (fun a => waitingb es a = true) l ->
  Forall (fun a => waitingb (<[e := x]> es) a = true) l.
Proof.
  rewrite !Forall_forall. intros Hn Hf a Ha. rewrite waitingb_put_ne; [by apply Hf|].
  by intros ->.
Qed.

Lemma in_service_allocated q e x :
  wf q -> entries q !! e = Some x -> qe_inService x = true -> e ∈ allocatedList q.
Proof.
  intros [] Hx Hs. assert (He : e ∈ allocatedList q ++ freeList q).
  { rewrite wf_part0. apply elem_of_seq. apply lookup_lt_Some in Hx. lia. }
  apply elem_of_app in He as [He|He]; [done|]. rewrite Forall_forall in wf_free0.
  specialize (wf_free0 e He). unfold waitingb in wf_free0. by rewrite Hx, Hs in wf_free0.
Qed.

Lemma ready_allocated q e : wf q -> e ∈ readyList q -> e ∈ allocatedList q.
Proof.
  intros [] Hin. rewrite wf_ready0 in Hin.
  apply list_elem_of_In, filter_In in Hin as [? _]. by apply list_elem_of_In.
Qed.

(** An entry leaves the ready list when it enters service ... *)
Lemma enter_service_wf e x y q rl :
  wf q -> entries q !! e = Some y -> qe_inService y = false -> qe_inService x = true ->
  readyList q ≡ₚ e :: rl ->
  wf (set_counts (_numInService q + 1) (allocated q) (set_readyList rl (put e x q))).
Proof.
  intros Hwf Hy Hsy Hsx Hp.
  assert (He : e ∈ allocatedList q) by (apply ready_allocated; [done|rewrite Hp; by left]).
  pose proof (part_nodup _ Hwf) as Hnd. destruct Hwf. apply NoDup_app in Hnd as (Hnda & Hdis & _).
  destruct (alloc_split _ _ Hnda He) as (l & Hperm & Hnot).
  assert (Hwe : waitingb (entries q) e = true) by (unfold waitingb; by rewrite Hy, Hsy).
  constructor; simpl; rewrite ?length_insert; try done.
  - rewrite (filter_perm _ _ _ Hperm). simpl.
    rewrite (waitingb_put_eq _ _ y), Hsx, filter_put_ne by done. simpl.
    apply (Permutation_cons_inv (a := e)). rewrite <- Hp, wf_ready0, (filter_perm _ _ _ Hperm). simpl.
    by rewrite Hwe.
  - apply free_put; auto.
  - apply Permutation_length in Hp. simpl in Hp. lia.
Qed.

(** ... and returns to it when it becomes pending again. *)
Lemma leave_service_wf e x y q rl :
  wf q -> entries q !! e = Some y -> qe_inService y = true -> qe_inService x = false ->
  e ∈ allocatedList q -> rl ≡ₚ e :: readyList q ->
  wf (set_counts (_numInService q - 1) (allocated q) (set_readyList rl (put e x q))).
Proof.
  intros Hwf Hy Hsy Hsx He Hp.
  pose proof (part_nodup _ Hwf) as Hnd. destruct Hwf. apply NoDup_app in Hnd as (Hnda & Hdis & _).
  destruct (alloc_split _ _ Hnda He) as (l & Hperm & Hnot).
  assert (Hwe : waitingb (entries q) e = false) by (unfold waitingb; by rewrite Hy, Hsy).
  constructor; simpl; rewrite ?length_insert; try done.
  - rewrite (filter_perm _ _ _ Hperm). simpl.
    rewrite (waitingb_put_eq _ _ y), Hsx, filter_put_ne by done. simpl.
    rewrite Hp, wf_ready0, (filter_perm _ _ _ Hperm). simpl. by rewrite Hwe.
  - apply free_put; auto.
  - apply Permutation_length in Hp. simpl in Hp. lia.
Qed.

(** The scan of [addToReadyList] always finds a place: it only starts when the
    last entry is later than the new one. *)
Lemma insert_ready_ok q e l z :
  z ∈ l -> ready_of q e < ready_of q z -> is_ok (insert_ready q e l) = true.
Proof.
  induction l as [|x l IH]; intros Hz Hlt; [by apply elem_of_nil in Hz|]. simpl.
  destruct (_ <? _) eqn:Hc; [done|]. apply Z.ltb_ge in Hc.
  apply elem_of_cons in Hz as [->|Hz]; [lia|]. specialize (IH Hz Hlt).
  by destruct (insert_ready q e l).
Qed.

Lemma addToReadyList_ok e q : is_ok (addToReadyList e q) = true.
Proof.
  unfold addToReadyList. destruct (last (readyList q)) as [z|] eqn:Hz; [|done].
  destruct (_ <=? _) eqn:Hc; [done|]. apply Z.leb_gt in Hc.
  assert (Hin : z ∈ readyList q) by (apply last_Some in Hz as [l ->]; set_solver).
  pose proof (insert_ready_ok q e _ z Hin Hc). by destruct (insert_ready q e _).
Qed.

(** On a sorted ready list the result is sorted again. *)
Definition by_ready q (a b : nat) : Prop := ready_of q a <= ready_of q b.
Definition ready_sorted q : Prop := StronglySorted (by_ready q) (readyList q).

Lemma insert_ready_total q e l z :
  StronglySorted (by_ready q) l -> z ∈ l -> ready_of q e < ready_of q z ->
  exists l', insert_ready q e l = Ok l' /\ StronglySorted (by_ready q) l'.
Proof.
  induction 1 as [|x l Hs IH Hx]; intros Hz Hlt; [by apply elem_of_nil in Hz|]. simpl.
  destruct (_ <? _) eqn:Hc.
  - apply Z.ltb_lt in Hc. eexists. split; [done|]. constructor; [by constructor|].
    constructor; [unfold by_ready; lia|]. eapply Forall_impl; [done|]. unfold by_ready. simpl. lia.
  - apply Z.ltb_ge in Hc. apply elem_of_cons in Hz as [->|Hz]; [lia|].
    destruct (IH Hz Hlt) as (l' & Hl & Hs'). rewrite Hl. cbn [rbind]. eexists. split; [done|].
    constructor; [done|]. rewrite (insert_ready_perm _ _ _ _ Hl). by constructor.
Qed.

Lemma addToReadyList_sorted e q :
  ready_sorted q -> exists q', addToReadyList e q = Ok q' /\ ready_sorted q'.
Proof.
  intros Hs. unfold addToReadyList, ready_sorted in *. destruct (last (readyList q)) as [z|] eqn:Hz.
  - apply last_Some in Hz as [l0 Hl]. destruct (_ <=? _) eqn:Hc.
    + apply Z.leb_le in Hc. eexists. split; [done|]. simpl. change (by_ready (set_readyList _ q)) with (by_ready q).
      apply StronglySorted_app. split; [|split; [done|by repeat constructor]].
      intros a b Ha ->%list_elem_of_singleton. rewrite Hl in *. unfold by_ready.
      apply elem_of_app in Ha as [Ha|Ha%list_elem_of_singleton]; [|by subst].
      pose proof (StronglySorted_app_1_elem_of _ _ _ a z Hs Ha) as Haz.
      unfold by_ready in Haz. set_solver by lia.
    + apply Z.leb_gt in Hc. destruct (insert_ready_total q e (readyList q) z) as (l' & -> & ?); eauto.
      rewrite Hl. set_solver.
  - apply last_None in Hz. rewrite Hz. eexists. split; [done|]. by repeat constructor.
Qed.

(** Allocation takes a free entry. *)
Lemma allocate_entry_wf {U} nt (alloc : E -> res (E * U)) q e q' u :
  (forall x x' u, alloc x = Ok (x', u) -> qe_inService x' = false) ->
  wf q -> allocate_entry nt alloc q = Ok (e, q', u) -> wf q' /\ allocated q' = allocated q + 1.
Proof.
  intros Hal Hwf Ha. pose proof (part_nodup _ Hwf) as Hnd. unfold allocate_entry in Ha.
  destruct (freeList q) as [|e0 fl] eqn:Hfl; [done|].
  apply rbind_ok in Ha as (x & Hx & Ha). destruct (nt x =? 0)%nat; [|done].
  apply rbind_ok in Ha as ([x' u'] & Hx' & Ha). apply rbind_ok in Ha as (q1 & Hq1 & Ha).
  apply addToReadyList_perm in Hq1 as (rl & -> & Hrl). simplify_res. simpl in Hrl.
  apply entry_lookup in Hx. specialize (Hal _ _ _ Hx').
  apply NoDup_app in Hnd as (_ & Hnd & Hndf). split; [|done]. apply NoDup_cons in Hndf as [Hnotf _].
  destruct Hwf. rewrite Hfl in wf_free0. apply Forall_cons in wf_free0 as [_ wf_free0]. rewrite Hfl in wf_part0.
  assert (Hnot : e ∉ allocatedList q) by (intros Hin; apply (Hnd e Hin); by left).
  constructor; simpl; rewrite ?length_insert, ?length_app; simpl; try lia; try done.
  - by rewrite <- app_assoc.
  - rewrite List.filter_app. simpl. rewrite (waitingb_put_eq _ _ x), Hal, filter_put_ne by done. simpl.
    rewrite Hrl, wf_ready0. by rewrite Permutation_app_comm.
  - by apply free_put.
  - apply Permutation_length in Hrl. simpl in Hrl. lia.
Qed.

(** Deallocation gives it back. *)
Lemma deallocate_wf e q q' :
  (forall x x', qe_deallocate x = Ok x' -> qe_inService x' = false) ->
  wf q -> deallocate e q = Ok q' -> wf q' /\ allocated q' = allocated q - 1.
Proof.
  intros Hde Hwf Ha. pose proof (part_nodup _ Hwf) as Hnd. unfold deallocate in Ha.
  apply rbind_ok in Ha as (x & Hx & Ha). apply rbind_ok in Ha as (al & Hal & Ha).
  apply rbind_ok in Ha as (rl & Hrl & Ha). apply rbind_ok in Ha as (x' & Hx' & Ha). simplify_res.
  apply entry_lookup in Hx. apply erase_perm in Hal. split; [|done].
  apply NoDup_app in Hnd as (Hnda & Hdis & _). rewrite Hal in Hnda. apply NoDup_cons in Hnda as [Hnot _].
  assert (Hnf : e ∉ freeList q) by (apply Hdis; rewrite Hal; by left).
  destruct Hwf. pose proof (Permutation_length Hal) as Hlen. simpl in Hlen.
  assert (Hrl' : rl ≡ₚ List.filter (waitingb (entries q)) al /\
    Z.of_nat (length (readyList q)) = Z.of_nat (length rl) + (if qe_inService x then 0 else 1)).
  { rewrite (filter_perm _ _ _ Hal) in wf_ready0. simpl in wf_ready0.
    assert (Hw : waitingb (entries q) e = negb (qe_inService x)) by (unfold waitingb; by rewrite Hx).
    rewrite Hw in wf_ready0. destruct (qe_inService x); simpl in wf_ready0; [simplify_res; split; [done|lia]|].
    apply erase_perm in Hrl. pose proof (Permutation_length Hrl) as Hl. simpl in Hl.
    split; [|lia]. apply (Permutation_cons_inv (a := e)). by rewrite <- Hrl, wf_ready0. }
  destruct Hrl' as [Hr1 Hr2].
  constructor; simpl; rewrite ?length_insert; try done.
  - rewrite <- wf_part0, Hal. simpl. by rewrite Permutation_middle.
  - by rewrite filter_put_ne.
  - constructor; [|by apply free_put]. by rewrite (waitingb_put_eq _ _ x), (Hde _ _ Hx').
  - lia.
  - destruct (qe_inService x); lia.
Qed.

Lemma queue_make_wf n r : 0 <= n + r -> qe_inService qe_make = false -> wf (make n r).
Proof.
  intros Hn Hs. constructor; simpl; rewrite ?length_replicate; try done.
  - lia.
  - apply Forall_forall. intros e He. apply elem_of_seq in He. unfold waitingb.
    rewrite lookup_replicate_2 by lia. by rewrite Hs.
Qed.

(** The counters, and the entries a queue that is not full has left. *)
Lemma wf_bounds q :
  wf q -> 0 <= _numInService q <= allocated q /\
    Z.of_nat (length (freeList q)) = numEntries q - allocated q.
Proof.
  intros []. apply Permutation_length in wf_part0. rewrite length_app, length_seq in wf_part0.
  apply Permutation_length in wf_ready0.
  pose proof (List.filter_length_le (waitingb (entries q)) (allocatedList q)). lia.
Qed.

End facts.
End QueueFacts.

Module MSHRQueueFacts.
Import Queue QueueFacts.

(** ** Uses of a queued MSHR that leave it where it is *)
Inductive edit : MSHR.t -> MSHR.t -> Prop :=
  | edit_target now p w o a m m' up :
      MSHR.allocateTarget now p w o a m = Ok (m', up) -> edit m m'
  | edit_snoop now p o m b p' m' up :
      MSHR.handleSnoop now p o m = Ok (b, p', m', up) -> edit m m'
  | edit_clear m m' up : MSHR.clearDownstreamPending m = Ok (m', up) -> edit m m'
  | edit_extract p m l m' : MSHR.extractServiceableTargets p m = Ok (l, m') -> edit m m'
  | edit_promote now m b m' : MSHR.promoteDeferredTargets now m = Ok (b, m') -> edit m m'
  | edit_readable m m' up : MSHR.promoteReadable m = Ok (m', up) -> edit m m'
  | edit_writable m m' up : MSHR.promoteWritable m = Ok (m', up) -> edit m m'
  | edit_mayNotFill b m : edit m (snd (MSHR.updateMayNotFill b m))
  | edit_pop m m' : MSHR.popTarget m = Ok m' -> edit m m'.

(** Unwinds an operation on the success path. *)
Ltac unwind :=
  repeat (progress (simplify_res; try done; try match goal with
  | H : context [match ?x with _ => _ end] |- _ =>
      match type of H with _ = Ok _ => destruct x eqn:? end
  | |- context [if ?b then _ else _] => destruct b
  end)).

Lemma save_snoop_service now p o wr pm m p' m' up :
  MSHR.save_snoop now p o wr pm m = Ok (p', m', up) -> MSHR.inService m' = MSHR.inService m.
Proof. unfold MSHR.save_snoop. intros H. unwind. Qed.

Lemma edit_service m m' : edit m m' -> MSHR.inService m' = MSHR.inService m.
Proof.
  destruct 1 as [? ? ? ? ? ? ? ? H|? ? ? ? ? ? ? ? H|? ? ? H|? ? ? ? H|? ? ? ? H|? ? ? H|? ? ? H|? ?|? ? H].
  - unfold MSHR.allocateTarget in H. unwind.
  - unfold MSHR.handleSnoop in H. unwind; try (apply save_snoop_service in E5);
      match goal with Hp : (if ?b then _ else _) = (_, _) |- _ => destruct b; by simplify_eq end.
  - unfold MSHR.clearDownstreamPending in H. unwind.
  - unfold MSHR.extractServiceableTargets in H. unwind.
  - unfold MSHR.promoteDeferredTargets in H. unwind.
  - unfold MSHR.promoteReadable, MSHR.promoteIf in H. unwind.
  - unfold MSHR.promoteWritable, MSHR.promoteIf in H. unwind.
  - unfold MSHR.updateMayNotFill. by destruct (MSHR.TL_updateMayNotFill _ _).
  - unfold MSHR.popTarget in H. unwind.
Qed.

(** ** The queue as a state machine *)
Inductive step : MSHRQueue.t -> MSHRQueue.t -> Prop :=
  | step_allocate now a n p w o al s e s' up :
      MSHRQueue.allocate now a n p w o al s = Ok (e, s', up) -> step s s'
  | step_deallocate e s s' : MSHRQueue.deallocate e s = Ok s' -> step s s'
  | step_service e b s s' up : MSHRQueue.markInService e b s = Ok (s', up) -> step s s'
  | step_pending e s s' : MSHRQueue.markPending e s = Ok s' -> step s s'
  | step_front e s s' : MSHRQueue.moveToFront e s = Ok s' -> step s s'
  | step_delay now e d s s' : MSHRQueue.delay now e d s = Ok s' -> step s s'
  | step_force now e s b s' : MSHRQueue.forceDeallocateTarget now e s = Ok (b, s') -> step s s'
  | step_edit e m m' s :
      entry e (MSHRQueue.queue s) = Ok m -> edit m m' ->
      step s (MSHRQueue.with_queue (put e m' (MSHRQueue.queue s)) s).

Lemma mshr_allocate_service now a n p w o al m m' up :
  MSHR.allocate now a n p w o al m = Ok (m', up) -> qe_inService m' = false.
Proof. unfold MSHR.allocate. intros H. unwind. Qed.

Lemma mshr_deallocate_service (m m' : MSHR.t) : qe_deallocate m = Ok m' -> qe_inService m' = false.
Proof. simpl. unfold MSHR.deallocate. intros H. unwind. Qed.

Lemma split_at_entry_app e l a b :
  MSHRQueue.split_at_entry e l = Ok (a, b) -> l = a ++ b /\ exists b', b = e :: b'.
Proof.
  revert a. induction l as [|x l IH]; intros a Hs; simpl in Hs; [done|].
  destruct (x =? e)%nat eqn:Hx.
  - apply Nat.eqb_eq in Hx as ->. simplify_res. eauto.
  - apply rbind_ok in Hs as ([a' b'] & Hs' & Hs). simplify_res.
    destruct (IH _ Hs') as (-> & Hb). by split.
Qed.

(** [find_if] of [delay] starts at the delayed entry, which satisfies the test
    itself, so the entry is spliced in front of itself. *)
Lemma delay_keeps_position now e d s s' :
  MSHRQueue.delay now e d s = Ok s' ->
  exists m m', entry e (MSHRQueue.queue s) = Ok m /\ MSHR.delay now d m = Ok m' /\
    s' = MSHRQueue.with_queue (put e m' (MSHRQueue.queue s)) s.
Proof.
  unfold MSHRQueue.delay. intros Hd. apply rbind_ok in Hd as (m & Hm & Hd).
  apply rbind_ok in Hd as (m' & Hm' & Hd). apply rbind_ok in Hd as ([bf fr] & Hs & Hd).
  exists m, m'. split; [done|]. split; [done|].
  apply split_at_entry_app in Hs as (Hl & b' & ->). cbn [find_first] in Hd.
  assert (Hr : ready_of (put e m' (MSHRQueue.queue s)) e = MSHR.readyTime m').
  { apply entry_lookup in Hm. unfold ready_of, put. simpl.
    rewrite list_lookup_insert_eq; [done|by eapply lookup_lt_Some]. }
  rewrite Hr, Z.leb_refl in Hd. simpl in Hd. simplify_res. rewrite <- Hl.
  by destruct s as [[]].
Qed.

Lemma mshr_deallocate_wf e s s' :
  wf (MSHRQueue.queue s) -> MSHRQueue.deallocate e s = Ok s' -> wf (MSHRQueue.queue s').
Proof.
  intros Hwf Hd. unfold MSHRQueue.deallocate in Hd. apply rbind_ok in Hd as (q & Hq & Hd). simplify_res.
  by apply (deallocate_wf e) in Hq as [? _]; [|apply mshr_deallocate_service|].
Qed.

Lemma edit_wf e m m' q : wf q -> entry e q = Ok m -> edit m m' -> wf (put e m' q).
Proof.
  intros Hwf Hm He. apply entry_lookup in Hm. eapply put_wf; [done..|]. simpl. by apply edit_service.
Qed.

Lemma force_wf now e s b s' :
  wf (MSHRQueue.queue s) -> MSHRQueue.forceDeallocateTarget now e s = Ok (b, s') -> wf (MSHRQueue.queue s').
Proof.
  intros Hwf Hf. unfold MSHRQueue.forceDeallocateTarget in Hf.
  apply rbind_ok in Hf as (m & Hm & Hf). destruct (MSHR.hasTargets m); [|done].
  apply rbind_ok in Hf as (m1 & Hm1 & Hf). cbv zeta in Hf. apply rbind_ok in Hf as (s1 & Hs1 & Hf).
  assert (Hwf1 : wf (put e m1 (MSHRQueue.queue s))) by (eapply edit_wf; eauto using edit_pop).
  simplify_res. destruct (negb (MSHR.hasTargets m1)); [|by simplify_res].
  apply rbind_ok in Hs1 as ([pr m2] & Hp & Hs1).
  assert (Hwf2 : wf (put e m2 (put e m1 (MSHRQueue.queue s)))).
  { eapply edit_wf; [done| |by eapply edit_promote]. apply entry_lookup in Hm.
    apply entry_lookup. simpl. apply list_lookup_insert_eq. by eapply lookup_lt_Some. }
  destruct pr; [by simplify_res|]. by eapply mshr_deallocate_wf in Hs1.
Qed.

Lemma step_wf s s' : wf (MSHRQueue.queue s) -> step s s' -> wf (MSHRQueue.queue s').
Proof.
  intros Hwf Hs. destruct Hs as [now a n p w o al s e s' up H|e s s' H|e b s s' up H|e s s' H|
    e s s' H|now e d s s' H|now e s b s' H|e m m' s Hm He].
  - unfold MSHRQueue.allocate in H. apply rbind_ok in H as ([[e' q] u] & Hq & H). simplify_res.
    apply allocate_entry_wf in Hq as [? _]; eauto using mshr_allocate_service.
  - by eapply mshr_deallocate_wf.
  - unfold MSHRQueue.markInService in H. apply rbind_ok in H as (m & Hm & H).
    apply rbind_ok in H as ([m' u] & Hm' & H). apply rbind_ok in H as (rl & Hrl & H). simplify_res.
    apply entry_lookup in Hm. apply erase_perm in Hrl.
    unfold MSHR.markInService in Hm'. destruct (MSHR.inService m) eqn:Hsv; [done|].
    apply (enter_service_wf e m' m (MSHRQueue.queue s) rl); try done. unwind.
  - unfold MSHRQueue.markPending in H. apply rbind_ok in H as (m & Hm & H).
    destruct (MSHR.inService m) eqn:Hsv; [|done]. apply rbind_ok in H as (q & Hq & H). simplify_res.
    apply entry_lookup in Hm. apply addToReadyList_perm in Hq as (rl & -> & Hrl).
    apply (leave_service_wf e _ m (MSHRQueue.queue s) rl); eauto using in_service_allocated.
  - unfold MSHRQueue.moveToFront in H. apply rbind_ok in H as (m & Hm & H).
    destruct (negb _); [|by simplify_res]. apply rbind_ok in H as (rl & Hrl & H). simplify_res.
    apply set_ready_wf; [done|]. by rewrite (erase_perm _ _ _ Hrl).
  - apply delay_keeps_position in H as (m & m' & Hm & Hm' & ->). apply entry_lookup in Hm.
    eapply put_wf; [done..|]. unfold MSHR.delay in Hm'. unwind.
  - by eapply force_wf.
  - by eapply edit_wf.
Qed.

Lemma reach_wf n r d s :
  0 <= n -> 0 <= r -> rtc step (MSHRQueue.make n r d) s -> wf (MSHRQueue.queue s).
Proof.
  intros Hn Hr Hs. assert (Hi : wf (MSHRQueue.queue (MSHRQueue.make n r d))) by (apply queue_make_wf; [lia|done]).
  induction Hs as [|x y z Hst _ IH]; [done|]. by eapply IH, step_wf.
Qed.

(** C28. Entry conservation of the MSHR queue. Whatever sequence of
    allocations, service, completions, delays, reorderings and target updates
    it has gone through: every entry is either free or allocated, exactly once;
    the ready list holds exactly the allocated entries that are not in service,
    once each; the in-service counter counts the others; and a queue that does
    not report itself full has more free entries than its reserve. *)
Theorem mshr_queue_conserves_entries (n r d : Z) (s : MSHRQueue.t) :
  0 <= n -> 0 <= r -> rtc step (MSHRQueue.make n r d) s ->
  let q := MSHRQueue.queue s in
  allocatedList q ++ freeList q ≡ₚ seq 0 (length (entries q)) /\
  NoDup (readyList q) /\
  (forall e, e ∈ readyList q <->
     e ∈ allocatedList q /\ exists m, entries q !! e = Some m /\ MSHR.inService m = false) /\
  numInService q = allocated q - Z.of_nat (length (readyList q)) /\
  (MSHRQueue.isFull s = false -> numReserve q < Z.of_nat (length (freeList q))).
Proof.
  intros Hn Hr Hs q. assert (Hwf : wf q) by (exact (reach_wf n r d s Hn Hr Hs)).
  pose proof (part_nodup _ Hwf) as Hnd. apply NoDup_app in Hnd as (Hnd & _ & _).
  pose proof (wf_bounds _ Hwf) as [_ Hfree]. destruct Hwf. repeat split_and!; try done.
  - rewrite wf_ready0. apply NoDup_ListNoDup, List.NoDup_filter. by apply NoDup_ListNoDup.
  - intros e. rewrite wf_ready0, list_elem_of_In, filter_In, <- list_elem_of_In.
    unfold waitingb. destruct (entries q !! e) as [m|]; [|naive_solver].
    simpl. rewrite negb_true_iff. naive_solver.
  - unfold MSHRQueue.isFull, Queue.isFull. fold q. intros Hf%Z.leb_gt. lia.
Qed.

(** C30. The ready list as a priority queue. On a ready list sorted by ready
    time, inserting an entry cannot fail and keeps the order, and [getNext]
    returns an entry that is due and no later than any other, or nothing when
    none is due. *)
Theorem getNext_earliest (q : Queue.t MSHR.t) (now : Z) :
  ready_sorted q ->
  (forall e, exists q', addToReadyList e q = Ok q' /\ ready_sorted q') /\
  match getNext now q with
  | Some e => e ∈ readyList q /\ ready_of q e <= now /\
              forall e', e' ∈ readyList q -> ready_of q e <= ready_of q e'
  | None => forall e, e ∈ readyList q -> now < ready_of q e
  end.
Proof.
  intros Hs. split; [intros e; by apply addToReadyList_sorted|].
  unfold getNext, ready_sorted in *. destruct (readyList q) as [|e l]; [intros ? []%elem_of_nil|].
  apply StronglySorted_cons in Hs as [Hl _]. unfold by_ready in Hl. rewrite Forall_forall in Hl.
  destruct (now <? ready_of q e) eqn:Hc.
  - apply Z.ltb_lt in Hc. intros e' [->|He']%elem_of_cons; [done|]. specialize (Hl _ He'). lia.
  - apply Z.ltb_ge in Hc. split; [by left|]. split; [done|].
    intros e' [->|He']%elem_of_cons; [done|by apply Hl].
Qed.

(** ** A queue of two misses *)
Definition example_pkt (addr : Z) : Packet.t :=
  Packet.make_blk 0 (Request.setDomainID 3 (Request.make 0 addr 64 0 0)) MemCmd.ReadReq 64.
Definition after (m : res (nat * MSHRQueue.t * list MSHR.Upstream)) : MSHRQueue.t :=
  match m with Ok (_, s, _) => s | Err _ => MSHRQueue.make 0 0 0 end.
Definition example_s1 : MSHRQueue.t := Eval vm_compute in
  after (MSHRQueue.allocate 5 0x1000 64 (example_pkt 0x1000) 5 1 true (MSHRQueue.make 4 1 0)).
Definition example_s : MSHRQueue.t := Eval vm_compute in
  after (MSHRQueue.allocate 6 0x2000 64 (example_pkt 0x2000) 6 2 true example_s1).

Lemma example_first :
  MSHRQueue.allocate 5 0x1000 64 (example_pkt 0x1000) 5 1 true (MSHRQueue.make 4 1 0) =
  Ok (0%nat, example_s1, []).
Proof. vm_cast_no_check (eq_refl (Ok (0%nat, example_s1, @nil MSHR.Upstream))). Qed.

Lemma example_second :
  MSHRQueue.allocate 6 0x2000 64 (example_pkt 0x2000) 6 2 true example_s1 = Ok (1%nat, example_s, []).
Proof. vm_cast_no_check (eq_refl (Ok (1%nat, example_s, @nil MSHR.Upstream))). Qed.

Lemma example_queue_reachable : rtc step (MSHRQueue.make 4 1 0) example_s.
Proof.
  apply (rtc_l _ _ example_s1); [exact (step_allocate _ _ _ _ _ _ _ _ _ _ _ example_first)|].
  apply rtc_once. exact (step_allocate _ _ _ _ _ _ _ _ _ _ _ example_second).
Qed.

Lemma mshr_queue_conserves_entries_witness :
  let q := MSHRQueue.queue example_s in
  allocatedList q = [0; 1]%nat /\ allocatedList q ++ freeList q ≡ₚ seq 0 (length (entries q)).
Proof.
  split; [by vm_compute|].
  exact (proj1 (mshr_queue_conserves_entries 4 1 0 example_s ltac:(lia) ltac:(lia) example_queue_reachable)).
Defined.

Lemma getNext_earliest_witness :
  let q := MSHRQueue.queue example_s in
  getNext 5 q = Some 0%nat /\ ready_of q 0 <= 5 /\ forall e', e' ∈ readyList q -> ready_of q 0 <= ready_of q e'.
Proof.
  intros q. assert (Hs : ready_sorted q).
  { unfold ready_sorted, by_ready, q. vm_compute. repeat constructor; by vm_compute. }
  assert (Hg : getNext 5 q = Some 0%nat) by (by vm_compute).
  destruct (getNext_earliest q 5 Hs) as [_ Hn]. rewrite Hg in Hn. destruct Hn as (_ & ? & ?). done.
Defined.

(** A delayed entry blocks the entries behind it. [MSHRQueue::delay] looks
    for the new position from the delayed entry itself, which always satisfies
    the test, so the entry is never moved: a reachable queue has an entry that
    is due, and after another one was delayed [getNext] finds nothing. *)
Theorem delay_blocks_due_entry :
  exists s s', rtc step (MSHRQueue.make 4 1 0) s /\ MSHRQueue.delay 10 0 100 s = Ok s' /\
    (1%nat ∈ readyList (MSHRQueue.queue s')) /\ ready_of (MSHRQueue.queue s') 1 <= 20 /\
    getNext 20 (MSHRQueue.queue s) = Some 0%nat /\ getNext 20 (MSHRQueue.queue s') = None.
Proof.
  exists example_s.
  destruct (MSHRQueue.delay 10 0 100 example_s) as [s'|] eqn:Hd; [|by vm_compute in Hd].
  exists s'. split; [apply example_queue_reachable|]. split; [done|]. vm_compute in Hd. simplify_res.
  split; [vm_compute; by right; left|]. by vm_compute.
Qed.

End MSHRQueueFacts.

Module WriteQueueFacts.
Import Queue QueueFacts.

Inductive step : WriteQueue.t -> WriteQueue.t -> Prop :=
  | step_allocate now a n p w o q e q' :
      WriteQueue.allocate now a n p w o q = Ok (e, q') -> step q q'
  | step_service e q q' : WriteQueue.markInService e q = Ok q' -> step q q'.

Lemma write_step_wf q q' : wf q -> step q q' -> wf q'.
Proof.
  intros Hwf Hs. destruct Hs as [now a n p w o q e q' H|e q q' H].
  - unfold WriteQueue.allocate in H. apply rbind_ok in H as ([[e' q1] u] & Hq & H). simplify_res.
    apply allocate_entry_wf in Hq as [? _]; [done| |done].
    intros x x' u' Hx. unfold WriteQueueEntry.allocate in Hx. MSHRQueueFacts.unwind.
  - unfold WriteQueue.markInService in H. apply rbind_ok in H as (w & Hw & H).
    apply rbind_ok in H as (w' & Hw' & H). apply deallocate_wf in H as [? _]; [done|..].
    + intros x x' Hx. simpl in Hx. unfold WriteQueueEntry.deallocate in Hx. MSHRQueueFacts.unwind.
    + apply entry_lookup in Hw. eapply put_wf; [done..|].
      unfold WriteQueueEntry.popTarget in Hw'. MSHRQueueFacts.unwind.
Qed.

End WriteQueueFacts.
