(* ===== verification/CacheState.v ===== *)
(** * Cache state and interfaces

    What [BaseCache] (src/gem5/src/mem/cache/base.hh, base.cc) is built from:
    the interfaces of its tag store and prefetcher, the write allocator, the
    configuration, the state with its two queues and its CPU-side port, and
    the state-and-error monad its member functions run in. *)

From stdpp Require Import gmap.
From S2P Require Import Prelude BaseUtil MemCmd Request Packet CacheBlk.
From S2P Require Import ReplPolicy Indexing Tags Prefetch MSHR Queues.
Local Open Scope Z_scope.

(** ** Interfaces *)

(** What the cache asks of its tag store ([BaseTags]'s virtual functions). *)
Class TagStore (T : Type) := {
  ts_getBlk : nat -> T -> res CacheBlk.t;
  ts_updBlk : (CacheBlk.t -> res CacheBlk.t) -> nat -> T -> res T;
  ts_findBlock : Z -> bool -> Z -> T -> res (option nat);
  ts_accessBlock : Z -> Z -> bool -> Z -> bool -> T -> res (option nat * T * Z);
  ts_findVictim : Z -> Z -> bool -> Z -> T -> nat -> res (option nat * list nat * T * nat);
  ts_insertBlock : Z -> Z -> Packet.t -> nat -> T -> nat -> res (T * nat);
  ts_invalidate : Z -> nat -> T -> res T;
  ts_regenerateBlkAddr : nat -> T -> res Z;
  ts_extractTag : Z -> T -> Z;
  ts_extractIndex : Z -> T -> Z;
  ts_extractBlkOffset : Z -> T -> Z
}.

(** A store of a given class, over its indexing and replacement policies. *)
Record SetAssocTags (I R : Type) := mkSetAssoc { sa_tags : BaseTags.t I R }.
Arguments mkSetAssoc {I R}.
Arguments sa_tags {I R}.
Record RandTags (I R : Type) := mkRand { nr_tags : BaseTags.t I R }.
Arguments mkRand {I R}.
Arguments nr_tags {I R}.

#[global] Instance base_set_assoc_store {I R} `{IndexingPolicy I} `{ReplacementPolicy R} :
    TagStore (SetAssocTags I R) := {|
  ts_getBlk e s := BaseTags.getBlk e (sa_tags s);
  ts_updBlk f e s := rmap mkSetAssoc (BaseTags.updBlk f e (sa_tags s));
  ts_findBlock a sec d s := BaseTags.findBlock_dom a sec d (sa_tags s);
  ts_accessBlock now a sec d nf s :=
    let* (h, s, l) := BaseSetAssoc.accessBlock_dom now a sec d nf (sa_tags s) in Ok (h, mkSetAssoc s, l);
  ts_findVictim now a sec n s g :=
    let* (v, ev, s, g) := BaseSetAssoc.findVictim now a sec n (sa_tags s) g in
    Ok (Some v, ev, mkSetAssoc s, g);
  ts_insertBlock now mx p e s g :=
    let* (s, g) := BaseSetAssoc.insertBlock now mx p e (sa_tags s) g in Ok (mkSetAssoc s, g);
  ts_invalidate now e s := rmap mkSetAssoc (BaseSetAssoc.invalidate now e (sa_tags s));
  ts_regenerateBlkAddr e s := BaseSetAssoc.regenerateBlkAddr e (sa_tags s);
  ts_extractTag a s := BaseTags.extractTag a (sa_tags s);
  ts_extractIndex a s := BaseTags.extractIndex a (sa_tags s);
  ts_extractBlkOffset a s := BaseTags.extractBlkOffset a (sa_tags s)
|}.

#[global] Instance new_rand_store {I R} `{IndexingPolicy I} `{ReplacementPolicy R} `{RandomSource} :
    TagStore (RandTags I R) := {|
  ts_getBlk e s := BaseTags.getBlk e (nr_tags s);
  ts_updBlk f e s := rmap mkRand (BaseTags.updBlk f e (nr_tags s));
  ts_findBlock a sec d s := NewRandTag.findBlock_dom a sec d (nr_tags s);
  ts_accessBlock now a sec d nf s :=
    let* (h, s, l) := NewRandTag.accessBlock_dom now a sec d nf (nr_tags s) in Ok (h, mkRand s, l);
  ts_findVictim now a sec n s g :=
    let* (v, ev, s, g) := NewRandTag.findVictim now a sec n (nr_tags s) g in
    Ok (Some v, ev, mkRand s, g);
  ts_insertBlock now mx p e s g :=
    let* (s, g) := NewRandTag.insertBlock now mx p e (nr_tags s) g in Ok (mkRand s, g);
  ts_invalidate now e s := rmap mkRand (NewRandTag.invalidate now e (nr_tags s));
  ts_regenerateBlkAddr e s := NewRandTag.regenerateBlkAddr e (nr_tags s);
  ts_extractTag a s := BaseTags.extractTag a (nr_tags s);
  ts_extractIndex a s := BaseTags.extractIndex a (nr_tags s);
  ts_extractBlkOffset a s := BaseTags.extractBlkOffset a (nr_tags s)
|}.

(** What the cache asks of its prefetcher ([Prefetcher::Base]). *)
Class Prefetcher (P : Type) := {
  pf_directNotify : Z -> PrefetchBase.CacheView -> Packet.t -> P -> nat -> res (P * nat);
  pf_notifySHB : Z -> Packet.t -> P -> res P;
  pf_getPacket : Z -> PrefetchBase.CacheView -> P -> nat -> res (option Packet.t * P * nat);
  pf_nextPrefetchReadyTime : Z -> P -> nat -> res (Z * P * nat)
}.

(** The random-fill prefetcher with the TLB it translates through; it does not
    override [notifySHB], whose default does nothing. *)
Record RandomFillPf := mkRandomFillPf {
  rf_params : RandomFill.RParams;
  rf_translate : Request.t -> Queued.TlbOutcome;
  rf_state : Queued.t
}.
Definition rf_set (q : Queued.t) (p : RandomFillPf) : RandomFillPf :=
  mkRandomFillPf (rf_params p) (rf_translate p) q.

#[global] Instance random_fill_prefetcher `{RandomSource} : Prefetcher RandomFillPf := {|
  pf_directNotify now view pkt p g :=
    let* (q, g) := RandomFill.directNotify (rf_params p) view now pkt (rf_state p) g in
    Ok (rf_set q p, g);
  pf_notifySHB _ _ p := Ok p;
  pf_getPacket now view p g :=
    let Q := RandomFill.queued (rf_params p) in
    let* (pkt, q) := Queued.getPacket Q view (rf_translate p) now (rf_state p) in
    Ok (pkt, rf_set q p, g);
  pf_nextPrefetchReadyTime now p g :=
    let* t := Queued.nextPrefetchReadyTime (RandomFill.queued (rf_params p)) now (rf_state p) in
    Ok (t, p, g)
|}.

(** The safe history buffer; [notify], which [directNotify] ends in, panics. *)
Record SHBPf := mkSHBPf { shb_params : SHB.SParams; shb_state : SHB.t }.

#[global] Instance shb_prefetcher `{RandomSource} : Prefetcher SHBPf := {|
  pf_directNotify now view pkt p g :=
    let* (_, i) := PrefetchBase.directNotify (SHB.base (shb_params p)) view pkt 0 in
    match i with None => Ok (p, g) | Some _ => Err Panic end;
  pf_notifySHB now pkt p :=
    let* s := SHB.notifySHB (shb_params p) pkt (shb_state p) in Ok (mkSHBPf (shb_params p) s);
  pf_getPacket now view p g :=
    let* (pkt, s, g) := SHB.getPacket (shb_params p) now (shb_state p) g in
    Ok (pkt, mkSHBPf (shb_params p) s, g);
  pf_nextPrefetchReadyTime now p g :=
    let* (t, s, g) := SHB.nextPrefetchReadyTime (shb_params p) now (shb_state p) g in
    Ok (t, mkSHBPf (shb_params p) s, g)
|}.

(** ** Write allocator *)
Module WriteAllocator.

Inductive WriteMode := ALLOCATE | COALESCE | NO_ALLOCATE.
#[global] Instance WriteMode_eq_dec : EqDecision WriteMode.
Proof. solve_decision. Defined.

Record t := mk {
  mode : WriteMode;
  nextAddr : Z;
  byteCount : Z;
  coalesceLimit : Z;
  noAllocateLimit : Z;
  delayThreshold : Z;
  delayCtr : gmap Z Z
}.

Definition make (coalesce_limit no_allocate_limit delay_threshold block_size : Z) : t :=
  mk ALLOCATE 0 0 (u32 (coalesce_limit * block_size)) (u32 (no_allocate_limit * block_size))
    delay_threshold ∅.

Definition with_mode (m : WriteMode) (w : t) : t :=
  mk m (nextAddr w) (byteCount w) (coalesceLimit w) (noAllocateLimit w) (delayThreshold w) (delayCtr w).
Definition with_counts (next bytes : Z) (w : t) : t :=
  mk (mode w) next bytes (coalesceLimit w) (noAllocateLimit w) (delayThreshold w) (delayCtr w).
Definition with_delayCtr (d : gmap Z Z) (w : t) : t :=
  mk (mode w) (nextAddr w) (byteCount w) (coalesceLimit w) (noAllocateLimit w) (delayThreshold w) d.

Definition coalesce (w : t) : bool := negb (bool_decide (mode w = ALLOCATE)).
Definition allocate (w : t) : bool := negb (bool_decide (mode w = NO_ALLOCATE)).
Definition reset (w : t) : t := with_counts 0 0 (with_mode ALLOCATE w).

(** [delayCtr[blk_addr]] inserts a zero for an address it does not hold. *)
Definition delay (blk_addr : Z) (w : t) : bool * t :=
  let n := default 0 (delayCtr w !! blk_addr) in
  let d := <[blk_addr := n]> (delayCtr w) in
  if 0 <? n then (true, with_delayCtr (<[blk_addr := n - 1]> d) w)
  else (false, with_delayCtr d w).

Definition resetDelay (blk_addr : Z) (w : t) : t := with_delayCtr (delete blk_addr (delayCtr w)) w.

Definition updateMode (write_addr write_size blk_addr : Z) (w : t) : t :=
  let w :=
    if nextAddr w =? write_addr then
      let w := with_delayCtr (<[blk_addr := delayThreshold w]> (delayCtr w)) w in
      if bool_decide (mode w = NO_ALLOCATE) then w
      else
        let w := with_counts (nextAddr w) (u32 (byteCount w + write_size)) w in
        if bool_decide (mode w = ALLOCATE) && (coalesceLimit w <? byteCount w) then with_mode COALESCE w
        else if bool_decide (mode w = COALESCE) && (noAllocateLimit w <? byteCount w)
        then with_mode NO_ALLOCATE w
        else w
    else resetDelay blk_addr (with_mode ALLOCATE (with_counts (nextAddr w) write_size w)) in
  with_counts (u64 (write_addr + write_size)) (byteCount w) w.

End WriteAllocator.

(** ** BaseCache: configuration and state *)
Module CacheState.

Inductive Clusivity := mostly_incl | mostly_excl.
#[global] Instance Clusivity_eq_dec : EqDecision Clusivity.
Proof. solve_decision. Defined.

Record Config := mkConfig {
  cacheId : nat;
  cacheLevel : Z;
  nofillEn : bool;
  pfAckEn : bool;
  shbInsertSt : bool;
  pfInsertStLd : bool;
  pfInsertMiss : bool;
  writebackClean : bool;
  blkSize : Z;
  lookupLatency : Z;
  dataLatency : Z;
  forwardLatency : Z;
  fillLatency : Z;
  responseLatency : Z;
  sequentialAccess : bool;
  numTarget : Z;
  forwardSnoops : bool;
  clusivity : Clusivity;
  isReadOnly : bool;
  maxRequestors : Z;
  clockPeriod : Z;
  inRange : Z -> bool
}.

(** A block pointer: a block of the tag store, or the temporary block. *)
Inductive Blk := InTags (e : nat) | Temp.
#[global] Instance Blk_eq_dec : EqDecision Blk.
Proof. solve_decision. Defined.

(** What a member function does to the rest of the system. *)
Inductive Action :=
  | SchedTimingResp (p : Packet.t) (when : Z)
  | SchedTimingSnoopResp (p : Packet.t) (when : Z)
  | SchedSendEvent (when : Z)
  | SchedRetry (when : Z)
  | DeschedRetry
  | SendRetryReq
  | SendTimingReq (p : Packet.t)
  | SendTimingSnoopReq (p : Packet.t)
  | SendPfAck (p : Packet.t)
  | SendAtomic (p : Packet.t)
  | SendAtomicSnoop (p : Packet.t)
  | SendFunctional (p : Packet.t)
  | SendFunctionalSnoop (p : Packet.t)
  | UpstreamMshr (u : MSHR.Upstream)
  | ExitSimLoop.

(** The system around the cache for the duration of one event: the time, and
    what the two ports answer. [sendTimingReq] and [sendTimingSnoopReq] hand
    the packet on synchronously, so they return it as the others left it.
    [conflictingSnoop] is when a queued snoop response for the same block leaves. *)
Record Env := mkEnv {
  now : Z;
  sendTimingReq : Packet.t -> bool * Packet.t;
  sendTimingSnoopReq : Packet.t -> Packet.t;
  conflictingSnoop : Packet.t -> option Z
}.

Record t (T P : Type) := mk {
  tags : T;
  tempBlock : TempCacheBlk.t;
  mshrQueue : MSHRQueue.t;
  writeBuffer : WriteQueue.t;
  prefetcher : option P;
  writeAllocator : option WriteAllocator.t;
  blocked : Z;
  order : Z;
  noTargetMSHR : option nat;
  missCount : Z;
  port_blocked : bool;
  mustSendRetry : bool;
  retryScheduled : bool;
  outstandingSnoop : list Request.t;
  rng : nat;
  out : list Action
}.
Arguments mk {T P}.
Arguments tags {T P}.
Arguments tempBlock {T P}.
Arguments mshrQueue {T P}.
Arguments writeBuffer {T P}.
Arguments prefetcher {T P}.
Arguments writeAllocator {T P}.
Arguments blocked {T P}.
Arguments order {T P}.
Arguments noTargetMSHR {T P}.
Arguments missCount {T P}.
Arguments port_blocked {T P}.
Arguments mustSendRetry {T P}.
Arguments retryScheduled {T P}.
Arguments outstandingSnoop {T P}.
Arguments rng {T P}.
Arguments out {T P}.

Section setters.
Context {T P : Type}.
Definition with_tags (v : T) (s : t T P) : t T P :=
  mk v (tempBlock s) (mshrQueue s) (writeBuffer s) (prefetcher s) (writeAllocator s) (blocked s)
    (order s) (noTargetMSHR s) (missCount s) (port_blocked s) (mustSendRetry s) (retryScheduled s)
    (outstandingSnoop s) (rng s) (out s).
Definition with_tempBlock (v : TempCacheBlk.t) (s : t T P) : t T P :=
  mk (tags s) v (mshrQueue s) (writeBuffer s) (prefetcher s) (writeAllocator s) (blocked s)
    (order s) (noTargetMSHR s) (missCount s) (port_blocked s) (mustSendRetry s) (retryScheduled s)
    (outstandingSnoop s) (rng s) (out s).
Definition with_mshrQueue (v : MSHRQueue.t) (s : t T P) : t T P :=
  mk (tags s) (tempBlock s) v (writeBuffer s) (prefetcher s) (writeAllocator s) (blocked s)
    (order s) (noTargetMSHR s) (missCount s) (port_blocked s) (mustSendRetry s) (retryScheduled s)
    (outstandingSnoop s) (rng s) (out s).
Definition with_writeBuffer (v : WriteQueue.t) (s : t T P) : t T P :=
  mk (tags s) (tempBlock s) (mshrQueue s) v (prefetcher s) (writeAllocator s) (blocked s) (order s)
    (noTargetMSHR s) (missCount s) (port_blocked s) (mustSendRetry s) (retryScheduled s)
    (outstandingSnoop s) (rng s) (out s).
Definition with_prefetcher (v : option P) (s : t T P) : t T P :=
  mk (tags s) (tempBlock s) (mshrQueue s) (writeBuffer s) v (writeAllocator s) (blocked s) (order s)
    (noTargetMSHR s) (missCount s) (port_blocked s) (mustSendRetry s) (retryScheduled s)
    (outstandingSnoop s) (rng s) (out s).
Definition with_writeAllocator (v : option WriteAllocator.t) (s : t T P) : t T P :=
  mk (tags s) (tempBlock s) (mshrQueue s) (writeBuffer s) (prefetcher s) v (blocked s) (order s)
    (noTargetMSHR s) (missCount s) (port_blocked s) (mustSendRetry s) (retryScheduled s)
    (outstandingSnoop s) (rng s) (out s).
Definition with_blocked (v : Z) (s : t T P) : t T P :=
  mk (tags s) (tempBlock s) (mshrQueue s) (writeBuffer s) (prefetcher s) (writeAllocator s) v
    (order s) (noTargetMSHR s) (missCount s) (port_blocked s) (mustSendRetry s) (retryScheduled s)
    (outstandingSnoop s) (rng s) (out s).
Definition with_order (v : Z) (s : t T P) : t T P :=
  mk (tags s) (tempBlock s) (mshrQueue s) (writeBuffer s) (prefetcher s) (writeAllocator s)
    (blocked s) v (noTargetMSHR s) (missCount s) (port_blocked s) (mustSendRetry s)
    (retryScheduled s) (outstandingSnoop s) (rng s) (out s).
Definition with_noTargetMSHR (v : option nat) (s : t T P) : t T P :=
  mk (tags s) (tempBlock s) (mshrQueue s) (writeBuffer s) (prefetcher s) (writeAllocator s)
    (blocked s) (order s) v (missCount s) (port_blocked s) (mustSendRetry s) (retryScheduled s)
    (outstandingSnoop s) (rng s) (out s).
Definition with_missCount (v : Z) (s : t T P) : t T P :=
  mk (tags s) (tempBlock s) (mshrQueue s) (writeBuffer s) (prefetcher s) (writeAllocator s)
    (blocked s) (order s) (noTargetMSHR s) v (port_blocked s) (mustSendRetry s) (retryScheduled s)
    (outstandingSnoop s) (rng s) (out s).
Definition with_port_blocked (v : bool) (s : t T P) : t T P :=
  mk (tags s) (tempBlock s) (mshrQueue s) (writeBuffer s) (prefetcher s) (writeAllocator s)
    (blocked s) (order s) (noTargetMSHR s) (missCount s) v (mustSendRetry s) (retryScheduled s)
    (outstandingSnoop s) (rng s) (out s).
Definition with_mustSendRetry (v : bool) (s : t T P) : t T P :=
  mk (tags s) (tempBlock s) (mshrQueue s) (writeBuffer s) (prefetcher s) (writeAllocator s)
    (blocked s) (order s) (noTargetMSHR s) (missCount s) (port_blocked s) v (retryScheduled s)
    (outstandingSnoop s) (rng s) (out s).
Definition with_retryScheduled (v : bool) (s : t T P) : t T P :=
  mk (tags s) (tempBlock s) (mshrQueue s) (writeBuffer s) (prefetcher s) (writeAllocator s)
    (blocked s) (order s) (noTargetMSHR s) (missCount s) (port_blocked s) (mustSendRetry s) v
    (outstandingSnoop s) (rng s) (out s).
Definition with_outstandingSnoop (v : list Request.t) (s : t T P) : t T P :=
  mk (tags s) (tempBlock s) (mshrQueue s) (writeBuffer s) (prefetcher s) (writeAllocator s)
    (blocked s) (order s) (noTargetMSHR s) (missCount s) (port_blocked s) (mustSendRetry s)
    (retryScheduled s) v (rng s) (out s).
Definition with_rng (v : nat) (s : t T P) : t T P :=
  mk (tags s) (tempBlock s) (mshrQueue s) (writeBuffer s) (prefetcher s) (writeAllocator s)
    (blocked s) (order s) (noTargetMSHR s) (missCount s) (port_blocked s) (mustSendRetry s)
    (retryScheduled s) (outstandingSnoop s) v (out s).
Definition with_out (v : list Action) (s : t T P) : t T P :=
  mk (tags s) (tempBlock s) (mshrQueue s) (writeBuffer s) (prefetcher s) (writeAllocator s)
    (blocked s) (order s) (noTargetMSHR s) (missCount s) (port_blocked s) (mustSendRetry s)
    (retryScheduled s) (outstandingSnoop s) (rng s) v.
End setters.

(** The constructor. The MSHR queue has no reserve, the write buffer has one
    entry in reserve for every MSHR; [bytes] is the initial contents of the
    temporary block's storage. *)
Definition make {T P : Type} (tags : T) (prefetcher : option P) (write_allocator : option WriteAllocator.t)
    (mshrs demand_mshr_reserve write_buffers max_miss_count : Z) (bytes : list Z) (rng : nat) : t T P :=
  mk tags (TempCacheBlk.mk (CacheBlk.empty 0 0 bytes) 0)
    (MSHRQueue.make mshrs 0 demand_mshr_reserve) (WriteQueue.make write_buffers mshrs)
    prefetcher write_allocator 0 0 None max_miss_count false false false [] rng [].

(** ** The monad of member functions *)
Definition M (T P A : Type) : Type := t T P -> res (A * t T P).

Section monad.
Context {T P : Type}.

Definition ret {A} (a : A) : M T P A := fun s => Ok (a, s).
Definition bind {A B} (m : M T P A) (k : A -> M T P B) : M T P B :=
  fun s => let* (a, s) := m s in k a s.
Definition lift {A} (r : res A) : M T P A := fun s => let* a := r in Ok (a, s).
Definition fail {A} (f : fault) : M T P A := fun _ => Err f.
Definition gets {A} (f : t T P -> A) : M T P A := fun s => Ok (f s, s).
Definition modify (f : t T P -> t T P) : M T P unit := fun s => Ok (tt, f s).
Definition emit (a : Action) : M T P unit := modify (fun s => with_out (out s ++ [a]) s).

(** [for (x : l) body] *)
Fixpoint forM {A} (l : list A) (body : A -> M T P unit) : M T P unit :=
  match l with
  | [] => ret tt
  | x :: l => bind (body x) (fun _ => forM l body)
  end.

Definition upstream (l : list MSHR.Upstream) : M T P unit := forM l (fun u => emit (UpstreamMshr u)).

End monad.

Notation "'let!' x ':=' m 'in' k" := (bind m (fun x => k))
  (at level 10, x pattern, m at level 100, k at level 200,
   format "'[v' 'let!'  x  ':='  m  'in' '/' k ']'") : ras_scope.
Notation "'guard!' b 'in' k" := (if b then k else fail AssertFail)
  (at level 10, b at level 100, k at level 200,
   format "'[v' 'guard!'  b  'in' '/' k ']'") : ras_scope.
Notation "'stop_if!' b 'in' k" := (if b then fail Panic else k)
  (at level 10, b at level 100, k at level 200,
   format "'[v' 'stop_if!'  b  'in' '/' k ']'") : ras_scope.

(** ** Time *)
Section time.
Variables (C : Config) (E : Env).

(** Alignment to the next clock edge of a clock that started at tick 0. *)
Definition clockEdge (cycles : Z) : Z :=
  u64 (u64 (IntMath.divCeil 64 (now E) (clockPeriod C) * clockPeriod C) + u64 (clockPeriod C * cycles)).
Definition ticksToCycles (ticks : Z) : Z := IntMath.divCeil 64 ticks (clockPeriod C).
Definition cyclesToTicks (cycles : Z) : Z := u64 (clockPeriod C * cycles).

End time.

(** ** Ports and blocking *)
Section ports.
Context {T P : Type}.
Variable E : Env.

(** [BlockedCause] *)
Definition Blocked_NoMSHRs : Z := 0.
Definition Blocked_NoWBBuffers : Z := 1.
Definition Blocked_NoTargets : Z := 2.

(** [CacheResponsePort::setBlocked], [clearBlocked] and [processSendRetry]. *)
Definition port_setBlocked : M T P unit :=
  let! b := gets port_blocked in
  guard! (negb b) in
  let! _ := modify (with_port_blocked true) in
  let! r := gets retryScheduled in
  if r then
    let! _ := modify (with_retryScheduled false) in
    let! _ := emit DeschedRetry in
    modify (with_mustSendRetry true)
  else ret tt.

Definition port_clearBlocked : M T P unit :=
  let! b := gets port_blocked in
  guard! b in
  let! _ := modify (with_port_blocked false) in
  let! m := gets mustSendRetry in
  if m then
    let! _ := modify (with_retryScheduled true) in
    emit (SchedRetry (u64 (now E + 1)))
  else ret tt.

Definition processSendRetry : M T P unit :=
  let! _ := modify (with_retryScheduled false) in
  let! _ := modify (with_mustSendRetry false) in
  emit SendRetryReq.

(** [BaseCache::setBlocked] and [clearBlocked]: [blocked] is a [uint8_t]. *)
Definition isBlocked (s : t T P) : bool := negb (blocked s =? 0).

Definition setBlocked (cause : Z) : M T P unit :=
  let flag := uwrap 8 (Z.shiftl 1 cause) in
  let! b := gets blocked in
  let! _ := if b =? 0 then port_setBlocked else ret tt in
  modify (with_blocked (Z.lor b flag)).

Definition clearBlocked (cause : Z) : M T P unit :=
  let flag := uwrap 8 (Z.shiftl 1 cause) in
  let! b := gets blocked in
  let b := Z.land b (unot 8 flag) in
  let! _ := modify (with_blocked b) in
  if b =? 0 then port_clearBlocked else ret tt.

(** [CpuSidePort::tryTiming], outside cache bypass. *)
Definition tryTiming (p : Packet.t) : M T P bool :=
  if Packet.isExpressSnoop p then ret true
  else
    let! b := gets port_blocked in
    let! m := gets mustSendRetry in
    if b || m then let! _ := modify (with_mustSendRetry true) in ret false
    else let! _ := modify (with_mustSendRetry false) in ret true.

Definition schedMemSideSendEvent (time : Z) : M T P unit := emit (SchedSendEvent time).

(** [order++] *)
Definition next_order : M T P Z :=
  let! o := gets order in
  let! _ := modify (with_order (u64 (o + 1))) in
  ret o.

End ports.
End CacheState.
