(* ===== verification/BaseCache.v ===== *)
(** * BaseCache

    The member functions of [BaseCache] (src/gem5/src/mem/cache/base.hh,
    base.cc) for timing mode. Functions that [BaseCache] declares virtual and
    that its subclass defines are section variables here; CoherentCache.v
    supplies them. The model is of a cache without a compressor
    ([compressor == nullptr]); statistics, probes and the deletion of packets
    are not modelled. *)

From S2P Require Import Prelude BaseUtil MemCmd Request Packet CacheBlk.
From S2P Require Import ReplPolicy Indexing Tags Prefetch MSHR Queues CacheState.
Local Open Scope Z_scope.

Module BaseCache.
Import CacheState.

(** The bytes of an unsigned integer in memory order (little endian). *)
Fixpoint le_bytes (n : nat) (v : Z) : list Z :=
  match n with O => [] | S n => v mod 256 :: le_bytes n (v / 256) end.

(** What [getNextQueueEntry] returns. *)
Inductive NextEntry := NextMSHR (e : nat) | NextWrite (e : nat).

Section base_cache.
Context {T P : Type} `{TagStore T} `{Prefetcher P}.
Variables (C : Config) (E : Env).
Abbreviation M := (CacheState.M T P).

(** ** Blocks *)

Definition getB (b : Blk) : M CacheBlk.t :=
  match b with
  | InTags e => fun s => let* x := ts_getBlk e (tags s) in Ok (x, s)
  | Temp => gets (fun s => TempCacheBlk.blk (tempBlock s))
  end.

Definition updB (f : CacheBlk.t -> res CacheBlk.t) (b : Blk) : M unit :=
  match b with
  | InTags e => fun s => let* g := ts_updBlk f e (tags s) in Ok (tt, with_tags g s)
  | Temp => fun s =>
      let* x := f (TempCacheBlk.blk (tempBlock s)) in
      Ok (tt, with_tempBlock (TempCacheBlk.mk x (TempCacheBlk._addr (tempBlock s))) s)
  end.

Definition setBits (bits : Z) : Blk -> M unit := updB (CacheBlk.setCoherenceBits bits).
Definition clearBits (bits : Z) : Blk -> M unit := updB (fun x => Ok (CacheBlk.clearCoherenceBits bits x)).
Definition isSetB (bits : Z) (b : Blk) : M bool := let! x := getB b in ret (CacheBlk.isSet bits x).
Definition isValidB (b : Blk) : M bool := let! x := getB b in ret (CacheBlk.isValid x).
(** [blk && blk->isValid()] and the like, for a pointer that may be null. *)
Definition opt_and (b : option Blk) (f : Blk -> M bool) : M bool :=
  match b with Some b => f b | None => ret false end.

Definition findBlock (addr : Z) (sec : bool) (dom : Z) : M (option Blk) :=
  fun s => let* r := ts_findBlock addr sec dom (tags s) in Ok (option_map InTags r, s).

Definition regenerateBlkAddr (b : Blk) : M Z :=
  match b with
  | InTags e => fun s => let* a := ts_regenerateBlkAddr e (tags s) in Ok (a, s)
  | Temp => gets (fun s => TempCacheBlk.getAddr (tempBlock s))
  end.

(** ** Queues *)

Definition findMshr (addr : Z) (sec : bool) (dom : Z) : M (option nat) :=
  fun s => let* r := Queue.findMatch_dom addr sec dom true (MSHRQueue.queue (mshrQueue s)) in Ok (r, s).
Definition findWrite (addr : Z) (sec : bool) (dom : Z) : M (option nat) :=
  fun s => let* r := Queue.findMatch_dom addr sec dom true (writeBuffer s) in Ok (r, s).
Definition getMshr (e : nat) : M MSHR.t :=
  fun s => let* m := Queue.entry e (MSHRQueue.queue (mshrQueue s)) in Ok (m, s).
Definition putMshr (e : nat) (m : MSHR.t) : M unit :=
  modify (fun s => with_mshrQueue
    (MSHRQueue.with_queue (Queue.put e m (MSHRQueue.queue (mshrQueue s))) (mshrQueue s)) s).
Definition getWrite (e : nat) : M WriteQueueEntry.t :=
  fun s => let* w := Queue.entry e (writeBuffer s) in Ok (w, s).
Definition putWrite (e : nat) (w : WriteQueueEntry.t) : M unit :=
  modify (fun s => with_writeBuffer (Queue.put e w (writeBuffer s)) s).

(** Runs an operation of an MSHR that may reach the MSHRs above. *)
Definition onMshr (e : nat) (f : MSHR.t -> res (MSHR.t * list MSHR.Upstream)) : M unit :=
  let! m := getMshr e in
  let! (m, up) := lift (f m) in
  let! _ := putMshr e m in
  upstream up.

Definition mshrFull (s : t T P) : bool := MSHRQueue.isFull (mshrQueue s).
Definition writeFull (s : t T P) : bool := Queue.isFull (writeBuffer s).

Definition markInService_mshr (e : nat) (pending_modified_resp : bool) : M unit :=
  let! was_full := gets mshrFull in
  let! q := gets mshrQueue in
  let! (q, up) := lift (MSHRQueue.markInService e pending_modified_resp q) in
  let! _ := modify (with_mshrQueue q) in
  let! _ := upstream up in
  let! full := gets mshrFull in
  if was_full && negb full then clearBlocked E Blocked_NoMSHRs else ret tt.

Definition markInService_wb (e : nat) : M unit :=
  let! was_full := gets writeFull in
  let! q := gets writeBuffer in
  let! q := lift (WriteQueue.markInService e q) in
  let! _ := modify (with_writeBuffer q) in
  let! full := gets writeFull in
  if was_full && negb full then clearBlocked E Blocked_NoWBBuffers else ret tt.

Definition allocOnFill (cmd : MemCmd.Command) : bool :=
  bool_decide (clusivity C = mostly_incl) || MemCmd.eqb cmd MemCmd.WriteLineReq ||
  MemCmd.eqb cmd MemCmd.ReadReq || MemCmd.eqb cmd MemCmd.WriteReq ||
  MemCmd.isPrefetch cmd || MemCmd.isLLSC cmd.

Definition allocateMissBuffer (p : Packet.t) (time : Z) (sched_send clear_nofill : bool) : M nat :=
  let! a := lift (Packet.getBlockAddr (blkSize C) p) in
  let! o := next_order in
  let! q := gets mshrQueue in
  let! (e, q, up) :=
    lift (MSHRQueue.allocate (now E) a (blkSize C) p time o (allocOnFill (Packet.cmd p)) q) in
  let! _ := modify (with_mshrQueue q) in
  let! _ := upstream up in
  let! full := gets mshrFull in
  let! _ := if full then setBlocked Blocked_NoMSHRs else ret tt in
  let! _ := if sched_send then schedMemSideSendEvent time else ret tt in
  if clear_nofill then
    let! m := getMshr e in
    let! _ := putMshr e (snd (MSHR.updateMayNotFill false m)) in
    ret e
  else ret e.

(** The search for a mergeable entry only matters for tracing. *)
Definition allocateWriteBuffer (p : Packet.t) (time : Z) : M unit :=
  guard! (Packet.isWrite p || Packet.cmd_is p MemCmd.CleanEvict) in
  let! a := lift (Packet.getBlockAddr (blkSize C) p) in
  let! sec := lift (Packet.isSecure p) in
  let! dom := lift (Packet.getDomainID p) in
  let! _ := findWrite a sec dom in
  let! o := next_order in
  let! q := gets writeBuffer in
  let! (_, q) := lift (WriteQueue.allocate (now E) a (blkSize C) p time o q) in
  let! _ := modify (with_writeBuffer q) in
  let! full := gets writeFull in
  let! _ := if full then setBlocked Blocked_NoWBBuffers else ret tt in
  schedMemSideSendEvent time.

Definition knownRequestor (p : Packet.t) : bool := Packet.requestorId p <? maxRequestors C.

(** [--missCount] and the exit at zero. *)
Definition incMissCount (p : Packet.t) : M unit :=
  guard! (knownRequestor p) in
  let! n := gets missCount in
  if n =? 0 then ret tt
  else
    let! _ := modify (with_missCount (n - 1)) in
    if n - 1 =? 0 then emit ExitSimLoop else ret tt.

Definition incHitCount (p : Packet.t) : M unit := guard! (knownRequestor p) in ret tt.

(** ** Prefetcher and write allocator *)

Definition view (s : t T P) : PrefetchBase.CacheView := {|
  PrefetchBase.inCache a sec d :=
    let* r := ts_findBlock a sec d (tags s) in Ok (bool_decide (is_Some r));
  PrefetchBase.inMissQueue a sec d :=
    let* r := Queue.findMatch_dom a sec d true (MSHRQueue.queue (mshrQueue s)) in
    Ok (bool_decide (is_Some r));
  PrefetchBase.hasBeenPrefetched a sec d :=
    let* r := ts_findBlock a sec d (tags s) in
    match r with
    | Some e => let* b := ts_getBlk e (tags s) in Ok (CacheBlk._prefetched b)
    | None => Ok false
    end;
  PrefetchBase.coalesce :=
    match writeAllocator s with Some w => WriteAllocator.coalesce w | None => false end
|}.

Definition hasPrefetcher : M bool := gets (fun s => bool_decide (is_Some (prefetcher s))).

(** Runs an operation of the prefetcher, which must be there. *)
Definition onPf {A} (f : t T P -> P -> nat -> res (A * P * nat)) : M A := fun s =>
  match prefetcher s with
  | None => Err Undefined
  | Some p => let* (a, p, g) := f s p (rng s) in Ok (a, with_prefetcher (Some p) (with_rng g s))
  end.

Definition pfDirectNotify (p : Packet.t) : M unit :=
  onPf (fun s pf g => let* (pf, g) := pf_directNotify (now E) (view s) p pf g in Ok (tt, pf, g)).
Definition pfNotifySHB (p : Packet.t) : M unit :=
  onPf (fun _ pf g => let* pf := pf_notifySHB (now E) p pf in Ok (tt, pf, g)).
Definition pfGetPacket : M (option Packet.t) :=
  onPf (fun s pf g => pf_getPacket (now E) (view s) pf g).
Definition pfNextTime : M Z := onPf (fun _ pf g => pf_nextPrefetchReadyTime (now E) pf g).

Definition updWriteAllocator (f : WriteAllocator.t -> WriteAllocator.t) : M unit :=
  modify (fun s => with_writeAllocator (option_map f (writeAllocator s)) s).

(** ** Block data *)

(** [updateBlockData]; the probe computes the block's address. *)
Definition updateBlockData (b : Blk) (p : option Packet.t) : M unit :=
  let! _ := regenerateBlkAddr b in
  match p with
  | None => ret tt
  | Some p =>
      updB (fun x => let* d := Packet.writeDataToBlock (CacheBlk.data x) (blkSize C) p in
                     Ok (CacheBlk.with_data d x)) b
  end.

Definition cmpAndSwap (b : Blk) (p : Packet.t) : M Packet.t :=
  guard! (Packet.isRequest p) in
  let! off := lift (Packet.getOffset (blkSize C) p) in
  let off := Z.to_nat off in
  let! n := lift (Packet.getSize p) in
  guard! (n <=? 8) in
  let! _ := regenerateBlkAddr b in
  let! x := getB b in
  let blk_data := drop off (CacheBlk.data x) in
  let! overwrite_val := lift (Packet.writeData (replicate 8 0) p) in
  let! p := lift (Packet.setData blk_data p) in
  let! overwrite_mem :=
    if Request.isCondSwap (Packet.req p) then
      if (n =? 8) || (n =? 4) then
        let! v := lift (Request.getExtraData (Packet.req p)) in
        ret (bool_decide (le_bytes (Z.to_nat n) v = take (Z.to_nat n) blk_data))
      else fail Panic
    else ret true in
  if overwrite_mem then
    let! _ := updB (fun x => Ok (CacheBlk.with_data
      (splice off (take (Z.to_nat n) overwrite_val) (CacheBlk.data x)) x)) b in
    let! _ := setBits CacheBlk.DirtyBit b in
    ret p
  else ret p.

Definition invalidateBlock (b : Blk) : M unit :=
  let! _ := updateBlockData b None in
  match b with
  | InTags e => fun s => let* g := ts_invalidate (now E) e (tags s) in Ok (tt, with_tags g s)
  | Temp => fun s => let* k := TempCacheBlk.invalidate (tempBlock s) in Ok (tt, with_tempBlock k s)
  end.

Definition maintainClusivity (from_cache : bool) (b : option Blk) : M unit :=
  match b with
  | None => ret tt
  | Some b =>
      let! x := getB b in
      if from_cache && CacheBlk.isValid x && negb (CacheBlk.isSet CacheBlk.DirtyBit x) &&
         bool_decide (clusivity C = mostly_excl)
      then invalidateBlock b
      else ret tt
  end.

(** ** Writebacks *)

(** The request of a writeback, write-clean or clean-evict of a block. *)
Definition wb_request (b : Blk) (x : CacheBlk.t) : M Request.t :=
  let! a := regenerateBlkAddr b in
  let r := Request.make (now E) a (blkSize C) 0 Request.wbRequestorId in
  let r := Request.setDomainID (CacheBlk.getDomainID x) r in
  let! r := lift (if CacheBlk.isSecure x then Request.setFlags Request.SECURE r else Ok r) in
  ret (Request.with_taskId (CacheBlk._taskId x) r).

(** Passing the block on: the writable bit moves to the packet, the data with
    it, and the block is clean afterwards. *)
Definition wb_transfer (b : Blk) (x : CacheBlk.t) (p : Packet.t) : M Packet.t :=
  let! p :=
    if CacheBlk.isSet CacheBlk.WritableBit x then
      let! _ := clearBits CacheBlk.WritableBit b in ret p
    else ret (Packet.setHasSharers p) in
  let! _ := clearBits CacheBlk.DirtyBit b in
  let! p := lift (Packet.allocate p) in
  lift (Packet.setDataFromBlock (CacheBlk.data x) (blkSize C) p).

Definition writebackBlk (b : Blk) : M Packet.t :=
  guard! (negb (isReadOnly C) || writebackClean C) in
  let! x := getB b in
  guard! (CacheBlk.isValid x && (CacheBlk.isSet CacheBlk.DirtyBit x || writebackClean C)) in
  let! r := wb_request b x in
  let! p := lift (Packet.make 0 r (if CacheBlk.isSet CacheBlk.DirtyBit x
                                   then MemCmd.WritebackDirty else MemCmd.WritebackClean)) in
  wb_transfer b x p.

Definition writecleanBlk (b : Blk) (dest id : Z) : M Packet.t :=
  let! x := getB b in
  let! r := wb_request b x in
  let p := Packet.make_blk id r MemCmd.WriteClean (blkSize C) in
  let! p :=
    if truthy dest then
      let! r := lift (Request.setFlags dest (Packet.req p)) in
      lift (Packet.setWriteThrough (Packet.with_req r p))
    else ret p in
  wb_transfer b x p.

(** ** Satisfying a request from a block *)

(** [BaseCache::satisfyRequest] *)
Definition satisfyRequest (p : Packet.t) (b : Blk) : M Packet.t :=
  guard! (Packet.isRequest p) in
  let! x := getB b in
  guard! (CacheBlk.isValid x) in
  let! off := lift (Packet.getOffset (blkSize C) p) in
  let! n := lift (Packet.getSize p) in
  guard! (off + n <=? blkSize C) in
  if Packet.cmd_is p MemCmd.SwapReq then
    if Packet.isAtomicOp p then
      let! _ := regenerateBlkAddr b in
      let! a := lift (Packet.getAddr p) in
      let! o := gets (fun s => Z.to_nat (ts_extractBlkOffset a (tags s))) in
      let! p := lift (Packet.setData (drop o (CacheBlk.data x)) p) in
      match Request.atomicOpFunctor (Packet.req p) with
      | None => fail Undefined
      | Some op =>
          let! _ := updB (fun x => Ok (CacheBlk.with_data
            (take o (CacheBlk.data x) ++ op (drop o (CacheBlk.data x))) x)) b in
          let! _ := setBits CacheBlk.DirtyBit b in
          ret p
      end
    else cmpAndSwap b p
  else if Packet.isWrite p then
    guard! (CacheBlk.isSet CacheBlk.WritableBit x) in
    let! (ok, q, _) := lift (CacheBlk.checkWrite p x) in
    let! _ := updB (fun x => let* (_, _, y) := CacheBlk.checkWrite p x in Ok y) b in
    let! _ := if ok then updateBlockData b (Some q) else ret tt in
    let! _ := setBits CacheBlk.DirtyBit b in
    ret q
  else if Packet.isRead p then
    let! _ := if Packet.isLLSC p then updB (CacheBlk.trackLoadLocked p) b else ret tt in
    guard! (Packet.hasRespData p) in
    lift (Packet.setDataFromBlock (CacheBlk.data x) (blkSize C) p)
  else if Packet.isUpgrade p then
    guard! (negb (Packet.hasSharers p)) in
    if CacheBlk.isSet CacheBlk.DirtyBit x then
      let! p := lift (Packet.setCacheResponding p) in
      let! _ := clearBits CacheBlk.DirtyBit b in
      ret p
    else ret p
  else if Packet.isClean p then
    let! _ := clearBits CacheBlk.DirtyBit b in ret p
  else
    guard! (Packet.isInvalidate p) in
    let! _ := invalidateBlock b in
    ret p.

(** ** Latencies *)

Definition calculateTagOnlyLatency (delay lookup_lat : Z) : Z := ticksToCycles C delay + lookup_lat.

Definition calculateAccessLatency (b : option Blk) (delay lookup_lat : Z) : M Z :=
  match b with
  | None => ret (calculateTagOnlyLatency delay lookup_lat)
  | Some b =>
      let! x := getB b in
      let lat := if sequentialAccess C then ticksToCycles C delay + lookup_lat + dataLatency C
                 else ticksToCycles C delay + Z.max lookup_lat (dataLatency C) in
      let tick := now E + delay in
      let! when_ready := lift (CacheBlk.getWhenReady x) in
      if (tick <? when_ready) && (lat <? ticksToCycles C (when_ready - tick))
      then ret (lat + ticksToCycles C (when_ready - tick))
      else ret lat
  end.

(** ** Evictions and fills

    [evictBlock_v] is the virtual [evictBlock(blk)]. *)
Section fills.
Variable evictBlock_v : Blk -> M (option Packet.t).

(** [evictBlock(blk, writebacks, no_fill)] *)
Definition evictBlock_to (b : Blk) (writebacks : list Packet.t) (no_fill : bool) : M (list Packet.t) :=
  let! p := evictBlock_v b in
  match p with
  | None => ret writebacks
  | Some p =>
      if no_fill then
        stop_if! negb (bool_decide (b = Temp)) in
        ret (writebacks ++ [Packet.setMayNotFill p])
      else
        stop_if! bool_decide (b = Temp) in
        ret (writebacks ++ [p])
  end.

(** First loop of [handleEvictions]: whether a valid block is replaced, or
    [None] when one of them has an outstanding request. *)
Fixpoint eviction_check (l : list nat) (replacement : bool) : M (option bool) :=
  match l with
  | [] => ret (Some replacement)
  | e :: l =>
      let! x := getB (InTags e) in
      if CacheBlk.isValid x then
        let! a := regenerateBlkAddr (InTags e) in
        let! m := findMshr a (CacheBlk.isSecure x) (CacheBlk.getDomainID x) in
        match m with
        | None => eviction_check l true
        | Some i =>
            let! m := getMshr i in
            let! cl :=
              if negb (CacheBlk.isSet CacheBlk.WritableBit x) && MSHR.needsWritable (MSHR.targets m)
              then ret true else lift (MSHR.isCleaning m) in
            guard! cl in
            ret None
        end
      else eviction_check l replacement
  end.

(** Second loop. *)
Fixpoint evict_valid (l : list nat) (writebacks : list Packet.t) : M (list Packet.t) :=
  match l with
  | [] => ret writebacks
  | e :: l =>
      let! v := isValidB (InTags e) in
      let! writebacks := if v then evictBlock_to (InTags e) writebacks false else ret writebacks in
      evict_valid l writebacks
  end.

Definition handleEvictions (evict_blks : list nat) (writebacks : list Packet.t) :
    M (bool * list Packet.t) :=
  let! r := eviction_check evict_blks false in
  match r with
  | None => ret (false, writebacks)
  | Some false => ret (true, writebacks)
  | Some true => let! writebacks := evict_valid evict_blks writebacks in ret (true, writebacks)
  end.

(** The victim search is not given the security domain. *)
Definition allocateBlock (p : Packet.t) (writebacks : list Packet.t) :
    M (option Blk * list Packet.t) :=
  let! addr := lift (Packet.getAddr p) in
  let! sec := lift (Packet.isSecure p) in
  let! s := gets (fun s => s) in
  let! (victim, evict_blks, g, r) := lift (ts_findVictim (now E) addr sec (blkSize C * 8) (tags s) (rng s)) in
  let! _ := modify (fun s => with_rng r (with_tags g s)) in
  match victim with
  | None => ret (None, writebacks)
  | Some e =>
      let! (ok, writebacks) := handleEvictions evict_blks writebacks in
      if negb ok then ret (None, writebacks)
      else
        let! s := gets (fun s => s) in
        let! (g, r) := lift (ts_insertBlock (now E) (maxRequestors C) p e (tags s) (rng s)) in
        let! _ := modify (fun s => with_rng r (with_tags g s)) in
        ret (Some (InTags e), writebacks)
  end.

(** Where a response is filled to: the block already there, a new one, or the
    temporary block when nothing is allocated, which marks the response. *)
Definition fill_place (p : Packet.t) (b : option Blk) (addr : Z) (sec : bool) (dom : Z)
    (writebacks : list Packet.t) (allocate : bool) : M (Packet.t * Blk * list Packet.t) :=
  match b with
  | Some b => ret (p, b, writebacks)
  | None =>
      guard! (Packet.hasData p || Packet.cmd_is p MemCmd.InvalidateResp) in
      let! (nb, writebacks) := if allocate then allocateBlock p writebacks else ret (None, writebacks) in
      match nb with
      | Some b => ret (p, b, writebacks)
      | None =>
          stop_if! negb (nofillEn C) in
          let! s := gets (fun s => s) in
          let! k := lift (TempCacheBlk.insert addr (ts_extractTag addr (tags s))
                            (ts_extractIndex addr (tags s)) sec (tempBlock s)) in
          let! _ := modify (with_tempBlock
            (TempCacheBlk.mk (CacheBlk.with_domainID dom (TempCacheBlk.blk k)) (TempCacheBlk._addr k))) in
          ret (Packet.setNoFillLower p, Temp, writebacks)
      end
  end.

(** The permissions and the data that come with the response. *)
Definition fill_block (p : Packet.t) (b : Blk) (addr : Z) (sec : bool) (dom : Z) : M unit :=
  let! x := getB b in
  guard! (CacheBlk.isValid x) in
  guard! (eqb (CacheBlk.isSecure x) sec) in
  guard! (CacheBlk.getDomainID x =? dom) in
  let! ra := regenerateBlkAddr b in
  guard! (ra =? addr) in
  let! _ := setBits CacheBlk.ReadableBit b in
  guard! (negb (Packet.cmd_is p MemCmd.InvalidateResp && Packet.hasSharers p)) in
  let! _ :=
    if negb (Packet.hasSharers p) then
      let! _ := setBits CacheBlk.WritableBit b in
      if Packet.cacheResponding p then
        let! _ := setBits CacheBlk.DirtyBit b in
        guard! (negb (isReadOnly C)) in ret tt
      else ret tt
    else ret tt in
  let! _ :=
    if Packet.isRead p then
      guard! (Packet.hasData p) in
      let! n := lift (Packet.getSize p) in
      guard! (n =? blkSize C) in
      updateBlockData b (Some p)
    else ret tt in
  updB (CacheBlk.setWhenReady
    (u64 (clockEdge C E (fillLatency C) + Packet.headerDelay p + Packet.payloadDelay p))) b.

Definition handleFill (p : Packet.t) (b : option Blk) (writebacks : list Packet.t) (allocate : bool) :
    M (Packet.t * Blk * list Packet.t) :=
  guard! (Packet.isResponse p) in
  let! addr := lift (Packet.getAddr p) in
  let! sec := lift (Packet.isSecure p) in
  let! dom := lift (Packet.getDomainID p) in
  let! ba := lift (Packet.getBlockAddr (blkSize C) p) in
  guard! (addr =? ba) in
  let! w := findWrite addr sec dom in
  guard! (bool_decide (w = None)) in
  let! (p, b, writebacks) := fill_place p b addr sec dom writebacks allocate in
  let! _ := fill_block p b addr sec dom in
  ret (p, b, writebacks).

(** ** The access path *)

(** [satisfyRequest_v] is the virtual [satisfyRequest]. *)
Section access.
Variable satisfyRequest_v : Packet.t -> Blk -> bool -> bool -> M Packet.t.

(** The outcome of [access]: satisfied, the packet, the block, the latency
    and the writebacks. *)
Definition Outcome : Type := bool * Packet.t * option Blk * Z * list Packet.t.

(** The check of an incoming eviction against our own write buffer. [Some]
    ends the access. *)
Definition eviction_hit (p : Packet.t) (addr : Z) (sec : bool) (dom : Z) : M bool :=
  let! w := findWrite addr sec dom in
  match w with
  | None => ret false
  | Some i =>
      let! w := getWrite i in
      guard! (WriteQueueEntry.getNumTargets w =? 1)%nat in
      let! tg := lift (WriteQueueEntry.getTarget w) in
      let wbPkt := WriteQueueEntry.pkt tg in
      guard! (Packet.isWriteback wbPkt) in
      if Packet.isCleanEviction p then
        let! _ := putWrite i (WriteQueueEntry.with_targets
          [WriteQueueEntry.mkTarget (WriteQueueEntry.recvTime tg) (WriteQueueEntry.t_readyTime tg)
             (WriteQueueEntry.t_order tg) (Packet.clearBlockCached wbPkt)] w) in
        ret true
      else
        guard! (Packet.cmd_is p MemCmd.WritebackDirty) in
        let! _ := markInService_wb i in
        ret false
  end.

(** Writing a writeback's data into its block, and the time it is ready. *)
Definition wb_store (p : Packet.t) (b : Blk) (tag_latency : Z) : M unit :=
  guard! (negb (Packet.needsResponse p)) in
  let! _ := updateBlockData b (Some p) in
  let! _ := incHitCount p in
  updB (CacheBlk.setWhenReady
    (u64 (clockEdge C E (fillLatency C) + Packet.headerDelay p +
          Z.max (cyclesToTicks C tag_latency) (Packet.payloadDelay p)))) b.

(** The block a writeback goes to: the one present, or a new one unless the
    packet must not fill. *)
Definition wb_block (p : Packet.t) (b : option Blk) (writebacks : list Packet.t) :
    M (option Blk * list Packet.t) :=
  match b with
  | Some b => ret (Some b, writebacks)
  | None =>
      let! (nb, writebacks) :=
        if nofillEn C && Packet.isMayNotFill p then ret (None, writebacks)
        else allocateBlock p writebacks in
      match nb with
      | None => let! _ := incMissCount p in ret (None, writebacks)
      | Some b => let! _ := setBits CacheBlk.ReadableBit b in ret (Some b, writebacks)
      end
  end.

(** A writeback from above: it needs no permission, and may allocate. *)
Definition access_writeback (p : Packet.t) (addr : Z) (sec : bool) (dom : Z) (b : option Blk)
    (tag_latency lat : Z) (writebacks : list Packet.t) : M Outcome :=
  let! n := lift (Packet.getSize p) in
  guard! (blkSize C =? n) in
  let! dropped :=
    if Packet.cmd_is p MemCmd.WritebackClean then
      let! m := findMshr addr sec dom in ret (bool_decide (is_Some m))
    else ret false in
  if dropped then ret (true, p, b, lat, writebacks)
  else
    let! (b, writebacks) := wb_block p b writebacks in
    match b with
    | None => ret (false, p, None, lat, writebacks)
    | Some b =>
        let! _ := if Packet.cmd_is p MemCmd.WritebackDirty then setBits CacheBlk.DirtyBit b else ret tt in
        let! _ := if negb (Packet.hasSharers p) then setBits CacheBlk.WritableBit b else ret tt in
        let! _ := wb_store p b tag_latency in
        ret (true, p, Some b, lat, writebacks)
    end.

(** A write-clean from above; a write-through one is never allocated for and
    goes on to the cache below. *)
Definition access_writeclean (p : Packet.t) (b : option Blk) (tag_latency lat : Z)
    (writebacks : list Packet.t) : M Outcome :=
  let! n := lift (Packet.getSize p) in
  guard! (blkSize C =? n) in
  if bool_decide (b = None) && Packet.writeThrough p then ret (false, p, b, lat, writebacks)
  else
    let! (b, writebacks) := wb_block p b writebacks in
    match b with
    | None => ret (false, p, None, lat, writebacks)
    | Some b =>
        let! _ := if negb (Packet.writeThrough p) then setBits CacheBlk.DirtyBit b else ret tt in
        let! _ := wb_store p b tag_latency in
        ret (negb (Packet.writeThrough p), p, Some b, lat, writebacks)
    end.

(** Everything else: satisfied when the block has the permission asked for. *)
Definition access_demand (p : Packet.t) (b : option Blk) (tag_latency : Z)
    (writebacks : list Packet.t) : M Outcome :=
  let! nw := lift (Packet.needsWritable p) in
  let! ok := opt_and b (isSetB (if nw then CacheBlk.WritableBit else CacheBlk.ReadableBit)) in
  match b with
  | Some blk =>
      if ok then
        let! _ := incHitCount p in
        let! lat :=
          if Packet.isRead p then calculateAccessLatency b (Packet.headerDelay p) tag_latency
          else ret (calculateTagOnlyLatency (Packet.headerDelay p) tag_latency) in
        let! p := satisfyRequest_v p blk false false in
        let! _ := maintainClusivity (Packet.fromCache p) b in
        ret (true, p, b, lat, writebacks)
      else
        let! _ := incMissCount p in
        let! lat := calculateAccessLatency b (Packet.headerDelay p) tag_latency in
        ret (false, p, b, lat, writebacks)
  | None =>
      let! _ := incMissCount p in
      let! lat := calculateAccessLatency None (Packet.headerDelay p) tag_latency in
      if Packet.isLLSC p && Packet.isWrite p then
        ret (true, Packet.with_req (Request.setExtraData 0 (Packet.req p)) p, None, lat, writebacks)
      else ret (false, p, None, lat, writebacks)
  end.

(** The rest of [access] once the tags have been looked up: [b] is the block
    found. *)
Definition access_block (p : Packet.t) (addr : Z) (sec : bool) (dom : Z) (b : option Blk)
    (tag_latency lat0 : Z) (writebacks : list Packet.t) : M Outcome :=
  guard! (negb (Packet.cmd_is p MemCmd.HardPFReq && Packet.isMayNotFill p)) in
  let tag_only := calculateTagOnlyLatency (Packet.headerDelay p) tag_latency in
  if Request.isCacheMaintenance (Packet.req p) then ret (false, p, b, tag_only, writebacks)
  else
  let! sunk := if Packet.isEviction p then eviction_hit p addr sec dom else ret false in
  if sunk then ret (true, p, b, tag_only, writebacks)
  else
  let! pf := hasPrefetcher in
  let! _ := if pfInsertStLd C && pf && (Packet.isWrite p || Packet.isRead p)
            then pfDirectNotify p else ret tt in
  let! _ := if shbInsertSt C && pf && Packet.isWrite p then pfNotifySHB p else ret tt in
  let lat := if Packet.isWrite p then tag_only else lat0 in
  if Packet.isWriteback p then access_writeback p addr sec dom b tag_latency lat writebacks
  else if Packet.cmd_is p MemCmd.CleanEvict then
    ret (bool_decide (is_Some b), p, b, tag_only, writebacks)
  else if Packet.cmd_is p MemCmd.WriteClean then access_writeclean p b tag_latency lat writebacks
  else access_demand p b tag_latency writebacks.

Definition access (p : Packet.t) (lat0 : Z) (writebacks : list Packet.t) : M Outcome :=
  guard! (Packet.isRequest p) in
  guard! (negb (isReadOnly C && Packet.isWrite p)) in
  let! addr := lift (Packet.getAddr p) in
  let! sec := lift (Packet.isSecure p) in
  let! dom := lift (Packet.getDomainID p) in
  let! g := gets tags in
  let! (hit, g, tag_latency) := lift (ts_accessBlock (now E) addr sec dom (Packet.isMayNotFill p) g) in
  let! _ := modify (with_tags g) in
  access_block p addr sec dom (option_map InTags hit) tag_latency lat0 writebacks.

End access.
End fills.

(** ** Requests *)

Definition handleTimingReqHit (p : Packet.t) (request_time : Z) : M unit :=
  if Packet.needsResponse p then
    guard! (Packet.headerDelay p =? 0) in
    guard! (Packet.payloadDelay p =? 0) in
    let! p := lift (Packet.makeTimingResponse p) in
    emit (SchedTimingResp p (u64 (request_time + u64 (clockPeriod C * responseLatency C))))
  else ret tt.

(** The MSHR has as many targets as it may have: no request is accepted until
    it is served. *)
Definition out_of_targets (e : nat) : M unit :=
  let! _ := modify (with_noTargetMSHR (Some e)) in
  setBlocked Blocked_NoTargets.

(** A request coalesced into an MSHR; a demand fetch that may fill tells the
    cache below when it joins a no-fill MSHR of a first-level cache. *)
Definition coalesce_target (p : Packet.t) (e : nat) (forward_time : Z) : M unit :=
  guard! (knownRequestor p) in
  let! m := getMshr e in
  let! _ :=
    if Packet.isDemandFetch p && MSHR.mayNotFill (MSHR.targets m) &&
       negb (Packet.isMayNotFill p) && (cacheLevel C =? 1)
    then emit (SendPfAck p) else ret tt in
  let! o := next_order in
  let! _ := onMshr e (MSHR.allocateTarget (now E) p forward_time o (allocOnFill (Packet.cmd p))) in
  let! m := getMshr e in
  if Z.of_nat (MSHR.getNumTargets m) =? numTarget C then out_of_targets e else ret tt.

(** A request that starts a miss of its own. *)
Definition new_miss (p : Packet.t) (b : option Blk) (forward_time : Z) : M unit :=
  let! _ :=
    match b with
    | None => ret tt
    | Some b =>
        let! x := getB b in
        if CacheBlk.isValid x then
          let! nw := lift (Packet.needsWritable p) in
          guard! ((nw && negb (CacheBlk.isSet CacheBlk.WritableBit x)) ||
                  Request.isCacheMaintenance (Packet.req p)) in
          clearBits CacheBlk.ReadableBit b
        else ret tt
    end in
  let! e := allocateMissBuffer p forward_time true (negb (nofillEn C)) in
  let! m := getMshr e in
  let counted := Packet.isMayNotFill p && (Packet.isRead p || Packet.isWrite p) in
  stop_if! (counted && nofillEn C && negb (MSHR.mayNotFill (MSHR.targets m))) in
  stop_if! (counted && negb (Packet.isDemandFetch p)) in
  let! pf := hasPrefetcher in
  if pfInsertMiss C && pf && (Packet.isWrite p || Packet.isRead p) then pfDirectNotify p else ret tt.

(** [BaseCache::handleTimingReqMiss]; the packet is null after a software
    prefetch that found an MSHR. *)
Definition handleTimingReqMiss (p : option Packet.t) (mshr : option nat) (b : option Blk)
    (forward_time : Z) : M unit :=
  let! _ :=
    match p with
    | Some p =>
        if Packet.isWrite p && negb (Request.isUncacheable (Packet.req p)) then
          let! a := lift (Packet.getAddr p) in
          let! n := lift (Packet.getSize p) in
          let! ba := lift (Packet.getBlockAddr (blkSize C) p) in
          updWriteAllocator (WriteAllocator.updateMode a n ba)
        else ret tt
    | None => ret tt
    end in
  match mshr, p with
  | Some _, None => ret tt
  | None, None => fail Undefined
  | Some e, Some p =>
      guard! (negb (Packet.isWriteback p)) in
      if Packet.cmd_is p MemCmd.CleanEvict then ret tt
      else if Packet.cmd_is p MemCmd.WriteClean then allocateWriteBuffer p forward_time
      else coalesce_target p e forward_time
  | None, Some p =>
      guard! (knownRequestor p) in
      if Packet.isEviction p || Packet.cmd_is p MemCmd.WriteClean then allocateWriteBuffer p forward_time
      else new_miss p b forward_time
  end.

(** Asking for the bus when the prefetcher has something to send. *)
Definition sched_prefetch : M unit :=
  let! pf := hasPrefetcher in
  if pf then
    let! next_pf_time := pfNextTime in
    if next_pf_time =? MaxTick then ret tt else schedMemSideSendEvent next_pf_time
  else ret tt.

(** [BaseCache::recvTimingReq] over the virtual functions it calls. *)
Section requests.
Variable access_v : Packet.t -> Z -> list Packet.t -> M Outcome.
Variable doWritebacks_v : list Packet.t -> Z -> M unit.
Variable handleTimingReqHit_v : Packet.t -> Z -> M unit.
Variable handleTimingReqMiss_v : Packet.t -> option Blk -> Z -> Z -> M unit.

Definition recvTimingReq (p : Packet.t) : M unit :=
  let forward_time := u64 (clockEdge C E (forwardLatency C) + Packet.headerDelay p) in
  let! (satisfied, p, b, lat, writebacks) := access_v p 0 [] in
  let! _ := doWritebacks_v writebacks (clockEdge C E (lat + forwardLatency C)) in
  let request_time := clockEdge C E lat in
  let p := Packet.with_payloadDelay 0 (Packet.with_headerDelay 0 p) in
  let! _ :=
    if satisfied then
      let! pf := hasPrefetcher in
      let! _ :=
        match b with
        | Some b => if pf then updB (fun x => Ok (CacheBlk.with_prefetched false x)) b else ret tt
        | None => ret tt
        end in
      handleTimingReqHit_v p request_time
    else handleTimingReqMiss_v p b forward_time request_time in
  sched_prefetch.

End requests.

Definition recvSHBinfo (p : Packet.t) : M unit :=
  let! pf := hasPrefetcher in
  guard! pf in
  pfNotifySHB p.

(** The MSHR is looked up with the packet's own address. *)
Definition recvPfAck (p : Packet.t) : M unit :=
  let! ba := lift (Packet.getBlockAddr (blkSize C) p) in
  let! a := lift (Packet.getAddr p) in
  guard! (Packet.isDemandFetch p || (ba =? a)) in
  let! sec := lift (Packet.isSecure p) in
  let! dom := lift (Packet.getDomainID p) in
  let! m := findMshr a sec dom in
  match m with
  | None => ret tt
  | Some e =>
      let! m := getMshr e in
      if pfAckEn C then putMshr e (snd (MSHR.updateMayNotFill false m)) else ret tt
  end.

(** ** Responses *)

Definition handleUncacheableWriteResp (p : Packet.t) : M unit :=
  let completion_time :=
    u64 (clockEdge C E (responseLatency C) + Packet.headerDelay p + Packet.payloadDelay p) in
  emit (SchedTimingResp (Packet.with_payloadDelay 0 (Packet.with_headerDelay 0 p)) completion_time).

Section responses.
Variable evictBlock_v : Blk -> M (option Packet.t).
Variable doWritebacks_v : list Packet.t -> Z -> M unit.
Variable serviceMSHRTargets_v : nat -> Packet.t -> option Blk -> M unit.

(** A response for the MSHR that had run out of targets. *)
Definition targets_available (e : nat) : M unit :=
  let! nt := gets noTargetMSHR in
  if bool_decide (nt = Some e) then
    let! _ := clearBlocked E Blocked_NoTargets in modify (with_noTargetMSHR None)
  else ret tt.

(** Giving an MSHR back to its queue, which may unblock the cache. *)
Definition free_mshr (e : nat) : M unit :=
  let! was_full := gets mshrFull in
  let! q := gets mshrQueue in
  let! q := lift (MSHRQueue.deallocate e q) in
  let! _ := modify (with_mshrQueue q) in
  let! full := gets mshrFull in
  if was_full && negb full then clearBlocked E Blocked_NoMSHRs else ret tt.

(** Whether a response may allocate a block in this cache. *)
Definition allow_fill (p : Packet.t) (m : MSHR.t) : bool :=
  MSHR.allocOnFill (MSHR.targets m) && negb (MSHR.mayNotFill (MSHR.targets m)) &&
  negb (Packet.isNoFillLower p).

(** The fill part of [recvTimingResp]. *)
Definition resp_fill (p : Packet.t) (m : MSHR.t) (b : option Blk) :
    M (Packet.t * option Blk * list Packet.t) :=
  let is_fill := negb (MSHR.isForward m) &&
    (Packet.isRead p || Packet.cmd_is p MemCmd.UpgradeResp || MSHR.wasWholeLineWrite m) in
  guard! (negb (MSHR.wasWholeLineWrite m) || Packet.isInvalidate p) in
  if is_fill && negb (Packet.isError p) then
    stop_if! (negb (allow_fill p m) && (cacheLevel C =? 2) && Packet.isNoFillLower p) in
    let! wa := gets writeAllocator in
    let allocate := match wa with
                    | Some w => if MSHR.wasWholeLineWrite m then WriteAllocator.allocate w else allow_fill p m
                    | None => allow_fill p m
                    end in
    let! (p, b, writebacks) := handleFill evictBlock_v p b [] allocate in
    ret (p, Some b, writebacks)
  else ret (p, b, []).

(** Deferred targets the response allows to be serviced now. *)
Definition resp_promote (p : Packet.t) (e : nat) (b : option Blk) : M unit :=
  let! v := opt_and b isValidB in
  let! _ :=
    if v && Packet.isClean p && negb (Packet.isInvalidate p) then
      match b with
      | Some b => let! _ := setBits CacheBlk.ReadableBit b in onMshr e MSHR.promoteReadable
      | None => ret tt
      end
    else ret tt in
  let! w := opt_and b (isSetB CacheBlk.WritableBit) in
  if w && negb (Request.isCacheInvalidate (Packet.req p)) then onMshr e MSHR.promoteWritable else ret tt.

(** After the service: the MSHR goes back to the queue for its deferred
    targets, or is freed. *)
Definition resp_retire (p : Packet.t) (e : nat) (b : option Blk) : M unit :=
  let! m := getMshr e in
  let! (promoted, m) := lift (MSHR.promoteDeferredTargets (now E) m) in
  let! _ := putMshr e m in
  if promoted then
    let! _ := match b with Some b => clearBits CacheBlk.ReadableBit b | None => ret tt end in
    let! q := gets mshrQueue in
    let! q := lift (MSHRQueue.markPending e q) in
    let! _ := modify (with_mshrQueue q) in
    schedMemSideSendEvent (u64 (clockEdge C E 0 + Packet.payloadDelay p))
  else
    let! _ := free_mshr e in
    let! pf := hasPrefetcher in
    let! can := gets (fun s => MSHRQueue.canPrefetch (mshrQueue s) && negb (isBlocked s)) in
    if pf && can then
      let! next_pf_time := pfNextTime in
      let next_pf_time := Z.max next_pf_time (clockEdge C E 0) in
      if next_pf_time =? MaxTick then ret tt else schedMemSideSendEvent next_pf_time
    else ret tt.

Definition recvTimingResp (p : Packet.t) : M unit :=
  guard! (Packet.isResponse p) in
  stop_if! (negb (Packet.headerDelay p =? 0) && negb (Packet.cmd_is p MemCmd.HardPFResp)) in
  if Packet.isWrite p then
    guard! (Request.isUncacheable (Packet.req p)) in
    handleUncacheableWriteResp p
  else
    let! (ss, p) := lift (Packet.popSenderState p) in
    match ss with
    | Packet.SS_Other _ => fail AssertFail
    | Packet.SS_MSHR c e =>
        if negb (c =? cacheId C)%nat then fail Undefined
        else
          let! _ := targets_available e in
          let! m := getMshr e in
          let! _ := lift (MSHR.getTarget m) in
          guard! (knownRequestor p) in
          let! addr := lift (Packet.getAddr p) in
          let! sec := lift (Packet.isSecure p) in
          let! dom := lift (Packet.getDomainID p) in
          let! b := findBlock addr sec dom in
          let! (p, b, writebacks) := resp_fill p m b in
          let! _ := resp_promote p e b in
          let! _ := serviceMSHRTargets_v e p b in
          let! _ := resp_retire p e b in
          let! tv := isValidB Temp in
          let! writebacks :=
            if bool_decide (b = Some Temp) && tv then evictBlock_to evictBlock_v Temp writebacks true
            else ret writebacks in
          doWritebacks_v writebacks (u64 (clockEdge C E (forwardLatency C) + Packet.headerDelay p))
    end.

End responses.

(** ** Sending requests *)

(** A prefetch when nothing else is ready. *)
Definition next_prefetch : M (option NextEntry) :=
  let! pf := hasPrefetcher in
  let! can := gets (fun s => MSHRQueue.canPrefetch (mshrQueue s) && negb (isBlocked s)) in
  if pf && can then
    let! pkt := pfGetPacket in
    match pkt with
    | None => ret None
    | Some p =>
        let! a := lift (Packet.getBlockAddr (blkSize C) p) in
        let! sec := lift (Packet.isSecure p) in
        let! dom := lift (Packet.getDomainID p) in
        let! m := findMshr a sec dom in
        let! b := findBlock a sec dom in
        let! absent :=
          if bool_decide (b = None) && bool_decide (m = None) then
            let! w := findWrite a sec dom in ret (bool_decide (w = None))
          else ret false in
        if absent then
          guard! (knownRequestor p) in
          let! e := allocateMissBuffer p (now E) false true in
          ret (Some (NextMSHR e))
        else
          let! _ :=
            match m with
            | Some e =>
                if pfAckEn C then
                  let! x := getMshr e in
                  let! _ := putMshr e (snd (MSHR.updateMayNotFill false x)) in
                  if cacheLevel C =? 1 then emit (SendPfAck p) else ret tt
                else ret tt
            | None => ret tt
            end in
          ret None
    end
  else ret None.

(** [findPending(entry)] of the other queue: [entry] is known by its block. *)
Definition pending_mshr (w : WriteQueueEntry.t) : M (option nat) :=
  fun s => let* r := Queue.findPending (fun a sec d => WriteQueueEntry.matchBlockAddr_id a sec d w)
                       (MSHRQueue.queue (mshrQueue s)) in Ok (r, s).
Definition pending_write (m : MSHR.t) : M (option nat) :=
  fun s => let* r := Queue.findPending (fun a sec d => MSHR.matchBlockAddr_id a sec d m)
                       (writeBuffer s) in Ok (r, s).

Definition getNextQueueEntry : M (option NextEntry) :=
  let! miss_mshr := gets (fun s => Queue.getNext (now E) (MSHRQueue.queue (mshrQueue s))) in
  let! wq_entry := gets (fun s => Queue.getNext (now E) (writeBuffer s)) in
  let! wfull := gets writeFull in
  match (if wfull || bool_decide (miss_mshr = None) then wq_entry else None), miss_mshr with
  | Some w, _ =>
      let! we := getWrite w in
      let! c := pending_mshr we in
      match c with
      | Some i =>
          let! m := getMshr i in
          if MSHR.order m <? WriteQueueEntry.order we then ret (Some (NextMSHR i))
          else ret (Some (NextWrite w))
      | None => ret (Some (NextWrite w))
      end
  | None, Some i =>
      let! m := getMshr i in
      let! c := pending_write m in
      match c with
      | Some w => ret (Some (NextWrite w))
      | None => ret (Some (NextMSHR i))
      end
  | None, None => next_prefetch
  end.

Definition nextQueueReadyTime : M Z :=
  let! r := gets (fun s => Z.min (Queue.nextReadyTime (MSHRQueue.queue (mshrQueue s)))
                                 (Queue.nextReadyTime (writeBuffer s))) in
  let! pf := hasPrefetcher in
  if pf then let! n := pfNextTime in ret (Z.min r n) else ret r.

Section sending.
Variable createMissPacket_v : Packet.t -> option Blk -> bool -> bool -> M (option Packet.t).
Variable doWritebacks_v : list Packet.t -> Z -> M unit.

(** Holding a miss back while writes to its line are being coalesced. *)
Definition write_hold (e : nat) (m : MSHR.t) (tgt : Packet.t) : M bool :=
  let! wa := gets writeAllocator in
  match wa with
  | None => ret false
  | Some w =>
      if WriteAllocator.coalesce w && Packet.isWrite tgt then
        if negb (MSHR.isWholeLineWrite (MSHR.targets m)) then
          let '(d, w) := WriteAllocator.delay (MSHR.blkAddr m) w in
          let! _ := modify (with_writeAllocator (Some w)) in
          if d then
            let! n := lift (Packet.getSize tgt) in
            if n =? 0 then fail Undefined
            else
              let! q := gets mshrQueue in
              let! q := lift (MSHRQueue.delay (now E) e (u64 (blkSize C / n * clockPeriod C)) q) in
              let! _ := modify (with_mshrQueue q) in
              ret true
          else
            let! _ := updWriteAllocator WriteAllocator.reset in ret false
        else
          let! _ := updWriteAllocator (WriteAllocator.resetDelay (MSHR.blkAddr m)) in ret false
      else ret false
  end.

(** [BaseCache::sendMSHRQueuePacket]: whether a retry is awaited. *)
Definition sendMSHRQueuePacket (e : nat) : M bool :=
  let! m := getMshr e in
  let! tgt := lift (MSHR.getTarget m) in
  let tgt_pkt := MSHR.pkt tgt in
  let! held := write_hold e m tgt_pkt in
  if held then ret false
  else
  let! b := findBlock (MSHR.blkAddr m) (MSHR.isSecure m) (MSHR.domainID m) in
  let! mp := createMissPacket_v tgt_pkt b (MSHR.needsWritable (MSHR.targets m))
               (MSHR.isWholeLineWrite (MSHR.targets m)) in
  let! _ := putMshr e (MSHR.with_isForward (bool_decide (mp = None)) m) in
  let! p :=
    match mp with
    | Some p => ret p
    | None =>
        let! p := lift (Packet.make_copy tgt_pkt false true) in
        guard! (negb (Packet.isWrite p)) in ret p
    end in
  let p := Packet.pushSenderState (Packet.SS_MSHR (cacheId C) e) p in
  let! dirty := opt_and b (isSetB CacheBlk.DirtyBit) in
  let! p := if Packet.isClean p && dirty then lift (Packet.setSatisfied p) else ret p in
  let '(sent, p) := sendTimingReq E p in
  if negb sent then ret true
  else
    let! _ := emit (SendTimingReq p) in
    let pending_modified_resp := negb (Packet.hasSharers p) && Packet.cacheResponding p in
    let! _ := markInService_mshr e pending_modified_resp in
    let! dirty := opt_and b (isSetB CacheBlk.DirtyBit) in
    match b with
    | Some b =>
        if Packet.isClean p && dirty then
          let! wb := writecleanBlk b (Request.getDest (Packet.req p)) (Packet.id p) in
          let! _ := doWritebacks_v [wb] 0 in
          ret false
        else ret false
    | None => ret false
    end.

Definition sendWriteQueuePacket (e : nat) : M bool :=
  let! w := getWrite e in
  let! tgt := lift (WriteQueueEntry.getTarget w) in
  let '(sent, p) := sendTimingReq E (WriteQueueEntry.pkt tgt) in
  if negb sent then ret true
  else
    let! _ := emit (SendTimingReq p) in
    let! _ := markInService_wb e in
    ret false.

(** [CacheReqPacketQueue::sendDeferredPacket], without a retry outstanding:
    whether one is outstanding afterwards. *)
Variable sendMSHRQueuePacket_v : nat -> M bool.

Definition sendDeferredPacket : M bool :=
  let! entry := getNextQueueEntry in
  let! r :=
    match entry with
    | None => ret (Some false)
    | Some (NextMSHR e) =>
        let! m := getMshr e in
        let! tgt := lift (MSHR.getTarget m) in
        match conflictingSnoop E (MSHR.pkt tgt) with
        | Some when => let! _ := schedMemSideSendEvent when in ret None
        | None => let! b := sendMSHRQueuePacket_v e in ret (Some b)
        end
    | Some (NextWrite e) =>
        let! w := getWrite e in
        let! tgt := lift (WriteQueueEntry.getTarget w) in
        match conflictingSnoop E (WriteQueueEntry.pkt tgt) with
        | Some when => let! _ := schedMemSideSendEvent when in ret None
        | None => let! b := sendWriteQueuePacket e in ret (Some b)
        end
    end in
  match r with
  | None => ret false
  | Some true => ret true
  | Some false =>
      let! next_time := nextQueueReadyTime in
      let! _ := schedMemSideSendEvent next_time in
      ret false
  end.

End sending.

(** ** The CPU-side port, outside cache bypass *)
Section cpu_port.
Variable recvTimingReq_v : Packet.t -> M unit.

Definition port_recvTimingReq (p : Packet.t) : M bool :=
  guard! (Packet.isRequest p) in
  let! ok := tryTiming p in
  if ok then let! _ := recvTimingReq_v p in ret true else ret false.
Definition port_recvSHBinfo (p : Packet.t) : M bool :=
  guard! (Packet.isRequest p) in let! _ := recvSHBinfo p in ret true.
Definition port_recvPfAck (p : Packet.t) : M bool :=
  guard! (Packet.isRequest p) in let! _ := recvPfAck p in ret true.
End cpu_port.

End base_cache.
End BaseCache.
