(* ===== verification/CoherentCache.v ===== *)
(** * Cache

    The coherent cache, [Cache] (src/gem5/src/mem/cache/cache.hh, cache.cc), in
    timing mode: the functions it overrides, closed over those of [BaseCache];
    atomic mode is in [CacheModes]. A request shared by two packets is a value here,
    so the set [outstandingSnoop], which compares request pointers, is kept as the list
    of inserted requests, and [recvTimingSnoopResp] is given the place in that list of
    the pointer it looks for. *)

From S2P Require Import Prelude BaseUtil MemCmd Request Packet CacheBlk ReplPolicy.
From S2P Require Import Indexing Tags Prefetch MSHR Queues CacheState BaseCache.
Local Open Scope Z_scope.

Module Cache.
Import CacheState BaseCache.

Section cache.
Context {T P : Type} `{TagStore T} `{Prefetcher P}.
Variables (C : Config) (E : Env).
Abbreviation M := (CacheState.M T P).

(** [Cache::satisfyRequest]: what the cache above is told about the line. *)
Definition satisfyRequest (p : Packet.t) (b : Blk) (deferred_response pending_downgrade : bool) :
    M Packet.t :=
  let! p := BaseCache.satisfyRequest C E p b in
  if Packet.isRead p && Packet.fromCache p then
    let! n := lift (Packet.getSize p) in
    guard! (n =? blkSize C) in
    let! nw := lift (Packet.needsWritable p) in
    let! x := getB b in
    if nw then
      guard! (Packet.cmd_is p MemCmd.ReadExReq || Packet.cmd_is p MemCmd.SCUpgradeFailReq) in
      guard! (negb (Packet.hasSharers p)) in
      if CacheBlk.isSet CacheBlk.DirtyBit x then
        let! p := lift (Packet.setCacheResponding p) in
        let! _ := clearBits CacheBlk.DirtyBit b in
        ret p
      else ret p
    else if CacheBlk.isSet CacheBlk.WritableBit x && negb pending_downgrade &&
            negb (Packet.hasSharers p) && negb (Packet.cmd_is p MemCmd.ReadCleanReq) then
      if CacheBlk.isSet CacheBlk.DirtyBit x then
        if negb deferred_response then
          let! p := lift (Packet.setCacheResponding p) in
          let! _ := if 1 <? cacheLevel C then clearBits CacheBlk.DirtyBit b else ret tt in
          ret p
        else ret (Packet.setHasSharers p)
      else ret p
    else ret (Packet.setHasSharers p)
  else ret p.

(** ** Evictions *)

Definition cleanEvictBlk (b : Blk) : M Packet.t :=
  guard! (negb (writebackClean C)) in
  let! x := getB b in
  guard! (CacheBlk.isValid x && negb (CacheBlk.isSet CacheBlk.DirtyBit x)) in
  let! r := wb_request C E b x in
  let! p := lift (Packet.make 0 r MemCmd.CleanEvict) in
  lift (Packet.allocate p).

Definition evictBlock (b : Blk) : M (option Packet.t) :=
  let! d := isSetB CacheBlk.DirtyBit b in
  let! p := if d || writebackClean C then writebackBlk C E b else cleanEvictBlk b in
  let! _ := invalidateBlock C E b in
  ret (Some p).

(** The upward snoop that asks whether the block is still cached above. *)
Definition isCachedAbove (p : Packet.t) : M bool :=
  if negb (forwardSnoops C) then ret false
  else
    let! sp := lift (Packet.make_copy p true false) in
    let sp := Packet.setExpressSnoop sp in
    guard! (Packet.isEviction p || Packet.cmd_is p MemCmd.WriteClean) in
    let sp := Packet.with_senderState [] sp in
    let! _ := emit (SendTimingSnoopReq sp) in
    let sp := sendTimingSnoopReq E sp in
    guard! (negb (Packet.cacheResponding sp)) in
    ret (Packet.isBlockCached sp).

Definition doWriteback (forward_time : Z) (p : Packet.t) : M unit :=
  let! above := isCachedAbove p in
  if above then
    if Packet.cmd_is p MemCmd.CleanEvict then ret tt
    else if Packet.cmd_is p MemCmd.WritebackClean then
      guard! (writebackClean C) in ret tt
    else
      guard! (Packet.cmd_is p MemCmd.WritebackDirty || Packet.cmd_is p MemCmd.WriteClean) in
      allocateWriteBuffer C E (Packet.setBlockCached p) forward_time
  else allocateWriteBuffer C E p forward_time.

Definition doWritebacks (writebacks : list Packet.t) (forward_time : Z) : M unit :=
  forM writebacks (doWriteback forward_time).

(** ** Access path *)

Definition access (p : Packet.t) (lat : Z) (writebacks : list Packet.t) : M Outcome :=
  if Request.isUncacheable (Packet.req p) then
    guard! (Packet.isRequest p) in
    guard! (negb (isReadOnly C && Packet.isWrite p)) in
    let! addr := lift (Packet.getAddr p) in
    let! sec := lift (Packet.isSecure p) in
    let! dom := lift (Packet.getDomainID p) in
    let! old := findBlock addr sec dom in
    let! v := opt_and old isValidB in
    let! writebacks :=
      match old with
      | Some b => if v then evictBlock_to evictBlock b writebacks false else ret writebacks
      | None => ret writebacks
      end in
    ret (false, p, None, lookupLatency C, writebacks)
  else BaseCache.access C E evictBlock satisfyRequest p lat writebacks.

(** Cache line clearing instructions; [doFastWrites] is always set. *)
Definition promoteWholeLineWrites (p : Packet.t) : res Packet.t :=
  if Packet.cmd_is p MemCmd.WriteReq then
    let* n := Packet.getSize p in
    let* off := Packet.getOffset (blkSize C) p in
    if (n =? blkSize C) && (off =? 0) && negb (Packet.isMaskedWrite p)
    then Ok (Packet.with_cmd MemCmd.WriteLineReq p)
    else Ok p
  else Ok p.

Definition handleTimingReqHit (p : Packet.t) (request_time : Z) : M unit :=
  guard! (negb (Request.isUncacheable (Packet.req p))) in
  BaseCache.handleTimingReqHit C p request_time.

(** The software prefetch: the core gets its response at once, and a packet of
    its own goes on to the miss handling unless a miss is outstanding. *)
Definition software_prefetch (p : Packet.t) (mshr : option nat) (request_time : Z) :
    M (option Packet.t) :=
  guard! (Packet.needsResponse p) in
  guard! (Request.hasPaddr (Packet.req p)) in
  guard! (negb (Request.isUncacheable (Packet.req p))) in
  let! pf :=
    match mshr with
    | Some _ => ret None
    | None =>
        let! a := lift (Request.getPaddr (Packet.req p)) in
        let! n := lift (Request.getSize (Packet.req p)) in
        let! f := lift (Request.getFlags (Packet.req p)) in
        let! dom := lift (Request.getDomainID (Packet.req p)) in
        let r := Request.setDomainID dom
          (Request.make (now E) a n f (Request.requestorId (Packet.req p))) in
        let! pf := lift (Packet.make 0 r (Packet.cmd p)) in
        let! pf := lift (Packet.allocate pf) in
        let! same := lift (Packet.matchAddr_pkt p pf) in
        guard! same in
        let! n1 := lift (Packet.getSize pf) in
        let! n2 := lift (Packet.getSize p) in
        guard! (n1 =? n2) in
        ret (Some pf)
    end in
  let! p := lift (Packet.makeTimingResponse p) in
  let! _ := emit (SchedTimingResp p request_time) in
  ret pf.

Definition handleTimingReqMiss (p : Packet.t) (b : option Blk) (forward_time request_time : Z) : M unit :=
  if Request.isUncacheable (Packet.req p) then
    let! v := opt_and b isValidB in
    guard! (negb v) in
    if Packet.isWrite p then allocateWriteBuffer C E p forward_time
    else
      guard! (Packet.isRead p) in
      let! _ := allocateMissBuffer C E p forward_time true false in
      ret tt
  else
    let! a := lift (Packet.getBlockAddr (blkSize C) p) in
    let! sec := lift (Packet.isSecure p) in
    let! dom := lift (Packet.getDomainID p) in
    let! mshr := findMshr a sec dom in
    let! p := if MemCmd.isSWPrefetch (Packet.cmd p) then software_prefetch p mshr request_time
              else ret (Some p) in
    BaseCache.handleTimingReqMiss C E p mshr b forward_time.

Definition recvTimingReq (p : Packet.t) : M unit :=
  let! p := lift (promoteWholeLineWrites p) in
  if Packet.cacheResponding p then
    let! nw := lift (Packet.needsWritable p) in
    guard! (nw && negb (Packet.responderHadWritable p)) in
    let! sp := lift (Packet.make_copy p true false) in
    let sp := Packet.with_payloadDelay 0 (Packet.with_headerDelay 0 sp) in
    let! sp := lift (Packet.setCacheResponding (Packet.setExpressSnoop sp)) in
    let! _ := emit (SendTimingReq sp) in
    guard! (fst (sendTimingReq E sp)) in
    ret tt
  else
    BaseCache.recvTimingReq C E access doWritebacks handleTimingReqHit handleTimingReqMiss p.

(** ** Miss path *)

(** [None] when the request goes on as it is. *)
Definition createMissPacket (cpu_pkt : Packet.t) (b : option Blk) (needsWritable is_whole_line_write : bool) :
    M (option Packet.t) :=
  guard! (negb (Packet.isEviction cpu_pkt)) in
  let! blkValid := opt_and b isValidB in
  if Request.isUncacheable (Packet.req cpu_pkt) || (negb blkValid && Packet.isUpgrade cpu_pkt) ||
     Packet.cmd_is cpu_pkt MemCmd.InvalidateReq || Packet.isClean cpu_pkt
  then ret None
  else
    guard! (Packet.needsResponse cpu_pkt) in
    guard! (negb (Packet.cmd_is cpu_pkt MemCmd.WriteLineReq) || is_whole_line_write) in
    let! w := opt_and b (isSetB CacheBlk.WritableBit) in
    let! cmd :=
      if is_whole_line_write then
        guard! (negb blkValid || negb w) in ret MemCmd.InvalidateReq
      else if blkValid then
        guard! needsWritable in
        guard! (negb w) in
        ret (if Packet.isLLSC cpu_pkt then MemCmd.SCUpgradeReq else MemCmd.UpgradeReq)
      else if Packet.cmd_is cpu_pkt MemCmd.SCUpgradeFailReq || Packet.cmd_is cpu_pkt MemCmd.StoreCondFailReq
      then ret MemCmd.SCUpgradeFailReq
      else
        let force_clean_rsp := isReadOnly C || bool_decide (clusivity C = mostly_excl) in
        ret (if needsWritable then MemCmd.ReadExReq
             else if force_clean_rsp then MemCmd.ReadCleanReq else MemCmd.ReadSharedReq) in
    let p := Packet.make_blk 0 (Packet.req cpu_pkt) cmd (blkSize C) in
    let p := if Packet.hasSharers cpu_pkt && negb needsWritable then Packet.setHasSharers p else p in
    let! a := lift (Packet.getAddr p) in
    let! ba := lift (Packet.getBlockAddr (blkSize C) p) in
    guard! (a =? ba) in
    let! p := lift (Packet.allocate p) in
    ret (Some p).

(** A prefetch that is cached above gives up its target, which may free the
    MSHR and unblock the cache. *)
Definition drop_prefetch (e : nat) : M unit :=
  let! q := gets mshrQueue in
  let! (freed, q) := lift (MSHRQueue.forceDeallocateTarget (now E) e q) in
  let! _ := modify (with_mshrQueue q) in
  if freed then clearBlocked E Blocked_NoMSHRs else ret tt.

(** [Cache::sendMSHRQueuePacket]: a prefetch first asks the caches above. *)
Definition sendMSHRQueuePacket (e : nat) : M bool :=
  let! m := getMshr e in
  let! tgt := lift (MSHR.getTarget m) in
  let tgt_pkt := MSHR.pkt tgt in
  let! done :=
    if Packet.cmd_is tgt_pkt MemCmd.HardPFReq && forwardSnoops C then
      let! b := findBlock (MSHR.blkAddr m) (MSHR.isSecure m) (MSHR.domainID m) in
      guard! (bool_decide (b = None)) in
      let! sp := lift (Packet.make_copy tgt_pkt true false) in
      let sp := Packet.with_senderState [Packet.SS_MSHR (cacheId C) e] (Packet.setExpressSnoop sp) in
      let! _ := emit (SendTimingSnoopReq sp) in
      let sp := sendTimingSnoopReq E sp in
      if Packet.cacheResponding sp then
        let! _ := modify (fun s => with_outstandingSnoop (outstandingSnoop s ++ [Packet.req sp]) s) in
        let! _ := markInService_mshr E e (negb (Packet.hasSharers sp)) in
        ret true
      else if Packet.isBlockCached sp then
        let! _ := drop_prefetch e in
        ret true
      else ret false
    else ret false in
  if done then ret false
  else BaseCache.sendMSHRQueuePacket C E createMissPacket doWritebacks e.

Definition sendDeferredPacket : M bool := BaseCache.sendDeferredPacket C E sendMSHRQueuePacket.

(** ** Snoops *)

Definition doTimingSupplyResponse (req_pkt : Packet.t) (blk_data : list Z)
    (already_copied pending_inval : bool) : M unit :=
  guard! (Packet.isRequest req_pkt) in
  guard! (Packet.needsResponse req_pkt) in
  let! p := if already_copied then ret req_pkt
            else lift (Packet.make_copy req_pkt false (Packet.isRead req_pkt)) in
  guard! (Request.isUncacheable (Packet.req req_pkt) || Packet.isInvalidate req_pkt || Packet.hasSharers p) in
  let! p := lift (Packet.makeTimingResponse p) in
  let! p := if Packet.isRead p then lift (Packet.setDataFromBlock blk_data (blkSize C) p) else ret p in
  let p := if Packet.cmd_is p MemCmd.ReadResp && pending_inval
           then Packet.with_cmd MemCmd.ReadRespWithInvalidate p else p in
  let forward_time := u64 (clockEdge C E (forwardLatency C) + Packet.headerDelay p) in
  emit (SchedTimingSnoopResp (Packet.with_payloadDelay 0 (Packet.with_headerDelay 0 p)) forward_time).

(** The snoop handed on to the caches above, and what comes back. *)
Definition forward_snoop (p : Packet.t) : M (Z * Packet.t) :=
  if forwardSnoops C then
    let! sp := lift (Packet.make_copy p true true) in
    let sp := Packet.with_payloadDelay 0 (Packet.with_headerDelay 0 (Packet.setExpressSnoop sp)) in
    let! _ := emit (SendTimingSnoopReq sp) in
    let sp := sendTimingSnoopReq E sp in
    let p := if Packet.isBlockCached sp then Packet.setBlockCached p else p in
    let! p := if Packet.satisfied sp then lift (Packet.setSatisfied p) else ret p in
    let! p := lift (Packet.copyResponderFlags p sp) in
    ret (Packet.headerDelay sp, p)
  else ret (0, p).

(** The part of [handleSnoop] after the block has been looked at. *)
Definition snoop_block (p : Packet.t) (b : option Blk)
    (blk_valid invalidate needs_writable respond is_deferred pending_inval : bool) : M Packet.t :=
  let! p :=
    if Packet.isRead p && negb invalidate then
      guard! (negb needs_writable) in
      let p := Packet.setHasSharers p in
      if Request.isUncacheable (Packet.req p) then ret p
      else match b with
           | Some b => let! _ := clearBits CacheBlk.WritableBit b in ret p
           | None => fail Undefined
           end
    else ret p in
  let! p :=
    if respond then
      match b with
      | None => fail Undefined
      | Some b =>
          let! p := lift (Packet.setCacheResponding p) in
          let! x := getB b in
          let! p :=
            if negb (Packet.isClean p) && CacheBlk.isSet CacheBlk.WritableBit x
            then lift (Packet.setResponderHadWritable p) else ret p in
          stop_if! (negb invalidate && negb (Packet.hasSharers p)) in
          let! _ := doTimingSupplyResponse p (CacheBlk.data x) is_deferred pending_inval in
          ret p
      end
    else ret p in
  guard! (respond || negb is_deferred || Packet.needsResponse p) in
  match b with
  | Some b => if blk_valid && invalidate then let! _ := invalidateBlock C E b in ret p else ret p
  | None => ret p
  end.

(** [Cache::handleSnoop] with [is_timing]: the snoop delay and the packet. *)
Definition handleSnoop (p : Packet.t) (b : option Blk) (is_deferred pending_inval : bool) :
    M (Z * Packet.t) :=
  guard! (negb (pending_inval && negb is_deferred)) in
  guard! (Packet.isRequest p) in
  let invalidate := Packet.isInvalidate p in
  let! needs_writable := lift (Packet.needsWritable p) in
  stop_if! (invalidate && Request.isUncacheable (Packet.req p)) in
  let! (snoop_delay, p) := forward_snoop p in
  let! blk_valid := opt_and b isValidB in
  let! dirty := opt_and b (isSetB CacheBlk.DirtyBit) in
  if negb (Packet.isClean p) && negb blk_valid then
    guard! (negb is_deferred || (Packet.needsResponse p && Packet.cacheResponding p)) in
    ret (snoop_delay, p)
  else
    let! p :=
      if Packet.isClean p then
        match b with
        | Some b =>
            if blk_valid && dirty then
              let! wb := writecleanBlk C E b (Request.getDest (Packet.req p)) (Packet.id p) in
              let! _ := doWritebacks [wb]
                (u64 (clockEdge C E (forwardLatency C) + Packet.headerDelay p)) in
              lift (Packet.setSatisfied p)
            else ret p
        | None => ret p
        end
      else ret p in
    let respond := negb (Packet.isClean p) && dirty && Packet.needsResponse p in
    guard! (Packet.isClean p || negb (isReadOnly C && dirty)) in
    if Packet.mustCheckAbove p then ret (snoop_delay, Packet.setBlockCached p)
    else
      let! p := snoop_block p b blk_valid invalidate needs_writable respond is_deferred pending_inval in
      ret (snoop_delay, p).

(** A snoop that hits in the write buffer. [None] ends the snoop. *)
Definition snoop_write (p : Packet.t) (i : nat) : M (bool * Packet.t) :=
  let! w := getWrite i in
  guard! (negb (WriteQueueEntry._isUncacheable w)) in
  guard! (WriteQueueEntry.getNumTargets w =? 1)%nat in
  let! tg := lift (WriteQueueEntry.getTarget w) in
  let wb_pkt := WriteQueueEntry.pkt tg in
  guard! (Packet.isEviction wb_pkt || Packet.cmd_is wb_pkt MemCmd.WriteClean) in
  if Packet.isEviction p then ret (true, Packet.setBlockCached p)
  else
    let respond := Packet.cmd_is wb_pkt MemCmd.WritebackDirty && Packet.needsResponse p in
    let have_writable := negb (Packet.hasSharers wb_pkt) in
    let invalidate := Packet.isInvalidate p in
    let share := negb (Request.isUncacheable (Packet.req p)) && Packet.isRead p && negb invalidate in
    let! nw := if share then lift (Packet.needsWritable p) else ret false in
    guard! (negb nw) in
    let p := if share then Packet.setHasSharers p else p in
    let! _ :=
      if share then putWrite i (WriteQueueEntry.with_targets
        [WriteQueueEntry.mkTarget (WriteQueueEntry.recvTime tg) (WriteQueueEntry.t_readyTime tg)
           (WriteQueueEntry.t_order tg) (Packet.setHasSharers wb_pkt)] w)
      else ret tt in
    let! p :=
      if respond then
        let! p := lift (Packet.setCacheResponding p) in
        let! p := if have_writable then lift (Packet.setResponderHadWritable p) else ret p in
        let! d := lift (Packet.getConstPtr wb_pkt) in
        let! _ := doTimingSupplyResponse p d false false in
        ret p
      else ret p in
    let! _ := if invalidate && negb (Packet.cmd_is wb_pkt MemCmd.WriteClean)
              then markInService_wb E i else ret tt in
    ret (false, p).

Definition recvTimingSnoopReq (p : Packet.t) : M Packet.t :=
  let! addr := lift (Packet.getAddr p) in
  if negb (inRange C addr) then ret p
  else
    let! sec := lift (Packet.isSecure p) in
    let! dom := lift (Packet.getDomainID p) in
    let! b := findBlock addr sec dom in
    let! ba := lift (Packet.getBlockAddr (blkSize C) p) in
    let! mshr := findMshr ba sec dom in
    let own_delay := u32 (lookupLatency C * clockPeriod C) in
    let p := Packet.with_snoopDelay (Z.max (Packet.snoopDelay p) own_delay) p in
    let! (deferred, p) :=
      match mshr with
      | None => ret (false, p)
      | Some e =>
          if Packet.mustCheckAbove p then ret (true, Packet.setBlockCached p)
          else
            let! o := next_order in
            let! m := getMshr e in
            let! (d, p, m, up) := lift (MSHR.handleSnoop (now E) p o m) in
            let! _ := putMshr e m in
            let! _ := upstream up in
            ret (d, p)
      end in
    if deferred then ret p
    else
      let! w := findWrite ba sec dom in
      let! (ended, p) := match w with Some i => snoop_write p i | None => ret (false, p) end in
      if ended then ret p
      else
        let! (snoop_delay, p) := handleSnoop p b false false in
        ret (Packet.with_snoopDelay
               (Z.max (Packet.snoopDelay p) (u32 (snoop_delay + lookupLatency C * clockPeriod C))) p).

(** ** Responses *)

(** What a serviced target needs to know of the MSHR and the response. *)
Record Service := mkService {
  sv_pkt : Packet.t;
  sv_blk : option Blk;
  sv_isForward : bool;
  sv_initial_offset : Z;
  sv_is_error : bool;
  sv_is_invalidate : bool
}.

(** [completion_time += clockEdge(responseLatency) + delay] *)
Definition completion (S : Service) (delay : Z) : Z :=
  u64 (Packet.headerDelay (sv_pkt S) + clockEdge C E (responseLatency C) + delay).

(** A target satisfied from the block. *)
Definition service_from_block (S : Service) (e : nat) (b : Blk) (tgt : Packet.t) : M (Packet.t * Z) :=
  let! m := getMshr e in
  let! pd := lift (MSHR.hasPostDowngrade m) in
  let! tgt := satisfyRequest tgt b true pd in
  let tgt := if Packet.isNoFillLower (sv_pkt S) then Packet.setNoFillLower tgt else tgt in
  let! off := lift (Packet.getOffset (blkSize C) tgt) in
  let transfer_offset := off - sv_initial_offset S in
  let transfer_offset := if transfer_offset <? 0 then transfer_offset + blkSize C else transfer_offset in
  guard! (negb (Request.isUncacheable (Packet.req tgt))) in
  guard! (knownRequestor C tgt) in
  ret (tgt, completion S (if truthy transfer_offset then Packet.payloadDelay (sv_pkt S) else 0)).

(** A target satisfied from the response itself. *)
Definition service_forward (S : Service) (tgt : Packet.t) : M (Packet.t * Z) :=
  let p := sv_pkt S in
  let! v := opt_and (sv_blk S) isValidB in
  let! _ := match sv_blk S with
            | Some b => if sv_is_invalidate S && v then invalidateBlock C E b else ret tt
            | None => ret tt
            end in
  let! tgt :=
    if sv_is_error S then ret tgt
    else if Packet.isRead p then
      let! same := lift (Packet.matchAddr_pkt tgt p) in
      guard! same in
      let! n := lift (Packet.getSize p) in
      let! k := lift (Packet.getSize tgt) in
      guard! (k <=? n) in
      let! d := lift (Packet.getConstPtr p) in
      lift (Packet.setData d tgt)
    else guard! (negb (Packet.hasRespData tgt)) in ret tgt in
  let! tgt := lift (Packet.copyResponderFlags tgt p) in
  ret (tgt, completion S (Packet.payloadDelay p)).

(** A target that came from the CPU side. *)
Definition service_cpu (S : Service) (e : nat) (tgt : Packet.t) : M unit :=
  let p := sv_pkt S in
  let b := sv_blk S in
  if Packet.cmd_is tgt MemCmd.HardPFReq then
    guard! (0 <? cacheLevel C) in ret tt
  else if MemCmd.isSWPrefetch (Packet.cmd tgt) then
    let! nw := lift (Packet.needsWritable tgt) in
    if nw then
      match b with
      | None => fail AssertFail
      | Some b =>
          let! _ := setBits CacheBlk.DirtyBit b in
          stop_if! (isReadOnly C) in ret tt
      end
    else ret tt
  else
    let! w := opt_and b (isSetB CacheBlk.WritableBit) in
    guard! (negb (Packet.cmd_is tgt MemCmd.WriteLineReq) || (negb (sv_is_error S) && w)) in
    let! v := opt_and b isValidB in
    let! (tgt, completion_time) :=
      match (if v && (negb (sv_isForward S) || negb (Packet.hasData p)) then b else None) with
      | Some blk => service_from_block S e blk tgt
      | None =>
          if Packet.cmd_is p MemCmd.UpgradeFailResp then
            guard! (Packet.cmd_is tgt MemCmd.StoreCondReq || Packet.cmd_is tgt MemCmd.StoreCondFailReq ||
                    Packet.cmd_is tgt MemCmd.SCUpgradeFailReq) in
            ret (Packet.with_req (Request.setExtraData 0 (Packet.req tgt)) tgt,
                 completion S (Packet.payloadDelay p))
          else service_forward S tgt
      end in
    let! tgt := lift (Packet.makeTimingResponse tgt) in
    let! tgt := if sv_is_error S then lift (Packet.copyError p tgt) else ret tgt in
    let! tgt :=
      if Packet.cmd_is tgt MemCmd.ReadResp then
        let! inval :=
          if sv_is_invalidate S then ret true
          else let! m := getMshr e in lift (MSHR.hasPostInvalidate m) in
        ret (if inval then Packet.with_cmd MemCmd.ReadRespWithInvalidate tgt else tgt)
      else ret tgt in
    emit (SchedTimingResp (Packet.with_payloadDelay 0 (Packet.with_headerDelay 0 tgt)) completion_time).

Definition service_target (S : Service) (e : nat) (x : MSHR.Target) : M unit :=
  match MSHR.source x with
  | MSHR.FromCPU => service_cpu S e (MSHR.pkt x)
  | MSHR.FromPrefetcher =>
      guard! (Packet.cmd_is (MSHR.pkt x) MemCmd.HardPFReq) in
      match sv_blk S with
      | Some b => updB (fun k => Ok (CacheBlk.with_prefetched true k)) b
      | None => ret tt
      end
  | MSHR.FromSnoop =>
      guard! (negb (sv_is_error S)) in
      let! m := getMshr e in
      let! pi := lift (MSHR.hasPostInvalidate m) in
      guard! (negb (sv_is_invalidate S) || Packet.cmd_is (sv_pkt S) MemCmd.InvalidateResp ||
              Request.isCacheMaintenance (Packet.req (sv_pkt S)) || pi) in
      let! _ := handleSnoop (MSHR.pkt x) (sv_blk S) true pi in
      ret tt
  end.

Definition serviceMSHRTargets (e : nat) (p : Packet.t) (b : option Blk) : M unit :=
  let! m := getMshr e in
  let! initial_tgt := lift (MSHR.getTarget m) in
  let! initial_offset := lift (Packet.getOffset (blkSize C) (MSHR.pkt initial_tgt)) in
  let is_invalidate := Packet.isInvalidate p && negb (MSHR.wasWholeLineWrite m) in
  let S := mkService p b (MSHR.isForward m) initial_offset (Packet.isError p) is_invalidate in
  let! (targets, m) := lift (MSHR.extractServiceableTargets p m) in
  let! _ := putMshr e m in
  let! _ := forM (MSHR.tgts targets) (service_target S e) in
  let! _ := maintainClusivity C E (MSHR.hasFromCache targets) b in
  match b with
  | None => ret tt
  | Some b =>
      let! v := isValidB b in
      if v then
        let! m := getMshr e in
        let! inval := if is_invalidate then ret true else lift (MSHR.hasPostInvalidate m) in
        if inval then invalidateBlock C E b
        else
          let! pd := lift (MSHR.hasPostDowngrade m) in
          if pd then clearBits CacheBlk.WritableBit b else ret tt
      else ret tt
  end.

Definition recvTimingResp (p : Packet.t) : M unit :=
  BaseCache.recvTimingResp C E evictBlock doWritebacks serviceMSHRTargets p.

(** [own] is the place of [pkt->req] in [outstandingSnoop], if it is there. *)
Definition recvTimingSnoopResp (own : option nat) (p : Packet.t) : M unit :=
  match own with
  | Some i =>
      guard! (Packet.cmd_is p MemCmd.HardPFResp) in
      let! _ := modify (fun s => with_outstandingSnoop (remove_at i (outstandingSnoop s)) s) in
      recvTimingResp p
  | None =>
      let snoop_resp_time := u64 (clockEdge C E (forwardLatency C) + Packet.headerDelay p) in
      emit (SchedTimingSnoopResp (Packet.with_payloadDelay 0 (Packet.with_headerDelay 0 p)) snoop_resp_time)
  end.

(** The CPU-side port of a coherent cache. *)
Definition port_recvTimingReq (p : Packet.t) : M bool := BaseCache.port_recvTimingReq recvTimingReq p.

End cache.
End Cache.
