(* ===== verification/CacheModes.v ===== *)
(** * Atomic and functional access: mem/cache/base.cc, cache.cc

    The accesses outside timing mode. An atomic access runs to its end in one call,
    the memory below answering at once; a functional access reads or writes the data
    wherever they are without changing the state of the system otherwise; writing
    back and invalidating the whole cache go through functional writes. *)

From S2P Require Import Prelude BaseUtil MemCmd Request Packet CacheBlk ReplPolicy.
From S2P Require Import Indexing Tags Prefetch MSHR Queues CacheState BaseCache CoherentCache.
Local Open Scope Z_scope.

Import CacheState BaseCache.

(** The components around the cache. What an atomic access is answered may depend on
    everything the cache has sent before; [cpuSatisfy] and [memSatisfy] are the packets
    waiting in the queues of the two ports. *)
Record Peers := mkPeers {
  sendAtomic : list Action -> Packet.t -> Z * Packet.t;
  sendAtomicSnoop : list Action -> Packet.t -> Packet.t;
  cpuSatisfy : Packet.t -> bool * Packet.t;
  memSatisfy : Packet.t -> bool * Packet.t;
  sendFunctional : Packet.t -> Packet.t;
  sendFunctionalSnoop : Packet.t -> Packet.t
}.

(** The number of blocks [forEachBlk] and [anyBlk] visit. *)
Class BlockVisitor (T : Type) := { bv_count : T -> nat }.

#[global] Instance set_assoc_visitor {I R} : BlockVisitor (SetAssocTags I R) :=
  {| bv_count s := length (BaseTags.blks (sa_tags s)) |}.
#[global] Instance rand_visitor {I R} : BlockVisitor (RandTags I R) :=
  {| bv_count s := length (BaseTags.blks (nr_tags s)) |}.

(** ** BaseCache *)
Module BaseModes.

Section base.
Context {T P : Type} `{TagStore T} `{Prefetcher P}.
Variables (C : Config) (E : Env) (N : Peers).
Abbreviation M := (CacheState.M T P).

(** [memSidePort.sendAtomic] *)
Definition port_sendAtomic (p : Packet.t) : M (Z * Packet.t) :=
  let! sent := gets out in
  let! _ := emit (SendAtomic p) in
  ret (sendAtomic N sent p).

(** [cpuSidePort.sendAtomicSnoop] *)
Definition port_sendAtomicSnoop (p : Packet.t) : M Packet.t :=
  let! sent := gets out in
  let! _ := emit (SendAtomicSnoop p) in
  ret (sendAtomicSnoop N sent p).

Section atomic.
Variable access_v : Packet.t -> Z -> list Packet.t -> M Outcome.
Variable doWritebacksAtomic_v : list Packet.t -> M unit.
Variable handleAtomicReqMiss_v : Packet.t -> option Blk -> M (Z * Packet.t * option Blk * list Packet.t).

(** [BaseCache::recvAtomic]. The write-back of the temporary block that follows the
    panic is never reached. *)
Definition recvAtomic (p : Packet.t) : M (Z * Packet.t) :=
  let! (satisfied, p, b, lat, writebacks) := access_v p (lookupLatency C) [] in
  let! dirty := opt_and b (isSetB CacheBlk.DirtyBit) in
  let! (p, writebacks) :=
    match b with
    | Some blk =>
        if Packet.isClean p && dirty then
          let! wb := writecleanBlk C E blk (Request.getDest (Packet.req p)) (Packet.id p) in
          let! p := lift (Packet.setSatisfied p) in
          ret (p, writebacks ++ [wb])
        else ret (p, writebacks)
    | None => ret (p, writebacks)
    end in
  let! _ := doWritebacksAtomic_v writebacks in
  let! (lat, p, b, writebacks) :=
    if satisfied then ret (lat, p, b, [])
    else
      let! (n, p, b, writebacks) := handleAtomicReqMiss_v p b in
      ret (u64 (lat + n), p, b, writebacks) in
  let! _ := doWritebacksAtomic_v writebacks in
  let! temp := gets (fun s => CacheBlk.isValid (TempCacheBlk.blk (tempBlock s))) in
  stop_if! (bool_decide (b = Some Temp) && temp) in
  let! p := if Packet.needsResponse p then lift (Packet.makeAtomicResponse p) else ret p in
  ret (u64 (lat * clockPeriod C), p).
End atomic.

(** ** Functional access *)

(** The data of the block, when there is a valid one: whether they complete the
    request, and the packet. A write goes to the block. *)
Definition satisfy_from_block (b : option Blk) (a : Z) (sec : bool) (p : Packet.t) : M (bool * Packet.t) :=
  let! v := opt_and b isValidB in
  match b with
  | Some b =>
      if v then
        let! x := getB b in
        let! (ok, p', d) := lift (Packet.trySatisfyFunctional_data a sec (blkSize C) (Some (CacheBlk.data x)) p) in
        let! _ := match d with
                  | Some d => if Packet.isRead p then ret tt else updB (fun k => Ok (CacheBlk.with_data d k)) b
                  | None => ret tt
                  end in
        ret (ok, p')
      else ret (false, p)
  | None => ret (false, p)
  end.

Definition satisfy_from_mshrs (p : Packet.t) : M (bool * Packet.t) :=
  let! q := gets mshrQueue in
  let! (ok, p, l) := lift (Queue.trySatisfyFunctional p (MSHRQueue.queue q)) in
  let! _ := modify (with_mshrQueue (MSHRQueue.mk l (MSHRQueue.demandReserve q))) in
  ret (ok, p).

Definition satisfy_from_writes (p : Packet.t) : M (bool * Packet.t) :=
  let! q := gets writeBuffer in
  let! (ok, p, q) := lift (Queue.trySatisfyFunctional p q) in
  let! _ := modify (with_writeBuffer q) in
  ret (ok, p).

(** [a || b] on tests that may change the packet. *)
Definition or_else (x : bool * Packet.t) (k : Packet.t -> M (bool * Packet.t)) : M (bool * Packet.t) :=
  if x.1 then ret x else k x.2.

(** Whether the data found are the newest: the block is dirty, or a modified line is on
    its way. *)
Definition have_dirty (have_data : bool) (b : option Blk) (mshr : option nat) : M bool :=
  if have_data then
    let! dirty := opt_and b (isSetB CacheBlk.DirtyBit) in
    if dirty then ret true
    else match mshr with
         | None => ret false
         | Some e => let! m := getMshr e in
                     if MSHR.inService m then lift (MSHR.isPendingModified m) else ret false
         end
  else ret false.

(** The rest of the search: the queue of the CPU-side port, the MSHRs, the write
    buffer, and the queue of the memory-side port. *)
Definition search_queues (x : bool * Packet.t) : M (bool * Packet.t) :=
  let! x := or_else x (fun p => ret (cpuSatisfy N p)) in
  let! x := or_else x satisfy_from_mshrs in
  let! x := or_else x satisfy_from_writes in
  or_else x (fun p => ret (memSatisfy N p)).

(** [BaseCache::functionalAccess] *)
Definition functionalAccess (p : Packet.t) (from_cpu_side : bool) : M Packet.t :=
  let! blk_addr := lift (Packet.getBlockAddr (blkSize C) p) in
  let! is_secure := lift (Packet.isSecure p) in
  let! addr := lift (Packet.getAddr p) in
  let! dom := lift (Packet.getDomainID p) in
  let! b := findBlock addr is_secure dom in
  let! mshr := findMshr blk_addr is_secure dom in
  let! (have_data, p) := satisfy_from_block b blk_addr is_secure p in
  let! dirty := have_dirty have_data b mshr in
  let! (done, p) := search_queues (dirty, p) in
  if (done : bool) then lift (Packet.makeResponse p)
  else if from_cpu_side then
    let! _ := emit (SendFunctional p) in ret (sendFunctional N p)
  else if forwardSnoops C then
    let! _ := emit (SendFunctionalSnoop p) in ret (sendFunctionalSnoop N p)
  else ret p.

(** ** Writing back and invalidating the whole cache *)

Definition writebackVisitor (e : nat) : M unit :=
  let b := InTags e in
  let! x := getB b in
  if CacheBlk.isSet CacheBlk.DirtyBit x then
    guard! (CacheBlk.isValid x) in
    let! a := regenerateBlkAddr b in
    let r := Request.make (now E) a (blkSize C) 0 Request.funcRequestorId in
    let r := Request.setDomainID (CacheBlk.getDomainID x) r in
    let r := Request.with_taskId (CacheBlk._taskId x) r in
    let! r := lift (if CacheBlk.isSecure x then Request.setFlags Request.SECURE r else Ok r) in
    let! p := lift (Packet.make 0 r MemCmd.WriteReq) in
    let! p := lift (Packet.dataStatic (CacheBlk.data x) p) in
    let! _ := emit (SendFunctional p) in
    clearBits CacheBlk.DirtyBit b
  else ret tt.

Definition invalidateVisitor (e : nat) : M unit :=
  let b := InTags e in
  let! x := getB b in
  if CacheBlk.isValid x then
    guard! (negb (CacheBlk.isSet CacheBlk.DirtyBit x)) in
    invalidateBlock C E b
  else ret tt.

Context `{!BlockVisitor T}.

(** [tags->forEachBlk] *)
Definition forEachBlk (visit : nat -> M unit) : M unit :=
  let! n := gets (fun s => bv_count (tags s)) in forM (seq 0 n) visit.

Definition memWriteback : M unit := forEachBlk writebackVisitor.
Definition memInvalidate : M unit := forEachBlk invalidateVisitor.

Fixpoint any_dirty (l : list nat) : M bool :=
  match l with
  | [] => ret false
  | e :: l => let! d := isSetB CacheBlk.DirtyBit (InTags e) in if d then ret true else any_dirty l
  end.
Definition isDirty : M bool := let! n := gets (fun s => bv_count (tags s)) in any_dirty (seq 0 n).

End base.
End BaseModes.

(** ** Cache *)
Module CacheAtomic.
Import BaseModes.

Section cache.
Context {T P : Type} `{TagStore T} `{Prefetcher P}.
Variables (C : Config) (E : Env) (N : Peers).
Abbreviation M := (CacheState.M T P).

(** [isCachedAbove(pkt, false)]: the snoop is made with the packet itself. *)
Definition isCachedAbove (p : Packet.t) : M (bool * Packet.t) :=
  if negb (forwardSnoops C) then ret (false, p)
  else let! p := port_sendAtomicSnoop N p in ret (Packet.isBlockCached p, p).

Definition doWritebackAtomic (p : Packet.t) : M unit :=
  let! (above, p) := isCachedAbove p in
  if negb above || Packet.cmd_is p MemCmd.WritebackDirty || Packet.cmd_is p MemCmd.WriteClean
  then let! _ := port_sendAtomic N p in ret tt
  else ret tt.

Definition doWritebacksAtomic (writebacks : list Packet.t) : M unit := forM writebacks doWritebackAtomic.

(** What [handleAtomicReqMiss] does with the answer [bus_pkt] to a packet of its own.
    The last component is [is_invalidate]. *)
Definition atomic_response (p bus_pkt : Packet.t) (b : option Blk)
    : M (Packet.t * option Blk * list Packet.t * bool) :=
  let is_invalidate := Packet.isInvalidate bus_pkt in
  if Packet.needsResponse p then
    guard! (Packet.isResponse bus_pkt) in
    if Packet.isError bus_pkt then
      let! p := lift (Packet.makeAtomicResponse p) in
      let! p := lift (Packet.copyError bus_pkt p) in
      ret (p, b, [], is_invalidate)
    else
      let! whole := lift (Packet.isWholeLineWrite (blkSize C) p) in
      if whole then
        let! wa := gets writeAllocator in
        let allocate := allocOnFill C (Packet.cmd p)
                        && match wa with Some w => WriteAllocator.allocate w | None => true end in
        let! (_, blk, writebacks) := handleFill C E (Cache.evictBlock C E) bus_pkt b [] allocate in
        let! p := Cache.satisfyRequest C E p blk false false in
        ret (p, Some blk, writebacks, false)
      else if Packet.isRead bus_pkt || Packet.cmd_is bus_pkt MemCmd.UpgradeResp then
        let! (_, blk, writebacks) :=
          handleFill C E (Cache.evictBlock C E) bus_pkt b [] (allocOnFill C (Packet.cmd p)) in
        let! p := Cache.satisfyRequest C E p blk false false in
        let! _ := maintainClusivity C E (Packet.fromCache p) (Some blk) in
        ret (p, Some blk, writebacks, is_invalidate)
      else
        let! p := lift (Packet.makeAtomicResponse p) in
        ret (p, b, [], is_invalidate)
  else ret (p, b, [], is_invalidate).

(** [Cache::handleAtomicReqMiss] *)
Definition handleAtomicReqMiss (p : Packet.t) (b : option Blk)
    : M (Z * Packet.t * option Blk * list Packet.t) :=
  let uncacheable_write := Request.isUncacheable (Packet.req p) && Packet.isWrite p in
  if Packet.isEviction p || Packet.cmd_is p MemCmd.WriteClean || uncacheable_write then
    let! (ticks, p) := port_sendAtomic N p in
    guard! (negb (Request.isUncacheable (Packet.req p) && Packet.isWrite p) || Packet.isResponse p) in
    ret (ticksToCycles C ticks, p, b, [])
  else
    let! nw := lift (Packet.needsWritable p) in
    let! whole := lift (Packet.isWholeLineWrite (blkSize C) p) in
    let! mp := Cache.createMissPacket C p b nw whole in
    let! (ticks, bus_pkt) := port_sendAtomic N (default p mp) in
    let! (p, b, writebacks, is_invalidate) :=
      match mp with
      | None => ret (bus_pkt, b, [], Packet.isInvalidate bus_pkt)
      | Some _ => atomic_response p bus_pkt b
      end in
    let! v := opt_and b isValidB in
    let! _ := match b with
              | Some b => if is_invalidate && v then invalidateBlock C E b else ret tt
              | None => ret tt
              end in
    ret (ticksToCycles C ticks, p, b, writebacks).

(** [Cache::recvAtomic]: the latency in ticks and the packet. *)
Definition recvAtomic (p : Packet.t) : M (Z * Packet.t) :=
  let! p := lift (Cache.promoteWholeLineWrites C p) in
  if Packet.cacheResponding p then
    guard! (negb (Request.isCacheInvalidate (Packet.req p))) in
    let! nw := lift (Packet.needsWritable p) in
    guard! (nw && negb (Packet.responderHadWritable p)) in
    port_sendAtomic N p
  else
    BaseModes.recvAtomic C E (Cache.access C E) doWritebacksAtomic handleAtomicReqMiss p.

(** ** Snoops *)

(** The part of [handleSnoop] after the block has been looked at. *)
Definition snoop_block (p : Packet.t) (b : option Blk) (blk_valid invalidate needs_writable respond : bool)
    : M Packet.t :=
  let! p :=
    if Packet.isRead p && negb invalidate then
      guard! (negb needs_writable) in
      let p := Packet.setHasSharers p in
      if Request.isUncacheable (Packet.req p) then ret p
      else match b with
           | Some b => let! _ := clearBits CacheBlk.WritableBit b in ret p
           | None => fail Undefined
           end
    else ret p in
  let! p :=
    if respond then
      match b with
      | None => fail Undefined
      | Some b =>
          let! p := lift (Packet.setCacheResponding p) in
          let! x := getB b in
          let! p :=
            if negb (Packet.isClean p) && CacheBlk.isSet CacheBlk.WritableBit x
            then lift (Packet.setResponderHadWritable p) else ret p in
          stop_if! (negb invalidate && negb (Packet.hasSharers p)) in
          let! p := lift (Packet.makeAtomicResponse p) in
          if Packet.hasData p then lift (Packet.setDataFromBlock (CacheBlk.data x) (blkSize C) p) else ret p
      end
    else ret p in
  match b with
  | Some b => if blk_valid && invalidate then let! _ := invalidateBlock C E b in ret p else ret p
  | None => ret p
  end.

(** [handleSnoop(pkt, blk, false, false, false)]; the delay of an atomic snoop is 0. *)
Definition handleSnoop (p : Packet.t) (b : option Blk) : M Packet.t :=
  guard! (Packet.isRequest p) in
  let invalidate := Packet.isInvalidate p in
  let! needs_writable := lift (Packet.needsWritable p) in
  stop_if! (invalidate && Request.isUncacheable (Packet.req p)) in
  let! p :=
    if forwardSnoops C then
      let already_responded := Packet.cacheResponding p in
      let! p := port_sendAtomicSnoop N p in
      guard! (already_responded || negb (Packet.cacheResponding p) || Packet.isResponse p) in
      ret p
    else ret p in
  let! blk_valid := opt_and b isValidB in
  let! dirty := opt_and b (isSetB CacheBlk.DirtyBit) in
  if negb (Packet.isClean p) && negb blk_valid then ret p
  else
    let! p :=
      if Packet.isClean p then
        match b with
        | Some b =>
            if blk_valid && dirty then
              let! wb := writecleanBlk C E b (Request.getDest (Packet.req p)) (Packet.id p) in
              let! _ := doWritebacksAtomic [wb] in
              lift (Packet.setSatisfied p)
            else ret p
        | None => ret p
        end
      else ret p in
    let respond := negb (Packet.isClean p) && dirty && Packet.needsResponse p in
    guard! (Packet.isClean p || negb (isReadOnly C && dirty)) in
    if Packet.mustCheckAbove p then ret (Packet.setBlockCached p)
    else snoop_block p b blk_valid invalidate needs_writable respond.

(** [Cache::recvAtomicSnoop] *)
Definition recvAtomicSnoop (p : Packet.t) : M (Z * Packet.t) :=
  let! addr := lift (Packet.getAddr p) in
  if negb (inRange C addr) then ret (0, p)
  else
    let! sec := lift (Packet.isSecure p) in
    let! dom := lift (Packet.getDomainID p) in
    let! b := findBlock addr sec dom in
    let! p := handleSnoop p b in
    ret (u64 (lookupLatency C * clockPeriod C), p).

End cache.
End CacheAtomic.
