(* ===== verification/CacheLogic.v ===== *)
(** * A logic for the member functions of the cache

    [within R m] says that every run of [m] that completes relates the state
    before to the state after by [R]. With [R] a preorder it is closed under
    the control structures of the monad, so a member function is handled once
    its state updates are. [Frame] lists the updates that every relation of
    interest allows, [CacheFrame] the operations that need an argument of
    their own; the functions of [BaseCache] and [Cache] are then shown to be
    within any relation that has them. *)

From stdpp Require Import relations.
From S2P Require Import Prelude BaseUtil MemCmd Request Packet CacheBlk ReplPolicy.
From S2P Require Import Indexing Tags Prefetch MSHR Queues CacheState BaseCache CoherentCache.
Local Open Scope Z_scope.

Create HintDb within.
#[global] Hint Constants Opaque : within.

Module CacheLogic.
Import CacheState BaseCache.

(** ** The rules *)
Section rules.
Context {T P : Type}.
Implicit Types R : relation (t T P).

Definition within R {A} (m : M T P A) : Prop := forall s a s', m s = Ok (a, s') -> R s s'.

Lemma within_ret R `{!Reflexive R} {A} (a : A) : within R (ret a).
Proof. intros s x s' Hs. unfold ret in Hs. by simplify_res. Qed.
Lemma within_lift R `{!Reflexive R} {A} (r : res A) : within R (lift r).
Proof. intros s x s' Hs. unfold lift in Hs. by simplify_res. Qed.
Lemma within_gets R `{!Reflexive R} {A} (f : t T P -> A) : within R (gets f).
Proof. intros s x s' Hs. unfold gets in Hs. by simplify_res. Qed.
Lemma within_fail R {A} f : within R (fail (A := A) f).
Proof. done. Qed.
Lemma within_modify R f : (forall s, R s (f s)) -> within R (modify f).
Proof. intros Hf s x s' Hs. unfold modify in Hs. simplify_res. apply Hf. Qed.

Lemma within_bind R `{!Transitive R} {A B} (m : M T P A) (k : A -> M T P B) :
  within R m -> (forall a, within R (k a)) -> within R (bind m k).
Proof.
  intros Hm Hk s b s' Hs. unfold bind in Hs. simplify_res. destruct a as [x s1].
  transitivity s1; [by apply (Hm _ x)|by apply (Hk x _ b)].
Qed.

Lemma within_forM R `{!PreOrder R} {A} (l : list A) body :
  (forall x, within R (body x)) -> within R (forM l body).
Proof.
  intros Hb. induction l as [|x l IH]; simpl; [apply within_ret, _|].
  apply within_bind; [apply _|apply Hb|done].
Qed.

(** A read: the state is only looked at. *)
Lemma within_read R `{!Reflexive R} {A} (f : t T P -> res A) :
  within R (fun s => let* x := f s in Ok (x, s)).
Proof. intros s x s' Hs. by simplify_res. Qed.

Lemma run_within R {A} {m : M T P A} {s a s'} : m s = Ok (a, s') -> within R m -> R s s'.
Proof. intros Hs Hm. by apply (Hm s a s'). Qed.

Lemma bind_inv {A B} (m : M T P A) (k : A -> M T P B) s b s' :
  bind m k s = Ok (b, s') -> exists a s1, m s = Ok (a, s1) /\ k a s1 = Ok (b, s').
Proof. unfold bind. intros Hs. simplify_res. destruct a as [a s1]. by exists a, s1. Qed.

Lemma lift_inv {A} (r : res A) (s s' : t T P) a : lift r s = Ok (a, s') -> r = Ok a /\ s' = s.
Proof. unfold lift. intros Hs. by simplify_res. Qed.

End rules.

(** Takes a completed run apart, step by step. *)
Ltac inv_run :=
  repeat match goal with
  | H : bind ?m ?k ?s = Ok _ |- _ =>
      let a := fresh "a" in let s1 := fresh "s" in let E := fresh "E" in
      apply bind_inv in H as (a & s1 & E & H); cbn beta in H
  | H : lift _ _ = Ok _ |- _ => let E := fresh "E" in apply lift_inv in H as [E H]; subst
  | H : ret _ _ = Ok _ |- _ => unfold ret in H
  | H : gets _ _ = Ok _ |- _ => unfold gets in H
  | H : modify _ _ = Ok _ |- _ => unfold modify in H
  | H : fail _ _ = Ok _ |- _ => discriminate H
  | H : Ok _ = Ok _ |- _ => apply ok_inj in H; simplify_eq
  | H : Err _ = Ok _ |- _ => discriminate H
  | H : (if ?b then _ else fail _) _ = Ok _ |- _ =>
      let E := fresh "E" in destruct b eqn:E; [|discriminate H]
  | H : (if ?b then fail _ else _) _ = Ok _ |- _ =>
      let E := fresh "E" in destruct b eqn:E; [discriminate H|]
  | H : (let '(_, _) := ?p in _) _ = Ok _ |- _ => destruct p; cbn beta iota in H
  end.

(** ** Frames *)

(** The number of entries of a queue that are in use, and its capacity. *)
Definition counts {Q} (q : Queue.t Q) : Z * Z * Z :=
  (Queue.numEntries q, Queue.numReserve q, Queue.allocated q).

Class Frame {T P : Type} (R : relation (t T P)) := {
  fr_pre :: PreOrder R;
  fr_out v s : R s (with_out v s);
  fr_order v s : R s (with_order v s);
  fr_missCount v s : R s (with_missCount v s);
  fr_tempBlock v s : R s (with_tempBlock v s);
  fr_prefetcher v s : R s (with_prefetcher v s);
  fr_rng v s : R s (with_rng v s);
  fr_writeAllocator v s : R s (with_writeAllocator v s);
  fr_outstandingSnoop v s : R s (with_outstandingSnoop v s);
  fr_mshrQueue q s : counts (MSHRQueue.queue q) = counts (MSHRQueue.queue (mshrQueue s)) ->
                     R s (with_mshrQueue q s);
  fr_writeBuffer q s : counts q = counts (writeBuffer s) -> R s (with_writeBuffer q s)
}.

(** A single field written. *)
Ltac frame_update := cbv beta; first
  [ apply fr_out | apply fr_order | apply fr_missCount | apply fr_tempBlock | apply fr_prefetcher
  | apply fr_rng | apply fr_writeAllocator | apply fr_outstandingSnoop
  | apply fr_mshrQueue; reflexivity | apply fr_writeBuffer; reflexivity ].
#[export] Hint Resolve within_fail within_read : within.
#[export] Hint Extern 1 (Reflexive _) => apply PreOrder_Reflexive : within.
#[export] Hint Extern 1 (Frame _) => apply _ : within.
#[export] Hint Extern 2 (within _ (ret _)) => apply within_ret; apply _ : within.
#[export] Hint Extern 2 (within _ (lift _)) => apply within_lift; apply _ : within.
#[export] Hint Extern 2 (within _ (gets _)) => apply within_gets; apply _ : within.

(** A null pointer, or a block that may be written. *)
Definition ok_opt (ok : Blk -> Prop) (b : option Blk) : Prop := forall x, b = Some x -> ok x.
Lemma ok_opt_some (ok : Blk -> Prop) x : ok_opt ok (Some x) -> ok x.
Proof. intros Ho. by apply Ho. Qed.
(** No restriction. *)
Definition any (b : Blk) : Prop := True.
Lemma any_block b : any b.
Proof. done. Qed.
Lemma any_opt b : ok_opt any b.
Proof. done. Qed.
#[export] Hint Resolve any_block any_opt : within.

(** What else is known of a block that may be invalidated; see [CacheFrame]. *)
Ltac note_ok := fail.

(** One step along the structure of a member function. *)
Ltac within_step :=
  match goal with
  | |- within _ (bind _ _) => apply within_bind; [apply _|..|intros ?]; cbn beta
  | |- within _ (modify _) => apply within_modify; intros ?; try frame_update
  | |- within _ (forM _ _) => apply within_forM; [apply _|]; intros ?
  | |- within _ (match (if ?b then _ else _) with _ => _ end) => destruct b
  | |- within _ (match ?x with _ => _ end) => destruct x
  | Ho : ok_opt _ (Some _) |- _ => apply ok_opt_some in Ho; try note_ok
  | |- within _ (fun s => match ?x with _ => _ end) => destruct x
  end.
Ltac solve_within := repeat first [solve [eauto with within] | within_step].

(** Relates the two ends of a run that has been taken apart. *)
Tactic Notation "chain_within" constr(R) :=
  repeat match goal with
  | |- R ?s ?s => reflexivity
  | Hr : R ?s1 ?s2 |- R _ ?s2 => transitivity s1; [clear Hr|exact Hr]
  | Hr : _ ?s1 = Ok (_, ?s2) |- R _ ?s2 =>
      transitivity s1; [clear Hr|apply (run_within R Hr); solve_within]
  end.

Section frame.
Context {T P : Type} `{TagStore T} `{Prefetcher P}.
Context (R : relation (t T P)) `{!Frame R}.
Variables (C : Config) (E : Env).

Lemma within_emit a : within R (emit a).
Proof. unfold emit. solve_within. Qed.
Lemma within_getB b : within R (getB b).
Proof. destruct b; simpl; solve_within. Qed.
Lemma within_regenerateBlkAddr b : within R (regenerateBlkAddr b).
Proof. destruct b; simpl; solve_within. Qed.
Lemma within_updB_temp f : within R (updB f Temp).
Proof. intros s x s' Hs. simpl in Hs. simplify_res. apply fr_tempBlock. Qed.

Lemma within_onPf {A} (f : t T P -> P -> nat -> res (A * P * nat)) : within R (onPf f).
Proof.
  intros s x s' Hs. unfold onPf in Hs. destruct (prefetcher s); simplify_res.
  destruct a as [[??]?]. simplify_res. etrans; [apply fr_rng|apply fr_prefetcher].
Qed.

End frame.
#[export] Hint Resolve within_emit within_getB within_regenerateBlkAddr within_updB_temp within_onPf : within.

(** ** Operations common to all frames *)
Section common.
Context {T P : Type} `{TagStore T} `{Prefetcher P}.
Context (R : relation (t T P)) `{!Frame R}.
Variables (C : Config) (E : Env).

Lemma within_upstream l : within R (upstream l).
Proof. unfold upstream. solve_within. Qed.
Lemma within_next_order : within R next_order.
Proof. unfold next_order. solve_within. Qed.
Lemma within_isValidB b : within R (isValidB b).
Proof. unfold isValidB. solve_within. Qed.
Lemma within_isSetB bits b : within R (isSetB bits b).
Proof. unfold isSetB. solve_within. Qed.
Lemma within_opt_and b f : (forall b, within R (f b)) -> within R (opt_and b f).
Proof. intros. unfold opt_and. solve_within. Qed.
Lemma within_findBlock a sec dom : within R (findBlock a sec dom).
Proof. intros s x s' Hs. unfold findBlock in Hs. simplify_res. reflexivity. Qed.
Lemma within_findMshr a sec dom : within R (findMshr a sec dom).
Proof. apply within_read, _. Qed.
Lemma within_findWrite a sec dom : within R (findWrite a sec dom).
Proof. apply within_read, _. Qed.
Lemma within_getMshr e : within R (getMshr e).
Proof. apply within_read, _. Qed.
Lemma within_getWrite e : within R (getWrite e).
Proof. apply within_read, _. Qed.
Lemma within_pending_mshr w : within R (pending_mshr w).
Proof. apply within_read, _. Qed.
Lemma within_pending_write m : within R (pending_write m).
Proof. apply within_read, _. Qed.
Lemma within_putMshr e m : within R (putMshr e m).
Proof. unfold putMshr. solve_within. Qed.
Lemma within_putWrite e w : within R (putWrite e w).
Proof. unfold putWrite. solve_within. Qed.
Lemma within_hasPrefetcher : within R hasPrefetcher.
Proof. unfold hasPrefetcher. solve_within. Qed.
Lemma within_sched time : within R (schedMemSideSendEvent time).
Proof. unfold schedMemSideSendEvent. solve_within. Qed.

End common.
#[export] Hint Resolve within_upstream within_next_order within_isValidB within_isSetB within_opt_and
  within_findBlock within_findMshr within_findWrite within_getMshr within_getWrite within_pending_mshr
  within_pending_write within_putMshr within_putWrite within_hasPrefetcher within_sched : within.

Section common_more.
Context {T P : Type} `{TagStore T} `{Prefetcher P}.
Context (R : relation (t T P)) `{!Frame R}.
Variables (C : Config) (E : Env).

Lemma within_onMshr e f : within R (onMshr e f).
Proof. unfold onMshr. solve_within. Qed.
Lemma within_incMissCount p : within R (incMissCount C p).
Proof. unfold incMissCount. solve_within. Qed.
Lemma within_incHitCount p : within R (incHitCount C p).
Proof. unfold incHitCount. solve_within. Qed.
Lemma within_pfDirectNotify p : within R (pfDirectNotify E p).
Proof. unfold pfDirectNotify. solve_within. Qed.
Lemma within_pfNotifySHB p : within R (pfNotifySHB E p).
Proof. unfold pfNotifySHB. solve_within. Qed.
Lemma within_pfGetPacket : within R (pfGetPacket E).
Proof. unfold pfGetPacket. solve_within. Qed.
Lemma within_pfNextTime : within R (pfNextTime E).
Proof. unfold pfNextTime. solve_within. Qed.
Lemma within_updWriteAllocator f : within R (updWriteAllocator f).
Proof. unfold updWriteAllocator. solve_within. Qed.
Lemma within_calculateAccessLatency b d l : within R (calculateAccessLatency C E b d l).
Proof. unfold calculateAccessLatency. solve_within. Qed.
Lemma within_wb_request b x : within R (wb_request C E b x).
Proof. unfold wb_request. solve_within. Qed.

(** [markInService] leaves the number of MSHRs in use alone, so it never
    unblocks the cache. *)
Lemma markInService_counts e pm q q' up :
  MSHRQueue.markInService e pm q = Ok (q', up) ->
  counts (MSHRQueue.queue q') = counts (MSHRQueue.queue q).
Proof. unfold MSHRQueue.markInService. intros Hm. inv_res. done. Qed.

Lemma counts_full {Q} (q q' : Queue.t Q) : counts q' = counts q -> Queue.isFull q' = Queue.isFull q.
Proof. unfold counts, Queue.isFull. by intros [= -> -> ->]. Qed.

Lemma upstream_queue l (s s' : t T P) u : upstream l s = Ok (u, s') -> mshrQueue s' = mshrQueue s.
Proof.
  revert s. induction l as [|x l IH]; intros s Hs; unfold upstream in Hs; simpl in Hs; inv_run; [done|].
  unfold emit in *. inv_run. by rewrite (IH _ Hs).
Qed.

Lemma within_markInService_mshr e pm : within R (markInService_mshr E e pm).
Proof.
  intros s x s' Hs. unfold markInService_mshr in Hs. inv_run.
  pose proof (markInService_counts _ _ _ _ _ E3) as Hc.
  pose proof (within_upstream R _ _ _ _ E1) as HR. pose proof (upstream_queue _ _ _ _ E1) as Hq.
  unfold mshrFull, MSHRQueue.isFull in Hs. rewrite Hq in Hs. simpl in Hs.
  rewrite (counts_full _ _ Hc) in Hs. rewrite andb_negb_r in Hs. inv_run.
  etrans; [|apply HR]. apply fr_mshrQueue. unfold counts. congruence.
Qed.

End common_more.
#[export] Hint Resolve within_onMshr within_incMissCount within_incHitCount within_pfDirectNotify
  within_pfNotifySHB within_pfGetPacket within_pfNextTime within_updWriteAllocator
  within_calculateAccessLatency within_wb_request within_markInService_mshr : within.

(** ** Updates that leave a line what it is *)

(** Which line a block holds. *)
Definition identity (x : CacheBlk.t) : bool * bool * Z * Z * Z :=
  (CacheBlk._valid x, CacheBlk._secure x, CacheBlk._tag x, CacheBlk._index_bits x, CacheBlk.domainID x).
Definition keeps_line (f : CacheBlk.t -> res CacheBlk.t) : Prop :=
  forall x y, f x = Ok y -> identity y = identity x.

Lemma checkWrite_line p b r p' b' : CacheBlk.checkWrite p b = Ok (r, p', b') -> identity b' = identity b.
Proof.
  unfold CacheBlk.checkWrite, CacheBlk.clearLoadLocks. intros Hs. repeat (case_match; inv_res); done.
Qed.
Lemma trackLoadLocked_line p : keeps_line (CacheBlk.trackLoadLocked p).
Proof.
  intros x y. unfold CacheBlk.trackLoadLocked. intros Hs. repeat (case_match; inv_res); done.
Qed.

Ltac keeps_line :=
  first [ apply trackLoadLocked_line
        | let x := fresh in let y := fresh in let Hf := fresh in
          intros x y Hf; cbv beta in Hf;
          first [ by unfold CacheBlk.setCoherenceBits, CacheBlk.setWhenReady in Hf; inv_res
                | inv_res; by eapply checkWrite_line ] ].
#[export] Hint Extern 1 (keeps_line _) => keeps_line : within.

(** ** Frames of the whole cache

    [ok] tells which blocks may be written, [inv] which may also be
    invalidated. *)
Class CacheFrame {T P : Type} `{TagStore T} `{Prefetcher P} (C : Config) (E : Env)
    (R : relation (t T P)) (ok inv : Blk -> Prop) := {
  cf_frame :: Frame R;
  cf_ok b : inv b -> ok b;
  cf_updB f b : ok b -> keeps_line f -> within R (updB f b);
  cf_invalidateBlock b : inv b -> within R (invalidateBlock C E b);
  cf_allocateMissBuffer p time sched clear : within R (allocateMissBuffer C E p time sched clear);
  cf_allocateWriteBuffer p time : within R (allocateWriteBuffer C E p time);
  cf_markInService_wb e : within R (markInService_wb E e);
  cf_tryTiming p : within R (tryTiming p);
  cf_out_of_targets e : within R (out_of_targets e);
  cf_targets_available e : within R (targets_available E e);
  cf_free_mshr e : within R (free_mshr E e);
  cf_drop_prefetch e : within R (Cache.drop_prefetch E e)
}.

#[export] Hint Resolve cf_updB cf_invalidateBlock cf_allocateMissBuffer cf_allocateWriteBuffer
  cf_markInService_wb cf_out_of_targets cf_targets_available cf_free_mshr cf_drop_prefetch
  cf_tryTiming : within.

(** A block that may be invalidated may be written. *)
Ltac note_ok ::=
  match goal with
  | Hf : CacheFrame _ _ _ ?ok ?inv, Hb : ?inv ?b |- _ =>
      lazymatch goal with _ : ok b |- _ => fail | _ => pose proof (cf_ok b Hb : ok b) end
  end.

Section blocks.
Context {T P : Type} `{TagStore T} `{Prefetcher P}.
Context (C : Config) (E : Env) (R : relation (t T P)) (ok inv : Blk -> Prop) `{!CacheFrame C E R ok inv}.

Lemma within_setBits bits b : ok b -> within R (setBits bits b).
Proof. unfold setBits. solve_within. Qed.
Lemma within_clearBits bits b : ok b -> within R (clearBits bits b).
Proof. unfold clearBits. solve_within. Qed.
Lemma within_updateBlockData b p : ok b -> within R (updateBlockData C b p).
Proof. intros. unfold updateBlockData. solve_within. Qed.
Lemma within_cmpAndSwap b p : ok b -> within R (cmpAndSwap C b p).
Proof. intros. unfold cmpAndSwap, setBits. solve_within. Qed.

End blocks.
#[export] Hint Resolve within_setBits within_clearBits within_updateBlockData within_cmpAndSwap : within.

Section base.
Context {T P : Type} `{TagStore T} `{Prefetcher P}.
Context (C : Config) (E : Env) (R : relation (t T P)) (ok inv : Blk -> Prop) `{!CacheFrame C E R ok inv}.

Lemma within_maintainClusivity c b : ok_opt inv b -> within R (maintainClusivity C E c b).
Proof. intros. try note_ok. unfold maintainClusivity. solve_within. Qed.
Lemma within_wb_transfer b x p : ok b -> within R (wb_transfer C b x p).
Proof. intros. unfold wb_transfer. solve_within. Qed.
#[local] Hint Resolve within_wb_transfer : within.
Lemma within_writebackBlk b : ok b -> within R (writebackBlk C E b).
Proof. intros. unfold writebackBlk. solve_within. Qed.
Lemma within_writecleanBlk b d i : ok b -> within R (writecleanBlk C E b d i).
Proof. intros. unfold writecleanBlk. solve_within. Qed.
Lemma within_base_satisfyRequest p b : inv b -> within R (satisfyRequest C E p b).
Proof. intros. try note_ok. unfold satisfyRequest. solve_within. Qed.
Lemma within_eviction_hit p a sec dom : within R (eviction_hit E p a sec dom).
Proof. unfold eviction_hit. solve_within. Qed.
Lemma within_wb_store p b l : ok b -> within R (wb_store C E p b l).
Proof. intros. unfold wb_store. solve_within. Qed.
Lemma within_base_handleTimingReqHit p time : within R (BaseCache.handleTimingReqHit C p time).
Proof. unfold BaseCache.handleTimingReqHit. solve_within. Qed.
Lemma within_coalesce_target p e time : within R (coalesce_target C E p e time).
Proof. unfold coalesce_target. solve_within. Qed.
Lemma within_new_miss p b time : ok_opt ok b -> within R (new_miss C E p b time).
Proof. intros. unfold new_miss. solve_within. Qed.
#[local] Hint Resolve within_coalesce_target within_new_miss : within.
Lemma within_base_handleTimingReqMiss p m b time :
  ok_opt ok b -> within R (BaseCache.handleTimingReqMiss C E p m b time).
Proof. intros. unfold BaseCache.handleTimingReqMiss. solve_within. Qed.
Lemma within_sched_prefetch : within R (sched_prefetch E).
Proof. unfold sched_prefetch. solve_within. Qed.
Lemma within_recvSHBinfo p : within R (recvSHBinfo E p).
Proof. unfold recvSHBinfo. solve_within. Qed.
Lemma within_recvPfAck p : within R (recvPfAck C p).
Proof. unfold recvPfAck. solve_within. Qed.
Lemma within_handleUncacheableWriteResp p : within R (handleUncacheableWriteResp C E p).
Proof. unfold handleUncacheableWriteResp. solve_within. Qed.
Lemma within_fill_block p b a sec dom : ok b -> within R (fill_block C E p b a sec dom).
Proof. intros. unfold fill_block. solve_within. Qed.
Lemma within_resp_promote p e b : ok_opt ok b -> within R (resp_promote p e b).
Proof. intros. unfold resp_promote. solve_within. Qed.

(** *** Sending *)

Lemma addToReadyList_counts {Q} `{QueueEntry Q} e (q q' : Queue.t Q) :
  Queue.addToReadyList e q = Ok q' -> counts q' = counts q.
Proof. unfold Queue.addToReadyList. intros Hq. repeat case_match; inv_res; done. Qed.
Lemma markPending_counts e q q' :
  MSHRQueue.markPending e q = Ok q' -> counts (MSHRQueue.queue q') = counts (MSHRQueue.queue q).
Proof.
  unfold MSHRQueue.markPending. intros Hq. inv_res. simpl. by erewrite addToReadyList_counts by done.
Qed.
Lemma delay_counts now e d q q' :
  MSHRQueue.delay now e d q = Ok q' -> counts (MSHRQueue.queue q') = counts (MSHRQueue.queue q).
Proof. unfold MSHRQueue.delay. intros Hq. by inv_res. Qed.

(** An operation on the MSHR queue that keeps its counts. *)
Lemma within_on_queue {B} (f : MSHRQueue.t -> res MSHRQueue.t) (k : M T P B) :
  (forall q q', f q = Ok q' -> counts (MSHRQueue.queue q') = counts (MSHRQueue.queue q)) ->
  within R k ->
  within R (let! q := gets mshrQueue in let! q := lift (f q) in let! _ := modify (with_mshrQueue q) in k).
Proof.
  intros Hf Hk s x s' Hs. inv_run. etrans; [|by eapply Hk]. apply fr_mshrQueue. by apply Hf.
Qed.

Lemma within_resp_retire p e b : ok_opt ok b -> within R (resp_retire C E p e b).
Proof.
  intros. unfold resp_retire.
  repeat first [apply within_on_queue; [apply markPending_counts|] | solve [eauto with within] | within_step].
Qed.
Lemma within_write_hold e m tgt : within R (write_hold C E e m tgt).
Proof.
  unfold write_hold.
  repeat first [apply within_on_queue; [apply delay_counts|] | solve [eauto with within] | within_step].
Qed.
Lemma within_next_prefetch : within R (next_prefetch C E).
Proof. unfold next_prefetch. solve_within. Qed.
#[local] Hint Resolve within_next_prefetch within_writecleanBlk within_write_hold : within.
Lemma within_getNextQueueEntry : within R (getNextQueueEntry C E).
Proof. unfold getNextQueueEntry. solve_within. Qed.
Lemma within_nextQueueReadyTime : within R (nextQueueReadyTime E).
Proof. unfold nextQueueReadyTime. solve_within. Qed.
Lemma within_sendWriteQueuePacket e : within R (sendWriteQueuePacket E e).
Proof. unfold sendWriteQueuePacket. solve_within. Qed.
#[local] Hint Resolve within_getNextQueueEntry within_nextQueueReadyTime within_sendWriteQueuePacket : within.
Lemma within_base_sendDeferredPacket send :
  (forall e, within R (send e)) -> within R (BaseCache.sendDeferredPacket C E send).
Proof. intros. unfold BaseCache.sendDeferredPacket. solve_within. Qed.

End base.
#[export] Hint Resolve within_maintainClusivity within_writebackBlk within_writecleanBlk
  within_base_satisfyRequest within_eviction_hit within_wb_store within_base_handleTimingReqHit
  within_base_handleTimingReqMiss within_sched_prefetch within_recvSHBinfo within_recvPfAck
  within_handleUncacheableWriteResp within_fill_block within_resp_promote within_resp_retire within_write_hold
  within_base_sendDeferredPacket : within.

(** ** The coherent cache *)
Section coherent.
Context {T P : Type} `{TagStore T} `{Prefetcher P}.
Context (C : Config) (E : Env) (R : relation (t T P)) (ok inv : Blk -> Prop) `{!CacheFrame C E R ok inv}.

Lemma within_satisfyRequest p b d pd : inv b -> within R (Cache.satisfyRequest C E p b d pd).
Proof. intros. try note_ok. unfold Cache.satisfyRequest. solve_within. Qed.
Lemma within_cleanEvictBlk b : inv b -> within R (Cache.cleanEvictBlk C E b).
Proof. intros. try note_ok. unfold Cache.cleanEvictBlk. solve_within. Qed.
#[local] Hint Resolve within_satisfyRequest within_cleanEvictBlk : within.
Lemma within_evictBlock b : inv b -> within R (Cache.evictBlock C E b).
Proof. intros. try note_ok. unfold Cache.evictBlock. solve_within. Qed.
#[local] Hint Resolve within_evictBlock : within.
Lemma within_evictBlock_to b wbs nf : inv b -> within R (evictBlock_to (Cache.evictBlock C E) b wbs nf).
Proof. intros. try note_ok. unfold evictBlock_to. solve_within. Qed.
Lemma within_isCachedAbove p : within R (Cache.isCachedAbove C E p).
Proof. unfold Cache.isCachedAbove. solve_within. Qed.
#[local] Hint Resolve within_isCachedAbove within_evictBlock_to : within.
Lemma within_doWritebacks l time : within R (Cache.doWritebacks C E l time).
Proof. unfold Cache.doWritebacks, Cache.doWriteback. solve_within. Qed.
Lemma within_handleTimingReqHit p time : within R (Cache.handleTimingReqHit C p time).
Proof. unfold Cache.handleTimingReqHit. solve_within. Qed.
Lemma within_software_prefetch p m time : within R (Cache.software_prefetch E p m time).
Proof. unfold Cache.software_prefetch. solve_within. Qed.
#[local] Hint Resolve within_doWritebacks within_handleTimingReqHit within_software_prefetch : within.
Lemma within_handleTimingReqMiss p b ft rt : ok_opt ok b -> within R (Cache.handleTimingReqMiss C E p b ft rt).
Proof. intros. unfold Cache.handleTimingReqMiss. solve_within. Qed.
Lemma within_createMissPacket p b nw wl : within R (Cache.createMissPacket C p b nw wl).
Proof. unfold Cache.createMissPacket. solve_within. Qed.
Lemma within_doTimingSupplyResponse p d c i : within R (Cache.doTimingSupplyResponse C E p d c i).
Proof. unfold Cache.doTimingSupplyResponse. solve_within. Qed.
Lemma within_forward_snoop p : within R (Cache.forward_snoop C E p).
Proof. unfold Cache.forward_snoop. solve_within. Qed.
#[local] Hint Resolve within_createMissPacket within_doTimingSupplyResponse within_forward_snoop : within.
Lemma within_snoop_block p b v i nw r d pi : ok_opt inv b -> within R (Cache.snoop_block C E p b v i nw r d pi).
Proof. intros. try note_ok. unfold Cache.snoop_block. solve_within. Qed.
#[local] Hint Resolve within_snoop_block : within.
Lemma within_handleSnoop p b d pi : ok_opt inv b -> within R (Cache.handleSnoop C E p b d pi).
Proof. intros. try note_ok. unfold Cache.handleSnoop. solve_within. Qed.
Lemma within_snoop_write p i : within R (Cache.snoop_write C E p i).
Proof. unfold Cache.snoop_write. solve_within. Qed.
#[local] Hint Resolve within_handleSnoop within_snoop_write : within.

(** *** Serving the targets of an MSHR *)

Lemma within_service_from_block S e b tgt : inv b -> within R (Cache.service_from_block C E S e b tgt).
Proof. intros. try note_ok. unfold Cache.service_from_block. solve_within. Qed.
Lemma within_service_forward S tgt : ok_opt inv (Cache.sv_blk S) -> within R (Cache.service_forward C E S tgt).
Proof. intros. try note_ok. unfold Cache.service_forward. solve_within. Qed.
#[local] Hint Resolve within_service_from_block within_service_forward : within.
Lemma within_service_cpu S e tgt : ok_opt inv (Cache.sv_blk S) -> within R (Cache.service_cpu C E S e tgt).
Proof. destruct S; simpl. intros. try note_ok. unfold Cache.service_cpu; simpl. solve_within. Qed.
#[local] Hint Resolve within_service_cpu : within.
Lemma within_service_target S e x : ok_opt inv (Cache.sv_blk S) -> within R (Cache.service_target C E S e x).
Proof. destruct S; simpl. intros. try note_ok. unfold Cache.service_target; simpl. solve_within. Qed.
#[local] Hint Resolve within_service_target : within.
Lemma within_serviceMSHRTargets e p b : ok_opt inv b -> within R (Cache.serviceMSHRTargets C E e p b).
Proof. intros. try note_ok. unfold Cache.serviceMSHRTargets. solve_within. Qed.

End coherent.
#[export] Hint Resolve within_satisfyRequest within_evictBlock within_evictBlock_to within_doWritebacks
  within_handleTimingReqHit within_handleTimingReqMiss within_createMissPacket within_handleSnoop
  within_snoop_write within_serviceMSHRTargets : within.

(** ** When every block may be written *)
Section everywhere.
Context {T P : Type} `{TagStore T} `{Prefetcher P}.
Context (C : Config) (E : Env) (R : relation (t T P)) (ok inv : Blk -> Prop) `{!CacheFrame C E R ok inv}.
Hypothesis ok_all : forall b, ok b.
Hypothesis inv_all : forall b, inv b.
Hypothesis write_tags : forall g s, R s (with_tags g s).

Lemma ok_opt_all b : ok_opt ok b.
Proof. by intros x _. Qed.
Lemma inv_opt_all b : ok_opt inv b.
Proof. by intros x _. Qed.
#[local] Hint Resolve ok_opt_all inv_opt_all : within.

Lemma write_tags_rng g r s : R s (with_rng r (with_tags g s)).
Proof. etrans; [apply write_tags|apply fr_rng]. Qed.

Lemma within_eviction_check l r : within R (eviction_check l r).
Proof. revert r. induction l as [|e l IH]; intros r; simpl; solve_within. Qed.
Lemma within_evict_valid l wbs : within R (evict_valid (Cache.evictBlock C E) l wbs).
Proof. revert wbs. induction l as [|e l IH]; intros wbs; simpl; solve_within. Qed.
#[local] Hint Resolve within_eviction_check within_evict_valid : within.
Lemma within_handleEvictions l wbs : within R (handleEvictions (Cache.evictBlock C E) l wbs).
Proof. unfold handleEvictions. solve_within. Qed.
#[local] Hint Resolve within_handleEvictions : within.
Lemma within_allocateBlock p wbs : within R (allocateBlock C E (Cache.evictBlock C E) p wbs).
Proof. unfold allocateBlock. solve_within. all: apply write_tags_rng. Qed.
#[local] Hint Resolve within_allocateBlock : within.
Lemma within_fill_place p b ad sec dom wbs a :
  within R (fill_place C E (Cache.evictBlock C E) p b ad sec dom wbs a).
Proof. unfold fill_place. solve_within. Qed.
#[local] Hint Resolve within_fill_place : within.
Lemma within_handleFill p b wbs a : within R (handleFill C E (Cache.evictBlock C E) p b wbs a).
Proof. unfold handleFill. solve_within. Qed.
#[local] Hint Resolve within_handleFill : within.
Lemma within_resp_fill p m b : within R (resp_fill C E (Cache.evictBlock C E) p m b).
Proof. unfold resp_fill. solve_within. Qed.
Lemma within_wb_block p b wbs : within R (wb_block C E (Cache.evictBlock C E) p b wbs).
Proof. unfold wb_block. solve_within. Qed.
#[local] Hint Resolve within_wb_block within_resp_fill : within.
Lemma within_access p l wbs : within R (Cache.access C E p l wbs).
Proof.
  unfold Cache.access, BaseCache.access, access_block, access_writeback, access_writeclean, access_demand.
  solve_within.
Qed.
#[local] Hint Resolve within_access : within.

Lemma within_recvTimingReq p : within R (Cache.recvTimingReq C E p).
Proof. unfold Cache.recvTimingReq, BaseCache.recvTimingReq. solve_within. Qed.
Lemma within_recvTimingResp p : within R (Cache.recvTimingResp C E p).
Proof. unfold Cache.recvTimingResp, BaseCache.recvTimingResp. solve_within. Qed.
Lemma within_recvTimingSnoopReq p : within R (Cache.recvTimingSnoopReq C E p).
Proof. unfold Cache.recvTimingSnoopReq. solve_within. Qed.
#[local] Hint Resolve within_recvTimingResp : within.
Lemma within_recvTimingSnoopResp own p : within R (Cache.recvTimingSnoopResp C E own p).
Proof. unfold Cache.recvTimingSnoopResp. solve_within. Qed.
Lemma within_sendMSHRQueuePacket e : within R (Cache.sendMSHRQueuePacket C E e).
Proof. unfold Cache.sendMSHRQueuePacket, BaseCache.sendMSHRQueuePacket. solve_within. Qed.
#[local] Hint Resolve within_sendMSHRQueuePacket within_recvTimingReq : within.
Lemma within_sendDeferredPacket : within R (Cache.sendDeferredPacket C E).
Proof. unfold Cache.sendDeferredPacket. solve_within. Qed.
Lemma within_port_recvTimingReq p : within R (Cache.port_recvTimingReq C E p).
Proof. unfold Cache.port_recvTimingReq, BaseCache.port_recvTimingReq. solve_within. Qed.

End everywhere.

End CacheLogic.
