(* ===== verification/ModesLogic.v ===== *)
(** * Frames for atomic and functional access

    The member functions of [CacheModes] stay within any frame that has the closure
    required of a whole cache. *)

From S2P Require Import Prelude BaseUtil MemCmd Request Packet CacheBlk ReplPolicy.
From S2P Require Import Indexing Tags Prefetch MSHR Queues CacheState BaseCache CoherentCache.
From S2P Require Import CacheModes CacheLogic.
Local Open Scope Z_scope.

Module ModesLogic.
Import CacheState BaseCache BaseModes CacheLogic.

Lemma satisfy_counts {Q} `{QueueEntry Q} l : forall p (q : Queue.t Q) b p' q',
  Queue.satisfy p l q = Ok (b, p', q') -> counts q' = counts q.
Proof.
  induction l as [|e l IH]; intros p q b p' q' Hs; cbn [Queue.satisfy] in Hs; [by simplify_res|].
  apply rbind_ok in Hs as (x & _ & Hs). apply rbind_ok in Hs as ([] & _ & Hs); [|by eapply IH].
  apply rbind_ok in Hs as ([[[] p1] x1] & _ & Hs); [by simplify_res|]. by apply IH in Hs as ->.
Qed.

Section modes.
Context {T P : Type} `{TagStore T} `{Prefetcher P}.
Context (C : Config) (E : Env) (N : Peers) (R : relation (t T P)) (ok inv : Blk -> Prop) `{!CacheFrame C E R ok inv}.
Hypothesis ok_all : forall b, ok b.
Hypothesis inv_all : forall b, inv b.
Hypothesis write_tags : forall g s, R s (with_tags g s).

#[local] Hint Resolve ok_opt_all inv_opt_all : within.
#[local] Hint Extern 1 (ok _) => apply ok_all : within.
#[local] Hint Extern 1 (inv _) => apply inv_all : within.

Lemma within_port_sendAtomic p : within R (port_sendAtomic N p).
Proof. unfold port_sendAtomic. solve_within. Qed.
Lemma within_port_sendAtomicSnoop p : within R (port_sendAtomicSnoop N p).
Proof. unfold port_sendAtomicSnoop. solve_within. Qed.
#[local] Hint Resolve within_port_sendAtomic within_port_sendAtomicSnoop : within.

Lemma within_satisfy_from_block b a sec p : within R (satisfy_from_block C b a sec p).
Proof. unfold satisfy_from_block. solve_within. Qed.
Lemma within_satisfy_from_mshrs p : within R (satisfy_from_mshrs p).
Proof. intros s x s' Hs. unfold satisfy_from_mshrs in Hs. inv_run. apply fr_mshrQueue. by eapply satisfy_counts. Qed.
Lemma within_satisfy_from_writes p : within R (satisfy_from_writes p).
Proof. intros s x s' Hs. unfold satisfy_from_writes in Hs. inv_run. apply fr_writeBuffer. by eapply satisfy_counts. Qed.
Lemma within_have_dirty d b m : within R (have_dirty d b m).
Proof. unfold have_dirty. solve_within. Qed.
Lemma within_or_else x k : (forall p, within R (k p)) -> within R (or_else x k).
Proof. intros Hk. unfold or_else. solve_within. Qed.
#[local] Hint Resolve within_satisfy_from_block within_satisfy_from_mshrs within_satisfy_from_writes
  within_have_dirty within_or_else : within.

Lemma within_functionalAccess p from_cpu : within R (functionalAccess C N p from_cpu).
Proof. unfold functionalAccess, search_queues. solve_within. Qed.

Lemma within_writebackVisitor e : within R (writebackVisitor C E e).
Proof. unfold writebackVisitor. solve_within. Qed.
Lemma within_invalidateVisitor e : within R (invalidateVisitor C E e).
Proof. unfold invalidateVisitor. solve_within. Qed.
#[local] Hint Resolve within_writebackVisitor within_invalidateVisitor : within.
Lemma within_memWriteback `{!BlockVisitor T} : within R (memWriteback C E).
Proof. unfold memWriteback, forEachBlk. solve_within. Qed.
Lemma within_memInvalidate `{!BlockVisitor T} : within R (memInvalidate C E).
Proof. unfold memInvalidate, forEachBlk. solve_within. Qed.

(** ** Atomic accesses *)

#[local] Hint Extern 1 (within R (handleFill _ _ _ _ _ _ _)) =>
  eapply within_handleFill; [exact _|assumption..] : within.
#[local] Hint Extern 1 (within R (Cache.access _ _ _ _ _)) =>
  eapply within_access; [exact _|assumption..] : within.

Lemma within_atomic_isCachedAbove p : within R (CacheAtomic.isCachedAbove C N p).
Proof. unfold CacheAtomic.isCachedAbove. solve_within. Qed.
#[local] Hint Resolve within_atomic_isCachedAbove : within.
Lemma within_doWritebacksAtomic l : within R (CacheAtomic.doWritebacksAtomic C N l).
Proof. unfold CacheAtomic.doWritebacksAtomic, CacheAtomic.doWritebackAtomic. solve_within. Qed.
#[local] Hint Resolve within_doWritebacksAtomic : within.
Lemma within_atomic_response p bus b : within R (CacheAtomic.atomic_response C E p bus b).
Proof. unfold CacheAtomic.atomic_response. solve_within. Qed.
#[local] Hint Resolve within_atomic_response : within.
Lemma within_handleAtomicReqMiss p b : within R (CacheAtomic.handleAtomicReqMiss C E N p b).
Proof. unfold CacheAtomic.handleAtomicReqMiss. solve_within. Qed.
#[local] Hint Resolve within_handleAtomicReqMiss : within.
Lemma within_recvAtomic p : within R (CacheAtomic.recvAtomic C E N p).
Proof. unfold CacheAtomic.recvAtomic, BaseModes.recvAtomic. solve_within. Qed.

Lemma within_atomic_snoop_block p b v i nw r : within R (CacheAtomic.snoop_block C E p b v i nw r).
Proof. unfold CacheAtomic.snoop_block. solve_within. Qed.
#[local] Hint Resolve within_atomic_snoop_block : within.
Lemma within_atomic_handleSnoop p b : within R (CacheAtomic.handleSnoop C E N p b).
Proof. unfold CacheAtomic.handleSnoop. solve_within. Qed.
#[local] Hint Resolve within_atomic_handleSnoop : within.
Lemma within_recvAtomicSnoop p : within R (CacheAtomic.recvAtomicSnoop C E N p).
Proof. unfold CacheAtomic.recvAtomicSnoop. solve_within. Qed.

End modes.
End ModesLogic.
