(* ===== verification/CacheExamples.v ===== *)
(** * A small RaS cache to evaluate the model on

    A first-level cache with four 64-byte lines behind the random tag store,
    in no-fill mode, with four MSHRs. The states are stored in normal form. *)

From S2P Require Import Prelude BaseUtil MemCmd Request Packet CacheBlk ReplPolicy ReplPolicyFacts.
From S2P Require Import Indexing IndexingFacts Tags Prefetch MSHR Queues CacheState BaseCache CoherentCache.
Local Open Scope Z_scope.

Module CacheExamples.
Import CacheState.

Definition line (way : Z) : CacheBlk.t := CacheBlk.empty 0 way (replicate 64 0).
Definition store : RandTags NewRandIdx.t (list RandomRP.Data) :=
  mkRand (BaseTags.mk PolicyOk.example_rand [false; false; false; false]
            [line 0; line 1; line 2; line 3] 4 64 1).

Definition State : Type := CacheState.t (RandTags NewRandIdx.t (list RandomRP.Data)) SHBPf.

Definition l1 : Config :=
  mkConfig 0 1 true true false false false false 64 2 2 2 2 2 false 20 false mostly_incl false 10 500
    (fun _ => true).

(** The memory below accepts everything; nothing is above. *)
Definition env (tick : Z) : Env := mkEnv tick (fun p => (true, p)) (fun p => p) (fun _ => None).

Definition init : State := Eval vm_compute in make store None None 4 1 8 0 (replicate 64 0) 0.

(** A read of eight bytes in domain 3, as a core sends it: a demand fetch, under
    speculation one that must not fill. *)
Definition load (addr : Z) : res Packet.t :=
  let* p := Packet.make 0 (Request.setDomainID 3
    (Request.make 0 addr 8 (Z.lor Request.NO_FILL Request.DEMAND_FETCH) 0)) MemCmd.ReadReq in
  Packet.allocate p.

(** The results of runs that are known to succeed. *)
Definition the {A} (default : A) (r : res A) : A := match r with Ok a => a | Err _ => default end.
Definition after {A} (default : State) (r : res (A * State)) : State :=
  match r with Ok (_, s) => s | Err _ => default end.

Definition spec_load : Packet.t := Eval vm_compute in
  the (Packet.make_blk 0 (Request.make 0 0 0 0 0) MemCmd.ReadReq 64) (load 0x1048).

(** The miss is recorded, sent to memory, and answered. *)
Definition missed : State := Eval vm_compute in
  after init (Cache.port_recvTimingReq l1 (env 1000) spec_load init).
Definition sent : State := Eval vm_compute in after init (Cache.sendDeferredPacket l1 (env 2000) missed).

Definition sent_packet (s : State) : Packet.t :=
  match List.rev (out s) with
  | _ :: SendTimingReq p :: _ | SendTimingReq p :: _ => p
  | _ => spec_load
  end.
Definition answer : Packet.t := Eval vm_compute in
  the spec_load (let* p := Packet.makeTimingResponse (sent_packet sent) in
                 Packet.setData (map Z.of_nat (seq 0 64)) p).
Definition answer_popped : Packet.t := Eval vm_compute in
  the spec_load (rmap snd (Packet.popSenderState answer)).
Definition sent_mshr : MSHR.t := Eval vm_compute in
  the MSHR.make (Queue.entry 0 (MSHRQueue.queue (mshrQueue sent))).
Definition answered : State := Eval vm_compute in after init (Cache.recvTimingResp l1 (env 3000) answer sent).

(** The same with a single MSHR: a second load is refused, and told to retry
    when the first is answered. *)
Definition tiny : State := Eval vm_compute in make store None None 1 0 8 0 (replicate 64 0) 0.
Definition tiny_missed : State := Eval vm_compute in
  after init (Cache.port_recvTimingReq l1 (env 1000) spec_load tiny).
Definition tiny_refused : State := Eval vm_compute in
  after init (Cache.port_recvTimingReq l1 (env 1500) spec_load tiny_missed).
Definition tiny_sent : State := Eval vm_compute in
  after init (Cache.sendDeferredPacket l1 (env 2000) tiny_refused).
Definition tiny_answered : State := Eval vm_compute in
  after init (Cache.recvTimingResp l1 (env 3000) answer tiny_sent).

(** The same cache holding the line of the load, modified. *)
Definition modified_tags : res (RandTags NewRandIdx.t (list RandomRP.Data)) :=
  let* (g, _) := ts_insertBlock 1000 10 spec_load 2 store 0 in
  ts_updBlk (fun x => rmap (CacheBlk.with_data (map Z.of_nat (seq 0 64)))
    (CacheBlk.setCoherenceBits (Z.lor CacheBlk.ReadableBit (Z.lor CacheBlk.WritableBit CacheBlk.DirtyBit)) x)) 2 g.
Definition modified : State := Eval vm_compute in with_tags (the store modified_tags) init.
Definition modified_blk : CacheBlk.t := Eval vm_compute in the (line 0) (ts_getBlk 2 (tags modified)).

(** A functional read by the core of what the load reads. *)
Definition functional_load : Packet.t := Eval vm_compute in
  the spec_load (let* p := Packet.make 0 (Request.setDomainID 3 (Request.make 0 0x1048 8 0 0)) MemCmd.ReadReq in
                 Packet.allocate p).

Lemma missed_run : Cache.port_recvTimingReq l1 (env 1000) spec_load init = Ok (true, missed).
Proof. vm_cast_no_check (eq_refl (Ok (true, missed))). Qed.
Lemma sent_run : Cache.sendDeferredPacket l1 (env 2000) missed = Ok (false, sent).
Proof. vm_cast_no_check (eq_refl (Ok (false, sent))). Qed.
Lemma answered_run : Cache.recvTimingResp l1 (env 3000) answer sent = Ok (tt, answered).
Proof. vm_cast_no_check (eq_refl (Ok (tt, answered))). Qed.

Lemma tiny_missed_run : Cache.port_recvTimingReq l1 (env 1000) spec_load tiny = Ok (true, tiny_missed).
Proof. vm_cast_no_check (eq_refl (Ok (true, tiny_missed))). Qed.
Lemma tiny_refused_run :
  Cache.port_recvTimingReq l1 (env 1500) spec_load tiny_missed = Ok (false, tiny_refused).
Proof. vm_cast_no_check (eq_refl (Ok (false, tiny_refused))). Qed.
Lemma tiny_sent_run : Cache.sendDeferredPacket l1 (env 2000) tiny_refused = Ok (false, tiny_sent).
Proof. vm_cast_no_check (eq_refl (Ok (false, tiny_sent))). Qed.
Lemma tiny_answered_run : Cache.recvTimingResp l1 (env 3000) answer tiny_sent = Ok (tt, tiny_answered).
Proof. vm_cast_no_check (eq_refl (Ok (tt, tiny_answered))). Qed.

End CacheExamples.
