(* ===== verification/BlockingFacts.v ===== *)
(** * Blocking

    The back-pressure protocol of the CPU-side port as an invariant of every
    event the coherent cache handles. *)

From stdpp Require Import relations.
From S2P Require Import Prelude BaseUtil MemCmd Request Packet CacheBlk ReplPolicy.
From S2P Require Import Indexing Tags Prefetch MSHR Queues CacheState BaseCache CoherentCache.
From S2P Require Import CacheModes CacheLogic ModesLogic CacheExamples.
Local Open Scope Z_scope.

(** ** Blocking *)
Module Blocking.
Import CacheState BaseCache CacheLogic ModesLogic.

Section blocking.
Context {T P : Type} `{TagStore T} `{BlockVisitor T} `{Prefetcher P}.

(** The three reasons to block, and the bits of [blocked] they stand for. *)
Definition cause (c : Z) (s : t T P) : bool :=
  if c =? Blocked_NoMSHRs then mshrFull s
  else if c =? Blocked_NoWBBuffers then writeFull s
  else bool_decide (is_Some (noTargetMSHR s)).
Definition causes (s : t T P) : Z :=
  Z.b2z (cause Blocked_NoMSHRs s) + 2 * Z.b2z (cause Blocked_NoWBBuffers s) +
  4 * Z.b2z (cause Blocked_NoTargets s).

(** The cache is blocked for exactly the reasons that hold, the port refuses
    requests exactly when the cache is blocked, a requestor that was refused
    will be told when to retry, and a retry is only on its way when the port
    is open. *)
Definition block_inv (s : t T P) : Prop :=
  blocked s = causes s /\ port_blocked s = negb (blocked s =? 0) /\
  (mustSendRetry s = true -> port_blocked s = true \/ retryScheduled s = true) /\
  (retryScheduled s = true -> port_blocked s = false /\ mustSendRetry s = true).

Definition keeps_inv : relation (t T P) := fun s s' => block_inv s -> block_inv s'.

#[global] Instance keeps_inv_pre : PreOrder keeps_inv.
Proof. split; [by intros s ?|]. intros s1 s2 s3 H12 H23 Hs. by apply H23, H12. Qed.

Lemma causes_counts q w (s : t T P) :
  counts (MSHRQueue.queue q) = counts (MSHRQueue.queue (mshrQueue s)) -> counts w = counts (writeBuffer s) ->
  causes (with_writeBuffer w (with_mshrQueue q s)) = causes s.
Proof.
  intros Hq Hw. unfold causes, cause, mshrFull, writeFull, MSHRQueue.isFull; simpl.
  by rewrite (counts_full _ _ Hq), (counts_full _ _ Hw).
Qed.

#[global] Instance keeps_inv_frame : Frame keeps_inv.
Proof.
  split; [apply _|by intros v s Hs..| |]; intros q s Hc (Hb & Hi).
  - split; [|done]. etrans; [apply Hb|]. by rewrite <- (causes_counts q (writeBuffer s) s).
  - split; [|done]. etrans; [apply Hb|]. by rewrite <- (causes_counts (mshrQueue s) q s).
Qed.

(** *** Blocking and unblocking *)

(** What holds of the port and the retry, whatever the causes. *)
Definition port_inv (s : t T P) : Prop :=
  port_blocked s = negb (blocked s =? 0) /\
  (mustSendRetry s = true -> port_blocked s = true \/ retryScheduled s = true) /\
  (retryScheduled s = true -> port_blocked s = false /\ mustSendRetry s = true).

(** A cause has come up: [setBlocked] restores the invariant. *)
Lemma setBlocked_inv c s u s' :
  0 <= c < 8 -> port_inv s -> Z.lor (blocked s) (2 ^ c) = causes s ->
  setBlocked c s = Ok (u, s') -> block_inv s'.
Proof.
  intros Hc (Hp & Hm & Hr) Hcs Hs.
  assert (Hf : uwrap 8 (Z.shiftl 1 c) = 2 ^ c).
  { rewrite Z.shiftl_1_l. apply uwrap_small. split; [lia|]. apply Z.pow_lt_mono_r; lia. }
  assert (Hnz : causes s =? 0 = false).
  { rewrite <- Hcs. apply Z.eqb_neq. intros [_ Hz]%Z.lor_eq_0_iff. pose proof (pow2_pos c). lia. }
  unfold setBlocked, port_setBlocked, emit, bind, gets, modify, ret, fail in Hs.
  rewrite Hf in Hs. simpl in Hs. rewrite Hcs in Hs.
  destruct (blocked s =? 0) eqn:Hz; simpl in Hs; unfold block_inv.
  - rewrite Hp in Hs. simpl in Hs. destruct (retryScheduled s) eqn:Hrs; simplify_res; simpl; rewrite Hnz.
    + by split_and!; auto.
    + split_and!; auto. by rewrite Hrs.
  - simplify_res; simpl. rewrite Hnz. split_and!; auto.
Qed.

(** A cause has gone: [clearBlocked] does. *)
Lemma clearBlocked_inv E c s u s' :
  0 <= c < 8 -> port_inv s -> Z.land (blocked s) (unot 8 (2 ^ c)) = causes s ->
  clearBlocked E c s = Ok (u, s') -> block_inv s'.
Proof.
  intros Hc (Hp & Hm & Hr) Hcs Hs.
  assert (Hf : uwrap 8 (Z.shiftl 1 c) = 2 ^ c).
  { rewrite Z.shiftl_1_l. apply uwrap_small. split; [lia|]. apply Z.pow_lt_mono_r; lia. }
  unfold clearBlocked, port_clearBlocked, emit, bind, gets, modify, ret, fail in Hs.
  rewrite Hf in Hs. simpl in Hs. rewrite Hcs in Hs.
  destruct (causes s =? 0) eqn:Hz; simpl in Hs; unfold block_inv.
  - destruct (port_blocked s) eqn:Hpb; [simpl in Hs|done].
    destruct (mustSendRetry s) eqn:Hms; simplify_res; simpl; rewrite Hz.
    + split_and!; auto.
    + split_and!; auto; [by rewrite Hms|]. intros Hrs. by destruct (Hr Hrs).
  - simplify_res; simpl. rewrite Hz. split_and!; auto. rewrite Hp.
    destruct (blocked s =? 0) eqn:Hb; [|done]. apply Z.eqb_eq in Hb. rewrite Hb in Hcs. simpl in Hcs.
    by rewrite <- Hcs in Hz.
Qed.

(** *** The operations that change a cause *)

Lemma upstream_run l (s : t T P) : upstream l s = Ok (tt, with_out (out s ++ map UpstreamMshr l) s).
Proof.
  revert s. induction l as [|x l IH]; intros s; unfold upstream; simpl.
  { rewrite app_nil_r. by destruct s. }
  unfold bind at 1, emit, modify; simpl. etrans; [apply IH|]. simpl. by rewrite <- (assoc_L (++)).
Qed.

Lemma allocate_entry_counts {Q U} `{QueueEntry Q} n (alloc : Q -> res (Q * U)) (q q' : Queue.t Q) e u :
  Queue.allocate_entry n alloc q = Ok (e, q', u) ->
  counts q' = (Queue.numEntries q, Queue.numReserve q, Queue.allocated q + 1).
Proof.
  unfold Queue.allocate_entry. destruct (Queue.freeList q); [done|]. intros Hq. inv_res.
  match goal with Ha : Queue.addToReadyList _ _ = _ |- _ => apply addToReadyList_counts in Ha end. unfold counts in *. simpl in *. congruence.
Qed.
Lemma deallocate_counts {Q} `{QueueEntry Q} e (q q' : Queue.t Q) :
  Queue.deallocate e q = Ok q' ->
  counts q' = (Queue.numEntries q, Queue.numReserve q, Queue.allocated q - 1).
Proof. unfold Queue.deallocate. intros Hq. inv_res. done. Qed.

(** Filling up never makes a full queue less full, and freeing never fills. *)
Lemma full_up {Q} (q q' : Queue.t Q) :
  counts q' = (Queue.numEntries q, Queue.numReserve q, Queue.allocated q + 1) ->
  Queue.isFull q = true -> Queue.isFull q' = true.
Proof. unfold counts, Queue.isFull. intros [= -> -> ->]. rewrite !Z.leb_le. lia. Qed.
Lemma full_down {Q} (q q' : Queue.t Q) :
  counts q' = (Queue.numEntries q, Queue.numReserve q, Queue.allocated q - 1) ->
  Queue.isFull q' = true -> Queue.isFull q = true.
Proof. unfold counts, Queue.isFull. intros [= -> -> ->]. rewrite !Z.leb_le. lia. Qed.

(** Two states that differ in nothing the port looks at, and in at most one
    cause. *)
Definition agrees (c : Z) (s s1 : t T P) : Prop :=
  blocked s1 = blocked s /\ port_blocked s1 = port_blocked s /\ mustSendRetry s1 = mustSendRetry s /\
  retryScheduled s1 = retryScheduled s /\
  forall c', 0 <= c' <= 2 -> c' <> c ->
    cause c' s1 = cause c' s.

Lemma agrees_port c s s1 : agrees c s s1 -> block_inv s -> port_inv s1.
Proof. unfold port_inv. intros (-> & -> & -> & -> & _) (_ & Hp). done. Qed.

Lemma agrees_same c s s1 : agrees c s s1 -> block_inv s -> cause c s1 = cause c s -> block_inv s1.
Proof.
  intros Ha Hi Hc. split; [|by eapply agrees_port]. destruct Ha as (-> & _ & _ & _ & Ho), Hi as [-> _].
  assert (Hall : forall c', 0 <= c' <= 2 ->
    cause c' s1 = cause c' s).
  { intros c' Hc'. destruct (decide (c' = c)) as [->|]; [done|by apply Ho]. }
  unfold causes. by rewrite !Hall.
Qed.

(** Case analysis on the cause at hand and on the values of all three. *)
Ltac by_causes c Hin Ho :=
  assert (c = Blocked_NoMSHRs \/ c = Blocked_NoWBBuffers \/ c = Blocked_NoTargets)
    as [->|[->| ->]] by (unfold Blocked_NoMSHRs, Blocked_NoWBBuffers, Blocked_NoTargets; lia);
  unfold causes;
  rewrite ?(Ho Blocked_NoMSHRs), ?(Ho Blocked_NoWBBuffers), ?(Ho Blocked_NoTargets) by done;
  repeat match goal with
  | Hc : cause _ _ = _ |- _ => rewrite Hc
  | |- context [cause ?c ?s] => destruct (cause c s)
  end; reflexivity.

Lemma raise_cause c s s1 u s2 :
  0 <= c <= 2 -> block_inv s -> agrees c s s1 ->
  (cause c s = true -> cause c s1 = true) ->
  (if cause c s1 then setBlocked c else ret tt) s1 = Ok (u, s2) -> block_inv s2.
Proof.
  intros Hin Hi Ha Hup Hs. destruct (cause c s1) eqn:Hc1.
  - eapply (setBlocked_inv c); [lia|by eapply agrees_port| |exact Hs].
    destruct Ha as (-> & _ & _ & _ & Ho), Hi as [-> _]. by_causes c Hin Ho.
  - unfold ret in Hs. simplify_res. eapply agrees_same; [done..|].
    rewrite Hc1. symmetry. apply not_true_is_false. intros Hc. by specialize (Hup Hc).
Qed.

Lemma lower_cause E c s s1 u s2 :
  0 <= c <= 2 -> block_inv s -> agrees c s s1 ->
  (cause c s1 = true -> cause c s = true) ->
  (if cause c s && negb (cause c s1) then clearBlocked E c else ret tt) s1 = Ok (u, s2) -> block_inv s2.
Proof.
  intros Hin Hi Ha Hdn Hs. destruct (cause c s && negb (cause c s1)) eqn:Hc.
  - apply andb_true_iff in Hc as [Hc0 Hc1%negb_true_iff].
    eapply (clearBlocked_inv _ c); [lia|by eapply agrees_port| |exact Hs].
    destruct Ha as (-> & _ & _ & _ & Ho), Hi as [-> _]. by_causes c Hin Ho.
  - unfold ret in Hs. simplify_res. eapply agrees_same; [done..|].
    destruct (cause c s), (cause c s2); try done. symmetry. by apply Hdn.
Qed.

(** *** The operations that change a cause *)

(** Two states that visibly differ in one cause only. *)
Ltac agree :=
  split_and!; try done; intros c' ? ?; unfold cause; simpl;
  destruct (c' =? Blocked_NoMSHRs) eqn:?, (c' =? Blocked_NoWBBuffers) eqn:?; try done;
  rewrite ?Z.eqb_eq, ?Z.eqb_neq in *; unfold Blocked_NoMSHRs, Blocked_NoWBBuffers, Blocked_NoTargets in *; lia.

Lemma allocateMissBuffer_inv C E p time sched clear :
  within keeps_inv (allocateMissBuffer C E p time sched clear).
Proof.
  intros s x s' Hs Hi. unfold allocateMissBuffer, next_order in Hs. inv_run.
  match goal with Hu : upstream _ _ = _ |- _ => rewrite upstream_run in Hu end. inv_run.
  apply (run_within keeps_inv Hs); [solve_within|]. apply (run_within keeps_inv E5); [solve_within|].
  match goal with Hf : (if mshrFull ?s1 then _ else _) _ = _ |- _ =>
    eapply (raise_cause Blocked_NoMSHRs _ s1); [done|exact Hi|agree| |exact Hf] end.
  apply full_up. match goal with Ha : MSHRQueue.allocate _ _ _ _ _ _ _ _ = _ |- _ =>
    unfold MSHRQueue.allocate in Ha; inv_res end. by eapply allocate_entry_counts.
Qed.

Lemma allocateWriteBuffer_inv C E p time : within keeps_inv (allocateWriteBuffer C E p time).
Proof.
  intros s x s' Hs Hi. unfold allocateWriteBuffer, next_order, findWrite in Hs. inv_run. inv_res.
  apply (run_within keeps_inv Hs); [solve_within|].
  match goal with Hf : (if writeFull ?s1 then _ else _) _ = _ |- _ =>
    eapply (raise_cause Blocked_NoWBBuffers _ s1); [done|exact Hi|agree| |exact Hf] end.
  apply full_up. match goal with Ha : WriteQueue.allocate _ _ _ _ _ _ _ = _ |- _ =>
    unfold WriteQueue.allocate in Ha; inv_res end. by eapply allocate_entry_counts.
Qed.

Lemma markInService_wb_inv E e : within keeps_inv (markInService_wb E e).
Proof.
  intros s x s' Hs Hi. unfold markInService_wb in Hs. inv_run.
  match goal with Hf : (if writeFull _ && negb (writeFull ?s1) then _ else _) _ = _ |- _ =>
    eapply (lower_cause _ Blocked_NoWBBuffers _ s1); [done|exact Hi|agree| |exact Hf] end.
  apply full_down. match goal with Ha : WriteQueue.markInService _ _ = _ |- _ =>
    unfold WriteQueue.markInService in Ha; inv_res end. by erewrite deallocate_counts by done.
Qed.

Lemma free_mshr_inv E e : within keeps_inv (free_mshr E e).
Proof.
  intros s x s' Hs Hi. unfold free_mshr in Hs. inv_run.
  match goal with Hf : (if mshrFull _ && negb (mshrFull ?s1) then _ else _) _ = _ |- _ =>
    eapply (lower_cause _ Blocked_NoMSHRs _ s1); [done|exact Hi|agree| |exact Hf] end.
  apply full_down. match goal with Ha : MSHRQueue.deallocate _ _ = _ |- _ =>
    unfold MSHRQueue.deallocate in Ha; inv_res end. by eapply deallocate_counts.
Qed.

(** Giving up a target frees at most one MSHR. *)
Lemma forceDeallocate_full now e q q' freed :
  MSHRQueue.forceDeallocateTarget now e q = Ok (freed, q') ->
  freed = MSHRQueue.isFull q && negb (MSHRQueue.isFull q') /\
  (MSHRQueue.isFull q' = true -> MSHRQueue.isFull q = true).
Proof.
  unfold MSHRQueue.forceDeallocateTarget, MSHRQueue.isFull. intros Hq. inv_res. split; [done|].
  destruct (MSHR.hasTargets a0); simpl in *; inv_res; [done|].
  match goal with Hd : (if ?b then _ else _) = Ok _ |- _ => destruct b end; inv_res; [done|]. unfold MSHRQueue.deallocate in *. inv_res. simpl.
  intros Hf. eapply full_down; [|exact Hf]. by erewrite deallocate_counts by done.
Qed.

Lemma drop_prefetch_inv E e : within keeps_inv (Cache.drop_prefetch E e).
Proof.
  intros s x s' Hs Hi. unfold Cache.drop_prefetch in Hs. inv_run.
  match goal with Ha : MSHRQueue.forceDeallocateTarget _ _ _ = _ |- _ =>
    apply forceDeallocate_full in Ha as [-> Hfull] end.
  match type of Hs with _ ?s1 = _ =>
    eapply (lower_cause E Blocked_NoMSHRs _ s1); [done|exact Hi|agree|exact Hfull|exact Hs] end.
Qed.

Lemma out_of_targets_inv e : within keeps_inv (out_of_targets e).
Proof.
  intros s x s' Hs Hi. unfold out_of_targets in Hs. inv_run.
  match goal with Hf : setBlocked _ ?s1 = _ |- _ =>
    eapply (raise_cause Blocked_NoTargets _ s1); [done|exact Hi|agree|done|exact Hf] end.
Qed.

(** The MSHR that had run out of targets is being served; the flag is cleared
    first and the pointer after it, which comes to the same. *)
Lemma clearBlocked_noTarget E c v (s : t T P) u s' :
  clearBlocked E c s = Ok (u, s') ->
  clearBlocked E c (with_noTargetMSHR v s) = Ok (u, with_noTargetMSHR v s').
Proof.
  unfold clearBlocked, port_clearBlocked, emit, bind, gets, modify, ret, fail. simpl.
  intros Hs. repeat (case_match; simpl in *; simplify_res); done.
Qed.

Lemma targets_available_inv E e : within keeps_inv (targets_available E e).
Proof.
  intros s x s' Hs Hi. unfold targets_available in Hs. inv_run. case_bool_decide as Hn; inv_run; [|done].
  match goal with Hc : clearBlocked _ _ ?s0 = _ |- _ =>
    apply (clearBlocked_noTarget _ _ None) in Hc;
    eapply (lower_cause E Blocked_NoTargets s0 (with_noTargetMSHR None s0)); [done|exact Hi|agree|done|] end.
  unfold cause. simpl. rewrite Hn. simpl. done.
Qed.

Lemma tryTiming_inv p : within keeps_inv (tryTiming p).
Proof.
  intros s x s' Hs (Hb & Hp & Hm & Hr). unfold tryTiming in Hs. destruct (Packet.isExpressSnoop p); inv_run.
  { done. }
  destruct (port_blocked _) eqn:Hpb; simpl in Hs; inv_run; [|destruct (mustSendRetry _) eqn:Hms; inv_run].
  all: split; [done|]; simpl; rewrite Hpb; split; [exact Hp|]; split; [auto|]; auto.
  by intros [??]%Hr.
Qed.

#[global] Instance keeps_inv_cache C E : CacheFrame C E keeps_inv any any.
Proof.
  split; try apply _.
  - done.
  - intros f [e|] _ _; [|apply within_updB_temp, _]. intros s x s' Hs Hi. simpl in Hs. by simplify_res.
  - intros b _. unfold invalidateBlock, updateBlockData. solve_within.
    all: intros s x s' Hs Hi; by simplify_res.
  - apply allocateMissBuffer_inv.
  - apply allocateWriteBuffer_inv.
  - apply markInService_wb_inv.
  - apply tryTiming_inv.
  - apply out_of_targets_inv.
  - apply targets_available_inv.
  - apply free_mshr_inv.
  - apply drop_prefetch_inv.
Qed.

(** *** Every event *)

(** What happens to a cache: requests, SHB notices, prefetch acknowledgements and
    snoop responses at its CPU-side port, responses and snoops at its memory-side port,
    atomic and functional accesses from either side, being written back or
    invalidated, its own send event, and a retry that was scheduled. The system around
    it may be different at every event. *)
Inductive event (C : Config) (s s' : t T P) : Prop :=
  | ev_request E p b : Cache.port_recvTimingReq C E p s = Ok (b, s') -> event C s s'
  | ev_shb E p b : port_recvSHBinfo E p s = Ok (b, s') -> event C s s'
  | ev_pf_ack p b : port_recvPfAck C p s = Ok (b, s') -> event C s s'
  | ev_response E p u : Cache.recvTimingResp C E p s = Ok (u, s') -> event C s s'
  | ev_snoop E p q : Cache.recvTimingSnoopReq C E p s = Ok (q, s') -> event C s s'
  | ev_snoop_response E own p u : Cache.recvTimingSnoopResp C E own p s = Ok (u, s') -> event C s s'
  | ev_atomic E N p x : CacheAtomic.recvAtomic C E N p s = Ok (x, s') -> event C s s'
  | ev_atomic_snoop E N p x : CacheAtomic.recvAtomicSnoop C E N p s = Ok (x, s') -> event C s s'
  | ev_functional N p from_cpu q : BaseModes.functionalAccess C N p from_cpu s = Ok (q, s') -> event C s s'
  | ev_writeback E u : BaseModes.memWriteback C E s = Ok (u, s') -> event C s s'
  | ev_invalidate E u : BaseModes.memInvalidate C E s = Ok (u, s') -> event C s s'
  | ev_send E w : Cache.sendDeferredPacket C E s = Ok (w, s') -> event C s s'
  | ev_retry u : retryScheduled s = true -> processSendRetry s = Ok (u, s') -> event C s s'.

Lemma causes_bits s :
  Z.testbit (causes s) Blocked_NoMSHRs = cause Blocked_NoMSHRs s /\
  Z.testbit (causes s) Blocked_NoWBBuffers = cause Blocked_NoWBBuffers s /\
  Z.testbit (causes s) Blocked_NoTargets = cause Blocked_NoTargets s.
Proof.
  unfold causes.
  by destruct (cause Blocked_NoMSHRs s), (cause Blocked_NoWBBuffers s), (cause Blocked_NoTargets s).
Qed.

(** An event that is one member function, which stays within the frame. *)
Tactic Notation "frame_event" constr(Hs) uconstr(lem) :=
  apply (run_within keeps_inv Hs); eapply lem; [apply keeps_inv_cache|done..].

Lemma event_inv C s s' : event C s s' -> block_inv s -> block_inv s'.
Proof.
  assert (Htags : forall g s, keeps_inv s (with_tags g s)) by (by intros g s0 Hi).
  pose (E0 := mkEnv 0 (fun p => (true, p)) (fun p => p) (fun _ => None)).
  intros [E p b Hs|E p b Hs|p b Hs|E p u Hs|E p q Hs|E own p u Hs|E N p x Hs|E N p x Hs|N p f q Hs|E u Hs|E u Hs
         |E w Hs|u Hr Hs].
  - frame_event Hs within_port_recvTimingReq.
  - apply (run_within keeps_inv Hs). unfold port_recvSHBinfo. solve_within. eapply (within_recvSHBinfo C E); [apply keeps_inv_cache|done..].
  - apply (run_within keeps_inv Hs). unfold port_recvPfAck. solve_within. eapply (within_recvPfAck C E0); [apply keeps_inv_cache|done..].
  - frame_event Hs within_recvTimingResp.
  - frame_event Hs within_recvTimingSnoopReq.
  - frame_event Hs within_recvTimingSnoopResp.
  - frame_event Hs within_recvAtomic.
  - frame_event Hs within_recvAtomicSnoop.
  - frame_event Hs (within_functionalAccess C E0).
  - frame_event Hs within_memWriteback.
  - frame_event Hs within_memInvalidate.
  - frame_event Hs within_sendDeferredPacket.
  - intros (Hb & Hp & Hm & Hrs). unfold processSendRetry, emit in Hs. inv_run.
    split; [done|]. by split.
Qed.

(** What the port answers, from its own state. *)
Lemma tryTiming_answer p b (s s' : t T P) : tryTiming p s = Ok (b, s') ->
  (b = true <-> Packet.isExpressSnoop p = true \/ port_blocked s = false /\ mustSendRetry s = false) /\
  (b = false -> s' = with_mustSendRetry true s).
Proof.
  unfold tryTiming, bind, gets, modify, ret. intros Ht. cbn in Ht.
  destruct (Packet.isExpressSnoop p), (port_blocked s), (mustSendRetry s); simpl in Ht;
    apply ok_inj in Ht; simplify_eq; naive_solver.
Qed.

Lemma port_answer C E p b (s s' : t T P) : Cache.port_recvTimingReq C E p s = Ok (b, s') ->
  (b = true <-> Packet.isExpressSnoop p = true \/ port_blocked s = false /\ mustSendRetry s = false) /\
  (b = false -> s' = with_mustSendRetry true s).
Proof.
  intros Hrun. unfold Cache.port_recvTimingReq, BaseCache.port_recvTimingReq in Hrun.
  destruct (Packet.isRequest p); [|discriminate Hrun].
  apply bind_inv in Hrun as (ok & s1 & Htry%tryTiming_answer & Hrest).
  destruct ok.
  - apply bind_inv in Hrest as (u & s2 & _ & Hret). apply ok_inj in Hret. simplify_eq. split; [apply Htry|done].
  - apply ok_inj in Hrest. simplify_eq. apply Htry.
Qed.


End blocking.


End Blocking.
