(* ===== verification/NoFillFacts.v ===== *)
(** * The no-fill defence, end to end

    A request that must not fill leaves the tag store what it was: no line
    comes or goes and the replacement state stays, on a hit and on a miss; the
    response to a miss whose waiting requests all must not fill is served from
    the temporary block and does not touch the tag store at all. *)

From S2P Require Import Prelude BaseUtil MemCmd Request Packet CacheBlk ReplPolicy ReplPolicyFacts.
From S2P Require Import Indexing Tags Prefetch MSHR Queues CacheState BaseCache CoherentCache.
From S2P Require Import CacheLogic CacheExamples.
Local Open Scope Z_scope.

Module NoFill.
Import CacheState BaseCache CacheLogic.

(** ** The operations that touch no line *)
Section quiet.
Context {T P : Type} `{TagStore T} `{Prefetcher P}.

(** A view of the tag store that the rest of the state does not enter. *)
Definition same_store {V} (view : T -> V) : relation (t T P) :=
  fun s s' => view (tags s') = view (tags s).

#[global] Instance same_store_frame {V} (view : T -> V) : Frame (same_store view).
Proof. split; try done. split; [done|]. unfold same_store. intros ? ? ?. congruence. Qed.

Context {V : Type} (view : T -> V) (C : Config) (E : Env).
Abbreviation R := (same_store view).

Lemma within_setBlocked c : within R (setBlocked c).
Proof. unfold setBlocked, port_setBlocked. solve_within. all: done. Qed.
Lemma within_clearBlocked c : within R (clearBlocked E c).
Proof. unfold clearBlocked, port_clearBlocked. solve_within. all: done. Qed.
#[local] Hint Resolve within_setBlocked within_clearBlocked : within.
Lemma quiet_allocateMissBuffer p time sched clear : within R (allocateMissBuffer C E p time sched clear).
Proof. unfold allocateMissBuffer. solve_within. all: done. Qed.
Lemma quiet_allocateWriteBuffer p time : within R (allocateWriteBuffer C E p time).
Proof. unfold allocateWriteBuffer. solve_within. all: done. Qed.
Lemma quiet_markInService_wb e : within R (markInService_wb E e).
Proof. unfold markInService_wb. solve_within. all: done. Qed.
Lemma quiet_tryTiming p : within R (tryTiming p).
Proof. unfold tryTiming. solve_within. all: done. Qed.
Lemma quiet_out_of_targets e : within R (out_of_targets e).
Proof. unfold out_of_targets. solve_within. all: done. Qed.
Lemma quiet_targets_available e : within R (targets_available E e).
Proof. unfold targets_available. solve_within. all: done. Qed.
Lemma quiet_free_mshr e : within R (free_mshr E e).
Proof. unfold free_mshr. solve_within. all: done. Qed.
Lemma quiet_drop_prefetch e : within R (Cache.drop_prefetch E e).
Proof. unfold Cache.drop_prefetch. solve_within. all: done. Qed.

End quiet.

(** ** The two frames *)

(** A tag store as an attacker sees it: which line is where, and the
    replacement state. It is not changed by writing a block that stays the
    line it is, nor by a lookup that must not fill. *)
Class LineStore (T V : Type) `{TagStore T} := {
  lines : T -> V;
  lines_updBlk f e g g' : keeps_line f -> ts_updBlk f e g = Ok g' -> lines g' = lines g;
  lines_accessBlock now a sec d g h g' l :
    ts_accessBlock now a sec d true g = Ok (h, g', l) -> lines g' = lines g
}.

Section frames.
Context {T P : Type} `{TagStore T} `{Prefetcher P} (C : Config) (E : Env).

(** Operations on the temporary block leave the whole store alone. *)
#[global] Instance temp_only : CacheFrame C E (same_store (P := P) (fun g : T => g)) (eq Temp) (eq Temp).
Proof.
  split; try apply _; try done; intros.
  - subst b. apply within_updB_temp, _.
  - subst b. unfold invalidateBlock, updateBlockData. solve_within. intros s x s' Hs. by simplify_res.
  - apply quiet_allocateMissBuffer.
  - apply quiet_allocateWriteBuffer.
  - apply quiet_markInService_wb.
  - apply quiet_tryTiming.
  - apply quiet_out_of_targets.
  - apply quiet_targets_available.
  - apply quiet_free_mshr.
  - apply quiet_drop_prefetch.
Qed.

(** Writing to blocks leaves the lines alone. *)
#[global] Instance lines_only {V} `{!LineStore T V} :
  CacheFrame C E (same_store (P := P) lines) any (eq Temp).
Proof.
  split; try apply _; try done; intros.
  - destruct b as [e|]; [|apply within_updB_temp, _]. intros s x s' Hs. simpl in Hs. simplify_res.
    by eapply lines_updBlk.
  - subst b. unfold invalidateBlock, updateBlockData. solve_within. intros s x s' Hs. by simplify_res.
  - apply quiet_allocateMissBuffer.
  - apply quiet_allocateWriteBuffer.
  - apply quiet_markInService_wb.
  - apply quiet_tryTiming.
  - apply quiet_out_of_targets.
  - apply quiet_targets_available.
  - apply quiet_free_mshr.
  - apply quiet_drop_prefetch.
Qed.
End frames.

(** ** Both stores are line stores *)
Section stores.
Context {I R : Type} `{IndexingPolicy I} `{ReplacementPolicy R} `{RandomSource}.
Import BaseTags.

Definition tag_lines (g : BaseTags.t I R) := (replacementData g, identity <$> blks g).

Lemma updBlk_lines f e (g g' : BaseTags.t I R) :
  keeps_line f -> updBlk f e g = Ok g' -> tag_lines g' = tag_lines g.
Proof.
  intros Hf. unfold updBlk, getBlk. intros Hs. simplify_res. apply lookupR_Ok in E. unfold tag_lines. simpl. f_equal. rewrite list_fmap_insert.
  rewrite (Hf _ _ E0). apply list_insert_id. by rewrite list_lookup_fmap, E.
Qed.

Lemma on_hit_lines now h (g g' : BaseTags.t I R) :
  on_hit now true h g = Ok g' -> tag_lines g' = tag_lines g.
Proof.
  unfold on_hit. destruct h as [e|]; intros Hs; simplify_res; [|done].
  eapply updBlk_lines; [|done]. intros x y Hx. by simplify_res.
Qed.

#[global] Program Instance set_assoc_lines : LineStore (SetAssocTags I R) (R * list (bool * bool * Z * Z * Z)) :=
  {| lines g := tag_lines (sa_tags g) |}.
Next Obligation.
  intros f e g g' Hf Hs. simpl in Hs. unfold rmap in Hs. simplify_res. by eapply updBlk_lines.
Qed.
Next Obligation.
  intros now a sec d g h g' l Hs. simpl in Hs. unfold BaseSetAssoc.accessBlock_dom in Hs. inv_res.
  by eapply on_hit_lines.
Qed.

#[global] Program Instance rand_lines : LineStore (RandTags I R) (R * list (bool * bool * Z * Z * Z)) :=
  {| lines g := tag_lines (nr_tags g) |}.
Next Obligation.
  intros f e g g' Hf Hs. simpl in Hs. unfold rmap in Hs. simplify_res. by eapply updBlk_lines.
Qed.
Next Obligation.
  intros now a sec d g h g' l Hs. simpl in Hs. unfold NewRandTag.accessBlock_dom in Hs. inv_res.
  by eapply on_hit_lines.
Qed.
End stores.

(** ** The command of a packet *)
Section command.
Context {T P : Type} `{TagStore T} `{Prefetcher P}.
Variables (C : Config) (E : Env).

Lemma setData_cmd d p p' : Packet.setData d p = Ok p' -> Packet.cmd p' = Packet.cmd p.
Proof. unfold Packet.setData. intros Hs. by inv_res. Qed.
Lemma setDataFromBlock_cmd d n p p' : Packet.setDataFromBlock d n p = Ok p' -> Packet.cmd p' = Packet.cmd p.
Proof. unfold Packet.setDataFromBlock. intros Hs. inv_res. by eapply setData_cmd. Qed.
Lemma setCacheResponding_cmd p p' : Packet.setCacheResponding p = Ok p' -> Packet.cmd p' = Packet.cmd p.
Proof. unfold Packet.setCacheResponding. intros Hs. by inv_res. Qed.
Lemma checkWrite_cmd p x ok q y : CacheBlk.checkWrite p x = Ok (ok, q, y) -> Packet.cmd q = Packet.cmd p.
Proof. unfold CacheBlk.checkWrite. intros Hs. repeat (case_match; inv_res); done. Qed.

Ltac cmd_step :=
  match goal with
  | Hs : Packet.setData _ _ = Ok _ |- _ => apply setData_cmd in Hs
  | Hs : Packet.setDataFromBlock _ _ _ = Ok _ |- _ => apply setDataFromBlock_cmd in Hs
  | Hs : Packet.setCacheResponding _ = Ok _ |- _ => apply setCacheResponding_cmd in Hs
  | Hs : CacheBlk.checkWrite _ _ = Ok _ |- _ => apply checkWrite_cmd in Hs
  end.

Lemma cmpAndSwap_cmd b p (s s' : t T P) p' : cmpAndSwap C b p s = Ok (p', s') -> Packet.cmd p' = Packet.cmd p.
Proof.
  unfold cmpAndSwap. intros Hs. inv_run. cmd_step.
  match goal with Hs : (if ?c then _ else _) _ = Ok (p', _) |- _ => destruct c end; inv_run; done.
Qed.

(** Satisfying a request does not change its command. *)
Lemma satisfyRequest_cmd b d pd p (s s' : t T P) p' :
  Cache.satisfyRequest C E p b d pd s = Ok (p', s') -> Packet.cmd p' = Packet.cmd p.
Proof.
  unfold Cache.satisfyRequest. intros Hs. apply bind_inv in Hs as (q & s1 & Hb & Hs).
  assert (Packet.cmd q = Packet.cmd p) as Hq.
  { clear Hs. unfold BaseCache.satisfyRequest in Hb. inv_run.
    repeat match goal with Hb : (if ?c then _ else _) _ = Ok (q, _) |- _ => destruct c; inv_run end;
      try by eapply cmpAndSwap_cmd.
    all: try case_match; inv_run; repeat cmd_step; done. }
  rewrite <- Hq. clear Hb Hq.
  repeat match goal with Hs : (if ?c then _ else _) _ = Ok (p', _) |- _ => destruct c; inv_run end; repeat cmd_step; done.
Qed.
End command.

(** ** Requests *)
Section requests.
Context {T P V : Type} `{TagStore T} `{Prefetcher P} `{!LineStore T V}.
Variables (C : Config) (E : Env) (p : Packet.t).
Hypothesis nofill : nofillEn C = true.
(** Only a mostly exclusive cache gives its copy to a cache above. *)
Hypothesis inclusive : clusivity C = mostly_incl \/ Packet.fromCache p = false.
Abbreviation R := (same_store (T := T) (P := P) lines).

(** A load or store, cacheable, that must not fill. *)
Definition nofill_access (p : Packet.t) : Prop :=
  Packet.isMayNotFill p = true /\ Packet.isRead p || Packet.isWrite p = true /\
  Request.isUncacheable (Packet.req p) = false.
Hypothesis Hp : nofill_access p.

Lemma lines_satisfyRequest b d pd : within R (Cache.satisfyRequest C E p b d pd).
Proof.
  pose proof (lines_only (P := P) C E) as HF. destruct Hp as (_ & Hrw & _).
  unfold Cache.satisfyRequest, BaseCache.satisfyRequest.
  apply within_bind; [apply _| |intros q; solve_within].
  destruct (Packet.isWrite p), (Packet.isRead p); try done; solve_within.
Qed.

Lemma lines_maintainClusivity q b : Packet.cmd q = Packet.cmd p -> within R (maintainClusivity C E (Packet.fromCache q) b).
Proof.
  intros Hq. unfold maintainClusivity. destruct b; [|solve_within]. apply within_bind; [apply _|solve_within|]. intros x.
  assert (Packet.fromCache q && CacheBlk.isValid x && negb (CacheBlk.isSet CacheBlk.DirtyBit x) &&
    bool_decide (clusivity C = mostly_excl) = false) as ->; [|solve_within].
  destruct inclusive as [Hi|Hi]; [rewrite Hi, andb_false_r; done|].
  unfold Packet.fromCache in *. by rewrite Hq, Hi.
Qed.

Lemma lines_wb_block b wbs : within R (wb_block C E (Cache.evictBlock C E) p b wbs).
Proof.
  pose proof (lines_only (P := P) C E) as HF. destruct Hp as (Hm & _). unfold wb_block.
  rewrite nofill, Hm. simpl. solve_within.
Qed.
#[local] Hint Resolve lines_satisfyRequest lines_wb_block : within.

Lemma lines_access_demand b l wbs : within R (access_demand C E (Cache.satisfyRequest C E) p b l wbs).
Proof.
  pose proof (lines_only (P := P) C E) as HF. unfold access_demand.
  apply within_bind; [apply _|solve_within|]. intros nw. apply within_bind; [apply _|solve_within|]. intros ok.
  destruct b as [blk|]; [|solve_within]. destruct ok; [|solve_within].
  apply within_bind; [apply _|solve_within|]. intros _. apply within_bind; [apply _|solve_within|]. intros lat.
  intros s x s' Hs. inv_run.
  match goal with Hr : Cache.satisfyRequest _ _ _ _ _ _ _ = _ |- _ =>
    apply satisfyRequest_cmd in Hr as Hq; apply lines_satisfyRequest in Hr; etrans; [exact Hr|] end.
  match goal with Hm : maintainClusivity _ _ _ _ _ = _ |- _ => by apply lines_maintainClusivity in Hm end.
Qed.
#[local] Hint Resolve lines_access_demand : within.

Lemma lines_access_block addr sec dom b l l0 wbs :
  within R (access_block C E (Cache.evictBlock C E) (Cache.satisfyRequest C E) p addr sec dom b l l0 wbs).
Proof.
  pose proof (lines_only (P := P) C E) as HF.
  unfold access_block, access_writeback, access_writeclean. solve_within.
Qed.

Lemma lines_access l wbs : within R (Cache.access C E p l wbs).
Proof.
  destruct Hp as (Hm & _ & Hu). unfold Cache.access, BaseCache.access. rewrite Hu.
  intros s x s' Hs. inv_run. rewrite Hm in *.
  apply lines_access_block in Hs as Hq. unfold same_store in *. simpl in Hq. rewrite Hq.
  by eapply lines_accessBlock.
Qed.
#[local] Hint Resolve lines_access : within.

Lemma lines_base_recvTimingReq :
  within R (BaseCache.recvTimingReq C E (Cache.access C E) (Cache.doWritebacks C E)
    (Cache.handleTimingReqHit C) (Cache.handleTimingReqMiss C E) p).
Proof. pose proof (lines_only (P := P) C E) as HF. unfold BaseCache.recvTimingReq. solve_within. Qed.

End requests.

Lemma promote_nofill C p p' :
  Cache.promoteWholeLineWrites C p = Ok p' -> nofill_access p -> nofill_access p'.
Proof.
  unfold Cache.promoteWholeLineWrites. intros Hs (Hm & Hr & Hu). destruct (Packet.cmd_is _ _); inv_res; [|done].
  match goal with Hc : (if ?b then _ else _) = Ok _ |- _ => destruct b end; inv_res; [|done].
  done.
Qed.

Lemma promote_fromCache C p p' : Cache.promoteWholeLineWrites C p = Ok p' -> Packet.fromCache p = false -> Packet.fromCache p' = false.
Proof.
  unfold Cache.promoteWholeLineWrites. intros Hs Hf. destruct (Packet.cmd_is _ _); inv_res; [|done].
  match goal with Hc : (if ?b then _ else _) = Ok _ |- _ => destruct b end; inv_res; done.
Qed.

Lemma nofill_request_lines {T P V} `{TagStore T} `{Prefetcher P} `{!LineStore T V}
    C E p (s s' : CacheState.t T P) b :
  nofillEn C = true -> clusivity C = mostly_incl \/ Packet.fromCache p = false -> nofill_access p ->
  Cache.port_recvTimingReq C E p s = Ok (b, s') -> lines (tags s') = lines (tags s).
Proof.
  intros Hn Hc Hp Hs. pose proof (lines_only (P := P) C E) as HF.
  unfold Cache.port_recvTimingReq, BaseCache.port_recvTimingReq in Hs. inv_run.
  match goal with Ht : tryTiming _ _ = _ |- _ => apply (quiet_tryTiming lines) in Ht as Hq end.
  etrans; [|exact Hq]. match goal with Hs : (if ?a then _ else _) _ = Ok _ |- _ => destruct a end; inv_run; [|done].
  unfold Cache.recvTimingReq in *. inv_run.
  match goal with Hq : Cache.promoteWholeLineWrites _ _ = _ |- _ => apply promote_nofill in Hq as Hp'; [|done] end.
  match goal with Hs : (if ?a then _ else _) _ = Ok _ |- _ => destruct a end.
  - match goal with Hr : _ s0 = _ |- _ => apply (run_within (same_store lines) Hr) end. solve_within.
  - eapply lines_base_recvTimingReq; [done| |done|done]. destruct Hc as [Hc|Hc]; [by left|right; by eapply promote_fromCache].
Qed.

(** Requests that arrive one after the other, each at its own time. *)
Definition recv_all {T P} `{TagStore T} `{Prefetcher P} (C : Config) (xs : list (Env * Packet.t))
    (s : CacheState.t T P) : res (CacheState.t T P) :=
  foldM (fun s x => rmap snd (Cache.port_recvTimingReq C x.1 x.2 s)) xs s.

Lemma recv_all_view {T P A} `{TagStore T} `{Prefetcher P} (view : CacheState.t T P -> A) C xs : forall s s',
  Forall (fun x => forall s b s', Cache.port_recvTimingReq C x.1 x.2 s = Ok (b, s') -> view s' = view s) xs ->
  recv_all C xs s = Ok s' -> view s' = view s.
Proof.
  unfold recv_all. intros s s' Hxs. revert s.
  induction Hxs as [|x xs Hx Hxs IH]; intros s Hs; simpl in Hs; [by simplify_res|].
  apply rbind_ok in Hs as (s1 & H1 & Hs). unfold rmap in H1. apply rbind_ok in H1 as ([b s2] & H1 & H2).
  simplify_res. etrans; [by apply IH|]. by eapply Hx.
Qed.

(** C2. Speculative accesses leave no line and no replacement state behind.
    In a cache in no-fill mode, over any tag store whose lookups under no-fill
    leave the lines alone (both do), cacheable loads and stores marked
    may-not-fill that arrive at the CPU-side port, however many, accepted or
    refused, are handled, hit or miss, without any line of the tag store being
    inserted, evicted, invalidated or renamed and without a change of the
    replacement state. The cache is mostly inclusive, or the accesses do not come from
    a cache above: a mostly exclusive cache invalidates a clean line that it hands to
    the cache above, marked or not. *)
Theorem nofill_request_keeps_lines {T P V} `{TagStore T} `{Prefetcher P} `{!LineStore T V}
    C xs (s s' : CacheState.t T P) :
  nofillEn C = true -> Forall (fun x => nofill_access x.2 /\ (clusivity C = mostly_incl \/ Packet.fromCache x.2 = false)) xs ->
  recv_all C xs s = Ok s' -> lines (tags s') = lines (tags s).
Proof.
  intros Hn Hxs. apply (recv_all_view (fun s => lines (tags s))).
  eapply Forall_impl; [exact Hxs|]. intros x [Hx Hc] s1 b s2. by apply nofill_request_lines.
Qed.

Lemma nofill_request_keeps_lines_witness :
  nofill_access CacheExamples.spec_load /\
  recv_all CacheExamples.l1 [(CacheExamples.env 1000, CacheExamples.spec_load)] CacheExamples.init =
    Ok CacheExamples.missed /\
  lines (tags CacheExamples.missed) = lines (tags CacheExamples.init).
Proof.
  assert (Hp : nofill_access CacheExamples.spec_load) by done.
  assert (Hr : recv_all CacheExamples.l1 [(CacheExamples.env 1000, CacheExamples.spec_load)] CacheExamples.init =
    Ok CacheExamples.missed) by (unfold recv_all; cbn [foldM fst snd]; by rewrite CacheExamples.missed_run).
  split; [exact Hp|]. split; [exact Hr|].
  refine (nofill_request_keeps_lines CacheExamples.l1 [(CacheExamples.env 1000, CacheExamples.spec_load)]
    CacheExamples.init CacheExamples.missed eq_refl _ Hr).
  constructor; [split; [exact Hp|right; reflexivity]|constructor].
Defined.

(** ** Responses *)
Section responses.
Context {T P : Type} `{TagStore T} `{Prefetcher P}.
Variables (C : Config) (E : Env).
Abbreviation R := (same_store (T := T) (P := P) (fun g => g)).

(** Without permission to allocate and without a block, the fill goes to the
    temporary block. *)
Lemma handleFill_temp p wbs s p' b wbs' s' :
  handleFill C E (Cache.evictBlock C E) p None wbs false s = Ok (p', b, wbs', s') ->
  b = Temp /\ p' = Packet.setNoFillLower p /\ wbs' = wbs /\ R s s'.
Proof.
  intros Hs. pose proof (temp_only (P := P) C E) as HF. unfold handleFill, fill_place, findWrite in Hs.
  inv_run. inv_res. split_and!; [done..|].
  match goal with Hf : fill_block _ _ _ _ _ _ _ _ = _ |- _ => apply (run_within R Hf) end.
  eauto with within.
Qed.

Lemma targets_available_queue e (s s' : t T P) u :
  targets_available E e s = Ok (u, s') -> mshrQueue s' = mshrQueue s.
Proof.
  unfold targets_available, clearBlocked, port_clearBlocked, emit, bind, gets, modify, ret, fail. simpl.
  intros Hs. repeat (case_match; simpl in *; simplify_res); done.
Qed.

Lemma targets_available_wa e (s s' : t T P) u :
  targets_available E e s = Ok (u, s') -> writeAllocator s' = writeAllocator s.
Proof.
  unfold targets_available, clearBlocked, port_clearBlocked, emit, bind, gets, modify, ret, fail. simpl.
  intros Hs. repeat (case_match; simpl in *; simplify_res); done.
Qed.

(** The write allocator, which decides about whole-line writes, lets none allocate. *)
Definition no_line_writes (m : MSHR.t) (s : t T P) : Prop :=
  MSHR.wasWholeLineWrite m = true -> forall w, writeAllocator s = Some w -> WriteAllocator.allocate w = false.

Lemma resp_fill_nofill p m s p' b wbs s' :
  MSHR.mayNotFill (MSHR.targets m) = true -> no_line_writes m s ->
  resp_fill C E (Cache.evictBlock C E) p m None s = Ok (p', b, wbs, s') ->
  ok_opt (eq Temp) b /\ wbs = [] /\ R s s'.
Proof.
  intros Hm Hw Hs. unfold resp_fill in Hs. inv_run.
  match goal with Hs : (if ?c then _ else _) _ = Ok _ |- _ => destruct c end; inv_run; [|done].
  match goal with |- context [R ?s1 _] => assert (Ha : match writeAllocator s1 with
      | Some w => if MSHR.wasWholeLineWrite m then WriteAllocator.allocate w else allow_fill p m
      | None => allow_fill p m end = false) end.
  { assert (allow_fill p m = false) as -> by (unfold allow_fill; by rewrite Hm, andb_false_r).
    case_match eqn:Hwa; [|done]. destruct (MSHR.wasWholeLineWrite m) eqn:Hwl; [|done]. by apply Hw. }
  rewrite Ha in *.
  match goal with Hf : handleFill _ _ _ _ _ _ _ _ = _ |- _ => apply handleFill_temp in Hf as (-> & _ & -> & Hr) end.
  split; [|done]. by intros x [= <-].
Qed.
#[local] Hint Resolve within_evictBlock_to : within.


End responses.


End NoFill.
