(* ===== verification/NoncoherentCache.v ===== *)
(** * Non-coherent cache: mem/cache/noncoherent_cache.cc

    A cache below the point of coherency: it sees reads, writes and write-backs only,
    every block it holds is writable, and it asks the memory below with plain reads.
    The functions it overrides, closed over those of [BaseCache], in timing, atomic
    and functional mode. *)

From S2P Require Import Prelude BaseUtil MemCmd Request Packet CacheBlk ReplPolicy.
From S2P Require Import Indexing Tags Prefetch MSHR Queues CacheState BaseCache CoherentCache CacheModes.
Local Open Scope Z_scope.

Module NoncoherentCache.
Import CacheState BaseCache BaseModes.

Section cache.
Context {T P : Type} `{TagStore T} `{Prefetcher P}.
Variables (C : Config) (E : Env) (N : Peers).
Abbreviation M := (CacheState.M T P).

Definition satisfyRequest (p : Packet.t) (b : Blk) (_ _ : bool) : M Packet.t :=
  guard! (Packet.isRead p || Packet.isWrite p) in
  BaseCache.satisfyRequest C E p b.

Definition evictBlock (b : Blk) : M (option Packet.t) :=
  let! d := isSetB CacheBlk.DirtyBit b in
  let! p := if d || writebackClean C then let! p := writebackBlk C E b in ret (Some p) else ret None in
  let! _ := invalidateBlock C E b in
  ret p.

Definition access (p : Packet.t) (lat : Z) (writebacks : list Packet.t) : M Outcome :=
  let! (success, p, b, lat, writebacks) := BaseCache.access C E evictBlock satisfyRequest p lat writebacks in
  let! _ :=
    if Packet.isWriteback p || Packet.cmd_is p MemCmd.WriteClean then
      let! v := opt_and b isValidB in
      guard! v in
      match b with Some b => setBits CacheBlk.WritableBit b | None => fail AssertFail end
    else ret tt in
  ret (success, p, b, lat, writebacks).

Definition doWritebacks (writebacks : list Packet.t) (forward_time : Z) : M unit :=
  forM writebacks (fun p => allocateWriteBuffer C E p forward_time).

Definition doWritebacksAtomic (writebacks : list Packet.t) : M unit :=
  forM writebacks (fun p => let! _ := port_sendAtomic N p in ret tt).

(** The MSHR is looked up whatever its security domain and cacheability. *)
Definition handleTimingReqMiss (p : Packet.t) (b : option Blk) (forward_time request_time : Z) : M unit :=
  let! blk_addr := lift (Packet.getBlockAddr (blkSize C) p) in
  let! sec := lift (Packet.isSecure p) in
  let! q := gets mshrQueue in
  let! mshr := lift (Queue.findMatch blk_addr sec false (MSHRQueue.queue q)) in
  let! v := opt_and b isValidB in
  guard! (bool_decide (is_Some mshr) || negb v) in
  BaseCache.handleTimingReqMiss C E (Some p) mshr b forward_time.

Definition recvTimingReq (p : Packet.t) : M unit :=
  stop_if! (Packet.cacheResponding p) in
  stop_if! (negb (Packet.isRead p || Packet.isWrite p)) in
  BaseCache.recvTimingReq C E access doWritebacks (BaseCache.handleTimingReqHit C) handleTimingReqMiss p.

Definition createMissPacket (cpu_pkt : Packet.t) (b : option Blk) (needs_writable is_whole_line_write : bool)
    : M (option Packet.t) :=
  guard! (Packet.needsResponse cpu_pkt) in
  let! v := opt_and b isValidB in
  guard! (negb v) in
  let p := Packet.make_blk 0 (Packet.req cpu_pkt) MemCmd.ReadReq (blkSize C) in
  let! a := lift (Packet.getAddr p) in
  let! ba := lift (Packet.getBlockAddr (blkSize C) p) in
  guard! (a =? ba) in
  let! p := lift (Packet.allocate p) in
  ret (Some p).

Definition sendMSHRQueuePacket (e : nat) : M bool :=
  BaseCache.sendMSHRQueuePacket C E createMissPacket doWritebacks e.
Definition sendDeferredPacket : M bool := BaseCache.sendDeferredPacket C E sendMSHRQueuePacket.

(** ** Responses *)

(** A target that came from the CPU side. *)
Definition service_cpu (p : Packet.t) (b : option Blk) (initial_offset : Z) (tgt : Packet.t) : M unit :=
  let! tgt := match b with Some b => satisfyRequest tgt b false false | None => fail Undefined end in
  let! off := lift (Packet.getOffset (blkSize C) tgt) in
  let transfer_offset := off - initial_offset in
  let transfer_offset := if transfer_offset <? 0 then transfer_offset + blkSize C else transfer_offset in
  let completion_time := u64 (Packet.headerDelay p + clockEdge C E (responseLatency C)
                              + (if truthy transfer_offset then Packet.payloadDelay p else 0)) in
  guard! (knownRequestor C tgt) in
  let! tgt := lift (Packet.makeTimingResponse tgt) in
  let! tgt := if Packet.isError p then lift (Packet.copyError p tgt) else ret tgt in
  emit (SchedTimingResp (Packet.with_payloadDelay 0 (Packet.with_headerDelay 0 tgt)) completion_time).

Definition service_target (p : Packet.t) (b : option Blk) (initial_offset : Z) (x : MSHR.Target) : M unit :=
  match MSHR.source x with
  | MSHR.FromCPU => service_cpu p b initial_offset (MSHR.pkt x)
  | MSHR.FromPrefetcher =>
      guard! (Packet.cmd_is (MSHR.pkt x) MemCmd.HardPFReq) in
      match b with
      | Some b => updB (fun k => Ok (CacheBlk.with_prefetched true k)) b
      | None => ret tt
      end
  | MSHR.FromSnoop => fail Panic
  end.

Definition serviceMSHRTargets (e : nat) (p : Packet.t) (b : option Blk) : M unit :=
  let! m := getMshr e in
  let! tgt := lift (MSHR.getTarget m) in
  let! initial_offset := lift (Packet.getOffset (blkSize C) (MSHR.pkt tgt)) in
  let! (targets, m) := lift (MSHR.extractServiceableTargets p m) in
  let! _ := putMshr e m in
  let! _ := forM (MSHR.tgts targets) (service_target p b initial_offset) in
  let! m := getMshr e in
  guard! (MSHR.getNumTargets m =? 0)%nat in ret tt.

(** What is expected of a response from below. *)
Definition plain_read_response (p : Packet.t) : bool :=
  Packet.isResponse p && Packet.isRead p && negb (Packet.cmd_is p MemCmd.UpgradeResp)
  && negb (Packet.isInvalidate p) && negb (Packet.hasSharers p).

Definition recvTimingResp (p : Packet.t) : M unit :=
  guard! (plain_read_response p) in
  BaseCache.recvTimingResp C E evictBlock doWritebacks serviceMSHRTargets p.

Definition port_recvTimingReq (p : Packet.t) : M bool := BaseCache.port_recvTimingReq recvTimingReq p.

(** ** Atomic and functional mode *)

Definition handleAtomicReqMiss (p : Packet.t) (b : option Blk)
    : M (Z * Packet.t * option Blk * list Packet.t) :=
  let! whole := lift (Packet.isWholeLineWrite (blkSize C) p) in
  let! mp := createMissPacket p b true whole in
  match mp with
  | None => fail Undefined
  | Some bus_pkt =>
      let! (ticks, bus_pkt) := port_sendAtomic N bus_pkt in
      guard! (Packet.isResponse bus_pkt) in
      guard! (Packet.isRead bus_pkt) in
      guard! (negb (Packet.cmd_is p MemCmd.UpgradeResp)) in
      guard! (negb (Packet.isInvalidate bus_pkt)) in
      guard! (negb (Packet.hasSharers bus_pkt)) in
      let! (b, writebacks) :=
        if Packet.isError bus_pkt then ret (b, [])
        else
          let! (_, blk, writebacks) :=
            handleFill C E evictBlock bus_pkt b [] (allocOnFill C (Packet.cmd bus_pkt)) in
          ret (Some blk, writebacks) in
      match b with
      | None => fail Undefined
      | Some blk =>
          let! p := satisfyRequest p blk false false in
          let! _ := maintainClusivity C E true (Some blk) in
          let! p :=
            if negb (Packet.isWriteback p) && negb (Packet.cmd_is p MemCmd.WriteClean) then
              guard! (Packet.needsResponse p) in
              let! p := lift (Packet.makeAtomicResponse p) in
              if Packet.isError bus_pkt then lift (Packet.copyError bus_pkt p) else ret p
            else ret p in
          ret (ticksToCycles C ticks, p, Some blk, writebacks)
      end
  end.

Definition recvAtomic (p : Packet.t) : M (Z * Packet.t) :=
  stop_if! (Packet.cacheResponding p) in
  stop_if! (negb (Packet.isRead p || Packet.isWrite p)) in
  BaseModes.recvAtomic C E access doWritebacksAtomic handleAtomicReqMiss p.

Definition functionalAccess (p : Packet.t) (from_cpu_side : bool) : M Packet.t :=
  stop_if! (negb from_cpu_side) in
  BaseModes.functionalAccess C N p from_cpu_side.

End cache.
End NoncoherentCache.
