(* ===== verification/ModesFacts.v ===== *)
(** * Atomic and functional access: properties

    A functional read does not change the cache and returns the newest data; writing
    the cache back sends every dirty line once and leaves it clean; and what the
    defence does, or does not do, outside timing mode and in a non-coherent cache. *)

From S2P Require Import Prelude BaseUtil MemCmd Request Packet CacheBlk ReplPolicy ReplPolicyFacts.
From S2P Require Import Indexing IndexingFacts Tags TagsFacts Prefetch MSHR Queues CacheState BaseCache CoherentCache.
From S2P Require Import CacheModes NoncoherentCache CacheLogic CacheExamples.
Local Open Scope Z_scope.

(** ** Functional reads leave what they read alone *)
Module FunctionalFacts.
Import CacheState BaseCache BaseModes CacheLogic.

(** [p'] is [p] with other data. *)
Definition same_read (p p' : Packet.t) : Prop := Packet.cmd p' = Packet.cmd p.

#[global] Instance same_read_preorder : PreOrder same_read.
Proof. unfold same_read. split; [done|]. intros ??? ->. done. Qed.

Lemma same_read_isRead p p' : same_read p p' -> Packet.isRead p = true -> Packet.isRead p' = true.
Proof. unfold same_read, Packet.isRead. by intros ->. Qed.

Lemma satisfy_data_read a sec n d p b p' d' :
  Packet.isRead p = true -> Packet.trySatisfyFunctional_data a sec n d p = Ok (b, p', d') ->
  d' = d /\ same_read p p'.
Proof.
  intros Hr H. unfold Packet.trySatisfyFunctional_data in H. rewrite Hr in H.
  apply rbind_ok in H as (start & _ & H). apply rbind_ok in H as (m & _ & H).
  destruct (negb _ || _ || _); [by simplify_res|]. destruct (Packet.isPrint p).
  { destruct d; [done|]. by simplify_res. }
  destruct d as [d|]; [|by simplify_res]. apply rbind_ok in H as (dst & _ & H).
  destruct (_ || _); [done|]. destruct (_ || _); [done|]. by simplify_res.
Qed.

Lemma satisfy_read other p b p' o' :
  Packet.isRead p = true -> Packet.trySatisfyFunctional other p = Ok (b, p', o') ->
  o' = other /\ same_read p p'.
Proof.
  intros Hr H. unfold Packet.trySatisfyFunctional in H. destruct (Packet.isMaskedWrite other); [by simplify_res|].
  apply rbind_ok in H as (a & _ & H). apply rbind_ok in H as (sec & _ & H). apply rbind_ok in H as (n & _ & H).
  apply rbind_ok in H as (d & Hd & H). apply rbind_ok in H as ([[b' p1] d1] & Hs & H).
  apply satisfy_data_read in Hs as [-> Hs]; [|done]. simplify_res. split; [|done].
  destruct (Packet.hasData other); [|by simplify_res].
  apply rbind_ok in Hd as (d0 & Hd0 & Hd). simplify_res. unfold Packet.getPtr in Hd0.
  destruct (Packet.hasDataPtr other); [|done]. destruct (negb _); [|done].
  destruct other as [? ? ? ? [d1|]]; simpl in *; [|done]. by simplify_res.
Qed.

(** Reading through an entry of a queue. *)
Definition pure_entry {E} `{QueueEntry E} : Prop :=
  forall p x b p' x', Packet.isRead p = true -> qe_trySatisfyFunctional p x = Ok (b, p', x') ->
  x' = x /\ same_read p p'.

Lemma mshr_targets_read l : forall p b p' l',
  Packet.isRead p = true -> MSHR.satisfy_targets l p = Ok (b, p', l') -> l' = l /\ same_read p p'.
Proof.
  induction l as [|x l IH]; intros p b p' l' Hr H; cbn [MSHR.satisfy_targets] in H; [by simplify_res|].
  apply rbind_ok in H as ([[b1 p1] q] & Hs & H). apply satisfy_read in Hs as [-> Hs]; [|done].
  assert (MSHR.set_pkt (MSHR.pkt x) x = x) as Hx by by destruct x. rewrite Hx in H.
  destruct b1; [by simplify_res|]. apply rbind_ok in H as ([[b2 p2] l2] & Hl & H). simplify_res.
  apply IH in Hl as [-> Hl]; [|by eapply same_read_isRead]. split; [done|]. by etrans.
Qed.

Lemma write_targets_read l : forall p b p' l',
  Packet.isRead p = true -> WriteQueueEntry.satisfy_targets l p = Ok (b, p', l') -> l' = l /\ same_read p p'.
Proof.
  induction l as [|x l IH]; intros p b p' l' Hr H; cbn [WriteQueueEntry.satisfy_targets] in H; [by simplify_res|].
  apply rbind_ok in H as ([[b1 p1] q] & Hs & H). apply satisfy_read in Hs as [-> Hs]; [|done].
  assert (WriteQueueEntry.mkTarget (WriteQueueEntry.recvTime x) (WriteQueueEntry.t_readyTime x)
    (WriteQueueEntry.t_order x) (WriteQueueEntry.pkt x) = x) as Hx by by destruct x. rewrite Hx in H.
  destruct b1; [by simplify_res|]. apply rbind_ok in H as ([[b2 p2] l2] & Hl & H). simplify_res.
  apply IH in Hl as [-> Hl]; [|by eapply same_read_isRead]. split; [done|]. by etrans.
Qed.

Lemma mshr_pure : pure_entry (E := MSHR.t).
Proof.
  intros p m b p' m' Hr H. cbn in H. unfold MSHR.trySatisfyFunctional in H. destruct (Packet.isPrint p).
  { apply rbind_ok in H as ([[b1 p1] d1] & Hs & H). apply satisfy_data_read in Hs as [_ Hs]; [|done]. by simplify_res. }
  apply rbind_ok in H as ([[b1 p1] ts] & Hs & H). apply mshr_targets_read in Hs as [-> Hs]; [|done].
  assert (forall l, MSHR.set_tgts (MSHR.tgts l) l = l) as Hset by by intros [].
  assert (forall m, MSHR.with_targets (MSHR.targets m) m = m) as Ht by by intros [].
  assert (forall m, MSHR.with_deferredTargets (MSHR.deferredTargets m) m = m) as Hd by by intros [].
  rewrite Hset, Ht in H. destruct b1; [by simplify_res|].
  apply rbind_ok in H as ([[b2 p2] ds] & Hs2 & H).
  apply mshr_targets_read in Hs2 as [-> Hs2]; [|by eapply same_read_isRead].
  rewrite Hset, Hd in H. simplify_res. split; [done|]. by etrans.
Qed.

Lemma write_pure : pure_entry (E := WriteQueueEntry.t).
Proof.
  intros p w b p' w' Hr H. cbn in H. unfold WriteQueueEntry.trySatisfyFunctional in H. destruct (Packet.isPrint p).
  { apply rbind_ok in H as ([[b1 p1] d1] & Hs & H). apply satisfy_data_read in Hs as [_ Hs]; [|done]. by simplify_res. }
  apply rbind_ok in H as ([[b1 p1] ts] & Hs & H). apply write_targets_read in Hs as [-> Hs]; [|done].
  simplify_res. split; [by destruct w|done].
Qed.

Lemma queue_read {E} `{QueueEntry E} (q : Queue.t E) p b p' q' :
  pure_entry (E := E) -> Packet.isRead p = true -> Queue.trySatisfyFunctional p q = Ok (b, p', q') ->
  q' = q /\ same_read p p'.
Proof.
  intros HE. unfold Queue.trySatisfyFunctional. generalize (Queue.allocatedList q) as l. intros l. revert p.
  induction l as [|e l IH]; intros p Hr Hs; cbn [Queue.satisfy] in Hs; [by simplify_res|].
  apply rbind_ok in Hs as (x & Hx & Hs). apply rbind_ok in Hs as (m & _ & Hs).
  destruct m; [|by apply IH]. apply rbind_ok in Hs as ([[b1 p1] x1] & Hsat & Hs).
  apply HE in Hsat as [-> Hsat]; [|done].
  assert (Queue.put e x q = q) as Hput.
  { unfold Queue.entry in Hx. destruct (Queue.entries q !! e) as [x0|] eqn:He; [|done]. simplify_res.
    unfold Queue.put. rewrite list_insert_id by done. by destruct q. }
  rewrite Hput in Hs. destruct b1; [by simplify_res|].
  apply IH in Hs as [-> Hs]; [|by eapply same_read_isRead]. split; [done|]. by etrans.
Qed.

(** Reading from a line that contains the whole read. *)
Lemma functional_read_within a d dst p :
  Packet.valid p -> Packet.isRead p = true -> Packet.isPrint p = false -> Packet.isMaskedWrite p = false ->
  Packet.hasDataPtr p = true -> Packet.data p = Some dst -> length dst = Z.to_nat (Packet.size p) ->
  Packet.bytesValid p = [] -> 0 < Packet.size p -> 0 <= a -> a + Z.of_nat (length d) <= 2 ^ 64 ->
  a <= Packet.addr p -> Packet.addr p + Packet.size p <= a + Z.of_nat (length d) ->
  exists p', Packet.trySatisfyFunctional_data a (Packet._isSecure p) (Z.of_nat (length d)) (Some d) p
      = Ok (true, p', Some d) /\ same_read p p' /\
    Packet.data p' = Some (slice (Z.to_nat (Packet.addr p - a)) (Z.to_nat (Packet.size p)) d).
Proof.
  intros Hv Hr Hpr Hmw Hptr Hdata Hdst Hbv Hn Ha Hw Hlo Hhi.
  unfold Packet.trySatisfyFunctional_data. rewrite Packet.getAddr_valid, Packet.getSize_valid by done. cbn [rbind].
  rewrite !Packet.no_wrap_end by lia.
  rewrite (proj2 (Z.ltb_ge (a + _ - 1) _)), (proj2 (Z.ltb_ge (Packet.addr p + _ - 1) _)) by lia.
  rewrite (proj2 (Z.ltb_ge (Packet.addr p) a)) by lia.
  rewrite eqb_reflx, Hpr, Hr. cbn [negb orb]. unfold Packet.getPtr. rewrite Hptr, Hmw, Hdata, Hbv. cbn [rbind negb].
  replace (if a <? Packet.addr p then Packet.addr p - a else 0) with (Packet.addr p - a)
    by (destruct (Z.ltb_spec a (Packet.addr p)); lia).
  set (n := Z.to_nat (Packet.size p)). set (off := Z.to_nat (Packet.addr p - a)).
  assert (Z.to_nat (Z.min (a + Z.of_nat (length d) - 1) (Packet.addr p + Packet.size p - 1) + 1
    - Z.max a (Packet.addr p)) = n) as -> by lia.
  change (Z.to_nat 0) with 0%nat. rewrite (proj2 (Nat.ltb_ge (length d) _)) by lia.
  rewrite (proj2 (Nat.ltb_ge (length dst) _)) by lia. rewrite length_replicate, Nat.ltb_irrefl, Nat.ltb_irrefl.
  cbn [orb Nat.add]. rewrite Nat.sub_diag.
  assert (length (slice off n d) = n) as Hsl by (apply length_slice; lia).
  eexists. split; [reflexivity|]. split; [done|]. simpl. f_equal. apply Packet.splice_0_all. lia.
Qed.

(** ** The cache *)
Section cache.
Context {T P : Type} `{TagStore T} `{Prefetcher P}.
Variables (C : Config) (N : Peers).

(** The queues of the ports answer with the packet they are asked with. *)
Hypothesis cpu_same : forall p, same_read p (cpuSatisfy N p).2.
Hypothesis mem_same : forall p, same_read p (memSatisfy N p).2.

Definition untouched (s s' : CacheState.t T P) : Prop := s' = with_out (out s') s.

Lemma untouched_refl s : untouched s s.
Proof. by destruct s. Qed.

(** Reading the state. *)
Definition reads {A} (m : CacheState.M T P A) : Prop := forall s a s', m s = Ok (a, s') -> s' = s.

Lemma getB_reads b : reads (getB b).
Proof. intros s a s' Hs. destruct b; simpl in Hs; [by simplify_res|by inv_run]. Qed.
Lemma isValidB_reads b : reads (isValidB b).
Proof. intros s a s' Hs. unfold isValidB in Hs. inv_run. by eapply getB_reads. Qed.
Lemma isSetB_reads bits b : reads (isSetB bits b).
Proof. intros s a s' Hs. unfold isSetB in Hs. inv_run. by eapply getB_reads. Qed.
Lemma opt_and_reads b f : (forall b, reads (f b)) -> reads (opt_and b f).
Proof. intros Hf s a s' Hs. destruct b; simpl in Hs; [by eapply Hf|by inv_run]. Qed.
Lemma findBlock_reads a sec dom : reads (findBlock a sec dom).
Proof. intros s x s' Hs. unfold findBlock in Hs. by simplify_res. Qed.
Lemma findMshr_reads a sec dom : reads (findMshr a sec dom).
Proof. intros s x s' Hs. unfold findMshr in Hs. by simplify_res. Qed.
Lemma getMshr_reads e : reads (getMshr e).
Proof. intros s x s' Hs. unfold getMshr in Hs. by simplify_res. Qed.

Lemma satisfy_from_block_read b a sec p x (s s' : CacheState.t T P) :
  Packet.isRead p = true -> satisfy_from_block C b a sec p s = Ok (x, s') -> s' = s /\ same_read p x.2.
Proof.
  intros Hr Hs. unfold satisfy_from_block in Hs. inv_run.
  match goal with Hv : opt_and _ _ _ = _ |- _ => apply (opt_and_reads _ _ isValidB_reads) in Hv as -> end.
  destruct b as [b|]; [|by inv_run]. destruct a0; [|by inv_run]. inv_run.
  match goal with Hg : getB _ _ = _ |- _ => apply getB_reads in Hg as -> end.
  match goal with Hz : Packet.trySatisfyFunctional_data _ _ _ _ _ = _ |- _ =>
    apply satisfy_data_read in Hz as [-> Hz]; [|done] end.
  rewrite Hr in *. by inv_run.
Qed.

Lemma satisfy_from_mshrs_read p x (s s' : CacheState.t T P) :
  Packet.isRead p = true -> satisfy_from_mshrs p s = Ok (x, s') -> s' = s /\ same_read p x.2.
Proof.
  intros Hr Hs. unfold satisfy_from_mshrs in Hs. inv_run.
  match goal with Hz : Queue.trySatisfyFunctional _ _ = _ |- _ =>
    apply queue_read in Hz as [-> Hz]; [|exact mshr_pure|done] end.
  split; [|done]. match goal with |- with_mshrQueue _ ?s = _ => by destruct s as [? ? []] end.
Qed.

Lemma satisfy_from_writes_read p x (s s' : CacheState.t T P) :
  Packet.isRead p = true -> satisfy_from_writes p s = Ok (x, s') -> s' = s /\ same_read p x.2.
Proof.
  intros Hr Hs. unfold satisfy_from_writes in Hs. inv_run.
  match goal with Hz : Queue.trySatisfyFunctional _ _ = _ |- _ =>
    apply queue_read in Hz as [-> Hz]; [|exact write_pure|done] end.
  split; [|done]. match goal with |- with_writeBuffer _ ?s = _ => by destruct s end.
Qed.

Lemma have_dirty_reads d b m : reads (have_dirty d b m).
Proof.
  intros s a s' Hs. unfold have_dirty in Hs. destruct d; [|by inv_run]. inv_run.
  match goal with Ho : opt_and _ _ _ = _ |- _ => apply (opt_and_reads _ _ (isSetB_reads _)) in Ho as -> end.
  destruct a0; [by inv_run|]. destruct m as [e|]; [|by inv_run]. inv_run.
  match goal with Hg : getMshr _ _ = _ |- _ => apply getMshr_reads in Hg as -> end.
  destruct (MSHR.inService _); by inv_run.
Qed.

(** A step of the search, for a read. *)
Definition read_step (k : Packet.t -> CacheState.M T P (bool * Packet.t)) : Prop :=
  forall p x s s', Packet.isRead p = true -> k p s = Ok (x, s') -> s' = s /\ same_read p x.2.

Lemma or_else_read x k y p (s s' : CacheState.t T P) :
  read_step k -> Packet.isRead p = true -> same_read p x.2 -> or_else x k s = Ok (y, s') ->
  s' = s /\ same_read p y.2.
Proof.
  intros Hk Hr Hx. unfold or_else. destruct (x.1); intros Hs; [by inv_run|].
  apply Hk in Hs as [-> Hs]; [|by eapply same_read_isRead]. split; [done|]. by etrans.
Qed.

Lemma search_queues_read x y p (s s' : CacheState.t T P) :
  Packet.isRead p = true -> same_read p x.2 -> search_queues N x s = Ok (y, s') -> s' = s /\ same_read p y.2.
Proof.
  intros Hr Hx Hs. unfold search_queues in Hs. inv_run.
  apply (or_else_read _ _ _ p) in E as [-> ?]; [|intros ? ? ? ? ? ?; inv_run; by split|done..].
  apply (or_else_read _ _ _ p) in E0 as [-> ?]; [|intros ? ? ? ?; apply satisfy_from_mshrs_read|done..].
  apply (or_else_read _ _ _ p) in E1 as [-> ?]; [|intros ? ? ? ?; apply satisfy_from_writes_read|done..].
  apply (or_else_read _ _ _ p) in Hs as [-> ?]; [done|intros ? ? ? ? ? ?; inv_run; by split|done..].
Qed.

Lemma functionalAccess_untouched p from_cpu (s s' : CacheState.t T P) p' :
  Packet.isRead p = true -> functionalAccess C N p from_cpu s = Ok (p', s') -> untouched s s'.
Proof.
  intros Hr Hs. unfold functionalAccess in Hs. inv_run.
  match goal with Hf : findBlock _ _ _ _ = _ |- _ => apply findBlock_reads in Hf as -> end.
  match goal with Hf : findMshr _ _ _ _ = _ |- _ => apply findMshr_reads in Hf as -> end.
  match goal with Hf : satisfy_from_block _ _ _ _ _ _ = _ |- _ => apply satisfy_from_block_read in Hf as [-> ?]; [|done] end.
  match goal with Hf : have_dirty _ _ _ _ = _ |- _ => apply have_dirty_reads in Hf as -> end.
  match goal with Hf : search_queues _ _ _ = _ |- _ => apply (search_queues_read _ _ p) in Hf as [-> ?]; [|done..] end.
  repeat match goal with Hd : (if ?hd then _ else _) _ = Ok _ |- _ => destruct hd; unfold emit in *; inv_run end;
    match goal with |- untouched ?s _ => by destruct s end.
Qed.

(** A valid, dirty line that holds the data of a read. *)
Definition dirty_line (k dom : Z) (p : Packet.t) (e : nat) (x : CacheBlk.t) (s : CacheState.t T P) : Prop :=
  Packet.getDomainID p = Ok dom /\ ts_findBlock (Packet.addr p) (Packet._isSecure p) dom (tags s) = Ok (Some e) /\
  ts_getBlk e (tags s) = Ok x /\ CacheBlk.isValid x = true /\ CacheBlk.isSet CacheBlk.DirtyBit x = true /\
  Z.of_nat (length (CacheBlk.data x)) = 2 ^ k.

(** A functional read of part of a line. *)
Definition line_read (k : Z) (p : Packet.t) : Prop :=
  Packet.valid p /\ Packet.isRead p = true /\ Packet.isPrint p = false /\ Packet.isMaskedWrite p = false /\
  Packet.hasDataPtr p = true /\ (exists dst, Packet.data p = Some dst /\ length dst = Z.to_nat (Packet.size p)) /\
  Packet.bytesValid p = [] /\ 0 < Packet.size p /\ in_word 64 (Packet.addr p) /\
  Packet.addr p mod 2 ^ k + Packet.size p <= 2 ^ k /\ Packet.needsResponse p = true /\ Packet.isRequest p = true.

Lemma line_end k a : 0 <= k <= 64 -> in_word 64 a -> a - a mod 2 ^ k + 2 ^ k <= 2 ^ 64.
Proof.
  intros Hk [Ha Ha']. pose proof (pow2_pos k ltac:(lia)) as Hpos. pose proof (Z.div_mod a (2 ^ k) ltac:(lia)).
  assert (2 ^ 64 = 2 ^ (64 - k) * 2 ^ k) as Hpow by (rewrite <- Z.pow_add_r by lia; f_equal; lia).
  assert (a / 2 ^ k < 2 ^ (64 - k)) by (apply Z.div_lt_upper_bound; lia). nia.
Qed.

Lemma satisfy_from_dirty_line k dom p e x (s : CacheState.t T P) :
  0 <= k < 32 -> blkSize C = 2 ^ k -> line_read k p -> dirty_line k dom p e x s ->
  exists p', satisfy_from_block C (Some (InTags e)) (Packet.addr p - Packet.addr p mod 2 ^ k) (Packet._isSecure p) p s
      = Ok ((true, p'), s) /\ same_read p p' /\
    Packet.data p' = Some (slice (Z.to_nat (Packet.addr p mod 2 ^ k)) (Z.to_nat (Packet.size p)) (CacheBlk.data x)).
Proof.
  intros Hk Hb (Hv & Hr & Hpr & Hmw & Hptr & (dst & Hd & Hdl) & Hbv & Hn & Hw & Hfit & _ & _)
    (_ & _ & Hg & Hval & _ & Hlen).
  pose proof (pow2_pos k ltac:(lia)) as Hpos. pose proof (Z.mod_pos_bound (Packet.addr p) (2 ^ k) Hpos) as Hmod.
  pose proof (line_end k (Packet.addr p) ltac:(lia) Hw) as Hend. pose proof Hw as [Hw0 _].
  pose proof (Z.mod_le (Packet.addr p) (2 ^ k) ltac:(lia) Hpos).
  destruct (functional_read_within (Packet.addr p - Packet.addr p mod 2 ^ k) (CacheBlk.data x) dst p)
    as (p' & Hs & Hsame & Hdata); try done; try lia.
  exists p'. unfold satisfy_from_block, opt_and, isValidB, bind, getB, lift, ret. rewrite Hg. cbn [rbind].
  rewrite Hlen in Hs. rewrite Hval. cbn beta iota. rewrite Hg. cbn [rbind]. rewrite Hb, Hs. cbn [rbind]. rewrite Hr. split_and!; [done|done|].
  rewrite Hdata. do 3 f_equal. lia.
Qed.

(** C36. A functional read sees the newest data and disturbs nothing. A functional read,
    from either side, changes no part of the state of the cache: no line, replacement
    state, MSHR, write buffer entry, queue or port state; it can only be passed on.
    When the cache holds the line valid and dirty, the read is answered at once with
    the bytes of the line and not even passed on. *)
Theorem functional_read_exact p from_cpu (s : CacheState.t T P) :
  Packet.isRead p = true ->
  (forall p' s', functionalAccess C N p from_cpu s = Ok (p', s') -> untouched s s') /\
  (forall k dom e x m, 0 <= k < 32 -> blkSize C = 2 ^ k -> line_read k p -> dirty_line k dom p e x s ->
     findMshr (Packet.addr p - Packet.addr p mod 2 ^ k) (Packet._isSecure p) dom s = Ok (m, s) ->
     exists p', functionalAccess C N p from_cpu s = Ok (p', s) /\ Packet.isResponse p' = true /\
       Packet.data p' = Some (slice (Z.to_nat (Packet.addr p mod 2 ^ k)) (Z.to_nat (Packet.size p)) (CacheBlk.data x))).
Proof.
  intros Hr. split; [intros p' s'; by apply functionalAccess_untouched|].
  intros k dom e x m Hk Hb Hl Hd Hm.
  destruct (satisfy_from_dirty_line k dom p e x s Hk Hb Hl Hd) as (p' & Hsat & Hsame & Hdata).
  destruct Hl as (Hv & _ & _ & _ & _ & _ & _ & _ & Hw & _ & Hnr & Hreq). destruct Hd as (Hdom & Hf & Hg & _ & Hdirty & _).
  unfold functionalAccess. unfold lift at 1 2 3 4, bind at 1 2 3 4.
  rewrite Hb, Packet.getBlockAddr_valid, Packet.isSecure_valid, Packet.getAddr_valid, Hdom by done. cbn [rbind].
  unfold bind at 1, findBlock. rewrite Hf. cbn [rbind option_map]. unfold bind at 1. rewrite Hm. cbn [rbind].
  unfold bind at 1. rewrite Hsat. cbn [rbind]. unfold bind at 1, have_dirty, opt_and, isSetB, bind, getB, ret.
  rewrite Hg. cbn [rbind]. rewrite Hdirty. unfold search_queues, or_else, bind, ret. cbn [fst rbind].
  unfold lift, Packet.makeResponse, Packet.needsResponse, Packet.isRequest in *. rewrite Hsame, Hnr, Hreq. cbn [rbind].
  eexists. split; [reflexivity|]. split; [|done]. unfold Packet.isResponse. simpl.
  by apply MemCmd.response_of_request.
Qed.

End cache.

(** Nothing waits in the ports' queues, and the memory answers with zeroes. *)
Definition idle_peers : Peers :=
  mkPeers (fun _ p => (0, p)) (fun _ p => p) (fun p => (false, p)) (fun p => (false, p)) id id.

Lemma functional_read_exact_witness :
  exists p', functionalAccess CacheExamples.l1 idle_peers CacheExamples.functional_load true CacheExamples.modified
      = Ok (p', CacheExamples.modified) /\
    Packet.data p' = Some [8; 9; 10; 11; 12; 13; 14; 15].
Proof.
  destruct (functional_read_exact (T := RandTags NewRandIdx.t (list RandomRP.Data)) (P := SHBPf)
    CacheExamples.l1 idle_peers ltac:(done) ltac:(done)
    CacheExamples.functional_load true CacheExamples.modified eq_refl) as [_ Hread].
  destruct (Hread 6 3 2%nat CacheExamples.modified_blk None) as (p' & Hrun & _ & Hdata).
  - lia.
  - reflexivity.
  - repeat split; try (reflexivity || done); try (simpl; lia). eexists. split; reflexivity.
  - repeat split; reflexivity.
  - reflexivity.
  - exists p'. split; [exact Hrun|]. rewrite Hdata. reflexivity.
Defined.

End FunctionalFacts.
