(* ===== verification/StoreSpec.v ===== *)
(** * What a tag store promises its cache

    Two interfaces on top of [TagStore]. A [LineStore] is a collection of lines that can
    be changed one at a time, each with the address it holds; both stores are one. A
    [MapStore] is in addition a finite map from the lines of memory to lines of the
    cache: a lookup finds the line of an address if there is one, an access changes no
    line, and a new line can be inserted once its victim has been dropped. The RaS store
    is one. *)

From S2P Require Import Prelude BaseUtil MemCmd Request Packet CacheBlk ReplPolicy ReplPolicyFacts.
From S2P Require Import Indexing IndexingFacts Tags TagsFacts Prefetch MSHR Queues CacheState CacheModes.
Local Open Scope Z_scope.

Module StoreSpec.

(** Lines have [2 ^ line_shift] bytes. *)
Class LineSize (T : Type) := { line_shift : T -> Z }.

Section lines.
Context {T : Type} `{TagStore T} `{BlockVisitor T} `{LineSize T}.

(** A line and its address. *)
Definition view (e : nat) (s : T) : res CacheBlk.t * res Z := (ts_getBlk e s, ts_regenerateBlkAddr e s).

Record same_but (e : nat) (s s' : T) : Prop := {
  sb_count : bv_count s' = bv_count s;
  sb_shift : line_shift s' = line_shift s;
  sb_index : forall a, ts_extractIndex a s' = ts_extractIndex a s;
  sb_others : forall e', e' <> e -> view e' s' = view e' s
}.

(** Line [e] holds the line of memory at [a]. *)
Definition at_line (s : T) (e : nat) (a : Z) (x : CacheBlk.t) : Prop :=
  view e s = (Ok x, Ok a) /\ CacheBlk.isValid x = true.
End lines.

(** The fields that say where a line is and what it holds a copy of. *)
Definition place (x : CacheBlk.t) : bool * bool * Z * Z * Z * Z * Z :=
  (CacheBlk._valid x, CacheBlk._secure x, CacheBlk._tag x, CacheBlk._index_bits x, CacheBlk._set x,
   CacheBlk._way x, CacheBlk._tickInserted x).

Class LineStore (T : Type) `{TagStore T} `{BlockVisitor T} `{LineSize T} := {
  ls_ok : T -> Prop;
  ls_get : forall s e, (e < bv_count s)%nat -> exists x, ts_getBlk e s = Ok x;
  ls_upd : forall f s e x x', ls_ok s -> ts_getBlk e s = Ok x -> f x = Ok x' -> place x' = place x ->
    exists s', ts_updBlk f e s = Ok s' /\ ls_ok s' /\ same_but e s s' /\
      view e s' = (Ok x', ts_regenerateBlkAddr e s);
  ls_invalidate : forall now s e x, ls_ok s -> ts_getBlk e s = Ok x -> CacheBlk.isValid x = true ->
    exists s' x', ts_invalidate now e s = Ok s' /\ ls_ok s' /\ same_but e s s' /\
      ts_getBlk e s' = Ok x' /\ CacheBlk.invalidate x = Ok x'
}.

(** [fits a sec v s]: the line of [a] can be put in line [v] when [v] is not valid. *)
Class MapStore (T : Type) `{LineStore T} := {
  ms_fits : Z -> bool -> nat -> T -> Prop;
  ms_lines : forall s e x, ls_ok s -> ts_getBlk e s = Ok x -> (e < bv_count s)%nat;
  ms_unique : forall s e e' a x x', ls_ok s -> at_line s e a x -> at_line s e' a x' ->
    CacheBlk.isSecure x = CacheBlk.isSecure x' -> e = e';
  ms_find : forall s a sec dom, ls_ok s -> in_word 64 a ->
    exists r, ts_findBlock a sec dom s = Ok r /\
      match r with
      | Some e => exists x, at_line s e (a - a mod 2 ^ line_shift s) x /\ CacheBlk.isSecure x = sec
      | None => forall e x, at_line s e (a - a mod 2 ^ line_shift s) x -> CacheBlk.isSecure x <> sec
      end;
  ms_access : forall now s a sec dom nf, ls_ok s -> in_word 64 a ->
    exists r s' lat, ts_accessBlock now a sec dom nf s = Ok (r, s', lat) /\ ts_findBlock a sec dom s = Ok r /\
      ls_ok s' /\ bv_count s' = bv_count s /\ line_shift s' = line_shift s /\
      forall e, ts_regenerateBlkAddr e s' = ts_regenerateBlkAddr e s /\
        rmap (CacheBlk.with_refCount 0) (ts_getBlk e s') = rmap (CacheBlk.with_refCount 0) (ts_getBlk e s);
  ms_victim : forall now s a sec dom n g, ls_ok s -> in_word 64 a -> ts_findBlock a sec dom s = Ok None ->
    exists v g', ts_findVictim now a sec n s g = Ok (Some v, [v], s, g') /\ (v < bv_count s)%nat /\
      ms_fits a sec v s;
  ms_fits_others : forall s s' v b a sec, same_but v s s' -> ts_getBlk v s = Ok b -> ms_fits a sec v s -> ms_fits a sec v s';
  ms_insert : forall now mx p s v b a sec dom g, ls_ok s -> ts_getBlk v s = Ok b -> CacheBlk.isValid b = false ->
    ms_fits a sec v s -> Packet.getAddr p = Ok a -> Packet.isSecure p = Ok sec -> Packet.getDomainID p = Ok dom ->
    in_word 64 a -> Request.requestorId (Packet.req p) < mx -> now <= MaxTick ->
    exists s' g' x, ts_insertBlock now mx p v s g = Ok (s', g') /\ ls_ok s' /\ same_but v s s' /\
      at_line s' v (a - a mod 2 ^ line_shift s) x /\ CacheBlk.isSecure x = sec /\ CacheBlk.getDomainID x = dom /\
      CacheBlk.data x = CacheBlk.data b /\ CacheBlk.coherence x = CacheBlk.coherence b /\
      CacheBlk.lockList x = CacheBlk.lockList b /\ CacheBlk._tickInserted x = now
}.

Lemma invalidate_fields x y : CacheBlk.invalidate x = Ok y -> CacheBlk._valid y = false.
Proof. unfold CacheBlk.invalidate, CacheBlk.setWhenReady. intros Hi. by inv_res. Qed.

(** ** The stores *)
Section stores.
Context {I R : Type} `{IndexingPolicyOk I} `{ReplacementPolicyOk R}.
Import BaseTags.

Lemma base_get (s : t I R) e : (e < length (blks s))%nat -> exists x, getBlk e s = Ok x.
Proof. intros [x Hx]%lookup_lt_is_Some. exists x. by apply lookupR_Ok. Qed.

Lemma base_upd f (s : t I R) n e x x' :
  TagsFacts.wf s n -> getBlk e s = Ok x -> f x = Ok x' -> place x' = place x ->
  updBlk f e s = Ok (set_blks (<[e := x']> (blks s)) s) /\ TagsFacts.wf (set_blks (<[e := x']> (blks s)) s) n.
Proof.
  intros [Hlen Hip Hrp Hsec Htick] Hx Hf Hp. unfold updBlk. rewrite Hx. cbn [rbind]. rewrite Hf. split; [done|].
  apply lookupR_Ok in Hx. pose proof (lookup_lt_Some _ _ _ Hx). injection Hp as Ev Es _ _ _ _ Et.
  constructor; simpl; [by rewrite length_insert|done|done| |]; intros e' b Hb;
    apply list_lookup_insert_Some in Hb as [(-> & <- & _)|[_ Hb]]; eauto.
  rewrite Et. by eapply Htick.
Qed.

(** The address of a block, in the two kinds of store. *)
Definition sa_addr (s : t I R) (b : CacheBlk.t) : res Z :=
  ip_regenerateAddr (indexingPolicy s) (CacheBlk.getTag b) (CacheBlk._set b, CacheBlk._way b).
Definition nr_addr (s : t I R) (b : CacheBlk.t) : res Z :=
  ip_regenerateAddr_bits (indexingPolicy s) (CacheBlk.getTag b) (CacheBlk.getIndexBits b).

(** The blocks after a change of one of them; [f] stands for the address of a block. *)
Lemma base_changed (f : CacheBlk.t -> res Z) (s : t I R) r e b x :
  getBlk e s = Ok x ->
  let s' := set_replacement r (set_blks (<[e := b]> (blks s)) s) in
  length (blks s') = length (blks s) /\ getBlk e s' = Ok b /\
  (forall e', e' <> e -> (getBlk e' s', rbind (getBlk e' s') f) = (getBlk e' s, rbind (getBlk e' s) f)).
Proof.
  intros Hx%lookupR_Ok s'. assert (forall e', e' <> e -> getBlk e' s' = getBlk e' s) as Ho.
  { intros e' Hne. unfold getBlk, lookupR, s'. simpl. by rewrite list_lookup_insert_ne. }
  split; [by simpl; rewrite length_insert|]. split; [|intros; by rewrite Ho].
  apply lookupR_Ok. simpl. apply list_lookup_insert_eq. by eapply lookup_lt_Some.
Qed.

Lemma base_set_replacement (s : t I R) l : set_blks l s = set_replacement (replacementData s) (set_blks l s).
Proof. by destruct s. Qed.

Lemma place_addr (s : t I R) x x' : place x' = place x -> sa_addr s x' = sa_addr s x /\ nr_addr s x' = nr_addr s x.
Proof. unfold sa_addr, nr_addr, CacheBlk.getTag, CacheBlk.getIndexBits. intros [= _ _ -> -> -> -> _]. done. Qed.

Lemma base_invalidate now (s : t I R) n e x :
  TagsFacts.wf s n -> getBlk e s = Ok x -> CacheBlk.isValid x = true ->
  exists b r, BaseSetAssoc.invalidate now e s = Ok (set_replacement r (set_blks (<[e := b]> (blks s)) s)) /\
    TagsFacts.wf (set_replacement r (set_blks (<[e := b]> (blks s)) s)) n /\ CacheBlk.invalidate x = Ok b.
Proof.
  intros Hwf Hx Hv. pose proof Hx as Hx'%lookupR_Ok.
  destruct (TagsFacts.invalidate_ok now e s n x Hwf Hx' Hv) as (b & r & Hi & ? & _).
  exists b, r. split; [done|]. split; [done|].
  unfold BaseSetAssoc.invalidate, invalidate, updBlk, rp_drop in Hi. rewrite Hx in Hi. cbn [rbind] in Hi.
  rewrite Hv in Hi. destruct (CacheBlk.invalidate x) as [b'|]; cbn [rbind] in Hi; [|done]. inv_res.
  match goal with Hl : <[e:=b']> _ = _ |- _ => apply (f_equal (lookup e)) in Hl;
    rewrite !list_lookup_insert_eq in Hl by (by eapply lookup_lt_Some) end. congruence.
Qed.

#[global] Instance set_assoc_shift : LineSize (SetAssocTags I R) :=
  {| line_shift s := ip_shift (indexingPolicy (sa_tags s)) |}.

#[global, program] Instance set_assoc_lines : LineStore (SetAssocTags I R) :=
  {| ls_ok s := exists n, TagsFacts.wf (sa_tags s) n |}.
Next Obligation. intros s e He. by apply base_get. Qed.
Next Obligation.
  intros f [s] e x x' [n Hwf] Hx Hf Hp. destruct (base_upd f s n e x x' Hwf Hx Hf Hp) as [Hu Hwf'].
  exists (mkSetAssoc (set_blks (<[e := x']> (blks s)) s)). simpl. rewrite Hu. split; [done|]. split; [by exists n|].
  destruct (base_changed (sa_addr s) s (replacementData s) e x' x Hx) as (? & Hself & ?).
  rewrite <- base_set_replacement in *. split; [by constructor|]. unfold view. simpl. unfold BaseSetAssoc.regenerateBlkAddr.
  simpl in Hx. rewrite Hx, Hself. cbn [rbind]. f_equal. apply (place_addr s x x' Hp).
Qed.
Next Obligation.
  intros now [s] e x [n Hwf] Hx Hv. destruct (base_invalidate now s n e x Hwf Hx Hv) as (b & r & Hi & Hwf' & Hb).
  exists (mkSetAssoc (set_replacement r (set_blks (<[e := b]> (blks s)) s))), b.
  simpl. rewrite Hi. split; [done|]. split; [by exists n|].
  destruct (base_changed (sa_addr s) s r e b x Hx) as (? & ? & ?). split; [by constructor|done].
Qed.

End stores.

(** *** The RaS store *)
Section ras.
Context {R : Type} `{ReplacementPolicyOk R} `{RandomSource}.
Import BaseTags NewRandFacts.

(** Well formed, of a size the random draw covers, with unique index bits, and every
    valid line holding the tag and index bits of an address. *)
Record ras_ok (s : t NewRandIdx.t R) (n : nat) : Prop := {
  ro_wf : TagsFacts.wf s n;
  ro_unique : index_unique s;
  ro_alloc : allocAssoc s = Z.of_nat n;
  ro_size : Z.of_nat n < 2 ^ 32;
  ro_addr : forall e b, blks s !! e = Some b -> CacheBlk._valid b = true ->
    exists a, in_word 64 a /\ CacheBlk._tag b = extractTag a s /\ CacheBlk._index_bits b = extractIndex a s
}.

(** Replacing a line by one that is no more than it was keeps the store. *)
Lemma ras_ok_insert s n r e b x :
  ras_ok s n -> blks s !! e = Some x -> TagsFacts.wf (set_replacement r (set_blks (<[e := b]> (blks s)) s)) n ->
  (CacheBlk._valid b = true -> place b = place x) ->
  ras_ok (set_replacement r (set_blks (<[e := b]> (blks s)) s)) n.
Proof.
  intros [Hwf Hu Ha Hn Had] Hx Hwf' Hp. constructor; try done.
  - assert (forall y z, <[e := b]> (blks s) !! y = Some z -> CacheBlk._valid z = true -> exists z',
      blks s !! y = Some z' /\ CacheBlk._valid z' = true /\ CacheBlk._secure z' = CacheBlk._secure z /\
      CacheBlk._index_bits z' = CacheBlk._index_bits z) as Hold.
    { intros y z Hz Hv. apply list_lookup_insert_Some in Hz as [(-> & <- & _)|[_ Hz]]; [|by exists z].
      injection (Hp Hv) as Ev Es _ Ei _ _ _. exists x. split_and!; congruence. }
    intros y y' z z' Hz Hz' Hv Hv' Hs Hi. simpl in Hz, Hz'.
    destruct (Hold _ _ Hz Hv) as (w & ? & ? & ? & ?). destruct (Hold _ _ Hz' Hv') as (w' & ? & ? & ? & ?).
    eapply Hu; [done|done|done|done|congruence|congruence].
  - simpl. intros y z Hz Hv. apply list_lookup_insert_Some in Hz as [(-> & <- & _)|[_ Hz]]; [|by eapply Had].
    injection (Hp Hv) as Ev Es Et Ei _ _ _. destruct (Had _ _ Hx) as (a & ? & ? & ?); [congruence|].
    exists a. split; [done|]. split; [by rewrite Et|by rewrite Ei].
Qed.

#[global] Instance rand_shift : LineSize (RandTags NewRandIdx.t R) :=
  {| line_shift s := Indexing.setShift (NewRandIdx.base (indexingPolicy (nr_tags s))) |}.

#[global, program] Instance rand_lines : LineStore (RandTags NewRandIdx.t R) :=
  {| ls_ok s := exists n, ras_ok (nr_tags s) n |}.
Next Obligation. intros s e He. by apply base_get. Qed.
Next Obligation.
  intros f [s] e x x' [n Hok] Hx Hf Hp.
  destruct (base_upd f s n e x x' (ro_wf _ _ Hok) Hx Hf Hp) as [Hu Hwf'].
  exists (mkRand (set_blks (<[e := x']> (blks s)) s)). simpl. rewrite Hu. split; [done|].
  rewrite base_set_replacement in *. split.
  { exists n. simpl. eapply ras_ok_insert; [done|by apply lookupR_Ok|done|done]. }
  destruct (base_changed (nr_addr s) s (replacementData s) e x' x Hx) as (? & Hself & ?).
  split; [by constructor|]. unfold view. simpl. unfold NewRandTag.regenerateBlkAddr.
  simpl in Hx. rewrite Hx, Hself. cbn [rbind]. f_equal. apply (place_addr s x x' Hp).
Qed.
Next Obligation.
  intros now [s] e x [n Hok] Hx Hv.
  destruct (base_invalidate now s n e x (ro_wf _ _ Hok) Hx Hv) as (b & r & Hi & Hwf' & Hb).
  exists (mkRand (set_replacement r (set_blks (<[e := b]> (blks s)) s))), b.
  simpl. change (NewRandTag.invalidate now e s) with (BaseSetAssoc.invalidate now e s). rewrite Hi.
  split; [done|]. split.
  { exists n. eapply ras_ok_insert; [done|by apply lookupR_Ok|done|].
    by rewrite (invalidate_fields _ _ Hb). }
  destruct (base_changed (nr_addr s) s r e b x Hx) as (? & ? & ?). split; [by constructor|done].
Qed.

(** A line that holds the tag and index bits of an address holds its line of memory. *)
Lemma ras_regenerate s n e b a :
  ras_ok s n -> blks s !! e = Some b -> in_word 64 a -> CacheBlk._tag b = extractTag a s ->
  CacheBlk._index_bits b = extractIndex a s ->
  NewRandTag.regenerateBlkAddr e s = Ok (RoundTrip.align (line_shift (mkRand s)) a).
Proof.
  intros Hok Hb Ha Ht Hi. unfold NewRandTag.regenerateBlkAddr, getBlk.
  rewrite (proj2 (lookupR_Ok _ _ _) Hb). cbn [rbind]. unfold CacheBlk.getTag, CacheBlk.getIndexBits. rewrite Ht, Hi.
  apply RoundTrip.nr_regenerate; [|done]. apply (TagsFacts.wf_ip _ _ (ro_wf _ _ Hok)).
Qed.

Lemma ras_same_line s n a a' :
  ras_ok s n -> in_word 64 a -> in_word 64 a' ->
  RoundTrip.align (line_shift (mkRand s)) a = RoundTrip.align (line_shift (mkRand s)) a' ->
  extractTag a s = extractTag a' s /\ extractIndex a s = extractIndex a' s.
Proof.
  intros Hok Ha Ha' Hal. pose proof (TagsFacts.wf_ip _ _ (ro_wf _ _ Hok)) as Hip.
  eapply (ip_block_only (indexingPolicy s) n a a' Hip Ha Ha'). apply PolicyOk.align_block; [|done].
  destruct Hip as [Hr _]. apply (Indexing.wf_setShift _ (RoundTrip.nr_base _ Hr)).
Qed.

Lemma ras_find s n a sec dom :
  ras_ok s n -> in_word 64 a ->
  exists r, NewRandTag.findBlock_dom a sec dom s = Ok r /\
    match r with
    | Some e => exists x, at_line (mkRand s) e (RoundTrip.align (line_shift (mkRand s)) a) x /\ CacheBlk.isSecure x = sec
    | None => forall e x, at_line (mkRand s) e (RoundTrip.align (line_shift (mkRand s)) a) x -> CacheBlk.isSecure x <> sec
    end.
Proof.
  intros Hok Ha. pose proof (ro_wf _ _ Hok) as Hwf. destruct (candidates s n a Hwf Ha) as (Hes & _ & Hr).
  unfold NewRandTag.findBlock_dom. cbn [ip_getPossibleEntries NewRandIdx.new_rand_idx]. rewrite Hes. cbn [rbind].
  match goal with |- context [search ?p s _] => destruct (TagsFacts.search_spec p s (seq 0 n) Hr)
    as [(l1 & e & l2 & b & -> & _ & Hb & Hp & _)|[-> Hnone]] end.
  - exists (Some e). split; [done|]. inv_res. exists b.
    repeat match goal with E : Bool.eqb _ _ = true |- _ => apply eqb_prop in E
      | E : (_ =? _) = true |- _ => apply Z.eqb_eq in E end.
    split; [|done]. split; [|done]. unfold view. simpl. unfold getBlk. rewrite (proj2 (lookupR_Ok _ _ _) Hb). f_equal.
    by eapply ras_regenerate.
  - exists None. split; [done|]. intros e x [[= Hx Haddr] Hv] Hs. simpl in Hx, Haddr.
    apply lookupR_Ok in Hx. destruct (ro_addr _ _ Hok e x Hx Hv) as (a' & Ha' & Ht & Hi).
    rewrite (ras_regenerate s n e x a' Hok Hx Ha' Ht Hi) in Haddr. simplify_res.
    destruct (ras_same_line s n a' a Hok Ha' Ha) as [Et Ei]; [done|].
    specialize (Hnone e x). rewrite Hv, eqb_reflx in Hnone. unfold CacheBlk.getTag, CacheBlk.getIndexBits in Hnone.
    rewrite Ht, Hi, Et, Ei, !Z.eqb_refl in Hnone. cbn [andb] in Hnone. discriminate Hnone; [|done].
    apply elem_of_seq. apply lookup_lt_Some in Hx. rewrite (TagsFacts.wf_len _ _ Hwf) in Hx. lia.
Qed.

Lemma ras_touch now nf s n e x :
  ras_ok s n -> getBlk e s = Ok x ->
  exists r, on_hit now nf (Some e) s = Ok (set_replacement r (set_blks (<[e := CacheBlk.increaseRefCount x]> (blks s)) s)) /\
    ras_ok (set_replacement r (set_blks (<[e := CacheBlk.increaseRefCount x]> (blks s)) s)) n.
Proof.
  intros Hok Hx. pose proof (ro_wf _ _ Hok) as Hwf. pose proof Hx as Hx'%lookupR_Ok.
  destruct (base_upd (fun b => Ok (CacheBlk.increaseRefCount b)) s n e x _ Hwf Hx eq_refl eq_refl) as [Hu Hwf'].
  assert (exists r, (if nf then Ok (set_blks (<[e := CacheBlk.increaseRefCount x]> (blks s)) s)
                     else touch now e (set_blks (<[e := CacheBlk.increaseRefCount x]> (blks s)) s))
      = Ok (set_replacement r (set_blks (<[e := CacheBlk.increaseRefCount x]> (blks s)) s)) /\ rp_wf r n) as (r & Hr & Hrp).
  { destruct nf; [exists (replacementData s); split; [by rewrite <- base_set_replacement|apply (TagsFacts.wf_rp _ _ Hwf)]|].
    destruct (rp_touch_ok now e (replacementData s) n (TagsFacts.wf_rp _ _ Hwf)) as (r & Hr & ?).
    { rewrite <- (TagsFacts.wf_len _ _ Hwf). by eapply lookup_lt_Some. }
    exists r. split; [|done]. unfold touch. simpl. by rewrite Hr. }
  exists r. simpl on_hit. rewrite Hu. split; [exact Hr|].
  eapply ras_ok_insert; [done|done| |done]. destruct Hwf'. by constructor.
Qed.

Lemma ras_access now s n a sec dom nf :
  ras_ok s n -> in_word 64 a ->
  exists r s', NewRandTag.accessBlock_dom now a sec dom nf s = Ok (r, s', lookupLatency s') /\
    NewRandTag.findBlock_dom a sec dom s = Ok r /\ ras_ok s' n /\ length (blks s') = length (blks s) /\
    indexingPolicy s' = indexingPolicy s /\
    forall e, rmap (CacheBlk.with_refCount 0) (getBlk e s') = rmap (CacheBlk.with_refCount 0) (getBlk e s).
Proof.
  intros Hok Ha. destruct (ras_find s n a sec dom Hok Ha) as (r & Hf & Hr). unfold NewRandTag.accessBlock_dom.
  rewrite Hf. cbn [rbind]. destruct r as [e|]; [|by exists None, s].
  destruct Hr as (x & [[= Hx _] _] & _). simpl in Hx.
  destruct (ras_touch now nf s n e x Hok Hx) as (r & -> & Hok'). cbn [rbind].
  eexists (Some e), _. split; [reflexivity|]. split; [done|]. split; [done|].
  split; [by simpl; rewrite length_insert|]. split; [done|]. intros e'. unfold getBlk, lookupR. simpl.
  destruct (decide (e' = e)) as [->|Hne]; [|by rewrite list_lookup_insert_ne].
  apply lookupR_Ok in Hx. rewrite list_lookup_insert_eq by (by eapply lookup_lt_Some). by rewrite Hx.
Qed.

(** The address of a line does not depend on its reference count. *)
Lemma ras_same_addr (s s' : t NewRandIdx.t R) e :
  indexingPolicy s' = indexingPolicy s ->
  rmap (CacheBlk.with_refCount 0) (getBlk e s') = rmap (CacheBlk.with_refCount 0) (getBlk e s) ->
  NewRandTag.regenerateBlkAddr e s' = NewRandTag.regenerateBlkAddr e s.
Proof.
  intros Hip Hg. unfold NewRandTag.regenerateBlkAddr. rewrite Hip.
  destruct (getBlk e s) as [x|], (getBlk e s') as [y|]; simpl in Hg |- *; [|done|done|congruence].
  apply ok_inj in Hg. by destruct x, y; simplify_eq/=.
Qed.

(** The line of [a] can go to line [v]: no other line has its index bits. *)
Definition ras_fits (a : Z) (sec : bool) (v : nat) (s : t NewRandIdx.t R) : Prop :=
  forall e b, blks s !! e = Some b -> CacheBlk.matchIndex (extractIndex a s) sec b = true -> e = v.

Lemma ras_ok_add s n r v x a :
  ras_ok s n -> TagsFacts.wf (set_replacement r (set_blks (<[v := x]> (blks s)) s)) n -> in_word 64 a ->
  ras_fits a (CacheBlk.isSecure x) v s -> CacheBlk._tag x = extractTag a s -> CacheBlk._index_bits x = extractIndex a s ->
  ras_ok (set_replacement r (set_blks (<[v := x]> (blks s)) s)) n.
Proof.
  intros [Hwf Hu Hal Hn Had] Hwf' Ha Hfit Ht Hi. constructor; try done.
  - assert (forall z bz, blks s !! z = Some bz -> CacheBlk._valid bz = true ->
      CacheBlk._secure bz = CacheBlk._secure x -> CacheBlk._index_bits bz = CacheBlk._index_bits x -> z = v) as Hv.
    { intros z bz Hz Hvz Hs Hiz. eapply Hfit; [done|]. unfold CacheBlk.matchIndex, CacheBlk.isValid,
        CacheBlk.getIndexBits, CacheBlk.isSecure. by rewrite Hvz, Hiz, Hs, Hi, Z.eqb_refl, eqb_reflx. }
    intros y y' z z' Hz Hz' Vz Vz' Hs Hi'. simpl in Hz, Hz'.
    apply list_lookup_insert_Some in Hz as [(-> & <- & _)|[? Hz]], Hz' as [(-> & <- & _)|[? Hz']].
    + done.
    + symmetry. by eapply Hv.
    + by eapply Hv.
    + by eapply Hu.
  - simpl. intros y z Hz Vz. apply list_lookup_insert_Some in Hz as [(-> & <- & _)|[_ Hz]]; [by exists a|by eapply Had].
Qed.

Lemma ras_insert now mx p s n v b a sec dom g :
  ras_ok s n -> getBlk v s = Ok b -> CacheBlk.isValid b = false -> ras_fits a sec v s ->
  Packet.getAddr p = Ok a -> Packet.isSecure p = Ok sec -> Packet.getDomainID p = Ok dom ->
  in_word 64 a -> Request.requestorId (Packet.req p) < mx -> now <= MaxTick ->
  exists r x g', NewRandTag.insertBlock now mx p v s g
      = Ok (set_replacement r (set_blks (<[v := x]> (blks s)) s), g') /\
    ras_ok (set_replacement r (set_blks (<[v := x]> (blks s)) s)) n /\
    CacheBlk.isValid x = true /\ CacheBlk._tag x = extractTag a s /\ CacheBlk._index_bits x = extractIndex a s /\
    CacheBlk.isSecure x = sec /\ CacheBlk.getDomainID x = dom /\ CacheBlk.data x = CacheBlk.data b /\
    CacheBlk.coherence x = CacheBlk.coherence b /\ CacheBlk.lockList x = CacheBlk.lockList b /\
    CacheBlk._tickInserted x = now.
Proof.
  intros Hok Hb Hv Hfit Hpa Hps Hpd Ha Hreq Hnow. pose proof (ro_wf _ _ Hok) as Hwf. pose proof Hb as Hb'%lookupR_Ok.
  destruct (insertBlock_ok now mx p v s g n b a sec dom Hwf Hb' Hv Hreq Hpa Hps Hpd) as (s' & g' & Hi).
  pose proof (TagsFacts.insertBlock_wf now mx p v s s' g g' n Hwf Hnow Hi) as Hwf'.
  pose proof Hi as Hrun.
  unfold NewRandTag.insertBlock, BaseTags.insertBlock, reset, CacheBlk.insert, CacheBlk.tagged_insert in Hi.
  rewrite Hb in Hi. cbn [rbind] in Hi. rewrite Hv, Hpa, Hps, Hpd in Hi. cbn [negb rbind] in Hi.
  rewrite (proj2 (Z.ltb_lt _ _) Hreq) in Hi. cbn [rbind] in Hi. inv_res.
  pose proof (TagsFacts.wf_secure _ _ Hwf v b Hb' Hv) as Hsec.
  match goal with Hr : rp_reset now v _ = Ok (?r, g') |- _ => eexists r, _, g'; split; [exact Hrun|] end.
  split; [|by destruct sec]. eapply ras_ok_add; [done|done|done| |by destruct sec..].
  destruct sec; [done|]. unfold CacheBlk.isSecure. simpl. by rewrite Hsec.
Qed.

#[global, program] Instance rand_map : MapStore (RandTags NewRandIdx.t R) :=
  {| ms_fits a sec v s := ras_fits a sec v (nr_tags s) |}.
Next Obligation. intros [s] e x _ Hx%lookupR_Ok. by apply lookup_lt_Some in Hx. Qed.
Next Obligation.
  intros [s] e e' a x x' [n Hok] [[= Hx Ha] Hv] [[= Hx' Ha'] Hv'] Hs. simpl in *.
  apply lookupR_Ok in Hx, Hx'. destruct (ro_addr _ _ Hok e x Hx Hv) as (b & Hb & Ht & Hi).
  destruct (ro_addr _ _ Hok e' x' Hx' Hv') as (b' & Hb' & Ht' & Hi').
  rewrite (ras_regenerate s n e x b Hok Hx Hb Ht Hi) in Ha.
  rewrite (ras_regenerate s n e' x' b' Hok Hx' Hb' Ht' Hi') in Ha'.
  destruct (ras_same_line s n b b' Hok Hb Hb') as [_ Ei]; [congruence|].
  eapply (ro_unique _ _ Hok); [done|done|done|done|done|congruence].
Qed.
Next Obligation. intros [s] a sec dom [n Hok] Ha. by apply (ras_find s n). Qed.
Next Obligation.
  intros now [s] a sec dom nf [n Hok] Ha. destruct (ras_access now s n a sec dom nf Hok Ha) as (r & s' & Hs & Hf & Hok' & Hl & Hip & Hg).
  exists r, (mkRand s'), (lookupLatency s'). simpl. rewrite Hs. simpl in Hl |- *. rewrite Hl, Hip.
  split; [done|]. split; [done|]. split; [by exists n|]. split; [done|]. split; [done|].
  intros e. split; [|apply Hg]. by apply ras_same_addr.
Qed.
Next Obligation.
  intros now [s] a sec dom m g [n Hok] Ha Hf. pose proof Hok as [Hwf Hu Hal Hn _].
  destruct (findVictim_ok now a sec dom m s n g Hwf Hu Ha Hal Hn Hf) as (v & g' & Hv & Hlt & Hfit & _).
  exists v, g'. simpl. rewrite Hv. split; [done|]. rewrite (TagsFacts.wf_len _ _ Hwf : length (blks s) = n). done.
Qed.
Next Obligation.
  intros [s] [s'] v c a sec [_ _ Hi Ho] Hc Hfit e b Hb Hm. destruct (decide (e = v)) as [->|Hne]; [done|].
  specialize (Ho e Hne). injection Ho as Ho _. simpl in *. unfold extractIndex in *. rewrite Hi in Hm.
  eapply Hfit; [|exact Hm]. apply lookupR_Ok. unfold getBlk in Ho. rewrite <- Ho. by apply lookupR_Ok.
Qed.
Next Obligation.
  intros now mx p [s] v b a sec dom g [n Hok] Hb Hv Hfit Hpa Hps Hpd Ha Hreq Hnow.
  destruct (ras_insert now mx p s n v b a sec dom g Hok Hb Hv Hfit Hpa Hps Hpd Ha Hreq Hnow)
    as (r & x & g' & Hi & Hok' & Hvx & Ht & Hix & ? & ? & ? & ? & ? & ?).
  destruct (base_changed (nr_addr s) s r v x b Hb) as (? & Hself & ?).
  eexists (mkRand _), g', x. simpl. rewrite Hi. split; [done|]. split; [by exists n|]. split; [by constructor|].
  split; [|done]. split; [|done]. unfold view. simpl. rewrite Hself. f_equal.
  eapply (ras_regenerate _ n v x a Hok'); [by apply lookupR_Ok|done..].
Qed.

End ras.

End StoreSpec.
