(* ===== verification/FlushFacts.v ===== *)
(** * Writing back and invalidating the whole cache

    [memWriteback] sends every dirty line to memory, once and with its data, and leaves
    the cache clean; [memInvalidate] then empties it. Proved against an interface of the
    tag store, which both stores implement. *)

From S2P Require Import Prelude BaseUtil MemCmd Request Packet CacheBlk ReplPolicy ReplPolicyFacts.
From S2P Require Import Indexing IndexingFacts Tags TagsFacts Prefetch MSHR Queues CacheState BaseCache.
From S2P Require Import CoherentCache CacheModes CacheLogic CacheExamples StoreSpec.
Local Open Scope Z_scope.

Module FlushFacts.
Import CacheState BaseCache BaseModes CacheLogic StoreSpec.

(** ** The visitors *)
Section flush.
Context {T P : Type} `{LineStore T} `{Prefetcher P}.
Variables (C : Config) (E : Env).
Abbreviation S := (CacheState.t T P).

(** Visiting a line in a state its [pre] describes: it succeeds, changes the line as
    [post] says, sends what [sends] says, and changes nothing else. *)
Definition visits (v : nat -> CacheState.M T P unit) (pre : res CacheBlk.t * res Z -> Prop)
    (post : res CacheBlk.t * res Z -> res CacheBlk.t * res Z -> Prop)
    (sends : res CacheBlk.t * res Z -> list Action -> Prop) : Prop :=
  forall e (s : S), ls_ok (tags s) -> pre (view e (tags s)) ->
  exists s' l, v e s = Ok (tt, s') /\ ls_ok (tags s') /\ same_but e (tags s) (tags s') /\
    post (view e (tags s)) (view e (tags s')) /\ sends (view e (tags s)) l /\
    s' = with_out (out s ++ l) (with_tags (tags s') s).

Lemma visit_lines v pre post sends l : visits v pre post sends -> NoDup l -> forall s : S,
  ls_ok (tags s) -> (forall e, e ∈ l -> pre (view e (tags s))) ->
  exists s' ls, forM l v s = Ok (tt, s') /\ ls_ok (tags s') /\ bv_count (tags s') = bv_count (tags s) /\
    (forall e, e ∈ l -> post (view e (tags s)) (view e (tags s'))) /\
    (forall e, e ∉ l -> view e (tags s') = view e (tags s)) /\
    Forall2 (fun e acts => sends (view e (tags s)) acts) l ls /\
    s' = with_out (out s ++ concat ls) (with_tags (tags s') s).
Proof.
  intros Hv. induction 1 as [|e l Hnot Hnd IH]; intros s Hok Hpre.
  { exists s, []. split_and!; [done..| |done|constructor|]; [set_solver|]. rewrite app_nil_r. by destruct s. }
  destruct (Hv e s Hok (Hpre e ltac:(set_solver))) as (s1 & a & Hrun & Hok1 & [Hc1 _ _ Ho1] & Hpost & Hs & Heq1).
  assert (forall x, x ∈ l -> view x (tags s1) = view x (tags s)) as Hl by (intros; apply Ho1; set_solver).
  destruct (IH s1 Hok1) as (s2 & ls & Hrun2 & Hok2 & Hc2 & Hpost2 & Ho2 & Hs2 & Heq2).
  { intros x Hx. rewrite Hl by done. apply Hpre. set_solver. }
  exists s2, (a :: ls). simpl. unfold bind. rewrite Hrun. cbn [rbind]. split_and!; [done|done|congruence|..].
  - intros x [->|Hx]%elem_of_cons; [by rewrite Ho2|]. rewrite <- Hl by done. by apply Hpost2.
  - intros x Hx. rewrite Ho2 by set_solver. apply Ho1. set_solver.
  - constructor; [done|]. eapply Forall2_impl_l; [exact Hs2|]. intros x y Hx Hy. by rewrite <- Hl.
  - rewrite Heq2. rewrite Heq1 at 1 2. by rewrite app_assoc.
Qed.

Definition is_dirty (w : res CacheBlk.t * res Z) : bool :=
  match w.1 with Ok x => CacheBlk.isSet CacheBlk.DirtyBit x | Err _ => false end.

(** The packet that writes back a line: a write of the whole line to its address, with
    its data, in its security state and domain. *)
Definition flushes (w : res CacheBlk.t * res Z) (p : Packet.t) : Prop :=
  exists x a, w = (Ok x, Ok a) /\ Packet.cmd p = MemCmd.WriteReq /\ Packet.valid p /\ Packet.addr p = a /\
    Packet.size p = blkSize C /\ Packet.data p = Some (CacheBlk.data x) /\
    Packet._isSecure p = CacheBlk.isSecure x /\ Packet.getDomainID p = Ok (CacheBlk.getDomainID x).

(** A line, with an address if it is valid. *)
Definition addressed (w : res CacheBlk.t * res Z) : Prop :=
  exists x, w.1 = Ok x /\ (CacheBlk.isValid x = true -> exists a, w.2 = Ok a).

Definition cleaned (w w' : res CacheBlk.t * res Z) : Prop :=
  w' = if is_dirty w then (rmap (CacheBlk.clearCoherenceBits CacheBlk.DirtyBit) w.1, w.2) else w.

Lemma isSet_valid bits x : CacheBlk.isSet bits x = true -> CacheBlk.isValid x = true.
Proof. by intros [? _]%andb_prop. Qed.

Lemma clear_isSet bits x : CacheBlk.isSet bits (CacheBlk.clearCoherenceBits bits x) = false.
Proof.
  unfold CacheBlk.isSet, CacheBlk.clearCoherenceBits. simpl.
  assert (Z.land (Z.ldiff (CacheBlk.coherence x) bits) bits = 0) as ->; [|by rewrite andb_false_r].
  apply Z.bits_inj'. intros n _. rewrite Z.land_spec, Z.ldiff_spec, Z.bits_0. by destruct (Z.testbit bits n), (Z.testbit _ n).
Qed.

Lemma flush_packet x a :
  exists p, flushes (Ok x, Ok a) p /\
    (let r := Request.make (now E) a (blkSize C) 0 Request.funcRequestorId in
     let r := Request.with_taskId (CacheBlk._taskId x) (Request.setDomainID (CacheBlk.getDomainID x) r) in
     let* r := if CacheBlk.isSecure x then Request.setFlags Request.SECURE r else Ok r in
     let* p := Packet.make 0 r MemCmd.WriteReq in Packet.dataStatic (CacheBlk.data x) p) = Ok p.
Proof.
  destruct (CacheBlk.isSecure x) eqn:Hs; eexists; (split; [|reflexivity]); exists x, a; rewrite ?Hs; done.
Qed.

Lemma writeback_visits :
  visits (writebackVisitor C E) addressed cleaned
    (fun w l => if is_dirty w then exists p, flushes w p /\ l = [SendFunctional p] else l = []).
Proof.
  intros e s Hok (x & Hx & Ha). unfold view in *. simpl in Hx, Ha. unfold writebackVisitor, cleaned.
  unfold bind at 1. simpl getB. rewrite Hx. cbn [rbind fst].
  destruct (CacheBlk.isSet CacheBlk.DirtyBit x) eqn:Hd.
  - pose proof (isSet_valid _ _ Hd) as Hv. destruct (Ha Hv) as [a Haddr]. rewrite Hv, Haddr.
    destruct (flush_packet x a) as (p & Hp & Hmk).
    cbn zeta in Hmk. apply rbind_ok in Hmk as (r & Hr & Hmk). apply rbind_ok in Hmk as (p0 & Hp0 & Hst).
    destruct (ls_upd (fun x => Ok (CacheBlk.clearCoherenceBits CacheBlk.DirtyBit x)) (tags s) e x _ Hok Hx eq_refl eq_refl)
      as (g & Hg & Hok' & Hsame & Hview).
    exists (with_out (out s ++ [SendFunctional p]) (with_tags g s)), [SendFunctional p].
    unfold bind, lift, emit, modify, clearBits, updB. cbn [regenerateBlkAddr]. rewrite Haddr. cbn [rbind].
    rewrite Hr. cbn [rbind]. rewrite Hp0. cbn [rbind]. rewrite Hst. cbn [rbind].
    change (tags (with_out (out s ++ [SendFunctional p]) s)) with (tags s). rewrite Hg.
    unfold view in Hview. simpl in Hview |- *. unfold is_dirty. simpl. rewrite Hd, Hview, Haddr.
    split_and!; eauto.
  - exists s, []. unfold is_dirty. simpl. rewrite Hd, app_nil_r, Hx. split_and!; try done. by destruct s.
Qed.

Lemma invalidate_visits :
  visits (invalidateVisitor C E) (fun w => addressed w /\ is_dirty w = false)
    (fun _ w' => exists x, w'.1 = Ok x /\ CacheBlk.isValid x = false) (fun _ l => l = []).
Proof.
  intros e s Hok [(x & Hx & Ha) Hd]. unfold is_dirty in Hd. simpl in Hx, Ha, Hd. rewrite Hx in Hd. simpl in Hd.
  unfold invalidateVisitor. unfold bind at 1. simpl getB. rewrite Hx. cbn [rbind fst]. rewrite Hd.
  destruct (CacheBlk.isValid x) eqn:Hv.
  - destruct (Ha eq_refl) as [a Haddr].
    destruct (ls_invalidate (now E) (tags s) e x Hok Hx Hv) as (g & x' & Hi & Hok' & Hsame & Hx' & Hv'%invalidate_fields).
    exists (with_tags g s), []. cbn [negb]. unfold invalidateBlock, updateBlockData, regenerateBlkAddr, bind, ret.
    rewrite Haddr. cbn [rbind]. rewrite Hi. split_and!; eauto. rewrite app_nil_r. by destruct s.
  - exists s, []. rewrite app_nil_r. split_and!; eauto; [done|]. by destruct s.
Qed.

Lemma sent_packets (w : nat -> res CacheBlk.t * res Z) l ls :
  Forall2 (fun e acts => if is_dirty (w e) then exists p, flushes (w e) p /\ acts = [SendFunctional p]
                         else acts = []) l ls ->
  exists ps, concat ls = map SendFunctional ps /\
    Forall2 (fun e p => flushes (w e) p) (List.filter (fun e => is_dirty (w e)) l) ps.
Proof.
  induction 1 as [|e acts l ls He _ (ps & Hps & IH)]; [by exists []|]. simpl.
  destruct (is_dirty (w e)); [|subst acts; by exists ps].
  destruct He as (p & Hp & ->). exists (p :: ps). split; [by simpl; rewrite Hps|by constructor].
Qed.

Lemma any_dirty_clean (s : S) l :
  (forall e, e ∈ l -> addressed (view e (tags s)) /\ is_dirty (view e (tags s)) = false) ->
  any_dirty l s = Ok (false, s).
Proof.
  induction l as [|e l IH]; intros Hl; [done|]. destruct (Hl e ltac:(set_solver)) as [(x & Hx & _) Hd].
  unfold is_dirty in Hd. rewrite Hx in Hd. simpl in Hx. simpl. unfold isSetB, bind. simpl. rewrite Hx. cbn [rbind ret].
  rewrite Hd. apply IH. set_solver.
Qed.

Lemma cleaned_addressed w w' : addressed w -> cleaned w w' -> addressed w' /\ is_dirty w' = false.
Proof.
  intros (x & Hx & Ha) ->. destruct w as [r a]. simpl in Hx, Ha. subst r. unfold is_dirty at 1 3. simpl.
  destruct (CacheBlk.isSet CacheBlk.DirtyBit x) eqn:Hd; [|split; [by exists x|by unfold is_dirty; simpl]].
  split; [eexists; split; [done|]; by simpl|]. unfold is_dirty. simpl. apply clear_isSet.
Qed.

(** A dirty line is not thrown away: the visit stops at the assertion. *)
Lemma invalidate_refuses l : NoDup l -> forall s : S, ls_ok (tags s) ->
  (forall e, e ∈ l -> addressed (view e (tags s))) -> (exists e, e ∈ l /\ is_dirty (view e (tags s)) = true) ->
  forM l (invalidateVisitor C E) s = Err AssertFail.
Proof.
  induction 1 as [|e l Hnot Hnd IH]; intros s Hok Ha (d & Hin & Hd); [set_solver|].
  simpl. unfold bind at 1. destruct (is_dirty (view e (tags s))) eqn:He.
  - destruct (Ha e ltac:(set_solver)) as (x & Hx & _). unfold is_dirty in He. rewrite Hx in He. simpl in Hx.
    unfold invalidateVisitor, bind. simpl getB. rewrite Hx. cbn [rbind]. by rewrite (isSet_valid _ _ He), He.
  - destruct (invalidate_visits e s Hok (conj (Ha e ltac:(set_solver)) He)) as (s1 & a & -> & Hok1 & [_ _ _ Ho] & _).
    cbn [rbind]. apply IH; [done| |].
    + intros x Hx. rewrite Ho by set_solver. apply Ha. set_solver.
    + exists d. apply elem_of_cons in Hin as [->|Hin]; [congruence|]. split; [done|]. rewrite Ho; [done|set_solver].
Qed.

(** C35. Writing the cache back loses nothing, and makes it safe to invalidate. For any
    state of the cache whose valid lines have an address, [memWriteback] returns: it has
    sent exactly one functional write per dirty line, in the order of the lines, each of
    the whole line to its own address with the line's data, security state and domain;
    each line keeps its contents and is now clean; and [isDirty] says so. [memInvalidate]
    then returns with every line invalid and nothing sent. Called while some line is
    dirty it fails its assertion instead. *)
Theorem writeback_then_invalidate (s : S) :
  ls_ok (tags s) -> (forall e, (e < bv_count (tags s))%nat -> addressed (view e (tags s))) ->
  let lines := seq 0 (bv_count (tags s)) in
  exists s1 s2 ps, memWriteback C E s = Ok (tt, s1) /\ memInvalidate C E s1 = Ok (tt, s2) /\
    Forall2 (fun e p => flushes (view e (tags s)) p) (List.filter (fun e => is_dirty (view e (tags s))) lines) ps /\
    s1 = with_out (out s ++ map SendFunctional ps) (with_tags (tags s1) s) /\
    s2 = with_tags (tags s2) s1 /\
    (forall e, e ∈ lines -> cleaned (view e (tags s)) (view e (tags s1))) /\
    isDirty s1 = Ok (false, s1) /\
    (forall e, e ∈ lines -> exists x, ts_getBlk e (tags s2) = Ok x /\ CacheBlk.isValid x = false) /\
    ((exists e, e ∈ lines /\ is_dirty (view e (tags s)) = true) -> memInvalidate C E s = Err AssertFail).
Proof.
  intros Hok Haddr lines.
  assert (forall e, e ∈ lines -> addressed (view e (tags s))) as Ha.
  { intros e [_ He]%elem_of_seq. by apply Haddr. }
  destruct (visit_lines _ _ _ _ lines writeback_visits (NoDup_seq _ _) s Hok Ha)
    as (s1 & ls & Hrun1 & Hok1 & Hc1 & Hpost1 & _ & Hsent & Heq1).
  destruct (sent_packets (fun e => view e (tags s)) _ _ Hsent) as (ps & Hps & Hflush).
  assert (forall e, e ∈ lines -> addressed (view e (tags s1)) /\ is_dirty (view e (tags s1)) = false) as Hclean.
  { intros e He. eapply cleaned_addressed; [by apply Ha|by apply Hpost1]. }
  destruct (visit_lines _ _ _ _ lines invalidate_visits (NoDup_seq _ _) s1 Hok1 Hclean)
    as (s2 & ls2 & Hrun2 & _ & _ & Hpost2 & _ & Hsent2 & Heq2).
  assert (concat ls2 = []) as Hnone by (clear -Hsent2; induction Hsent2; simplify_eq/=; done).
  exists s1, s2, ps. unfold memInvalidate, memWriteback, isDirty, forEachBlk, bind, gets. cbn [rbind]. rewrite Hc1.
  split_and!; try done.
  - by rewrite <- Hps.
  - rewrite Hnone, app_nil_r in Heq2. rewrite Heq2 at 1. by destruct s1.
  - by apply any_dirty_clean.
  - intros Hd. by apply invalidate_refuses; [apply NoDup_seq|..].
Qed.

End flush.

Lemma modified_ok : ls_ok (tags CacheExamples.modified).
Proof.
  exists 4%nat. constructor.
  - constructor.
    + reflexivity.
    + split; [|done]. constructor; [constructor; simpl; done || lia|done|done|].
      exists 2. split; [lia|]. split; [simpl; lia|done].
    + done.
    + intros e b Hb. do 4 (destruct e as [|e]; [by simplify_eq/=|]). done.
    + intros e b Hb. do 4 (destruct e as [|e]; [by simplify_eq/=|]). done.
  - intros e e' b b' Hb Hb'. do 4 (destruct e as [|e]; [do 4 (destruct e' as [|e']; [by simplify_eq/=|]); done|]). done.
  - reflexivity.
  - simpl. lia.
  - intros e b Hb Hv. exists 0x1040. split; [done|]. revert Hv.
    do 4 (destruct e as [|e]; [by injection Hb as <-|]). done.
Qed.

Lemma writeback_then_invalidate_witness :
  exists s1 s2 p, memWriteback CacheExamples.l1 (CacheExamples.env 4000) CacheExamples.modified = Ok (tt, s1) /\
    memInvalidate CacheExamples.l1 (CacheExamples.env 4000) s1 = Ok (tt, s2) /\
    out s2 = out CacheExamples.modified ++ [SendFunctional p] /\ Packet.addr p = 0x1040 /\
    Packet.data p = Some (map Z.of_nat (seq 0 64)).
Proof.
  destruct (writeback_then_invalidate CacheExamples.l1 (CacheExamples.env 4000) CacheExamples.modified modified_ok)
    as (s1 & s2 & ps & H1 & H2 & Hf & Hs1 & Hs2 & _).
  - intros e He. simpl in He. do 4 (destruct e as [|e]; [by eexists; split; [reflexivity|]; eauto|]). lia.
  - destruct ps as [|p [|]]; [by inversion Hf| |by inversion Hf as [|? ? ? ? ? Hf']; inversion Hf'].
    exists s1, s2, p. split; [exact H1|]. split; [exact H2|].
    apply Forall2_cons_1 in Hf as [(x & a & Hv & _ & _ & Ha & _ & Hd & _) _].
    split; [rewrite Hs2, Hs1; reflexivity|]. injection Hv as <- <-. split; [exact Ha|exact Hd].
Defined.

End FlushFacts.
