(* ===== verification/ModeExamples.v ===== *)
(** * RaS outside the timing accesses of a coherent cache

    Runs of the small configuration in atomic mode and of a non-coherent cache. The
    defence is built for timing accesses to coherent caches; these runs show what is
    left of it elsewhere. *)

From S2P Require Import Prelude BaseUtil MemCmd Request Packet CacheBlk ReplPolicy ReplPolicyFacts.
From S2P Require Import Indexing IndexingFacts Tags Prefetch MSHR Queues CacheState BaseCache CoherentCache.
From S2P Require Import CacheModes NoncoherentCache CacheExamples.
Local Open Scope Z_scope.

Module ModeExamples.
Import CacheState CacheExamples.

(** A memory that answers atomic reads with the bytes 0 to 63. *)
Definition memory : Peers :=
  mkPeers (fun _ p => (30000, the p (let* p := Packet.makeAtomicResponse p in
                                     Packet.setData (map Z.of_nat (seq 0 64)) p)))
    (fun _ p => p) (fun p => (false, p)) (fun p => (false, p)) id id.

Definition valid_lines (s : State) : list bool :=
  map (fun e => match ts_getBlk e (tags s) with Ok x => CacheBlk.isValid x | Err _ => false end) (seq 0 4).

(** The targets waiting in each MSHR in use. *)
Definition waiting (s : State) : list nat :=
  map (fun e => match Queue.entry e (MSHRQueue.queue (mshrQueue s)) with
                | Ok m => MSHR.getNumTargets m | Err _ => 0%nat end)
    (Queue.allocatedList (MSHRQueue.queue (mshrQueue s))).

Definition atomic_load : Packet.t := Eval vm_compute in
  match CacheAtomic.recvAtomic l1 (env 1000) memory spec_load init with
  | Ok (_, p, _) => p | Err _ => spec_load end.
Definition atomic_loaded : State := Eval vm_compute in
  after init (CacheAtomic.recvAtomic l1 (env 1000) memory spec_load init).

(** The load of [spec_load] in another domain. *)
Definition other_load : Packet.t := Eval vm_compute in
  Packet.with_req (Request.setDomainID 4 (Packet.req spec_load)) spec_load.

Definition coherent_first : State := Eval vm_compute in
  after init (Cache.port_recvTimingReq l1 (env 1000) spec_load init).
Definition coherent_second : State := Eval vm_compute in
  after init (Cache.port_recvTimingReq l1 (env 1500) other_load coherent_first).
Definition plain_first : State := Eval vm_compute in
  after init (NoncoherentCache.port_recvTimingReq l1 (env 1000) spec_load init).
(** A write-back of a line that must not fill. *)
Definition nofill_writeback : Packet.t := Eval vm_compute in
  the spec_load (let* p := Packet.make 0 (Request.setDomainID 3
                   (Request.make 0 0x1040 64 Request.NO_FILL 0)) MemCmd.WritebackDirty in
                 Packet.dataStatic (replicate 64 1) p).

(** The runs, for the theorems below. *)
Lemma atomic_run : CacheAtomic.recvAtomic l1 (env 1000) memory spec_load init = Ok (30500, atomic_load, atomic_loaded).
Proof. vm_cast_no_check (eq_refl (Ok (30500, atomic_load, atomic_loaded))). Qed.
Lemma coherent_first_run : Cache.port_recvTimingReq l1 (env 1000) spec_load init = Ok (true, coherent_first).
Proof. vm_cast_no_check (eq_refl (Ok (true, coherent_first))). Qed.
Lemma coherent_second_run :
  Cache.port_recvTimingReq l1 (env 1500) other_load coherent_first = Ok (true, coherent_second).
Proof. vm_cast_no_check (eq_refl (Ok (true, coherent_second))). Qed.
Lemma plain_first_run : NoncoherentCache.port_recvTimingReq l1 (env 1000) spec_load init = Ok (true, plain_first).
Proof. vm_cast_no_check (eq_refl (Ok (true, plain_first))). Qed.

(** The defence is not in force in atomic mode: a load marked no-fill that misses a cache
    in no-fill mode allocates a line. [Cache::handleAtomicReqMiss] asks [allocOnFill] and
    not the mark, and the panic that is to exclude atomic accesses guards only the use of
    the temporary block. *)
Theorem atomic_nofill_load_fills :
  nofillEn l1 = true /\ Packet.isMayNotFill spec_load = true /\
  valid_lines init = [false; false; false; false] /\
  exists lat p s, CacheAtomic.recvAtomic l1 (env 1000) memory spec_load init = Ok (lat, p, s) /\
    Packet.data p = Some [8; 9; 10; 11; 12; 13; 14; 15] /\ valid_lines s = [true; false; false; false].
Proof. split_and!; [reflexivity..|]. eexists _, _, _. split; [exact atomic_run|]. split; reflexivity. Qed.

(** Two domains collide in a non-coherent cache. A coherent cache keeps the misses of two
    domains to one line in two MSHRs. [NoncoherentCache::handleTimingReqMiss] looks the
    MSHR up without the domain, and the second miss fails the assertion of
    [MSHR::allocateTarget] that domains agree. *)
Theorem noncoherent_domains_collide :
  (exists s1 s2, Cache.port_recvTimingReq l1 (env 1000) spec_load init = Ok (true, s1) /\
     Cache.port_recvTimingReq l1 (env 1500) other_load s1 = Ok (true, s2) /\ waiting s2 = [1; 1]%nat) /\
  (exists s1, NoncoherentCache.port_recvTimingReq l1 (env 1000) spec_load init = Ok (true, s1) /\
     waiting s1 = [1]%nat /\
     NoncoherentCache.port_recvTimingReq l1 (env 1500) other_load s1 = Err AssertFail).
Proof.
  split.
  - eexists _, _. split; [exact coherent_first_run|]. split; [exact coherent_second_run|]. reflexivity.
  - eexists. split; [exact plain_first_run|]. split; [reflexivity|].
    vm_cast_no_check (eq_refl (Err (A := bool * State) AssertFail)).
Qed.

(** In no-fill mode a write-back marked no-fill that misses a non-coherent cache fails an
    assertion: [BaseCache::access] does not allocate a line for it, and
    [NoncoherentCache::access] asserts that there is one. *)
Theorem noncoherent_nofill_writeback_fails :
  nofillEn l1 = true /\ Packet.isMayNotFill nofill_writeback = true /\
  NoncoherentCache.port_recvTimingReq l1 (env 1000) nofill_writeback init = Err AssertFail.
Proof. split_and!; [reflexivity..|]. vm_cast_no_check (eq_refl (Err (A := bool * State) AssertFail)). Qed.

End ModeExamples.
