(* ===== verification/DynInst.v ===== *)
(** * Instructions in flight: cpu/static_inst.hh, cpu/base_dyn_inst.hh

    The part of an instruction that the reorder buffer, the commit stage and the
    load/store queue read and write. An instruction object is shared by the stages
    of the pipeline, which hold pointers to it; [heap] is the store of these objects
    and a [DynInstPtr] is a key of it. Operands, register renaming, results and
    traces are not part of the model. *)

From stdpp Require Import gmap.
From S2P Require Import Prelude.
From S2P Require Import BaseUtil MemCmd Request Packet CircularQueue.

Local Open Scope Z_scope.

(** ** StaticInst: the flags of the decoded instruction *)
Module StaticInst.

Record t := mk {
  isLoad : bool;
  isStore : bool;
  isAtomic : bool;
  isStoreConditional : bool;
  isControl : bool;
  isUncondCtrl : bool;
  isReadBarrier : bool;
  isWriteBarrier : bool;
  isNonSpeculative : bool;
  isSquashAfter : bool;
  isMicroop : bool;
  isLastMicroop : bool;
  isDelayedCommit : bool;
  isHtmStart : bool;
  isHtmStop : bool;
  isDataPrefetch : bool
}.

Definition isFullMemBarrier (i : t) : bool := isReadBarrier i && isWriteBarrier i.

End StaticInst.

(** ** BaseDynInst *)
Module DynInst.

Inductive Status :=
  | IqEntry | RobEntry | LsqEntry | Completed | ResultReady | CanIssue | Issued | Executed
  | CanCommit | AtCommit | Committed | Squashed | SquashedInIQ | SquashedInLSQ | SquashedInROB
  | PinnedRegsRenamed | PinnedRegsWritten | PinnedRegsSquashDone | RecoverInst | BlockingInst
  | ThreadsyncWait | SerializeBefore | SerializeAfter | SerializeHandled
  | PrevInstsCompleted | PrevBrsResolved | PrevInstsCommitted | PrevBrsCommitted.

(** The value of the enumerator: its bit in the [std::bitset]. *)
Definition status_bit (s : Status) : Z :=
  match s with
  | IqEntry => 0 | RobEntry => 1 | LsqEntry => 2 | Completed => 3 | ResultReady => 4
  | CanIssue => 5 | Issued => 6 | Executed => 7 | CanCommit => 8 | AtCommit => 9
  | Committed => 10 | Squashed => 11 | SquashedInIQ => 12 | SquashedInLSQ => 13
  | SquashedInROB => 14 | PinnedRegsRenamed => 15 | PinnedRegsWritten => 16
  | PinnedRegsSquashDone => 17 | RecoverInst => 18 | BlockingInst => 19 | ThreadsyncWait => 20
  | SerializeBefore => 21 | SerializeAfter => 22 | SerializeHandled => 23
  | PrevInstsCompleted => 24 | PrevBrsResolved => 25 | PrevInstsCommitted => 26
  | PrevBrsCommitted => 27
  end.

#[global] Instance Status_eq_dec : EqDecision Status.
Proof. solve_decision. Defined.

Inductive Flags :=
  | NotAnInst | TranslationStarted | TranslationCompleted | PossibleLoadViolation
  | HitExternalSnoop | EffAddrValid | RecordResult | Predicate | MemAccPredicate | PredTaken
  | IsStrictlyOrdered | ReqMade | MemOpDone | HtmFromTransaction.

Definition flag_bit (f : Flags) : Z :=
  match f with
  | NotAnInst => 0 | TranslationStarted => 1 | TranslationCompleted => 2
  | PossibleLoadViolation => 3 | HitExternalSnoop => 4 | EffAddrValid => 5 | RecordResult => 6
  | Predicate => 7 | MemAccPredicate => 8 | PredTaken => 9 | IsStrictlyOrdered => 10
  | ReqMade => 11 | MemOpDone => 12 | HtmFromTransaction => 13
  end.

(** [fault] is [None] for [NoFault]; other faults are objects of the ISA, told apart
    by a number. [SHTpkt] and [savedReq] are [None] for a null pointer, [memData] is []
    for one; [savedReq] is a key of the load/store queue's requests. *)
Record t := mk {
  seqNum : Z;
  threadNumber : Z;
  staticInst : StaticInst.t;
  status : Z;
  instFlags : Z;
  fault : option Z;
  instAddr : Z;
  memData : list Z;
  effAddr : Z;
  effSize : Z;
  physEffAddr : Z;
  memReqFlags : Z;
  lqIdx : Z;
  lqIt : CircularQueue.iterator;
  sqIdx : Z;
  sqIt : CircularQueue.iterator;
  savedReq : option Z;
  htmUid : Z;
  htmDepth : Z;
  SHTpkt : option Packet.t;
  packetSent : bool;
  respReceived : bool;
  SHTneeded : bool;
  SHTsent : bool;
  SHTinserted : bool;
  ifProtect : bool
}.

Definition with_status (v : Z) (i : t) : t :=
  mk (seqNum i) (threadNumber i) (staticInst i) v (instFlags i) (fault i) (instAddr i) (memData i)
    (effAddr i) (effSize i) (physEffAddr i) (memReqFlags i) (lqIdx i) (lqIt i) (sqIdx i) (sqIt i)
    (savedReq i) (htmUid i) (htmDepth i) (SHTpkt i) (packetSent i) (respReceived i) (SHTneeded i)
    (SHTsent i) (SHTinserted i) (ifProtect i).
Definition with_instFlags (v : Z) (i : t) : t :=
  mk (seqNum i) (threadNumber i) (staticInst i) (status i) v (fault i) (instAddr i) (memData i) (effAddr i)
    (effSize i) (physEffAddr i) (memReqFlags i) (lqIdx i) (lqIt i) (sqIdx i) (sqIt i) (savedReq i)
    (htmUid i) (htmDepth i) (SHTpkt i) (packetSent i) (respReceived i) (SHTneeded i) (SHTsent i)
    (SHTinserted i) (ifProtect i).
Definition with_fault (v : option Z) (i : t) : t :=
  mk (seqNum i) (threadNumber i) (staticInst i) (status i) (instFlags i) v (instAddr i) (memData i)
    (effAddr i) (effSize i) (physEffAddr i) (memReqFlags i) (lqIdx i) (lqIt i) (sqIdx i) (sqIt i)
    (savedReq i) (htmUid i) (htmDepth i) (SHTpkt i) (packetSent i) (respReceived i) (SHTneeded i)
    (SHTsent i) (SHTinserted i) (ifProtect i).
Definition with_phys (a f : Z) (i : t) : t :=
  mk (seqNum i) (threadNumber i) (staticInst i) (status i) (instFlags i) (fault i) (instAddr i) (memData i)
    (effAddr i) (effSize i) a f (lqIdx i) (lqIt i) (sqIdx i) (sqIt i) (savedReq i) (htmUid i) (htmDepth i)
    (SHTpkt i) (packetSent i) (respReceived i) (SHTneeded i) (SHTsent i) (SHTinserted i) (ifProtect i).
Definition with_SHTpkt (v : option Packet.t) (i : t) : t :=
  mk (seqNum i) (threadNumber i) (staticInst i) (status i) (instFlags i) (fault i) (instAddr i) (memData i)
    (effAddr i) (effSize i) (physEffAddr i) (memReqFlags i) (lqIdx i) (lqIt i) (sqIdx i) (sqIt i)
    (savedReq i) (htmUid i) (htmDepth i) v (packetSent i) (respReceived i) (SHTneeded i) (SHTsent i)
    (SHTinserted i) (ifProtect i).
Definition with_SHTinserted (v : bool) (i : t) : t :=
  mk (seqNum i) (threadNumber i) (staticInst i) (status i) (instFlags i) (fault i) (instAddr i) (memData i)
    (effAddr i) (effSize i) (physEffAddr i) (memReqFlags i) (lqIdx i) (lqIt i) (sqIdx i) (sqIt i)
    (savedReq i) (htmUid i) (htmDepth i) (SHTpkt i) (packetSent i) (respReceived i) (SHTneeded i)
    (SHTsent i) v (ifProtect i).
Definition with_packetSent (v : bool) (i : t) : t :=
  mk (seqNum i) (threadNumber i) (staticInst i) (status i) (instFlags i) (fault i) (instAddr i) (memData i)
    (effAddr i) (effSize i) (physEffAddr i) (memReqFlags i) (lqIdx i) (lqIt i) (sqIdx i) (sqIt i)
    (savedReq i) (htmUid i) (htmDepth i) (SHTpkt i) v (respReceived i) (SHTneeded i) (SHTsent i)
    (SHTinserted i) (ifProtect i).
Definition with_respReceived (v : bool) (i : t) : t :=
  mk (seqNum i) (threadNumber i) (staticInst i) (status i) (instFlags i) (fault i) (instAddr i) (memData i)
    (effAddr i) (effSize i) (physEffAddr i) (memReqFlags i) (lqIdx i) (lqIt i) (sqIdx i) (sqIt i)
    (savedReq i) (htmUid i) (htmDepth i) (SHTpkt i) (packetSent i) v (SHTneeded i) (SHTsent i)
    (SHTinserted i) (ifProtect i).
Definition with_memData (v : list Z) (i : t) : t :=
  mk (seqNum i) (threadNumber i) (staticInst i) (status i) (instFlags i) (fault i) (instAddr i) v
    (effAddr i) (effSize i) (physEffAddr i) (memReqFlags i) (lqIdx i) (lqIt i) (sqIdx i) (sqIt i)
    (savedReq i) (htmUid i) (htmDepth i) (SHTpkt i) (packetSent i) (respReceived i) (SHTneeded i)
    (SHTsent i) (SHTinserted i) (ifProtect i).
Definition with_savedReq (v : option Z) (i : t) : t :=
  mk (seqNum i) (threadNumber i) (staticInst i) (status i) (instFlags i) (fault i) (instAddr i) (memData i)
    (effAddr i) (effSize i) (physEffAddr i) (memReqFlags i) (lqIdx i) (lqIt i) (sqIdx i) (sqIt i) v
    (htmUid i) (htmDepth i) (SHTpkt i) (packetSent i) (respReceived i) (SHTneeded i) (SHTsent i)
    (SHTinserted i) (ifProtect i).
Definition with_eff (a n : Z) (i : t) : t :=
  mk (seqNum i) (threadNumber i) (staticInst i) (status i) (instFlags i) (fault i) (instAddr i) (memData i)
    a n (physEffAddr i) (memReqFlags i) (lqIdx i) (lqIt i) (sqIdx i) (sqIt i) (savedReq i) (htmUid i)
    (htmDepth i) (SHTpkt i) (packetSent i) (respReceived i) (SHTneeded i) (SHTsent i) (SHTinserted i)
    (ifProtect i).
Definition with_lq (idx : Z) (it : CircularQueue.iterator) (i : t) : t :=
  mk (seqNum i) (threadNumber i) (staticInst i) (status i) (instFlags i) (fault i) (instAddr i) (memData i)
    (effAddr i) (effSize i) (physEffAddr i) (memReqFlags i) idx it (sqIdx i) (sqIt i) (savedReq i)
    (htmUid i) (htmDepth i) (SHTpkt i) (packetSent i) (respReceived i) (SHTneeded i) (SHTsent i)
    (SHTinserted i) (ifProtect i).
Definition with_sqIdx (v : Z) (i : t) : t :=
  mk (seqNum i) (threadNumber i) (staticInst i) (status i) (instFlags i) (fault i) (instAddr i) (memData i)
    (effAddr i) (effSize i) (physEffAddr i) (memReqFlags i) (lqIdx i) (lqIt i) v (sqIt i) (savedReq i)
    (htmUid i) (htmDepth i) (SHTpkt i) (packetSent i) (respReceived i) (SHTneeded i) (SHTsent i)
    (SHTinserted i) (ifProtect i).
Definition with_sqIt (v : CircularQueue.iterator) (i : t) : t :=
  mk (seqNum i) (threadNumber i) (staticInst i) (status i) (instFlags i) (fault i) (instAddr i) (memData i)
    (effAddr i) (effSize i) (physEffAddr i) (memReqFlags i) (lqIdx i) (lqIt i) (sqIdx i) v (savedReq i)
    (htmUid i) (htmDepth i) (SHTpkt i) (packetSent i) (respReceived i) (SHTneeded i) (SHTsent i)
    (SHTinserted i) (ifProtect i).
Definition with_htm (uid depth : Z) (i : t) : t :=
  mk (seqNum i) (threadNumber i) (staticInst i) (status i) (instFlags i) (fault i) (instAddr i) (memData i)
    (effAddr i) (effSize i) (physEffAddr i) (memReqFlags i) (lqIdx i) (lqIt i) (sqIdx i) (sqIt i)
    (savedReq i) uid depth (SHTpkt i) (packetSent i) (respReceived i) (SHTneeded i) (SHTsent i)
    (SHTinserted i) (ifProtect i).

(** The constructor for a decoded instruction, with [initVars]; the fetch stage then
    sets the thread. *)
Definition make (seq_num tid pc : Z) (si : StaticInst.t) : t :=
  mk seq_num tid si 0 (Z.setbit (Z.setbit (Z.setbit 0 (flag_bit RecordResult)) (flag_bit Predicate))
                         (flag_bit MemAccPredicate))
    None pc [] 0 0 0 0 (-1) CircularQueue.null (-1) CircularQueue.null None (2 ^ 64 - 1) 0
    None false false false false false false.

Definition set_status (s : Status) (i : t) : t := with_status (Z.setbit (status i) (status_bit s)) i.
Definition reset_status (s : Status) (i : t) : t :=
  with_status (Z.clearbit (status i) (status_bit s)) i.
Definition has_status (s : Status) (i : t) : bool := Z.testbit (status i) (status_bit s).

Definition set_flag (f : Flags) (v : bool) (i : t) : t :=
  with_instFlags ((if v then Z.setbit else Z.clearbit) (instFlags i) (flag_bit f)) i.
Definition has_flag (f : Flags) (i : t) : bool := Z.testbit (instFlags i) (flag_bit f).

Definition isLoad (i : t) : bool := StaticInst.isLoad (staticInst i).
Definition isStore (i : t) : bool := StaticInst.isStore (staticInst i).
Definition isAtomic (i : t) : bool := StaticInst.isAtomic (staticInst i).
Definition isStoreConditional (i : t) : bool := StaticInst.isStoreConditional (staticInst i).
Definition isControl (i : t) : bool := StaticInst.isControl (staticInst i).
Definition isUncondCtrl (i : t) : bool := StaticInst.isUncondCtrl (staticInst i).
Definition isFullMemBarrier (i : t) : bool := StaticInst.isFullMemBarrier (staticInst i).
Definition isWriteBarrier (i : t) : bool := StaticInst.isWriteBarrier (staticInst i).
Definition isNonSpeculative (i : t) : bool := StaticInst.isNonSpeculative (staticInst i).
Definition isReadBarrier (i : t) : bool := StaticInst.isReadBarrier (staticInst i).
Definition isSquashAfter (i : t) : bool := StaticInst.isSquashAfter (staticInst i).
Definition isMicroop (i : t) : bool := StaticInst.isMicroop (staticInst i).
Definition isLastMicroop (i : t) : bool := StaticInst.isLastMicroop (staticInst i).
Definition isDelayedCommit (i : t) : bool := StaticInst.isDelayedCommit (staticInst i).
Definition isHtmStart (i : t) : bool := StaticInst.isHtmStart (staticInst i).
Definition isHtmStop (i : t) : bool := StaticInst.isHtmStop (staticInst i).

Definition isDataPrefetch (i : t) : bool := StaticInst.isDataPrefetch (staticInst i).

Definition readPredicate (i : t) : bool := has_flag Predicate i.
Definition inHtmTransactionalState (i : t) : bool := has_flag HtmFromTransaction i.
Definition getHtmTransactionUid (i : t) : res Z :=
  assert! has_flag HtmFromTransaction i in Ok (htmUid i).

Definition setHtmTransactionalState (uid depth : Z) (i : t) : t :=
  with_htm uid depth (set_flag HtmFromTransaction true i).

Definition isMemRef (i : t) : bool := isLoad i || isStore i || isAtomic i.
Definition effAddrValid (i : t) : bool := has_flag EffAddrValid i.
Definition set_effAddrValid (b : bool) : t -> t := set_flag EffAddrValid b.
Definition recordResult (b : bool) : t -> t := set_flag RecordResult b.
Definition translationStarted (i : t) : bool := has_flag TranslationStarted i.
Definition translationCompleted (i : t) : bool := has_flag TranslationCompleted i.
Definition isTranslationDelayed (i : t) : bool := translationStarted i && negb (translationCompleted i).
Definition possibleLoadViolation (i : t) : bool := has_flag PossibleLoadViolation i.
Definition set_possibleLoadViolation (b : bool) : t -> t := set_flag PossibleLoadViolation b.
Definition hitExternalSnoop (i : t) : bool := has_flag HitExternalSnoop i.
Definition set_hitExternalSnoop (b : bool) : t -> t := set_flag HitExternalSnoop b.
Definition readMemAccPredicate (i : t) : bool := has_flag MemAccPredicate i.
Definition setMemAccPredicate (b : bool) : t -> t := set_flag MemAccPredicate b.
Definition hasRequest (i : t) : bool := has_flag ReqMade i.
Definition setRequest : t -> t := set_flag ReqMade true.

Definition strictlyOrdered (i : t) : bool := has_flag IsStrictlyOrdered i.
Definition set_strictlyOrdered (so : bool) (i : t) : t := set_flag IsStrictlyOrdered so i.

Definition setInLSQ : t -> t := set_status LsqEntry.
Definition clearIssued : t -> t := reset_status Issued.
Definition clearCanIssue : t -> t := reset_status CanIssue.
Definition isAtCommit : t -> bool := has_status AtCommit.
Definition setCanCommit : t -> t := set_status CanCommit.
Definition clearCanCommit : t -> t := reset_status CanCommit.
Definition readyToCommit : t -> bool := has_status CanCommit.
Definition setCommitted : t -> t := set_status Committed.
Definition isCommitted : t -> bool := has_status Committed.
Definition setExecuted : t -> t := set_status Executed.
Definition isExecuted : t -> bool := has_status Executed.
Definition setCompleted : t -> t := set_status Completed.
Definition isCompleted : t -> bool := has_status Completed.
Definition isSquashed : t -> bool := has_status Squashed.
Definition setInROB : t -> t := set_status RobEntry.
Definition clearInROB : t -> t := reset_status RobEntry.
Definition isInROB : t -> bool := has_status RobEntry.
Definition isPinnedRegsRenamed : t -> bool := has_status PinnedRegsRenamed.
Definition isPinnedRegsSquashDone : t -> bool := has_status PinnedRegsSquashDone.
Definition setPinnedRegsSquashDone (i : t) : res t :=
  assert! negb (has_status PinnedRegsSquashDone i) in Ok (set_status PinnedRegsSquashDone i).

(** The write counters of pinned registers are in the register file. *)
Definition setSquashed (i : t) : res t :=
  let i := set_status Squashed i in
  if negb (isPinnedRegsRenamed i) || isPinnedRegsSquashDone i then Ok i
  else setPinnedRegsSquashDone i.

Definition setPrevInstsCompleted : t -> t := set_status PrevInstsCompleted.
Definition isPrevInstsCompleted : t -> bool := has_status PrevInstsCompleted.
Definition setPrevBrsResolved : t -> t := set_status PrevBrsResolved.
Definition isPrevBrsResolved : t -> bool := has_status PrevBrsResolved.
Definition setPrevInstsCommitted : t -> t := set_status PrevInstsCommitted.
Definition isPrevInstsCommitted : t -> bool := has_status PrevInstsCommitted.
Definition setPrevBrsCommitted : t -> t := set_status PrevBrsCommitted.
Definition isPrevBrsCommitted : t -> bool := has_status PrevBrsCommitted.

(** The packet that tells the safe history buffer about the access. The request is
    shared with the packet it is made from. *)
Definition buildSHTpacket (orig_pkt : Packet.t) (line_size : Z) (i : t) : res t :=
  fatal_if! negb (IntMath.isPowerOf2 line_size) in
  let* _ := Request.validateDomainID (Packet.req orig_pkt) in
  let* p := Packet.make_copy orig_pkt false false in
  let p := Packet.with_cmd MemCmd.HardPFReq (Packet.clearNoFillLower (Packet.clearMayNotFill p)) in
  let* a := Packet.getBlockAddr line_size p in
  let* p := Packet.setAddr a p in
  let* p := Packet.setSizeSHT line_size (Packet.with_senderState [] p) in
  Ok (with_SHTpkt (Some p) i).

(** ** Reading and writing status bits *)

Lemma status_bit_nonneg s : 0 <= status_bit s.
Proof. destruct s; simpl; lia. Qed.

Lemma status_bit_inj s s' : status_bit s = status_bit s' -> s = s'.
Proof. destruct s, s'; simpl; congruence. Qed.

Lemma has_set_status s s' i :
  has_status s (set_status s' i) = (bool_decide (s = s') || has_status s i).
Proof.
  unfold has_status, set_status. simpl. rewrite Z.setbit_eqb by apply status_bit_nonneg.
  f_equal. case_bool_decide as Hs; [subst; apply Z.eqb_refl|].
  apply Z.eqb_neq. intros E. by apply Hs, status_bit_inj.
Qed.

Lemma has_reset_status s s' i :
  has_status s (reset_status s' i) = (negb (bool_decide (s = s')) && has_status s i).
Proof.
  unfold has_status, reset_status. simpl. rewrite Z.clearbit_eqb, andb_comm.
  f_equal. case_bool_decide as Hs; [subst; by rewrite Z.eqb_refl|].
  apply negb_true_iff, Z.eqb_neq. intros E. by apply Hs, status_bit_inj.
Qed.

(** The fields no stage after decode changes. *)
Definition same_identity (i j : t) : Prop :=
  seqNum i = seqNum j /\ threadNumber i = threadNumber j /\ staticInst i = staticInst j.

#[global] Instance same_identity_equiv : Equivalence same_identity.
Proof. unfold same_identity. split; repeat intro; naive_solver congruence. Qed.

Lemma set_status_identity s i : same_identity (set_status s i) i.
Proof. done. Qed.

End DynInst.

(** ** Pointers *)
Abbreviation DynInstPtr := Z.
Abbreviation heap := (gmap Z DynInst.t).

Definition deref (h : heap) (p : DynInstPtr) : res DynInst.t :=
  match h !! p with Some i => Ok i | None => Err Undefined end.

Lemma deref_Ok h p i : deref h p = Ok i <-> h !! p = Some i.
Proof. unfold deref. destruct (h !! p); split; congruence. Qed.
