(* ===== verification/Rob.v ===== *)
(** * The reorder buffer: cpu/o3/rob.hh, cpu/o3/rob_impl.hh

    The arrays indexed by thread are one list of [Thread] records. A list iterator is
    a position, [End], or [Dangling] once its element is erased; using one of the
    latter two where C++ needs an element is [Undefined]. Instructions are in a heap
    (see DynInst.v). [updateVisibleState] returns the packets it sends to the safe
    history buffer, in order. *)

From stdpp Require Import gmap.
From S2P Require Import Prelude.
From S2P Require Import BaseUtil MemCmd Request Packet DynInst.

Local Open Scope Z_scope.

(** ** The parts of the core that the reorder buffer and the LSQ ask: cpu/base.hh *)
Module BaseCPU.

Record t := mk {
  rasSpec : bool;
  rasLoad : bool;
  rasAll : bool;
  robInsert : bool;
  cacheLineSize : Z;
  dataRequestorId : Z;
  activeThreads : list Z;
  exitingThreads : list Z
}.

(** The checks of the constructor. *)
Definition make (c : t) : res t :=
  panic_if! rasSpec c && (rasLoad c || rasAll c) in
  panic_if! rasLoad c && (rasSpec c || rasAll c) in
  panic_if! rasAll c && (rasSpec c || rasLoad c) in
  Ok c.

Definition isThreadExiting (tid : Z) (c : t) : bool := bool_decide (tid ∈ exitingThreads c).

End BaseCPU.

Module ROB.

Inductive Status := Running | Idle | ROBSquashing.
Inductive SMTQueuePolicy := Dynamic | Partitioned | Threshold.

Inductive InstIt := End | At (i : nat) | Dangling.

#[global] Instance InstIt_eq_dec : EqDecision InstIt.
Proof. solve_decision. Defined.

Record Params := mkParams {
  robPolicy : SMTQueuePolicy;
  numEntries : Z;
  squashWidth : Z;
  numThreads : Z;
  smtROBThreshold : Z;
  MaxThreads : Z
}.

(** [robStatus] is [None] until it is first assigned. *)
Record Thread := mkThread {
  robStatus : option Status;
  threadEntries : Z;
  maxEntries : Z;
  instList : list DynInstPtr;
  squashIt : InstIt;
  squashedSeqNum : Z;
  doneSquashing : bool
}.

Record t := mk {
  threads : list Thread;
  head : Z * InstIt;
  tail : Z * InstIt;
  numInstsInROB : Z
}.

Definition set_instList (l : list DynInstPtr) (n : Z) (th : Thread) : Thread :=
  mkThread (robStatus th) n (maxEntries th) l (squashIt th) (squashedSeqNum th) (doneSquashing th).
Definition set_maxEntries (n : Z) (th : Thread) : Thread :=
  mkThread (robStatus th) (threadEntries th) n (instList th) (squashIt th) (squashedSeqNum th)
    (doneSquashing th).
Definition set_squash (it : InstIt) (done : bool) (th : Thread) : Thread :=
  mkThread (robStatus th) (threadEntries th) (maxEntries th) (instList th) it (squashedSeqNum th) done.
Definition set_threads (l : list Thread) (r : t) : t := mk l (head r) (tail r) (numInstsInROB r).
Definition set_head (x : Z * InstIt) (r : t) : t := mk (threads r) x (tail r) (numInstsInROB r).
Definition set_tail (x : Z * InstIt) (r : t) : t := mk (threads r) (head r) x (numInstsInROB r).
Definition set_num (n : Z) (r : t) : t := mk (threads r) (head r) (tail r) n.

Definition thread (tid : Z) (r : t) : res Thread :=
  if tid <? 0 then Err Undefined
  else match threads r !! Z.to_nat tid with Some th => Ok th | None => Err Undefined end.
Definition put_thread (tid : Z) (th : Thread) (r : t) : t :=
  set_threads (<[Z.to_nat tid := th]> (threads r)) r.

(** ** Iterators of [std::list] *)

Definition it_begin (l : list DynInstPtr) : InstIt :=
  match l with [] => End | _ => At 0 end.

Definition it_deref (l : list DynInstPtr) (it : InstIt) : res DynInstPtr :=
  match it with
  | At i => match l !! i with Some p => Ok p | None => Err Undefined end
  | _ => Err Undefined
  end.

(** [it--] *)
Definition it_dec (l : list DynInstPtr) (it : InstIt) : res InstIt :=
  match it with
  | End => match length l with O => Err Undefined | S n => Ok (At n) end
  | At (S i) => Ok (At i)
  | _ => Err Undefined
  end.

(** Where an iterator points after the first element is erased. *)
Definition it_shift (it : InstIt) : InstIt :=
  match it with End => End | At (S i) => At i | _ => Dangling end.
Definition it_shift_in (tid : Z) (x : Z * InstIt) : Z * InstIt :=
  if x.1 =? tid then (tid, it_shift x.2) else x.

Section rob.
Variables (P : Params) (cpu : BaseCPU.t).

(** ** Construction *)

Definition reset_thread (th : Thread) : Thread :=
  mkThread (robStatus th) 0 (maxEntries th) (instList th) End 0 true.

Definition resetState (r : t) : t :=
  mk (map reset_thread (threads r)) (0, End) (0, End) 0.

Definition initial_maxEntries (tid : Z) : res Z :=
  if numThreads P <=? tid then Ok 0
  else match robPolicy P with
  | Dynamic => Ok (numEntries P)
  | Partitioned => if numThreads P =? 0 then Err Undefined else Ok (numEntries P / numThreads P)
  | Threshold => Ok (u32 (smtROBThreshold P))
  end.

Definition make : res t :=
  let* l := foldM (fun l tid => let* m := initial_maxEntries (Z.of_nat tid) in
                                Ok (l ++ [mkThread None 0 m [] End 0 true]))
              (seq 0 (Z.to_nat (MaxThreads P))) [] in
  Ok (resetState (mk l (0, End) (0, End) 0)).

Definition takeOverFrom (r : t) : t := resetState r.

Definition resetEntries (r : t) : res t :=
  let is_dynamic := match robPolicy P with Dynamic => true | _ => false end in
  if negb is_dynamic || (1 <? numThreads P) then
    let active_threads := Z.of_nat (length (BaseCPU.activeThreads cpu)) in
    foldM (fun r tid =>
      let* th := thread tid r in
      match robPolicy P with
      | Partitioned => Ok (put_thread tid (set_maxEntries (numEntries P / active_threads) th) r)
      | Threshold => if active_threads =? 1 then Ok (put_thread tid (set_maxEntries (numEntries P) th) r)
                     else Ok r
      | Dynamic => Ok r
      end) (BaseCPU.activeThreads cpu) r
  else Ok r.

Definition entryAmount (num_threads : Z) : res Z :=
  match robPolicy P with
  | Partitioned => if num_threads =? 0 then Err Undefined else Ok (numEntries P / num_threads)
  | _ => Ok 0
  end.

(** ** Queries *)

Definition isEmpty (r : t) : bool := numInstsInROB r =? 0.
Definition isEmpty_tid (tid : Z) (r : t) : res bool :=
  let* th := thread tid r in Ok (threadEntries th =? 0).
Definition isFull (r : t) : bool := numInstsInROB r =? numEntries P.
Definition isDoneSquashing (tid : Z) (r : t) : res bool :=
  let* th := thread tid r in Ok (doneSquashing th).
Definition countInsts_tid (tid : Z) (r : t) : res Z :=
  let* th := thread tid r in Ok (Z.of_nat (length (instList th))).
Definition countInsts (r : t) : res Z :=
  foldM (fun total tid => let* n := countInsts_tid (Z.of_nat tid) r in Ok (total + n))
    (seq 0 (Z.to_nat (numThreads P))) 0.
Definition numFreeEntries (r : t) : Z := u32 (numEntries P - numInstsInROB r).
Definition numFreeEntries_tid (tid : Z) (r : t) : res Z :=
  let* th := thread tid r in Ok (u32 (maxEntries th - threadEntries th)).
Definition getMaxEntries (tid : Z) (r : t) : res Z := let* th := thread tid r in Ok (maxEntries th).
Definition getThreadEntries (tid : Z) (r : t) : res Z :=
  let* th := thread tid r in Ok (threadEntries th).

Definition isHeadReady (tid : Z) (h : heap) (r : t) : res bool :=
  let* th := thread tid r in
  if threadEntries th =? 0 then Ok false
  else match instList th with
  | [] => Err Undefined
  | p :: _ => let* i := deref h p in Ok (DynInst.readyToCommit i)
  end.

Fixpoint any_head_ready (tids : list Z) (h : heap) (r : t) : res bool :=
  match tids with
  | [] => Ok false
  | tid :: tids => let* b := isHeadReady tid h r in
                   if b then Ok true else any_head_ready tids h r
  end.
Definition canCommit (h : heap) (r : t) : res bool :=
  any_head_ready (BaseCPU.activeThreads cpu) h r.

(** [None] is the [dummyInst]. *)
Definition readHeadInst (tid : Z) (h : heap) (r : t) : res (option DynInstPtr) :=
  let* th := thread tid r in
  if threadEntries th =? 0 then Ok None
  else match instList th with
  | [] => Err Undefined
  | p :: _ => let* i := deref h p in assert! DynInst.isInROB i in Ok (Some p)
  end.

Definition readTailInst (tid : Z) (r : t) : res DynInstPtr :=
  let* th := thread tid r in
  let* it := it_dec (instList th) End in it_deref (instList th) it.

Fixpoint find_seq (squash_inst : Z) (l : list DynInstPtr) (h : heap) : res (option DynInstPtr) :=
  match l with
  | [] => Ok None
  | p :: l => let* i := deref h p in
              if DynInst.seqNum i =? squash_inst then Ok (Some p) else find_seq squash_inst l h
  end.
Definition findInst (tid squash_inst : Z) (h : heap) (r : t) : res (option DynInstPtr) :=
  let* th := thread tid r in find_seq squash_inst (instList th) h.

(** ** Head and tail of the whole buffer *)

Definition updateHead_step (h : heap) (r : t) (s : (Z * InstIt) * Z * bool) (tid : Z)
  : res ((Z * InstIt) * Z * bool) :=
  let '(hd, lowest_num, first_valid) := s in
  let* th := thread tid r in
  match instList th with
  | [] => Ok s
  | p :: _ =>
      let* i := deref h p in
      if first_valid then Ok ((tid, At 0), DynInst.seqNum i, false)
      else if DynInst.seqNum i <? lowest_num then Ok ((tid, At 0), DynInst.seqNum i, false)
      else Ok s
  end.

Definition updateHead (h : heap) (r : t) : res t :=
  let* (hd, _, first_valid) :=
    foldM (updateHead_step h r) (BaseCPU.activeThreads cpu) (head r, 0, true) in
  Ok (set_head (if first_valid then (0, End) else hd) r).

Definition updateTail_step (h : heap) (r : t) (s : (Z * InstIt) * bool) (tid : Z)
  : res ((Z * InstIt) * bool) :=
  let '(tl, first_valid) := s in
  let* th := thread tid r in
  match instList th with
  | [] => Ok s
  | _ =>
      let* it := it_dec (instList th) End in
      if first_valid then Ok ((tid, it), false)
      else
        let* p := it_deref (instList th) it in
        let* i := deref h p in
        let* th' := thread tl.1 r in
        let* q := it_deref (instList th') tl.2 in
        let* j := deref h q in
        if DynInst.seqNum j <? DynInst.seqNum i then Ok ((tid, it), false) else Ok s
  end.

Definition updateTail (h : heap) (r : t) : res t :=
  let* (tl, _) := foldM (updateTail_step h r) (BaseCPU.activeThreads cpu) ((0, End), true) in
  Ok (set_tail tl r).

(** ** Inserting and retiring *)

Definition insertInst (inst : DynInstPtr) (h : heap) (r : t) : res (heap * t) :=
  let* i := deref h inst in
  assert! negb (numInstsInROB r =? numEntries P) in
  let tid := DynInst.threadNumber i in
  let* th := thread tid r in
  let l := instList th ++ [inst] in
  let* hd := if numInstsInROB r =? 0 then
               let* p := it_deref l (it_begin l) in
               assert! (p =? inst) in Ok (tid, it_begin l)
             else Ok (head r) in
  let* it := it_dec l End in
  let h := <[inst := DynInst.setInROB i]> h in
  let* p := it_deref l it in
  assert! (p =? inst) in
  let th := set_instList l (u32 (threadEntries th + 1)) th in
  Ok (h, set_num (numInstsInROB r + 1) (set_tail (tid, it) (set_head hd (put_thread tid th r)))).

(** The retired instruction is given to the core, which forgets it. *)
Definition retireHead (tid : Z) (h : heap) (r : t) : res (DynInstPtr * heap * t) :=
  assert! (0 <? numInstsInROB r) in
  let* th := thread tid r in
  match instList th with
  | [] => Err Undefined
  | p :: l =>
      let* i := deref h p in
      assert! DynInst.readyToCommit i in
      let th := set_squash (it_shift (squashIt th)) (doneSquashing th)
                  (set_instList l (u32 (threadEntries th - 1)) th) in
      let h := <[p := DynInst.setCommitted (DynInst.clearInROB i)]> h in
      let r := set_num (numInstsInROB r - 1)
                 (set_tail (it_shift_in tid (tail r))
                    (set_head (it_shift_in tid (head r)) (put_thread tid th r))) in
      let* r := updateHead h r in
      Ok (p, h, r)
  end.

(** ** Squashing *)

(** The loop of [doSquash] over the list [l]; the last component of the result says
    that the head of the list was reached and squashed. *)
Fixpoint squash_loop (n : nat) (l : list DynInstPtr) (snum : Z) (h : heap) (it : InstIt) (upd : bool)
  : res (heap * InstIt * bool * bool) :=
  match n with
  | O => Ok (h, it, upd, false)
  | S n =>
      if bool_decide (it = End) then Ok (h, it, upd, false)
      else
        let* p := it_deref l it in
        let* i := deref h p in
        if snum <? DynInst.seqNum i then
          let* i := DynInst.setSquashed i in
          let h := <[p := DynInst.setCanCommit i]> h in
          if bool_decide (it = it_begin l) then Ok (h, End, upd, true)
          else
            let* tl := it_dec l End in
            let* q := it_deref l tl in
            let* it := it_dec l it in
            squash_loop n l snum h it (upd || (p =? q))
        else Ok (h, it, upd, false)
  end.

Definition doSquash (tid : Z) (h : heap) (r : t) : res (heap * t) :=
  let* th := thread tid r in
  assert! negb (bool_decide (squashIt th = End)) in
  let* p := it_deref (instList th) (squashIt th) in
  let* i := deref h p in
  if DynInst.seqNum i <? squashedSeqNum th then Ok (h, put_thread tid (set_squash End true th) r)
  else
    let numInstsToSquash :=
      if BaseCPU.isThreadExiting tid cpu then numEntries P else squashWidth P in
    let* (h, it, robTailUpdate, reached_head) :=
      squash_loop (Z.to_nat numInstsToSquash) (instList th) (squashedSeqNum th) h (squashIt th) false in
    if (reached_head : bool) then Ok (h, put_thread tid (set_squash End true th) r)
    else
      let* p := it_deref (instList th) it in
      let* i := deref h p in
      let th := if DynInst.seqNum i <=? squashedSeqNum th then set_squash End true th
                else set_squash it (doneSquashing th) th in
      let r := put_thread tid th r in
      let* r := if (robTailUpdate : bool) then updateTail h r else Ok r in
      Ok (h, r).

Definition squash (squash_num tid : Z) (h : heap) (r : t) : res (heap * t) :=
  let* empty := isEmpty_tid tid r in
  if (empty : bool) then Ok (h, r)
  else
    let* th := thread tid r in
    let th := mkThread (Some ROBSquashing) (threadEntries th) (maxEntries th) (instList th)
                (squashIt th) squash_num false in
    match instList th with
    | [] => Ok (h, put_thread tid th r)
    | _ =>
        let* it := it_dec (instList th) End in
        doSquash tid h (put_thread tid (set_squash it false th) r)
    end.

(** The commit stage continues a squash each cycle until it is done. *)
Fixpoint squash_cycles (n : nat) (tid : Z) (h : heap) (r : t) : res (heap * t) :=
  match n with
  | O => Ok (h, r)
  | S n => let* done := isDoneSquashing tid r in
           if (done : bool) then Ok (h, r)
           else let* (h, r) := doSquash tid h r in squash_cycles n tid h r
  end.

(** ** Which accesses are no longer speculative *)

(** The four running flags of [updateVisibleState]. *)
Record Prev := mkPrev {
  prevInstsComplete : bool;
  prevBrsResolved : bool;
  prevInstsCommitted : bool;
  prevBrsCommitted : bool
}.

Definition sendSHBinfo (p : Packet.t) : res (list Packet.t) :=
  assert! Packet.isRequest p in Ok [p].

(** The body of the loop for a load or store. *)
Definition visible_inst (done : bool) (pv : Prev) (i : DynInst.t) : res (DynInst.t * list Packet.t) :=
  let i := if prevBrsResolved pv then DynInst.setPrevBrsResolved i else i in
  let* (i, sent) :=
    if prevInstsComplete pv && BaseCPU.robInsert cpu then
      assert! DynInst.isPrevBrsResolved i in
      let i := DynInst.setPrevInstsCompleted i in
      match DynInst.SHTpkt i with
      | Some p => if negb (DynInst.SHTinserted i) && done then
                    let* sent := sendSHBinfo p in Ok (DynInst.with_SHTinserted true i, sent)
                  else Ok (i, [])
      | None => Ok (i, [])
      end
    else Ok (i, []) in
  let i := if prevInstsCommitted pv then DynInst.setPrevInstsCommitted i else i in
  let i := if prevBrsCommitted pv then DynInst.setPrevBrsCommitted i else i in
  Ok (i, sent).

Definition unfinished (i : DynInst.t) : bool :=
  negb (DynInst.readyToCommit i) || negb (bool_decide (DynInst.fault i = None))
  || DynInst.isSquashed i.

Definition waits_for_head (i : DynInst.t) : bool :=
  DynInst.isNonSpeculative i || DynInst.isStoreConditional i || DynInst.isFullMemBarrier i
  || DynInst.isWriteBarrier i || (DynInst.isLoad i && DynInst.strictlyOrdered i).

(** The running flags after an instruction. *)
Definition prev_after (pv : Prev) (i : DynInst.t) : Prev :=
  let brsCommitted := if DynInst.isControl i then false else prevBrsCommitted pv in
  let brsResolved := if DynInst.isControl i && unfinished i then false else prevBrsResolved pv in
  let complete := if waits_for_head i then false else prevInstsComplete pv in
  let complete := if unfinished i then false else complete in
  mkPrev complete brsResolved false brsCommitted.

Fixpoint visible_loop (done : bool) (ps : list DynInstPtr) (pv : Prev) (h : heap)
  : res (heap * list Packet.t) :=
  match ps with
  | [] => Ok (h, [])
  | p :: ps =>
      let* i := deref h p in
      if negb (prevInstsComplete pv) && negb (prevBrsResolved pv) then Ok (h, [])
      else
        let* (i, sent) := if DynInst.isLoad i || DynInst.isStore i then visible_inst done pv i
                          else Ok (i, []) in
        let* (h, sent') := visible_loop done ps (prev_after pv i) (<[p := i]> h) in
        Ok (h, sent ++ sent')
  end.

Definition visible_thread (r : t) (s : heap * list Packet.t) (tid : Z) : res (heap * list Packet.t) :=
  let '(h, sent) := s in
  let* th := thread tid r in
  let* (h, sent') := visible_loop (doneSquashing th) (instList th) (mkPrev true true true true) h in
  Ok (h, sent ++ sent').

Definition updateVisibleState (h : heap) (r : t) : res (heap * list Packet.t) :=
  foldM (visible_thread r) (BaseCPU.activeThreads cpu) (h, []).

End rob.
End ROB.
