(* ===== verification/RobFacts.v ===== *)
(** * Facts on the reorder buffer

    [holds h l xs]: the heap has the instructions [xs] behind the pointers [l]. The
    theorems say which instructions [updateVisibleState] declares safe and reports to
    the safe history buffer, what a squash marks and when it ends, and that the
    buffer's counters, order and iterators stay consistent over every history. *)

From Stdlib Require Import Sorting.Sorted.
From stdpp Require Import gmap.
From S2P Require Import Prelude.
From S2P Require Import BaseUtil MemCmd Request Packet DynInst Rob.

Local Open Scope Z_scope.
Import ROB.

Module HeapFacts.

Definition holds (h : heap) : list DynInstPtr -> list DynInst.t -> Prop :=
  Forall2 (fun p i => h !! p = Some i).

(** Program order: sequence numbers grow. *)
Definition in_order (xs : list DynInst.t) : Prop := StronglySorted Z.lt (map DynInst.seqNum xs).

Lemma holds_lookup h l xs k p :
  holds h l xs -> l !! k = Some p -> exists i, xs !! k = Some i /\ h !! p = Some i.
Proof. intros H Hk. destruct (Forall2_lookup_l _ _ _ _ _ H Hk) as (i & ? & ?). eauto. Qed.

Lemma holds_length h l xs : holds h l xs -> length l = length xs.
Proof. apply Forall2_length. Qed.

Lemma in_order_cons i xs :
  in_order (i :: xs) <-> in_order xs /\ Forall (fun j => DynInst.seqNum i < DynInst.seqNum j) xs.
Proof.
  unfold in_order. simpl. split.
  - intros [? ?]%StronglySorted_inv. rewrite <- Forall_map. done.
  - intros [? ?]. constructor; [done|]. by rewrite Forall_map.
Qed.

Lemma in_order_lt xs j k x y :
  in_order xs -> xs !! j = Some x -> xs !! k = Some y -> (j < k)%nat ->
  DynInst.seqNum x < DynInst.seqNum y.
Proof.
  revert j k. induction xs as [|a xs IH]; intros j k Ho Hj Hk Hlt; [done|].
  apply in_order_cons in Ho as [Ho Ha].
  destruct j as [|j], k as [|k]; simpl in *; [lia| |lia|].
  - simplify_eq. rewrite Forall_forall in Ha. by eapply Ha, list_elem_of_lookup_2.
  - apply (IH j k); [done..|lia].
Qed.

(** Instructions in program order are different objects. *)
Lemma in_order_NoDup h l xs : holds h l xs -> in_order xs -> NoDup l.
Proof.
  intros Hh. induction Hh as [|p i l xs Hp Hh IH]; intros Ho; [constructor|].
  apply in_order_cons in Ho as [Ho Hi]. constructor; [|by apply IH].
  intros (k & Hk)%list_elem_of_lookup.
  destruct (holds_lookup _ _ _ _ _ Hh Hk) as (j & Hj & Hpj).
  rewrite Forall_forall in Hi. specialize (Hi j (list_elem_of_lookup_2 _ _ _ Hj)).
  assert (i = j) as -> by congruence. lia.
Qed.

(** Writing an object the list does not point to. *)
Lemma holds_insert_ne h p x l xs : p ∉ l -> holds h l xs -> holds (<[p := x]> h) l xs.
Proof.
  intros Hp Hh. induction Hh as [|q i l xs Hq Hh IH]; constructor.
  - rewrite lookup_insert_ne; [done|]. intros ->. set_solver.
  - apply IH. set_solver.
Qed.

(** Writing the [k]-th object. *)
Lemma holds_insert h p x l xs k :
  NoDup l -> l !! k = Some p -> holds h l xs -> holds (<[p := x]> h) l (<[k := x]> xs).
Proof.
  intros Hnd Hk Hh. revert k Hk. induction Hh as [|q i l xs Hq Hh IH]; intros k Hk; [done|].
  inversion Hnd; subst. destruct k as [|k]; simpl in Hk; simplify_eq; simpl.
  - constructor; [apply lookup_insert_eq|by apply holds_insert_ne].
  - constructor; [|by apply IH]. rewrite lookup_insert_ne; [done|]. intros ->.
    apply list_elem_of_lookup_2 in Hk. done.
Qed.

Lemma holds_frame h h' l xs :
  holds h l xs -> (forall p, p ∈ l -> h' !! p = h !! p) -> holds h' l xs.
Proof.
  intros Hh Hf. induction Hh as [|q i l xs Hq Hh IH]; constructor.
  - rewrite Hf; [done|]. set_solver.
  - apply IH. set_solver.
Qed.

(** Objects with the same identity keep their place. *)
Lemma in_order_identity xs ys :
  Forall2 DynInst.same_identity xs ys -> in_order xs -> in_order ys.
Proof.
  intros Hf. unfold in_order. enough (map DynInst.seqNum xs = map DynInst.seqNum ys) as -> by done.
  induction Hf as [|x y xs ys Hxy Hf IH]; simpl; [done|]. destruct Hxy as [-> _]. by rewrite IH.
Qed.

End HeapFacts.
Import HeapFacts.

Module VisibleFacts.

Section visible.
Context (cpu : BaseCPU.t).

Definition memref (i : DynInst.t) : bool := DynInst.isLoad i || DynInst.isStore i.

(** Finished without fault, on the right path, and not waiting for the head. *)
Definition complete (i : DynInst.t) : bool := negb (unfinished i) && negb (waits_for_head i).
Definition resolved (i : DynInst.t) : bool := negb (DynInst.isControl i && unfinished i).

(** Whether the access of [i], behind the instructions [older], is reported. *)
Definition reported (done : bool) (older : list DynInst.t) (i : DynInst.t) : bool :=
  memref i && forallb complete older && BaseCPU.robInsert cpu && negb (DynInst.SHTinserted i) && done
  && bool_decide (is_Some (DynInst.SHTpkt i)).

Definition report (done : bool) (older : list DynInst.t) (i : DynInst.t) : list Packet.t :=
  if reported done older i then option_list (DynInst.SHTpkt i) else [].

Definition set_if (b : bool) (s : DynInst.Status) (i : DynInst.t) : DynInst.t :=
  if b then DynInst.set_status s i else i.

(** The instruction as one run leaves it: a function of the instructions before it. *)
Definition seen (done : bool) (older : list DynInst.t) (i : DynInst.t) : DynInst.t :=
  if memref i then
    let i' := set_if (forallb resolved older) DynInst.PrevBrsResolved i in
    let i' := set_if (forallb complete older && BaseCPU.robInsert cpu) DynInst.PrevInstsCompleted i' in
    let i' := if reported done older i then DynInst.with_SHTinserted true i' else i' in
    let i' := set_if (bool_decide (older = [])) DynInst.PrevInstsCommitted i' in
    set_if (forallb (fun j => negb (DynInst.isControl j)) older) DynInst.PrevBrsCommitted i'
  else i.

(** The running flags after [older]. *)
Definition prev_of (older : list DynInst.t) : Prev :=
  mkPrev (forallb complete older) (forallb resolved older) (bool_decide (older = []))
    (forallb (fun j => negb (DynInst.isControl j)) older).

(** What the tests of the loop read is not changed by it. *)
Definition same_tests (i j : DynInst.t) : Prop :=
  DynInst.same_identity i j /\ unfinished i = unfinished j /\ waits_for_head i = waits_for_head j.

#[local] Instance same_tests_equiv : Equivalence same_tests.
Proof.
  unfold same_tests, DynInst.same_identity. split; repeat intro; naive_solver congruence.
Qed.

Lemma set_if_same_tests b s i :
  s <> DynInst.CanCommit -> s <> DynInst.Squashed -> same_tests (set_if b s i) i.
Proof.
  intros. unfold set_if. destruct b; [|done]. split_and!; [done| |done].
  unfold unfinished, DynInst.readyToCommit, DynInst.isSquashed.
  rewrite !DynInst.has_set_status, (bool_decide_eq_false_2 (DynInst.CanCommit = s)),
    (bool_decide_eq_false_2 (DynInst.Squashed = s)) by congruence. reflexivity.
Qed.

Lemma seen_same_tests done older i : same_tests (seen done older i) i.
Proof.
  unfold seen. destruct (memref i); [|reflexivity].
  transitivity (set_if (forallb complete older && BaseCPU.robInsert cpu) DynInst.PrevInstsCompleted
                  (set_if (forallb resolved older) DynInst.PrevBrsResolved i)).
  - etransitivity; [by apply set_if_same_tests|]. etransitivity; [by apply set_if_same_tests|].
    by destruct (reported done older i).
  - etransitivity; by apply set_if_same_tests.
Qed.

Lemma prev_after_seen done older i :
  prev_after (prev_of older) (seen done older i) = prev_of (older ++ [i]).
Proof.
  destruct (seen_same_tests done older i) as ((_ & _ & Hst) & Hu & Hw).
  unfold prev_after, prev_of, DynInst.isControl. simpl. rewrite Hst, Hu, Hw, !forallb_app. simpl.
  unfold complete, resolved, DynInst.isControl. rewrite !andb_true_r.
  rewrite (bool_decide_eq_false_2 (older ++ [i] = [])) by (by destruct older).
  f_equal; destruct (unfinished i), (waits_for_head i), (StaticInst.isControl (DynInst.staticInst i));
    simpl; by rewrite ?andb_true_r, ?andb_false_r.
Qed.

Lemma complete_resolved older : forallb complete older = true -> forallb resolved older = true.
Proof.
  rewrite !forallb_forall. intros H i Hi. specialize (H i Hi). unfold complete, resolved in *.
  destruct (unfinished i); [done|]. by rewrite andb_false_r.
Qed.

(** A history packet is a request, as [buildSHTpacket] makes it. *)
Definition sht_ok (i : DynInst.t) : Prop :=
  forall p, DynInst.SHTpkt i = Some p -> Packet.isRequest p = true.

Lemma visible_inst_seen done older i :
  sht_ok i -> memref i = true ->
  visible_inst cpu done (prev_of older) i = Ok (seen done older i, report done older i).
Proof.
  intros Hs Hm. unfold visible_inst, seen, report, reported, sendSHBinfo. rewrite Hm. simpl.
  change (if forallb resolved older then DynInst.setPrevBrsResolved i else i)
    with (set_if (forallb resolved older) DynInst.PrevBrsResolved i).
  set (i1 := set_if (forallb resolved older) DynInst.PrevBrsResolved i).
  assert (DynInst.SHTpkt i1 = DynInst.SHTpkt i /\ DynInst.SHTinserted i1 = DynInst.SHTinserted i)
    as [Hp Hi] by (subst i1; unfold set_if; by destruct (forallb resolved older)).
  destruct (forallb complete older) eqn:Hc; [|done].
  destruct (BaseCPU.robInsert cpu); [|done]. simpl.
  assert (DynInst.isPrevBrsResolved i1 = true) as ->.
  { subst i1. unfold DynInst.isPrevBrsResolved, set_if. rewrite (complete_resolved _ Hc).
    by rewrite DynInst.has_set_status. }
  rewrite Hp, Hi. destruct (DynInst.SHTpkt i) as [p|] eqn:Hpi; simpl; [|by rewrite !andb_false_r].
  rewrite (Hs p Hpi). by destruct (DynInst.SHTinserted i), done.
Qed.

(** One run over a list of instructions in program order. *)
Fixpoint seen_all (done : bool) (older xs : list DynInst.t) : list DynInst.t :=
  match xs with [] => [] | i :: xs => seen done older i :: seen_all done (older ++ [i]) xs end.
Fixpoint reports (done : bool) (older xs : list DynInst.t) : list Packet.t :=
  match xs with [] => [] | i :: xs => report done older i ++ reports done (older ++ [i]) xs end.

Lemma seen_all_lookup done older xs k :
  seen_all done older xs !! k = seen done (older ++ take k xs) <$> xs !! k.
Proof.
  revert older k. induction xs as [|i xs IH]; intros older k; [done|].
  destruct k as [|k]; simpl; [by rewrite app_nil_r|]. by rewrite IH, <- app_assoc.
Qed.

(** Behind an instruction that is not complete and a branch that is not resolved
    nothing is visible: leaving the loop there loses nothing. *)
Lemma seen_stop done older i :
  forallb complete older = false -> forallb resolved older = false ->
  seen done older i = i /\ report done older i = [].
Proof.
  intros Hc Hr. unfold seen, report, reported. rewrite Hc, Hr, !andb_false_r. simpl.
  rewrite bool_decide_eq_false_2 by (by destruct older).
  enough (forallb (fun j => negb (DynInst.isControl j)) older = false) as -> by by destruct (memref i).
  apply not_true_iff_false. intros Hn. apply not_true_iff_false in Hr. apply Hr.
  rewrite !forallb_forall in *. intros j Hj. specialize (Hn j Hj). unfold resolved.
  by destruct (DynInst.isControl j).
Qed.

Lemma stop_all done older xs :
  forallb complete older = false -> forallb resolved older = false ->
  seen_all done older xs = xs /\ reports done older xs = [].
Proof.
  revert older. induction xs as [|i xs IH]; intros older Hc Hr; [done|]. simpl.
  destruct (seen_stop done older i Hc Hr) as [-> ->].
  destruct (IH (older ++ [i])) as [-> ->]; [by rewrite forallb_app, ?Hc, ?Hr..|done].
Qed.

Lemma visible_loop_seen done older ps xs h :
  NoDup ps -> holds h ps xs -> Forall sht_ok xs ->
  exists h', visible_loop cpu done ps (prev_of older) h = Ok (h', reports done older xs)
    /\ holds h' ps (seen_all done older xs)
    /\ forall q, q ∉ ps -> h' !! q = h !! q.
Proof.
  intros Hnd. revert older xs h. induction Hnd as [|p ps Hp Hnd IH]; intros older xs h Hh Hs.
  { inversion Hh; subst. exists h. done. }
  inversion Hh as [|? i ? xs' Hpi Hh' Heq1 Heq2]; subst. inversion Hs as [|? ? Hsi Hs']; subst.
  simpl. unfold deref. rewrite Hpi. simpl.
  destruct (negb (forallb complete older) && negb (forallb resolved older)) eqn:Hbrk.
  { apply andb_true_iff in Hbrk as [Hc%negb_true_iff Hr%negb_true_iff].
    destruct (stop_all done older (i :: xs') Hc Hr) as [Ha Hb]. simpl in Ha, Hb.
    exists h. rewrite Ha, Hb. done. }
  assert ((if DynInst.isLoad i || DynInst.isStore i then visible_inst cpu done (prev_of older) i
           else Ok (i, [])) = Ok (seen done older i, report done older i)) as ->.
  { fold (memref i). destruct (memref i) eqn:Hm; [by apply visible_inst_seen|].
    unfold seen, report, reported. by rewrite Hm. }
  simpl. rewrite prev_after_seen.
  destruct (IH (older ++ [i]) xs' (<[p := seen done older i]> h)) as (h' & -> & Hh1 & Hf1);
    [by apply holds_insert_ne|done|].
  exists h'. split_and!; [done| |].
  - constructor; [|done]. rewrite Hf1 by done. by apply lookup_insert_eq.
  - intros q Hq. rewrite Hf1 by set_solver. rewrite lookup_insert_ne; [done|set_solver].
Qed.

End visible.
End VisibleFacts.

Module SquashFacts.

(** What a squash does to an instruction. *)
Definition mark (i : DynInst.t) : DynInst.t :=
  let i := DynInst.set_status DynInst.Squashed i in
  DynInst.setCanCommit
    (if negb (DynInst.isPinnedRegsRenamed i) || DynInst.isPinnedRegsSquashDone i then i
     else DynInst.set_status DynInst.PinnedRegsSquashDone i).

Lemma setSquashed_mark i :
  (let* i := DynInst.setSquashed i in Ok (DynInst.setCanCommit i)) = Ok (mark i).
Proof.
  unfold DynInst.setSquashed, mark, DynInst.setPinnedRegsSquashDone, DynInst.isPinnedRegsSquashDone.
  set (j := DynInst.set_status DynInst.Squashed i).
  destruct (DynInst.isPinnedRegsRenamed j), (DynInst.has_status DynInst.PinnedRegsSquashDone j); done.
Qed.

Lemma mark_identity i : DynInst.same_identity (mark i) i.
Proof. unfold mark. case_match; done. Qed.

Lemma mark_status s i :
  s <> DynInst.PinnedRegsSquashDone ->
  DynInst.has_status s (mark i)
  = bool_decide (s = DynInst.CanCommit) || bool_decide (s = DynInst.Squashed) || DynInst.has_status s i.
Proof.
  intros Hs. unfold mark. case_match; unfold DynInst.setCanCommit; rewrite !DynInst.has_set_status;
    rewrite ?(bool_decide_eq_false_2 (s = DynInst.PinnedRegsSquashDone)) by done;
    destruct (bool_decide (s = DynInst.CanCommit)), (bool_decide (s = DynInst.Squashed)); done.
Qed.

Lemma mark_SHT i : DynInst.SHTpkt (mark i) = DynInst.SHTpkt i.
Proof. unfold mark. by case_match. Qed.

(** The instructions at positions [lo], ..., [hi - 1] are squashed. *)
Definition mark_range (lo hi : nat) (xs : list DynInst.t) : list DynInst.t :=
  imap (fun k i => if (lo <=? k)%nat && (k <? hi)%nat then mark i else i) xs.

Lemma mark_range_lookup lo hi xs k :
  mark_range lo hi xs !! k
  = (fun i => if (lo <=? k)%nat && (k <? hi)%nat then mark i else i) <$> xs !! k.
Proof. apply list_lookup_imap. Qed.

Lemma mark_range_empty lo hi xs : (hi <= lo)%nat -> mark_range lo hi xs = xs.
Proof.
  intros. apply list_eq. intros k. rewrite mark_range_lookup.
  destruct (xs !! k); simpl; [|done]. f_equal.
  destruct (Nat.leb_spec lo k), (Nat.ltb_spec k hi); simpl; done || lia.
Qed.

Lemma mark_range_extend lo hi xs i :
  xs !! lo = Some i -> (lo < hi)%nat ->
  <[lo := mark i]> (mark_range (S lo) hi xs) = mark_range lo hi xs.
Proof.
  intros Hi Hlt. apply list_eq. intros k. rewrite mark_range_lookup.
  destruct (decide (k = lo)) as [->|Hne].
  - rewrite list_lookup_insert_eq.
    + rewrite Hi. simpl. destruct (Nat.leb_spec lo lo), (Nat.ltb_spec lo hi); done || lia.
    + unfold mark_range. rewrite length_imap. by eapply lookup_lt_Some.
  - rewrite list_lookup_insert_ne by done. rewrite mark_range_lookup.
    assert ((S lo <=? k)%nat = (lo <=? k)%nat) as -> by (apply eq_true_iff_eq; rewrite !Nat.leb_le; lia).
    done.
Qed.

Lemma mark_range_identity lo hi xs : Forall2 DynInst.same_identity xs (mark_range lo hi xs).
Proof.
  apply Forall2_same_length_lookup. split; [symmetry; apply length_imap|].
  intros k x y Hx Hy. rewrite mark_range_lookup, Hx in Hy. simpl in Hy. simplify_eq.
  case_match; [symmetry; apply mark_identity|reflexivity].
Qed.

Lemma squash_loop_marks l snum xs hi n :
  NoDup l -> forall j h upd,
  holds h l (mark_range (S j) hi xs) -> (j < length xs)%nat -> (j < hi)%nat ->
  exists h' lo upd',
    squash_loop n l snum h (At j) upd
    = Ok (h', match lo with O => End | S k => At k end, upd', (lo =? 0)%nat)
    /\ (lo <= S j <= lo + n)%nat /\ holds h' l (mark_range lo hi xs)
    /\ (forall q, q ∉ l -> h' !! q = h !! q)
    /\ (forall k i, (lo <= k <= j)%nat -> xs !! k = Some i -> snum < DynInst.seqNum i)
    /\ (lo = O \/ (lo + n)%nat = S j
        \/ exists k i, lo = S k /\ xs !! k = Some i /\ DynInst.seqNum i <= snum).
Proof.
  intros Hnd. induction n as [|n IH]; intros j h upd Hh Hj Hhi.
  { exists h, (S j), upd. split_and!; [done|lia|lia|done|done|intros; lia|right; left; lia]. }
  destruct (lookup_lt_is_Some_2 xs j Hj) as [x Hx].
  assert (is_Some (l !! j)) as [p Hp].
  { apply lookup_lt_is_Some. rewrite (holds_length _ _ _ Hh). unfold mark_range.
    by rewrite length_imap. }
  assert (h !! p = Some x) as Hpx.
  { destruct (holds_lookup _ _ _ _ _ Hh Hp) as (i & Hi & ->).
    rewrite mark_range_lookup, Hx, (proj2 (Nat.leb_gt (S j) j)) in Hi by lia. by simplify_eq/=. }
  cbn [squash_loop]. rewrite (bool_decide_eq_false_2 (At j = End)) by done. simpl. rewrite Hp. simpl. unfold deref. rewrite Hpx. simpl.
  destruct (Z.ltb_spec snum (DynInst.seqNum x)) as [Hlt|Hge].
  2: { exists h, (S j), upd. split_and!; [done|lia|lia|done|done|intros; lia|right; right; eauto]. }
  pose proof (setSquashed_mark x) as Hm. destruct (DynInst.setSquashed x) as [x'|]; [|done].
  simpl in *. apply ok_inj in Hm. rewrite Hm.
  assert (holds (<[p := mark x]> h) l (mark_range j hi xs)) as Hh'.
  { rewrite <- (mark_range_extend _ _ _ _ Hx) by lia. by apply holds_insert. }
  assert (it_begin l = At 0) as -> by by destruct l.
  destruct j as [|j].
  { rewrite bool_decide_eq_true_2 by done. exists (<[p := mark x]> h), O, upd.
    split_and!; [done|lia|lia|done| |intros k i ?; assert (k = O) as -> by lia; congruence|by left].
    intros q Hq. rewrite lookup_insert_ne; [done|]. intros ->. by apply Hq, list_elem_of_lookup; eauto. }
  rewrite bool_decide_eq_false_2 by done.
  assert (exists m q, length l = S m /\ l !! m = Some q) as (m & q & Hlen & Hq).
  { destruct (length l) as [|m] eqn:Hlen; [by destruct l|].
    destruct (lookup_lt_is_Some_2 l m) as [q Hq]; [lia|eauto]. }
  rewrite Hlen. simpl. rewrite Hq. simpl.
  destruct (IH j (<[p := mark x]> h) (upd || (p =? q))) as (h' & lo & upd' & -> & Hlo & Hhl & Hf & Hk & Hx');
    [done|lia|lia|].
  exists h', lo, upd'. split_and!; [done|lia|lia|done| | |].
  - intros z Hz. rewrite Hf by done. rewrite lookup_insert_ne; [done|]. intros ->.
    by apply Hz, list_elem_of_lookup; eauto.
  - intros k i Hki Hi. destruct (decide (k = S j)) as [->|]; [congruence|]. apply (Hk k); [lia|done].
  - destruct Hx' as [->|[?|?]]; [by left|right; left; lia|by right; right].
Qed.

End SquashFacts.

Module RobInv.
Import VisibleFacts SquashFacts.

(** ** The invariant *)

(** A squash in progress: behind the iterator everything is squashed, and the
    instruction it points to is still to be squashed. *)
Definition squash_ok (th : Thread) (xs : list DynInst.t) : Prop :=
  if doneSquashing th then squashIt th = End
  else exists k i, squashIt th = At k /\ xs !! k = Some i /\ squashedSeqNum th < DynInst.seqNum i
    /\ Forall (fun j => DynInst.isSquashed j = true) (drop (S k) xs).

Definition inst_ok (tid : Z) (i : DynInst.t) : Prop :=
  DynInst.threadNumber i = tid /\ DynInst.isInROB i = true /\ sht_ok i.

Record thread_ok (h : heap) (tid : Z) (th : Thread) (xs : list DynInst.t) : Prop := {
  th_holds : holds h (instList th) xs;
  th_order : in_order xs;
  th_insts : Forall (inst_ok tid) xs;
  th_count : threadEntries th = Z.of_nat (length xs);
  th_squash : squash_ok th xs
}.

Definition total (r : t) : nat := sum_list_with (fun th => length (instList th)) (threads r).

Record rob_ok (P : Params) (cpu : BaseCPU.t) (h : heap) (r : t) : Prop := {
  rob_threads : forall tid th, thread tid r = Ok th -> exists xs, thread_ok h tid th xs;
  rob_count : numInstsInROB r = Z.of_nat (total r);
  rob_bound : numInstsInROB r <= numEntries P < 2 ^ 32;
  rob_active : forall tid, tid ∈ BaseCPU.activeThreads cpu -> is_ok (thread tid r) = true
}.

(** ** Threads *)

Lemma thread_Ok tid r th :
  thread tid r = Ok th <-> 0 <= tid /\ threads r !! Z.to_nat tid = Some th.
Proof.
  unfold thread. destruct (Z.ltb_spec tid 0); [split; [done|lia]|].
  destruct (threads r !! Z.to_nat tid); split; intros; naive_solver congruence.
Qed.

Lemma thread_put tid th th' r tid' :
  thread tid r = Ok th ->
  thread tid' (put_thread tid th' r) = if decide (tid' = tid) then Ok th' else thread tid' r.
Proof.
  intros [Ht Hl]%thread_Ok. unfold thread, put_thread. simpl.
  destruct (Z.ltb_spec tid' 0); [case_decide; [lia|done]|]. case_decide as Heq.
  - subst. rewrite list_lookup_insert_eq; [done|]. by eapply lookup_lt_Some.
  - rewrite list_lookup_insert_ne; [done|]. lia.
Qed.

Lemma total_put tid th th' r :
  thread tid r = Ok th ->
  (total (put_thread tid th' r) + length (instList th) = total r + length (instList th'))%nat.
Proof.
  intros [Ht Hl]%thread_Ok. unfold total, put_thread. simpl.
  rewrite <- (take_drop_middle _ _ _ Hl) at 2.
  rewrite insert_take_drop by by eapply lookup_lt_Some.
  rewrite !sum_list_with_app. simpl. lia.
Qed.

Lemma total_ge tid th r : thread tid r = Ok th -> (length (instList th) <= total r)%nat.
Proof.
  intros [Ht Hl]%thread_Ok. unfold total. rewrite <- (take_drop_middle _ _ _ Hl).
  rewrite sum_list_with_app. simpl. lia.
Qed.

(** Lists of different threads share no instruction. *)
Lemma threads_disjoint h tid th xs tid' th' xs' p :
  thread_ok h tid th xs -> thread_ok h tid' th' xs' -> tid <> tid' ->
  p ∈ instList th -> p ∉ instList th'.
Proof.
  intros H H' Hne (k & Hk)%list_elem_of_lookup (k' & Hk')%list_elem_of_lookup.
  destruct (holds_lookup _ _ _ _ _ (th_holds _ _ _ _ H) Hk) as (i & Hi & Hp).
  destruct (holds_lookup _ _ _ _ _ (th_holds _ _ _ _ H') Hk') as (i' & Hi' & Hp').
  pose proof (Forall_lookup_1 _ _ _ _ (th_insts _ _ _ _ H) Hi) as [? _].
  pose proof (Forall_lookup_1 _ _ _ _ (th_insts _ _ _ _ H') Hi') as [? _]. congruence.
Qed.

Lemma thread_ok_frame h h' tid th xs :
  thread_ok h tid th xs -> (forall p, p ∈ instList th -> h' !! p = h !! p) -> thread_ok h' tid th xs.
Proof. intros [Hh Ho Hi Hc Hs] Hf. split; [by eapply holds_frame|done..]. Qed.

Lemma thread_NoDup h tid th xs : thread_ok h tid th xs -> NoDup (instList th).
Proof. intros [Hh Ho _ _ _]. by eapply in_order_NoDup. Qed.

(** Changing one thread and its instructions. *)
Lemma rob_ok_put P cpu h h' r tid th th' xs' :
  rob_ok P cpu h r -> thread tid r = Ok th -> thread_ok h' tid th' xs' ->
  length (instList th') = length (instList th) ->
  (forall q, q ∉ instList th -> h' !! q = h !! q) ->
  rob_ok P cpu h' (put_thread tid th' r).
Proof.
  intros [Ht Hc Hb Ha] Hth Hok Hlen Hf. split.
  - intros tid' th1. rewrite (thread_put _ _ _ _ _ Hth). case_decide; [intros; simplify_res; eauto|].
    intros H1. destruct (Ht _ _ H1) as [xs1 Hok1]. destruct (Ht _ _ Hth) as [xs Hok0].
    exists xs1. apply (thread_ok_frame h); [done|]. intros p Hp. apply Hf.
    by apply (threads_disjoint h tid' th1 xs1 tid th xs p).
  - simpl. rewrite Hc. pose proof (total_put _ _ th' _ Hth). lia.
  - done.
  - intros tid' Hin. rewrite (thread_put _ _ _ _ _ Hth). case_decide; [done|by apply Ha].
Qed.

(** The whole-buffer iterators are not part of the invariant. *)
Lemma rob_ok_set_tail P cpu h r x : rob_ok P cpu h r -> rob_ok P cpu h (set_tail x r).
Proof. by intros [? ? ? ?]. Qed.
Lemma rob_ok_set_head P cpu h r x : rob_ok P cpu h r -> rob_ok P cpu h (set_head x r).
Proof. by intros [? ? ? ?]. Qed.

(** ** The whole-buffer iterators *)

Lemma active_thread P cpu h r tid :
  rob_ok P cpu h r -> tid ∈ BaseCPU.activeThreads cpu ->
  exists th xs, thread tid r = Ok th /\ thread_ok h tid th xs.
Proof.
  intros Hok Hin. pose proof (rob_active _ _ _ _ Hok tid Hin) as Ha.
  destruct (thread tid r) as [th|] eqn:Hth; [|done]. destruct (rob_threads _ _ _ _ Hok _ _ Hth). eauto.
Qed.

(** The oldest instruction of a thread. *)
Definition first_seq (h : heap) (r : t) (tid : Z) : option Z :=
  match thread tid r with
  | Ok th => match instList th with
             | p :: _ => DynInst.seqNum <$> h !! p
             | [] => None
             end
  | Err _ => None
  end.

(** [x] is the head of the thread, among [tids], whose oldest instruction is oldest. *)
Definition oldest_of (h : heap) (r : t) (tids : list Z) (x : Z * InstIt) : Prop :=
  x.2 = At 0 /\ x.1 ∈ tids /\ exists n, first_seq h r x.1 = Some n
    /\ forall tid m, tid ∈ tids -> first_seq h r tid = Some m -> n <= m.

Definition none_of (h : heap) (r : t) (tids : list Z) : Prop :=
  forall tid, tid ∈ tids -> first_seq h r tid = None.

Lemma elem_of_snoc (tid x : Z) pre : tid ∈ pre ++ [x] -> tid ∈ pre \/ tid = x.
Proof. set_solver. Qed.

Lemma updateHead_oldest P cpu h r :
  rob_ok P cpu h r ->
  exists x, updateHead cpu h r = Ok (set_head x r)
    /\ (none_of h r (BaseCPU.activeThreads cpu) /\ x = (0, End)
        \/ oldest_of h r (BaseCPU.activeThreads cpu) x).
Proof.
  intros Hok. unfold updateHead.
  edestruct (foldM_ind (updateHead_step h r)
    (fun pre '(hd, n, first) => (first : bool) = true /\ none_of h r pre
       \/ first = false /\ oldest_of h r pre hd /\ first_seq h r hd.1 = Some n)) as ([[x n] first] & -> & HI).
  - left. split; [done|]. intros tid Hin. set_solver.
  - intros pre tid post [[hd n] first] Hl0 HI.
    assert (tid ∈ BaseCPU.activeThreads cpu) as Hin by (rewrite Hl0; set_solver).
    destruct (active_thread _ _ _ _ _ Hok Hin) as (th & xs & Hth & [Hh _ _ _ _]).
    unfold updateHead_step. rewrite Hth. simpl.
    destruct (instList th) as [|p l] eqn:Hl.
    { assert (first_seq h r tid = None) by (unfold first_seq; by rewrite Hth, Hl).
      eexists. split; [done|]. unfold none_of, oldest_of in *.
      destruct HI as [[? ?]|(? & (? & ? & m & ? & ?) & ?)]; [left|right]; split_and!; try done;
        [set_solver|set_solver|]. exists m. set_solver. }
    inversion Hh as [|? i ? xs' Hpi]; subst. unfold deref. rewrite Hpi. simpl.
    assert (first_seq h r tid = Some (DynInst.seqNum i)) as Hf
      by (unfold first_seq; by rewrite Hth, Hl, Hpi).
    destruct HI as [[-> Hn]|(-> & (Ha & Hb & m & Hm & Hle) & Hn)].
    + eexists. split; [done|]. right. split_and!; [done| |done]. split_and!; [done|simpl; set_solver|].
      exists (DynInst.seqNum i). split; [done|]. intros tid' k [Hin'| ->]%elem_of_snoc Hk.
      * rewrite (Hn _ Hin') in Hk. done.
      * rewrite Hf in Hk. simplify_eq. lia.
    + assert (m = n) as -> by congruence.
      destruct (Z.ltb_spec (DynInst.seqNum i) n) as [Hlt|Hge]; eexists; (split; [done|]);
        right; (split_and!; [done| |done]); (split_and!; [done|simpl; set_solver|]); simpl.
      all: rewrite ?Hf, ?Hm; eexists; split; [done|];
        intros tid' k [Hin'| ->]%elem_of_snoc Hk;
        [specialize (Hle _ _ Hin' Hk); lia|rewrite Hf in Hk; simplify_eq; lia].
  - simpl. destruct HI as [[-> Hn]|(-> & Ho & _)]; eauto.
Qed.

(** [x] points at the last instruction of a thread. *)
Definition last_of (h : heap) (r : t) (x : Z * InstIt) : Prop :=
  exists th p i, thread x.1 r = Ok th /\ it_deref (instList th) x.2 = Ok p /\ h !! p = Some i.

Lemma updateTail_total P cpu h r :
  rob_ok P cpu h r -> exists x, updateTail cpu h r = Ok (set_tail x r).
Proof.
  intros Hok. unfold updateTail.
  edestruct (foldM_ind (updateTail_step h r) (fun _ '(tl, first) => (first : bool) = true \/ last_of h r tl))
    as ([x first] & -> & _); [by left| |by eexists].
  intros pre tid post [tl first] Hl0 HI.
  assert (tid ∈ BaseCPU.activeThreads cpu) as Hin by (rewrite Hl0; set_solver).
  destruct (active_thread _ _ _ _ _ Hok Hin) as (th & xs & Hth & [Hh _ _ _ _]).
  unfold updateTail_step. rewrite Hth. simpl.
  destruct (instList th) as [|p0 l] eqn:Hl; [eauto|].
  assert (last_of h r (tid, At (length l))) as Hlast.
  { destruct (lookup_lt_is_Some_2 (p0 :: l) (length l)) as [p Hp]; [simpl; lia|].
    destruct (holds_lookup _ _ _ _ _ Hh Hp) as (i & _ & Hi).
    exists th, p, i. simpl. rewrite Hl, Hp. done. }
  simpl. destruct first; [eexists; split; [done|]; by right|]. destruct HI as [?|Htl]; [done|].
  pose proof Hlast as (th1 & p & i & Hth1 & Hp & Hi). simpl in *. rewrite Hth in Hth1. simplify_res.
  rewrite Hl in Hp. rewrite Hp. simpl. rewrite (proj2 (deref_Ok _ _ _) Hi). simpl.
  pose proof Htl as (th2 & q & j & -> & Hq & Hj). simpl. rewrite Hq. simpl.
  rewrite (proj2 (deref_Ok _ _ _) Hj). simpl.
  destruct (DynInst.seqNum j <? DynInst.seqNum i); (eexists; split; [reflexivity|]; by right).
Qed.

(** ** Squashing *)

Lemma mark_inst_ok tid i : inst_ok tid i -> inst_ok tid (mark i).
Proof.
  intros (Ht & Hr & Hs). destruct (mark_identity i) as (_ & Hm & _). split_and!.
  - congruence.
  - unfold DynInst.isInROB. rewrite mark_status by done. apply orb_true_iff. by right.
  - intros p. rewrite mark_SHT. apply Hs.
Qed.

Lemma mark_range_insts tid lo hi xs :
  Forall (inst_ok tid) xs -> Forall (inst_ok tid) (mark_range lo hi xs).
Proof.
  rewrite !Forall_lookup. intros H k i Hk. rewrite mark_range_lookup in Hk.
  destruct (xs !! k) as [x|] eqn:Hx; [|done]. simpl in Hk. simplify_eq.
  case_match; [apply mark_inst_ok|]; by eapply H.
Qed.

Lemma mark_range_squashed lo j xs :
  Forall (fun i => DynInst.isSquashed i = true) (drop (S j) xs) ->
  Forall (fun i => DynInst.isSquashed i = true) (drop lo (mark_range lo (S j) xs)).
Proof.
  rewrite !Forall_lookup. intros H k i Hk. rewrite lookup_drop, mark_range_lookup in Hk.
  destruct (xs !! (lo + k)%nat) as [x|] eqn:Hx; [|done]. simpl in Hk.
  destruct (Nat.ltb_spec (lo + k) (S j)) as [Hlt|Hge].
  - rewrite (proj2 (Nat.leb_le lo (lo + k))) in Hk by lia. simpl in Hk. simplify_eq.
    unfold DynInst.isSquashed. by rewrite mark_status.
  - rewrite andb_false_r in Hk. simplify_eq. apply (H (lo + k - S j)%nat).
    rewrite lookup_drop. by replace (S j + (lo + k - S j))%nat with (lo + k)%nat by lia.
Qed.

(** How many instructions one cycle squashes at most. *)
Definition width (P : Params) (cpu : BaseCPU.t) (tid : Z) : nat :=
  Z.to_nat (if BaseCPU.isThreadExiting tid cpu then numEntries P else squashWidth P).

(** The effect of one cycle of squashing from position [j]: the positions from [lo]
    are squashed; [d] says that nothing is left to squash. *)
Record squashed_to (P : Params) (cpu : BaseCPU.t) (h : heap) (tid : Z) (th : Thread)
    (xs : list DynInst.t) (j lo : nat) (d : bool) (h' : heap) : Prop := {
  sq_range : (lo <= S j)%nat;
  sq_holds : holds h' (instList th) (mark_range lo (S j) xs);
  sq_frame : forall q, q ∉ instList th -> h' !! q = h !! q;
  sq_young : forall k i, (lo <= k <= j)%nat -> xs !! k = Some i -> squashedSeqNum th < DynInst.seqNum i;
  sq_done : d = true -> forall k i, (k < lo)%nat -> xs !! k = Some i -> DynInst.seqNum i <= squashedSeqNum th;
  sq_more : d = false -> (lo + width P cpu tid = S j)%nat
            /\ exists k i, lo = S k /\ xs !! k = Some i /\ squashedSeqNum th < DynInst.seqNum i
}.

Definition squash_to (d : bool) (lo : nat) (th : Thread) : Thread :=
  set_squash (if d then End else At (pred lo)) d th.

(** The thread after the cycle satisfies the invariant again. *)
Lemma squashed_thread_ok P cpu h tid th xs j lo d h' :
  in_order xs -> Forall (inst_ok tid) xs -> threadEntries th = Z.of_nat (length xs) ->
  Forall (fun i => DynInst.isSquashed i = true) (drop (S j) xs) ->
  squashed_to P cpu h tid th xs j lo d h' ->
  thread_ok h' tid (squash_to d lo th) (mark_range lo (S j) xs).
Proof.
  intros Ho Hi Hc Hs Hsq. split; simpl.
  - apply Hsq.
  - eapply in_order_identity; [apply mark_range_identity|done].
  - by apply mark_range_insts.
  - unfold mark_range. by rewrite length_imap.
  - unfold squash_ok, squash_to. simpl. destruct d; [done|].
    destruct (sq_more _ _ _ _ _ _ _ _ _ _ Hsq eq_refl) as (_ & k & i & -> & Hk & Hlt).
    exists k, i. split_and!; [done| |done|by apply mark_range_squashed].
    by rewrite mark_range_lookup, Hk, (proj2 (Nat.leb_gt (S k) k)) by lia.
Qed.

(** Nothing is left to squash below [lo]. *)
Definition nothing_left (snum : Z) (xs : list DynInst.t) (lo : nat) : bool :=
  match lo with
  | O => true
  | S k => match xs !! k with Some i => DynInst.seqNum i <=? snum | None => true end
  end.

Lemma loop_squashed_to P cpu h tid th xs j :
  holds h (instList th) xs -> in_order xs -> (j < length xs)%nat ->
  exists h' lo upd,
    squash_loop (width P cpu tid) (instList th) (squashedSeqNum th) h (At j) false
    = Ok (h', match lo with O => End | S k => At k end, upd, (lo =? 0)%nat)
    /\ squashed_to P cpu h tid th xs j lo (nothing_left (squashedSeqNum th) xs lo) h'.
Proof.
  intros Hh Ho Hj. pose proof (in_order_NoDup _ _ _ Hh Ho) as Hnd.
  destruct (squash_loop_marks (instList th) (squashedSeqNum th) xs (S j) (width P cpu tid) Hnd j h false)
    as (h' & lo & upd & Hrun & Hlo & Hh' & Hf & Hy & Hend); [by rewrite mark_range_empty|done|lia|].
  exists h', lo, upd. split; [done|]. split; [lia|done..| |]; unfold nothing_left; destruct lo as [|k].
  - intros _ k i ?. lia.
  - destruct (lookup_lt_is_Some_2 xs k) as [y Hyk]; [lia|]. rewrite Hyk. intros Hle k' i Hk Hi.
    destruct (decide (k' = k)) as [->|]; [simplify_eq; lia|].
    pose proof (in_order_lt xs k' k i y Ho Hi Hyk). lia.
  - done.
  - destruct (lookup_lt_is_Some_2 xs k) as [y Hyk]; [lia|]. rewrite Hyk. intros Hgt. split; [|by exists k, y; split_and!; [..|lia]].
    destruct Hend as [?|[?|(k' & i & ? & ? & ?)]]; [done|done|]. simplify_eq. lia.
Qed.

Lemma early_squashed_to P cpu h tid th xs j x :
  holds h (instList th) xs -> in_order xs -> xs !! j = Some x ->
  DynInst.seqNum x < squashedSeqNum th -> squashed_to P cpu h tid th xs j (S j) true h.
Proof.
  intros Hh Ho Hx Hlt. split; [done|by rewrite mark_range_empty|done|intros; lia| |done].
  intros _ k i Hk Hki. destruct (decide (k = j)) as [->|]; [simplify_eq; lia|].
  pose proof (in_order_lt xs k j i x Ho Hki Hx). lia.
Qed.

Lemma put_put tid th th' r : put_thread tid th' (put_thread tid th r) = put_thread tid th' r.
Proof. unfold put_thread, set_threads. simpl. by rewrite list_insert_insert_eq. Qed.

Lemma put_same tid th r : thread tid r = Ok th -> put_thread tid th r = r.
Proof.
  intros [_ Hl]%thread_Ok. unfold put_thread, set_threads. rewrite list_insert_id by done. by destruct r.
Qed.

(** The rest of [doSquash], after the loop. *)
Lemma after_loop P cpu h r tid th lo xs h' (upd : bool) j :
  squashed_to P cpu h tid th xs j lo (nothing_left (squashedSeqNum th) xs lo) h' ->
  doneSquashing th = false -> (j < length xs)%nat ->
  rob_ok P cpu h' (put_thread tid (squash_to (nothing_left (squashedSeqNum th) xs lo) lo th) r) ->
  exists x,
    (if (lo =? 0)%nat then Ok (h', put_thread tid (set_squash End true th) r)
     else
       let* p := it_deref (instList th) (match lo with O => End | S k => At k end) in
       let* i := deref h' p in
       let th' := if DynInst.seqNum i <=? squashedSeqNum th then set_squash End true th
                  else set_squash (match lo with O => End | S k => At k end) (doneSquashing th) th in
       let r := put_thread tid th' r in
       let* r := if upd then updateTail cpu h' r else Ok r in
       Ok (h', r))
    = Ok (h', set_tail x (put_thread tid (squash_to (nothing_left (squashedSeqNum th) xs lo) lo th) r)).
Proof.
  intros Hs Hd Hj Hok. destruct lo as [|k]; simpl.
  { exists (tail r). by destruct r. }
  pose proof (sq_range _ _ _ _ _ _ _ _ _ _ Hs) as Hlo.
  destruct (lookup_lt_is_Some_2 xs k) as [y Hy]; [lia|].
  pose proof (sq_holds _ _ _ _ _ _ _ _ _ _ Hs) as Hh.
  assert (mark_range (S k) (S j) xs !! k = Some y) as Hm
    by (by rewrite mark_range_lookup, Hy, (proj2 (Nat.leb_gt (S k) k)) by lia).
  destruct (Forall2_lookup_r _ _ _ _ _ Hh Hm) as (p & Hp & Hpy). rewrite Hp. simpl.
  unfold deref. rewrite Hpy. simpl. unfold nothing_left in *. rewrite Hy in *.
  assert ((if DynInst.seqNum y <=? squashedSeqNum th then set_squash End true th
           else set_squash (At k) (doneSquashing th) th)
          = squash_to (DynInst.seqNum y <=? squashedSeqNum th) (S k) th) as ->.
  { unfold squash_to. rewrite Hd. by destruct (_ <=? _). }
  destruct upd; simpl; [|exists (tail r); by destruct r].
  destruct (updateTail_total _ _ _ _ Hok) as [z ->]. simpl. eauto.
Qed.

Lemma doSquash_marks P cpu h r tid th0 th xs j x :
  rob_ok P cpu h r -> thread tid r = Ok th0 -> instList th = instList th0 ->
  threadEntries th = threadEntries th0 -> doneSquashing th = false ->
  thread_ok h tid th0 xs -> squashIt th = At j -> xs !! j = Some x ->
  Forall (fun i => DynInst.isSquashed i = true) (drop (S j) xs) ->
  exists h' r' lo d, doSquash P cpu tid h (put_thread tid th r) = Ok (h', r')
    /\ squashed_to P cpu h tid th xs j lo d h'
    /\ rob_ok P cpu h' r'
    /\ forall tid', thread tid' r' = if decide (tid' = tid) then Ok (squash_to d lo th) else thread tid' r.
Proof.
  intros Hok Hth0 Hl He Hd [Hh Ho Hi Hc _] Hit Hx Hsq. rewrite <- Hl in Hh.
  assert (j < length xs)%nat as Hj by by eapply lookup_lt_Some.
  destruct (Forall2_lookup_r _ _ _ _ _ Hh Hx) as (p & Hp & Hpx).
  assert (forall h' lo d, squashed_to P cpu h tid th xs j lo d h' ->
    rob_ok P cpu h' (put_thread tid (squash_to d lo th) r)) as Hput.
  { intros h' lo d Hs. eapply (rob_ok_put P cpu h h' r tid th0); [done|done| |by simpl; rewrite Hl|].
    - eapply squashed_thread_ok; [done..|by rewrite He|done|done].
    - rewrite <- Hl. apply Hs. }
  unfold doSquash. rewrite (thread_put _ _ _ _ _ Hth0), decide_True by done. simpl.
  rewrite Hit, bool_decide_eq_false_2 by done. simpl. rewrite Hp. simpl. unfold deref at 1. rewrite Hpx.
  simpl.
  destruct (Z.ltb_spec (DynInst.seqNum x) (squashedSeqNum th)) as [Hlt|Hge].
  { pose proof (early_squashed_to P cpu h tid th xs j x Hh Ho Hx Hlt) as Hs.
    rewrite put_put. eexists _, _, (S j), true. split_and!; [done|done|exact (Hput _ _ _ Hs)|].
    intros tid'. by rewrite (thread_put _ _ _ _ _ Hth0). }
  destruct (loop_squashed_to P cpu h tid th xs j Hh Ho Hj) as (h' & lo & upd & Hrun & Hs).
  fold (width P cpu tid). rewrite Hrun. simpl.
  destruct (after_loop P cpu h (put_thread tid th r) tid th lo xs h' upd j Hs Hd Hj) as [z Hz];
    [rewrite put_put; exact (Hput _ _ _ Hs)|].
  simpl in Hz. rewrite Hz, put_put.
  eexists _, _, lo, _. split_and!; [done|done|exact (rob_ok_set_tail _ _ _ _ _ (Hput _ _ _ Hs))|].
  intros tid'. exact (thread_put _ _ (squash_to (nothing_left (squashedSeqNum th) xs lo) lo th) _ tid' Hth0).
Qed.

Lemma mark_range_join lo m hi xs :
  (lo <= m <= hi)%nat -> mark_range lo m (mark_range m hi xs) = mark_range lo hi xs.
Proof.
  intros Hm. apply list_eq. intros k. rewrite !mark_range_lookup.
  destruct (xs !! k) as [i|]; [|done]. cbn [fmap option_fmap option_map]. f_equal.
  destruct (Nat.leb_spec lo k), (Nat.leb_spec m k), (Nat.ltb_spec k m), (Nat.ltb_spec k hi);
    simpl; done || lia.
Qed.

(** The program-order view: an instruction is squashed when it is younger than [n]. *)
Definition squash_after (n : Z) (xs : list DynInst.t) : list DynInst.t :=
  map (fun i => if n <? DynInst.seqNum i then mark i else i) xs.

Lemma mark_range_after n lo xs :
  (forall k i, xs !! k = Some i -> (lo <= k)%nat <-> n < DynInst.seqNum i) ->
  mark_range lo (length xs) xs = squash_after n xs.
Proof.
  intros H. apply list_eq. intros k. unfold squash_after. rewrite mark_range_lookup, list_lookup_fmap.
  destruct (xs !! k) as [i|] eqn:Hi; [|done]. cbn [fmap option_fmap option_map]. f_equal.
  pose proof (lookup_lt_Some _ _ _ Hi) as Hlt. apply Nat.ltb_lt in Hlt. rewrite Hlt, andb_true_r.
  specialize (H k i Hi). destruct (Nat.leb_spec lo k), (Z.ltb_spec n (DynInst.seqNum i)); done || lia.
Qed.

(** The instruction at an unmarked position. *)
Lemma mark_range_below lo hi xs k : (k < lo)%nat -> mark_range lo hi xs !! k = xs !! k.
Proof.
  intros Hk. rewrite mark_range_lookup, (proj2 (Nat.leb_gt lo k)) by lia. by destruct (xs !! k).
Qed.

Lemma mark_range_seq lo hi xs k i :
  mark_range lo hi xs !! k = Some i ->
  exists x, xs !! k = Some x /\ DynInst.seqNum x = DynInst.seqNum i.
Proof.
  intros Hi. destruct (Forall2_lookup_r _ _ _ _ _ (mark_range_identity lo hi xs) Hi) as (x & Hx & Hid & _).
  eauto.
Qed.

Lemma squashed_to_after P cpu h tid th xs j lo h' :
  squashed_to P cpu h tid th (mark_range (S j) (length xs) xs) j lo true h' -> (j < length xs)%nat ->
  (forall k i, (j < k)%nat -> xs !! k = Some i -> squashedSeqNum th < DynInst.seqNum i) ->
  holds h' (instList th) (squash_after (squashedSeqNum th) xs).
Proof.
  intros [Hr Hh _ Hy Hd _] Hj Hj'. rewrite mark_range_join in Hh by lia.
  rewrite <- (mark_range_after _ lo); [done|]. intros k i Hi. split.
  - intros Hk. destruct (decide (k <= j)%nat); [|by apply (Hj' k); [lia|]].
    apply (Hy k); [lia|]. by rewrite mark_range_below by lia.
  - intros Hlt. destruct (decide (lo <= k)%nat); [done|].
    specialize (Hd eq_refl k i). rewrite mark_range_below in Hd by lia. specialize (Hd ltac:(lia) Hi). lia.
Qed.

Lemma squash_finishes P cpu tid xs n c :
  in_order xs -> forall j h r th0 th,
  rob_ok P cpu h r -> thread tid r = Ok th0 -> instList th = instList th0 ->
  threadEntries th = threadEntries th0 -> doneSquashing th = false -> squashedSeqNum th = n ->
  thread_ok h tid th0 (mark_range (S j) (length xs) xs) -> squashIt th = At j -> (j < length xs)%nat ->
  Forall (fun i => DynInst.isSquashed i = true) (drop (S j) (mark_range (S j) (length xs) xs)) ->
  (forall k i, (j < k)%nat -> xs !! k = Some i -> n < DynInst.seqNum i) ->
  (S j <= S c * width P cpu tid)%nat ->
  exists h' r', (let* (h, r) := doSquash P cpu tid h (put_thread tid th r) in
                 squash_cycles P cpu c tid h r) = Ok (h', r')
    /\ rob_ok P cpu h' r' /\ thread tid r' = Ok (set_squash End true th)
    /\ holds h' (instList th) (squash_after n xs)
    /\ forall q, q ∉ instList th -> h' !! q = h !! q.
Proof.
  intros Ho. induction c as [|c IH]; intros j h r th0 th Hok Hth0 Hl He Hd Hn Hth Hit Hj Hsq Hy Hc;
    (destruct (lookup_lt_is_Some_2 xs j Hj) as [x Hx]);
    (destruct (doSquash_marks P cpu h r tid th0 th _ j x Hok Hth0 Hl He Hd Hth Hit)
      as (h1 & r1 & lo & d & -> & Hto & Hok1 & Hths);
      [by rewrite mark_range_below by lia|done|]);
    pose proof (Hths tid) as Hth1; rewrite decide_True in Hth1 by done;
    subst n; simpl; (destruct d; [pose proof (squashed_to_after _ _ _ _ _ _ _ _ _ Hto Hj Hy)|]).
  1, 3: unfold isDoneSquashing; rewrite ?Hth1; exists h1, r1; split_and!; [done..|apply Hto].
  all: destruct (sq_more _ _ _ _ _ _ _ _ _ _ Hto eq_refl) as (Hw & k & i & -> & Hk & Hki).
  1: lia.
  unfold isDoneSquashing. rewrite Hth1. simpl.
  rewrite <- (put_same _ _ _ Hth1).
  destruct (IH k h1 r1 (squash_to false (S k) th) (squash_to false (S k) th)) as (h' & r' & Hrun & Hok' & Hth' & Hh' & Hf');
    [done|done|done|done|done|done| |done|lia| | |lia|].
  - rewrite <- (mark_range_join (S k) (S j)) by lia.
    destruct Hth as [_ Ho' Hi' Hc' _]. rewrite <- He in Hc'. by eapply squashed_thread_ok.
  - rewrite <- (mark_range_join (S k) (S j)) by lia. by apply mark_range_squashed.
  - intros m i' Hm Hi'. destruct (decide (m <= j)%nat); [|by apply (Hy m); [lia|]].
    apply (sq_young _ _ _ _ _ _ _ _ _ _ Hto m); [lia|]. by rewrite mark_range_below by lia.
  - exists h', r'. split_and!; [done|done|done|done|]. intros q Hq. rewrite (Hf' q Hq). by apply Hto.
Qed.

(** Starting a squash puts the iterator on the youngest instruction. *)
Lemma squash_starts n P cpu h r tid th xs :
  thread tid r = Ok th -> thread_ok h tid th xs -> xs <> [] ->
  squash P cpu n tid h r
  = doSquash P cpu tid h (put_thread tid (mkThread (Some ROBSquashing) (threadEntries th) (maxEntries th)
      (instList th) (At (pred (length xs))) n false) r).
Proof.
  intros Hth [Hh _ _ Hc _] Hne. unfold squash, isEmpty_tid. rewrite Hth. simpl.
  pose proof (holds_length _ _ _ Hh) as Hlen.
  destruct (Z.eqb_spec (threadEntries th) 0) as [H0|_].
  { destruct xs; [done|]. simpl in Hc. lia. }
  destruct (instList th) as [|p l] eqn:Hl; [by destruct xs|]. simpl in *. by rewrite <- Hlen.
Qed.

(** A squash of an empty thread changes nothing. *)
Lemma squash_empty n P cpu h r tid th :
  thread tid r = Ok th -> thread_ok h tid th [] -> squash P cpu n tid h r = Ok (h, r).
Proof. intros Hth [_ _ _ Hc _]. unfold squash, isEmpty_tid. rewrite Hth. simpl. by rewrite Hc. Qed.

(** What the stages from rename to commit may change of an instruction: an instruction
    becomes ready to commit, here, only by being squashed. *)
Record evolves (i i' : DynInst.t) : Prop := {
  ev_identity : DynInst.same_identity i i';
  ev_packet : DynInst.SHTpkt i' = DynInst.SHTpkt i;
  ev_fault : DynInst.fault i' = DynInst.fault i;
  ev_flags : DynInst.instFlags i' = DynInst.instFlags i;
  ev_executed : DynInst.isExecuted i' = DynInst.isExecuted i;
  ev_completed : DynInst.isCompleted i = true -> DynInst.isCompleted i' = true;
  ev_squashed : DynInst.isSquashed i = true -> DynInst.isSquashed i' = true;
  ev_ready : DynInst.readyToCommit i' = true ->
    DynInst.readyToCommit i = true \/ DynInst.isSquashed i' = true
}.

#[global] Instance evolves_preorder : PreOrder evolves.
Proof.
  split; [intros i; split; naive_solver|]. intros i j k [] []. split; try congruence; [|naive_solver..].
  by etransitivity.
Qed.

(** Setting a bit the commit stage does not test. *)
Lemma evolves_set st i :
  st <> DynInst.Executed -> st <> DynInst.Squashed -> st <> DynInst.CanCommit ->
  evolves i (DynInst.set_status st i).
Proof.
  intros H1 H2 H3. split; try done;
    unfold DynInst.isExecuted, DynInst.isCompleted, DynInst.isSquashed, DynInst.readyToCommit;
    rewrite ?DynInst.has_set_status.
  - by rewrite bool_decide_eq_false_2.
  - intros ->. apply orb_true_r.
  - intros ->. apply orb_true_r.
  - rewrite bool_decide_eq_false_2 by done. by left.
Qed.

Lemma evolves_reset st i :
  st <> DynInst.Executed -> st <> DynInst.Squashed -> st <> DynInst.Completed ->
  evolves i (DynInst.reset_status st i).
Proof.
  intros H1 H2 H3. split; try done;
    unfold DynInst.isExecuted, DynInst.isCompleted, DynInst.isSquashed, DynInst.readyToCommit;
    rewrite ?DynInst.has_reset_status.
  - by rewrite bool_decide_eq_false_2.
  - by rewrite bool_decide_eq_false_2.
  - by rewrite bool_decide_eq_false_2.
  - intros [_ ?]%andb_true_iff. by left.
Qed.

Lemma evolves_mark i : evolves i (mark i).
Proof.
  split.
  - symmetry. apply mark_identity.
  - apply mark_SHT.
  - unfold mark. by case_match.
  - unfold mark. by case_match.
  - unfold DynInst.isExecuted. by rewrite mark_status.
  - unfold DynInst.isCompleted. by rewrite mark_status.
  - unfold DynInst.isSquashed. by rewrite mark_status.
  - intros _. right. unfold DynInst.isSquashed. by rewrite mark_status.
Qed.

#[export] Hint Resolve evolves_set evolves_reset evolves_mark : core.

(** Objects are not lost. *)
Definition keeps_objects (h h' : heap) : Prop :=
  forall q, (is_Some (h !! q) -> is_Some (h' !! q))
    /\ forall i', h' !! q = Some i' -> exists i, h !! q = Some i /\ evolves i i'.

#[global] Instance keeps_objects_preorder : PreOrder keeps_objects.
Proof.
  split; [intros h q; split; [done|]; intros i Hi; by exists i|]. intros h1 h2 h3 H12 H23 q.
  destruct (H12 q) as [Ha Hb], (H23 q) as [Hc Hd]. split; [auto|].
  intros i3 (i2 & Hi2 & Hev)%Hd. destruct (Hb i2 Hi2) as (i1 & ? & Hev'). exists i1.
  split; [done|by etransitivity].
Qed.

Lemma keeps_insert h p i j :
  h !! p = Some i -> evolves i j -> keeps_objects h (<[p := j]> h).
Proof.
  intros Hp Hj q. destruct (decide (q = p)) as [->|].
  - rewrite lookup_insert_eq. split; [eauto|]. intros i' Hi. simplify_eq. eauto.
  - rewrite lookup_insert_ne by done. split; [done|]. intros i' Hi. by exists i'.
Qed.

(** The instructions of a list have been worked on, and nothing else. *)
Lemma keeps_list h h' l xs ys :
  holds h l xs -> holds h' l ys -> Forall2 evolves xs ys -> (forall q, q ∉ l -> h' !! q = h !! q) ->
  keeps_objects h h'.
Proof.
  intros Hx Hy Hev Hf q. destruct (decide (q ∈ l)) as [[k Hk]%list_elem_of_lookup|Hn].
  - destruct (holds_lookup _ _ _ _ _ Hx Hk) as (x & Hkx & Hqx).
    destruct (holds_lookup _ _ _ _ _ Hy Hk) as (y & Hky & Hqy).
    split; [by rewrite Hqy|]. intros i' Hi'. simplify_eq. exists x. split; [done|].
    by eapply (Forall2_lookup_lr _ _ _ _ _ _ Hev).
  - rewrite (Hf q Hn). split; [done|]. intros i' Hi. by exists i'.
Qed.

Lemma mark_range_evolves lo hi xs : Forall2 evolves xs (mark_range lo hi xs).
Proof.
  apply Forall2_same_length_lookup_2; [unfold mark_range; by rewrite length_imap|].
  intros k x y Hx. rewrite mark_range_lookup, Hx. simpl. intros [= <-]. by case_match.
Qed.

Lemma squashed_to_keeps P cpu h tid th xs j lo d h' :
  holds h (instList th) xs -> squashed_to P cpu h tid th xs j lo d h' -> keeps_objects h h'.
Proof.
  intros Hh Hs. eapply keeps_list; [done|apply Hs|apply mark_range_evolves|apply Hs].
Qed.

End RobInv.
