(* ===== verification/RobSafety.v ===== *)
(** * Properties of the reorder buffer

    The theorems on squashing, on the invariant over every history of the buffer, and
    on the accesses it reports to the safe history buffer. *)

From Stdlib Require Import Sorting.Sorted.
From stdpp Require Import gmap.
From S2P Require Import Prelude.
From S2P Require Import BaseUtil MemCmd Request Packet DynInst Rob RobFacts.

Local Open Scope Z_scope.
Import ROB HeapFacts VisibleFacts SquashFacts RobInv.

Module RobSafety.

(** ** Operations keep the invariant *)

(** Only thread [tid] changes, and it is still there. *)
Definition only_thread (tid : Z) (r r' : t) : Prop :=
  is_ok (thread tid r') = is_ok (thread tid r)
  /\ forall tid', tid' <> tid -> thread tid' r' = thread tid' r.

Lemma only_thread_put tid r r' th th' :
  thread tid r = Ok th ->
  (forall tid', thread tid' r' = if decide (tid' = tid) then Ok th' else thread tid' r) ->
  only_thread tid r r'.
Proof.
  intros Hth H. split; [by rewrite H, decide_True, Hth|]. intros tid' Hne. by rewrite H, decide_False.
Qed.

(** The list of a thread, and that no list changes. *)
Definition queue (tid : Z) (r : t) : list DynInstPtr :=
  match thread tid r with Ok th => instList th | Err _ => [] end.
Definition same_queues (r r' : t) : Prop := forall tid, queue tid r' = queue tid r.

Lemma queue_put tid r r' th th' tid' :
  thread tid r = Ok th ->
  (forall tid', thread tid' r' = if decide (tid' = tid) then Ok th' else thread tid' r) ->
  queue tid' r' = if decide (tid' = tid) then instList th' else queue tid' r.
Proof. intros Hth H. unfold queue. rewrite H. by case_decide. Qed.

Lemma same_queues_put tid r r' th th' :
  thread tid r = Ok th ->
  (forall tid', thread tid' r' = if decide (tid' = tid) then Ok th' else thread tid' r) ->
  instList th' = instList th -> same_queues r r'.
Proof.
  intros Hth H Hl tid'. rewrite (queue_put _ _ _ _ _ tid' Hth H). case_decide; [|done]. subst.
  unfold queue. by rewrite Hth.
Qed.

Lemma squash_ok_step P cpu h r tid th xs n :
  rob_ok P cpu h r -> thread tid r = Ok th -> thread_ok h tid th xs ->
  exists h' r', squash P cpu n tid h r = Ok (h', r') /\ rob_ok P cpu h' r' /\ only_thread tid r r'
    /\ same_queues r r' /\ keeps_objects h h'.
Proof.
  intros Hok Hth Hxs. destruct (decide (xs = [])) as [->|Hne].
  { rewrite (squash_empty _ _ _ _ _ _ _ Hth Hxs). eexists _, _. split_and!; [done|done|by split|done|reflexivity]. }
  rewrite (squash_starts _ _ _ _ _ _ _ _ Hth Hxs Hne).
  assert (0 < length xs)%nat as Hlen by (destruct xs; [done|simpl; lia]).
  destruct (lookup_lt_is_Some_2 xs (pred (length xs))) as [x Hx]; [lia|].
  edestruct (doSquash_marks P cpu h r tid th) as (h' & r' & lo & d & -> & Hsq & Hok' & Ho);
    [done|done| | | |done| |done| |]; try done.
  - simpl. rewrite drop_ge by lia. constructor.
  - exists h', r'. split_and!; [done..|by eapply only_thread_put|by eapply same_queues_put|eapply squashed_to_keeps; [|exact Hsq]; apply Hxs].
Qed.

Lemma doSquash_ok_step P cpu h r tid th :
  rob_ok P cpu h r -> thread tid r = Ok th -> doneSquashing th = false ->
  exists h' r', doSquash P cpu tid h r = Ok (h', r') /\ rob_ok P cpu h' r' /\ only_thread tid r r'
    /\ same_queues r r' /\ keeps_objects h h'.
Proof.
  intros Hok Hth Hd. destruct (rob_threads _ _ _ _ Hok _ _ Hth) as [xs Hxs].
  pose proof (th_squash _ _ _ _ Hxs) as Hs. unfold squash_ok in Hs. rewrite Hd in Hs.
  destruct Hs as (k & i & Hit & Hk & _ & Hsq).
  destruct (doSquash_marks P cpu h r tid th th xs k i) as (h' & r' & lo & d & Hrun & Hto & Hok' & Ho);
    [done..|]. rewrite put_same in Hrun by done. exists h', r'.
  split_and!; [done..|by eapply only_thread_put|by eapply same_queues_put|eapply squashed_to_keeps; [apply Hxs|done]].
Qed.

(** The stages of the pipeline change an instruction, not its identity. *)
Definition allowed_write (i j : DynInst.t) : Prop :=
  DynInst.same_identity i j /\ DynInst.isInROB j = DynInst.isInROB i /\ sht_ok j
  /\ (DynInst.isSquashed i = true -> DynInst.isSquashed j = true).

Lemma allowed_refl tid i : inst_ok tid i -> allowed_write i i.
Proof. intros (_ & _ & ?). by split_and!. Qed.

(** A thread whose instructions the other stages have worked on. *)
Lemma thread_ok_rewrite h h' tid th xs ys :
  thread_ok h tid th xs -> holds h' (instList th) ys -> Forall2 allowed_write xs ys ->
  thread_ok h' tid th ys.
Proof.
  intros [Hh Ho Hi Hc Hs] Hh' Hf. split; [done| | | |].
  - eapply in_order_identity; [|done]. eapply Forall2_impl; [done|]. by intros x y [? _].
  - clear -Hi Hf. induction Hf as [|x y xs ys ((_ & Ht & _) & Hr & Hsht & _) Hf IH]; [constructor|].
    inversion Hi as [|? ? (? & ? & _) ?]; subst. constructor; [|by apply IH].
    split_and!; [done|congruence|done].
  - by rewrite <- (Forall2_length _ _ _ Hf).
  - unfold squash_ok in *. destruct (doneSquashing th); [done|].
    destruct Hs as (k & x & Hit & Hk & Hlt & Hsq).
    destruct (Forall2_lookup_l _ _ _ _ _ Hf Hk) as (y & Hy & (Hseq & _) & _).
    exists k, y. split_and!; [done|done|by rewrite <- Hseq|].
    pose proof (Forall2_drop _ _ _ (S k) Hf) as Hd. clear -Hd Hsq.
    induction Hd as [|x' y' xs' ys' (_ & _ & _ & Hxy) Hd IH]; [constructor|].
    inversion Hsq; subst. constructor; auto.
Qed.

Lemma write_ok_step P cpu h r p i j :
  rob_ok P cpu h r -> h !! p = Some i -> allowed_write i j -> rob_ok P cpu (<[p := j]> h) r.
Proof.
  intros [Ht Hc Hb Ha] Hp Hw. split; [|done..].
  intros tid th Hth. destruct (Ht _ _ Hth) as [xs Hok].
  destruct (decide (p ∈ instList th)) as [[k Hk]%list_elem_of_lookup|Hn].
  2: { exists xs. apply (thread_ok_frame h); [done|]. intros q Hq. rewrite lookup_insert_ne; [done|].
       by intros ->. }
  destruct (holds_lookup _ _ _ _ _ (th_holds _ _ _ _ Hok) Hk) as (i' & Hki & Hpi). simplify_eq.
  exists (<[k := j]> xs). apply (thread_ok_rewrite h _ _ _ xs); [done| |].
  - apply holds_insert; [by eapply thread_NoDup|done|apply Hok].
  - rewrite <- (list_insert_id xs k _ Hki) at 1. apply Forall2_insert; [|done].
    apply Forall_Forall2_diag. eapply Forall_impl; [apply Hok|]. apply allowed_refl.
Qed.

(** A pointer that is in no list of the buffer. *)
Definition fresh (h : heap) (r : t) (p : DynInstPtr) : Prop :=
  forall tid th, thread tid r = Ok th -> p ∉ instList th.

Lemma younger_fresh P cpu h r p i th xs :
  rob_ok P cpu h r -> h !! p = Some i -> thread (DynInst.threadNumber i) r = Ok th ->
  thread_ok h (DynInst.threadNumber i) th xs ->
  Forall (fun j => DynInst.seqNum j < DynInst.seqNum i) xs -> fresh h r p.
Proof.
  intros Hok Hp Hth Hxs Hy tid' th' Hth' [k Hk]%list_elem_of_lookup.
  destruct (rob_threads _ _ _ _ Hok _ _ Hth') as [xs' Hxs'].
  destruct (holds_lookup _ _ _ _ _ (th_holds _ _ _ _ Hxs') Hk) as (i' & Hi' & Hpi'). simplify_eq.
  destruct (Forall_lookup_1 _ _ _ _ (th_insts _ _ _ _ Hxs') Hi') as [Htn _]. subst tid'.
  rewrite Hth in Hth'. simplify_res.
  destruct (holds_lookup _ _ _ _ _ (th_holds _ _ _ _ Hxs) Hk) as (i'' & Hi'' & Hpi''). simplify_eq.
  pose proof (Forall_lookup_1 _ _ _ _ Hy Hi'') as Hlt. simpl in Hlt. lia.
Qed.

(** The new instruction as the last of its thread. *)
Lemma insert_thread_ok h p i th xs :
  thread_ok h (DynInst.threadNumber i) th xs -> doneSquashing th = true -> sht_ok i ->
  p ∉ instList th -> Forall (fun j => DynInst.seqNum j < DynInst.seqNum i) xs ->
  threadEntries th + 1 < 2 ^ 32 ->
  thread_ok (<[p := DynInst.setInROB i]> h) (DynInst.threadNumber i)
    (set_instList (instList th ++ [p]) (u32 (threadEntries th + 1)) th) (xs ++ [DynInst.setInROB i]).
Proof.
  intros [Hh Ho Hi Hc Hs] Hd Hsht Hp Hy Hb. split; simpl.
  - apply Forall2_app; [by apply holds_insert_ne|]. constructor; [|constructor]. apply lookup_insert_eq.
  - clear -Ho Hy. induction xs as [|x xs IH]; simpl.
    { repeat constructor. }
    apply in_order_cons in Ho as [Ho Hx]. inversion Hy; subst. apply in_order_cons. split; [by apply IH|].
    apply Forall_app. split; [done|]. by repeat constructor.
  - apply Forall_app. split; [done|]. constructor; [|constructor]. split_and!; [done| |done].
    unfold DynInst.isInROB, DynInst.setInROB. by rewrite DynInst.has_set_status.
  - rewrite uwrap_small; [rewrite length_app; simpl; lia|]. unfold in_word. lia.
  - unfold squash_ok in *. simpl. by rewrite Hd in *.
Qed.

Lemma insert_ok_step P cpu h r p i th xs :
  rob_ok P cpu h r -> h !! p = Some i -> thread (DynInst.threadNumber i) r = Ok th ->
  thread_ok h (DynInst.threadNumber i) th xs -> doneSquashing th = true -> sht_ok i ->
  Forall (fun j => DynInst.seqNum j < DynInst.seqNum i) xs -> numInstsInROB r <> numEntries P ->
  exists h' r', insertInst P p h r = Ok (h', r') /\ rob_ok P cpu h' r'
    /\ (forall tid', thread tid' r' = if decide (tid' = DynInst.threadNumber i)
          then Ok (set_instList (instList th ++ [p]) (u32 (threadEntries th + 1)) th) else thread tid' r)
    /\ keeps_objects h h'.
Proof.
  intros Hok Hp Hth Hxs Hd Hsht Hy Hn.
  pose proof (younger_fresh _ _ _ _ _ _ _ _ Hok Hp Hth Hxs Hy) as Hfr.
  pose proof (total_ge _ _ _ Hth) as Hge. destruct Hok as [Ht Hc Hb Ha].
  pose proof (th_count _ _ _ _ Hxs) as Hcnt. pose proof (holds_length _ _ _ (th_holds _ _ _ _ Hxs)) as Hlen.
  unfold insertInst, deref. rewrite Hp. simpl.
  rewrite (proj2 (Z.eqb_neq _ _) Hn). simpl. rewrite Hth. simpl.
  assert (exists hd, (if numInstsInROB r =? 0 then
      let* p0 := it_deref (instList th ++ [p]) (it_begin (instList th ++ [p])) in
      assert! (p0 =? p) in Ok (DynInst.threadNumber i, it_begin (instList th ++ [p]))
      else Ok (head r)) = Ok hd) as [hd ->].
  { destruct (Z.eqb_spec (numInstsInROB r) 0); [|eauto].
    assert (length (instList th) = O) as Hz by lia. destruct (instList th); [|done]. simpl.
    rewrite Z.eqb_refl. eauto. }
  simpl. rewrite length_app, Nat.add_comm. simpl. rewrite list_lookup_middle by done. simpl.
  rewrite Z.eqb_refl. eexists _, _. split; [done|].
  split; [|split; [intros tid'; exact (thread_put _ _ _ _ tid' Hth)|]].
  2: { eapply keeps_insert; [done|]. by apply evolves_set. }
  set (th' := set_instList (instList th ++ [p]) (u32 (threadEntries th + 1)) th).
  pose proof (total_put _ _ th' _ Hth) as Htot. simpl in Htot. rewrite length_app in Htot. simpl in Htot.
  split; simpl.
  - intros tid1 th1 H1. change (thread tid1 (put_thread (DynInst.threadNumber i) th' r) = Ok th1) in H1.
    rewrite (thread_put _ _ _ _ _ Hth) in H1. case_decide; simplify_res.
    + eexists. apply insert_thread_ok; [done..|by eapply Hfr|done|lia].
    + destruct (Ht _ _ H1) as [xs1 Hxs1]. exists xs1. apply (thread_ok_frame h); [done|].
      intros q Hq. rewrite lookup_insert_ne; [done|]. intros ->. by eapply Hfr.
  - change (numInstsInROB r + 1 = Z.of_nat (total (put_thread (DynInst.threadNumber i) th' r))). lia.
  - lia.
  - intros tid1 H1. change (is_ok (thread tid1 (put_thread (DynInst.threadNumber i) th' r)) = true).
    rewrite (thread_put _ _ _ _ _ Hth). case_decide; [done|by apply Ha].
Qed.

Lemma retire_thread_ok h h' p i l tid th xs :
  thread_ok h tid th (i :: xs) -> instList th = p :: l -> doneSquashing th = true ->
  threadEntries th < 2 ^ 32 -> (forall q, q ∈ l -> h' !! q = h !! q) ->
  thread_ok h' tid (set_squash (it_shift (squashIt th)) (doneSquashing th)
                      (set_instList l (u32 (threadEntries th - 1)) th)) xs.
Proof.
  intros [Hh Ho Hi Hc Hs] Hl Hd Hb Hf. rewrite Hl in Hh. inversion Hh; subst. split; simpl.
  - by eapply holds_frame.
  - by apply in_order_cons in Ho as [? _].
  - by inversion Hi.
  - simpl in Hc. rewrite uwrap_small; [lia|]. unfold in_word. lia.
  - unfold squash_ok in *. simpl. rewrite Hd in *. by rewrite Hs.
Qed.

Lemma retire_ok_step P cpu h r tid th p l i :
  rob_ok P cpu h r -> thread tid r = Ok th -> instList th = p :: l -> h !! p = Some i ->
  DynInst.readyToCommit i = true -> doneSquashing th = true ->
  exists h' r', retireHead cpu tid h r = Ok (p, h', r') /\ rob_ok P cpu h' r'
    /\ h' = <[p := DynInst.setCommitted (DynInst.clearInROB i)]> h
    /\ numInstsInROB r' = numInstsInROB r - 1
    /\ exists th', instList th' = l /\ doneSquashing th' = true
       /\ forall tid', thread tid' r' = if decide (tid' = tid) then Ok th' else thread tid' r.
Proof.
  intros Hok Hth Hl Hp Hrdy Hd. destruct (rob_threads _ _ _ _ Hok _ _ Hth) as [xs Hxs].
  pose proof (thread_NoDup _ _ _ _ Hxs) as Hnd. rewrite Hl in Hnd. inversion Hnd as [|? ? Hpl _]; subst.
  pose proof (total_ge _ _ _ Hth) as Hge. rewrite Hl in Hge. simpl in Hge.
  pose proof (holds_length _ _ _ (th_holds _ _ _ _ Hxs)) as Hlen. rewrite Hl in Hlen.
  pose proof Hok as [Ht Hc Hb Ha]. unfold retireHead.
  rewrite (proj2 (Z.ltb_lt 0 (numInstsInROB r))) by lia. rewrite Hth. simpl. rewrite Hl.
  rewrite (proj2 (deref_Ok _ _ _) Hp). simpl. rewrite Hrdy.
  set (th' := set_squash _ _ _). set (h' := <[p := _]> h).
  set (r' := set_num _ _).
  assert (rob_ok P cpu h' r') as Hok'.
  { pose proof (total_put _ _ th' _ Hth) as Htot. rewrite Hl in Htot. simpl in Htot.
    destruct xs as [|x xs]; [done|]. simpl in Hlen.
    split.
    - intros tid1 th1 H1. change (thread tid1 (put_thread tid th' r) = Ok th1) in H1.
      rewrite (thread_put _ _ _ _ _ Hth) in H1. case_decide; simplify_res.
      + exists xs. eapply retire_thread_ok; [done..| |].
        * rewrite (th_count _ _ _ _ Hxs). simpl. lia.
        * intros q Hq. apply lookup_insert_ne. by intros ->.
      + destruct (Ht _ _ H1) as [xs1 Hxs1]. exists xs1. apply (thread_ok_frame h); [done|].
        intros q Hq. apply lookup_insert_ne. intros ->.
        refine (threads_disjoint h tid1 th1 xs1 tid th (x :: xs) q Hxs1 Hxs _ Hq _); [done|].
        rewrite Hl. set_solver.
    - change (numInstsInROB r - 1 = Z.of_nat (total (put_thread tid th' r))). lia.
    - change (numInstsInROB r - 1 <= numEntries P < 2 ^ 32). lia.
    - intros tid1 H1. change (is_ok (thread tid1 (put_thread tid th' r)) = true).
      rewrite (thread_put _ _ _ _ _ Hth). case_decide; [done|by apply Ha]. }
  destruct (updateHead_oldest _ _ _ _ Hok') as (x & -> & _). simpl.
  eexists _, _. split_and!; [done|by apply rob_ok_set_head|done|done|]. exists th'. split_and!; [done..|].
  intros tid'. exact (thread_put _ _ th' _ tid' Hth).
Qed.

(** ** Visibility *)

(** The instructions of a thread in program order. *)
Definition insts (h : heap) (r : t) (tid : Z) : list DynInst.t :=
  match thread tid r with Ok th => omap (h !!.) (instList th) | Err _ => [] end.

Definition finished (r : t) (tid : Z) : bool :=
  match thread tid r with Ok th => doneSquashing th | Err _ => true end.

Lemma holds_omap h l xs : holds h l xs -> omap (h !!.) l = xs.
Proof. induction 1 as [|p i l xs Hp Hh IH]; simpl; [done|]. rewrite Hp. by f_equal. Qed.

Lemma insts_holds h tid r th xs : thread tid r = Ok th -> thread_ok h tid th xs -> insts h r tid = xs.
Proof. intros Hth Hxs. unfold insts. rewrite Hth. by apply holds_omap, Hxs. Qed.

Definition reports_of (cpu : BaseCPU.t) (h : heap) (r : t) (tid : Z) : list Packet.t :=
  reports cpu (finished r tid) [] (insts h r tid).

Lemma set_if_evolves b st i :
  st <> DynInst.Executed -> st <> DynInst.Squashed -> st <> DynInst.CanCommit -> evolves i (set_if b st i).
Proof. intros. destruct b; simpl; [by apply evolves_set|done]. Qed.

Lemma seen_evolves cpu done older i : evolves i (seen cpu done older i).
Proof.
  unfold seen. destruct (memref i); [|done]. do 2 (etransitivity; [|by apply set_if_evolves]).
  assert (forall j, evolves j (DynInst.with_SHTinserted true j)) as Hw by (intros j; split; first [done|by intros ?; left]).
  destruct (reported cpu done older i); [etransitivity; [|apply Hw]|];
    do 2 (etransitivity; [|by apply set_if_evolves]); done.
Qed.

Lemma seen_all_evolves cpu done older xs : Forall2 evolves xs (seen_all cpu done older xs).
Proof. revert older. induction xs; intros older; simpl; constructor; [apply seen_evolves|done]. Qed.

(** The lists of the threads in [pre] have been visited. *)
Definition visited (cpu : BaseCPU.t) (h : heap) (r : t) (pre : list Z) (s : heap * list Packet.t) : Prop :=
  s.2 = pre ≫= reports_of cpu h r
  /\ (forall tid th xs, thread tid r = Ok th -> thread_ok h tid th xs ->
        holds s.1 (instList th)
          (if decide (tid ∈ pre) then seen_all cpu (doneSquashing th) [] xs else xs))
  /\ keeps_objects h s.1.

Lemma visible_visited P cpu h r :
  rob_ok P cpu h r -> NoDup (BaseCPU.activeThreads cpu) ->
  exists s, updateVisibleState cpu h r = Ok s /\ visited cpu h r (BaseCPU.activeThreads cpu) s.
Proof.
  intros Hok Hnd. apply foldM_ind.
  { split_and!; [done| |reflexivity]. intros tid th xs _ Hxs. rewrite decide_False by set_solver. apply Hxs. }
  intros pre tid post [h1 sent] Hl (Hs & Hh & Hk). simpl in *.
  destruct (active_thread _ _ _ _ tid Hok) as (th & xs & Hth & Hxs); [rewrite Hl; set_solver|].
  assert (tid ∉ pre) as Hnew.
  { rewrite Hl in Hnd. apply NoDup_app in Hnd as (_ & Hd & _). intros Hin. apply (Hd _ Hin). set_solver. }
  rewrite Hth. simpl. pose proof (Hh _ _ _ Hth Hxs) as Hcur. rewrite decide_False in Hcur by done.
  assert (Forall sht_ok xs) as Hsht by (eapply Forall_impl; [apply Hxs|]; by intros i (_ & _ & ?)).
  destruct (visible_loop_seen cpu (doneSquashing th) [] (instList th) xs h1 (thread_NoDup _ _ _ _ Hxs) Hcur Hsht)
    as (h2 & Hrun & Hh2 & Hf2).
  unfold prev_of in Hrun. simpl in Hrun. rewrite Hrun. simpl. eexists. split; [done|]. split_and!; simpl.
  - rewrite Hs, bind_app. simpl. rewrite app_nil_r. unfold reports_of, finished.
    by rewrite (insts_holds _ _ _ _ _ Hth Hxs), Hth.
  - intros tid1 th1 xs1 Hth1 Hxs1. destruct (decide (tid1 = tid)) as [->|Hne].
    + rewrite decide_True by set_solver. rewrite Hth in Hth1. simplify_res.
      by rewrite <- (insts_holds _ _ _ _ _ Hth Hxs1), (insts_holds _ _ _ _ _ Hth Hxs).
    + specialize (Hh _ _ _ Hth1 Hxs1).
      rewrite (decide_ext _ (tid1 ∈ pre)) by set_solver.
      eapply holds_frame; [done|]. intros q Hq. apply Hf2.
      by apply (threads_disjoint h tid1 th1 xs1 tid th xs).
  - etransitivity; [done|]. eapply keeps_list; [exact Hcur|done|apply seen_all_evolves|done].
Qed.

Lemma set_if_allowed b st i j :
  st <> DynInst.RobEntry -> allowed_write i j -> allowed_write i (set_if b st j).
Proof.
  intros Hst (Hid & Hr & Hs & Hsq). unfold set_if. destruct b; [|done]. split_and!; [done| |done|].
  - unfold DynInst.isInROB in *. rewrite DynInst.has_set_status, Hr. by rewrite bool_decide_eq_false_2.
  - unfold DynInst.isSquashed in *. rewrite DynInst.has_set_status. intros ->%Hsq. apply orb_true_r.
Qed.

Lemma seen_allowed cpu done older i : sht_ok i -> allowed_write i (seen cpu done older i).
Proof.
  intros Hs. assert (allowed_write i i) as Hi by by split_and!. unfold seen.
  destruct (memref i); [|done]. do 2 (apply set_if_allowed; [done|]).
  destruct (reported cpu done older i); [|by do 2 (apply set_if_allowed; [done|])].
  assert (forall j, allowed_write i j -> allowed_write i (DynInst.with_SHTinserted true j)) as Hw by done.
  apply Hw. by do 2 (apply set_if_allowed; [done|]).
Qed.

Lemma seen_all_allowed cpu done older xs :
  Forall sht_ok xs -> Forall2 allowed_write xs (seen_all cpu done older xs).
Proof.
  intros Hs. revert older. induction Hs; intros older; simpl; constructor; [by apply seen_allowed|done].
Qed.

Lemma visited_rob_ok P cpu h r pre s :
  rob_ok P cpu h r -> visited cpu h r pre s -> rob_ok P cpu s.1 r.
Proof.
  intros [Ht Hc Hb Ha] (_ & Hv & _). split; [|done..]. intros tid th Hth.
  destruct (Ht _ _ Hth) as [xs Hxs]. specialize (Hv _ _ _ Hth Hxs).
  assert (Forall sht_ok xs) as Hs by (eapply Forall_impl; [apply Hxs|]; by intros i (_ & _ & ?)).
  eexists. eapply thread_ok_rewrite; [done|done|]. case_decide; [by apply seen_all_allowed|].
  apply Forall_Forall2_diag. eapply Forall_impl; [apply Hxs|]. apply allowed_refl.
Qed.

Lemma updateVisibleState_exact P cpu h r :
  rob_ok P cpu h r -> NoDup (BaseCPU.activeThreads cpu) ->
  exists h', updateVisibleState cpu h r = Ok (h', BaseCPU.activeThreads cpu ≫= reports_of cpu h r)
    /\ rob_ok P cpu h' r /\ keeps_objects h h'
    /\ forall tid th k p i, tid ∈ BaseCPU.activeThreads cpu -> thread tid r = Ok th ->
         instList th !! k = Some p -> h !! p = Some i ->
         h' !! p = Some (seen cpu (doneSquashing th) (take k (insts h r tid)) i).
Proof.
  intros Hok Hnd. destruct (visible_visited _ _ _ _ Hok Hnd) as ([h' sent] & -> & Hv).
  exists h'. pose proof Hv as (Hs & Hh & Hk). simpl in *. subst sent.
  split_and!; [done|by apply (visited_rob_ok _ _ _ _ _ _ Hok Hv)|done|].
  clear Hk. intros tid th k p i Hin Hth Hk Hp. destruct (rob_threads _ _ _ _ Hok _ _ Hth) as [xs Hxs].
  specialize (Hh _ _ _ Hth Hxs). rewrite decide_True in Hh by done.
  destruct (holds_lookup _ _ _ _ _ (th_holds _ _ _ _ Hxs) Hk) as (i' & Hi' & Hp'). simplify_eq.
  destruct (holds_lookup _ _ _ _ _ Hh Hk) as (j & Hj & ->).
  rewrite seen_all_lookup, Hi' in Hj. simpl in Hj. simplify_eq.
  by rewrite (insts_holds _ _ _ _ _ Hth Hxs).
Qed.

Lemma set_if_status b s s' i :
  DynInst.has_status s (set_if b s' i) = (b && bool_decide (s = s')) || DynInst.has_status s i.
Proof. unfold set_if. destruct b; [apply DynInst.has_set_status|done]. Qed.

Lemma if_inserted_status (b : bool) s i :
  DynInst.has_status s (if b then DynInst.with_SHTinserted true i else i) = DynInst.has_status s i.
Proof. by destruct b. Qed.

(** What the update does to the bits of a load or store. *)
Lemma seen_status cpu done older i s :
  memref i = true ->
  DynInst.has_status s (seen cpu done older i)
  = match s with
    | DynInst.PrevInstsCompleted => forallb complete older && BaseCPU.robInsert cpu
    | DynInst.PrevBrsResolved => forallb resolved older
    | DynInst.PrevInstsCommitted => bool_decide (older = [])
    | DynInst.PrevBrsCommitted => forallb (fun j => negb (DynInst.isControl j)) older
    | _ => false
    end || DynInst.has_status s i.
Proof.
  intros Hm. unfold seen. rewrite Hm, !set_if_status, if_inserted_status, !set_if_status.
  destruct s; simpl; rewrite ?andb_true_r, ?andb_false_r; simpl; try done.
Qed.

Lemma set_if_inserted b s i : DynInst.SHTinserted (set_if b s i) = DynInst.SHTinserted i.
Proof. by destruct b. Qed.

Lemma seen_inserted cpu done older i :
  DynInst.SHTinserted (seen cpu done older i) = DynInst.SHTinserted i || reported cpu done older i.
Proof.
  unfold seen. destruct (memref i) eqn:Hm.
  - rewrite !set_if_inserted. destruct (reported cpu done older i); simpl.
    + by rewrite orb_true_r.
    + by rewrite !set_if_inserted, orb_false_r.
  - unfold reported. by rewrite Hm, orb_false_r.
Qed.

(** ** Histories *)

(** The calls the commit stage makes, and the work of the other stages on one
    instruction. *)
Inductive event :=
  | Insert (p : DynInstPtr)
  | Retire (tid : Z)
  | Squash (n tid : Z)
  | ContinueSquash (tid : Z)
  | UpdateVisible
  | Work (p : DynInstPtr) (j : DynInst.t).

Definition run (P : Params) (cpu : BaseCPU.t) (e : event) (s : heap * t) : res (heap * t) :=
  let '(h, r) := s in
  match e with
  | Insert p => insertInst P p h r
  | Retire tid => let* (_, h, r) := retireHead cpu tid h r in Ok (h, r)
  | Squash n tid => squash P cpu n tid h r
  | ContinueSquash tid => doSquash P cpu tid h r
  | UpdateVisible => let* (h, _) := updateVisibleState cpu h r in Ok (h, r)
  | Work p j => Ok (<[p := j]> h, r)
  end.

(** When the commit stage makes the call: it inserts and retires only in threads
    that are not squashing, instructions arrive in program order, and room is
    checked by rename. *)
Definition enabled (P : Params) (e : event) (s : heap * t) : Prop :=
  let '(h, r) := s in
  match e with
  | Insert p => exists i th, h !! p = Some i /\ thread (DynInst.threadNumber i) r = Ok th
      /\ doneSquashing th = true /\ sht_ok i /\ numInstsInROB r <> numEntries P
      /\ Forall (fun j => DynInst.seqNum j < DynInst.seqNum i) (insts h r (DynInst.threadNumber i))
  | Retire tid => exists th p l i, thread tid r = Ok th /\ instList th = p :: l /\ h !! p = Some i
      /\ DynInst.readyToCommit i = true /\ doneSquashing th = true
  | Squash n tid => is_ok (thread tid r) = true
  | ContinueSquash tid => exists th, thread tid r = Ok th /\ doneSquashing th = false
  | UpdateVisible => True
  | Work p j => exists i, h !! p = Some i /\ allowed_write i j
  end.

Lemma run_ok P cpu e h r :
  rob_ok P cpu h r -> NoDup (BaseCPU.activeThreads cpu) -> enabled P e (h, r) ->
  exists h' r', run P cpu e (h, r) = Ok (h', r') /\ rob_ok P cpu h' r'.
Proof.
  intros Hok Hnd. destruct e as [p|tid|n tid|tid| |p j]; simpl.
  - intros (i & th & Hp & Hth & Hd & Hs & Hn & Hy). destruct (rob_threads _ _ _ _ Hok _ _ Hth) as [xs Hxs].
    rewrite (insts_holds _ _ _ _ _ Hth Hxs) in Hy.
    destruct (insert_ok_step P cpu h r p i th xs) as (h' & r' & -> & Hok' & _); eauto.
  - intros (th & p & l & i & Hth & Hl & Hp & Hr & Hd).
    destruct (retire_ok_step P cpu h r tid th p l i) as (h' & r' & -> & Hok' & _); [done..|]. simpl. eauto.
  - destruct (thread tid r) as [th|] eqn:Hth; [intros _|done].
    destruct (rob_threads _ _ _ _ Hok _ _ Hth) as [xs Hxs].
    destruct (squash_ok_step P cpu h r tid th xs n Hok Hth Hxs) as (h' & r' & -> & Hok' & _). eauto.
  - intros (th & Hth & Hd).
    destruct (doSquash_ok_step P cpu h r tid th Hok Hth Hd) as (h' & r' & -> & Hok' & _). eauto.
  - intros _. destruct (updateVisibleState_exact _ _ _ _ Hok Hnd) as (h' & -> & Hok' & _). simpl. eauto.
  - intros (i & Hp & Hw). eexists _, _. split; [done|]. by eapply write_ok_step.
Qed.

Fixpoint run_all (P : Params) (cpu : BaseCPU.t) (es : list event) (s : heap * t) : res (heap * t) :=
  match es with [] => Ok s | e :: es => let* s := run P cpu e s in run_all P cpu es s end.

Fixpoint all_enabled (P : Params) (cpu : BaseCPU.t) (es : list event) (s : heap * t) : Prop :=
  match es with
  | [] => True
  | e :: es => enabled P e s /\ match run P cpu e s with Ok s => all_enabled P cpu es s | Err _ => True end
  end.

Lemma run_all_ok P cpu es h r :
  rob_ok P cpu h r -> NoDup (BaseCPU.activeThreads cpu) -> all_enabled P cpu es (h, r) ->
  exists h' r', run_all P cpu es (h, r) = Ok (h', r') /\ rob_ok P cpu h' r'.
Proof.
  revert h r. induction es as [|e es IH]; intros h r Hok Hnd He; cbn [run_all all_enabled] in *; [eauto|].
  destruct He as [He Hes]. destruct (run_ok P cpu e h r Hok Hnd He) as (h1 & r1 & Hrun & Hok1).
  rewrite Hrun in *. simpl. by apply IH.
Qed.

(** The buffer as constructed. *)
Definition empty_thread (th : Thread) : Prop :=
  instList th = [] /\ threadEntries th = 0 /\ squashIt th = End /\ doneSquashing th = true.

Lemma make_threads P ts l0 l :
  foldM (fun l tid => let* m := initial_maxEntries P (Z.of_nat tid) in
                      Ok (l ++ [mkThread None 0 m [] End 0 true])) ts l0 = Ok l ->
  Forall empty_thread l0 -> Forall empty_thread l /\ length l = (length l0 + length ts)%nat.
Proof.
  revert l0. induction ts as [|x ts IH]; intros l0 Hl H0; simpl in Hl; simplify_res.
  { split; [done|simpl; lia]. }
  apply IH in Hl as [Hf Hlen].
  - split; [done|]. rewrite Hlen, length_app. simpl. lia.
  - apply Forall_app. split; [done|]. by repeat constructor.
Qed.

Lemma make_shape P r :
  make P = Ok r -> Forall empty_thread (threads r) /\ length (threads r) = Z.to_nat (MaxThreads P)
    /\ numInstsInROB r = 0.
Proof.
  unfold make. intros Hm. apply rbind_ok in Hm as (l & Hl & Hr). apply ok_inj in Hr as <-.
  apply make_threads in Hl as [Hf Hlen]; [|constructor]. simpl in Hlen. rewrite length_seq in Hlen.
  simpl. rewrite length_map. split_and!; [|done..].
  apply Forall_map. eapply Forall_impl; [done|]. by intros th (? & ? & ? & ?).
Qed.

Lemma make_ok P cpu h r :
  make P = Ok r -> 0 <= numEntries P < 2 ^ 32 ->
  (forall tid, tid ∈ BaseCPU.activeThreads cpu -> 0 <= tid < MaxThreads P) ->
  rob_ok P cpu h r.
Proof.
  intros Hm Hb Ha. destruct (make_shape P r Hm) as (Hf & Hlen & Hn). split.
  - intros tid th [_ Hth]%thread_Ok. destruct (Forall_lookup_1 _ _ _ _ Hf Hth) as (Hi & He & Hs & Hd).
    exists []. split; [rewrite Hi; constructor|constructor|constructor|done|].
    unfold squash_ok. by rewrite Hd.
  - rewrite Hn. unfold total. clear -Hf. induction Hf as [|th ths (Hi & _) Hf IH]; [done|].
    simpl. rewrite Hi. done.
  - lia.
  - intros tid Hin%Ha. unfold thread. destruct (Z.ltb_spec tid 0); [lia|].
    destruct (lookup_lt_is_Some_2 (threads r) (Z.to_nat tid)) as [th ->]; [lia|done].
Qed.

(** * Theorems *)

(** C13. Over every history of the reorder buffer - instructions entering in program
    order, retiring, being squashed over several cycles, the visibility update, and
    the pipeline working on instructions - no assertion fails, no iterator is used
    when it does not point to an instruction, and at the end the counters count the
    instructions, threads are in program order, and a squash in progress has squashed
    all it has passed. *)
Theorem rob_history_ok P cpu es h r :
  make P = Ok r -> 0 <= numEntries P < 2 ^ 32 -> NoDup (BaseCPU.activeThreads cpu) ->
  (forall tid, tid ∈ BaseCPU.activeThreads cpu -> 0 <= tid < MaxThreads P) ->
  all_enabled P cpu es (h, r) ->
  exists h' r', run_all P cpu es (h, r) = Ok (h', r') /\ rob_ok P cpu h' r'.
Proof. intros Hm Hb Hnd Ha He. apply run_all_ok; [by apply make_ok|done|done]. Qed.

(** C14. A squash to sequence number [n] marks exactly the thread's instructions
    younger than [n] as squashed and ready to leave, touches no other instruction,
    and is over after at most one cycle per [squashWidth] instructions. *)
Theorem squash_exact P cpu h r tid th c n :
  rob_ok P cpu h r -> thread tid r = Ok th -> instList th <> [] ->
  (length (instList th) <= S c * width P cpu tid)%nat ->
  exists h' r', (let* (h, r) := squash P cpu n tid h r in squash_cycles P cpu c tid h r) = Ok (h', r')
    /\ rob_ok P cpu h' r' /\ isDoneSquashing tid r' = Ok true
    /\ insts h' r' tid = squash_after n (insts h r tid)
    /\ forall q, q ∉ instList th -> h' !! q = h !! q.
Proof.
  intros Hok Hth Hne Hc. destruct (rob_threads _ _ _ _ Hok _ _ Hth) as [xs Hxs].
  pose proof (holds_length _ _ _ (th_holds _ _ _ _ Hxs)) as Hlen.
  assert (xs <> []) as Hxne by (intros ->; by destruct (instList th)).
  assert (0 < length xs)%nat by (destruct xs; [done|simpl; lia]).
  rewrite (squash_starts n P cpu h r tid th xs Hth Hxs Hxne). set (th1 := mkThread _ _ _ _ _ _ _).
  assert (mark_range (S (pred (length xs))) (length xs) xs = xs) as Hm by (apply mark_range_empty; lia).
  destruct (squash_finishes P cpu tid xs n c (th_order _ _ _ _ Hxs) (pred (length xs)) h r th th1)
    as (h' & r' & Hrun & Hok' & Hth' & Hh' & Hf'); try done; [by rewrite Hm|lia| | |lia|].
  - rewrite drop_ge; [constructor|]. rewrite Hm. lia.
  - intros k i Hk Hi. apply lookup_lt_Some in Hi. lia.
  - exists h', r'. split_and!; [exact Hrun|done| | |done].
    + unfold isDoneSquashing. by rewrite Hth'.
    + unfold insts. rewrite Hth, Hth'. simpl.
      by rewrite (holds_omap h' (instList th) _ Hh'), (holds_omap _ _ _ (th_holds _ _ _ _ Hxs)).
Qed.

(** C6. The visibility update, with its running flags and its early exit, computes this. A
    load or store that carries the mark of having only completed predecessors keeps it;
    one that does not is marked exactly when insertion from the reorder buffer is switched
    on and every older instruction of its thread in the buffer is finished without fault,
    is on the right path and does not wait for the head. In the same way, with no switch,
    the mark of having only resolved branches in front is kept, or set exactly when no
    older branch is unfinished, faulting or squashed. Its access is reported to the safe
    history buffer, in program order and once, exactly when the conditions of the first
    mark hold at this update, its packet exists, has not been reported before, and no
    squash is running; the reports of the threads follow each other in the order of the
    active threads. Whether it is ready or squashed does not change, and the assertion in
    the loop never fails. *)
Theorem visibility_exact P cpu h r :
  rob_ok P cpu h r -> NoDup (BaseCPU.activeThreads cpu) ->
  exists h', updateVisibleState cpu h r = Ok (h', BaseCPU.activeThreads cpu ≫= reports_of cpu h r)
    /\ forall tid th k p i, tid ∈ BaseCPU.activeThreads cpu -> thread tid r = Ok th ->
         instList th !! k = Some p -> h !! p = Some i -> memref i = true ->
         let older := take k (insts h r tid) in
         exists i', h' !! p = Some i'
           /\ DynInst.isPrevInstsCompleted i'
              = forallb complete older && BaseCPU.robInsert cpu || DynInst.isPrevInstsCompleted i
           /\ DynInst.isPrevBrsResolved i' = forallb resolved older || DynInst.isPrevBrsResolved i
           /\ DynInst.SHTinserted i'
              = DynInst.SHTinserted i || reported cpu (doneSquashing th) older i
           /\ DynInst.readyToCommit i' = DynInst.readyToCommit i
           /\ DynInst.isSquashed i' = DynInst.isSquashed i.
Proof.
  intros Hok Hnd. destruct (updateVisibleState_exact _ _ _ _ Hok Hnd) as (h' & Hrun & _ & _ & Hs).
  exists h'. split; [done|]. intros tid th k p i Hin Hth Hk Hp Hm older.
  eexists. split; [by apply (Hs tid th k p i)|].
  unfold DynInst.isPrevInstsCompleted, DynInst.isPrevBrsResolved, DynInst.readyToCommit, DynInst.isSquashed.
  split_and!; try (by rewrite seen_status). apply seen_inserted.
Qed.

End RobSafety.
