(* ===== verification/Commit.v ===== *)
(** * The commit stage around the reorder buffer: cpu/o3/commit_impl.hh

    Squashes, the intake of renamed instructions and the marking of completed ones.
    The arrays indexed by thread, and the fields of [toIEW->commitInfo] written here,
    are one [CThread] per thread; program counters are not modelled. Retiring
    instructions and the cycle of the stage are in CommitStage.v. *)

From stdpp Require Import gmap.
From S2P Require Import Prelude.
From S2P Require Import BaseUtil MemCmd Request Packet DynInst Rob.

Local Open Scope Z_scope.

Module Commit.

Inductive ThreadStatus :=
  | Running | Idle | ROBSquashing | TrapPending | FetchTrapPending | SquashAfterPending.

#[global] Instance ThreadStatus_eq_dec : EqDecision ThreadStatus.
Proof. solve_decision. Defined.

(** What this stage tells the others in a cycle. *)
Record commitComm := mkComm {
  doneSeqNum : Z;
  squash : bool;
  robSquashing : bool;
  mispredictInst : option DynInstPtr;
  squashInst : option DynInstPtr;
  branchTaken : bool;
  nonSpecSeqNum : Z;
  strictlyOrdered : bool;
  strictlyOrderedLoad : option DynInstPtr;
  clearInterrupt : bool;
  interruptPending : bool;
  usedROB : bool;
  freeROBEntries : Z;
  emptyROB : bool
}.

(** The members that are arrays over the threads; [trapPending], [noSquashFromTC] and
    [funcExeInst] are in the thread's own object. *)
Record CThread := mkC {
  commitStatus : ThreadStatus;
  trapSquash : bool;
  tcSquash : bool;
  trapInFlight : bool;
  trapPending : bool;
  noSquashFromTC : bool;
  squashAfterInst : option DynInstPtr;
  youngestSeqNum : Z;
  lastCommitedSeqNum : Z;
  changedROBNumEntries : bool;
  committedStores : bool;
  checkEmptyROB : bool;
  htmStarts : Z;
  htmStops : Z;
  funcExeInst : Z;
  commitInfo : commitComm
}.

Record t := mk { insts : heap; rob : ROB.t; threads : list CThread }.

(** What the execute stage reports for a thread in a cycle. *)
Record IEWThread := mkIEW {
  iew_squash : bool;
  iew_squashedSeqNum : Z;
  iew_includeSquashInst : bool;
  iew_mispredictInst : option DynInstPtr;
  iew_branchTaken : bool
}.

Definition set_status (st : ThreadStatus) (c : CThread) : CThread :=
  mkC st (trapSquash c) (tcSquash c) (trapInFlight c) (trapPending c) (noSquashFromTC c)
    (squashAfterInst c) (youngestSeqNum c) (lastCommitedSeqNum c) (changedROBNumEntries c)
    (committedStores c) (checkEmptyROB c) (htmStarts c) (htmStops c) (funcExeInst c)
    (commitInfo c).
Definition set_info (x : commitComm) (c : CThread) : CThread :=
  mkC (commitStatus c) (trapSquash c) (tcSquash c) (trapInFlight c) (trapPending c)
    (noSquashFromTC c) (squashAfterInst c) (youngestSeqNum c) (lastCommitedSeqNum c)
    (changedROBNumEntries c) (committedStores c) (checkEmptyROB c) (htmStarts c) (htmStops c)
    (funcExeInst c) x.
Definition set_youngest (n : Z) (changed : bool) (c : CThread) : CThread :=
  mkC (commitStatus c) (trapSquash c) (tcSquash c) (trapInFlight c) (trapPending c)
    (noSquashFromTC c) (squashAfterInst c) n (lastCommitedSeqNum c) changed (committedStores c)
    (checkEmptyROB c) (htmStarts c) (htmStops c) (funcExeInst c) (commitInfo c).
Definition set_changed (b : bool) (c : CThread) : CThread :=
  mkC (commitStatus c) (trapSquash c) (tcSquash c) (trapInFlight c) (trapPending c)
    (noSquashFromTC c) (squashAfterInst c) (youngestSeqNum c) (lastCommitedSeqNum c) b
    (committedStores c) (checkEmptyROB c) (htmStarts c) (htmStops c) (funcExeInst c)
    (commitInfo c).
Definition set_squashAfterInst (x : option DynInstPtr) (c : CThread) : CThread :=
  mkC (commitStatus c) (trapSquash c) (tcSquash c) (trapInFlight c) (trapPending c)
    (noSquashFromTC c) x (youngestSeqNum c) (lastCommitedSeqNum c) (changedROBNumEntries c)
    (committedStores c) (checkEmptyROB c) (htmStarts c) (htmStops c) (funcExeInst c)
    (commitInfo c).
Definition set_traps (trap_squash tc_squash in_flight pending no_tc : bool) (c : CThread) : CThread :=
  mkC (commitStatus c) trap_squash tc_squash in_flight pending no_tc (squashAfterInst c)
    (youngestSeqNum c) (lastCommitedSeqNum c) (changedROBNumEntries c) (committedStores c)
    (checkEmptyROB c) (htmStarts c) (htmStops c) (funcExeInst c) (commitInfo c).
Definition set_noSquashFromTC (b : bool) (c : CThread) : CThread :=
  mkC (commitStatus c) (trapSquash c) (tcSquash c) (trapInFlight c) (trapPending c) b
    (squashAfterInst c) (youngestSeqNum c) (lastCommitedSeqNum c) (changedROBNumEntries c)
    (committedStores c) (checkEmptyROB c) (htmStarts c) (htmStops c) (funcExeInst c)
    (commitInfo c).
Definition set_committedStores (b : bool) (c : CThread) : CThread :=
  mkC (commitStatus c) (trapSquash c) (tcSquash c) (trapInFlight c) (trapPending c)
    (noSquashFromTC c) (squashAfterInst c) (youngestSeqNum c) (lastCommitedSeqNum c)
    (changedROBNumEntries c) b (checkEmptyROB c) (htmStarts c) (htmStops c) (funcExeInst c)
    (commitInfo c).
Definition set_checkEmptyROB (b : bool) (c : CThread) : CThread :=
  mkC (commitStatus c) (trapSquash c) (tcSquash c) (trapInFlight c) (trapPending c)
    (noSquashFromTC c) (squashAfterInst c) (youngestSeqNum c) (lastCommitedSeqNum c)
    (changedROBNumEntries c) (committedStores c) b (htmStarts c) (htmStops c) (funcExeInst c)
    (commitInfo c).
Definition set_htm (starts stops : Z) (c : CThread) : CThread :=
  mkC (commitStatus c) (trapSquash c) (tcSquash c) (trapInFlight c) (trapPending c)
    (noSquashFromTC c) (squashAfterInst c) (youngestSeqNum c) (lastCommitedSeqNum c)
    (changedROBNumEntries c) (committedStores c) (checkEmptyROB c) starts stops (funcExeInst c)
    (commitInfo c).
Definition set_funcExeInst (n : Z) (c : CThread) : CThread :=
  mkC (commitStatus c) (trapSquash c) (tcSquash c) (trapInFlight c) (trapPending c)
    (noSquashFromTC c) (squashAfterInst c) (youngestSeqNum c) (lastCommitedSeqNum c)
    (changedROBNumEntries c) (committedStores c) (checkEmptyROB c) (htmStarts c) (htmStops c) n
    (commitInfo c).
Definition set_lastCommited (n : Z) (c : CThread) : CThread :=
  mkC (commitStatus c) (trapSquash c) (tcSquash c) (trapInFlight c) (trapPending c)
    (noSquashFromTC c) (squashAfterInst c) (youngestSeqNum c) n (changedROBNumEntries c)
    (committedStores c) (checkEmptyROB c) (htmStarts c) (htmStops c) (funcExeInst c)
    (commitInfo c).
Definition set_squashed (n : Z) (mispredicted by_inst : option DynInstPtr) (taken : bool) (x : commitComm) : commitComm :=
  mkComm n true true mispredicted by_inst taken (nonSpecSeqNum x) (strictlyOrdered x)
    (strictlyOrderedLoad x) (clearInterrupt x) (interruptPending x) (usedROB x)
    (freeROBEntries x) (emptyROB x).
Definition set_robSquashing (x : commitComm) : commitComm :=
  mkComm (doneSeqNum x) (squash x) true (mispredictInst x) (squashInst x) (branchTaken x)
    (nonSpecSeqNum x) (strictlyOrdered x) (strictlyOrderedLoad x) (clearInterrupt x)
    (interruptPending x) (usedROB x) (freeROBEntries x) (emptyROB x).
Definition set_squashInst (p : option DynInstPtr) (x : commitComm) : commitComm :=
  mkComm (doneSeqNum x) (squash x) (robSquashing x) (mispredictInst x) p (branchTaken x)
    (nonSpecSeqNum x) (strictlyOrdered x) (strictlyOrderedLoad x) (clearInterrupt x)
    (interruptPending x) (usedROB x) (freeROBEntries x) (emptyROB x).
Definition set_done (n : Z) (x : commitComm) : commitComm :=
  mkComm n (squash x) (robSquashing x) (mispredictInst x) (squashInst x) (branchTaken x)
    (nonSpecSeqNum x) (strictlyOrdered x) (strictlyOrderedLoad x) (clearInterrupt x)
    (interruptPending x) (usedROB x) (freeROBEntries x) (emptyROB x).
Definition set_nonSpec (n : Z) (x : commitComm) : commitComm :=
  mkComm (doneSeqNum x) (squash x) (robSquashing x) (mispredictInst x) (squashInst x)
    (branchTaken x) n (strictlyOrdered x) (strictlyOrderedLoad x) (clearInterrupt x)
    (interruptPending x) (usedROB x) (freeROBEntries x) (emptyROB x).
Definition set_strictlyOrdered (p : DynInstPtr) (x : commitComm) : commitComm :=
  mkComm (doneSeqNum x) (squash x) (robSquashing x) (mispredictInst x) (squashInst x)
    (branchTaken x) (nonSpecSeqNum x) true (Some p) (clearInterrupt x) (interruptPending x)
    (usedROB x) (freeROBEntries x) (emptyROB x).
Definition set_clearInterrupt (x : commitComm) : commitComm :=
  mkComm (doneSeqNum x) (squash x) (robSquashing x) (mispredictInst x) (squashInst x)
    (branchTaken x) (nonSpecSeqNum x) (strictlyOrdered x) (strictlyOrderedLoad x) true
    (interruptPending x) (usedROB x) (freeROBEntries x) (emptyROB x).
Definition set_interruptPending (x : commitComm) : commitComm :=
  mkComm (doneSeqNum x) (squash x) (robSquashing x) (mispredictInst x) (squashInst x)
    (branchTaken x) (nonSpecSeqNum x) (strictlyOrdered x) (strictlyOrderedLoad x)
    (clearInterrupt x) true (usedROB x) (freeROBEntries x) (emptyROB x).
Definition set_freeROB (n : Z) (x : commitComm) : commitComm :=
  mkComm (doneSeqNum x) (squash x) (robSquashing x) (mispredictInst x) (squashInst x)
    (branchTaken x) (nonSpecSeqNum x) (strictlyOrdered x) (strictlyOrderedLoad x)
    (clearInterrupt x) (interruptPending x) true n (emptyROB x).
Definition set_emptyROB (x : commitComm) : commitComm :=
  mkComm (doneSeqNum x) (squash x) (robSquashing x) (mispredictInst x) (squashInst x)
    (branchTaken x) (nonSpecSeqNum x) (strictlyOrdered x) (strictlyOrderedLoad x)
    (clearInterrupt x) (interruptPending x) (usedROB x) (freeROBEntries x) true.

Definition thread (tid : Z) (s : t) : res CThread :=
  if tid <? 0 then Err Undefined
  else match threads s !! Z.to_nat tid with Some c => Ok c | None => Err Undefined end.
Definition put (tid : Z) (c : CThread) (s : t) : t :=
  mk (insts s) (rob s) (<[Z.to_nat tid := c]> (threads s)).
Definition with_rob (h : heap) (r : ROB.t) (s : t) : t := mk h r (threads s).

(** One older sequence number, to squash an instruction too ([uint64_t]). *)
Definition subtract_one (n : Z) : Z := u64 (n - 1).

Section commit.
Variables (P : ROB.Params) (cpu : BaseCPU.t).

Definition squashAll (tid : Z) (s : t) : res t :=
  let* c := thread tid s in
  let* empty := ROB.isEmpty_tid tid (rob s) in
  let* squashed_inst :=
    if (empty : bool) then Ok (lastCommitedSeqNum c)
    else let* hd := ROB.readHeadInst tid (insts s) (rob s) in
         match hd with
         | None => Err Undefined
         | Some p => let* i := deref (insts s) p in Ok (subtract_one (DynInst.seqNum i))
         end in
  let* (h, r) := ROB.squash P cpu squashed_inst tid (insts s) (rob s) in
  let c := set_youngest (lastCommitedSeqNum c) true c in
  let c := set_info (set_squashed squashed_inst None None (branchTaken (commitInfo c)) (commitInfo c)) c in
  Ok (put tid c (with_rob h r s)).

Definition squashFromTrap (tid : Z) (s : t) : res t :=
  let* s := squashAll tid s in
  let* c := thread tid s in
  Ok (put tid (set_status ROBSquashing (set_traps false (tcSquash c) false false false c)) s).

Definition squashFromTC (tid : Z) (s : t) : res t :=
  let* s := squashAll tid s in
  let* c := thread tid s in
  assert! negb (trapPending c) in
  Ok (put tid (set_status ROBSquashing
                 (set_traps (trapSquash c) false (trapInFlight c) (trapPending c) false c)) s).

Definition squashFromSquashAfter (tid : Z) (s : t) : res t :=
  let* s := squashAll tid s in
  let* c := thread tid s in
  let info := set_squashInst (squashAfterInst c) (commitInfo c) in
  Ok (put tid (set_status ROBSquashing (set_squashAfterInst None (set_info info c))) s).

(** A squash asked for by the execute stage: a mispredicted branch or a memory order
    violation. *)
Definition squashFromIEW (tid : Z) (f : IEWThread) (s : t) : res t :=
  let* c := thread tid s in
  let squashed_inst := if iew_includeSquashInst f then subtract_one (iew_squashedSeqNum f)
                       else iew_squashedSeqNum f in
  let* (h, r) := ROB.squash P cpu squashed_inst tid (insts s) (rob s) in
  let* found := ROB.findInst tid squashed_inst h r in
  let* taken := match iew_mispredictInst f with
                | Some p => let* i := deref h p in
                            Ok (if DynInst.isUncondCtrl i then true else iew_branchTaken f)
                | None => Ok (iew_branchTaken f)
                end in
  let info := set_squashed squashed_inst (iew_mispredictInst f) found taken (commitInfo c) in
  Ok (put tid (set_info info (set_youngest squashed_inst true (set_status ROBSquashing c)))
        (with_rob h r s)).

(** The loop of [commit] over the threads, counting those that squash. *)
Definition squash_thread (iew : Z -> IEWThread) (x : Z * t) (tid : Z) : res (Z * t) :=
  let '(num_squashing, s) := x in
  let* c := thread tid s in
  let* s :=
    if trapSquash c then assert! negb (tcSquash c) in squashFromTrap tid s
    else if tcSquash c then
      assert! negb (bool_decide (commitStatus c = TrapPending)) in squashFromTC tid s
    else if bool_decide (commitStatus c = SquashAfterPending) then squashFromSquashAfter tid s
    else Ok s in
  let* c := thread tid s in
  let f := iew tid in
  let* s := if iew_squash f && negb (bool_decide (commitStatus c = TrapPending))
               && (iew_squashedSeqNum f <=? youngestSeqNum c)
            then squashFromIEW tid f s else Ok s in
  let* c := thread tid s in
  Ok (if bool_decide (commitStatus c = ROBSquashing) then num_squashing + 1 else num_squashing, s).

Definition handle_squashes (iew : Z -> IEWThread) (s : t) : res (Z * t) :=
  foldM (squash_thread iew) (BaseCPU.activeThreads cpu) (0, s).

(** The first loop of [tick]: squashes of earlier cycles end or go on. *)
Definition continue_squash (s : t) (tid : Z) : res t :=
  let* c := thread tid s in
  let c := set_committedStores false c in
  let s := put tid c s in
  if bool_decide (commitStatus c = ROBSquashing) then
    let* done := ROB.isDoneSquashing tid (rob s) in
    if (done : bool) then Ok (put tid (set_status Running c) s)
    else
      let* (h, r) := ROB.doSquash P cpu tid (insts s) (rob s) in
      Ok (put tid (set_info (set_robSquashing (commitInfo c)) c) (with_rob h r s))
  else Ok s.

Definition tick_start (s : t) : res t :=
  foldM continue_squash (BaseCPU.activeThreads cpu) s.

(** Instructions from rename enter the buffer. *)
Definition getInst (s : t) (p : DynInstPtr) : res t :=
  let* i := deref (insts s) p in
  let tid := DynInst.threadNumber i in
  let* c := thread tid s in
  if negb (DynInst.isSquashed i) && negb (bool_decide (commitStatus c = ROBSquashing))
     && negb (bool_decide (commitStatus c = TrapPending))
  then
    let* (h, r) := ROB.insertInst P p (insts s) (rob s) in
    let* entries := ROB.getThreadEntries tid r in
    let* max := ROB.getMaxEntries tid r in
    assert! (entries <=? max) in
    Ok (put tid (set_youngest (DynInst.seqNum i) true c) (with_rob h r s))
  else Ok s.

Definition getInsts (renameWidth : nat) (fromRename : list DynInstPtr) (s : t) : res t :=
  foldM getInst (take renameWidth fromRename) s.

(** Completed instructions may commit; then the visibility update. *)
Definition mark_completed (h : heap) (p : DynInstPtr) : res heap :=
  let* i := deref h p in
  Ok (if DynInst.isSquashed i then h else <[p := DynInst.setCanCommit i]> h).

Definition markCompletedInsts (fromIEW : list DynInstPtr) (s : t) : res (t * list Packet.t) :=
  let* h := foldM mark_completed fromIEW (insts s) in
  let* (h, sent) := ROB.updateVisibleState cpu h (rob s) in
  Ok (with_rob h (rob s) s, sent).

End commit.
End Commit.
