(* ===== verification/CommitStage.v ===== *)
(** * Retiring instructions: the cycle of cpu/o3/commit_impl.hh

    The whole of the commit stage around the squashes of Commit.v: traps, interrupts,
    thread-context squashes, the choice of a thread, the head of the buffer, the loop
    over the commit width and [tick].

    What the stage asks of other parts in a cycle is an [Env]: whether the load/store
    queue still has stores to write back, whether any instruction is in flight, where
    program counters and their events lead, and which faults are transaction failures.
    The interrupt controller is the class [BaseInterrupts]. What the stage asks others
    to do, and which instructions leave the buffer, is the list [trace]. Invoking a
    fault changes registers and program counters only: the stage sets [noSquashFromTC]
    around it, so that it asks for no squash. Program counters, commit rename maps,
    statistics, the checker and the activity recorder are not modelled. *)

From stdpp Require Import gmap.
From S2P Require Import Prelude.
From S2P Require Import BaseUtil MemCmd Request Packet DynInst Rob Commit.

Local Open Scope Z_scope.

(** ** The interrupt controller: arch/generic/interrupts.hh *)

(** "This should return an interrupt exactly when checkInterrupts returns true." *)
Class BaseInterrupts (I : Type) := {
  checkInterrupts : I -> bool;
  getInterrupt : I -> option Z;
  updateIntrInfo : I -> I;
  clearAll : I -> I;
  getInterrupt_exactly : forall i, is_Some (getInterrupt i) <-> checkInterrupts i = true
}.

Module CommitStage.
Import Commit.

Inductive CommitPolicy := Aggressive | RoundRobin | OldestReady.
Inductive CommitStatus := Active | Inactive.

#[global] Instance CommitStatus_eq_dec : EqDecision CommitStatus.
Proof. solve_decision. Defined.

Record Params := mkParams { commitWidth : Z; renameWidth : nat; commitPolicy : CommitPolicy }.

Record Env := mkEnv {
  FullSystem : bool;
  hasStoresToWB : Z -> bool;
  instList_empty : bool;
  microPC_0 : DynInstPtr -> bool;
  pc_event_skips : DynInstPtr -> bool;
  is_htm_failure : Z -> bool;
  htm_failure : Z -> Z
}.

Inductive Action :=
  | Retire (tid : Z) (p : DynInstPtr)
  | Drop (tid : Z) (p : DynInstPtr)
  | Trap (f : Z) (tid : Z) (by_inst : option DynInstPtr)
  | ScheduleTrap (tid : Z)
  | ScheduleThreadExit (tid : Z)
  | CommitDrained (tid : Z)
  | LastRetiredHtmUid (tid uid : Z)
  | ActivateStage
  | DeactivateStage.

Record t (I : Type) := mk {
  core : Commit.t;
  intr : I;
  interrupt : option Z;
  canHandleInterrupts : bool;
  avoidQuiesceLiveLock : bool;
  drainPending : bool;
  drainImminent : bool;
  priority_list : list Z;
  status : CommitStatus;
  nextStatus : CommitStatus;
  trace : list Action
}.
Arguments mk {I}.
Arguments core {I}.
Arguments intr {I}.
Arguments interrupt {I}.
Arguments canHandleInterrupts {I}.
Arguments avoidQuiesceLiveLock {I}.
Arguments drainPending {I}.
Arguments drainImminent {I}.
Arguments priority_list {I}.
Arguments status {I}.
Arguments nextStatus {I}.
Arguments trace {I}.

Definition InvalidThreadID : Z := -1.

Section stage.
Context {I : Type} `{!BaseInterrupts I}.
Variables (P : ROB.Params) (C : Params) (cpu : BaseCPU.t) (w : Env).

Definition with_core (x : Commit.t) (s : t I) : t I :=
  mk x (intr s) (interrupt s) (canHandleInterrupts s) (avoidQuiesceLiveLock s) (drainPending s)
    (drainImminent s) (priority_list s) (status s) (nextStatus s) (trace s).
Definition set_interrupts (i : I) (f : option Z) (avoid : bool) (s : t I) : t I :=
  mk (core s) i f (canHandleInterrupts s) avoid (drainPending s)
    (drainImminent s) (priority_list s) (status s) (nextStatus s) (trace s).
Definition set_canHandle (b : bool) (s : t I) : t I :=
  mk (core s) (intr s) (interrupt s) b (avoidQuiesceLiveLock s) (drainPending s)
    (drainImminent s) (priority_list s) (status s) (nextStatus s) (trace s).
Definition set_drain (pending imminent : bool) (s : t I) : t I :=
  mk (core s) (intr s) (interrupt s) (canHandleInterrupts s) (avoidQuiesceLiveLock s) pending
    imminent (priority_list s) (status s) (nextStatus s) (trace s).
Definition set_priority (l : list Z) (s : t I) : t I :=
  mk (core s) (intr s) (interrupt s) (canHandleInterrupts s) (avoidQuiesceLiveLock s) (drainPending s)
    (drainImminent s) l (status s) (nextStatus s) (trace s).
Definition set_stage (now next : CommitStatus) (s : t I) : t I :=
  mk (core s) (intr s) (interrupt s) (canHandleInterrupts s) (avoidQuiesceLiveLock s) (drainPending s)
    (drainImminent s) (priority_list s) now next (trace s).
Definition log (a : Action) (s : t I) : t I :=
  mk (core s) (intr s) (interrupt s) (canHandleInterrupts s) (avoidQuiesceLiveLock s) (drainPending s)
    (drainImminent s) (priority_list s) (status s) (nextStatus s) (trace s ++ [a]).

Definition thread (tid : Z) (s : t I) : res CThread := Commit.thread tid (core s).
Definition put (tid : Z) (c : CThread) (s : t I) : t I := with_core (Commit.put tid c (core s)) s.
Definition update (tid : Z) (f : CThread -> CThread) (s : t I) : res (t I) :=
  let* c := thread tid s in Ok (put tid (f c) s).
Definition tell (tid : Z) (f : commitComm -> commitComm) (s : t I) : res (t I) :=
  update tid (fun c => set_info (f (commitInfo c)) c) s.
Definition heap_of (s : t I) : heap := insts (core s).
Definition rob_of (s : t I) : ROB.t := rob (core s).
Definition with_rob (h : heap) (r : ROB.t) (s : t I) : t I := with_core (Commit.with_rob h r (core s)) s.
Definition write_inst (p : DynInstPtr) (i : DynInst.t) (s : t I) : t I :=
  with_rob (<[p := i]> (heap_of s)) (rob_of s) s.

(** ** Events and requests from outside *)

Definition set_trapSquash (b : bool) (c : CThread) : CThread :=
  set_traps b (tcSquash c) (trapInFlight c) (trapPending c) (noSquashFromTC c) c.
Definition set_tcSquash (b : bool) (c : CThread) : CThread :=
  set_traps (trapSquash c) b (trapInFlight c) (trapPending c) (noSquashFromTC c) c.
Definition set_trapPending (b : bool) (c : CThread) : CThread :=
  set_traps (trapSquash c) (tcSquash c) b b (noSquashFromTC c) c.

Definition processTrapEvent (tid : Z) (s : t I) : res (t I) := update tid (set_trapSquash true) s.

Definition generateTrapEvent (tid : Z) (s : t I) : res (t I) :=
  update tid (set_trapPending true) (log (ScheduleTrap tid) s).

Definition generateTCEvent (tid : Z) (s : t I) : res (t I) :=
  let* c := thread tid s in
  assert! negb (trapInFlight c) in
  Ok (put tid (set_tcSquash true c) s).

(** [FullO3CPU::squashFromTC], and the thread context's way to it. *)
Definition cpu_squashFromTC (tid : Z) (s : t I) : res (t I) :=
  let* s := update tid (set_noSquashFromTC true) s in
  generateTCEvent tid s.

Definition conditionalSquash (tid : Z) (s : t I) : res (t I) :=
  let* c := thread tid s in
  if negb (trapPending c) && negb (noSquashFromTC c) then cpu_squashFromTC tid s else Ok s.

Definition squashAfter (tid : Z) (head_inst : DynInstPtr) (s : t I) : res (t I) :=
  let* c := thread tid s in
  assert! match squashAfterInst c with None => true | Some p => p =? head_inst end in
  Ok (put tid (set_squashAfterInst (Some head_inst) (set_status SquashAfterPending c)) s).

Definition executingHtmTransaction (tid : Z) (s : t I) : res bool :=
  if tid =? InvalidThreadID then Ok false
  else let* c := thread tid s in Ok (htmStops c <? htmStarts c).

Definition resetHtmStartsStops (tid : Z) (s : t I) : res (t I) :=
  if tid =? InvalidThreadID then Ok s else update tid (set_htm 0 0) s.

Definition drain (s : t I) : t I := set_drain true (drainImminent s) s.
Definition drainResume (s : t I) : t I := set_drain false false s.

Definition deactivateThread (tid : Z) (s : t I) : t I :=
  match list_find (tid =.) (priority_list s) with
  | Some (k, _) => set_priority (delete k (priority_list s)) s
  | None => s
  end.

Definition clear_thread (c : CThread) : CThread :=
  mkC Idle false false false (trapPending c) (noSquashFromTC c) None (youngestSeqNum c) 0 false
    false false (htmStarts c) (htmStops c) (funcExeInst c) (commitInfo c).
Definition clearStates (tid : Z) (s : t I) : res (t I) := update tid clear_thread s.

(** ** Interrupts *)

Definition cpu_checkInterrupts (s : t I) : bool := FullSystem w && checkInterrupts (intr s).

(** The fault of the interrupt is invoked on thread 0. *)
Definition processInterrupts (f : option Z) (s : t I) : res (t I) :=
  match f with
  | None => Err AssertFail
  | Some f => Ok (log (Trap f 0 None)
                    (set_interrupts (updateIntrInfo (intr s)) (interrupt s) (avoidQuiesceLiveLock s) s))
  end.

Definition handleInterrupt (s : t I) : res (t I) :=
  if negb (cpu_checkInterrupts s) then
    let* s := tell 0 set_clearInterrupt s in
    Ok (set_interrupts (intr s) None true s)
  else if canHandleInterrupts s && instList_empty w then
    let* s := tell 0 set_clearInterrupt s in
    let* c := thread 0 s in
    assert! negb (noSquashFromTC c) in
    let s := put 0 (set_noSquashFromTC true c) s in
    let* s := processInterrupts (getInterrupt (intr s)) s in
    let* s := update 0 (fun c => set_status TrapPending (set_noSquashFromTC false c)) s in
    let* s := generateTrapEvent 0 s in
    Ok (set_interrupts (intr s) None false s)
  else Ok s.

Definition propagateInterrupt (s : t I) : res (t I) :=
  let* c := thread 0 s in
  if bool_decide (commitStatus c = TrapPending) || bool_decide (interrupt s <> None) || trapSquash c
     || tcSquash c || drainImminent s
  then Ok s
  else
    let f := getInterrupt (intr s) in
    let s := set_interrupts (intr s) f (avoidQuiesceLiveLock s) s in
    match f with Some _ => tell 0 set_interruptPending s | None => Ok s end.

(** ** Which thread commits *)

Definition may_commit (c : CThread) : bool :=
  match commitStatus c with Running | Idle | FetchTrapPending => true | _ => false end.

Fixpoint roundRobin_loop (seen l : list Z) (s : t I) : res (option (Z * list Z)) :=
  match l with
  | [] => Ok None
  | tid :: l =>
      let* c := thread tid s in
      let* ready := if may_commit c then ROB.isHeadReady tid (heap_of s) (rob_of s) else Ok false in
      if (ready : bool) then Ok (Some (tid, seen ++ l ++ [tid]))
      else roundRobin_loop (seen ++ [tid]) l s
  end.

Definition roundRobin (s : t I) : res (Z * t I) :=
  let* found := roundRobin_loop [] (priority_list s) s in
  match found with
  | Some (tid, l) => Ok (tid, set_priority l s)
  | None => Ok (InvalidThreadID, s)
  end.

(** [oldest] is a thread, and what is compared with it is a sequence number. *)
Definition oldestReady_step (s : t I) (x : Z * bool) (tid : Z) : res (Z * bool) :=
  let '(oldest, first) := x in
  let* empty := ROB.isEmpty_tid tid (rob_of s) in
  let* c := thread tid s in
  if negb empty && may_commit c then
    let* ready := ROB.isHeadReady tid (heap_of s) (rob_of s) in
    if (ready : bool) then
      let* hd := ROB.readHeadInst tid (heap_of s) (rob_of s) in
      match hd with
      | None => Err Undefined
      | Some p =>
          let* i := deref (heap_of s) p in
          if first then Ok (tid, false)
          else if DynInst.seqNum i <? oldest then Ok (tid, first) else Ok x
      end
    else Ok x
  else Ok x.

Definition oldestReady (s : t I) : res Z :=
  let* (oldest, first) := foldM (oldestReady_step s) (BaseCPU.activeThreads cpu) (0, true) in
  Ok (if (first : bool) then InvalidThreadID else oldest).

Definition getCommittingThread (s : t I) : res (Z * t I) :=
  if 1 <? ROB.numThreads P then
    match commitPolicy C with
    | Aggressive | OldestReady => let* tid := oldestReady s in Ok (tid, s)
    | RoundRobin => roundRobin s
    end
  else
    match BaseCPU.activeThreads cpu with
    | [] => Err AssertFail
    | tid :: _ => let* c := thread tid s in
                  Ok (if may_commit c then tid else InvalidThreadID, s)
    end.

(** ** The head of the buffer *)

(** What may reach the head without having been executed. *)
Definition waits_for_commit (i : DynInst.t) : bool :=
  DynInst.isNonSpeculative i || DynInst.isStoreConditional i || DynInst.isReadBarrier i
  || DynInst.isWriteBarrier i || DynInst.isAtomic i
  || (DynInst.isLoad i && DynInst.strictlyOrdered i).

(** An instruction that is not executed yet: the other stages are told to. *)
Definition signal_head (p : DynInstPtr) (i : DynInst.t) (inst_num : Z) (s : t I) : res (t I) :=
  let tid := DynInst.threadNumber i in
  let* s := update tid (fun c => set_funcExeInst (funcExeInst c - 1) c) s in
  assert! waits_for_commit i in
  if (0 <? inst_num) || hasStoresToWB w tid then Ok s
  else
    let* s := tell tid (set_nonSpec (DynInst.seqNum i)) s in
    let s := write_inst p (DynInst.clearCanCommit i) s in
    if DynInst.isLoad i && DynInst.strictlyOrdered i then tell tid (set_strictlyOrdered p) s
    else Ok s.

(** The fault the trap is taken for. *)
Definition commit_fault (i : DynInst.t) : res (option Z) :=
  match DynInst.fault i with
  | Some f => if DynInst.inHtmTransactionalState i && negb (is_htm_failure w f)
              then let* uid := DynInst.getHtmTransactionUid i in Ok (Some (htm_failure w uid))
              else Ok (Some f)
  | None => Ok None
  end.

Definition trap_head (f : Z) (p : DynInstPtr) (i : DynInst.t) (inst_num : Z) (s : t I) : res (t I) :=
  let tid := DynInst.threadNumber i in
  if hasStoresToWB w tid || (0 <? inst_num) then Ok s
  else
    let s := write_inst p (DynInst.setCompleted i) s in
    let* c := thread tid s in
    assert! negb (noSquashFromTC c) in
    let s := log (Trap f tid (Some p)) (put tid (set_noSquashFromTC true c) s) in
    let* s := update tid (fun c => set_status TrapPending (set_noSquashFromTC false c)) s in
    generateTrapEvent tid s.

Definition retire_head (p : DynInstPtr) (i : DynInst.t) (s : t I) : res (t I) :=
  let tid := DynInst.threadNumber i in
  let* s := if DynInst.isHtmStart i
            then let* uid := DynInst.getHtmTransactionUid i in Ok (log (LastRetiredHtmUid tid uid) s)
            else Ok s in
  let* (_, h, r) := ROB.retireHead cpu tid (heap_of s) (rob_of s) in
  let s := with_rob h r s in
  if DynInst.isStore i || DynInst.isAtomic i then update tid (set_committedStores true) s else Ok s.

Definition commitHead (p : DynInstPtr) (inst_num : Z) (s : t I) : res (t I * bool) :=
  let* i := deref (heap_of s) p in
  if negb (DynInst.isExecuted i) then
    let* s := signal_head p i inst_num s in Ok (s, false)
  else
    let* inst_fault := commit_fault i in
    match inst_fault with
    | Some f => let* s := trap_head f p i inst_num s in Ok (s, false)
    | None =>
        let i := if DynInst.isStore i then i else DynInst.setCompleted i in
        let* s := retire_head p i (write_inst p i s) in Ok (s, true)
    end.

(** ** After a successful commit *)

Definition check_htm (i : DynInst.t) (s : t I) : res (t I) :=
  let tid := DynInst.threadNumber i in
  let* s := if DynInst.isHtmStart i
            then update tid (fun c => set_htm (htmStarts c + 1) (htmStops c) c) s else Ok s in
  let* inside := executingHtmTransaction tid s in
  assert! eqb (DynInst.inHtmTransactionalState i) inside in
  if DynInst.isHtmStop i
  then update tid (fun c => set_htm (htmStarts c) (htmStops c + 1) c) s else Ok s.

Definition drain_after (p : DynInstPtr) (tid : Z) (s : t I) : res (t I) :=
  if drainPending s then
    let* c := thread tid s in
    if microPC_0 w p && bool_decide (interrupt s = None) && negb (trapPending c) then
      let* s := squashAfter tid p s in
      let s := log (CommitDrained tid) s in
      Ok (set_drain (drainPending s) true s)
    else Ok s
  else Ok s.

Definition onInstBoundary (i : DynInst.t) : bool :=
  negb (DynInst.isMicroop i) || DynInst.isLastMicroop i || negb (DynInst.isDelayedCommit i).

(** Events at the new program counter. One that moves it writes it through the thread
    context, and the loop runs the events there too; then commit stops ([true]). *)
Definition pc_events (p : DynInstPtr) (i : DynInst.t) (s : t I) : res (t I * bool) :=
  let tid := DynInst.threadNumber i in
  if onInstBoundary i then
    let* c := thread tid s in
    assert! negb (noSquashFromTC c) && negb (trapPending c) in
    if pc_event_skips w p then let* s := conditionalSquash tid s in Ok (s, true) else Ok (s, false)
  else Ok (s, false).

Definition after_commit (p : DynInstPtr) (s : t I) : res (t I * bool) :=
  let* i := deref (heap_of s) p in
  let tid := DynInst.threadNumber i in
  let s := log (Retire tid p) s in
  let* s := check_htm i s in
  let* s := update tid (set_changed true) s in
  let* s := tell tid (set_done (DynInst.seqNum i)) s in
  let s := if tid =? 0 then set_canHandle (negb (DynInst.isDelayedCommit i)) s else s in
  assert! negb (DynInst.isStoreConditional i) || DynInst.isCompleted i
          || negb (DynInst.readPredicate i) in
  let* s := update tid (set_lastCommited (DynInst.seqNum i)) s in
  let* s := if DynInst.isSquashAfter i then squashAfter tid p s else Ok s in
  let* s := drain_after p tid s in
  let* (s, stop) := pc_events p i s in
  if (stop : bool) then Ok (s, true)
  else if bool_decide (interrupt s = None) && avoidQuiesceLiveLock s && onInstBoundary i
          && cpu_checkInterrupts s
  then let* s := squashAfter tid p s in Ok (s, false)
  else Ok (s, false).

(** ** The loop *)

Definition take_interrupt (commit_thread : Z) (s : t I) : res (t I) :=
  match interrupt s with
  | None => Ok s
  | Some _ =>
      let* inside := executingHtmTransaction commit_thread s in
      if (inside : bool) then
        let* s := tell 0 set_clearInterrupt s in
        Ok (set_interrupts (clearAll (intr s)) None true s)
      else handleInterrupt s
  end.

(** A squashed instruction leaves the buffer at any time. *)
Definition drop_head (p : DynInstPtr) (tid : Z) (s : t I) : res (t I) :=
  let* (_, h, r) := ROB.retireHead cpu tid (heap_of s) (rob_of s) in
  update tid (set_changed true) (log (Drop tid p) (with_rob h r s)).

(** One turn: the new state, the instructions committed, and whether to go on. *)
Definition commit_turn (num_committed : Z) (s : t I) : res (t I * Z * bool) :=
  let* (commit_thread, s) := getCommittingThread s in
  let* s := take_interrupt commit_thread s in
  if commit_thread =? InvalidThreadID then Ok (s, num_committed, false)
  else
    let* ready := ROB.isHeadReady commit_thread (heap_of s) (rob_of s) in
    if negb ready then Ok (s, num_committed, false)
    else
      let* hd := ROB.readHeadInst commit_thread (heap_of s) (rob_of s) in
      match hd with
      | None => Err Undefined
      | Some p =>
          let* i := deref (heap_of s) p in
          let tid := DynInst.threadNumber i in
          assert! (tid =? commit_thread) in
          if DynInst.isSquashed i then
            let* s := drop_head p tid s in Ok (s, num_committed, true)
          else
            let* s := update tid (fun c => set_funcExeInst (funcExeInst c + 1) c) s in
            let* (s, commit_success) := commitHead p num_committed s in
            if (commit_success : bool) then
              let* (s, stop) := after_commit p s in Ok (s, num_committed + 1, negb stop)
            else Ok (s, num_committed, false)
      end.

(** Every turn but the last takes an instruction out of the buffer. *)
Fixpoint commit_loop (fuel : nat) (num_committed : Z) (s : t I) : res (t I * Z) :=
  match fuel with
  | O => Err Undefined
  | S fuel =>
      if num_committed <? commitWidth C then
        let* (s, num_committed, more) := commit_turn num_committed s in
        if (more : bool) then commit_loop fuel num_committed s else Ok (s, num_committed)
      else Ok (s, num_committed)
  end.

Definition commitInsts (s : t I) : res (t I * Z) :=
  commit_loop (S (Z.to_nat (ROB.numInstsInROB (rob_of s)))) 0 s.

(** ** The cycle *)

Definition squash_step (iew : Z -> IEWThread) (x : Z * t I) (tid : Z) : res (Z * t I) :=
  let '(num_squashing, s) := x in
  let* c := thread tid s in
  let* (num_squashing, k) := squash_thread P cpu iew (num_squashing, core s) tid in
  let s := with_core k s in
  Ok (num_squashing,
      if trapSquash c && BaseCPU.isThreadExiting tid cpu then log (ScheduleThreadExit tid) s else s).

(** The activity of the cycle, told to rename. *)
Definition report_step (s : t I) (tid : Z) : res (t I) :=
  let* c := thread tid s in
  let* empty := ROB.isEmpty_tid tid (rob_of s) in
  let* free := ROB.numFreeEntries_tid tid (rob_of s) in
  let c := if changedROBNumEntries c then
             let c := set_changed false (set_info (set_freeROB free (commitInfo c)) c) in
             if (empty : bool) then set_checkEmptyROB true c else c
           else c in
  let c := if checkEmptyROB c && empty && negb (hasStoresToWB w tid) && negb (committedStores c) then
             set_checkEmptyROB false (set_info (set_freeROB free (set_emptyROB (commitInfo c))) c)
           else c in
  Ok (put tid c s).

Definition squashes (iew : Z -> IEWThread) (s : t I) : res (Z * t I) :=
  let* s := if FullSystem w && cpu_checkInterrupts s then propagateInterrupt s else Ok s in
  let* (num_squashing, s) := foldM (squash_step iew) (BaseCPU.activeThreads cpu) (0, s) in
  Ok (num_squashing, if num_squashing =? 0 then s else set_stage (status s) Active s).

Definition commit (iew : Z -> IEWThread) (fromRename : list DynInstPtr) (s : t I) : res (t I) :=
  let* (num_squashing, s) := squashes iew s in
  let* s :=
    if num_squashing =? ROB.numThreads P then Ok s
    else
      let* k := getInsts P (renameWidth C) fromRename (core s) in
      let* (s, _) := commitInsts (with_core k s) in Ok s in
  foldM report_step (BaseCPU.activeThreads cpu) s.

Definition head_step (s : t I) (tid : Z) : res (t I) :=
  let* empty := ROB.isEmpty_tid tid (rob_of s) in
  if (empty : bool) then Ok s
  else
    let* hd := ROB.readHeadInst tid (heap_of s) (rob_of s) in
    match hd with
    | None => Err Undefined
    | Some p => let* i := deref (heap_of s) p in
                Ok (if DynInst.readyToCommit i then set_stage (status s) Active s else s)
    end.

Definition updateStatus_step (s : t I) (tid : Z) : res (t I) :=
  let* c := thread tid s in
  let s := put tid (set_changed false c) s in
  Ok match commitStatus c with
     | TrapPending | FetchTrapPending => set_stage (status s) Active s
     | _ => s
     end.

Definition updateStatus (s : t I) : res (t I) :=
  let* s := foldM updateStatus_step (BaseCPU.activeThreads cpu) s in
  let s := match nextStatus s, status s with
           | Inactive, Active => log DeactivateStage s
           | Active, Inactive => log ActivateStage s
           | _, _ => s
           end in
  Ok (set_stage (nextStatus s) (nextStatus s) s).

(** The squashes of earlier cycles, then [commit], the completed instructions with the
    visibility update, and the status. *)
Definition tick (iew : Z -> IEWThread) (fromRename completed : list DynInstPtr) (s : t I)
  : res (t I * list Packet.t) :=
  let s := set_stage (status s) Inactive s in
  match BaseCPU.activeThreads cpu with
  | [] => Ok (s, [])
  | _ =>
      let* k := tick_start P cpu (core s) in
      let* s := commit iew fromRename (with_core k s) in
      let* (k, sent) := markCompletedInsts cpu completed (core s) in
      let* s := foldM head_step (BaseCPU.activeThreads cpu) (with_core k s) in
      let* s := updateStatus s in
      Ok (s, sent)
  end.

(** ** Starting and draining *)

Definition MaxWidth : Z := 8.

Definition new_comm : commitComm :=
  mkComm 0 false false None None false 0 false None false false false 0 false.
Definition new_thread : CThread :=
  mkC Idle false false false false false None 0 0 false false false 0 0 0 new_comm.

(** The constructor, with the buffer it is given. *)
Definition make (h : heap) (i : I) (r : ROB.t) : res (t I) :=
  fatal_if! MaxWidth <? commitWidth C in
  Ok (mk (Commit.mk h r (repeat new_thread (Z.to_nat (ROB.MaxThreads P)))) i None true false false false
        (match commitPolicy C with
         | RoundRobin => Z.of_nat <$> seq 0 (Z.to_nat (ROB.numThreads P))
         | _ => []
         end) Active Inactive []).

Definition startup_step (s : t I) (tid : nat) : res (t I) :=
  let* free := ROB.numFreeEntries_tid (Z.of_nat tid) (rob_of s) in
  tell (Z.of_nat tid) (fun x => set_emptyROB (set_freeROB free x)) s.

Definition startupStage (s : t I) : res (t I) :=
  let* r := ROB.resetEntries P cpu (rob_of s) in
  let* s := foldM startup_step (seq 0 (Z.to_nat (ROB.numThreads P))) (with_rob (heap_of s) r s) in
  Ok (log ActivateStage s).

(** [pcs]: no thread is inside a microcode sequence. *)
Definition isDrained (pcs : bool) (s : t I) : bool :=
  pcs && ROB.isEmpty (rob_of s) && bool_decide (interrupt s = None).

Definition takeOver_thread (c : CThread) : CThread :=
  set_squashAfterInst None
    (set_changed false
       (set_status Idle
          (set_traps false false (trapInFlight c) (trapPending c) (noSquashFromTC c) c))).

Definition takeOverFrom (s : t I) : res (t I) :=
  let s := set_stage Active Inactive s in
  let* s := foldM (fun s tid => update (Z.of_nat tid) takeOver_thread s)
              (seq 0 (Z.to_nat (ROB.numThreads P))) s in
  Ok (with_rob (heap_of s) (ROB.takeOverFrom (rob_of s)) s).

Definition changedROBEntries (s : t I) : res bool :=
  foldM (fun b tid => let* c := thread tid s in Ok (b || changedROBNumEntries c))
    (BaseCPU.activeThreads cpu) false.

Definition numROBFreeEntries (tid : Z) (s : t I) : res Z := ROB.numFreeEntries_tid tid (rob_of s).

End stage.
End CommitStage.
