(* ===== verification/CoreExamples.v ===== *)
(** * A small core, for witnesses

    One thread, a buffer of eight entries, two squashes per cycle: a branch, a load
    behind it whose access has been issued, and a second load. *)

From stdpp Require Import gmap.
From S2P Require Import Prelude.
From S2P Require Import BaseUtil MemCmd Request Packet DynInst Rob Commit CommitStage.

Local Open Scope Z_scope.

Module CoreExamples.

Definition params : ROB.Params := ROB.mkParams ROB.Dynamic 8 2 1 0 1.

(** RaS-Spec with insertion from the reorder buffer. *)
Definition cpu : BaseCPU.t := BaseCPU.mk true false false true 64 3 [0] [].

Definition no_flags : StaticInst.t :=
  StaticInst.mk false false false false false false false false false false false false false false false false.
Definition branch_si : StaticInst.t :=
  StaticInst.mk false false false false true false false false false false false false false false false false.
Definition load_si : StaticInst.t :=
  StaticInst.mk true false false false false false false false false false false false false false false false.

Definition the {A} (default : A) (r : res A) : A := match r with Ok a => a | Err _ => default end.

(** The read packet of a load by security domain 7. *)
Definition load_request (vaddr paddr : Z) : Request.t :=
  Request.setDomainID 7 (Request.setPaddr paddr (Request.make_virt 0 vaddr 8 0 3 0x400 0 None)).

Definition load_packet : res Packet.t := Packet.createRead 0 (load_request 0x2048 0x1048).

Definition branch : DynInst.t := DynInst.make 10 0 0x400 branch_si.
Definition load_plain : DynInst.t := DynInst.make 11 0 0x404 load_si.
Definition load : DynInst.t := Eval vm_compute in
  the load_plain (let* p := load_packet in DynInst.buildSHTpacket p 64 load_plain).
Definition load2 : DynInst.t := DynInst.make 12 0 0x408 load_si.

Definition heap0 : heap := {[ 1 := branch; 2 := load; 3 := load2 ]}.

Definition start : res (heap * ROB.t) :=
  let* r := ROB.make params in
  let* (h, r) := ROB.insertInst params 1 heap0 r in
  let* (h, r) := ROB.insertInst params 2 h r in
  ROB.insertInst params 3 h r.

(** The commit stage in the same state. *)
Definition idle_thread : Commit.CThread :=
  Commit.mkC Commit.Running false false false false false None 12 9 false false false 0 0 0
    (Commit.mkComm 9 false false None None false 0 false None false false false 0 false).

(** An interrupt controller: the vectors that are pending. *)
#[global] Instance vectors : BaseInterrupts (list Z).
Proof.
  refine {| checkInterrupts := fun l => match l with [] => false | _ => true end;
            getInterrupt := head; updateIntrInfo := tail; clearAll := fun _ => [] |}.
  intros [|f l]; simpl; split; [by intros []|done|done|by eexists].
Defined.

Definition stage_params : CommitStage.Params := CommitStage.mkParams 8 8 CommitStage.RoundRobin.

(** System-call emulation, no stores waiting, nothing special at any program counter. *)
Definition env : CommitStage.Env :=
  CommitStage.mkEnv false (fun _ => false) false (fun _ => true) (fun _ => false) (fun _ => false) (fun _ => 1).

Definition stage_of (k : Commit.t) : CommitStage.t (list Z) :=
  CommitStage.mk k [] None true false false false [0] CommitStage.Active CommitStage.Inactive [].

Definition commit_start : res (CommitStage.t (list Z)) :=
  let* (h, r) := start in Ok (stage_of (Commit.mk h r [idle_thread])).

(** The execute stage finds the branch mispredicted. *)
Definition mispredict (tid : Z) : Commit.IEWThread := Commit.mkIEW true 10 false (Some 1) true.

(** One cycle: the squash starts and ends, and the branch is marked as completed. *)
Definition wrong_path_cycle : res (CommitStage.t (list Z) * list Packet.t) :=
  let* s := commit_start in CommitStage.tick params stage_params cpu env mispredict [] [1] s.

Definition wrong_path_after : CommitStage.t (list Z) * list Packet.t := Eval vm_compute in
  match wrong_path_cycle with
  | Ok x => x
  | _ => (stage_of (Commit.mk heap0 (ROB.mk [] (0, ROB.End) (0, ROB.End) 0) []), [])
  end.

Lemma wrong_path_run : wrong_path_cycle = Ok wrong_path_after.
Proof. vm_cast_no_check (eq_refl (Ok wrong_path_after)). Qed.

(** The buffer with the three instructions, and the calls that led to it. *)
Definition rob0 : ROB.t := Eval vm_compute in
  the (ROB.mk [] (0, ROB.End) (0, ROB.End) 0) (ROB.make params).
Definition one_in : heap * ROB.t := Eval vm_compute in
  the (heap0, rob0) (ROB.insertInst params 1 heap0 rob0).
Definition two_in : heap * ROB.t := Eval vm_compute in
  the (heap0, rob0) (ROB.insertInst params 2 (fst one_in) (snd one_in)).
Definition started : heap * ROB.t := Eval vm_compute in
  the (heap0, rob0) (ROB.insertInst params 3 (fst two_in) (snd two_in)).

Lemma rob0_run : ROB.make params = Ok rob0.
Proof. vm_cast_no_check (eq_refl (Ok rob0)). Qed.

End CoreExamples.
