(* ===== verification/CommitFacts.v ===== *)
(** * The commit stage and the reorder buffer together

    The commit stage calls the reorder buffer only when the buffer's operations are
    defined: the invariant [core_ok] links the status of the stage with the buffer's.
    The file also has the witnesses for the theorems on the buffer. *)

From Stdlib Require Import Sorting.Sorted.
From stdpp Require Import gmap.
From S2P Require Import Prelude.
From S2P Require Import BaseUtil MemCmd Request Packet DynInst Rob RobFacts.
From S2P Require Import RobSafety Commit CommitStage CoreExamples.

Local Open Scope Z_scope.
Import HeapFacts VisibleFacts SquashFacts RobInv RobSafety.

Module CommitFacts.
Import Commit.

(** ** The invariant *)

(** What the other stages promise of an instruction: it is ready to commit without
    being executed only if it waits for the head of the buffer; an executed store
    conditional is complete or predicated off; and hardware transactions are not used. *)
Record inst_fit (i : DynInst.t) : Prop := {
  fit_sht : sht_ok i;
  fit_ready : DynInst.readyToCommit i = true ->
    DynInst.isSquashed i = true \/ DynInst.isExecuted i = true \/ CommitStage.waits_for_commit i = true;
  fit_sc : DynInst.isStoreConditional i = true -> DynInst.isExecuted i = true -> DynInst.fault i = None ->
    DynInst.isCompleted i = true \/ DynInst.readPredicate i = false;
  fit_htm : DynInst.isHtmStart i = false /\ DynInst.isHtmStop i = false
    /\ DynInst.inHtmTransactionalState i = false
}.

Definition objects_ok (h : heap) : Prop := forall q i, h !! q = Some i -> inst_fit i.

Lemma evolves_waits i i' :
  evolves i i' -> CommitStage.waits_for_commit i' = CommitStage.waits_for_commit i.
Proof.
  intros [(_ & _ & Hs) _ _ Hf _ _ _ _]. unfold CommitStage.waits_for_commit, DynInst.isNonSpeculative,
    DynInst.isStoreConditional, DynInst.isReadBarrier, DynInst.isWriteBarrier, DynInst.isAtomic,
    DynInst.isLoad, DynInst.strictlyOrdered, DynInst.has_flag. by rewrite Hs, Hf.
Qed.

Lemma evolves_fit i i' : evolves i i' -> inst_fit i -> inst_fit i'.
Proof.
  intros Hev [Hsht Hrdy Hsc Hhtm]. pose proof (evolves_waits _ _ Hev) as Hw.
  destruct Hev as [(_ & _ & Hs) Hp Hf Hfl He Hc Hsq Hr]. split.
  - intros p. rewrite Hp. apply Hsht.
  - intros H%Hr. rewrite Hw, He. destruct H as [H|H]; [|by left].
    destruct (Hrdy H) as [?|[?|?]]; auto.
  - unfold DynInst.isStoreConditional, DynInst.readPredicate, DynInst.has_flag in *.
    rewrite <- Hs, Hf, Hfl, He. intros H1 H2 H3. destruct (Hsc H1 H2 H3); auto.
  - unfold DynInst.isHtmStart, DynInst.isHtmStop, DynInst.inHtmTransactionalState, DynInst.has_flag in *.
    by rewrite <- Hs, Hfl.
Qed.

Lemma keeps_objects_ok h h' : keeps_objects h h' -> objects_ok h -> objects_ok h'.
Proof.
  intros Hk Ho q i Hi. destruct (proj2 (Hk q) i Hi) as (j & Hj & Hs). eapply evolves_fit; [done|by eapply Ho].
Qed.

(** Pending squash requests do not contradict each other, nor the status. *)
Record traps_ok (c : CThread) : Prop := {
  tr_trap : trapSquash c = true -> tcSquash c = false;
  tr_tc : tcSquash c = true -> commitStatus c <> TrapPending;
  tr_fired : trapSquash c = true -> trapPending c = true;
  tr_pending : trapPending c = true <-> commitStatus c = TrapPending;
  tr_flight : trapInFlight c = true -> commitStatus c = TrapPending;
  tr_quiet : noSquashFromTC c = true -> tcSquash c = true;
  tr_after : squashAfterInst c <> None ->
    commitStatus c = SquashAfterPending /\ trapSquash c = false /\ tcSquash c = false;
  tr_htm : htmStarts c <= htmStops c
}.

Record core_ok (P : ROB.Params) (cpu : BaseCPU.t) (s : t) : Prop := {
  core_rob : rob_ok P cpu (insts s) (rob s);
  core_insts : objects_ok (insts s);
  core_threads : forall tid, is_ok (thread tid s) = is_ok (ROB.thread tid (rob s));
  core_traps : forall tid c, thread tid s = Ok c -> traps_ok c;
  core_status : forall tid c th, thread tid s = Ok c -> ROB.thread tid (rob s) = Ok th ->
    commitStatus c <> ROBSquashing -> ROB.doneSquashing th = true
}.

Lemma commit_thread_put tid c0 c s tid' :
  thread tid s = Ok c0 ->
  thread tid' (put tid c s) = if decide (tid' = tid) then Ok c else thread tid' s.
Proof.
  unfold thread, put. simpl. destruct (Z.ltb_spec tid 0); [done|].
  destruct (threads s !! Z.to_nat tid) as [x|] eqn:Hx; [intros _|done].
  destruct (Z.ltb_spec tid' 0); [case_decide; [lia|done]|]. case_decide as Heq.
  - subst. rewrite list_lookup_insert_eq; [done|]. by eapply lookup_lt_Some.
  - rewrite list_lookup_insert_ne; [done|]. lia.
Qed.

(** One thread changes, together with its part of the buffer. *)
Lemma core_put P cpu s tid c0 c h r :
  core_ok P cpu s -> thread tid s = Ok c0 -> rob_ok P cpu h r -> objects_ok h -> only_thread tid (rob s) r ->
  traps_ok c -> commitStatus c = ROBSquashing \/ (forall th, ROB.thread tid r = Ok th -> ROB.doneSquashing th = true) ->
  core_ok P cpu (put tid c (with_rob h r s)).
Proof.
  intros [Hr Hi Ht Htr Hs] Hc Hr' Hi' [Hsame Hoth] Htc Hst.
  assert (forall tid', thread tid' (put tid c (with_rob h r s)) = if decide (tid' = tid) then Ok c else thread tid' s)
    as Hput by (intros tid'; exact (commit_thread_put tid c0 c (with_rob h r s) tid' Hc)).
  split; simpl; [done|done| | |].
  - intros tid'. rewrite Hput. case_decide as Heq.
    + subst. rewrite Hsame, <- Ht, Hc. done.
    + by rewrite Hoth, Ht.
  - intros tid' c'. rewrite Hput. case_decide; [intros; simplify_res; done|apply Htr].
  - intros tid' c' th. rewrite Hput. case_decide as Heq.
    + intros ? Hth Hn. simplify_res. destruct Hst as [?|Hst]; [done|by apply Hst].
    + rewrite Hoth by done. apply Hs.
Qed.

(** Every thread of the stage has its part of the buffer. *)
Lemma core_thread P cpu s tid c :
  core_ok P cpu s -> thread tid s = Ok c ->
  exists th xs, ROB.thread tid (rob s) = Ok th /\ thread_ok (insts s) tid th xs.
Proof.
  intros Hok Hc. pose proof (core_threads _ _ _ Hok tid) as Ht. rewrite Hc in Ht.
  destruct (ROB.thread tid (rob s)) as [th|] eqn:Hth; [|done].
  destruct (rob_threads _ _ _ _ (core_rob _ _ _ Hok) _ _ Hth). eauto.
Qed.

Lemma core_active P cpu s tid :
  core_ok P cpu s -> tid ∈ BaseCPU.activeThreads cpu -> exists c, thread tid s = Ok c.
Proof.
  intros Hok Hin. pose proof (rob_active _ _ _ _ (core_rob _ _ _ Hok) tid Hin) as Ha.
  rewrite <- (core_threads _ _ _ Hok) in Ha. destruct (thread tid s); [eauto|done].
Qed.

Lemma core_squash P cpu s tid c n :
  core_ok P cpu s -> thread tid s = Ok c ->
  exists h r, ROB.squash P cpu n tid (insts s) (rob s) = Ok (h, r)
    /\ rob_ok P cpu h r /\ only_thread tid (rob s) r /\ same_queues (rob s) r /\ keeps_objects (insts s) h.
Proof.
  intros Hok Hc. destruct (core_thread _ _ _ _ _ Hok Hc) as (th & xs & Hth & Hxs).
  by eapply squash_ok_step; [apply Hok| |].
Qed.

(** ** Squashes *)

Lemma commit_put_put tid c c' s : put tid c' (put tid c s) = put tid c' s.
Proof. unfold put. simpl. by rewrite list_insert_insert_eq. Qed.

(** The head of a thread that is not empty can be read. *)
Lemma core_head P cpu s tid th xs :
  core_ok P cpu s -> ROB.thread tid (rob s) = Ok th -> thread_ok (insts s) tid th xs -> xs <> [] ->
  exists p i, ROB.readHeadInst tid (insts s) (rob s) = Ok (Some p) /\ insts s !! p = Some i.
Proof.
  intros Hok Hth [Hh _ Hi Hc _] Hne. unfold ROB.readHeadInst. rewrite Hth. simpl.
  destruct xs as [|i xs]; [done|]. inversion Hh as [|p ? l ? Hp Hh' Heq]; subst.
  destruct (Z.eqb_spec (ROB.threadEntries th) 0) as [H0|_]; [simpl in Hc; lia|].
  rewrite (proj2 (deref_Ok _ _ _) Hp). simpl. inversion Hi as [|? ? (_ & Hr & _) _]; subst.
  rewrite Hr. eauto.
Qed.

Lemma squashAll_ok P cpu s tid c :
  core_ok P cpu s -> thread tid s = Ok c ->
  exists h r n x, squashAll P cpu tid s = Ok (put tid (set_info x (set_youngest n true c)) (with_rob h r s))
    /\ rob_ok P cpu h r /\ only_thread tid (rob s) r /\ same_queues (rob s) r /\ keeps_objects (insts s) h.
Proof.
  intros Hok Hc. destruct (core_thread _ _ _ _ _ Hok Hc) as (th & xs & Hth & Hxs).
  unfold squashAll. rewrite Hc. simpl. unfold ROB.isEmpty_tid. rewrite Hth. simpl.
  rewrite (th_count _ _ _ _ Hxs).
  assert (exists n, (if Z.of_nat (length xs) =? 0 then Ok (lastCommitedSeqNum c)
    else let* hd := ROB.readHeadInst tid (insts s) (rob s) in
         match hd with
         | None => Err Undefined
         | Some p => let* i := deref (insts s) p in Ok (subtract_one (DynInst.seqNum i))
         end) = Ok n) as [n ->].
  { destruct (decide (xs = [])) as [->|Hne]; [by eexists|].
    destruct (core_head _ _ _ _ _ _ Hok Hth Hxs Hne) as (p & i & -> & Hp). simpl.
    rewrite (proj2 (deref_Ok _ _ _) Hp). simpl.
    destruct (Z.eqb_spec (Z.of_nat (length xs)) 0); eauto. }
  simpl. destruct (core_squash P cpu s tid c n Hok Hc) as (h & r & -> & Hr & Ho & Hq & Hk). simpl.
  eexists h, r, _, _. by split_and!.
Qed.

(** A step of the stage keeps the invariant, its threads, the lists of the buffer and
    the instructions; [steps_at] changes one thread only. *)
Definition steps_to (P : ROB.Params) (cpu : BaseCPU.t) (s s' : t) : Prop :=
  core_ok P cpu s' /\ (forall tid, is_ok (thread tid s) = true -> is_ok (thread tid s') = true)
  /\ same_queues (rob s) (rob s') /\ keeps_objects (insts s) (insts s').

Definition steps_at (P : ROB.Params) (cpu : BaseCPU.t) (tid : Z) (s s' : t) : Prop :=
  steps_to P cpu s s' /\ forall tid', tid' <> tid -> thread tid' s' = thread tid' s.

Lemma steps_to_trans P cpu s1 s2 s3 :
  steps_to P cpu s1 s2 -> steps_to P cpu s2 s3 -> steps_to P cpu s1 s3.
Proof.
  intros (_ & Ht & Hq & Hk) (? & Ht' & Hq' & Hk'). split_and!; [done|auto| |by etransitivity].
  intros tid. by rewrite Hq', Hq.
Qed.

Lemma steps_at_trans P cpu tid s1 s2 s3 :
  steps_at P cpu tid s1 s2 -> steps_at P cpu tid s2 s3 -> steps_at P cpu tid s1 s3.
Proof.
  intros [H1 Ho1] [H2 Ho2]. split; [by eapply steps_to_trans|]. intros tid' Hne. by rewrite Ho2, Ho1.
Qed.

Lemma steps_to_refl P cpu s : core_ok P cpu s -> steps_to P cpu s s.
Proof. intros ?. by split_and!. Qed.
Lemma steps_at_refl P cpu tid s : core_ok P cpu s -> steps_at P cpu tid s s.
Proof. intros ?. by split; [apply steps_to_refl|]. Qed.

Lemma steps_at_put P cpu s tid c0 c h r :
  core_ok P cpu s -> thread tid s = Ok c0 -> rob_ok P cpu h r -> only_thread tid (rob s) r ->
  same_queues (rob s) r -> keeps_objects (insts s) h -> traps_ok c ->
  commitStatus c = ROBSquashing \/ (forall th, ROB.thread tid r = Ok th -> ROB.doneSquashing th = true) ->
  steps_at P cpu tid s (put tid c (with_rob h r s)).
Proof.
  intros Hok Hc Hr Ho Hq Hk Htr Hst.
  assert (forall tid', thread tid' (put tid c (with_rob h r s)) = if decide (tid' = tid) then Ok c else thread tid' s)
    as Hput by (intros tid'; exact (commit_thread_put tid c0 c (with_rob h r s) tid' Hc)).
  split; [|intros tid' Hne; by rewrite Hput, decide_False]. split_and!; [|intros tid' Ht; rewrite Hput; by case_decide|done..].
  eapply core_put; eauto. eapply keeps_objects_ok; [done|apply Hok].
Qed.

(** No squash of the whole thread is pending. *)
Definition calm (c : CThread) : Prop :=
  trapSquash c = false /\ tcSquash c = false /\ squashAfterInst c = None.
Definition calm_at (tid : Z) (s : t) : Prop := exists c, thread tid s = Ok c /\ calm c.

(** Whatever asked for it, a squash of the whole thread leaves the stage squashing. *)
Lemma squash_whole_ok P cpu s tid c f :
  core_ok P cpu s -> thread tid s = Ok c ->
  (forall n x, exists c', f (set_info x (set_youngest n true c)) = Ok c'
     /\ traps_ok c' /\ calm c' /\ commitStatus c' = ROBSquashing) ->
  exists s', (let* s := squashAll P cpu tid s in
              let* c := thread tid s in
              let* c := f c in Ok (put tid c s)) = Ok s'
    /\ steps_at P cpu tid s s' /\ calm_at tid s'.
Proof.
  intros Hok Hc Hf. destruct (squashAll_ok P cpu s tid c Hok Hc) as (h & r & n & x & -> & Hr & Ho & Hq & Hk).
  simpl. assert (forall x, thread tid (put tid x (with_rob h r s)) = Ok x) as Hput.
  { intros y. rewrite (commit_thread_put tid c y (with_rob h r s) tid Hc). by rewrite decide_True. }
  rewrite Hput. simpl. destruct (Hf n x) as (c' & -> & Htr & Hcalm & Hst). simpl.
  rewrite commit_put_put. eexists. split_and!; [done| |by exists c']. by eapply steps_at_put; eauto.
Qed.

(** A thread with no request pending satisfies the invariant while it squashes. *)
Lemma calm_traps_ok c :
  calm c -> trapInFlight c = false -> trapPending c = false -> noSquashFromTC c = false ->
  commitStatus c = ROBSquashing -> htmStarts c <= htmStops c -> traps_ok c.
Proof. intros (H1 & H2 & H3) H4 H5 H6 H7 H8. split; rewrite ?H1, ?H2, ?H3, ?H4, ?H5, ?H6, ?H7; done. Qed.

(** Outside a trap no event of one is on its way. *)
Lemma no_trap c : traps_ok c -> commitStatus c <> TrapPending -> trapInFlight c = false /\ trapPending c = false.
Proof.
  intros [] Hst. split; apply not_true_is_false; [auto|]. by intros ?%tr_pending0.
Qed.

Lemma no_quiet c : traps_ok c -> tcSquash c = false -> noSquashFromTC c = false.
Proof. intros [] Htc. apply not_true_is_false. intros H. rewrite tr_quiet0 in Htc; done. Qed.

Lemma no_after c : traps_ok c -> commitStatus c <> SquashAfterPending \/ trapSquash c = true \/ tcSquash c = true ->
  squashAfterInst c = None.
Proof.
  intros [] H. destruct (squashAfterInst c) as [p|]; [|done]. destruct tr_after0 as (? & ? & ?); [done|].
  destruct H as [?|[?|?]]; congruence.
Qed.

Lemma squashFromTrap_ok P cpu s tid c :
  core_ok P cpu s -> thread tid s = Ok c -> trapSquash c = true ->
  exists s', squashFromTrap P cpu tid s = Ok s' /\ steps_at P cpu tid s s' /\ calm_at tid s'.
Proof.
  intros Hok Hc Hts. pose proof (core_traps _ _ _ Hok _ _ Hc) as Htr. unfold squashFromTrap.
  apply (squash_whole_ok P cpu s tid c
    (fun c => Ok (set_status ROBSquashing (set_traps false (tcSquash c) false false false c)))); [done..|].
  intros n x. eexists. split; [done|].
  match goal with |- traps_ok ?c' /\ _ => assert (calm c') as Hcalm end.
  { split_and!; simpl; [done|by apply tr_trap|apply no_after; auto]. }
  split_and!; [|done..]. apply calm_traps_ok; try done. apply Htr.
Qed.

Lemma squashFromTC_ok P cpu s tid c :
  core_ok P cpu s -> thread tid s = Ok c -> trapSquash c = false -> tcSquash c = true ->
  exists s', squashFromTC P cpu tid s = Ok s' /\ steps_at P cpu tid s s' /\ calm_at tid s'.
Proof.
  intros Hok Hc Hts Htc. pose proof (core_traps _ _ _ Hok _ _ Hc) as Htr.
  destruct (no_trap c Htr (tr_tc _ Htr Htc)) as [Hfl Htp].
  destruct (squash_whole_ok P cpu s tid c (fun c => assert! negb (trapPending c) in
    Ok (set_status ROBSquashing
          (set_traps (trapSquash c) false (trapInFlight c) (trapPending c) false c)))) as (s' & Hrun & Hs');
    [done..| |].
  - intros n x. simpl. rewrite Htp. simpl. eexists. split; [done|].
    match goal with |- traps_ok ?c' /\ _ => assert (calm c') as Hcalm end.
    { split_and!; simpl; [done..|apply no_after; auto]. }
    split_and!; [|done..]. apply calm_traps_ok; try done. apply Htr.
  - exists s'. split; [|done]. unfold squashFromTC.
    destruct (squashAll P cpu tid s) as [s1|]; [|done]. simpl in *.
    destruct (thread tid s1) as [c1|]; [|done]. simpl in *. by destruct (negb (trapPending c1)).
Qed.

Lemma squashFromSquashAfter_ok P cpu s tid c :
  core_ok P cpu s -> thread tid s = Ok c -> trapSquash c = false -> tcSquash c = false ->
  commitStatus c = SquashAfterPending ->
  exists s', squashFromSquashAfter P cpu tid s = Ok s' /\ steps_at P cpu tid s s' /\ calm_at tid s'.
Proof.
  intros Hok Hc Hts Htc Hst. pose proof (core_traps _ _ _ Hok _ _ Hc) as Htr.
  destruct (no_trap c Htr) as [Hfl Htp]; [by rewrite Hst|]. unfold squashFromSquashAfter.
  apply (squash_whole_ok P cpu s tid c
    (fun c => Ok (set_status ROBSquashing (set_squashAfterInst None
       (set_info (set_squashInst (squashAfterInst c) (commitInfo c)) c))))); [done..|].
  intros n x. eexists. split; [done|]. split_and!; [|done..].
  apply calm_traps_ok; try done; [exact (no_quiet c Htr Htc)|apply Htr].
Qed.

(** A search through the buffer ends. *)
Lemma find_seq_total h l xs n : holds h l xs -> exists x, ROB.find_seq n l h = Ok x.
Proof.
  induction 1 as [|p i l xs Hp Hh IH]; simpl; [eauto|].
  rewrite (proj2 (deref_Ok _ _ _) Hp). simpl. case_match; eauto.
Qed.

(** The execute stage names instructions that exist. *)
Definition iew_ok (iew : Z -> IEWThread) (s : t) : Prop :=
  forall tid p, iew_mispredictInst (iew tid) = Some p -> is_Some (insts s !! p).

Lemma squashFromIEW_ok P cpu s tid c f :
  core_ok P cpu s -> thread tid s = Ok c -> calm c -> commitStatus c <> TrapPending ->
  (forall p, iew_mispredictInst f = Some p -> is_Some (insts s !! p)) ->
  exists s', squashFromIEW P cpu tid f s = Ok s' /\ steps_at P cpu tid s s' /\ calm_at tid s'.
Proof.
  intros Hok Hc Hcalm Hst Hf. pose proof (core_traps _ _ _ Hok _ _ Hc) as Htr.
  unfold squashFromIEW. rewrite Hc. simpl.
  set (n := if iew_includeSquashInst f then _ else _).
  destruct (core_squash P cpu s tid c n Hok Hc) as (h & r & -> & Hr & Ho & Hq & Hk). simpl.
  pose proof (core_threads _ _ _ Hok tid) as Ht. rewrite Hc in Ht.
  destruct (ROB.thread tid r) as [th|] eqn:Hth.
  2: { destruct Ho as [Hsame _]. rewrite Hth, <- Ht in Hsame. done. }
  destruct (rob_threads _ _ _ _ Hr _ _ Hth) as [xs Hxs].
  destruct (find_seq_total h _ xs n (th_holds _ _ _ _ Hxs)) as [x Hx].
  unfold ROB.findInst. rewrite Hth. simpl. rewrite Hx. simpl.
  assert (exists b, match iew_mispredictInst f with
    | Some p => let* i := deref h p in Ok (if DynInst.isUncondCtrl i then true else iew_branchTaken f)
    | None => Ok (iew_branchTaken f) end = Ok b) as [b ->].
  { destruct (iew_mispredictInst f) as [p|]; [|eauto].
    destruct (proj1 (Hk p) (Hf p eq_refl)) as [i Hi]. rewrite (proj2 (deref_Ok _ _ _) Hi). simpl. eauto. }
  simpl. eexists. destruct (no_trap c Htr Hst) as [Hfl Htp]. split_and!; [done| |].
  - eapply steps_at_put; [done..| |by left].
    apply calm_traps_ok; try done; [exact (no_quiet c Htr (proj1 (proj2 Hcalm)))|apply Htr].
  - eexists. rewrite (commit_thread_put tid c _ (with_rob h r s) tid Hc), decide_True by done.
    split; [done|exact Hcalm].
Qed.

Lemma squash_thread_ok P cpu iew n s tid :
  core_ok P cpu s -> is_ok (thread tid s) = true -> iew_ok iew s ->
  exists n' s', squash_thread P cpu iew (n, s) tid = Ok (n', s') /\ steps_at P cpu tid s s' /\ calm_at tid s'.
Proof.
  intros Hok Hc Hiew. destruct (thread tid s) as [c|] eqn:Hth; [|done].
  unfold squash_thread. rewrite Hth. simpl.
  set (m := if trapSquash c then _ else _).
  assert (exists s1, m = Ok s1 /\ steps_at P cpu tid s s1 /\ calm_at tid s1) as (s1 & -> & Hs1 & c1 & Hc1 & Hcalm).
  { subst m. pose proof (core_traps _ _ _ Hok _ _ Hth) as Htr.
    destruct (trapSquash c) eqn:Hts.
    { rewrite (tr_trap _ Htr) by done. by eapply squashFromTrap_ok. }
    destruct (tcSquash c) eqn:Htc.
    { rewrite bool_decide_eq_false_2 by by apply tr_tc. by eapply squashFromTC_ok. }
    case_bool_decide; [by eapply squashFromSquashAfter_ok|].
    exists s. split_and!; [done|by apply steps_at_refl|]. exists c. split; [done|]. split_and!; [done..|]. apply no_after; auto. }
  simpl. rewrite Hc1. simpl.
  assert (forall p, iew_mispredictInst (iew tid) = Some p -> is_Some (insts s1 !! p)) as Hf.
  { intros p Hp. apply Hs1. by apply (Hiew tid). }
  set (b := _ && _ && _).
  assert (exists s2, (if b then squashFromIEW P cpu tid (iew tid) s1 else Ok s1) = Ok s2
    /\ steps_at P cpu tid s1 s2 /\ calm_at tid s2) as (s2 & -> & Hs2 & c2 & Hc2 & Hcalm2).
  { destruct b eqn:Hb; subst b.
    - apply andb_true_iff in Hb as [[_ Hb%negb_true_iff%bool_decide_eq_false]%andb_true_iff _].
      eapply squashFromIEW_ok; [apply Hs1|done..].
    - eexists. split_and!; [done| |by exists c1]. apply steps_at_refl, Hs1. }
  simpl. rewrite Hc2. simpl. eexists _, _. split_and!; [done|by eapply steps_at_trans|by exists c2].
Qed.

Lemma continue_squash_ok P cpu s tid :
  core_ok P cpu s -> is_ok (thread tid s) = true ->
  exists s', continue_squash P cpu s tid = Ok s' /\ steps_to P cpu s s'.
Proof.
  intros Hok Hc. destruct (thread tid s) as [c|] eqn:Hth; [|done].
  destruct (core_thread _ _ _ _ _ Hok Hth) as (th & xs & Hrth & Hxs).
  pose proof (core_traps _ _ _ Hok _ _ Hth) as Htr.
  unfold continue_squash. rewrite Hth. simpl.
  set (c' := set_committedStores false c).
  assert (traps_ok c') as Htr' by by destruct Htr.
  case_bool_decide as Hst.
  2: { eexists. split; [done|]. replace s with (with_rob (insts s) (rob s) s) at 2 by by destruct s.
       eapply steps_at_put; [done|done|apply Hok|by split|done|reflexivity|done|]. right. intros th' Hth'.
       by apply (core_status _ _ _ Hok _ _ _ Hth Hth'). }
  unfold ROB.isDoneSquashing. simpl. rewrite Hrth. simpl.
  destruct (ROB.doneSquashing th) eqn:Hd.
  - eexists. split; [done|]. rewrite commit_put_put.
    replace s with (with_rob (insts s) (rob s) s) at 2 by by destruct s.
    eapply steps_at_put; [done|done|apply Hok|by split|done|reflexivity| |].
    + simpl in Hst. destruct Htr. split; simpl; try done.
      * split; [intros Hp%tr_pending0|]; congruence.
      * intros Hp%tr_flight0. congruence.
      * intros Ha. destruct (tr_after0 Ha). congruence.
    + right. intros th' Hth'. rewrite Hrth in Hth'. by simplify_res.
  - destruct (doSquash_ok_step P cpu _ _ tid th (core_rob _ _ _ Hok) Hrth Hd) as (h & r & -> & Hr & Ho & Hq & Hk).
    simpl. eexists. split; [done|].
    replace (put tid _ (with_rob h r (put tid c' s)))
      with (put tid (set_info (set_robSquashing (commitInfo c')) c') (with_rob h r s))
      by by rewrite <- (commit_put_put tid c').
    eapply steps_at_put; [done..| |by left]. by destruct Htr'.
Qed.

Lemma tick_start_ok P cpu s :
  core_ok P cpu s -> exists s', tick_start P cpu s = Ok s' /\ steps_to P cpu s s'.
Proof.
  intros Hok. apply (foldM_ind (continue_squash P cpu) (fun _ s' => steps_to P cpu s s'));
    [by apply steps_to_refl|].
  intros pre tid post s1 Hl Hs1. destruct (continue_squash_ok P cpu s1 tid) as (s2 & -> & Hs2).
  - apply Hs1.
  - apply Hs1. rewrite (core_threads _ _ _ Hok). apply (rob_active _ _ _ _ (core_rob _ _ _ Hok)).
    rewrite Hl. set_solver.
  - eexists. split; [done|]. by eapply steps_to_trans.
Qed.

(** ** Instructions from rename *)

(** Rename sends an instruction that is younger than its thread's, and only when
    there is room for it. *)
Definition arrives (P : ROB.Params) (p : DynInstPtr) (s : t) : Prop :=
  exists i th, insts s !! p = Some i /\ ROB.thread (DynInst.threadNumber i) (rob s) = Ok th
    /\ ROB.numInstsInROB (rob s) <> ROB.numEntries P
    /\ ROB.threadEntries th < ROB.maxEntries th
    /\ Forall (fun j => DynInst.seqNum j < DynInst.seqNum i)
         (RobSafety.insts (insts s) (rob s) (DynInst.threadNumber i)).

Lemma getInst_ok P cpu s p :
  core_ok P cpu s -> arrives P p s ->
  exists s', getInst P s p = Ok s' /\ core_ok P cpu s' /\ keeps_objects (insts s) (insts s')
    /\ forall tid, calm_at tid s -> calm_at tid s'.
Proof.
  intros Hok (i & th & Hp & Hth & Hn & Hmax & Hy). unfold getInst.
  rewrite (proj2 (deref_Ok _ _ _) Hp). simpl.
  pose proof (core_threads _ _ _ Hok (DynInst.threadNumber i)) as Ht. rewrite Hth in Ht.
  destruct (thread (DynInst.threadNumber i) s) as [c|] eqn:Hc; [|done]. simpl.
  set (b := _ && _ && _). destruct b eqn:Hb; [|eexists; by split_and!]. subst b.
  apply andb_true_iff in Hb as [[_ Hst%negb_true_iff%bool_decide_eq_false]%andb_true_iff _].
  pose proof (core_status _ _ _ Hok _ _ _ Hc Hth Hst) as Hd.
  destruct (rob_threads _ _ _ _ (core_rob _ _ _ Hok) _ _ Hth) as [xs Hxs].
  rewrite (insts_holds _ _ _ _ _ Hth Hxs) in Hy.
  destruct (insert_ok_step P cpu (insts s) (rob s) p i th xs) as (h & r & -> & Hr & Hths & Hk);
    [apply Hok|done|done|done|done|exact (fit_sht _ (core_insts _ _ _ Hok _ _ Hp))|done|done|].
  simpl. unfold ROB.getThreadEntries, ROB.getMaxEntries. rewrite Hths, decide_True by done. simpl.
  assert (0 <= ROB.threadEntries th) as H0 by (rewrite (th_count _ _ _ _ Hxs); lia).
  assert (u32 (ROB.threadEntries th + 1) <= ROB.maxEntries th) as Hle.
  { etransitivity; [apply Z.mod_le; lia|lia]. }
  rewrite (proj2 (Z.leb_le _ _) Hle). eexists. split_and!; [done| |done|].
  - eapply core_put; [done|done|done| |by eapply only_thread_put| |].
    + eapply keeps_objects_ok; [done|apply Hok].
    + by destruct (core_traps _ _ _ Hok _ _ Hc).
    + right. intros th'. rewrite Hths, decide_True by done. intros. by simplify_res.
  - intros tid (c' & Hc' & Hcalm). unfold calm_at.
    rewrite (commit_thread_put _ _ _ (with_rob h r s) tid Hc). case_decide as He; [|by exists c'].
    subst tid. rewrite Hc in Hc'. simplify_res. eexists. by split.
Qed.

(** The instructions of a cycle, one after the other. *)
Fixpoint all_arrive (P : ROB.Params) (ps : list DynInstPtr) (s : t) : Prop :=
  match ps with
  | [] => True
  | p :: ps => arrives P p s /\ forall s', getInst P s p = Ok s' -> all_arrive P ps s'
  end.

Lemma getInsts_ok P cpu ps s :
  core_ok P cpu s -> all_arrive P ps s ->
  exists s', foldM (getInst P) ps s = Ok s' /\ core_ok P cpu s' /\ keeps_objects (insts s) (insts s')
    /\ forall tid, calm_at tid s -> calm_at tid s'.
Proof.
  revert s. induction ps as [|p ps IH]; intros s Hok; simpl; [intros _; eexists; by split_and!|].
  intros [Hp Hps]. destruct (getInst_ok P cpu s p Hok Hp) as (s1 & Hrun & Hok1 & Hk1 & Hc1). rewrite Hrun. simpl.
  destruct (IH s1 Hok1 (Hps _ Hrun)) as (s2 & -> & Hok2 & Hk2 & Hc2).
  exists s2. split_and!; [done..|by etransitivity|auto].
Qed.

(** ** Completed instructions *)

(** The execute stage hands back an instruction that it has executed, or that waits
    for the head of the buffer. *)
Definition completes (h : heap) (p : DynInstPtr) : Prop :=
  exists i, h !! p = Some i
    /\ (DynInst.isSquashed i = true \/ DynInst.isExecuted i = true \/ CommitStage.waits_for_commit i = true).

Lemma keeps_completes h h' p : keeps_objects h h' -> completes h p -> completes h' p.
Proof.
  intros Hk (i & Hi & H). destruct (proj1 (Hk p)) as [i' Hi']; [by eexists|].
  destruct (proj2 (Hk p) _ Hi') as (j & Hj & Hev). simplify_eq. exists i'. split; [done|].
  rewrite (evolves_waits _ _ Hev), (ev_executed _ _ Hev). destruct H as [?%(ev_squashed _ _ Hev)|?]; auto.
Qed.

Lemma ready_fit i :
  (DynInst.isSquashed i = true \/ DynInst.isExecuted i = true \/ CommitStage.waits_for_commit i = true) ->
  inst_fit i -> inst_fit (DynInst.setCanCommit i).
Proof.
  intros H [Hsht _ Hsc Hhtm]. unfold DynInst.setCanCommit.
  assert (forall st, st <> DynInst.CanCommit ->
    DynInst.has_status st (DynInst.set_status DynInst.CanCommit i) = DynInst.has_status st i) as Hst.
  { intros st Hne. by rewrite DynInst.has_set_status, bool_decide_eq_false_2. }
  split; [done| | |done]; unfold DynInst.isSquashed, DynInst.isExecuted, DynInst.isCompleted in *;
    rewrite ?Hst by done; done.
Qed.

Lemma mark_completed_ok P cpu r h p :
  rob_ok P cpu h r -> objects_ok h -> completes h p ->
  exists h', mark_completed h p = Ok h' /\ rob_ok P cpu h' r /\ objects_ok h'
    /\ forall q, completes h q -> completes h' q.
Proof.
  intros Hok Hfit (i & Hp & Hc). unfold mark_completed. rewrite (proj2 (deref_Ok _ _ _) Hp). simpl.
  eexists. split; [done|]. destruct (DynInst.isSquashed i) eqn:Hsq; [done|]. split_and!.
  - eapply write_ok_step; [done..|].
    split_and!; [by repeat split| |exact (fit_sht _ (Hfit _ _ Hp))|by rewrite Hsq].
    unfold DynInst.isInROB, DynInst.setCanCommit. by rewrite DynInst.has_set_status.
  - intros q j. destruct (decide (q = p)) as [->|]; [|rewrite lookup_insert_ne by done; apply Hfit].
    rewrite lookup_insert_eq. intros. simplify_eq. apply ready_fit; [by rewrite Hsq|by eapply Hfit].
  - intros q (j & Hj & Hcj). destruct (decide (q = p)) as [->|]; unfold completes.
    + rewrite lookup_insert_eq. eexists. split; [done|]. simplify_eq.
      unfold DynInst.isSquashed, DynInst.isExecuted, DynInst.setCanCommit in *.
      by rewrite !DynInst.has_set_status.
    + rewrite lookup_insert_ne by done. eauto.
Qed.

Lemma markCompletedInsts_ok P cpu s completed :
  core_ok P cpu s -> NoDup (BaseCPU.activeThreads cpu) -> Forall (completes (insts s)) completed ->
  exists s' sent, markCompletedInsts cpu completed s = Ok (s', sent) /\ core_ok P cpu s'
    /\ threads s' = threads s /\ rob s' = rob s.
Proof.
  intros [Hr Hi Ht Htr Hst] Hnd Hc. unfold markCompletedInsts.
  destruct (foldM_ind mark_completed (fun _ h => rob_ok P cpu h (rob s) /\ objects_ok h
      /\ forall q, completes (insts s) q -> completes h q)
    completed (insts s)) as (h & -> & Hh & Ho & _); [done| |].
  - intros pre p post h Hl (Hh & Ho & Hk). rewrite Hl, Forall_app in Hc. destruct Hc as [_ Hc].
    inversion Hc as [|? ? Hp _]; subst.
    destruct (mark_completed_ok P cpu (rob s) h p Hh Ho (Hk _ Hp)) as (h' & -> & Hh' & Ho' & Hk').
    eexists. split_and!; auto.
  - simpl. destruct (updateVisibleState_exact _ _ _ _ Hh Hnd) as (h' & -> & Hh' & Hk' & _). simpl.
    eexists _, _. split_and!; [done| |done..]. split; try done. by eapply keeps_objects_ok.
Qed.

(** ** Theorems *)

(** The visibility update looks at the instructions before an access, not at the
    access itself: when a branch turns out mispredicted, the load behind it is
    squashed, and in the same cycle, the branch being complete now, its address is
    sent to the safe history buffer. *)
Theorem wrong_path_access_reported :
  exists s i p, CoreExamples.wrong_path_cycle = Ok (s, [p])
    /\ CommitStage.heap_of s !! 2 = Some i /\ DynInst.isSquashed i = true /\ DynInst.SHTpkt i = Some p
    /\ DynInst.seqNum CoreExamples.branch < DynInst.seqNum i.
Proof.
  exists (fst CoreExamples.wrong_path_after),
    (CoreExamples.the CoreExamples.load (deref (CommitStage.heap_of (fst CoreExamples.wrong_path_after)) 2)),
    (default (CoreExamples.the (Packet.make_blk 0 (Request.make 0 0 0 0 0) MemCmd.ReadReq 64) CoreExamples.load_packet)
       (DynInst.SHTpkt CoreExamples.load)).
  split; [exact CoreExamples.wrong_path_run|]. by split_and!; vm_compute.
Qed.

(** ** Witnesses *)

Import CoreExamples.

Definition arrival : list event := [Insert 1; Insert 2; Insert 3].

Lemma sht_example i : i = branch \/ i = load \/ i = load2 -> sht_ok i.
Proof. intros [->|[->| ->]] p Hp; simplify_eq/=; reflexivity. Qed.

Lemma enabled_cons P cpu e es s s' :
  enabled P e s -> run P cpu e s = Ok s' -> all_enabled P cpu es s' -> all_enabled P cpu (e :: es) s.
Proof. intros He Hr Hes. cbn [all_enabled]. by rewrite Hr. Qed.

(** An instruction may enter an example state. *)
Ltac enter i :=
  exists i; eexists; split_and!;
  [vm_compute; reflexivity|vm_compute; reflexivity|reflexivity|apply sht_example; tauto
  |vm_compute; congruence|vm_compute; repeat constructor].

Lemma arrival_enabled : all_enabled params cpu arrival (heap0, rob0).
Proof.
  apply (enabled_cons _ _ _ _ _ one_in); [enter branch|vm_cast_no_check (eq_refl (Ok one_in))|].
  apply (enabled_cons _ _ _ _ _ two_in); [enter load|vm_cast_no_check (eq_refl (Ok two_in))|].
  apply (enabled_cons _ _ _ _ _ started); [enter load2|vm_cast_no_check (eq_refl (Ok started))|done].
Qed.

Lemma cpu_active tid : tid ∈ BaseCPU.activeThreads cpu -> 0 <= tid < ROB.MaxThreads params.
Proof. simpl. intros ->%list_elem_of_singleton. lia. Qed.
Lemma cpu_NoDup : NoDup (BaseCPU.activeThreads cpu).
Proof. apply NoDup_singleton. Qed.

Lemma arrival_run : run_all params cpu arrival (heap0, rob0) = Ok started.
Proof. vm_cast_no_check (eq_refl (Ok started)). Qed.

Lemma started_ok : rob_ok params cpu (fst started) (snd started).
Proof.
  destruct (run_all_ok params cpu arrival heap0 rob0) as (h & r & Hrun & Hok).
  - apply make_ok; [exact rob0_run|simpl; lia|exact cpu_active].
  - exact cpu_NoDup.
  - exact arrival_enabled.
  - rewrite arrival_run in Hrun. apply ok_inj in Hrun. by rewrite Hrun.
Qed.

Lemma rob_history_ok_witness :
  exists h r, run_all params cpu arrival (heap0, rob0) = Ok (h, r) /\ rob_ok params cpu h r.
Proof.
  apply (rob_history_ok params cpu arrival heap0 rob0);
    [exact rob0_run|simpl; lia|exact cpu_NoDup|exact cpu_active|exact arrival_enabled].
Defined.

Definition started_thread : ROB.Thread := Eval vm_compute in
  the (ROB.mkThread None 0 0 [] ROB.End 0 true) (ROB.thread 0 (snd started)).

(** The branch and two loads: squashing behind the branch takes two cycles. *)
Lemma squash_exact_witness :
  exists h r, (let* (h, r) := ROB.squash params cpu 10 0 (fst started) (snd started) in
               ROB.squash_cycles params cpu 1 0 h r) = Ok (h, r)
    /\ rob_ok params cpu h r /\ ROB.isDoneSquashing 0 r = Ok true
    /\ RobSafety.insts h r 0 = squash_after 10 (RobSafety.insts (fst started) (snd started) 0)
    /\ forall q, q ∉ ROB.instList started_thread -> h !! q = fst started !! q.
Proof.
  apply (squash_exact params cpu (fst started) (snd started) 0 started_thread 1 10);
    [exact started_ok|reflexivity|done|vm_compute; lia].
Defined.

Lemma visibility_exact_witness :
  exists h, ROB.updateVisibleState cpu (fst started) (snd started)
    = Ok (h, BaseCPU.activeThreads cpu ≫= reports_of cpu (fst started) (snd started))
    /\ forall tid th k p i, tid ∈ BaseCPU.activeThreads cpu -> ROB.thread tid (snd started) = Ok th ->
         ROB.instList th !! k = Some p -> fst started !! p = Some i -> memref i = true ->
         let older := take k (RobSafety.insts (fst started) (snd started) tid) in
         exists i', h !! p = Some i'
           /\ DynInst.isPrevInstsCompleted i'
              = forallb complete older && BaseCPU.robInsert cpu || DynInst.isPrevInstsCompleted i
           /\ DynInst.isPrevBrsResolved i' = forallb resolved older || DynInst.isPrevBrsResolved i
           /\ DynInst.SHTinserted i'
              = DynInst.SHTinserted i || reported cpu (ROB.doneSquashing th) older i
           /\ DynInst.readyToCommit i' = DynInst.readyToCommit i
           /\ DynInst.isSquashed i' = DynInst.isSquashed i.
Proof.
  apply (visibility_exact params cpu (fst started) (snd started)); [exact started_ok|exact cpu_NoDup].
Defined.

(** The checks of [objects_ok] on a concrete heap. *)
Definition fit_check (x : DynInstPtr * DynInst.t) : bool :=
  let i := snd x in
  match DynInst.SHTpkt i with Some p => Packet.isRequest p | None => true end
  && (negb (DynInst.readyToCommit i) || DynInst.isSquashed i || DynInst.isExecuted i
      || CommitStage.waits_for_commit i)
  && negb (DynInst.isStoreConditional i)
  && negb (DynInst.isHtmStart i) && negb (DynInst.isHtmStop i) && negb (DynInst.inHtmTransactionalState i).

Lemma fit_check_ok q i : fit_check (q, i) = true -> inst_fit i.
Proof.
  intros H. unfold fit_check in H. simpl in H. repeat (apply andb_true_iff in H as [H ?]). rewrite !negb_true_iff in *. split.
  - intros p Hp. by rewrite Hp in H.
  - intros Hr. rewrite Hr in *. simpl in *.
    destruct (DynInst.isSquashed i), (DynInst.isExecuted i); auto.
  - congruence.
  - done.
Qed.

Lemma objects_ok_check h : forallb fit_check (map_to_list h) = true -> objects_ok h.
Proof.
  rewrite forallb_forall. intros H q i Hq. apply (fit_check_ok q), H.
  by rewrite <- list_elem_of_In, elem_of_map_to_list.
Qed.

End CommitFacts.
