(* ===== verification/CommitStageFacts.v ===== *)
(** * Retiring in order, precise traps

    The loop of the commit stage over the heads of the buffer: what one turn does, that
    it ends, and what leaves the buffer in a cycle. *)

From stdpp Require Import gmap.
From S2P Require Import Prelude.
From S2P Require Import BaseUtil MemCmd Request Packet DynInst Rob RobFacts.
From S2P Require Import RobSafety Commit CommitStage CoreExamples CommitFacts.

Local Open Scope Z_scope.
Import HeapFacts VisibleFacts SquashFacts RobInv RobSafety CommitFacts.

Module CommitStageFacts.
Import Commit CommitStage.

(** ** Changes of a thread that the invariant does not see *)

Record same_traps (c c' : CThread) : Prop := {
  st_status : commitStatus c' = commitStatus c;
  st_trap : trapSquash c' = trapSquash c;
  st_tc : tcSquash c' = tcSquash c;
  st_flight : trapInFlight c' = trapInFlight c;
  st_pending : trapPending c' = trapPending c;
  st_quiet : noSquashFromTC c' = noSquashFromTC c;
  st_after : squashAfterInst c' = squashAfterInst c;
  st_htm : htmStarts c' = htmStarts c /\ htmStops c' = htmStops c
}.

#[global] Instance same_traps_preorder : PreOrder same_traps.
Proof.
  split; [by intros c; split|]. intros c1 c2 c3 [] []. split; try congruence. naive_solver congruence.
Qed.

Lemma same_traps_ok c c' : same_traps c c' -> traps_ok c -> traps_ok c'.
Proof.
  intros [H1 H2 H3 H4 H5 H6 H7 [H8 H9]] []. split; rewrite ?H1, ?H2, ?H3, ?H4, ?H5, ?H6, ?H7, ?H8, ?H9; done.
Qed.

(** The same thread, up to such changes. *)
Definition same_thread (x x' : res CThread) : Prop :=
  match x, x' with Ok c, Ok c' => same_traps c c' | Err _, Err _ => True | _, _ => False end.

Lemma same_thread_refl x : same_thread x x.
Proof. by destruct x. Qed.
Lemma same_thread_trans x y z : same_thread x y -> same_thread y z -> same_thread x z.
Proof. destruct x, y, z; simpl; try done. intros. by etransitivity. Qed.
Lemma same_thread_ok x x' c : same_thread x x' -> x = Ok c -> exists c', x' = Ok c' /\ same_traps c c'.
Proof. intros H ->. destruct x'; [eauto|done]. Qed.
Lemma same_thread_inv x x' c' : same_thread x x' -> x' = Ok c' -> exists c, x = Ok c /\ same_traps c c'.
Proof. intros H ->. destruct x; [eauto|done]. Qed.

Lemma core_quiet P cpu k k' :
  insts k' = insts k -> rob k' = rob k ->
  (forall tid, same_thread (Commit.thread tid k) (Commit.thread tid k')) ->
  core_ok P cpu k -> core_ok P cpu k'.
Proof.
  intros Hi Hr Ht [H1 H2 H3 H4 H5]. split; rewrite ?Hi, ?Hr; try done.
  - intros tid. rewrite <- H3. specialize (Ht tid).
    destruct (Commit.thread tid k), (Commit.thread tid k'); done.
  - intros tid c Hc. destruct (same_thread_inv _ _ _ (Ht tid) Hc) as (c0 & Hc0 & Hs).
    eapply same_traps_ok; eauto.
  - intros tid c th Hc Hth Hst. destruct (same_thread_inv _ _ _ (Ht tid) Hc) as (c0 & Hc0 & Hs).
    eapply H5; eauto. by rewrite <- (st_status _ _ Hs).
Qed.

Section facts.
Context {I : Type} `{!BaseInterrupts I}.
Variables (P : ROB.Params) (C : Params) (cpu : BaseCPU.t) (w : Env).
Implicit Types s : t I.

Lemma stage_thread_put tid c0 c s tid' :
  thread tid s = Ok c0 ->
  thread tid' (put tid c s) = if decide (tid' = tid) then Ok c else thread tid' s.
Proof. apply commit_thread_put. Qed.

Lemma stage_put_put tid c c' s : put tid c' (put tid c s) = put tid c' s.
Proof. unfold put. simpl. by rewrite commit_put_put. Qed.

(** Nothing the loop depends on changes. *)
Record quiet s s' : Prop := {
  q_heap : heap_of s' = heap_of s;
  q_rob : rob_of s' = rob_of s;
  q_thread : forall tid, same_thread (thread tid s) (thread tid s');
  q_prio : priority_list s' = priority_list s;
  q_drain : drainPending s' = drainPending s;
  q_trace : trace s' = trace s
}.

#[global] Instance quiet_preorder : PreOrder quiet.
Proof.
  split; [intros s; split; try done; intros; apply same_thread_refl|].
  intros s1 s2 s3 [] []. split; try congruence. intros tid. eapply same_thread_trans; eauto.
Qed.

Lemma quiet_put tid c c' s : thread tid s = Ok c -> same_traps c c' -> quiet s (put tid c' s).
Proof.
  intros Hc Hs. split; try done. intros tid'. rewrite (stage_thread_put tid c) by done.
  case_decide as He; [|apply same_thread_refl]. subst. by rewrite Hc.
Qed.

Lemma quiet_update tid f c s :
  thread tid s = Ok c -> (forall c, same_traps c (f c)) ->
  exists s', update tid f s = Ok s' /\ quiet s s' /\ thread tid s' = Ok (f c).
Proof.
  intros Hc Hf. unfold update. rewrite Hc. simpl. eexists. split; [done|].
  split; [by eapply quiet_put|]. by rewrite (stage_thread_put tid c), decide_True.
Qed.

Lemma quiet_core s s' : quiet s s' -> core_ok P cpu (core s) -> core_ok P cpu (core s').
Proof. intros []. by apply core_quiet. Qed.

(** ** The invariant of the loop *)

(** The threads on the priority list are active, and so is the one that takes
    interrupts. *)
Record stage_ok s : Prop := {
  sg_core : core_ok P cpu (core s);
  sg_prio : forall tid, tid ∈ priority_list s -> tid ∈ BaseCPU.activeThreads cpu;
  sg_zero : 0 ∈ BaseCPU.activeThreads cpu
}.

(** No active thread has a squash pending. An event that moves the program counter
    does not follow an instruction that squashes what is behind it. With no instruction
    in flight there is none in the buffer. *)
Record loop_ok s : Prop := {
  lp_stage : stage_ok s;
  lp_calm : forall tid, tid ∈ BaseCPU.activeThreads cpu ->
    exists c, thread tid s = Ok c /\ trapSquash c = false /\ tcSquash c = false;
  lp_skips : forall p i, pc_event_skips w p = true -> heap_of s !! p = Some i ->
    DynInst.isSquashAfter i = false /\ drainPending s = false;
  lp_idle : instList_empty w = true ->
    (forall tid, queue tid (rob_of s) = [])
    /\ forall c, thread 0 s = Ok c -> squashAfterInst c = None
}.

Lemma quiet_stage s s' : quiet s s' -> stage_ok s -> stage_ok s'.
Proof.
  intros Hq [H1 H2 H3]. split; [by eapply quiet_core| |done]. intros tid. rewrite (q_prio _ _ Hq). apply H2.
Qed.

Lemma quiet_loop s s' : quiet s s' -> loop_ok s -> loop_ok s'.
Proof.
  intros Hq [H1 H2 H3 H4]. split; [by eapply quiet_stage| | |].
  - intros tid Ht. destruct (H2 tid Ht) as (c & Hc & ? & ?).
    destruct (same_thread_ok _ _ _ (q_thread _ _ Hq tid) Hc) as (c' & Hc' & Hs). exists c'.
    by rewrite (st_trap _ _ Hs), (st_tc _ _ Hs).
  - intros p i. rewrite (q_heap _ _ Hq), (q_drain _ _ Hq). apply H3.
  - intros He. rewrite (q_rob _ _ Hq). split; [by apply H4|]. intros c' Hc'.
    destruct (same_thread_inv _ _ _ (q_thread _ _ Hq 0) Hc') as (c & Hc & Hs).
    rewrite (st_after _ _ Hs). by apply (H4 He).
Qed.

Lemma active_nonneg s tid : stage_ok s -> tid ∈ BaseCPU.activeThreads cpu -> 0 <= tid.
Proof.
  intros Hs Hin. destruct (core_active _ _ _ _ (sg_core _ Hs) Hin) as [c Hc].
  unfold Commit.thread in Hc. destruct (Z.ltb_spec tid 0); [done|lia].
Qed.

(** ** Choosing a thread *)

Lemma isHeadReady_ok s tid :
  core_ok P cpu (core s) -> is_ok (thread tid s) = true ->
  exists b, ROB.isHeadReady tid (heap_of s) (rob_of s) = Ok b
    /\ (b = true -> exists th p l i, ROB.thread tid (rob_of s) = Ok th /\ ROB.instList th = p :: l
         /\ heap_of s !! p = Some i /\ DynInst.readyToCommit i = true
         /\ ROB.readHeadInst tid (heap_of s) (rob_of s) = Ok (Some p)).
Proof.
  intros Hok Hc. destruct (thread tid s) as [c|] eqn:Hth; [|done].
  destruct (core_thread _ _ _ _ _ Hok Hth) as (th & xs & Hrth & Hxs).
  unfold ROB.isHeadReady, ROB.readHeadInst, rob_of, heap_of. rewrite Hrth. simpl.
  destruct (Z.eqb_spec (ROB.threadEntries th) 0) as [H0|Hne]; [by eexists|].
  destruct Hxs as [Hh _ Hi Hcnt _]. rewrite Hcnt in Hne.
  destruct (ROB.instList th) as [|p l] eqn:Hl; inversion Hh as [|? i ? xs' Hp Hh']; subst; [simpl in Hne; lia|].
  rewrite (proj2 (deref_Ok _ _ _) Hp). simpl. inversion Hi as [|? ? (_ & Hin & _) _]; subst.
  eexists. split; [done|]. intros Hr. exists th, p, l, i. rewrite Hin. by split_and!.
Qed.

(** A thread chosen to commit: it is active, and its status allows it. *)
Definition chosen tid s : Prop :=
  tid ∈ BaseCPU.activeThreads cpu /\ exists c, thread tid s = Ok c /\ may_commit c = true.

Lemma roundRobin_ok s :
  stage_ok s ->
  exists tid s', roundRobin s = Ok (tid, s') /\ (tid = InvalidThreadID \/ chosen tid s)
    /\ exists l, s' = set_priority l s /\ forall tid, tid ∈ l -> tid ∈ BaseCPU.activeThreads cpu.
Proof.
  intros Hs. unfold roundRobin.
  assert (forall l seen, (forall tid, tid ∈ seen ++ l -> tid ∈ BaseCPU.activeThreads cpu) ->
    exists x, roundRobin_loop seen l s = Ok x /\ forall tid l', x = Some (tid, l') ->
      chosen tid s /\ forall tid, tid ∈ l' -> tid ∈ BaseCPU.activeThreads cpu) as Hloop.
  { induction l as [|tid l IH]; intros seen Hin; simpl; [by eexists|].
    assert (tid ∈ BaseCPU.activeThreads cpu) as Ha by (apply Hin; set_solver).
    destruct (core_active _ _ _ _ (sg_core _ Hs) Ha) as [c Hc].
    unfold thread at 1. rewrite Hc. simpl.
    destruct (isHeadReady_ok s tid (sg_core _ Hs)) as (b & Hb & _); [unfold thread; by rewrite Hc|].
    assert (forall x : bool, exists y, (if x then Ok (Some (tid, seen ++ l ++ [tid]))
      else roundRobin_loop (seen ++ [tid]) l s) = Ok y /\ forall tid' l', y = Some (tid', l') ->
        (x = true -> may_commit c = true) ->
        chosen tid' s /\ forall tid, tid ∈ l' -> tid ∈ BaseCPU.activeThreads cpu) as Hcase.
    { intros [|].
      - eexists. split; [done|]. intros tid' l' [= <- <-] Hm. split; [split; [done|]; exists c; auto|]. set_solver.
      - destruct (IH (seen ++ [tid])) as (x & Hx & Hx'); [set_solver|]. eexists. split; [done|]. auto. }
    destruct (may_commit c) eqn:Hm; simpl.
    - rewrite Hb. simpl. destruct (Hcase b) as (y & Hy & Hy'). exists y. split; [done|]. intros. by eapply Hy'.
    - destruct (Hcase false) as (y & Hy & Hy'). exists y. split; [done|]. intros. by eapply Hy'. }
  destruct (Hloop (priority_list s) []) as (x & -> & Hx); [apply Hs|]. simpl.
  destruct x as [[tid l]|].
  - destruct (Hx tid l eq_refl). eexists _, _. split; [done|]. split; [by right|]. by exists l.
  - eexists _, _. split; [done|]. split; [by left|]. exists (priority_list s). split; [by destruct s|apply Hs].
Qed.

Lemma oldestReady_ok s :
  stage_ok s -> exists tid, oldestReady cpu s = Ok tid /\ (tid = InvalidThreadID \/ chosen tid s).
Proof.
  intros Hs. unfold oldestReady.
  destruct (foldM_ind (oldestReady_step s) (fun _ '(oldest, first) => first = false -> chosen oldest s)
    (BaseCPU.activeThreads cpu) (0, true)) as ([oldest first] & -> & Hx); [done| |].
  - intros pre tid post [oldest first] Hl Hx.
    assert (tid ∈ BaseCPU.activeThreads cpu) as Ha by (rewrite Hl; set_solver).
    destruct (core_active _ _ _ _ (sg_core _ Hs) Ha) as [c Hc].
    destruct (core_thread _ _ _ _ _ (sg_core _ Hs) Hc) as (th & xs & Hrth & Hxs).
    destruct (isHeadReady_ok s tid (sg_core _ Hs)) as (b & Hb & Hb'); [unfold thread; by rewrite Hc|].
    unfold oldestReady_step, ROB.isEmpty_tid, thread, rob_of in *. rewrite Hrth, Hc. simpl. rewrite Hb. simpl.
    destruct (negb _ && may_commit c) eqn:Hm; [|eexists; by split].
    apply andb_true_iff in Hm as [_ Hm].
    destruct b; [|eexists; by split]. destruct Hb' as (th' & p & l & i & _ & _ & Hp & _ & Hrd); [done|].
    rewrite Hrd. simpl. rewrite (proj2 (deref_Ok _ _ _) Hp). simpl.
    assert (chosen tid s) as Hch by (split; [done|]; by exists c).
    destruct first; [|case_match]; (eexists; split; [done|]; simpl; auto).
  - simpl. eexists. split; [done|]. destruct first; [by left|right; auto].
Qed.

Lemma getCommittingThread_ok s :
  stage_ok s ->
  exists tid s', getCommittingThread P C cpu s = Ok (tid, s') /\ (tid = InvalidThreadID \/ chosen tid s)
    /\ exists l, s' = set_priority l s /\ forall tid, tid ∈ l -> tid ∈ BaseCPU.activeThreads cpu.
Proof.
  intros Hs. unfold getCommittingThread.
  assert (exists l, s = set_priority l s /\ forall tid, tid ∈ l -> tid ∈ BaseCPU.activeThreads cpu) as Hsame.
  { exists (priority_list s). split; [by destruct s|apply Hs]. }
  destruct (1 <? ROB.numThreads P).
  - destruct (oldestReady_ok s Hs) as (tid & Hrun & Hch). rewrite Hrun. simpl.
    destruct (commitPolicy C); [eexists _, _; by split_and!|by apply roundRobin_ok|eexists _, _; by split_and!].
  - destruct (BaseCPU.activeThreads cpu) as [|tid tids] eqn:Hact; [pose proof (sg_zero _ Hs) as Hz; rewrite Hact in Hz; set_solver|].
    destruct (core_active P cpu (core s) tid (sg_core _ Hs)) as [c Hc]; [rewrite Hact; set_solver|].
    unfold thread. rewrite Hc. simpl. eexists _, _. split; [done|]. split; [|done].
    destruct (may_commit c) eqn:Hm; [right|by left]. split; [rewrite Hact; set_solver|]. by exists c.
Qed.

(** ** Interrupts *)

Lemma core_set tid c0 c k :
  core_ok P cpu k -> Commit.thread tid k = Ok c0 -> traps_ok c ->
  commitStatus c = ROBSquashing
  \/ (forall th, ROB.thread tid (rob k) = Ok th -> ROB.doneSquashing th = true) ->
  core_ok P cpu (Commit.put tid c k).
Proof.
  intros Hok Hc Htr Hst. replace k with (Commit.with_rob (insts k) (rob k) k) at 1 by by destruct k.
  by eapply core_put; [done|done|apply Hok|apply Hok|split|..].
Qed.

(** Nothing is being squashed in a thread without instructions. *)
Lemma empty_done k tid th :
  core_ok P cpu k -> ROB.thread tid (rob k) = Ok th -> queue tid (rob k) = [] -> ROB.doneSquashing th = true.
Proof.
  intros Hok Hth Hq. destruct (rob_threads _ _ _ _ (core_rob _ _ _ Hok) _ _ Hth) as [xs Hxs].
  unfold queue in Hq. rewrite Hth in Hq. destruct Hxs as [Hh _ _ _ Hs]. rewrite Hq in Hh. inversion Hh; subst.
  unfold squash_ok in Hs. by destruct (ROB.doneSquashing th); [|destruct Hs as (? & ? & _ & ? & _)].
Qed.

Lemma update_run tid f c s :
  thread tid s = Ok c -> update tid f s = Ok (put tid (f c) s) /\ thread tid (put tid (f c) s) = Ok (f c).
Proof. intros Hc. unfold update. rewrite Hc, (stage_thread_put tid c), decide_True by done. done. Qed.

(** The interrupt is taken only when nothing is in flight. *)
Definition interrupted s s' : Prop :=
  stage_ok s' /\ (forall tid, queue tid (rob_of s') = []) /\ rob_of s' = rob_of s /\ heap_of s' = heap_of s
  /\ exists f, trace s' = trace s ++ [Trap f 0 None; ScheduleTrap 0].

Lemma zero_active s : loop_ok s -> 0 ∈ BaseCPU.activeThreads cpu.
Proof. intros Hl. exact (sg_zero _ (lp_stage _ Hl)). Qed.

Lemma tell_clear s :
  loop_ok s -> exists s' c, tell 0 set_clearInterrupt s = Ok s' /\ quiet s s' /\ intr s' = intr s
    /\ thread 0 s = Ok c /\ thread 0 s' = Ok (set_info (set_clearInterrupt (commitInfo c)) c).
Proof.
  intros Hl. destruct (lp_calm _ Hl 0 (zero_active _ Hl)) as (c & Hc & _).
  unfold tell. destruct (update_run 0 (fun c => set_info (set_clearInterrupt (commitInfo c)) c) c s Hc) as [Hr Ht].
  rewrite Hr. eexists _, c. split_and!; [done|by eapply quiet_put|done..].
Qed.

Lemma quiet_interrupts i f b s : quiet s (set_interrupts i f b s).
Proof. split; try done. intros. apply same_thread_refl. Qed.

Lemma handleInterrupt_ok s :
  loop_ok s -> exists s', handleInterrupt w s = Ok s' /\ (quiet s s' \/ interrupted s s').
Proof.
  intros Hl. unfold handleInterrupt. destruct (tell_clear s Hl) as (s1 & c & Hrun & Hq & Hintr & Hc0 & Hc).
  destruct (cpu_checkInterrupts w s) eqn:Hchk; simpl.
  2: { rewrite Hrun. simpl. eexists. split; [done|]. left. etransitivity; [done|]. apply quiet_interrupts. }
  destruct (canHandleInterrupts s && instList_empty w) eqn:Hcan; [|exists s; split; [done|by left]].
  apply andb_true_iff in Hcan as [_ Hempty]. rewrite Hrun. simpl. rewrite Hc. simpl.
  destruct (lp_calm _ Hl 0 (zero_active _ Hl)) as (c' & Hc' & Hts & Htc). rewrite Hc0 in Hc'. simplify_res.
  pose proof (core_traps _ _ _ (sg_core _ (lp_stage _ Hl)) _ _ Hc0) as Htr.
  pose proof (lp_idle _ Hl Hempty) as [Hqs Haft]. rewrite (no_quiet _ Htr Htc). simpl.
  unfold cpu_checkInterrupts in Hchk. apply andb_true_iff in Hchk as [_ Hchk].
  apply getInterrupt_exactly in Hchk as [f Hf]. rewrite Hintr, Hf. simpl.
  set (c1 := set_noSquashFromTC true _). set (s2 := log _ _).
  assert (thread 0 s2 = Ok c1) as Hc2.
  { change (thread 0 (put 0 c1 s1) = Ok c1). by rewrite (stage_thread_put 0 _ _ _ _ Hc), decide_True. }
  set (g := fun c : CThread => set_status TrapPending (set_noSquashFromTC false c)).
  destruct (update_run 0 g c1 s2 Hc2) as [-> Hc3]. simpl. unfold generateTrapEvent.
  set (s3 := log _ (put 0 (g c1) s2)).
  destruct (update_run 0 (set_trapPending true) (g c1) s3 Hc3) as [-> Hc4]. simpl.
  eexists. split; [done|]. right.
  set (c4 := set_trapPending true (g c1)).
  assert (core_ok P cpu (Commit.put 0 c4 (core s1))) as Hcore.
  { eapply core_set; [by eapply quiet_core; [|apply Hl]|exact Hc| |].
    - split; simpl; try done; [congruence|by rewrite (Haft _ Hc0)|apply Htr].
    - right. intros th Hth. eapply empty_done; [by eapply quiet_core; [|apply Hl]|done|].
      change (queue 0 (rob_of s1) = []). by rewrite (q_rob _ _ Hq). }
  split_and!.
  - split; simpl; [by rewrite !commit_put_put| |by eapply zero_active].
    rewrite (q_prio _ _ Hq). apply Hl.
  - intros tid. change (queue tid (rob_of s1) = []). by rewrite (q_rob _ _ Hq).
  - apply Hq.
  - apply Hq.
  - exists f. simpl. by rewrite (q_trace _ _ Hq), <- app_assoc.
Qed.

Lemma take_interrupt_ok tid s :
  loop_ok s -> tid = InvalidThreadID \/ chosen tid s ->
  exists s', take_interrupt w tid s = Ok s' /\ (quiet s s' \/ interrupted s s').
Proof.
  intros Hl Hch. unfold take_interrupt. destruct (interrupt s); [|exists s; split; [done|by left]].
  assert (exists b, executingHtmTransaction tid s = Ok b) as [b ->].
  { unfold executingHtmTransaction. destruct Hch as [->|(_ & c & Hc & _)]; [by eexists|].
    rewrite Hc. destruct (tid =? InvalidThreadID); by eexists. }
  simpl. destruct b; [|by apply handleInterrupt_ok].
  destruct (tell_clear s Hl) as (s1 & c & -> & Hq & _). simpl. eexists. split; [done|]. left.
  etransitivity; [done|]. apply quiet_interrupts.
Qed.

(** ** What leaves the buffer *)

(** The instructions of a thread that left, in order; and how many were committed. *)
Definition left_of (tid : Z) (a : Action) : option DynInstPtr :=
  match a with Retire tid' p | Drop tid' p => if tid' =? tid then Some p else None | _ => None end.
Definition left (tid : Z) (acts : list Action) : list DynInstPtr := omap (left_of tid) acts.
Definition is_retire (a : Action) : bool := match a with Retire _ _ => true | _ => false end.
Definition committed (acts : list Action) : nat := length (List.filter is_retire acts).
Definition is_trap (a : Action) : bool := match a with Trap _ _ (Some _) => true | _ => false end.

(** What is true at the end of every action of the cycle. *)
Definition act_ok s (a : Action) : Prop :=
  match a with
  | Retire tid p => exists i, heap_of s !! p = Some i /\ DynInst.threadNumber i = tid
      /\ DynInst.isInROB i = false /\ DynInst.isCommitted i = true /\ DynInst.isSquashed i = false
      /\ DynInst.isExecuted i = true /\ DynInst.fault i = None
      /\ (DynInst.isStore i = true \/ DynInst.isCompleted i = true)
  | Drop tid p => exists i, heap_of s !! p = Some i /\ DynInst.threadNumber i = tid
      /\ DynInst.isInROB i = false /\ DynInst.isSquashed i = true
  | Trap _ tid (Some p) => exists i l c, queue tid (rob_of s) = p :: l /\ heap_of s !! p = Some i
      /\ DynInst.fault i <> None /\ DynInst.isExecuted i = true /\ DynInst.isSquashed i = false
      /\ hasStoresToWB w tid = false
      /\ thread tid s = Ok c /\ commitStatus c = TrapPending /\ trapPending c = true
      /\ trapSquash c = false /\ tcSquash c = false /\ tid ∈ BaseCPU.activeThreads cpu
  | _ => True
  end.

Record moved s s' (acts : list Action) : Prop := {
  mv_trace : trace s' = trace s ++ acts;
  mv_queue : forall tid, queue tid (rob_of s) = left tid acts ++ queue tid (rob_of s');
  mv_keeps : keeps_objects (heap_of s) (heap_of s');
  mv_frame : forall q, (forall tid, q ∉ queue tid (rob_of s)) -> heap_of s' !! q = heap_of s !! q;
  mv_acts : Forall (act_ok s') acts
}.

(** Instructions in a list of the buffer are marked as such. *)
Lemma queue_inROB s tid p i :
  core_ok P cpu (core s) -> p ∈ queue tid (rob_of s) -> heap_of s !! p = Some i -> DynInst.isInROB i = true.
Proof.
  intros Hok Hp Hi. unfold queue, rob_of in Hp. destruct (ROB.thread tid (rob (core s))) as [th|] eqn:Hth; [|set_solver].
  destruct (rob_threads _ _ _ _ (core_rob _ _ _ Hok) _ _ Hth) as [xs Hxs].
  apply list_elem_of_lookup in Hp as [k Hk].
  destruct (holds_lookup _ _ _ _ _ (th_holds _ _ _ _ Hxs) Hk) as (j & Hj & Hpj).
  unfold heap_of in Hi. simplify_eq. by destruct (Forall_lookup_1 _ _ _ _ (th_insts _ _ _ _ Hxs) Hj) as (_ & ? & _).
Qed.

Lemma moved_refl s : moved s s [].
Proof. split; try done. by rewrite app_nil_r. Qed.

Lemma moved_trans s1 s2 s3 a1 a2 :
  core_ok P cpu (core s2) -> moved s1 s2 a1 -> moved s2 s3 a2 -> existsb is_trap a1 = false ->
  moved s1 s3 (a1 ++ a2).
Proof.
  intros Hok [T1 Q1 K1 F1 A1] [T2 Q2 K2 F2 A2] Hno. split.
  - by rewrite T2, T1, app_assoc.
  - intros tid. rewrite Q1, Q2. unfold left. by rewrite omap_app, app_assoc.
  - by etransitivity.
  - intros q Hq. rewrite F2, F1; [done|done|]. intros tid Hin. apply (Hq tid). rewrite Q1. set_solver.
  - apply Forall_app. split; [|done]. clear -Hok A1 F2 Hno.
    assert (forall p i, heap_of s2 !! p = Some i -> DynInst.isInROB i = false -> heap_of s3 !! p = Some i) as Hkeep.
    { intros p i Hi Hr. rewrite F2; [done|]. intros tid Hin.
      rewrite (queue_inROB _ _ _ _ Hok Hin Hi) in Hr. done. }
    induction A1 as [|a a1 Ha A1 IH]; [constructor|]. simpl in Hno. apply orb_false_iff in Hno as [Hn Hno].
    constructor; [|by apply IH]. destruct a as [tid p|tid p|f tid [p|]| | | | | |]; simpl in *; try done.
    + destruct Ha as (i & Hi & ? & Hr & ?). exists i. split; [by apply Hkeep|done].
    + destruct Ha as (i & Hi & ? & Hr & ?). exists i. split; [by apply Hkeep|done].
Qed.

(** A quiet change, with requests to other parts. *)
Lemma quiet_moved s s' : quiet s s' -> moved s s' [].
Proof.
  intros [Hh Hr _ _ _ Ht]. split; rewrite ?Hh, ?Hr; try done. by rewrite app_nil_r.
Qed.

(** ** Retiring the head *)

(** The head of a thread that may commit. *)
Record head_at tid (p : DynInstPtr) (i : DynInst.t) (l : list DynInstPtr) s : Prop := {
  hd_thread : exists c, thread tid s = Ok c /\ commitStatus c <> ROBSquashing;
  hd_queue : queue tid (rob_of s) = p :: l;
  hd_inst : heap_of s !! p = Some i;
  hd_ready : DynInst.readyToCommit i = true
}.

Lemma head_tid tid p i l s :
  core_ok P cpu (core s) -> head_at tid p i l s -> DynInst.threadNumber i = tid.
Proof.
  intros Hok [(c & Hc & _) Hq Hi _]. destruct (core_thread _ _ _ _ _ Hok Hc) as (th & xs & Hth & Hxs).
  unfold queue, rob_of in Hq. rewrite Hth in Hq. destruct Hxs as [Hh _ Hin _ _]. rewrite Hq in Hh.
  inversion Hh as [|? j ? ? Hj]; subst. unfold heap_of in Hi. simplify_eq. by inversion Hin as [|? ? (? & _) _].
Qed.

Definition retired (i : DynInst.t) : DynInst.t := DynInst.setCommitted (DynInst.clearInROB i).

Lemma retired_evolves i : evolves i (retired i).
Proof. etransitivity; [by apply (evolves_reset DynInst.RobEntry)|by apply (evolves_set DynInst.Committed)]. Qed.

Lemma retireHead_ok tid p i l s :
  core_ok P cpu (core s) -> head_at tid p i l s ->
  exists h r, ROB.retireHead cpu tid (heap_of s) (rob_of s) = Ok (p, h, r)
    /\ core_ok P cpu (core (with_rob h r s)) /\ h = <[p := retired i]> (heap_of s)
    /\ ROB.numInstsInROB r = ROB.numInstsInROB (rob_of s) - 1
    /\ forall tid', queue tid' r = if decide (tid' = tid) then l else queue tid' (rob_of s).
Proof.
  intros Hok [(c & Hc & Hst) Hq Hi Hr]. destruct (core_thread _ _ _ _ _ Hok Hc) as (th & xs & Hth & Hxs).
  unfold queue, rob_of in Hq. rewrite Hth in Hq.
  destruct (retire_ok_step P cpu _ _ tid th p l i (core_rob _ _ _ Hok) Hth Hq Hi Hr
    (core_status _ _ _ Hok _ _ _ Hc Hth Hst)) as (h & r & Hrun & Hok' & Hh & Hn & th' & Hl' & Hd' & Hths).
  exists h, r. split_and!; [done| |done|done|].
  - destruct Hok as [H1 H2 H3 H4 H5]. split; simpl; try done.
    + subst h. eapply keeps_objects_ok; [|done]. eapply keeps_insert; [done|apply retired_evolves].
    + intros tid'. change (is_ok (thread tid' s) = is_ok (ROB.thread tid' r)). unfold thread. rewrite H3, Hths.
      case_decide; [subst; by rewrite Hth|done].
    + intros tid' c' th1 Hc' Hth1 Hst'. rewrite Hths in Hth1. case_decide; [by simplify_res|]. by eapply H5.
  - intros tid'. rewrite (queue_put tid _ _ _ _ tid' Hth Hths), Hl'. done.
Qed.

(** Work of the stage on an instruction in place. *)
Lemma write_ok p i j s :
  core_ok P cpu (core s) -> heap_of s !! p = Some i -> evolves i j -> DynInst.isInROB j = DynInst.isInROB i ->
  core_ok P cpu (core (write_inst p j s)).
Proof.
  intros [H1 H2 H3 H4 H5] Hi Hev Hr. split; simpl; try done.
  - eapply write_ok_step; [done..|]. split_and!; [apply Hev|done|exact (fit_sht _ (evolves_fit _ _ Hev (H2 _ _ Hi)))|apply Hev].
  - eapply keeps_objects_ok; [|done]. by eapply keeps_insert.
Qed.

(** The head has left the buffer, as [j]. *)
Record retires tid p i l j s s' : Prop := {
  rt_core : core_ok P cpu (core s');
  rt_heap : heap_of s' = <[p := j]> (heap_of s);
  rt_evolves : evolves i j;
  rt_queue : forall tid', queue tid' (rob_of s') = if decide (tid' = tid) then l else queue tid' (rob_of s);
  rt_num : ROB.numInstsInROB (rob_of s') = ROB.numInstsInROB (rob_of s) - 1;
  rt_thread : forall tid', same_thread (thread tid' s) (thread tid' s');
  rt_prio : priority_list s' = priority_list s;
  rt_drain : drainPending s' = drainPending s;
  rt_trace : trace s' = trace s
}.

Lemma retires_quiet tid p i l j s s1 s2 :
  retires tid p i l j s s1 -> quiet s1 s2 -> retires tid p i l j s s2.
Proof.
  intros [] Hq. split; rewrite ?(q_heap _ _ Hq), ?(q_rob _ _ Hq), ?(q_prio _ _ Hq), ?(q_drain _ _ Hq), ?(q_trace _ _ Hq);
    try done; [by eapply quiet_core|]. intros tid'. eapply same_thread_trans; [done|apply Hq].
Qed.

Lemma head_in_flight tid p i l s : loop_ok s -> head_at tid p i l s -> instList_empty w = false.
Proof.
  intros Hl Hh. apply not_true_is_false. intros He. destruct (lp_idle _ Hl He) as [Hq _].
  pose proof (hd_queue _ _ _ _ _ Hh) as Hq'. by rewrite Hq in Hq'.
Qed.

Lemma retires_loop tid p i l j s s' :
  loop_ok s -> head_at tid p i l s -> retires tid p i l j s s' -> loop_ok s'.
Proof.
  intros Hl Hh [Hc He Hev _ _ Ht Hp Hd _]. pose proof (head_in_flight _ _ _ _ _ Hl Hh) as Hf.
  destruct Hl as [[_ Hpr Hz] Hcalm Hsk _]. split; [split; [done| |done]| | |by rewrite Hf].
  - intros tid'. rewrite Hp. apply Hpr.
  - intros tid' Ha. destruct (Hcalm tid' Ha) as (c & Hc' & ? & ?).
    destruct (same_thread_ok _ _ _ (Ht tid') Hc') as (c' & ? & Hs). exists c'.
    by rewrite (st_trap _ _ Hs), (st_tc _ _ Hs).
  - intros q x Hq. rewrite He, Hd. destruct (decide (q = p)) as [->|Hne].
    + rewrite lookup_insert_eq. intros [= <-]. destruct (ev_identity _ _ Hev) as (_ & _ & Hs).
      unfold DynInst.isSquashAfter. rewrite <- Hs. eapply Hsk; [done|apply Hh].
    + rewrite lookup_insert_ne by done. by apply Hsk.
Qed.

Lemma retires_moved tid p i l j s s' a :
  head_at tid p i l s -> retires tid p i l j s s' -> act_ok (log a s') a ->
  (forall tid', left_of tid' a = if tid =? tid' then Some p else None) -> moved s (log a s') [a].
Proof.
  intros [_ Hq Hi _] [_ He Hev Hqs _ _ _ _ Ht] Ha Hleft. split; simpl.
  - by rewrite Ht.
  - intros tid'. unfold left. simpl. rewrite Hleft. change (rob_of (log a s')) with (rob_of s').
    rewrite Hqs. destruct (Z.eqb_spec tid tid') as [->|Hne]; simpl; [by rewrite decide_True|by rewrite decide_False].
  - change (heap_of (log a s')) with (heap_of s'). rewrite He. by eapply keeps_insert.
  - intros q Hnq. change (heap_of (log a s')) with (heap_of s'). rewrite He. apply lookup_insert_ne.
    intros ->. apply (Hnq tid). rewrite Hq. set_solver.
  - by constructor.
Qed.

Lemma retired_status st i :
  DynInst.has_status st (retired i)
  = bool_decide (st = DynInst.Committed) || negb (bool_decide (st = DynInst.RobEntry)) && DynInst.has_status st i.
Proof.
  unfold retired, DynInst.setCommitted, DynInst.clearInROB.
  by rewrite DynInst.has_set_status, DynInst.has_reset_status.
Qed.

Lemma retireHead_retires tid p i l s :
  core_ok P cpu (core s) -> head_at tid p i l s ->
  exists h r, ROB.retireHead cpu tid (heap_of s) (rob_of s) = Ok (p, h, r)
    /\ retires tid p i l (retired i) s (with_rob h r s).
Proof.
  intros Hok Hh. destruct (retireHead_ok _ _ _ _ _ Hok Hh) as (h & r & Hrun & Hok' & -> & Hn & Hq).
  eexists _, _. split; [done|]. split; try done; [apply retired_evolves|]. intros. apply same_thread_refl.
Qed.

Lemma drop_head_ok tid p i l s :
  loop_ok s -> head_at tid p i l s -> DynInst.isSquashed i = true ->
  exists s', drop_head cpu p tid s = Ok s' /\ moved s s' [Drop tid p] /\ loop_ok s'
    /\ ROB.numInstsInROB (rob_of s') = ROB.numInstsInROB (rob_of s) - 1.
Proof.
  intros Hl Hh Hsq. pose proof (sg_core _ (lp_stage _ Hl)) as Hok. pose proof (head_tid _ _ _ _ _ Hok Hh) as Htid.
  destruct (retireHead_retires _ _ _ _ _ Hok Hh) as (h & r & Hrun & Hrt). unfold drop_head. rewrite Hrun. simpl.
  destruct (hd_thread _ _ _ _ _ Hh) as (c & Hc & _).
  destruct (quiet_update tid (set_changed true) c (log (Drop tid p) (with_rob h r s))) as (s2 & Hs2 & Hq2 & _); [done|by intros []|].
  exists s2. split; [done|].
  assert (moved s (log (Drop tid p) (with_rob h r s)) [Drop tid p]) as Hm.
  { eapply retires_moved; [done|done| |done]. eexists. split.
    - change (heap_of (log (Drop tid p) (with_rob h r s))) with (heap_of (with_rob h r s)).
      rewrite (rt_heap _ _ _ _ _ _ _ Hrt). apply lookup_insert_eq.
    - split_and!; [done| |]; unfold DynInst.isInROB, DynInst.isSquashed in *; by rewrite retired_status. }
  pose proof (retires_loop _ _ _ _ _ _ _ Hl Hh Hrt) as Hl1.
  assert (loop_ok (log (Drop tid p) (with_rob h r s))) as Hl2 by (by destruct Hl1 as [[]]).
  split_and!; [|by eapply quiet_loop|rewrite (q_rob _ _ Hq2); apply Hrt].
  rewrite <- (app_nil_r [Drop tid p]). eapply moved_trans; [apply Hl2|done|by apply quiet_moved|done].
Qed.

(** ** Committing the head *)

(** The stage worked on the head in place. *)
Lemma write_moved tid p i l j s :
  core_ok P cpu (core s) -> head_at tid p i l s -> evolves i j -> DynInst.isInROB j = DynInst.isInROB i ->
  moved s (write_inst p j s) [] /\ core_ok P cpu (core (write_inst p j s)).
Proof.
  intros Hok Hh Hev Hr. split; [|by eapply write_ok; [|apply Hh|..]]. split; try done.
  - simpl. by rewrite app_nil_r.
  - eapply keeps_insert; [apply Hh|done].
  - intros q Hq. apply lookup_insert_ne. intros ->. apply (Hq tid). rewrite (hd_queue _ _ _ _ _ Hh). set_solver.
Qed.

(** An instruction that is not executed stays, and nothing is retired. *)
Lemma signal_head_ok tid p i l n s :
  loop_ok s -> head_at tid p i l s -> DynInst.isSquashed i = false -> DynInst.isExecuted i = false ->
  exists s', signal_head w p i n s = Ok s' /\ moved s s' [] /\ stage_ok s'.
Proof.
  intros Hl Hh Hsq Hex. pose proof (sg_core _ (lp_stage _ Hl)) as Hok.
  pose proof (head_tid _ _ _ _ _ Hok Hh) as Htid. destruct (hd_thread _ _ _ _ _ Hh) as (c & Hc & Hst).
  unfold signal_head. rewrite Htid.
  destruct (quiet_update tid (fun c => set_funcExeInst (funcExeInst c - 1) c) c s) as (s1 & -> & Hq1 & Hc1);
    [done|by intros []|]. simpl.
  destruct (fit_ready _ (core_insts _ _ _ Hok _ _ (hd_inst _ _ _ _ _ Hh)) (hd_ready _ _ _ _ _ Hh)) as [?|[?| ->]];
    [congruence..|].
  destruct ((0 <? n) || hasStoresToWB w tid).
  { exists s1. split_and!; [done|by apply quiet_moved|]. eapply quiet_stage; [done|apply Hl]. }
  destruct (quiet_update tid (fun c => set_info (set_nonSpec (DynInst.seqNum i) (commitInfo c)) c) _ s1 Hc1)
    as (s2 & Hs2 & Hq2 & Hc2); [by intros []|].
  unfold tell at 1. rewrite Hs2. simpl.
  assert (quiet s s2) as Hq by by etransitivity.
  assert (head_at tid p i l s2) as Hh2.
  { destruct Hh. split; rewrite ?(q_rob _ _ Hq), ?(q_heap _ _ Hq); try done. eexists. by split. }
  destruct (write_moved tid p i l (DynInst.clearCanCommit i) s2) as [Hm Hok2];
    [eapply quiet_core; done|done|by apply (evolves_reset DynInst.CanCommit)| |].
  { unfold DynInst.isInROB, DynInst.clearCanCommit. by rewrite DynInst.has_reset_status. }
  set (s3 := write_inst _ _ s2) in *.
  assert (stage_ok s3) as Hst3.
  { split; [done| |by eapply zero_active]. simpl. rewrite (q_prio _ _ Hq). apply Hl. }
  assert (moved s s3 []) as Hm3.
  { change (@nil Action) with (@nil Action ++ []). eapply moved_trans; [by eapply quiet_core|by apply quiet_moved|done|done]. }
  destruct (DynInst.isLoad i && DynInst.strictlyOrdered i); [|by exists s3].
  destruct (quiet_update tid (fun c => set_info (set_strictlyOrdered p (commitInfo c)) c) _ s3 Hc2)
    as (s4 & Hs4 & Hq4 & _); [by intros []|].
  exists s4. split_and!; [done| |by eapply quiet_stage].
  change (@nil Action) with (@nil Action ++ []). eapply moved_trans; [done|done|by apply quiet_moved|done].
Qed.

(** The trap of a faulting head: older instructions are gone, stores are out. *)
Lemma trap_head_ok tid p i l f n s :
  loop_ok s -> chosen tid s -> head_at tid p i l s -> DynInst.isSquashed i = false ->
  DynInst.isExecuted i = true -> DynInst.fault i <> None -> 0 <= n ->
  exists s' acts, trap_head w f p i n s = Ok s' /\ moved s s' acts /\ stage_ok s' /\ committed acts = O
    /\ (existsb is_trap acts = true -> n = 0).
Proof.
  intros Hl [Ha (c & Hc & Hm)] Hh Hsq Hex Hf Hn. pose proof (sg_core _ (lp_stage _ Hl)) as Hok.
  pose proof (head_tid _ _ _ _ _ Hok Hh) as Htid. unfold trap_head. rewrite Htid.
  destruct (hasStoresToWB w tid) eqn:Hst; simpl.
  { exists s, []. split_and!; [done|apply moved_refl|apply Hl|done..]. }
  destruct (Z.ltb_spec 0 n); [exists s, []; split_and!; [done|apply moved_refl|apply Hl|done..]|].
  destruct (write_moved tid p i l (DynInst.setCompleted i) s) as [Hmv Hok1];
    [done|done|by apply (evolves_set DynInst.Completed)| |].
  { unfold DynInst.isInROB, DynInst.setCompleted. by rewrite DynInst.has_set_status. }
  set (s1 := write_inst _ _ s) in *. change (thread tid s1) with (thread tid s). rewrite Hc. simpl.
  destruct (lp_calm _ Hl tid Ha) as (c' & Hc' & Hts & Htc). assert (c' = c) as -> by congruence.
  pose proof (core_traps _ _ _ Hok _ _ Hc) as Htr. rewrite (no_quiet _ Htr Htc). simpl.
  set (c1 := set_noSquashFromTC true c). set (s2 := log _ _).
  assert (thread tid s2 = Ok c1) as Hc2.
  { change (thread tid (put tid c1 s1) = Ok c1). by rewrite (stage_thread_put tid c _ s1), decide_True. }
  set (g := fun c : CThread => set_status TrapPending (set_noSquashFromTC false c)).
  destruct (update_run tid g c1 s2 Hc2) as [-> Hc3]. simpl. unfold generateTrapEvent.
  set (s3 := log _ (put tid (g c1) s2)).
  destruct (update_run tid (set_trapPending true) (g c1) s3 Hc3) as [-> Hc4].
  set (c4 := set_trapPending true (g c1)) in *.
  assert (squashAfterInst c = None) as Haft.
  { apply no_after; [done|left]. unfold may_commit in Hm. by destruct (commitStatus c). }
  assert (core_ok P cpu (Commit.put tid c4 (core s1))) as Hcore.
  { eapply core_set; [done|exact Hc| |].
    - split; simpl; try done; [congruence|apply Htr].
    - right. intros th Hth. apply (core_status _ _ _ Hok _ _ _ Hc Hth). unfold may_commit in Hm.
      by destruct (commitStatus c). }
  eexists _, [Trap f tid (Some p); ScheduleTrap tid]. split_and!; [done| | |done|lia].
  - split; simpl.
    + by rewrite <- app_assoc.
    + intros tid'. apply (mv_queue _ _ _ Hmv).
    + apply (mv_keeps _ _ _ Hmv).
    + apply (mv_frame _ _ _ Hmv).
    + constructor; [|by constructor]. exists (DynInst.setCompleted i), l, c4.
      split_and!; try done.
      * apply (hd_queue _ _ _ _ _ Hh).
      * apply lookup_insert_eq.
      * unfold DynInst.isExecuted, DynInst.setCompleted in *. by rewrite DynInst.has_set_status.
      * unfold DynInst.isSquashed, DynInst.setCompleted in *. by rewrite DynInst.has_set_status.
  - split; simpl; [by rewrite !commit_put_put|apply Hl|by eapply zero_active].
Qed.

(** An instruction that is done, before and after it leaves the buffer. *)
Definition done_inst (i : DynInst.t) : Prop :=
  DynInst.isSquashed i = false /\ DynInst.isExecuted i = true /\ DynInst.fault i = None
  /\ (DynInst.isStore i = true \/ DynInst.isCompleted i = true).

Lemma done_retired i : done_inst i -> done_inst (retired i).
Proof.
  intros (? & ? & ? & ?). unfold done_inst, DynInst.isSquashed, DynInst.isExecuted, DynInst.isCompleted in *.
  by rewrite !retired_status.
Qed.

Lemma retire_head_ok tid p i l s :
  core_ok P cpu (core s) -> head_at tid p i l s ->
  exists s', retire_head cpu p i s = Ok s' /\ retires tid p i l (retired i) s s'.
Proof.
  intros Hok Hh. pose proof (head_tid _ _ _ _ _ Hok Hh) as Htid.
  destruct (fit_htm _ (core_insts _ _ _ Hok _ _ (hd_inst _ _ _ _ _ Hh))) as [Hno _].
  destruct (retireHead_retires _ _ _ _ _ Hok Hh) as (h & r & Hrun & Hrt).
  unfold retire_head. rewrite Hno, Htid. simpl. rewrite Hrun. simpl.
  destruct (DynInst.isStore i || DynInst.isAtomic i); [|by eexists].
  destruct (hd_thread _ _ _ _ _ Hh) as (c & Hc & _).
  destruct (quiet_update tid (set_committedStores true) c (with_rob h r s)) as (s1 & Hs1 & Hq & _);
    [done|by intros []|]. exists s1. split; [done|by eapply retires_quiet].
Qed.

(** A write of the stage before the head leaves shows in what leaves. *)
Lemma retires_write tid p i j l k s s' :
  head_at tid p i l s -> evolves i j -> retires tid p j l k (write_inst p j s) s' -> retires tid p i l k s s'.
Proof.
  intros Hh Hev [H1 H2 H3 H4 H5 H6 H7 H8 H9]. split; try done.
  - rewrite H2. apply insert_insert_eq.
  - by etransitivity.
Qed.

(** The three outcomes for the head of the buffer. *)
Lemma commitHead_ok tid p i l n s :
  loop_ok s -> chosen tid s -> head_at tid p i l s -> DynInst.isSquashed i = false -> 0 <= n ->
  exists s', (commitHead cpu w p n s = Ok (s', false)
      /\ exists acts, moved s s' acts /\ stage_ok s' /\ committed acts = O
         /\ (existsb is_trap acts = true -> n = 0))
    \/ (commitHead cpu w p n s = Ok (s', true)
        /\ exists j, retires tid p i l j s s' /\ done_inst j /\ DynInst.isInROB j = false
             /\ DynInst.isCommitted j = true).
Proof.
  intros Hl Hch Hh Hsq Hn. pose proof (sg_core _ (lp_stage _ Hl)) as Hok.
  unfold commitHead. rewrite (proj2 (deref_Ok _ _ _) (hd_inst _ _ _ _ _ Hh)). simpl.
  destruct (DynInst.isExecuted i) eqn:Hex; simpl.
  2: { destruct (signal_head_ok _ _ _ _ n s Hl Hh Hsq Hex) as (s' & -> & Hm & Hs'). exists s'. left.
       split; [done|]. by exists []. }
  destruct (fit_htm _ (core_insts _ _ _ Hok _ _ (hd_inst _ _ _ _ _ Hh))) as (_ & _ & Hno).
  unfold commit_fault. rewrite Hno. simpl. destruct (DynInst.fault i) as [f|] eqn:Hf; simpl.
  { destruct (trap_head_ok tid p i l f n s) as (s' & acts & -> & Hm & Hs' & Hc & Ht); try done; [congruence|].
    exists s'. left. split; [done|]. by exists acts. }
  set (j := if DynInst.isStore i then i else DynInst.setCompleted i).
  assert (evolves i j) as Hev by (subst j; case_match; [done|by apply (evolves_set DynInst.Completed)]).
  assert (DynInst.isInROB j = DynInst.isInROB i) as Hr.
  { subst j. case_match; [done|]. unfold DynInst.isInROB, DynInst.setCompleted. by rewrite DynInst.has_set_status. }
  destruct (write_moved tid p i l j s Hok Hh Hev Hr) as [_ Hok1].
  assert (readied : DynInst.readyToCommit j = true).
  { pose proof (hd_ready _ _ _ _ _ Hh) as Hrdy. subst j. case_match; [done|].
    unfold DynInst.readyToCommit, DynInst.setCompleted in *. by rewrite DynInst.has_set_status. }
  destruct (retire_head_ok tid p j l (write_inst p j s) Hok1) as (s' & -> & Hrt).
  { destruct Hh as [? ? ? ?]. split; try done. apply lookup_insert_eq. }
  simpl. exists s'. right. split; [done|]. exists (retired j).
  split_and!; [by eapply retires_write| | |].
  - apply done_retired. subst j. unfold done_inst, DynInst.isSquashed, DynInst.isExecuted, DynInst.isCompleted in *.
    destruct (DynInst.isStore i) eqn:Hstr; [by auto|]. unfold DynInst.setCompleted.
    rewrite !DynInst.has_set_status. auto.
  - unfold DynInst.isInROB. by rewrite retired_status.
  - unfold DynInst.isCommitted. by rewrite retired_status.
Qed.

(** ** After a commit *)

(** Only the choice of what to squash may have changed. *)
Record unmoved s s' : Prop := {
  um_heap : heap_of s' = heap_of s;
  um_rob : rob_of s' = rob_of s;
  um_drain : drainPending s' = drainPending s
}.

#[global] Instance unmoved_preorder : PreOrder unmoved.
Proof. split; [done|]. intros s1 s2 s3 [] []. split; congruence. Qed.

Lemma quiet_unmoved s s' : quiet s s' -> unmoved s s'.
Proof. by intros []. Qed.

(** The thread of an instruction that has just been committed. *)
Definition after_at tid (p : DynInstPtr) s : Prop :=
  exists c, thread tid s = Ok c /\ commitStatus c <> ROBSquashing /\ commitStatus c <> TrapPending
    /\ (squashAfterInst c = None \/ squashAfterInst c = Some p).

Lemma chosen_after tid p s : loop_ok s -> chosen tid s -> after_at tid p s.
Proof.
  intros Hl [Ha (c & Hc & Hm)]. exists c. unfold may_commit in Hm.
  assert (squashAfterInst c = None) as Haft.
  { apply no_after; [exact (core_traps _ _ _ (sg_core _ (lp_stage _ Hl)) _ _ Hc)|left].
    by destruct (commitStatus c). }
  rewrite Haft. split_and!; [done|by destruct (commitStatus c)..|by left].
Qed.

Lemma quiet_after tid p s s' : quiet s s' -> after_at tid p s -> after_at tid p s'.
Proof.
  intros Hq (c & Hc & H1 & H2 & H3). destruct (same_thread_ok _ _ _ (q_thread _ _ Hq tid) Hc) as (c' & Hc' & Hs).
  exists c'. by rewrite (st_status _ _ Hs), (st_after _ _ Hs).
Qed.

Lemma quiet_chosen tid s s' : quiet s s' -> chosen tid s -> chosen tid s'.
Proof.
  intros Hq [Ha (c & Hc & H1)]. split; [done|].
  destruct (same_thread_ok _ _ _ (q_thread _ _ Hq tid) Hc) as (c' & Hc' & Hs).
  exists c'. unfold may_commit. by rewrite (st_status _ _ Hs).
Qed.

Lemma squashAfter_ok tid p s :
  loop_ok s -> instList_empty w = false -> tid ∈ BaseCPU.activeThreads cpu -> after_at tid p s ->
  exists s', squashAfter tid p s = Ok s' /\ loop_ok s' /\ after_at tid p s' /\ unmoved s s'
    /\ trace s' = trace s.
Proof.
  intros Hl Hf Ha (c & Hc & Hs1 & Hs2 & Haft). pose proof (sg_core _ (lp_stage _ Hl)) as Hok.
  pose proof (core_traps _ _ _ Hok _ _ Hc) as Htr.
  destruct (lp_calm _ Hl tid Ha) as (c' & Hc' & Hts & Htc). assert (c' = c) as -> by congruence.
  destruct (no_trap _ Htr Hs2) as [Hfl Htp].
  unfold squashAfter. rewrite Hc. simpl.
  assert (match squashAfterInst c with None => true | Some q => q =? p end = true) as ->
    by (destruct Haft as [-> | ->]; [done|apply Z.eqb_refl]).
  set (c1 := set_squashAfterInst _ _). eexists. split; [done|].
  assert (forall tid', thread tid' (put tid c1 s) = if decide (tid' = tid) then Ok c1 else thread tid' s) as Hput
    by (intros; by eapply stage_thread_put).
  split_and!; [|exists c1; rewrite Hput, decide_True by done; split_and!; try done; by right|done|done].
  destruct Hl as [[_ Hpr Hz] Hcalm Hsk _]. split; [split; [|done..]| |done|by rewrite Hf].
  - eapply core_set; [done|exact Hc| |right; intros th Hth; by apply (core_status _ _ _ Hok _ _ _ Hc Hth)].
    split; simpl; rewrite ?Hts, ?Htc, ?Hfl, ?Htp; try done; [|apply Htr].
    rewrite (no_quiet _ Htr Htc). done.
  - intros tid' Ha'. rewrite Hput. case_decide; [|by apply Hcalm]. by exists c1.
Qed.

Lemma drain_after_ok tid p s :
  loop_ok s -> instList_empty w = false -> tid ∈ BaseCPU.activeThreads cpu -> after_at tid p s ->
  exists s' acts, drain_after w p tid s = Ok s' /\ loop_ok s' /\ after_at tid p s' /\ unmoved s s'
    /\ trace s' = trace s ++ acts /\ (acts = [] \/ acts = [CommitDrained tid])
    /\ (drainPending s = false -> s' = s).
Proof.
  intros Hl Hf Ha Haft. unfold drain_after.
  assert (exists s' acts, Ok s = Ok s' /\ loop_ok s' /\ after_at tid p s' /\ unmoved s s'
    /\ trace s' = trace s ++ acts /\ (acts = [] \/ acts = [CommitDrained tid])
    /\ (drainPending s = false -> s' = s)) as Hsame.
  { exists s, []. split_and!; try done; [by rewrite app_nil_r|by left]. }
  destruct (drainPending s) eqn:Hd; [|done]. pose proof Haft as (c & Hc & _). rewrite Hc. simpl.
  destruct (microPC_0 w p && _ && _); [|done].
  destruct (squashAfter_ok tid p s Hl Hf Ha Haft) as (s1 & -> & Hl1 & Ha1 & Hu1 & Ht1). simpl.
  eexists _, [CommitDrained tid]. split_and!; [done| |done| |by simpl; rewrite Ht1|by right|done].
  - destruct Hl1 as [[]]. by split.
  - by destruct Hu1.
Qed.

Lemma conditionalSquash_ok tid s :
  loop_ok s -> tid ∈ BaseCPU.activeThreads cpu -> (exists c, thread tid s = Ok c /\ may_commit c = true) ->
  exists s', conditionalSquash tid s = Ok s' /\ stage_ok s' /\ unmoved s s' /\ trace s' = trace s.
Proof.
  intros Hl Ha (c & Hc & Hm). pose proof (sg_core _ (lp_stage _ Hl)) as Hok.
  pose proof (core_traps _ _ _ Hok _ _ Hc) as Htr.
  destruct (lp_calm _ Hl tid Ha) as (c' & Hc' & Hts & Htc). assert (c' = c) as -> by congruence.
  assert (commitStatus c <> TrapPending /\ commitStatus c <> SquashAfterPending /\ commitStatus c <> ROBSquashing)
    as (Hs1 & Hs2 & Hs3) by (unfold may_commit in Hm; by destruct (commitStatus c)).
  destruct (no_trap _ Htr Hs1) as [Hfl Htp]. pose proof (no_after c Htr (or_introl Hs2)) as Haft.
  unfold conditionalSquash. rewrite Hc. simpl. rewrite Htp, (no_quiet _ Htr Htc). simpl.
  unfold cpu_squashFromTC. destruct (update_run tid (set_noSquashFromTC true) c s Hc) as [-> Hc1]. simpl.
  unfold generateTCEvent. rewrite Hc1. simpl. rewrite Hfl. simpl. eexists. split; [done|].
  split_and!; [|done..]. destruct Hl as [[_ Hpr Hz] _ _ _]. split; simpl; [|done..]. rewrite commit_put_put.
  eapply core_set; [done|exact Hc| |right; intros th Hth; by apply (core_status _ _ _ Hok _ _ _ Hc Hth)].
  split; simpl; rewrite ?Hts, ?Hfl, ?Htp, ?Haft; try done. apply Htr.
Qed.

Lemma loop_log a s : loop_ok s -> loop_ok (log a s).
Proof. intros [[]]. by split. Qed.

(** Without transactions the nesting check passes and counts nothing. *)
Lemma check_htm_ok i s c :
  core_ok P cpu (core s) -> thread (DynInst.threadNumber i) s = Ok c -> inst_fit i ->
  check_htm i s = Ok s.
Proof.
  intros Hok Hc [_ _ _ (H1 & H2 & H3)]. unfold check_htm, executingHtmTransaction. rewrite H1, H2, H3. simpl.
  rewrite Hc. simpl. pose proof (tr_htm _ (core_traps _ _ _ Hok _ _ Hc)).
  destruct (_ =? InvalidThreadID); simpl; [done|]. by destruct (Z.ltb_spec (htmStops c) (htmStarts c)); [lia|].
Qed.

(** The bookkeeping of a committed instruction, up to what it may squash. *)
Lemma bookkeeping_ok tid i s c :
  thread tid s = Ok c ->
  exists s', (let* s := update tid (set_changed true) s in
              let* s := tell tid (set_done (DynInst.seqNum i)) s in
              let s := if tid =? 0 then set_canHandle (negb (DynInst.isDelayedCommit i)) s else s in
              update tid (set_lastCommited (DynInst.seqNum i)) s) = Ok s' /\ quiet s s'.
Proof.
  intros Hc. destruct (quiet_update tid (set_changed true) c s Hc) as (s1 & -> & Hq1 & Hc1); [by intros []|]. simpl.
  destruct (quiet_update tid (fun c => set_info (set_done (DynInst.seqNum i) (commitInfo c)) c) _ s1 Hc1)
    as (s2 & Hs2 & Hq2 & Hc2); [by intros []|]. unfold tell. rewrite Hs2. simpl.
  set (s3 := if tid =? 0 then _ else _).
  assert (quiet s2 s3) as Hq3.
  { subst s3. case_match; [|done]. split; try done. intros. apply same_thread_refl. }
  destruct (same_thread_ok _ _ _ (q_thread _ _ Hq3 tid) Hc2) as (c3 & Hc3 & _).
  destruct (quiet_update tid (set_lastCommited (DynInst.seqNum i)) c3 s3 Hc3) as (s4 & -> & Hq4 & _); [by intros []|].
  exists s4. split; [done|]. by do 3 (etransitivity; [done|]).
Qed.

Lemma pc_events_ok tid p i s :
  loop_ok s -> heap_of s !! p = Some i -> DynInst.threadNumber i = tid ->
  tid ∈ BaseCPU.activeThreads cpu -> after_at tid p s -> (pc_event_skips w p = true -> chosen tid s) ->
  exists s' stop, pc_events w p i s = Ok (s', stop) /\ stage_ok s' /\ unmoved s s' /\ trace s' = trace s
    /\ (stop = false -> s' = s).
Proof.
  intros Hl Hi Htid Ha (c & Hc & _ & Hst & _) Hsk. unfold pc_events. rewrite Htid.
  destruct (onInstBoundary i); [|exists s, false; split_and!; try done; apply Hl].
  destruct (lp_calm _ Hl tid Ha) as (c' & Hc' & _ & Htc). assert (c' = c) as -> by congruence.
  pose proof (core_traps _ _ _ (sg_core _ (lp_stage _ Hl)) _ _ Hc) as Htr.
  destruct (no_trap _ Htr Hst) as [_ Htp]. rewrite Hc. simpl. rewrite (no_quiet _ Htr Htc), Htp. simpl.
  destruct (pc_event_skips w p); [|exists s, false; split_and!; try done; apply Hl].
  destruct (Hsk eq_refl) as (_ & Hch). destruct (conditionalSquash_ok tid s Hl Ha Hch) as (s' & -> & ? & ? & ?).
  simpl. exists s', true. by split_and!.
Qed.

Lemma after_commit_ok tid p i s :
  loop_ok s -> instList_empty w = false -> chosen tid s -> heap_of s !! p = Some i ->
  DynInst.threadNumber i = tid -> done_inst i ->
  exists s' stop acts, after_commit w p s = Ok (s', stop) /\ stage_ok s' /\ (stop = false -> loop_ok s')
    /\ unmoved s s' /\ trace s' = trace s ++ Retire tid p :: acts
    /\ (acts = [] \/ acts = [CommitDrained tid]).
Proof.
  intros Hl Hf Hch Hi Htid (Hsq & Hex & Hflt & _). pose proof Hch as [Ha (c & Hc & _)].
  pose proof (core_insts _ _ _ (sg_core _ (lp_stage _ Hl)) _ _ Hi) as Hfit.
  unfold after_commit. rewrite (proj2 (deref_Ok _ _ _) Hi). simpl. rewrite Htid.
  set (s1 := log _ s). pose proof (loop_log (Retire tid p) s Hl) as Hl1. fold s1 in Hl1.
  rewrite (check_htm_ok i s1 c); [|apply Hl1|by rewrite Htid|done]. simpl.
  destruct (bookkeeping_ok tid i s1 c Hc) as (s5 & Hbook & Hq5).
  destruct (update tid (set_changed true) s1) as [s2|]; [|done]. simpl in *.
  destruct (tell tid (set_done (DynInst.seqNum i)) s2) as [s3|]; [|done]. simpl in *.
  assert (negb (DynInst.isStoreConditional i) || DynInst.isCompleted i || negb (DynInst.readPredicate i) = true) as ->.
  { destruct (DynInst.isStoreConditional i) eqn:Hsc; [|done]. simpl.
    destruct (fit_sc _ Hfit Hsc Hex Hflt) as [-> | ->]; [done|by rewrite orb_true_r]. }
  rewrite Hbook. simpl. clear Hbook.
  pose proof (quiet_loop _ _ Hq5 Hl1) as Hl5. pose proof (quiet_chosen tid _ _ Hq5 Hch) as Hch5.
  assert (exists s6, (if DynInst.isSquashAfter i then squashAfter tid p s5 else Ok s5) = Ok s6 /\ loop_ok s6
    /\ after_at tid p s6 /\ unmoved s5 s6 /\ trace s6 = trace s5 /\ (DynInst.isSquashAfter i = false -> s6 = s5))
    as (s6 & -> & Hl6 & Ha6 & Hu6 & Ht6 & Hs6).
  { pose proof (chosen_after tid p _ Hl5 Hch5) as Ha5. destruct (DynInst.isSquashAfter i).
    - destruct (squashAfter_ok tid p s5 Hl5 Hf Ha Ha5) as (s6 & ? & ? & ? & ? & ?). by exists s6.
    - by exists s5. }
  simpl. destruct (drain_after_ok tid p s6 Hl6 Hf Ha Ha6) as (s7 & acts & -> & Hl7 & Ha7 & Hu7 & Ht7 & Hacts & Hs7).
  simpl. assert (unmoved s s5) as Hu5 by (destruct (quiet_unmoved _ _ Hq5); by split).
  assert (unmoved s s7) as Hu by (etransitivity; [done|by etransitivity]).
  assert (trace s7 = trace s ++ Retire tid p :: acts) as Ht.
  { rewrite Ht7, Ht6, (q_trace _ _ Hq5). simpl. by rewrite <- app_assoc. }
  destruct (pc_events_ok tid p i s7) as (s8 & stop & -> & Hst8 & Hu8 & Ht8 & Hs8); [done| |done|done|done| |].
  { by rewrite (um_heap _ _ Hu). }
  { intros Hskip. destruct (lp_skips _ Hl p i Hskip Hi) as [Hn Hd].
    assert (s6 = s5) as E6 by auto. subst s6. rewrite Hs7; [done|]. by rewrite (q_drain _ _ Hq5). }
  simpl. destruct stop.
  { exists s8, true, acts. split_and!; try done; [by etransitivity|by rewrite Ht8]. }
  rewrite Hs8 in * by done. clear Hs8. destruct (_ && _ && _ && _).
  - destruct (squashAfter_ok tid p s7 Hl7 Hf Ha Ha7) as (s9 & -> & Hl9 & _ & Hu9 & Ht9). simpl.
    exists s9, false, acts. split_and!; try done; [apply Hl9|by etransitivity|by rewrite Ht9].
  - exists s7, false, acts. by split_and!.
Qed.

(** ** One turn *)

(** What a turn does: [n'] instructions are committed in all, and if the loop goes on
    the buffer is shorter. *)
Record turn_ok s (n : Z) s' (n' : Z) (more : bool) (acts : list Action) : Prop := {
  tn_moved : moved s s' acts;
  tn_stage : stage_ok s';
  tn_count : n' = n + Z.of_nat (committed acts) /\ (committed acts <= 1)%nat;
  tn_trap : existsb is_trap acts = true -> n' = 0;
  tn_more : more = true -> loop_ok s' /\ existsb is_trap acts = false
    /\ ROB.numInstsInROB (rob_of s') = ROB.numInstsInROB (rob_of s) - 1
}.

Lemma turn_stops s s' n acts :
  moved s s' acts -> stage_ok s' -> committed acts = O -> existsb is_trap acts = false ->
  turn_ok s n s' n false acts.
Proof. intros Hm Hs Hc Ht. split; try done; [rewrite Hc; split; lia|by rewrite Ht]. Qed.

Lemma chosen_valid tid s : stage_ok s -> chosen tid s -> (tid =? InvalidThreadID) = false.
Proof. intros Hs [Ha _]. pose proof (active_nonneg s tid Hs Ha). apply Z.eqb_neq. unfold InvalidThreadID. lia. Qed.

Lemma ready_head tid s :
  core_ok P cpu (core s) -> chosen tid s ->
  exists b, ROB.isHeadReady tid (heap_of s) (rob_of s) = Ok b
    /\ (b = true -> exists p i l, ROB.readHeadInst tid (heap_of s) (rob_of s) = Ok (Some p) /\ head_at tid p i l s).
Proof.
  intros Hok [Ha (c & Hc & Hm)]. destruct (isHeadReady_ok s tid Hok) as (b & Hb & Hb'); [by rewrite Hc|].
  exists b. split; [done|]. intros (th & p & l & i & Hth & Hl & Hi & Hr & Hrd)%Hb'. exists p, i, l. split; [done|].
  split; try done; [|by unfold queue; rewrite Hth]. exists c. split; [done|]. unfold may_commit in Hm.
  by destruct (commitStatus c).
Qed.

(** The head of the chosen thread. *)
Definition commit_at (tid : Z) (n : Z) s : res (t I * Z * bool) :=
  let* hd := ROB.readHeadInst tid (heap_of s) (rob_of s) in
  match hd with
  | None => Err Undefined
  | Some p =>
      let* i := deref (heap_of s) p in
      let tid' := DynInst.threadNumber i in
      assert! (tid' =? tid) in
      if DynInst.isSquashed i then let* s := drop_head cpu p tid' s in Ok (s, n, true)
      else
        let* s := update tid' (fun c => set_funcExeInst (funcExeInst c + 1) c) s in
        let* (s, commit_success) := commitHead cpu w p n s in
        if (commit_success : bool) then
          let* (s, stop) := after_commit w p s in Ok (s, n + 1, negb stop)
        else Ok (s, n, false)
  end.

Lemma commit_head_turn tid p i l n s :
  loop_ok s -> chosen tid s -> head_at tid p i l s -> DynInst.isSquashed i = false -> 0 <= n ->
  exists s' n' more acts,
    (let* (s, commit_success) := commitHead cpu w p n s in
     if (commit_success : bool) then let* (s, stop) := after_commit w p s in Ok (s, n + 1, negb stop)
     else Ok (s, n, false)) = Ok (s', n', more) /\ turn_ok s n s' n' more acts.
Proof.
  intros Hl Hch Hh Hsq Hn. pose proof (head_tid _ _ _ _ _ (sg_core _ (lp_stage _ Hl)) Hh) as Htid.
  destruct (commitHead_ok tid p i l n s Hl Hch Hh Hsq Hn)
    as (s1 & [[-> (acts & Hm & Hs1 & Hc & Ht)]|[-> (j & Hrt & Hdone & Hr & Hcm)]]); simpl.
  { exists s1, n, false, acts. split; [done|]. split; try done. rewrite Hc. split; lia. }
  pose proof (retires_loop _ _ _ _ _ _ _ Hl Hh Hrt) as Hl1.
  assert (chosen tid s1) as Hch1.
  { destruct Hch as [Ha (c & Hc & Hmc)]. split; [done|].
    destruct (same_thread_ok _ _ _ (rt_thread _ _ _ _ _ _ _ Hrt tid) Hc) as (c' & Hc' & Hs). exists c'.
    unfold may_commit. by rewrite (st_status _ _ Hs). }
  assert (heap_of s1 !! p = Some j) as Hj by (rewrite (rt_heap _ _ _ _ _ _ _ Hrt); apply lookup_insert_eq).
  destruct (ev_identity _ _ (rt_evolves _ _ _ _ _ _ _ Hrt)) as (_ & Htid' & _). rewrite Htid in Htid'.
  destruct (after_commit_ok tid p j s1 Hl1 (head_in_flight _ _ _ _ _ Hl Hh) Hch1 Hj (eq_sym Htid') Hdone)
    as (s2 & stop & acts & -> & Hs2 & Hl2 & Hu & Htr & Hacts). simpl.
  assert (moved s (log (Retire tid p) s1) [Retire tid p]) as Hm.
  { eapply retires_moved; [done|done| |done]. destruct Hdone as (? & ? & ? & ?). exists j. by split_and!. }
  exists s2, (n + 1), (negb stop), (Retire tid p :: acts). split; [done|].
  assert (committed (Retire tid p :: acts) = 1%nat) as Hcnt by by destruct Hacts as [-> | ->].
  assert (existsb is_trap (Retire tid p :: acts) = false) as Hnt by by destruct Hacts as [-> | ->].
  split; [|done|by rewrite Hcnt; split; lia|by rewrite Hnt|].
  - change (Retire tid p :: acts) with ([Retire tid p] ++ acts).
    eapply moved_trans; [apply (sg_core _ (lp_stage _ (loop_log (Retire tid p) _ Hl1)))|done| |done].
    destruct Hu as [Hh2 Hr2 _].
    split; unfold heap_of, rob_of in *; simpl; rewrite ?Hh2, ?Hr2; try done.
    + by rewrite Htr, <- app_assoc.
    + intros tid'. by destruct Hacts as [-> | ->].
    + destruct Hacts as [-> | ->]; by repeat constructor.
  - intros Hmore. split_and!; [apply Hl2; by destruct stop|done|]. rewrite (um_rob _ _ Hu). apply Hrt.
Qed.

Lemma commit_at_ok tid p i l n s :
  loop_ok s -> chosen tid s -> head_at tid p i l s -> 0 <= n ->
  ROB.readHeadInst tid (heap_of s) (rob_of s) = Ok (Some p) ->
  exists s' n' more acts, commit_at tid n s = Ok (s', n', more) /\ turn_ok s n s' n' more acts.
Proof.
  intros Hl Hch Hh Hn Hrd. pose proof (sg_core _ (lp_stage _ Hl)) as Hok.
  pose proof (head_tid _ _ _ _ _ Hok Hh) as Htid.
  unfold commit_at. rewrite Hrd. simpl. rewrite (proj2 (deref_Ok _ _ _) (hd_inst _ _ _ _ _ Hh)). simpl.
  rewrite Htid, Z.eqb_refl. destruct (DynInst.isSquashed i) eqn:Hsq.
  { destruct (drop_head_ok tid p i l s Hl Hh Hsq) as (s' & -> & Hm & Hl' & Hnum). simpl.
    exists s', n, true, [Drop tid p]. split; [done|]. split; try done; [apply Hl'|cbn; split; lia]. }
  destruct Hch as [Ha (c & Hc & Hmc)].
  destruct (quiet_update tid (fun c => set_funcExeInst (funcExeInst c + 1) c) c s Hc) as (s1 & -> & Hq & Hc1);
    [by intros []|]. simpl.
  destruct (commit_head_turn tid p i l n s1) as (s' & n' & more & acts & Hrun & [Hm Hs Hcnt Htrap Hmore]);
    [by eapply quiet_loop|by eapply quiet_chosen; [|split; [|exists c]]| |done|done|].
  { destruct Hh. split; rewrite ?(q_rob _ _ Hq), ?(q_heap _ _ Hq); try done. eexists. split; [done|].
    unfold may_commit in Hmc. simpl. by destruct (commitStatus c). }
  exists s', n', more, acts. split; [done|]. split; try done.
  - change acts with ([] ++ acts). eapply moved_trans; [by eapply quiet_core|by apply quiet_moved|done|done].
  - by rewrite <- (q_rob _ _ Hq).
Qed.

Lemma commit_turn_unfold n s :
  commit_turn P C cpu w n s
  = let* (tid, s) := getCommittingThread P C cpu s in
    let* s := take_interrupt w tid s in
    if tid =? InvalidThreadID then Ok (s, n, false)
    else let* ready := ROB.isHeadReady tid (heap_of s) (rob_of s) in
         if negb ready then Ok (s, n, false) else commit_at tid n s.
Proof. done. Qed.

Lemma interrupted_moved s s' :
  interrupted s s' -> exists acts, moved s s' acts /\ committed acts = O /\ existsb is_trap acts = false.
Proof.
  intros (_ & Hq & Hr & Hh & f & Ht). exists [Trap f 0 None; ScheduleTrap 0]. split_and!; [|done..].
  split; rewrite ?Hr, ?Hh; try done. by repeat constructor.
Qed.

Lemma commit_turn_ok n s :
  loop_ok s -> 0 <= n ->
  exists s' n' more acts, commit_turn P C cpu w n s = Ok (s', n', more) /\ turn_ok s n s' n' more acts.
Proof.
  intros Hl Hn. rewrite commit_turn_unfold.
  destruct (getCommittingThread_ok s (lp_stage _ Hl)) as (tid & s0 & -> & Hch & pl & -> & Hpl). simpl.
  set (s0 := set_priority pl s). assert (loop_ok s0) as Hl0 by (destruct Hl as [[]]; by split).
  assert (tid = InvalidThreadID \/ chosen tid s0) as Hch0 by done.
  assert (forall s' n' more acts, turn_ok s0 n s' n' more acts -> turn_ok s n s' n' more acts) as Hs0.
  { intros s' n' more acts [[? ? ? ? ?] ? ? ? ?]. by split. }
  destruct (take_interrupt_ok tid s0 Hl0 Hch0) as (s1 & -> & Hint). simpl.
  assert (exists acts, moved s0 s1 acts /\ stage_ok s1 /\ committed acts = O /\ existsb is_trap acts = false)
    as (acts0 & Hm0 & Hst1 & Hc0 & Ht0).
  { destruct Hint as [Hq|Hi].
    - exists []. split_and!; [by apply quiet_moved| |done..]. eapply quiet_stage; [done|apply Hl0].
    - destruct (interrupted_moved _ _ Hi) as (acts & ? & ? & ?). exists acts. split_and!; try done. apply Hi. }
  assert (forall m : res (t I * Z * bool), m = Ok (s1, n, false) ->
    exists s' n' more acts, m = Ok (s', n', more) /\ turn_ok s n s' n' more acts) as Hstop.
  { intros m ->. exists s1, n, false, acts0. split; [done|]. apply Hs0. by apply turn_stops. }
  destruct (Z.eqb_spec tid InvalidThreadID) as [|Hne]; [by apply Hstop|].
  destruct Hch0 as [?|Hch0]; [done|].
  destruct Hint as [Hq|(_ & Hempty & _)].
  - destruct (ready_head tid s1) as (b & -> & Hb); [apply Hst1|by eapply quiet_chosen|]. simpl.
    destruct b; simpl; [|by apply Hstop]. destruct Hb as (p & i & l & Hrd & Hh); [done|].
    destruct (commit_at_ok tid p i l n s1) as (s' & n' & more & acts & Hrun & [Hm Hs Hcnt Htrap Hmore]);
      [by eapply quiet_loop|by eapply quiet_chosen|done..|].
    exists s', n', more, acts. split; [done|]. apply Hs0. split; try done.
    + change acts with ([] ++ acts). eapply moved_trans; [apply Hst1|by apply quiet_moved|done|done].
    + by rewrite <- (q_rob _ _ Hq).
  - destruct (core_active _ _ _ _ (sg_core _ Hst1) (proj1 Hch0)) as [c Hc].
    destruct (isHeadReady_ok s1 tid (sg_core _ Hst1)) as (b & -> & Hb); [unfold thread; by rewrite Hc|]. simpl.
    destruct b; simpl; [|by apply Hstop]. destruct Hb as (th & p & l & i & Hth & Hi & _); [done|].
    specialize (Hempty tid). unfold queue in Hempty. by rewrite Hth, Hi in Hempty.
Qed.

(** ** The loop *)

Lemma committed_app a b : committed (a ++ b) = (committed a + committed b)%nat.
Proof. unfold committed. by rewrite List.filter_app, length_app. Qed.

Lemma commit_loop_ok fuel n s :
  loop_ok s -> 0 <= n -> ROB.numInstsInROB (rob_of s) < Z.of_nat fuel ->
  exists s' n' acts, commit_loop P C cpu w fuel n s = Ok (s', n') /\ moved s s' acts /\ stage_ok s'
    /\ n' = n + Z.of_nat (committed acts) /\ n' <= Z.max n (commitWidth C)
    /\ (existsb is_trap acts = true -> n' = 0).
Proof.
  revert n s. induction fuel as [|fuel IH]; intros n s Hl Hn Hfuel.
  { pose proof (rob_count _ _ _ _ (core_rob _ _ _ (sg_core _ (lp_stage _ Hl)))) as Hcnt. unfold rob_of in Hfuel. lia. }
  simpl. destruct (Z.ltb_spec n (commitWidth C)) as [Hw|Hw].
  2: { exists s, n, []. split_and!; [done|apply moved_refl|apply Hl|cbn; lia|lia|done]. }
  destruct (commit_turn_ok n s Hl Hn) as (s1 & n1 & more & a1 & -> & [Hm1 Hs1 [Hn1 Hle1] Ht1 Hmore]). simpl.
  destruct more.
  2: { exists s1, n1, a1. split_and!; try done. lia. }
  destruct (Hmore eq_refl) as (Hl1 & Hnt & Hnum).
  destruct (IH n1 s1) as (s2 & n2 & a2 & -> & Hm2 & Hs2 & Hn2 & Hw2 & Ht2); [done|lia|lia|].
  exists s2, n2, (a1 ++ a2). split_and!; [done| |done| | |].
  - eapply moved_trans; [apply Hl1|done..].
  - rewrite committed_app. lia.
  - lia.
  - by rewrite existsb_app, Hnt.
Qed.

(** The bound of the loop is never reached. *)
Lemma commitInsts_ok s :
  loop_ok s ->
  exists s' n acts, commitInsts P C cpu w s = Ok (s', n) /\ moved s s' acts /\ stage_ok s'
    /\ n = Z.of_nat (committed acts) /\ n <= Z.max 0 (commitWidth C)
    /\ (existsb is_trap acts = true -> n = 0).
Proof.
  intros Hl. apply commit_loop_ok; [done|done|].
  pose proof (rob_count _ _ _ _ (core_rob _ _ _ (sg_core _ (lp_stage _ Hl)))) as Hcnt. unfold rob_of. lia.
Qed.

End facts.
End CommitStageFacts.
