(* ===== verification/CommitCycle.v ===== *)
(** * Cycles of the commit stage, and its histories

    The whole of [tick]: squashes, intake, retirement, completion and status, in any
    sequence with the events from outside. *)

From stdpp Require Import gmap.
From S2P Require Import Prelude.
From S2P Require Import BaseUtil MemCmd Request Packet DynInst Rob RobFacts.
From S2P Require Import RobSafety Commit CommitStage CoreExamples CommitFacts CommitStageFacts.

Local Open Scope Z_scope.
Import HeapFacts VisibleFacts SquashFacts RobInv RobSafety CommitFacts CommitStageFacts.

Module CommitCycle.
Import Commit CommitStage.

Section cycle.
Context {I : Type} `{!BaseInterrupts I}.
Variables (P : ROB.Params) (C : Params) (cpu : BaseCPU.t) (w : Env).
Implicit Types s : t I.

(** ** Squashes *)

(** The state after the squashes of the cycle for the threads in [pre]. *)
Record squashing (pre : list Z) s s' : Prop := {
  sq_stage : stage_ok P cpu s';
  sq_steps : steps_to P cpu (core s) (core s');
  sq_calm : forall tid, tid ∈ pre -> calm_at tid (core s');
  sq_drain : drainPending s' = drainPending s
}.

Lemma stage_core s k : stage_ok P cpu s -> core_ok P cpu k -> stage_ok P cpu (with_core k s).
Proof. intros [_ H2 H3] Hk. by split. Qed.

Lemma squash_step_ok iew n pre tid s s1 :
  squashing pre s s1 -> iew_ok iew (core s) -> tid ∈ BaseCPU.activeThreads cpu ->
  exists n' s2, squash_step P cpu iew (n, s1) tid = Ok (n', s2) /\ squashing (pre ++ [tid]) s s2.
Proof.
  intros [Hst Hsteps Hcalm Hd] Hiew Ha. destruct (core_active _ _ _ _ (sg_core _ _ _ Hst) Ha) as [c Hc].
  unfold squash_step, thread. rewrite Hc. cbn [rbind].
  destruct (squash_thread_ok P cpu iew n (core s1) tid) as (n' & k & -> & [Hk Ho] & Hcalm'); [apply Hst|by rewrite Hc| |].
  { intros t p Hp. apply Hsteps. by apply (Hiew t). }
  simpl. eexists _, _. split; [done|].
  match goal with |- squashing _ _ ?x => set (s2 := x) end.
  assert (core s2 = k) as Hcore by (subst s2; by case_match).
  split; rewrite ?Hcore; [|by eapply steps_to_trans| |subst s2; by case_match].
  - destruct (stage_core s1 k Hst (proj1 Hk)) as [H1 H2 H3].
    subst s2. case_match; [by split|done].
  - intros tid' Hin. destruct (decide (tid' = tid)) as [->|Hne]; [done|].
    destruct (Hcalm tid') as (c' & Hc' & Hcc); [set_solver|]. exists c'. by rewrite Ho.
Qed.

Lemma propagateInterrupt_ok s :
  stage_ok P cpu s -> exists s', propagateInterrupt s = Ok s' /\ quiet s s'.
Proof.
  intros Hs. destruct (core_active _ _ _ _ (sg_core _ _ _ Hs) (sg_zero _ _ _ Hs)) as [c Hc].
  unfold propagateInterrupt, thread. rewrite Hc. simpl. destruct (_ || _); [by exists s|].
  destruct (getInterrupt (intr s)) as [f|]; [|eexists; split; [done|apply quiet_interrupts]].
  destruct (quiet_update 0 (fun c => set_info (set_interruptPending (commitInfo c)) c) c
    (set_interrupts (intr s) (Some f) (avoidQuiesceLiveLock s) s)) as (s1 & Hs1 & Hq & _); [done|by intros []|].
  exists s1. split; [done|]. etransitivity; [apply quiet_interrupts|done].
Qed.

Lemma quiet_same_stage now next s : quiet s (set_stage now next s).
Proof. split; try done. intros. apply same_thread_refl. Qed.

Lemma quiet_squashing s s' : stage_ok P cpu s -> quiet s s' -> squashing [] s s'.
Proof.
  intros Hs Hq. split; [by eapply quiet_stage| |set_solver|apply Hq]. split_and!.
  - eapply quiet_core; [done|apply Hs].
  - intros tid. pose proof (q_thread _ _ Hq tid) as Ht. unfold thread in Ht.
    by destruct (Commit.thread tid (core s)), (Commit.thread tid (core s')).
  - intros tid. change (queue tid (rob_of s') = queue tid (rob_of s)). by rewrite (q_rob _ _ Hq).
  - change (keeps_objects (heap_of s) (heap_of s')). by rewrite (q_heap _ _ Hq).
Qed.

Lemma squashes_ok iew s :
  stage_ok P cpu s -> iew_ok iew (core s) ->
  exists n s', squashes P cpu w iew s = Ok (n, s') /\ squashing (BaseCPU.activeThreads cpu) s s'.
Proof.
  intros Hs Hiew. unfold squashes.
  assert (exists s1, (if FullSystem w && cpu_checkInterrupts w s then propagateInterrupt s else Ok s) = Ok s1
    /\ quiet s s1) as (s1 & -> & Hq).
  { case_match; [by apply propagateInterrupt_ok|by exists s]. }
  simpl.
  destruct (foldM_ind (squash_step P cpu iew) (fun pre '(_, s') => squashing pre s s')
    (BaseCPU.activeThreads cpu) (0, s1)) as ([n s2] & -> & Hs2); [by apply quiet_squashing| |].
  - intros pre tid post [n s2] Hl Hs2.
    destruct (squash_step_ok iew n pre tid s s2 Hs2 Hiew) as (n' & s3 & -> & Hs3); [rewrite Hl; set_solver|].
    by eexists.
  - simpl. eexists _, _. split; [done|]. case_match; [done|]. destruct Hs2 as [[] ? ? ?]. by split.
Qed.

(** ** The rest of the cycle *)

Lemma foldM_quiet (f : t I -> Z -> res (t I)) s :
  (forall s tid, stage_ok P cpu s -> tid ∈ BaseCPU.activeThreads cpu -> exists s', f s tid = Ok s' /\ quiet s s') ->
  stage_ok P cpu s -> exists s', foldM f (BaseCPU.activeThreads cpu) s = Ok s' /\ quiet s s'.
Proof.
  intros Hf Hs. apply (foldM_ind f (fun _ s' => quiet s s')); [done|]. intros pre tid post s1 Hl Hq.
  destruct (Hf s1 tid) as (s2 & -> & Hq2); [by eapply quiet_stage|rewrite Hl; set_solver|].
  eexists. split; [done|]. by etransitivity.
Qed.

Lemma report_step_ok s tid :
  stage_ok P cpu s -> tid ∈ BaseCPU.activeThreads cpu -> exists s', report_step w s tid = Ok s' /\ quiet s s'.
Proof.
  intros Hs Ha. destruct (core_active _ _ _ _ (sg_core _ _ _ Hs) Ha) as [c Hc].
  destruct (core_thread _ _ _ _ _ (sg_core _ _ _ Hs) Hc) as (th & xs & Hth & _).
  unfold report_step, thread, ROB.isEmpty_tid, ROB.numFreeEntries_tid, rob_of. rewrite Hc, Hth. simpl.
  eexists. split; [done|]. eapply quiet_put; [exact Hc|]. by repeat case_match.
Qed.

Lemma head_step_ok s tid :
  stage_ok P cpu s -> tid ∈ BaseCPU.activeThreads cpu -> exists s', head_step s tid = Ok s' /\ quiet s s'.
Proof.
  intros Hs Ha. destruct (core_active _ _ _ _ (sg_core _ _ _ Hs) Ha) as [c Hc].
  destruct (core_thread _ _ _ _ _ (sg_core _ _ _ Hs) Hc) as (th & xs & Hth & Hxs).
  unfold head_step, ROB.isEmpty_tid, rob_of. rewrite Hth. simpl.
  destruct (Z.eqb_spec (ROB.threadEntries th) 0) as [|Hne]; [by exists s|].
  destruct (core_head P cpu (core s) tid th xs) as (p & i & Hrd & Hp); [apply Hs|done|done| |].
  { intros ->. rewrite (th_count _ _ _ _ Hxs) in Hne. done. }
  unfold heap_of. rewrite Hrd. simpl. rewrite (proj2 (deref_Ok _ _ _) Hp). simpl.
  eexists. split; [done|]. case_match; [apply quiet_same_stage|done].
Qed.

Lemma updateStatus_step_ok s tid :
  stage_ok P cpu s -> tid ∈ BaseCPU.activeThreads cpu -> exists s', updateStatus_step s tid = Ok s' /\ quiet s s'.
Proof.
  intros Hs Ha. destruct (core_active _ _ _ _ (sg_core _ _ _ Hs) Ha) as [c Hc].
  unfold updateStatus_step, thread. rewrite Hc. simpl. eexists. split; [done|].
  assert (quiet s (put tid (set_changed false c) s)) as Hq by by eapply quiet_put.
  repeat case_match; try done; (etransitivity; [exact Hq|apply quiet_same_stage]).
Qed.

Lemma updateStatus_ok s :
  stage_ok P cpu s -> exists s', updateStatus cpu s = Ok s' /\ stage_ok P cpu s' /\ drainPending s' = drainPending s.
Proof.
  intros Hs. unfold updateStatus.
  destruct (foldM_quiet updateStatus_step s updateStatus_step_ok Hs) as (s1 & -> & Hq). simpl.
  eexists. split; [done|]. destruct (quiet_stage _ _ _ _ Hq Hs) as [H1 H2 H3].
  rewrite <- (q_drain _ _ Hq). repeat case_match; (split; [by split|done]).
Qed.

(** What the other parts promise for a cycle that starts in [s]. *)
Record cycle_ok (iew : Z -> IEWThread) (fromRename completed : list DynInstPtr) s : Prop := {
  cy_iew : iew_ok iew (core s);
  cy_completed : Forall (completes (heap_of s)) completed;
  cy_skips : forall p i, pc_event_skips w p = true -> heap_of s !! p = Some i ->
    DynInst.isSquashAfter i = false /\ drainPending s = false;
  cy_idle : instList_empty w = true ->
    (forall tid, queue tid (rob_of s) = []) /\ take (renameWidth C) fromRename = [];
  cy_arrive : forall k n s1, tick_start P cpu (core s) = Ok k ->
    squashes P cpu w iew (with_core k (set_stage (status s) Inactive s)) = Ok (n, s1) ->
    all_arrive P (take (renameWidth C) fromRename) (core s1)
}.

(** The loop can start after intake. *)
Lemma intake_loop iew fromRename completed s s0 s1 k :
  cycle_ok iew fromRename completed s -> keeps_objects (heap_of s) (heap_of s0) ->
  same_queues (rob_of s) (rob_of s0) -> drainPending s0 = drainPending s ->
  squashing (BaseCPU.activeThreads cpu) s0 s1 ->
  foldM (getInst P) (take (renameWidth C) fromRename) (core s1) = Ok k ->
  core_ok P cpu k -> keeps_objects (insts (core s1)) (insts k) ->
  (forall tid, calm_at tid (core s1) -> calm_at tid k) ->
  loop_ok P cpu w (with_core k s1).
Proof.
  intros Hcy Hk0 Hq0 Hd0 [Hst Hsteps Hcalm Hd] Hget Hok Hk Hck. pose proof Hst as [_ Hp Hz].
  split; [by apply stage_core| | |].
  - intros tid Ha. destruct (Hck tid (Hcalm tid Ha)) as (c & Hc & H1 & H2 & _). by exists c.
  - intros p i Hsk Hi. destruct (proj2 (Hk p) _ Hi) as (i1 & Hi1 & Hev1).
    destruct Hsteps as (_ & _ & _ & Hks). destruct (proj2 (Hks p) _ Hi1) as (i0 & Hi0 & Hev0).
    destruct (proj2 (Hk0 p) _ Hi0) as (j & Hj & Hev).
    destruct (cy_skips _ _ _ _ Hcy p j Hsk Hj) as [Hs Hdr]. split.
    + destruct (ev_identity _ _ Hev) as (_ & _ & E), (ev_identity _ _ Hev0) as (_ & _ & E0),
        (ev_identity _ _ Hev1) as (_ & _ & E1). unfold DynInst.isSquashAfter in *. congruence.
    + simpl. congruence.
  - intros He. destruct (cy_idle _ _ _ _ Hcy He) as [Hqs Hr]. rewrite Hr in Hget. simpl in Hget. simplify_res. split.
    + intros tid. destruct Hsteps as (_ & _ & Hqq & _). change (queue tid (rob (core s1)) = []).
      rewrite Hqq. change (queue tid (rob_of s0) = []). by rewrite Hq0.
    + intros c Hc. destruct (Hcalm 0 Hz) as (c' & Hc' & _ & _ & Ha). unfold thread in Hc. simpl in Hc.
      rewrite Hc' in Hc. by simplify_res.
Qed.

Lemma commit_ok iew fromRename completed s s0 :
  cycle_ok iew fromRename completed s -> stage_ok P cpu s0 -> keeps_objects (heap_of s) (heap_of s0) ->
  same_queues (rob_of s) (rob_of s0) -> drainPending s0 = drainPending s -> iew_ok iew (core s0) ->
  (forall n s1, squashes P cpu w iew s0 = Ok (n, s1) -> all_arrive P (take (renameWidth C) fromRename) (core s1)) ->
  exists s', commit P C cpu w iew fromRename s0 = Ok s' /\ stage_ok P cpu s'
    /\ keeps_objects (heap_of s0) (heap_of s').
Proof.
  intros Hcy Hs0 Hk0 Hq0 Hd0 Hiew Harr. unfold commit.
  destruct (squashes_ok iew s0 Hs0 Hiew) as (n & s1 & Hrun & Hsq). rewrite Hrun. simpl.
  pose proof Hsq as [Hst1 (_ & _ & _ & Hk1) _ _].
  set (m := if n =? ROB.numThreads P then _ else _).
  assert (exists s2, m = Ok s2 /\ stage_ok P cpu s2 /\ keeps_objects (heap_of s1) (heap_of s2)) as (s2 & -> & Hs2 & Hk2).
  { subst m. destruct (n =? ROB.numThreads P); [by exists s1|]. unfold getInsts.
    destruct (getInsts_ok P cpu (take (renameWidth C) fromRename) (core s1)) as (k & Hget & Hok & Hk & Hck);
      [apply Hst1|by eapply Harr|]. rewrite Hget. simpl.
    pose proof (intake_loop _ _ _ _ _ _ _ Hcy Hk0 Hq0 Hd0 Hsq Hget Hok Hk Hck) as Hl.
    destruct (commitInsts_ok P C cpu w (with_core k s1) Hl) as (s2 & n2 & acts & -> & Hm & Hs2 & _). simpl.
    exists s2. split_and!; [done..|]. etransitivity; [exact Hk|exact (mv_keeps _ _ _ _ _ Hm)]. }
  simpl. destruct (foldM_quiet (report_step w) s2 report_step_ok Hs2) as (s3 & -> & Hq3).
  exists s3. split_and!; [done|by eapply quiet_stage|]. rewrite (q_heap _ _ Hq3).
  etransitivity; [exact Hk1|exact Hk2].
Qed.

Lemma tick_ok iew fromRename completed s :
  stage_ok P cpu s -> NoDup (BaseCPU.activeThreads cpu) -> cycle_ok iew fromRename completed s ->
  exists s' sent, tick P C cpu w iew fromRename completed s = Ok (s', sent) /\ stage_ok P cpu s'.
Proof.
  intros Hs Hnd Hcy. unfold tick. set (s0 := set_stage (status s) Inactive s).
  assert (stage_ok P cpu s0) as Hs0 by (eapply quiet_stage; [apply quiet_same_stage|done]).
  destruct (BaseCPU.activeThreads cpu) as [|tid0 tids] eqn:Hact; [by eexists _, _|]. rewrite <- Hact.
  destruct (tick_start_ok P cpu (core s0)) as (k & Hk & Hok & _ & Hq & Hkeep); [apply Hs0|]. rewrite Hk. simpl.
  set (s1 := with_core k s0).
  destruct (commit_ok iew fromRename completed s s1 Hcy) as (s2 & -> & Hs2 & Hk2); [by apply stage_core|done..| | |].
  { intros tid p Hp. apply Hkeep. by apply (cy_iew _ _ _ _ Hcy tid). }
  { intros n s2. by apply (cy_arrive _ _ _ _ Hcy). }
  simpl. destruct (markCompletedInsts_ok P cpu (core s2) completed) as (k3 & sent & -> & Hok3 & _ & _);
    [apply Hs2|by rewrite Hact| |].
  { eapply Forall_impl; [apply (cy_completed _ _ _ _ Hcy)|]. intros p Hp.
    eapply keeps_completes; [|exact Hp]. etransitivity; [exact Hkeep|exact Hk2]. }
  simpl. destruct (foldM_quiet head_step (with_core k3 s2) head_step_ok (stage_core _ _ Hs2 Hok3)) as (s4 & Hs4 & Hq4).
  rewrite Hs4. simpl.
  destruct (updateStatus_ok s4) as (s5 & -> & Hs5 & _); [eapply quiet_stage; [done|by apply stage_core]|]. simpl.
  by eexists _, _.
Qed.

End cycle.

(** ** Histories *)

(** Cycles, the end of a trap's latency, writes through a thread context, the work of
    other stages on an instruction, and requests to drain. *)
Inductive event :=
  | Cycle (w : Env) (iew : Z -> IEWThread) (fromRename completed : list DynInstPtr)
  | TrapFires (tid : Z)
  | ContextWrite (tid : Z)
  | Work (p : DynInstPtr) (j : DynInst.t)
  | Drain
  | DrainResume.

Section history.
Context {I : Type} `{!BaseInterrupts I}.
Variables (P : ROB.Params) (C : Params) (cpu : BaseCPU.t).
Implicit Types s : t I.

Definition run (e : event) s : res (t I) :=
  match e with
  | Cycle w iew fromRename completed =>
      let* (s, _) := tick P C cpu w iew fromRename completed s in Ok s
  | TrapFires tid => processTrapEvent tid s
  | ContextWrite tid => conditionalSquash tid s
  | Work p j => Ok (write_inst p j s)
  | Drain => Ok (drain s)
  | DrainResume => Ok (drainResume s)
  end.

Definition run_all (es : list event) s : res (t I) := foldM (fun s e => run e s) es s.

Definition enabled (e : event) s : Prop :=
  match e with
  | Cycle w iew fromRename completed => cycle_ok P C cpu w iew fromRename completed s
  | TrapFires tid => exists c, thread tid s = Ok c /\ trapInFlight c = true
  | ContextWrite tid => exists c, thread tid s = Ok c /\ squashAfterInst c = None
  | Work p j => exists i, heap_of s !! p = Some i /\ allowed_write i j /\ inst_fit j
  | Drain | DrainResume => True
  end.

Fixpoint all_enabled (es : list event) s : Prop :=
  match es with
  | [] => True
  | e :: es => enabled e s /\ forall s', run e s = Ok s' -> all_enabled es s'
  end.

Lemma stage_set tid c0 c s :
  stage_ok P cpu s -> thread tid s = Ok c0 -> traps_ok c -> commitStatus c = commitStatus c0 ->
  stage_ok P cpu (put tid c s).
Proof.
  intros [H1 H2 H3] Hc Htr Hst. split; [|done..]. eapply core_set; [done|exact Hc|done|].
  destruct (decide (commitStatus c0 = ROBSquashing)) as [He|Hne]; [left; congruence|right].
  intros th Hth. by eapply (core_status _ _ _ H1).
Qed.

Lemma trap_fires_ok tid s c :
  stage_ok P cpu s -> thread tid s = Ok c -> trapInFlight c = true ->
  exists s', processTrapEvent tid s = Ok s' /\ stage_ok P cpu s'.
Proof.
  intros Hs Hc Hfl. destruct (update_run tid (set_trapSquash true) c s Hc) as [Hrun _]. unfold processTrapEvent.
  rewrite Hrun. eexists. split; [done|]. eapply stage_set; [done..| |done].
  pose proof (core_traps _ _ _ (sg_core _ _ _ Hs) _ _ Hc) as Htr. pose proof (tr_flight _ Htr Hfl) as Hst.
  assert (tcSquash c = false) as Htc by (apply not_true_is_false; intros H; by apply (tr_tc _ Htr H)).
  destruct Htr as [_ Htc' _ Hp Hf Hq Ha Hh].
  split; simpl; try done; [intros _; by apply Hp|]. intros Hn. destruct (Ha Hn). congruence.
Qed.

Lemma context_write_ok tid s c :
  stage_ok P cpu s -> thread tid s = Ok c -> squashAfterInst c = None ->
  exists s', conditionalSquash tid s = Ok s' /\ stage_ok P cpu s'.
Proof.
  intros Hs Hc Haft. pose proof (core_traps _ _ _ (sg_core _ _ _ Hs) _ _ Hc) as Htr.
  unfold conditionalSquash. rewrite Hc. simpl.
  destruct (trapPending c) eqn:Htp; simpl; [by eexists|]. destruct (noSquashFromTC c); simpl; [by eexists|].
  unfold cpu_squashFromTC. destruct (update_run tid (set_noSquashFromTC true) c s Hc) as [-> Hc1]. simpl.
  assert (commitStatus c <> TrapPending) as Hst.
  { intros H. apply (tr_pending _ Htr) in H. congruence. }
  destruct (no_trap _ Htr Hst) as [Hfl _]. unfold generateTCEvent. rewrite Hc1. simpl. rewrite Hfl. simpl.
  eexists. split; [done|]. rewrite stage_put_put. eapply stage_set; [done..| |done].
  assert (trapSquash c = false) as Hts by (apply not_true_is_false; intros H; apply (tr_fired _ Htr) in H; congruence).
  destruct Htr. split; simpl; try done; congruence.
Qed.

Lemma work_ok p i j s :
  stage_ok P cpu s -> heap_of s !! p = Some i -> allowed_write i j -> inst_fit j ->
  stage_ok P cpu (write_inst p j s).
Proof.
  intros [[H1 H2 H3 H4 H5] Hp Hz] Hi Hw Hf. split; [|done..]. split; simpl; try done.
  - by eapply write_ok_step.
  - intros q x. destruct (decide (q = p)) as [->|]; [rewrite lookup_insert_eq; congruence|].
    rewrite lookup_insert_ne by done. apply H2.
Qed.

Lemma stage_run_ok e s :
  stage_ok P cpu s -> NoDup (BaseCPU.activeThreads cpu) -> enabled e s ->
  exists s', run e s = Ok s' /\ stage_ok P cpu s'.
Proof.
  intros Hs Hnd. destruct e as [w iew r c|tid|tid|p j| |]; simpl.
  - intros Hcy. destruct (tick_ok P C cpu w iew r c s Hs Hnd Hcy) as (s' & sent & -> & Hs'). simpl. eauto.
  - intros (c & Hc & Hfl). by eapply trap_fires_ok.
  - intros (c & Hc & Haft). by eapply context_write_ok.
  - intros (i & Hi & Hw & Hf). eexists. split; [done|]. by eapply work_ok.
  - intros _. eexists. split; [done|]. by destruct Hs.
  - intros _. eexists. split; [done|]. by destruct Hs.
Qed.

Lemma stage_run_all_ok es s :
  stage_ok P cpu s -> NoDup (BaseCPU.activeThreads cpu) -> all_enabled es s ->
  exists s', run_all es s = Ok s' /\ stage_ok P cpu s'.
Proof.
  intros Hs Hnd. revert s Hs. induction es as [|e es IH]; intros s Hs; simpl; [eauto|].
  intros [He Hes]. destruct (stage_run_ok e s Hs Hnd He) as (s1 & Hrun & Hs1).
  unfold run_all. simpl. rewrite Hrun. simpl. apply IH; auto.
Qed.

(** ** Construction *)

Lemma make_stage_ok h i r s :
  ROB.make P = Ok r -> 0 <= ROB.numEntries P < 2 ^ 32 -> objects_ok h ->
  (forall tid, tid ∈ BaseCPU.activeThreads cpu -> 0 <= tid < ROB.MaxThreads P) ->
  0 ∈ BaseCPU.activeThreads cpu ->
  (commitPolicy C = RoundRobin -> forall tid, 0 <= tid < ROB.numThreads P -> tid ∈ BaseCPU.activeThreads cpu) ->
  CommitStage.make P C h i r = Ok s -> stage_ok P cpu s.
Proof.
  intros Hr Hb Ho Ha Hz Hrr Hm. unfold CommitStage.make in Hm.
  destruct (MaxWidth <? commitWidth C); [done|]. apply ok_inj in Hm as <-.
  destruct (make_shape P r Hr) as (Hf & Hlen & _). split; simpl; [|intros tid|done].
  - assert (forall tid c, Commit.thread tid (Commit.mk h r (repeat new_thread (Z.to_nat (ROB.MaxThreads P)))) = Ok c ->
      c = new_thread) as Hnew.
    { intros tid c. unfold Commit.thread. simpl. destruct (tid <? 0); [done|].
      destruct (repeat _ _ !! _) as [x|] eqn:Hx; [|done]. intros [= <-].
      by apply list_elem_of_lookup_2, list_elem_of_In, repeat_spec in Hx. }
    split; simpl; [by apply make_ok|done| | |].
    + intros tid. unfold Commit.thread, ROB.thread. simpl. destruct (tid <? 0); [done|].
      destruct (decide (Z.to_nat tid < Z.to_nat (ROB.MaxThreads P))%nat) as [Hlt|Hge].
      * destruct (lookup_lt_is_Some_2 (repeat new_thread (Z.to_nat (ROB.MaxThreads P))) (Z.to_nat tid)) as [x ->];
          [by rewrite repeat_length|]. destruct (lookup_lt_is_Some_2 (ROB.threads r) (Z.to_nat tid)) as [y ->]; [lia|done].
      * rewrite !lookup_ge_None_2; [done|lia|rewrite repeat_length; lia].
    + intros tid c ->%Hnew. by split.
    + intros tid c th _ [_ Hth]%thread_Ok _. by destruct (Forall_lookup_1 _ _ _ _ Hf Hth) as (_ & _ & _ & ?).
  - destruct (commitPolicy C); [set_solver| |set_solver].
    intros (k & -> & [? Hk]%elem_of_seq)%list_elem_of_fmap. apply Hrr; [done|lia].
Qed.

(** ** Theorems *)

(** C15. Over every history of the commit stage, from its construction, that keeps the
    rules below, every cycle ends, no assertion of the stage or of the buffer fails, and
    at the end the buffer is consistent and agrees with the status of every thread: a
    thread that is not squashing has no squash running, a trap on its way means
    [TrapPending], and requests to squash do not contradict each other. A history is any
    sequence of cycles, the latency of a trap running out, writes through a thread
    context, work of other stages on instructions, and requests to drain and to resume.
    The rules ([enabled], [cycle_ok]): rename sends instructions that are younger than
    those of their thread, when there is room for them; the execute stage hands back only
    instructions that it has executed or that wait for the head, and names existing
    instructions in its squashes; the core reports that nothing is in flight only when the
    buffer is empty and nothing comes from rename; other stages keep an instruction's
    identity and its mark of being in the buffer; no instruction is transactional; a
    trap's latency ends only when a trap is on its way. Two further rules exclude what the
    code does not survive ([squash_after_not_cleared] reaches the failed assertion): a
    thread context is not written while a squash behind a committed instruction is pending
    for its thread, and an event at a program counter that moves it does not follow an
    instruction that squashes what is behind it, nor happens while the stage drains. *)
Theorem commit_history_ok h i r es s0 :
  ROB.make P = Ok r -> 0 <= ROB.numEntries P < 2 ^ 32 -> objects_ok h ->
  NoDup (BaseCPU.activeThreads cpu) ->
  (forall tid, tid ∈ BaseCPU.activeThreads cpu -> 0 <= tid < ROB.MaxThreads P) ->
  0 ∈ BaseCPU.activeThreads cpu ->
  (commitPolicy C = RoundRobin -> forall tid, 0 <= tid < ROB.numThreads P -> tid ∈ BaseCPU.activeThreads cpu) ->
  CommitStage.make P C h i r = Ok s0 -> all_enabled es s0 ->
  exists s, run_all es s0 = Ok s /\ stage_ok P cpu s.
Proof. intros. apply stage_run_all_ok; [by eapply make_stage_ok|done..]. Qed.

(** C16. Retirement is in program order. When the stage commits, the loop ends, and what
    has left the buffer of a thread, together with what is still in it, is what was in
    it, in order. At most [commitWidth] instructions are committed, each of them
    executed, without a fault, not squashed, and complete unless it is a store; all
    others that left were squashed. *)
Theorem retires_in_order w s :
  loop_ok P cpu w s ->
  exists s' n acts, commitInsts P C cpu w s = Ok (s', n) /\ trace s' = trace s ++ acts
    /\ (forall tid, queue tid (rob_of s) = left tid acts ++ queue tid (rob_of s'))
    /\ n = Z.of_nat (committed acts) /\ n <= Z.max 0 (commitWidth C)
    /\ (forall tid p, Retire tid p ∈ acts -> exists i, heap_of s' !! p = Some i
          /\ DynInst.isCommitted i = true /\ DynInst.isSquashed i = false
          /\ DynInst.isExecuted i = true /\ DynInst.fault i = None
          /\ (DynInst.isStore i = true \/ DynInst.isCompleted i = true))
    /\ (forall tid p, Drop tid p ∈ acts -> exists i, heap_of s' !! p = Some i
          /\ DynInst.isSquashed i = true).
Proof.
  intros Hl. destruct (commitInsts_ok P C cpu w s Hl) as (s' & n & acts & Hrun & [Ht Hq _ _ Ha] & _ & Hn & Hw & _).
  rewrite Forall_forall in Ha. exists s', n, acts. split_and!; [done..| |].
  - intros tid p (i & Hi & _ & _ & Hx)%Ha. exists i. naive_solver.
  - intros tid p (i & Hi & _ & _ & Hx)%Ha. by exists i.
Qed.

(** A thread the policies may choose. *)
Definition ready_thread s (tid : Z) : bool :=
  match thread tid s, ROB.isHeadReady tid (heap_of s) (rob_of s) with
  | Ok c, Ok b => may_commit c && b
  | _, _ => false
  end.

(** The policy that should choose the thread whose head is oldest chooses by
    position: as soon as sequence numbers are larger than thread numbers, it takes the
    first active thread that is ready, whatever the age of its head. *)
Theorem oldestReady_by_position s :
  stage_ok P cpu s ->
  (forall tid tid' p l i, tid ∈ BaseCPU.activeThreads cpu -> tid' ∈ BaseCPU.activeThreads cpu ->
     queue tid' (rob_of s) = p :: l -> heap_of s !! p = Some i -> tid <= DynInst.seqNum i) ->
  oldestReady cpu s
  = Ok (match List.find (ready_thread s) (BaseCPU.activeThreads cpu) with
        | Some tid => tid
        | None => InvalidThreadID
        end).
Proof.
  intros Hs Hseq. unfold oldestReady.
  destruct (foldM_ind (oldestReady_step s) (fun pre '(oldest, first) =>
      match List.find (ready_thread s) pre with
      | Some tid => first = false /\ oldest = tid /\ tid ∈ BaseCPU.activeThreads cpu
      | None => first = true
      end) (BaseCPU.activeThreads cpu) (0, true)) as ([oldest first] & -> & Hx); [done| |].
  2: { simpl. destruct (List.find _ _) as [tid|]; [by destruct Hx as (-> & -> & _)|by rewrite Hx]. }
  intros pre tid post [oldest first] Hl Hx.
  assert (tid ∈ BaseCPU.activeThreads cpu) as Ha by (rewrite Hl; set_solver).
  destruct (core_active _ _ _ _ (sg_core _ _ _ Hs) Ha) as [c Hc].
  destruct (core_thread _ _ _ _ _ (sg_core _ _ _ Hs) Hc) as (th & xs & Hrth & Hxs).
  destruct (isHeadReady_ok P cpu s tid (sg_core _ _ _ Hs)) as (b & Hb & Hb'); [unfold thread; by rewrite Hc|].
  assert (ready_thread s tid = may_commit c && b) as Hr
    by (unfold ready_thread, thread; by rewrite Hc, Hb).
  assert (List.find (ready_thread s) (pre ++ [tid])
    = match List.find (ready_thread s) pre with
      | Some x => Some x | None => if ready_thread s tid then Some tid else None end) as Hfind.
  { clear. induction pre as [|x pre IH]; simpl; [done|]. by destruct (ready_thread s x). }
  rewrite Hfind, Hr. clear Hfind Hr.
  unfold oldestReady_step, ROB.isEmpty_tid, thread, rob_of in *. rewrite Hrth, Hc. simpl. rewrite Hb. simpl.
  assert (forall m : res (Z * bool), may_commit c && b = false -> m = Ok (oldest, first) ->
    exists s' : Z * bool, m = Ok s' /\ let '(o, f) := s' in
      match match List.find (ready_thread s) pre with
            | Some x => Some x | None => if may_commit c && b then Some tid else None end with
      | Some t => f = false /\ o = t /\ t ∈ BaseCPU.activeThreads cpu
      | None => f = true end) as Hskip.
  { intros m Hf ->. eexists. split; [done|]. rewrite Hf. by destruct (List.find _ pre). }
  destruct (may_commit c) eqn:Hm; simpl; [|rewrite andb_false_r; by apply Hskip].
  destruct b; [|apply Hskip; [done|by destruct (negb _ && _)]]. clear Hskip.
  destruct Hb' as (th' & p & l & i & Hth' & Hli & Hp & _ & Hrd); [done|].
  assert (ROB.threadEntries th =? 0 = false) as ->.
  { rewrite Hrth in Hth'. apply ok_inj in Hth' as <-.
    pose proof (holds_length _ _ _ (th_holds _ _ _ _ Hxs)) as Hlen. rewrite Hli in Hlen. simpl in Hlen.
    apply Z.eqb_neq. rewrite (th_count _ _ _ _ Hxs). lia. }
  simpl. rewrite Hrd. simpl. rewrite (proj2 (deref_Ok _ _ _) Hp). simpl.
  destruct (List.find (ready_thread s) pre) as [t0|].
  - destruct Hx as (-> & -> & Ht0).
    assert (t0 <= DynInst.seqNum i) as Hle by (apply (Hseq t0 tid p l i); try done; unfold queue; by rewrite Hth').
    rewrite (proj2 (Z.ltb_ge _ _) Hle). eexists. by split.
  - rewrite Hx. eexists. by split.
Qed.

End history.
(** ** Checks on concrete states *)

Definition arrives_check (P : ROB.Params) (p : DynInstPtr) (s : Commit.t) : bool :=
  match insts s !! p with
  | Some i =>
      match ROB.thread (DynInst.threadNumber i) (rob s) with
      | Ok th => negb (ROB.numInstsInROB (rob s) =? ROB.numEntries P)
                 && (ROB.threadEntries th <? ROB.maxEntries th)
                 && forallb (fun j => DynInst.seqNum j <? DynInst.seqNum i)
                      (RobSafety.insts (insts s) (rob s) (DynInst.threadNumber i))
      | Err _ => false
      end
  | None => false
  end.

Fixpoint all_arrive_check (P : ROB.Params) (ps : list DynInstPtr) (s : Commit.t) : bool :=
  match ps with
  | [] => true
  | p :: ps => arrives_check P p s
               && match getInst P s p with Ok s' => all_arrive_check P ps s' | Err _ => true end
  end.

Lemma all_arrive_ok P ps s : all_arrive_check P ps s = true -> all_arrive P ps s.
Proof.
  revert s. induction ps as [|p ps IH]; intros s; simpl; [done|].
  intros [Ha Hs]%andb_true_iff. split.
  - unfold arrives_check in Ha. destruct (insts s !! p) as [i|] eqn:Hi; [|done].
    destruct (ROB.thread _ _) as [th|] eqn:Hth; [|done].
    apply andb_true_iff in Ha as [[Hn%negb_true_iff%Z.eqb_neq Hm%Z.ltb_lt]%andb_true_iff Hf].
    exists i, th. split_and!; try done. apply Forall_forall. intros j Hj.
    rewrite forallb_forall in Hf. apply Z.ltb_lt, Hf. by apply list_elem_of_In.
  - intros s' Hs'. rewrite Hs' in Hs. by apply IH.
Qed.

Definition completes_check (h : heap) (p : DynInstPtr) : bool :=
  match h !! p with
  | Some i => DynInst.isSquashed i || DynInst.isExecuted i || waits_for_commit i
  | None => false
  end.

(** A cycle without squashes from the execute stage, interrupts or events. *)
Definition no_squash (tid : Z) : IEWThread := mkIEW false 0 false None false.

Definition cycle_check (P : ROB.Params) (C : Params) (cpu : BaseCPU.t) (fromRename completed : list DynInstPtr)
    (s : t (list Z)) : bool :=
  forallb (completes_check (heap_of s)) completed
  && match (let* k := tick_start P cpu (core s) in
            squashes P cpu CoreExamples.env no_squash (with_core k (set_stage (status s) Inactive s))) with
     | Ok (_, s1) => all_arrive_check P (take (renameWidth C) fromRename) (core s1)
     | Err _ => true
     end.

Lemma cycle_check_ok P C cpu fromRename completed s :
  cycle_check P C cpu fromRename completed s = true ->
  cycle_ok P C cpu CoreExamples.env no_squash fromRename completed s.
Proof.
  intros [Hc Hs]%andb_true_iff. split; try done.
  - apply Forall_forall. intros p Hp. rewrite forallb_forall in Hc. specialize (Hc p).
    rewrite <- list_elem_of_In in Hc. specialize (Hc Hp). unfold completes_check in Hc.
    destruct (heap_of s !! p) as [i|] eqn:Hi; [|done]. exists i. split; [done|].
    destruct (DynInst.isSquashed i), (DynInst.isExecuted i); auto.
  - intros k n s1 Hk Hs1. rewrite Hk in Hs. simpl in Hs. rewrite Hs1 in Hs. by apply all_arrive_ok.
Qed.

(** A state between cycles, seen as the start of the loop. *)
Lemma calm_loop P cpu s :
  stage_ok P cpu s ->
  forallb (fun tid => match thread tid s with
                      | Ok c => negb (trapSquash c) && negb (tcSquash c) | Err _ => false end)
    (BaseCPU.activeThreads cpu) = true ->
  loop_ok P cpu CoreExamples.env (I := list Z) s.
Proof.
  intros Hs Hc. split; try done. intros tid Hin. rewrite forallb_forall in Hc.
  specialize (Hc tid). rewrite <- list_elem_of_In in Hc. specialize (Hc Hin).
  destruct (thread tid s) as [c|]; [|done]. exists c.
  by apply andb_true_iff in Hc as [?%negb_true_iff ?%negb_true_iff].
Qed.

Lemma stage_enabled_cons P C cpu e es (s s' : t (list Z)) :
  enabled P C cpu e s -> run P C cpu e s = Ok s' -> all_enabled P C cpu es s' -> all_enabled P C cpu (e :: es) s.
Proof. intros He Hr Hes. cbn [all_enabled]. by rewrite Hr; split; [|intros ? [= <-]]. Qed.

End CommitCycle.

(** ** A faulting load behind a branch *)
Module CommitWitness.
Import Commit CommitStage CommitCycle CoreExamples.

Definition none : t (list Z) := stage_of (Commit.mk heap0 rob0 []).

Definition s0 : t (list Z) := Eval vm_compute in the none (make params stage_params heap0 [] rob0).

(** The three instructions enter; the branch executes, the first load faults. *)
Definition enter : event := Cycle env no_squash [1; 2; 3] [].
Definition s1 : t (list Z) := Eval vm_compute in the none (run params stage_params cpu enter s0).

Definition branch_done : DynInst.t := Eval vm_compute in
  DynInst.setExecuted (the branch (deref (heap_of s1) 1)).
Definition load_faults : DynInst.t := Eval vm_compute in
  DynInst.with_fault (Some 7) (DynInst.setExecuted (the load (deref (heap_of s1) 2))).

Definition s2 : t (list Z) := Eval vm_compute in the none (run params stage_params cpu (Work 1 branch_done) s1).
Definition s3 : t (list Z) := Eval vm_compute in the none (run params stage_params cpu (Work 2 load_faults) s2).

(** Both are completed, the branch is committed, the load traps. *)
Definition finish : event := Cycle env no_squash [] [1; 2].
Definition next : event := Cycle env no_squash [] [].
Definition s4 : t (list Z) := Eval vm_compute in the none (run params stage_params cpu finish s3).
Definition s5 : t (list Z) := Eval vm_compute in the none (run params stage_params cpu next s4).

Definition history : list event := [enter; Work 1 branch_done; Work 2 load_faults; finish; next].

Ltac steps x := vm_cast_no_check (eq_refl (Ok x)).
Ltac works := eexists; split_and!;
  [vm_compute; reflexivity
  |unfold RobSafety.allowed_write; split_and!;
   [by repeat split|reflexivity|intros ? Hp; vm_compute in Hp; simplify_eq; reflexivity|done]
  |eapply (CommitFacts.fit_check_ok 0); vm_compute; reflexivity].

Lemma e1 : enabled params stage_params cpu enter s0.
Proof. apply cycle_check_ok. vm_compute. reflexivity. Qed.
Lemma e2 : enabled params stage_params cpu (Work 1 branch_done) s1.
Proof. works. Qed.
Lemma e3 : enabled params stage_params cpu (Work 2 load_faults) s2.
Proof. works. Qed.
Lemma e4 : enabled params stage_params cpu finish s3.
Proof. apply cycle_check_ok. vm_compute. reflexivity. Qed.
Lemma e5 : enabled params stage_params cpu next s4.
Proof. apply cycle_check_ok. vm_compute. reflexivity. Qed.

Lemma r1 : run params stage_params cpu enter s0 = Ok s1.
Proof. steps s1. Qed.
Lemma r2 : run params stage_params cpu (Work 1 branch_done) s1 = Ok s2.
Proof. steps s2. Qed.
Lemma r3 : run params stage_params cpu (Work 2 load_faults) s2 = Ok s3.
Proof. steps s3. Qed.
Lemma r4 : run params stage_params cpu finish s3 = Ok s4.
Proof. steps s4. Qed.
Lemma r5 : run params stage_params cpu next s4 = Ok s5.
Proof. steps s5. Qed.

Lemma history_enabled : all_enabled params stage_params cpu history s0.
Proof.
  apply (stage_enabled_cons _ _ _ _ _ _ _ e1 r1), (stage_enabled_cons _ _ _ _ _ _ _ e2 r2), (stage_enabled_cons _ _ _ _ _ _ _ e3 r3),
    (stage_enabled_cons _ _ _ _ _ _ _ e4 r4), (stage_enabled_cons _ _ _ _ _ _ _ e5 r5). done.
Qed.

Lemma heap0_fit : CommitFacts.objects_ok heap0.
Proof. apply CommitFacts.objects_ok_check. vm_compute. reflexivity. Qed.

Lemma all_active tid : 0 <= tid < ROB.numThreads params -> tid ∈ BaseCPU.activeThreads cpu.
Proof. simpl. intros. apply list_elem_of_singleton. lia. Qed.

Lemma s0_run : make params stage_params heap0 [] rob0 = Ok s0.
Proof. steps s0. Qed.

Lemma s0_ok : CommitStageFacts.stage_ok params cpu s0.
Proof.
  apply (make_stage_ok params stage_params cpu heap0 [] rob0);
    [exact rob0_run|simpl; lia|exact heap0_fit|exact CommitFacts.cpu_active|by apply list_elem_of_singleton
    |intros _; exact all_active|exact s0_run].
Qed.

Lemma step_ok e (s s' : t (list Z)) :
  CommitStageFacts.stage_ok params cpu s -> enabled params stage_params cpu e s ->
  run params stage_params cpu e s = Ok s' -> CommitStageFacts.stage_ok params cpu s'.
Proof.
  intros Hs He Hr. destruct (stage_run_ok params stage_params cpu e s Hs CommitFacts.cpu_NoDup He) as (x & Hx & Hok).
  rewrite Hr in Hx. apply ok_inj in Hx. by rewrite Hx.
Qed.

Lemma s4_ok : CommitStageFacts.stage_ok params cpu s4.
Proof.
  exact (step_ok _ _ _ (step_ok _ _ _ (step_ok _ _ _ (step_ok _ _ _ s0_ok e1 r1) e2 r2) e3 r3) e4 r4).
Qed.
Lemma s5_ok : CommitStageFacts.stage_ok params cpu s5.
Proof. exact (step_ok _ _ _ s4_ok e5 r5). Qed.

Lemma s4_loop : CommitStageFacts.loop_ok params cpu env s4.
Proof. apply calm_loop; [exact s4_ok|vm_compute; reflexivity]. Qed.
Lemma s5_loop : CommitStageFacts.loop_ok params cpu env s5.
Proof. apply calm_loop; [exact s5_ok|vm_compute; reflexivity]. Qed.

Lemma commit_history_ok_witness :
  exists s, run_all params stage_params cpu history s0 = Ok s /\ CommitStageFacts.stage_ok params cpu s.
Proof.
  apply (commit_history_ok params stage_params cpu heap0 [] rob0 history s0);
    [exact rob0_run|simpl; lia|exact heap0_fit|exact CommitFacts.cpu_NoDup|exact CommitFacts.cpu_active
    |by apply list_elem_of_singleton|intros _; exact all_active|exact s0_run|exact history_enabled].
Defined.

(** The branch is committed and the load, which faults, waits for the next cycle. *)
Lemma retires_in_order_witness :
  exists s' n acts, commitInsts params stage_params cpu env s4 = Ok (s', n) /\ trace s' = trace s4 ++ acts
    /\ (forall tid, RobSafety.queue tid (rob_of s4)
          = CommitStageFacts.left tid acts ++ RobSafety.queue tid (rob_of s'))
    /\ n = Z.of_nat (CommitStageFacts.committed acts) /\ n <= Z.max 0 (commitWidth stage_params)
    /\ (forall tid p, Retire tid p ∈ acts -> exists i, heap_of s' !! p = Some i
          /\ DynInst.isCommitted i = true /\ DynInst.isSquashed i = false
          /\ DynInst.isExecuted i = true /\ DynInst.fault i = None
          /\ (DynInst.isStore i = true \/ DynInst.isCompleted i = true))
    /\ (forall tid p, Drop tid p ∈ acts -> exists i, heap_of s' !! p = Some i
          /\ DynInst.isSquashed i = true).
Proof. exact (retires_in_order params stage_params cpu env s4 s4_loop). Defined.

End CommitWitness.

(** ** Two threads, the second with the older head *)
Module SmtWitness.
Import Commit CommitStage CommitCycle CoreExamples CommitWitness.

Definition params2 : ROB.Params := ROB.mkParams ROB.Dynamic 8 2 2 0 2.
Definition stage2 : CommitStage.Params := mkParams 8 8 OldestReady.
Definition cpu2 : BaseCPU.t := BaseCPU.mk true false false true 64 3 [0; 1] [].
Definition heap2 : heap :=
  {[ 1 := DynInst.setExecuted (DynInst.make 20 0 0x400 no_flags);
     2 := DynInst.setExecuted (DynInst.make 10 1 0x800 no_flags) ]}.
Definition rob2 : ROB.t := Eval vm_compute in the rob0 (ROB.make params2).

Definition t0 : t (list Z) := Eval vm_compute in the none (make params2 stage2 heap2 [] rob2).
Definition both : event := Cycle env no_squash [1; 2] [1; 2].
Definition t1 : t (list Z) := Eval vm_compute in the none (run params2 stage2 cpu2 both t0).

Lemma t1_ok : CommitStageFacts.stage_ok params2 cpu2 t1.
Proof.
  assert (CommitStageFacts.stage_ok params2 cpu2 t0) as H0.
  { apply (make_stage_ok params2 stage2 cpu2 heap2 [] rob2); [steps rob2|simpl; lia| | | |done|steps t0].
    - apply CommitFacts.objects_ok_check. vm_compute. reflexivity.
    - simpl. intros tid [-> | ->%list_elem_of_singleton]%elem_of_cons; lia.
    - constructor. }
  destruct (stage_run_ok params2 stage2 cpu2 both t0 H0) as (x & Hx & Hok).
  - repeat constructor; set_solver.
  - apply cycle_check_ok. vm_compute. reflexivity.
  - assert (run params2 stage2 cpu2 both t0 = Ok t1) as Hr by steps t1.
    rewrite Hr in Hx. apply ok_inj in Hx. by rewrite Hx.
Qed.

(** Thread 0 is chosen, although the head of thread 1 is older. *)
Lemma oldestReady_by_position_witness :
  oldestReady cpu2 t1 = Ok 0
  /\ exists i j, heap_of t1 !! 1 = Some i /\ heap_of t1 !! 2 = Some j
     /\ RobSafety.queue 0 (rob_of t1) = [1] /\ RobSafety.queue 1 (rob_of t1) = [2]
     /\ ready_thread t1 0 = true /\ ready_thread t1 1 = true /\ DynInst.seqNum j < DynInst.seqNum i.
Proof.
  split; [|eexists _, _; split_and!; vm_compute; reflexivity].
  refine (oldestReady_by_position params2 cpu2 t1 t1_ok _).
  intros tid tid' p l i Ht Ht' Hq Hi. simpl in Ht, Ht'.
  assert (tid <= 1) as Hle by (apply elem_of_cons in Ht as [-> | ->%list_elem_of_singleton]; lia).
  assert (10 <= DynInst.seqNum i) as Hge; [|lia].
  apply elem_of_cons in Ht' as [-> | ->%list_elem_of_singleton]; vm_compute in Hq; simplify_eq;
    vm_compute in Hi; simplify_eq; vm_compute; congruence.
Defined.

End SmtWitness.

(** ** A squash request that outlives its squash *)
Module SquashAfterWitness.
Import Commit CommitStage CommitCycle CoreExamples CommitWitness.

(** Two instructions that squash what is behind them. *)
Definition after_si : StaticInst.t :=
  StaticInst.mk false false false false false false false false false true false false false false false false.
Definition after_inst (n : Z) : DynInst.t :=
  DynInst.setCanCommit (DynInst.setExecuted (DynInst.make n 0 0x400 after_si)).
Definition heap3 : heap := {[ 1 := after_inst 10; 2 := after_inst 20 ]}.

(** At the program counter after the first one, an event skips a function. *)
Definition skip_env : Env :=
  mkEnv false (fun _ => false) false (fun _ => true) (fun p => p =? 1) (fun _ => false) (fun _ => 1).

Definition u0 : t (list Z) := Eval vm_compute in the none (make params stage_params heap3 [] rob0).

(** The first is committed and the event squashes the thread; once this is done the
    second one is committed. *)
Definition squash_after_history : list event :=
  [Cycle skip_env no_squash [1] []; Cycle skip_env no_squash [] []; Cycle skip_env no_squash [2] []].

(** A squash of the thread by its context does not clear a pending squash-after
    request: when a program-counter event moves the thread right after an instruction
    that squashes what is behind it, the next such instruction finds the old request,
    and the assertion of [squashAfter] fails. *)
Theorem squash_after_not_cleared :
  (exists s c, run_all params stage_params cpu (take 2 squash_after_history) u0 = Ok s
     /\ thread 0 s = Ok c /\ commitStatus c = ROBSquashing /\ squashAfterInst c = Some 1)
  /\ run_all params stage_params cpu squash_after_history u0 = Err AssertFail.
Proof.
  split; [eexists _, _; split_and!; vm_compute; reflexivity|].
  vm_cast_no_check (@eq_refl (res (t (list Z))) (Err AssertFail)).
Qed.

End SquashAfterWitness.
