(* ===== verification/CommitTrap.v ===== *)
(** * A trap on its way

    Between the cycle that takes the trap of an instruction and the end of the trap's
    latency, the commit stage leaves the thread alone, whatever the other stages ask for. *)

From stdpp Require Import gmap.
From S2P Require Import Prelude.
From S2P Require Import BaseUtil MemCmd Request Packet DynInst Rob RobFacts.
From S2P Require Import RobSafety Commit CommitStage CoreExamples CommitFacts CommitStageFacts CommitCycle.

Local Open Scope Z_scope.
Import HeapFacts VisibleFacts SquashFacts RobInv RobSafety CommitFacts CommitStageFacts CommitCycle.

Module CommitTrap.
Import Commit CommitStage.

Section trap.
Context {I : Type} `{!BaseInterrupts I}.
Variables (P : ROB.Params) (C : Params) (cpu : BaseCPU.t).
Implicit Types s : t I.

(** ** What other threads do *)

(** What the stage and the buffer hold of thread [tid]. *)
Definition view (tid : Z) (k : Commit.t) : res CThread * list DynInstPtr := (Commit.thread tid k, queue tid (rob k)).

Lemma view_put tid tid' c k : tid' <> tid -> is_ok (Commit.thread tid' k) = true ->
  view tid (Commit.put tid' c k) = view tid k.
Proof.
  intros Hne Hok. unfold view. destruct (Commit.thread tid' k) as [c0|] eqn:Hc; [|done].
  by rewrite (commit_thread_put tid' c0), decide_False by done.
Qed.

Lemma view_update tid tid' f s s' : tid' <> tid -> update tid' f s = Ok s' -> view tid (core s') = view tid (core s).
Proof.
  intros Hne Hu. unfold update in Hu. simplify_res. apply view_put; [done|]. unfold thread in E. by rewrite E.
Qed.

Lemma queue_other tid tid' r r' : tid' <> tid -> only_thread tid' r r' -> queue tid r' = queue tid r.
Proof. intros Hne [_ Ho]. unfold queue. by rewrite Ho. Qed.

Lemma view_retire tid tid' s p h r : tid' <> tid ->
  ROB.retireHead cpu tid' (heap_of s) (rob_of s) = Ok (p, h, r) -> view tid (core (with_rob h r s)) = view tid (core s).
Proof.
  intros Hne Hr. unfold view. f_equal. simpl. unfold ROB.retireHead in Hr. simplify_res.
  destruct (ROB.instList a) as [|q l]; [done|]. simplify_res.
  match goal with Hu : ROB.updateHead _ _ _ = Ok _ |- _ => unfold ROB.updateHead in Hu end. inv_res.
  unfold queue, ROB.thread in *. simpl. destruct (Z.ltb_spec tid' 0); [done|].
  destruct (Z.ltb_spec tid 0); [done|]. by rewrite list_lookup_insert_ne by lia.
Qed.

(** Takes the calls on another thread apart, last first. *)
Ltac other :=
  repeat match goal with
  | |- view ?tid (core (write_inst _ _ ?s)) = ?x => change (view tid (core s) = x)
  | |- view ?tid (core (log _ ?s)) = ?x => change (view tid (core s) = x)
  | H : update ?t _ _ = Ok ?s |- view ?tid (core ?s) = _ => etransitivity; [exact (view_update tid t _ _ _ ltac:(done) H)|]; clear H
  | H : tell ?t _ _ = Ok ?s |- view ?tid (core ?s) = _ => etransitivity; [exact (view_update tid t _ _ _ ltac:(done) H)|]; clear H
  end; try done.

Lemma view_generateTrap tid tid' s s' : tid' <> tid -> generateTrapEvent tid' s = Ok s' -> view tid (core s') = view tid (core s).
Proof. intros Hne H. unfold generateTrapEvent in H. by other. Qed.

Lemma view_squashAfter tid tid' p s s' : tid' <> tid -> squashAfter tid' p s = Ok s' -> view tid (core s') = view tid (core s).
Proof.
  intros Hne H. unfold squashAfter in H. simplify_res. apply view_put; [done|]. unfold thread in E. by rewrite E.
Qed.

Lemma view_conditionalSquash tid tid' s s' : tid' <> tid -> conditionalSquash tid' s = Ok s' -> view tid (core s') = view tid (core s).
Proof.
  intros Hne H. unfold conditionalSquash, cpu_squashFromTC, generateTCEvent in H. simplify_res.
  destruct (negb _ && _); simplify_res; [|done]. etransitivity; [apply view_put; [done|]|by other].
  unfold thread in *. by match goal with Ht : Commit.thread _ (core ?x) = Ok _ |- is_ok (Commit.thread _ (core ?x)) = _ => rewrite Ht end.
Qed.

Lemma view_commitHead tid w p i n s s' b : heap_of s !! p = Some i -> DynInst.threadNumber i <> tid ->
  commitHead cpu w p n s = Ok (s', b) -> view tid (core s') = view tid (core s).
Proof.
  intros Hi Hne H. unfold commitHead in H. rewrite (proj2 (deref_Ok _ _ _) Hi) in H. simpl in H.
  destruct (DynInst.isExecuted i); simpl in H.
  2: { simplify_res. unfold signal_head in E. simplify_res.
       destruct (_ || hasStoresToWB _ _); simplify_res; [by other|]. destruct (_ && _); simplify_res; by other. }
  apply rbind_ok in H as (f & _ & H). destruct f as [f|].
  - simplify_res. unfold trap_head in E. destruct (_ || _); simplify_res; [done|].
    etransitivity; [by eapply view_generateTrap|]. other.
    etransitivity; [apply (view_put tid (DynInst.threadNumber i) _ (core (write_inst p (DynInst.setCompleted i) s))); [done|]|done].
    unfold thread in *. match goal with Ht : Commit.thread _ _ = Ok _ |- _ => by rewrite Ht end.
  - simplify_res. set (j := if DynInst.isStore i then _ else _) in *.
    assert (DynInst.threadNumber j <> tid) as Hj by (subst j; by destruct (DynInst.isStore i)). clearbody j.
    unfold retire_head in E. apply rbind_ok in E as (s1 & Hs1 & E).
    assert (core s1 = core (write_inst p j s)) as Hc by (destruct (DynInst.isHtmStart j); by simplify_res). clear Hs1.
    apply rbind_ok in E as ([[q h] r] & Hr%(view_retire tid) & E); [|done]. simpl in E.
    rewrite Hc in Hr. etransitivity; [|exact Hr]. destruct (_ || _); simplify_res; [|done]. by other.
Qed.

Lemma view_after_commit tid w p i s s' b : heap_of s !! p = Some i -> DynInst.threadNumber i <> tid ->
  after_commit w p s = Ok (s', b) -> view tid (core s') = view tid (core s).
Proof.
  intros Hi Hne H. unfold after_commit in H. rewrite (proj2 (deref_Ok _ _ _) Hi) in H. cbn [rbind] in H.
  apply rbind_ok in H as (s1 & H1 & H). apply rbind_ok in H as (s2 & H2 & H). apply rbind_ok in H as (s3 & H3 & H).
  match type of H with (if ?x then _ else _) = _ => destruct x; [|done] end.
  apply rbind_ok in H as (s4 & H4 & H). apply rbind_ok in H as (s5 & H5 & H). apply rbind_ok in H as (s6 & H6 & H).
  apply rbind_ok in H as ([s7 stop] & H7 & H).
  assert (view tid (core s1) = view tid (core s)) as V1.
  { unfold check_htm in H1. apply rbind_ok in H1 as (s0 & H0 & H1). apply rbind_ok in H1 as (? & _ & H1).
    match type of H1 with (if ?x then _ else _) = _ => destruct x; [|done] end.
    assert (view tid (core s0) = view tid (core s)) by (destruct (DynInst.isHtmStart i); simplify_res; [by other|done]).
    destruct (DynInst.isHtmStop i); [by other|]. apply ok_inj in H1 as <-. done. }
  assert (view tid (core s4) = view tid (core s1)) as V4.
  { apply (view_update tid) in H4; [|done]. apply (view_update tid) in H3; [|done]. apply (view_update tid) in H2; [|done].
    rewrite H4. destruct (_ =? 0); simpl; congruence. }
  assert (view tid (core s5) = view tid (core s4)) as V5.
  { destruct (DynInst.isSquashAfter i); [by eapply view_squashAfter|by apply ok_inj in H5 as <-]. }
  assert (view tid (core s6) = view tid (core s5)) as V6.
  { unfold drain_after in H6. destruct (drainPending s5); [|by apply ok_inj in H6 as <-]. apply rbind_ok in H6 as (c & _ & H6).
    destruct (_ && _); [|by apply ok_inj in H6 as <-]. apply rbind_ok in H6 as (sa & Hs & H6). apply ok_inj in H6 as <-.
    exact (view_squashAfter tid _ _ _ _ Hne Hs). }
  assert (view tid (core s7) = view tid (core s6)) as V7.
  { unfold pc_events in H7. destruct (onInstBoundary i); [|by apply ok_inj in H7 as [= <- <-]]. apply rbind_ok in H7 as (c & _ & H7).
    match type of H7 with (if ?x then _ else _) = _ => destruct x; [|done] end.
    destruct (pc_event_skips w p); [|by apply ok_inj in H7 as [= <- <-]].
    apply rbind_ok in H7 as (sa & Hs & H7). apply ok_inj in H7 as [= <- <-]. by eapply view_conditionalSquash. }
  assert (view tid (core s7) = view tid (core s)) as V by congruence.
  clear V1 V4 V5 V6 V7. destruct stop; [by apply ok_inj in H as [= <- <-]|].
  destruct (_ && cpu_checkInterrupts _ _); [|by apply ok_inj in H as [= <- <-]].
  apply rbind_ok in H as (s8 & H8 & H). apply ok_inj in H as [= <- <-]. rewrite <- V. by eapply view_squashAfter.
Qed.

(** The instruction keeps its thread when it is retired. *)
Lemma commitHead_thread w p i n s s' b j : heap_of s !! p = Some i -> commitHead cpu w p n s = Ok (s', b) ->
  b = true -> heap_of s' !! p = Some j -> DynInst.threadNumber j = DynInst.threadNumber i.
Proof.
  intros Hi H -> Hj. unfold commitHead in H. rewrite (proj2 (deref_Ok _ _ _) Hi) in H. simpl in H.
  destruct (DynInst.isExecuted i); simpl in H; [|by simplify_res].
  apply rbind_ok in H as (f & _ & H). destruct f as [f|]; [by simplify_res|]. simplify_res.
  set (k := if DynInst.isStore i then _ else _) in *.
  assert (DynInst.threadNumber k = DynInst.threadNumber i) as <- by (subst k; by destruct (DynInst.isStore i)). clearbody k.
  unfold retire_head in E. apply rbind_ok in E as (s1 & Hs1 & E).
  assert (heap_of s1 = <[p := k]> (heap_of s)) as Hh by (destruct (DynInst.isHtmStart k); by simplify_res). clear Hs1.
  apply rbind_ok in E as ([[q h] r] & Hr & E). simpl in E.
  assert (heap_of s' = h) as Hh' by (destruct (_ || _); [unfold update in E|]; by simplify_res).
  rewrite Hh' in Hj. clear E Hh'.
  unfold ROB.retireHead in Hr. simplify_res. destruct (ROB.instList a) as [|x l]; [done|]. simplify_res. inv_res.
  destruct (decide (p = q)) as [->|Hne]; [|rewrite lookup_insert_ne, Hh, lookup_insert_eq in Hj by done; by simplify_eq].
  rewrite lookup_insert_eq in Hj. simplify_eq.
  match goal with Hd : deref _ q = Ok _ |- _ => apply deref_Ok in Hd; rewrite Hh, lookup_insert_eq in Hd end. by simplify_eq.
Qed.

Lemma view_commit_at tid tid' w n s s' n' more : tid' <> tid ->
  commit_at cpu w tid' n s = Ok (s', n', more) -> view tid (core s') = view tid (core s).
Proof.
  intros Hne H. unfold commit_at in H. apply rbind_ok in H as (hd & _ & H). destruct hd as [p|]; [|done].
  apply rbind_ok in H as (i & Hi%deref_Ok & H). destruct (Z.eqb_spec (DynInst.threadNumber i) tid') as [<-|]; [|done].
  destruct (DynInst.isSquashed i).
  - apply rbind_ok in H as (s1 & H1 & H). apply ok_inj in H as [= <- <- <-]. unfold drop_head in H1.
    apply rbind_ok in H1 as ([[q h] r] & Hr%(view_retire tid) & H1); [|done].
    etransitivity; [exact (view_update tid _ _ _ _ Hne H1)|exact Hr].
  - apply rbind_ok in H as (s1 & H1 & H).
    assert (heap_of s1 = heap_of s) as Hh by (unfold update in H1; apply rbind_ok in H1 as (c & _ & H1); by apply ok_inj in H1 as <-).
    apply (view_update tid) in H1; [|done]. rewrite <- H1.
    apply rbind_ok in H as ([s2 ok] & H2 & H).
    assert (view tid (core s2) = view tid (core s1)) as V2 by (eapply view_commitHead; [by rewrite Hh|done|done]).
    destruct ok; [|by apply ok_inj in H as [= <- <- <-]].
    apply rbind_ok in H as ([s3 stop] & H3 & H). apply ok_inj in H as [= <- <- <-]. rewrite <- V2.
    pose proof H3 as H3'. unfold after_commit in H3'. apply rbind_ok in H3' as (j & Hj%deref_Ok & _).
    eapply view_after_commit; [exact Hj| |exact H3].
    rewrite (commitHead_thread w p i n s1 s2 true j); [done|by rewrite Hh|done..].
Qed.

(** ** A thread that waits for its trap *)

(** The trap of the thread is on its way and has not fired; [q] is what the buffer holds of it. *)
Definition waits (tid : Z) (q : list DynInstPtr) (k : Commit.t) : Prop :=
  exists c, Commit.thread tid k = Ok c /\ commitStatus c = TrapPending /\ trapPending c = true
    /\ trapSquash c = false /\ tcSquash c = false /\ queue tid (rob k) = q.

Lemma waits_view tid q k k' : view tid k' = view tid k -> waits tid q k -> waits tid q k'.
Proof. unfold view, waits. intros [= -> ->]. done. Qed.

Lemma waits_quiet tid q s s' : quiet s s' -> waits tid q (core s) -> waits tid q (core s').
Proof.
  intros Hq (c & Hc & H1 & H2 & H3 & H4 & H5). destruct (same_thread_ok _ _ _ (q_thread _ _ Hq tid) Hc) as (c' & Hc' & []).
  exists c'. split_and!; try congruence; [done|]. pose proof (q_rob _ _ Hq) as Hr. unfold rob_of in Hr. by rewrite Hr.
Qed.

Lemma waits_turn tid q w n s s' n' more :
  loop_ok P cpu w s -> 0 <= n -> q <> [] -> waits tid q (core s) ->
  commit_turn P C cpu w n s = Ok (s', n', more) -> waits tid q (core s').
Proof.
  intros Hl Hn Hne Hw H. rewrite commit_turn_unfold in H.
  destruct (getCommittingThread_ok P C cpu s (lp_stage _ _ _ _ Hl)) as (tid' & s0 & Hg & Hch & pl & -> & Hpl).
  rewrite Hg in H. cbn [rbind] in H. set (s0 := set_priority pl s) in *.
  assert (loop_ok P cpu w s0) as Hl0 by (destruct Hl as [[]]; by split).
  destruct (take_interrupt_ok P cpu w tid' s0 Hl0 Hch) as (s1 & Ht & Hint). rewrite Ht in H. cbn [rbind] in H.
  assert (quiet s0 s1) as Hq.
  { destruct Hint as [|(_ & He & Hr & _)]; [done|]. specialize (He tid). rewrite Hr in He. destruct Hw as (c & _ & _ & _ & _ & _ & Hqq).
    change (queue tid (rob (core s)) = []) in He. congruence. }
  assert (waits tid q (core s1)) as Hw1 by by eapply waits_quiet.
  assert (tid' <> tid) as Htid.
  { intros ->. destruct Hw as (c & Hc & Hst & _). destruct Hch as [-> |(_ & c' & Hc' & Hm)].
    - unfold Commit.thread in Hc. done.
    - unfold thread in Hc'. rewrite Hc in Hc'. apply ok_inj in Hc' as <-. unfold may_commit in Hm. by rewrite Hst in Hm. }
  destruct (tid' =? InvalidThreadID); [by apply ok_inj in H as [= <- <- <-]|].
  apply rbind_ok in H as (ready & _ & H). destruct (negb ready); [by apply ok_inj in H as [= <- <- <-]|].
  eapply waits_view; [|exact Hw1]. by eapply view_commit_at.
Qed.

Lemma waits_loop tid q w fuel : forall n s s' n', loop_ok P cpu w s -> 0 <= n -> q <> [] -> waits tid q (core s) ->
  commit_loop P C cpu w fuel n s = Ok (s', n') -> waits tid q (core s').
Proof.
  induction fuel as [|fuel IH]; intros n s s' n' Hl Hn Hne Hw H; [done|]. simpl in H.
  destruct (n <? commitWidth C); [|by apply ok_inj in H as [= <- <-]].
  destruct (commit_turn_ok P C cpu w n s Hl Hn) as (s1 & n1 & more & acts & Hrun & [_ _ [Hc _] _ Hmore]).
  rewrite Hrun in H. cbn [rbind] in H. pose proof (waits_turn _ _ _ _ _ _ _ _ Hl Hn Hne Hw Hrun) as Hw1.
  destruct more; [|by apply ok_inj in H as [= <- <-]].
  destruct (Hmore eq_refl) as (Hl1 & _). eapply (IH n1); [done|lia|done|done|exact H].
Qed.

(** ** The other parts of a cycle *)

Lemma waits_put tid q c k : waits tid q k -> is_ok (Commit.thread tid k) = true ->
  commitStatus c = TrapPending -> trapPending c = true -> trapSquash c = false -> tcSquash c = false ->
  waits tid q (Commit.put tid c k).
Proof.
  intros (c0 & Hc0 & _ & _ & _ & _ & Hq) _ H1 H2 H3 H4. exists c.
  by rewrite (commit_thread_put tid c0), decide_True by done.
Qed.

Lemma waits_continue tid q k tid' k' : core_ok P cpu k -> is_ok (Commit.thread tid' k) = true ->
  continue_squash P cpu k tid' = Ok k' -> waits tid q k -> waits tid q k'.
Proof.
  intros Hok Hth Hrun Hw. pose proof Hw as (c & Hc & H1 & H2 & H3 & H4 & H5).
  destruct (decide (tid' = tid)) as [->|Hne].
  { unfold continue_squash in Hrun. rewrite Hc in Hrun. cbn [rbind] in Hrun.
    rewrite bool_decide_eq_false_2 in Hrun by (simpl; congruence). apply ok_inj in Hrun as <-. by apply waits_put. }
  destruct (continue_squash_ok P cpu k tid' Hok Hth) as (k1 & Hk1 & _ & _ & Hq & _). rewrite Hrun in Hk1. apply ok_inj in Hk1 as <-.
  eapply waits_view; [|exact Hw]. unfold view. f_equal; [|apply Hq]. unfold continue_squash in Hrun.
  destruct (Commit.thread tid' k) as [c'|] eqn:Hc'; [|done]. cbn [rbind] in Hrun.
  assert (forall x, Commit.thread tid (Commit.put tid' x k) = Commit.thread tid k) as Hput
    by (intros x; by rewrite (commit_thread_put tid' c'), decide_False by done).
  destruct (bool_decide _); [|by apply ok_inj in Hrun as <-]. apply rbind_ok in Hrun as (b & _ & Hrun).
  destruct b; [by apply ok_inj in Hrun as <-; rewrite commit_put_put|].
  apply rbind_ok in Hrun as ([h r] & _ & Hrun). apply ok_inj in Hrun as <-.
  set (c1 := set_committedStores false c').
  rewrite (commit_thread_put tid' c1 _ (Commit.with_rob h r (Commit.put tid' c1 k))), decide_False; [apply Hput|done|].
  change (Commit.thread tid' (Commit.put tid' c1 k) = Ok c1). by rewrite (commit_thread_put tid' c'), decide_True by done.
Qed.

Lemma waits_tick_start tid q k : core_ok P cpu k -> waits tid q k ->
  forall k', tick_start P cpu k = Ok k' -> waits tid q k'.
Proof.
  intros Hok Hw k' Hrun.
  destruct (foldM_ind (continue_squash P cpu) (fun _ k' => steps_to P cpu k k' /\ waits tid q k') (BaseCPU.activeThreads cpu) k)
    as (k1 & Hk1 & _ & Hw1); [by split; [apply steps_to_refl|]| |].
  - intros pre tid' post k1 Hl [Hs1 Hw1]. assert (is_ok (Commit.thread tid' k1) = true) as Hi.
    { apply Hs1. rewrite (core_threads _ _ _ Hok). apply (rob_active _ _ _ _ (core_rob _ _ _ Hok)). rewrite Hl. set_solver. }
    destruct (continue_squash_ok P cpu k1 tid') as (k2 & Hk2 & Hs2); [apply Hs1|done|].
    exists k2. split_and!; [done|by eapply steps_to_trans|]. eapply waits_continue; [apply Hs1|done..].
  - unfold tick_start in Hrun. rewrite Hk1 in Hrun. by apply ok_inj in Hrun as <-.
Qed.

(** A squash that the execute stage asks for is ignored. *)
Lemma waits_squash_thread tid q iew n k tid' n' k' : core_ok P cpu k -> is_ok (Commit.thread tid' k) = true -> iew_ok iew k ->
  squash_thread P cpu iew (n, k) tid' = Ok (n', k') -> waits tid q k -> waits tid q k'.
Proof.
  intros Hok Hth Hiew Hrun Hw. destruct (decide (tid' = tid)) as [->|Hne].
  - destruct Hw as (c & Hc & H1 & H2 & H3 & H4 & H5). unfold squash_thread in Hrun. rewrite Hc in Hrun. cbn [rbind] in Hrun.
    rewrite H3, H4, bool_decide_eq_false_2 in Hrun by congruence. cbn [rbind] in Hrun. rewrite Hc in Hrun. cbn [rbind] in Hrun.
    rewrite H1, andb_false_r in Hrun. cbn [andb rbind] in Hrun. rewrite Hc in Hrun. cbn [rbind] in Hrun.
    apply ok_inj in Hrun as [= _ <-]. by exists c.
  - destruct (squash_thread_ok P cpu iew n k tid' Hok Hth Hiew) as (n1 & k1 & Hk1 & [(_ & _ & Hq & _) Ho] & _).
    rewrite Hrun in Hk1. apply ok_inj in Hk1 as [= <- <-]. eapply waits_view; [|exact Hw]. unfold view.
    rewrite Ho by done. f_equal. apply Hq.
Qed.

Lemma waits_squashes tid q w iew s n s' : stage_ok P cpu s -> iew_ok iew (core s) ->
  squashes P cpu w iew s = Ok (n, s') -> waits tid q (core s) -> waits tid q (core s').
Proof.
  intros Hs Hiew Hrun Hw. unfold squashes in Hrun. apply rbind_ok in Hrun as (s1 & H1 & Hrun).
  assert (quiet s s1) as Hq.
  { destruct (_ && _); [|by apply ok_inj in H1 as <-]. destruct (propagateInterrupt_ok P cpu s Hs) as (x & Hx & Hq).
    rewrite H1 in Hx. by apply ok_inj in Hx as <-. }
  destruct (foldM_ind (squash_step P cpu iew) (fun pre '(_, s') => squashing P cpu pre s s' /\ waits tid q (core s'))
    (BaseCPU.activeThreads cpu) (0, s1)) as ([n2 s2] & H2 & _ & Hw2).
  - split; [by apply quiet_squashing|by eapply waits_quiet].
  - intros pre tid' post [m s2] Hl [Hs2 Hw2].
    destruct (squash_step_ok P cpu iew m pre tid' s s2 Hs2 Hiew) as (m' & s3 & H3 & Hs3); [rewrite Hl; set_solver|].
    exists (m', s3). split_and!; [done..|]. unfold squash_step in H3. apply rbind_ok in H3 as (c & Hc & H3).
    apply rbind_ok in H3 as ([m3 k3] & H3 & H4). apply ok_inj in H4 as [= <- <-].
    assert (waits tid q k3) as Hw3.
    { eapply waits_squash_thread; [apply Hs2|unfold thread in Hc; by rewrite Hc| |exact H3|done].
      intros t p Hp. apply (sq_steps _ _ _ _ _ Hs2). by apply (Hiew t). }
    case_match; exact Hw3.
  - rewrite H2 in Hrun. cbn [rbind] in Hrun. apply ok_inj in Hrun as [= <- <-]. by destruct (_ =? 0).
Qed.

(** An instruction that rename sends is appended to its thread, or left out. *)
Lemma getInst_appends k p k' : getInst P k p = Ok k' ->
  k' = k \/ exists i, insts k !! p = Some i /\ (forall tid, tid <> DynInst.threadNumber i -> view tid k' = view tid k)
    /\ queue (DynInst.threadNumber i) (rob k') = queue (DynInst.threadNumber i) (rob k) ++ [p]
    /\ exists c, Commit.thread (DynInst.threadNumber i) k = Ok c /\ commitStatus c <> TrapPending.
Proof.
  intros H. unfold getInst in H. apply rbind_ok in H as (i & Hi%deref_Ok & H). apply rbind_ok in H as (c & Hc & H).
  destruct (_ && _) eqn:Hb; [|left; by apply ok_inj in H as <-]. right. exists i. split; [done|].
  apply andb_true_iff in Hb as [_ Hb%negb_true_iff%bool_decide_eq_false].
  apply rbind_ok in H as ([h r] & Hins & H). apply rbind_ok in H as (? & _ & H). apply rbind_ok in H as (? & _ & H).
  destruct (_ <=? _); [|done]. apply ok_inj in H as <-.
  unfold ROB.insertInst in Hins. rewrite (proj2 (deref_Ok _ _ _) Hi) in Hins. cbn [rbind] in Hins.
  destruct (negb _); [|done]. apply rbind_ok in Hins as (th & Hth & Hins). apply rbind_ok in Hins as (hd & _ & Hins).
  apply rbind_ok in Hins as (it & _ & Hins). apply rbind_ok in Hins as (p' & _ & Hins). destruct (_ =? _); [|done].
  apply ok_inj in Hins as [= <- <-].
  set (th' := ROB.set_instList (ROB.instList th ++ [p]) _ th).
  assert (forall tid, ROB.thread tid (ROB.put_thread (DynInst.threadNumber i) th' (rob k))
    = if decide (tid = DynInst.threadNumber i) then Ok th' else ROB.thread tid (rob k)) as Hput by (intros; by eapply thread_put).
  split_and!; [| |by exists c].
  - intros tid Hne. unfold view. f_equal.
    + pose proof (commit_thread_put (DynInst.threadNumber i) c
        (set_youngest (DynInst.seqNum i) true c) k tid Hc) as Hx. rewrite decide_False in Hx by done. exact Hx.
    + unfold queue. specialize (Hput tid). rewrite decide_False in Hput by done. unfold ROB.thread in *. simpl in *. by rewrite Hput.
  - unfold queue. rewrite Hth. specialize (Hput (DynInst.threadNumber i)). rewrite decide_True in Hput by done.
    unfold ROB.thread in *. simpl in *. by rewrite Hput.
Qed.

Lemma getInsts_appends tid ps : forall k k', foldM (getInst P) ps k = Ok k' ->
  exists new, queue tid (rob k') = queue tid (rob k) ++ new.
Proof.
  induction ps as [|p ps IH]; intros k k' H; simpl in H; [apply ok_inj in H as <-; exists []; by rewrite app_nil_r|].
  apply rbind_ok in H as (k1 & H1 & H). destruct (IH _ _ H) as [new Hn]. rewrite Hn.
  destruct (getInst_appends _ _ _ H1) as [->|(i & _ & Ho & Hq & _)]; [by exists new|].
  destruct (decide (tid = DynInst.threadNumber i)) as [->|Hne]; [exists ([p] ++ new); by rewrite Hq, app_assoc|].
  exists new. f_equal. by injection (Ho tid Hne).
Qed.

Lemma waits_getInsts tid q ps : forall k k', foldM (getInst P) ps k = Ok k' -> waits tid q k -> waits tid q k'.
Proof.
  induction ps as [|p ps IH]; intros k k' H Hw; simpl in H; [by apply ok_inj in H as <-|].
  apply rbind_ok in H as (k1 & H1 & H). apply (IH _ _ H).
  destruct (getInst_appends _ _ _ H1) as [->|(i & _ & Ho & _ & c & Hc & Hst)]; [done|].
  eapply waits_view; [|exact Hw]. apply Ho. intros ->. destruct Hw as (c' & Hc' & Hst' & _). congruence.
Qed.

(** Completion and the visibility update neither squash an instruction nor change its fault. *)
Definition same_fate (i i' : DynInst.t) : Prop :=
  DynInst.fault i' = DynInst.fault i /\ DynInst.isSquashed i' = DynInst.isSquashed i.

Lemma mark_completed_fate h p h' q i : mark_completed h p = Ok h' -> h !! q = Some i ->
  exists i', h' !! q = Some i' /\ same_fate i i'.
Proof.
  intros H Hq. unfold mark_completed in H. apply rbind_ok in H as (j & Hj%deref_Ok & H). apply ok_inj in H as <-.
  destruct (DynInst.isSquashed j); [by exists i|]. destruct (decide (q = p)) as [->|Hne]; [|rewrite lookup_insert_ne by done; by exists i].
  rewrite lookup_insert_eq. simplify_eq. eexists. split; [done|]. split; [done|].
  unfold DynInst.isSquashed, DynInst.setCanCommit. by rewrite DynInst.has_set_status.
Qed.

Lemma seen_fate done older i : same_fate i (seen cpu done older i).
Proof.
  split; [apply (ev_fault _ _ (seen_evolves cpu done older i))|]. unfold DynInst.isSquashed.
  destruct (memref i) eqn:Hm; [by rewrite seen_status|]. unfold seen. by rewrite Hm.
Qed.

Lemma completion_fate comp k k' sent : core_ok P cpu k -> NoDup (BaseCPU.activeThreads cpu) ->
  Forall (completes (insts k)) comp -> markCompletedInsts cpu comp k = Ok (k', sent) ->
  forall p i, insts k !! p = Some i -> exists i', insts k' !! p = Some i' /\ (DynInst.isSquashed i = true -> DynInst.isSquashed i' = true)
    /\ forall tid, tid ∈ BaseCPU.activeThreads cpu -> p ∈ queue tid (rob k) -> same_fate i i'.
Proof.
  intros Hok Hnd Hc Hrun p i Hp. unfold markCompletedInsts in Hrun.
  destruct (foldM_ind mark_completed (fun _ h => (rob_ok P cpu h (rob k) /\ objects_ok h /\ forall q, completes (insts k) q -> completes h q)
      /\ exists i', h !! p = Some i' /\ same_fate i i') comp (insts k)) as (h & Hh & (Hr & _) & i1 & Hi1 & Hf1).
  - split; [split_and!; [apply Hok|apply Hok|done]|]. exists i. by split.
  - intros pre q post h Hl [(Hr & Ho & Hk) (i1 & Hi1 & Hf1)]. rewrite Hl, Forall_app in Hc. destruct Hc as [_ Hc].
    inversion Hc as [|? ? Hq _]; subst.
    destruct (mark_completed_ok P cpu (rob k) h q Hr Ho (Hk _ Hq)) as (h' & Hh' & Hr' & Ho' & Hk').
    exists h'. split; [done|]. split; [split_and!; auto|].
    destruct (mark_completed_fate h q h' p i1 Hh' Hi1) as (i2 & Hi2 & H1 & H2). exists i2. split; [done|].
    destruct Hf1. split; congruence.
  - rewrite Hh in Hrun. cbn [rbind] in Hrun. destruct (updateVisibleState_exact _ _ _ _ Hr Hnd) as (h' & Hv & _ & Hk & Hs).
    rewrite Hv in Hrun. apply ok_inj in Hrun as [= <- _]. simpl.
    destruct (proj1 (Hk p)) as [i2 Hi2]; [by eexists|]. exists i2. split; [done|]. split.
    + intros Hsq. destruct (proj2 (Hk p) _ Hi2) as (j & Hj & Hev). simplify_eq. apply (ev_squashed _ _ Hev).
      by rewrite (proj2 Hf1).
    + intros tid Ha [n Hn]%list_elem_of_lookup. unfold queue in Hn. destruct (ROB.thread tid (rob k)) as [th|] eqn:Hth; [|done].
      rewrite (Hs tid th n p i1 Ha Hth Hn Hi1) in Hi2. simplify_eq.
      destruct (seen_fate (ROB.doneSquashing th) (take n (RobSafety.insts h (rob k) tid)) i1), Hf1. split; congruence.
Qed.

(** ** A cycle in its parts *)

(** What follows the loop in a cycle. *)
Definition cycle_end (comp : list DynInstPtr) s s' : Prop :=
  exists s3 k3 s4 sent post, quiet s s3 /\ markCompletedInsts cpu comp (core s3) = Ok (k3, sent)
    /\ core_ok P cpu (core s3) /\ Forall (completes (heap_of s3)) comp
    /\ quiet (with_core k3 s3) s4 /\ core s' = core s4 /\ trace s' = trace s4 ++ post
    /\ (post = [] \/ post = [ActivateStage] \/ post = [DeactivateStage]).

(** What precedes it: the squashes. *)
Record cycle_start s s1 : Prop := {
  cs_squashing : exists k, tick_start P cpu (core s) = Ok k /\ steps_to P cpu (core s) k
    /\ squashing P cpu (BaseCPU.activeThreads cpu) (with_core k (set_stage (status s) Inactive s)) s1;
  cs_trace : exists pre, trace s1 = trace s ++ pre /\ Forall (fun a => exists tid, a = ScheduleThreadExit tid) pre;
  cs_waits : forall tid q, waits tid q (core s) -> waits tid q (core s1)
}.

Lemma squashes_trace w iew s n s' : stage_ok P cpu s -> squashes P cpu w iew s = Ok (n, s') ->
  exists pre, trace s' = trace s ++ pre /\ Forall (fun a => exists tid, a = ScheduleThreadExit tid) pre.
Proof.
  intros Hs Hrun. unfold squashes in Hrun. apply rbind_ok in Hrun as (s1 & H1 & Hrun).
  assert (trace s1 = trace s) as <-.
  { destruct (_ && _); [|by apply ok_inj in H1 as <-]. destruct (propagateInterrupt_ok P cpu s Hs) as (x & Hx & Hq).
    rewrite H1 in Hx. apply ok_inj in Hx as <-. apply Hq. }
  apply rbind_ok in Hrun as ([m s2] & H2 & Hrun). assert (trace s' = trace s2) as -> by (apply ok_inj in Hrun as [= _ <-]; by destruct (_ =? 0)).
  clear -H2. revert H2. generalize 0 as n0. generalize s1 as s0. induction (BaseCPU.activeThreads cpu) as [|tid l IH]; intros s0 n0 H; simpl in H.
  - apply ok_inj in H as [= _ <-]. exists []. by rewrite app_nil_r.
  - apply rbind_ok in H as ([n1 s1'] & H1 & H). destruct (IH _ _ H) as (pre & -> & Hpre).
    apply rbind_ok in H1 as (c & _ & H1). apply rbind_ok in H1 as ([n2 k] & _ & H1). apply ok_inj in H1 as [= _ <-].
    destruct (trapSquash c && _); [|by exists pre]. exists (ScheduleThreadExit tid :: pre). split; [simpl; by rewrite <- app_assoc|].
    constructor; [by eexists|done].
Qed.

Lemma tick_parts w iew ren comp s s' sent :
  stage_ok P cpu s -> NoDup (BaseCPU.activeThreads cpu) -> cycle_ok P C cpu w iew ren comp s ->
  tick P C cpu w iew ren comp s = Ok (s', sent) ->
  exists s1 s2, cycle_start s s1 /\ cycle_end comp s2 s'
    /\ (s2 = s1 \/ exists k n, foldM (getInst P) (take (renameWidth C) ren) (core s1) = Ok k
          /\ loop_ok P cpu w (with_core k s1) /\ commitInsts P C cpu w (with_core k s1) = Ok (s2, n)).
Proof.
  intros Hs Hnd Hcy Hrun. unfold tick in Hrun.
  destruct (BaseCPU.activeThreads cpu) as [|t0 ts] eqn:Hact; [pose proof (sg_zero _ _ _ Hs) as Hz; rewrite Hact in Hz; by apply not_elem_of_nil in Hz|].
  rewrite <- Hact in Hrun, Hnd. clear t0 ts Hact.
  set (sz := set_stage (status s) Inactive s) in *.
  assert (stage_ok P cpu sz) as Hsz by (eapply quiet_stage; [apply quiet_same_stage|done]).
  apply rbind_ok in Hrun as (k & Hk & Hrun).
  destruct (tick_start_ok P cpu (core sz)) as (k' & Hk' & Hsteps); [apply Hsz|]. rewrite Hk in Hk'. apply ok_inj in Hk' as <-.
  pose proof Hsteps as (Hok & _ & Hq & Hkeep).
  set (s0 := with_core k sz) in *. assert (stage_ok P cpu s0) as Hs0 by by apply stage_core.
  assert (iew_ok iew (core s0)) as Hiew by (intros tid p Hp; apply Hkeep; by apply (cy_iew _ _ _ _ _ _ _ _ Hcy tid)).
  apply rbind_ok in Hrun as (s3 & H3 & Hrun). unfold commit in H3. apply rbind_ok in H3 as ([n s1] & H1 & H3).
  destruct (squashes_ok P cpu w iew s0 Hs0 Hiew) as (n' & s1' & H1' & Hsq). rewrite H1 in H1'. apply ok_inj in H1' as [= <- <-].
  pose proof Hsq as [Hst1 (_ & _ & _ & Hk1) _ _]. apply rbind_ok in H3 as (s2 & H2 & H3). exists s1, s2.
  assert (s2 = s1 \/ exists k n, foldM (getInst P) (take (renameWidth C) ren) (core s1) = Ok k
          /\ loop_ok P cpu w (with_core k s1) /\ commitInsts P C cpu w (with_core k s1) = Ok (s2, n)) as Hloop.
  { destruct (n =? ROB.numThreads P); [left; by apply ok_inj in H2 as <-|right].
    apply rbind_ok in H2 as (k2 & Hk2 & H2). apply rbind_ok in H2 as ([s2' m] & H2 & Heq). apply ok_inj in Heq as <-.
    exists k2, m. split_and!; [done| |done]. unfold getInsts in Hk2.
    destruct (getInsts_ok P cpu (take (renameWidth C) ren) (core s1)) as (k2' & Hget & Hok2 & Hkk & Hck);
      [apply Hst1|by eapply (cy_arrive P C cpu w iew ren comp s Hcy)|]. rewrite Hk2 in Hget. apply ok_inj in Hget as <-.
    apply (intake_loop P C cpu w iew ren comp s s0 s1 k2); [exact Hcy|exact Hkeep|exact Hq|exact eq_refl|exact Hsq|done..]. }
  assert (stage_ok P cpu s2 /\ keeps_objects (heap_of s1) (heap_of s2)) as [Hs2 Hk2].
  { destruct Hloop as [->|(k2 & m & Hget & Hl & Hc)]; [done|].
    destruct (getInsts_ok P cpu (take (renameWidth C) ren) (core s1)) as (k2' & Hget' & _ & Hkk & _);
      [apply Hst1|by eapply (cy_arrive P C cpu w iew ren comp s Hcy)|]. rewrite Hget in Hget'. apply ok_inj in Hget' as <-.
    destruct (commitInsts_ok P C cpu w (with_core k2 s1) Hl) as (s2' & n2 & acts & Hc' & Hm & Hs2 & _).
    rewrite Hc in Hc'. apply ok_inj in Hc' as [= <- <-]. split; [done|]. etransitivity; [exact Hkk|exact (mv_keeps _ _ _ _ _ Hm)]. }
  split; [|split; [|done]].
  - split; [exists k; by split_and!| |].
    + destruct (squashes_trace w iew s0 n s1 Hs0 H1) as (pre & Hp & Hf). by exists pre.
    + intros tid q Hw. eapply waits_squashes; [exact Hs0|exact Hiew|exact H1|]. eapply waits_tick_start; [apply Hsz|exact Hw|exact Hk].
  - destruct (foldM_quiet P cpu (report_step w) s2 (report_step_ok P cpu w) Hs2) as (s3' & H3' & Hq3).
    rewrite H3 in H3'. apply ok_inj in H3' as <-.
    assert (Forall (completes (heap_of s3)) comp) as Hcomp.
    { rewrite (q_heap _ _ Hq3). eapply Forall_impl; [apply (cy_completed _ _ _ _ _ _ _ _ Hcy)|]. intros p Hp.
      eapply keeps_completes; [|exact Hp]. etransitivity; [exact Hkeep|]. etransitivity; [exact Hk1|exact Hk2]. }
    assert (stage_ok P cpu s3) as Hs3 by by eapply quiet_stage.
    apply rbind_ok in Hrun as ([k3 sent'] & H4 & Hrun).
    destruct (markCompletedInsts_ok P cpu (core s3) comp) as (k3' & sent2 & H4' & Hok3 & _); [apply Hs3|done|done|].
    rewrite H4 in H4'. apply ok_inj in H4' as [= <- <-].
    apply rbind_ok in Hrun as (s4 & H5 & Hrun). apply rbind_ok in Hrun as (s5 & H6 & Hrun). apply ok_inj in Hrun as [= <- <-].
    destruct (foldM_quiet P cpu head_step (with_core k3 s3) (head_step_ok P cpu) (stage_core _ _ _ _ Hs3 Hok3)) as (s4' & H5' & Hq4).
    rewrite H5 in H5'. apply ok_inj in H5' as <-.
    unfold updateStatus in H6. apply rbind_ok in H6 as (s6 & H6 & H7). apply ok_inj in H7 as <-.
    destruct (foldM_quiet P cpu updateStatus_step s4 (updateStatus_step_ok P cpu)) as (s6' & H6' & Hq6);
      [eapply quiet_stage; [exact Hq4|by apply stage_core]|]. rewrite H6 in H6'. apply ok_inj in H6' as <-.
    exists s3, k3, s6, sent'. destruct (nextStatus s6), (status s6);
      [exists []|exists [ActivateStage]|exists [DeactivateStage]|exists []]; rewrite ?app_nil_r;
      (split_and!; [done|done|apply Hs3|done|by etransitivity|done|by rewrite ?app_nil_r|tauto]).
Qed.

Lemma end_view comp s s' tid q : cycle_end comp s s' -> waits tid q (core s) -> waits tid q (core s').
Proof.
  intros (s3 & k3 & s4 & sent & post & Hq3 & Hm & _ & _ & Hq4 & Hc & _) Hw. rewrite Hc.
  eapply waits_quiet; [exact Hq4|]. eapply (waits_view tid q (core s3)); [|by eapply waits_quiet].
  unfold markCompletedInsts in Hm. apply rbind_ok in Hm as (h & _ & Hm). apply rbind_ok in Hm as ([h' x] & _ & Hm).
  by apply ok_inj in Hm as [= <- _].
Qed.

Lemma waits_tick tid q w iew ren comp s s' sent :
  stage_ok P cpu s -> NoDup (BaseCPU.activeThreads cpu) -> cycle_ok P C cpu w iew ren comp s -> q <> [] ->
  tick P C cpu w iew ren comp s = Ok (s', sent) -> waits tid q (core s) -> waits tid q (core s').
Proof.
  intros Hs Hnd Hcy Hne Hrun Hw. destruct (tick_parts _ _ _ _ _ _ _ Hs Hnd Hcy Hrun) as (s1 & s2 & Hst & Hend & Hl).
  eapply end_view; [exact Hend|]. apply (cs_waits _ _ Hst) in Hw. destruct Hl as [->|(k & n & Hget & Hl & Hc)]; [done|].
  eapply (waits_loop tid q w _ 0 (with_core k s1)); [exact Hl|lia|exact Hne| |exact Hc]. by eapply waits_getInsts.
Qed.

(** ** Histories *)

Lemma waits_run tid q e s s' : stage_ok P cpu s -> NoDup (BaseCPU.activeThreads cpu) -> enabled P C cpu e s -> q <> [] ->
  e <> TrapFires tid -> run P C cpu e s = Ok s' -> waits tid q (core s) -> waits tid q (core s').
Proof.
  intros Hs Hnd He Hne Hf Hrun Hw. destruct e as [w iew r c|tid'|tid'|p j| |]; simpl in *.
  - apply rbind_ok in Hrun as ([s1 sent] & H1 & Hrun). apply ok_inj in Hrun as <-. by eapply waits_tick.
  - eapply waits_view; [|exact Hw]. apply (view_update tid tid' (set_trapSquash true)); [congruence|exact Hrun].
  - destruct (decide (tid' = tid)) as [->|Hn]; [|eapply waits_view; [|exact Hw]; by eapply view_conditionalSquash].
    destruct Hw as (c & Hc & H1 & H2 & H). unfold conditionalSquash, thread in Hrun. rewrite Hc in Hrun. cbn [rbind] in Hrun.
    rewrite H2 in Hrun. apply ok_inj in Hrun as <-. by exists c.
  - apply ok_inj in Hrun as <-. eapply waits_view; [|exact Hw]. done.
  - by apply ok_inj in Hrun as <-.
  - by apply ok_inj in Hrun as <-.
Qed.

Lemma waits_history tid q es : forall s s', stage_ok P cpu s -> NoDup (BaseCPU.activeThreads cpu) -> all_enabled P C cpu es s ->
  q <> [] -> Forall (fun e => e <> TrapFires tid) es -> run_all P C cpu es s = Ok s' ->
  waits tid q (core s) -> waits tid q (core s').
Proof.
  induction es as [|e es IH]; intros s s' Hs Hnd Hen Hne Hf Hrun Hw; [by apply ok_inj in Hrun as <-|].
  destruct Hen as [He Hes]. apply Forall_cons in Hf as [Hf Hfs]. destruct (stage_run_ok P C cpu e s Hs Hnd He) as (s1 & H1 & Hs1).
  unfold run_all in Hrun. simpl in Hrun. rewrite H1 in Hrun. cbn [rbind] in Hrun.
  eapply (IH s1); [done|done|by apply Hes|done|done|exact Hrun|]. apply (waits_run tid q e s s1); done.
Qed.

(** ** The cycle that takes the trap *)

Lemma no_retire acts tid p : committed acts = O -> Retire tid p ∈ acts -> False.
Proof.
  unfold committed. induction acts as [|a acts IH]; [set_solver|]. simpl.
  rewrite elem_of_cons. destruct a; simpl; intros Hc [|]; naive_solver.
Qed.

Lemma left_elem tid acts p :
  p ∈ left tid acts -> Retire tid p ∈ acts \/ Drop tid p ∈ acts.
Proof.
  unfold left. rewrite list_elem_of_omap. intros (a & Ha & Hp). destruct a; simpl in Hp; try done.
  - destruct (Z.eqb_spec tid0 tid); naive_solver.
  - destruct (Z.eqb_spec tid0 tid); naive_solver.
Qed.

(** What the parts around the loop log takes nothing out of the buffer. *)
Lemma exits_only tid pre : Forall (fun a => exists tid, a = ScheduleThreadExit tid) pre ->
  left tid pre = [] /\ committed pre = O /\ forall f p, Trap f tid (Some p) ∉ pre.
Proof.
  induction 1 as [|a pre [t ->] _ (H1 & H2 & H3)]; [split_and!; [done|done|intros f p; apply not_elem_of_nil]|]. split_and!; [done..|].
  intros f p [?|Hin]%elem_of_cons; [done|by apply (H3 f p)].
Qed.

Lemma status_only (post : list Action) tid : post = [] \/ post = [ActivateStage] \/ post = [DeactivateStage] ->
  left tid post = [] /\ committed post = O /\ forall f p, Trap f tid (Some p) ∉ post.
Proof. intros [->|[->| ->]]; (split_and!; [done..|]); intros f p Hin; set_solver. Qed.

(** C17. Traps are precise. When a cycle of the stage takes the trap of an instruction, it
    commits nothing, the thread has no store on its way to memory, the faulting
    instruction is at the head of the thread's list, and what was in front of it when the
    loop started (in the list at the start of the cycle, or taken from rename in it) were
    squashed instructions. From then on, after every sequence of further cycles - with any
    squashes that the execute stage asks for, interrupts, instructions from rename and
    completions -, writes through the thread context, work of other stages and requests to
    drain, under the rules of [commit_history_ok] and as long as the latency of this trap
    has not run out, the thread still waits for its trap and its list is the same: no
    instruction of it has entered the buffer, been committed or left. *)
Theorem traps_precise w iew ren comp s s1 sent acts f tid p :
  stage_ok P cpu s -> NoDup (BaseCPU.activeThreads cpu) -> cycle_ok P C cpu w iew ren comp s ->
  tick P C cpu w iew ren comp s = Ok (s1, sent) -> trace s1 = trace s ++ acts -> Trap f tid (Some p) ∈ acts ->
  committed acts = O /\ hasStoresToWB w tid = false
  /\ (exists new l i, queue tid (rob_of s) ++ new = left tid acts ++ p :: l /\ queue tid (rob_of s1) = p :: l
        /\ heap_of s1 !! p = Some i /\ DynInst.fault i <> None /\ DynInst.isSquashed i = false)
  /\ Forall (fun q => exists j, heap_of s1 !! q = Some j /\ DynInst.isSquashed j = true) (left tid acts)
  /\ (forall es s2, Forall (fun e => e <> TrapFires tid) es -> all_enabled P C cpu es s1 -> run_all P C cpu es s1 = Ok s2 ->
        queue tid (rob_of s2) = queue tid (rob_of s1)
        /\ exists c, thread tid s2 = Ok c /\ commitStatus c = TrapPending /\ trapSquash c = false).
Proof.
  intros Hs Hnd Hcy Hrun Htr Hin. destruct (tick_ok P C cpu w iew ren comp s Hs Hnd Hcy) as (x & y & Hx & Hs1).
  rewrite Hrun in Hx. apply ok_inj in Hx as [= <- <-].
  destruct (tick_parts _ _ _ _ _ _ _ Hs Hnd Hcy Hrun) as (sa & sb & Hst & Hend & Hl).
  destruct (cs_trace _ _ Hst) as (pre & Hpre & Hp). pose proof Hend as (s3 & k3 & s4 & sent' & post & Hq3 & Hm & Hok3 & Hcomp & Hq4 & Hc & Hpost & Hpo).
  destruct (exits_only tid pre Hp) as (L1 & C1 & N1), (status_only post tid Hpo) as (L2 & C2 & N2).
  assert (trace s4 = trace sb) as Ht4 by (rewrite (q_trace _ _ Hq4); exact (q_trace _ _ Hq3)).
  rewrite Ht4 in Hpost. destruct Hl as [->|(k & n & Hget & Hl & Hcm)].
  { exfalso. rewrite Hpre, Htr, <- app_assoc in Hpost. apply app_inv_head in Hpost as ->.
    apply elem_of_app in Hin as [Hin|Hin]; [by apply N1 in Hin|by apply N2 in Hin]. }
  destruct (commitInsts_ok P C cpu w (with_core k sa) Hl) as (sb' & n' & mid & Hcm' & Hmv & _ & Hn & _ & Htrap).
  rewrite Hcm in Hcm'. apply ok_inj in Hcm' as [= <- <-].
  rewrite (mv_trace _ _ _ _ _ Hmv), Htr in Hpost. change (trace (with_core k sa)) with (trace sa) in Hpost.
  rewrite Hpre, <- !app_assoc in Hpost. apply app_inv_head in Hpost as ->.
  assert (Trap f tid (Some p) ∈ mid) as Hmid.
  { apply elem_of_app in Hin as [Hin|[Hin|Hin]%elem_of_app]; [by apply N1 in Hin|done|by apply N2 in Hin]. }
  clear Hin Htr. pose proof (mv_acts _ _ _ _ _ Hmv) as Ha. rewrite Forall_forall in Ha.
  destruct (Ha _ Hmid) as (i & l & c & Hq & Hi & Hf & _ & Hsq & Hsto & Hct & Hst1 & Htp & Hts & Htc & Hact).
  assert (n = 0) as Hn0 by (apply Htrap, existsb_exists; eexists; split; [by apply list_elem_of_In|done]).
  assert (left tid (pre ++ mid ++ post) = left tid mid) as Hleft
    by (unfold left in *; by rewrite !omap_app, L1, L2, app_nil_r).
  assert (waits tid (p :: l) (core s1)) as Hw by (eapply end_view; [exact Hend|]; exists c; by split_and!).
  assert (queue tid (rob_of s1) = p :: l) as Hq1 by (destruct Hw as (? & _ & _ & _ & _ & _ & ?); done).
  assert (forall q j, heap_of sb !! q = Some j -> exists j', heap_of s1 !! q = Some j'
    /\ (DynInst.isSquashed j = true -> DynInst.isSquashed j' = true) /\ (q ∈ queue tid (rob_of sb) -> same_fate j j')) as Hfate.
  { intros q j Hj. rewrite <- (q_heap _ _ Hq3) in Hj.
    destruct (completion_fate comp (core s3) k3 sent' Hok3 Hnd Hcomp Hm q j Hj) as (j' & Hj' & H1 & H2). exists j'.
    assert (heap_of s1 = insts k3) as Hh by (unfold heap_of; rewrite Hc; exact (q_heap _ _ Hq4)). rewrite Hh. split_and!; [done..|].
    intros Hqq. apply (H2 tid Hact). pose proof (q_rob _ _ Hq3) as Hr. unfold rob_of in *. by rewrite Hr. }
  split_and!.
  - unfold committed in *. rewrite !List.filter_app, !length_app, C1, C2. lia.
  - done.
  - destruct (getInsts_appends tid _ _ _ Hget) as [new Hnew].
    destruct (Hfate _ _ Hi) as (i' & Hi' & _ & Hsame); [..|destruct Hsame as [E1 E2]; [rewrite Hq; left|]].
    exists new, l, i'. rewrite Hleft, Hq1, E1, E2. split_and!; try done.
    destruct (cs_squashing _ _ Hst) as (k0 & _ & (_ & _ & Hqs & _) & [_ (_ & _ & Hqs' & _) _ _]).
    pose proof (mv_queue _ _ _ _ _ Hmv tid) as Hmq. rewrite Hq in Hmq. rewrite <- Hmq.
    change (queue tid (rob (core s)) ++ new = queue tid (rob k)). rewrite Hnew. f_equal.
    rewrite (Hqs' tid). symmetry. apply Hqs.
  - rewrite Hleft. apply Forall_forall. intros q [Hr|Hd]%left_elem.
    + exfalso. eapply no_retire; [|exact Hr]. lia.
    + destruct (Ha _ Hd) as (j & Hj & _ & _ & Hjs). destruct (Hfate _ _ Hj) as (j' & Hj' & H1 & _). exists j'. split; [done|by apply H1].
  - intros es s2 Hes Hen Hr. destruct (waits_history tid (p :: l) es s1 s2 Hs1 Hnd Hen ltac:(done) Hes Hr Hw) as (c' & ? & ? & ? & ? & ? & ?).
    rewrite Hq1. split; [done|]. exists c'. by split_and!.
Qed.

End trap.
End CommitTrap.

(** ** The faulting load behind a branch, once more *)
Module TrapWitness.
Import Commit CommitStage CommitCycle CoreExamples CommitWitness CommitTrap.

(** The load is at the head and traps; then its thread context is written, and a cycle passes. *)
Definition trapped : t (list Z) := Eval vm_compute in the none (run params stage_params cpu next s5).
Definition later : list event := [ContextWrite 0; next].
Definition written : t (list Z) := Eval vm_compute in the none (run params stage_params cpu (ContextWrite 0) trapped).
Definition waiting : t (list Z) := Eval vm_compute in the none (run params stage_params cpu next written).

Lemma s5_cycle : cycle_ok params stage_params cpu env no_squash [] [] s5.
Proof. apply cycle_check_ok. vm_compute. reflexivity. Qed.
Lemma trapped_run : tick params stage_params cpu env no_squash [] [] s5 = Ok (trapped, []).
Proof. vm_cast_no_check (eq_refl (Ok (trapped, @nil Packet.t))). Qed.
Lemma later_run : run_all params stage_params cpu later trapped = Ok waiting.
Proof. steps waiting. Qed.

Lemma later_enabled : all_enabled params stage_params cpu later trapped.
Proof.
  apply (stage_enabled_cons _ _ _ _ _ _ written); [eexists; split; [vm_compute; reflexivity|done]|steps written|].
  apply (stage_enabled_cons _ _ _ _ _ _ waiting); [apply cycle_check_ok; vm_compute; reflexivity|steps waiting|done].
Qed.

Lemma traps_precise_witness :
  trace trapped = trace s5 ++ [Trap 7 0 (Some 2); ScheduleTrap 0]
  /\ (exists new l i, RobSafety.queue 0 (rob_of s5) ++ new = 2 :: l /\ RobSafety.queue 0 (rob_of trapped) = 2 :: l
        /\ heap_of trapped !! 2 = Some i /\ DynInst.fault i <> None /\ DynInst.isSquashed i = false)
  /\ RobSafety.queue 0 (rob_of waiting) = RobSafety.queue 0 (rob_of trapped).
Proof.
  assert (trace trapped = trace s5 ++ [Trap 7 0 (Some 2); ScheduleTrap 0]) as Ht by (vm_compute; reflexivity).
  split; [exact Ht|].
  assert (Trap 7 0 (Some 2) ∈ [Trap 7 0 (Some 2); ScheduleTrap 0]) as Hin by constructor.
  destruct (traps_precise params stage_params cpu env no_squash [] [] s5 trapped [] _ 7 0 2
    s5_ok CommitFacts.cpu_NoDup s5_cycle trapped_run Ht Hin) as (_ & _ & Hq & _ & Hlater).
  split; [exact Hq|]. refine (proj1 (Hlater later waiting _ later_enabled later_run)).
  apply Forall_cons. split; [discriminate|]. apply Forall_cons. split; [discriminate|apply Forall_nil_2].
Defined.

End TrapWitness.
