(* ===== verification/Lsq.v ===== *)
(** * Memory requests of the load/store queue: cpu/o3/lsq.hh, lsq_impl.hh, cpu/utils.hh

    An [LSQRequest] turns the access of an instruction into requests, has them
    translated, builds the packets and sends them to the data cache; this is where
    speculative loads are marked no-fill and where the packet for the safe history
    buffer is made. [SingleDataRequest] and [SplitDataRequest] are one record with a
    [split] bit, the virtual functions have one definition per class.

    The MMU is not modelled: [initiateTranslation] returns the fragments it hands
    over, [finish] takes the translated request back. The buffer of the instruction
    that packets point into is copied where a packet is made. When a request is
    deleted, and how it is sent, involves the queues: see [LsqUnit]. *)

From stdpp Require Import gmap.
From S2P Require Import Prelude.
From S2P Require Import BaseUtil MemCmd Request Packet CircularQueue DynInst Rob.

Local Open Scope Z_scope.

(** ** cpu/utils.hh *)
Module CpuUtils.

Definition addrBlockOffset (addr block_size : Z) : Z := Z.land addr (u64 (block_size - 1)).
Definition addrBlockAlign (addr block_size : Z) : Z := Z.land addr (unot 64 (u64 (block_size - 1))).
Definition transferNeedsBurst (addr size block_size : Z) : bool :=
  block_size <? u64 (addrBlockOffset addr block_size + size).
Definition isAnyActiveElement (l : list bool) : bool := existsb (fun b => b) l.

End CpuUtils.

Module LSQRequest.
Import CpuUtils.

(** ** State *)

Definition IsLoad := 0x00000001.
Definition WbStore := 0x00000002.
Definition Delayed := 0x00000004.
Definition IsSplit := 0x00000008.
Definition TranslationStarted := 0x00000010.
Definition TranslationFinished := 0x00000020.
Definition Sent := 0x00000040.
Definition Retry := 0x00000080.
Definition Complete := 0x00000100.
Definition TranslationSquashed := 0x00000200.
Definition Discarded := 0x00000400.
Definition LSQEntryFreed := 0x00000800.
Definition WritebackScheduled := 0x00001000.
Definition WritebackDone := 0x00002000.
Definition IsAtomic := 0x00004000.

Inductive State := NotIssued | Translation | Request | Fault | PartialFault.

(** [LSQSenderState] with the [idx] of its two subclasses. The packets of a request
    point to its sender state, which points back to the request: [_request] is the key
    of the request, and the tag of its packets. A sender state lives as long as its
    request, so it is part of it. *)
Record SenderState := mkSS {
  _request : Z;
  inst : DynInstPtr;
  outstanding : Z;
  ss_isLoad : bool;
  needWB : bool;
  ss_isSplit : bool;
  deleted : bool;
  idx : CircularQueue.iterator
}.
Definition set_ss_outstanding (n : Z) (s : SenderState) : SenderState :=
  mkSS (_request s) (inst s) n (ss_isLoad s) (needWB s) (ss_isSplit s) (deleted s) (idx s).
Definition deleteRequest (s : SenderState) : SenderState :=
  mkSS (_request s) (inst s) (outstanding s) (ss_isLoad s) (needWB s) (ss_isSplit s) true (idx s).
Definition alive (s : SenderState) : bool := negb (deleted s).

(** [_senderState] is [None] for a null pointer. *)
Record t := mk {
  flags : Z;
  _state : State;
  _senderState : option SenderState;
  numTranslatedFragments : Z;
  numInTranslationFragments : Z;
  _inst : DynInstPtr;
  _taskId : Z;
  _packets : list Packet.t;
  _requests : list Request.t;
  _fault : list (option Z);
  _res : option Z;
  _addr : Z;
  _size : Z;
  _flags : Z;
  _byteEnable : list bool;
  _numOutstandingPackets : Z;
  _amo_op : option (list Z -> list Z);
  numReceivedPackets : Z;
  mainReq : option Request.t;
  _mainPacket : option Packet.t
}.

Definition with_flags (v : Z) (q : t) : t :=
  mk v (_state q) (_senderState q) (numTranslatedFragments q) (numInTranslationFragments q) (_inst q)
    (_taskId q) (_packets q) (_requests q) (_fault q) (_res q) (_addr q) (_size q) (_flags q)
    (_byteEnable q) (_numOutstandingPackets q) (_amo_op q) (numReceivedPackets q) (mainReq q) (_mainPacket q).
Definition setState (v : State) (q : t) : t :=
  mk (flags q) v (_senderState q) (numTranslatedFragments q) (numInTranslationFragments q) (_inst q)
    (_taskId q) (_packets q) (_requests q) (_fault q) (_res q) (_addr q) (_size q) (_flags q)
    (_byteEnable q) (_numOutstandingPackets q) (_amo_op q) (numReceivedPackets q) (mainReq q) (_mainPacket q).
Definition set_translation (translated in_translation : Z) (q : t) : t :=
  mk (flags q) (_state q) (_senderState q) translated in_translation (_inst q)
    (_taskId q) (_packets q) (_requests q) (_fault q) (_res q) (_addr q) (_size q) (_flags q)
    (_byteEnable q) (_numOutstandingPackets q) (_amo_op q) (numReceivedPackets q) (mainReq q) (_mainPacket q).
Definition set_packets (ps : list Packet.t) (main : option Packet.t) (q : t) : t :=
  mk (flags q) (_state q) (_senderState q) (numTranslatedFragments q) (numInTranslationFragments q) (_inst q)
    (_taskId q) ps (_requests q) (_fault q) (_res q) (_addr q) (_size q) (_flags q)
    (_byteEnable q) (_numOutstandingPackets q) (_amo_op q) (numReceivedPackets q) (mainReq q) main.
Definition set_requests (rs : list Request.t) (q : t) : t :=
  mk (flags q) (_state q) (_senderState q) (numTranslatedFragments q) (numInTranslationFragments q) (_inst q)
    (_taskId q) (_packets q) rs (_fault q) (_res q) (_addr q) (_size q) (_flags q)
    (_byteEnable q) (_numOutstandingPackets q) (_amo_op q) (numReceivedPackets q) (mainReq q) (_mainPacket q).
Definition set_fault (fs : list (option Z)) (q : t) : t :=
  mk (flags q) (_state q) (_senderState q) (numTranslatedFragments q) (numInTranslationFragments q) (_inst q)
    (_taskId q) (_packets q) (_requests q) fs (_res q) (_addr q) (_size q) (_flags q)
    (_byteEnable q) (_numOutstandingPackets q) (_amo_op q) (numReceivedPackets q) (mainReq q) (_mainPacket q).
Definition set_amo (f : option (list Z -> list Z)) (q : t) : t :=
  mk (flags q) (_state q) (_senderState q) (numTranslatedFragments q) (numInTranslationFragments q) (_inst q)
    (_taskId q) (_packets q) (_requests q) (_fault q) (_res q) (_addr q) (_size q) (_flags q)
    (_byteEnable q) (_numOutstandingPackets q) f (numReceivedPackets q) (mainReq q) (_mainPacket q).
Definition set_mainReq (r : option Request.t) (q : t) : t :=
  mk (flags q) (_state q) (_senderState q) (numTranslatedFragments q) (numInTranslationFragments q) (_inst q)
    (_taskId q) (_packets q) (_requests q) (_fault q) (_res q) (_addr q) (_size q) (_flags q)
    (_byteEnable q) (_numOutstandingPackets q) (_amo_op q) (numReceivedPackets q) r (_mainPacket q).
Definition set_outstanding (n : Z) (q : t) : t :=
  mk (flags q) (_state q) (_senderState q) (numTranslatedFragments q) (numInTranslationFragments q) (_inst q)
    (_taskId q) (_packets q) (_requests q) (_fault q) (_res q) (_addr q) (_size q) (_flags q)
    (_byteEnable q) n (_amo_op q) (numReceivedPackets q) (mainReq q) (_mainPacket q).

Definition with_ss (v : option SenderState) (q : t) : t :=
  mk (flags q) (_state q) v (numTranslatedFragments q) (numInTranslationFragments q) (_inst q)
    (_taskId q) (_packets q) (_requests q) (_fault q) (_res q) (_addr q) (_size q) (_flags q)
    (_byteEnable q) (_numOutstandingPackets q) (_amo_op q) (numReceivedPackets q) (mainReq q) (_mainPacket q).
Definition set_call (be : list bool) (task : Z) (q : t) : t :=
  mk (flags q) (_state q) (_senderState q) (numTranslatedFragments q) (numInTranslationFragments q) (_inst q)
    task (_packets q) (_requests q) (_fault q) (_res q) (_addr q) (_size q) (_flags q)
    be (_numOutstandingPackets q) (_amo_op q) (numReceivedPackets q) (mainReq q) (_mainPacket q).
Definition set_received (n : Z) (q : t) : t :=
  mk (flags q) (_state q) (_senderState q) (numTranslatedFragments q) (numInTranslationFragments q) (_inst q)
    (_taskId q) (_packets q) (_requests q) (_fault q) (_res q) (_addr q) (_size q) (_flags q)
    (_byteEnable q) (_numOutstandingPackets q) (_amo_op q) n (mainReq q) (_mainPacket q).

Definition set_flag (f : Z) (q : t) : t := with_flags (Flags.set (flags q) f) q.
Definition isLoad (q : t) : bool := Flags.isSet (flags q) IsLoad.
Definition isAtomic (q : t) : bool := Flags.isSet (flags q) IsAtomic.
Definition isSplit (q : t) : bool := Flags.isSet (flags q) IsSplit.

(** The constructors of the two classes, the caller then setting the byte enables
    and the task. The queue of the request is entered in [LSQUnit.install]. *)
Definition make (inst : DynInstPtr) (i : DynInst.t) (is_load : bool) (addr size reqFlags : Z)
    (res : option Z) (amo : option (list Z -> list Z)) (split : bool) (be : list bool) (task : Z) : t :=
  let f := Flags.set_cond 0 IsLoad is_load in
  let f := Flags.set_cond f WbStore (DynInst.isStoreConditional i || DynInst.isAtomic i) in
  let f := Flags.set_cond f IsAtomic (DynInst.isAtomic i) in
  let f := if split then Flags.set f IsSplit else f in
  mk f NotIssued None 0 0 inst task [] [] [] res addr size reqFlags be 0
    (if split then None else amo) 0 None None.

(** ** Queries *)

Definition isAnyOutstandingRequest (q : t) : bool :=
  (0 <? numInTranslationFragments q) || (0 <? _numOutstandingPackets q)
  || (Flags.isSet (flags q) WritebackScheduled && negb (Flags.isSet (flags q) WritebackDone)).
Definition isReleased (q : t) : bool :=
  Flags.isSet (flags q) LSQEntryFreed || Flags.isSet (flags q) Discarded.
Definition isInTranslation (q : t) : bool :=
  match _state q with Translation => true | _ => false end.
Definition isTranslationComplete (q : t) : bool :=
  Flags.isSet (flags q) TranslationStarted && negb (isInTranslation q).
Definition isTranslationBlocked (q : t) : bool :=
  isInTranslation q && Flags.isSet (flags q) TranslationStarted
  && negb (Flags.isSet (flags q) TranslationFinished).
Definition isPartialFault (q : t) : bool := match _state q with PartialFault => true | _ => false end.
Definition isMemAccessRequired (q : t) : bool :=
  match _state q with Request => true | _ => isPartialFault q && isLoad q end.
(** [SplitDataRequest::mainRequest] and [LSQRequest::mainRequest]; [None] is null. *)
Definition mainRequest (q : t) : res (option Request.t) :=
  if isSplit q then Ok (mainReq q)
  else assert! (length (_requests q) =? 1)%nat in Ok (head (_requests q)).
Definition mainPacket (q : t) : res (option Packet.t) :=
  if isSplit q then Ok (_mainPacket q)
  else assert! (length (_packets q) =? 1)%nat in Ok (head (_packets q)).
Definition request (q : t) : res Request.t :=
  match _requests q with r :: _ => Ok r | [] => Err Undefined end.
Definition getVaddr (q : t) : res Z := let* r := request q in Request.getVaddr r.
Definition isSent (q : t) : bool := Flags.isSet (flags q) Sent.
Definition isComplete (q : t) : bool := Flags.isSet (flags q) Complete.
Definition setStateToFault (q : t) : t := setState Fault q.
Definition complete (q : t) : t := set_flag Complete q.
Definition discardSenderState (q : t) : res t :=
  match _senderState q with Some s => Ok (with_ss (Some (deleteRequest s)) q) | None => Err AssertFail end.
Definition writebackScheduled (q : t) : res t :=
  assert! negb (Flags.isSet (flags q) WritebackScheduled) in Ok (set_flag WritebackScheduled q).
(** [senderState(st)]: the packets that exist get it as well. *)
Definition senderState (s : SenderState) (q : t) : t :=
  with_ss (Some s) (set_packets (map (Packet.with_senderState [Packet.SS_Other (_request s)]) (_packets q))
    (_mainPacket q) q).
Definition packetSent (q : t) : t := set_flag Sent q.
Definition packetNotSent (q : t) : t :=
  let q := set_flag Retry q in with_flags (Flags.clear (flags q) Sent) q.

Section lsq.
(** [domain]: the value of MISCREG_DOMAINID of a thread; [context]: its context. *)
Variables (cpu : BaseCPU.t) (domain context : Z -> Z) (now : Z).

(** ** Making requests *)

(** The condition under which a request is marked no-fill. *)
Definition mark_no_fill (q : t) (i : DynInst.t) : bool :=
  BaseCPU.rasAll cpu || (BaseCPU.rasLoad cpu && isLoad q)
  || (BaseCPU.rasSpec cpu && isLoad q && negb (DynInst.isPrevInstsCompleted i)).

Definition addRequest (h : heap) (addr size : Z) (byte_enable : list bool) (q : t) : res t :=
  if isAnyActiveElement byte_enable then
    let* i := deref h (_inst q) in
    let tid := DynInst.threadNumber i in
    let r := Request.make_virt now addr size (_flags q) (BaseCPU.dataRequestorId cpu)
               (DynInst.instAddr i) (context tid) (_amo_op q) in
    let* r := Request.setByteEnable byte_enable r in
    let r := Request.setDomainID (domain tid) r in
    let* r := if mark_no_fill q i then Request.setFlags Request.NO_FILL r else Ok r in
    let* r := Request.setFlags Request.DEMAND_FETCH r in
    Ok (set_requests (_requests q ++ [r]) (set_amo None q))
  else Ok q.

(** The fragments handed to the MMU, as indices. *)
Definition sendFragmentToTranslation (idx : nat) (q : t) : res t :=
  match _requests q !! idx with
  | Some _ => Ok (set_translation (numTranslatedFragments q) (u32 (numInTranslationFragments q + 1)) q)
  | None => Err Undefined
  end.

Definition update_inst (h : heap) (p : DynInstPtr) (f : DynInst.t -> DynInst.t) : res heap :=
  let* i := deref h p in Ok (<[p := f i]> h).

(** [SingleDataRequest::initiateTranslation] *)
Definition single_initiateTranslation (h : heap) (q : t) : res (heap * t * list nat) :=
  assert! (length (_requests q) =? 0)%nat in
  let* q := addRequest h (_addr q) (_size q) (_byteEnable q) q in
  match last (_requests q) with
  | Some r =>
      let* i := deref h (_inst q) in
      let r := Request.with_taskId (_taskId q) (Request.setReqInstSeqNum (DynInst.seqNum i) r) in
      let q := set_requests (<[pred (length (_requests q)) := r]> (_requests q)) q in
      let* h := update_inst h (_inst q) (DynInst.set_flag DynInst.TranslationStarted true) in
      let q := set_flag TranslationStarted (setState Translation q) in
      let* q := sendFragmentToTranslation 0 q in
      Ok (h, q, [0%nat])
  | None =>
      let* h := update_inst h (_inst q) (DynInst.set_flag DynInst.MemAccPredicate false) in
      Ok (h, q, [])
  end.

(** The loop over the whole lines; [fuel] bounds the number of lines. *)
Fixpoint whole_lines (fuel : nat) (h : heap) (base_addr final_addr size_so_far : Z) (q : t)
  : res (Z * Z * t) :=
  if base_addr =? final_addr then Ok (base_addr, size_so_far, q)
  else match fuel with
  | O => Err Undefined
  | S fuel =>
      let line := BaseCPU.cacheLineSize cpu in
      let* q := addRequest h base_addr line (slice (Z.to_nat size_so_far) (Z.to_nat line) (_byteEnable q)) q in
      whole_lines fuel h (u64 (base_addr + line)) final_addr (u32 (size_so_far + line)) q
  end.

(** The fragments of [SplitDataRequest::initiateTranslation]: the part up to the next
    line, whole lines, and the rest. *)
Definition split_fragments (h : heap) (q : t) : res t :=
  let line := BaseCPU.cacheLineSize cpu in
  let base_addr := _addr q in
  let next_addr := addrBlockAlign (u64 (base_addr + line)) line in
  let final_addr := addrBlockAlign (u64 (base_addr + _size q)) line in
  let n := u64 (next_addr - base_addr) in
  let* q := addRequest h base_addr n (slice 0 (Z.to_nat n) (_byteEnable q)) q in
  let* (base_addr, size_so_far, q) :=
    whole_lines (Z.to_nat (_size q)) h next_addr final_addr (u32 n) q in
  if size_so_far <? _size q then
    addRequest h base_addr (_size q - size_so_far) (drop (Z.to_nat size_so_far) (_byteEnable q)) q
  else Ok q.

Fixpoint send_all (ids : list nat) (q : t) : res t :=
  match ids with
  | [] => Ok q
  | n :: ids => let* q := sendFragmentToTranslation n q in send_all ids q
  end.

(** [SplitDataRequest::initiateTranslation] *)
Definition split_initiateTranslation (h : heap) (q : t) : res (heap * t * list nat) :=
  let* i := deref h (_inst q) in
  let main := Request.make_virt now (_addr q) (_size q) (_flags q) (BaseCPU.dataRequestorId cpu)
                (DynInst.instAddr i) (context (DynInst.threadNumber i)) None in
  let* main := Request.setByteEnable (_byteEnable q) main in
  let q := set_mainReq (Some (Request.setPaddr 0 main)) q in
  let* q := split_fragments h q in
  match _requests q with
  | [] =>
      let* h := update_inst h (_inst q) (DynInst.set_flag DynInst.MemAccPredicate false) in
      Ok (h, q, [])
  | _ =>
      let q := set_requests (map (fun r => Request.with_taskId (_taskId q)
                 (Request.setReqInstSeqNum (DynInst.seqNum i) r)) (_requests q)) q in
      let* h := update_inst h (_inst q) (DynInst.set_flag DynInst.TranslationStarted true) in
      let q := set_flag TranslationStarted (setState Translation q) in
      let q := set_fault (replicate (length (_requests q)) None) (set_translation 0 0 q) in
      let ids := seq 0 (length (_requests q)) in
      let* q := send_all ids q in
      Ok (h, q, ids)
  end.

(** ** Translated requests *)

Definition squashTranslation (q : t) : res t :=
  assert! (numInTranslationFragments q =? 0) in Ok (set_flag TranslationSquashed q).

(** [if (req->isCondSwap()) { assert(_res); req->setExtraData( *_res ); }] *)
Definition swap_data (q : t) (r : Request.t) : res Request.t :=
  if Request.isCondSwap r then
    match _res q with Some v => Ok (Request.setExtraData v r) | None => Err AssertFail end
  else Ok r.

(** [SingleDataRequest::finish]: [r] is the request with its translation. *)
Definition single_finish (fault : option Z) (r : Request.t) (h : heap) (q : t) : res (heap * t) :=
  let* i := deref h (_inst q) in
  let q := set_translation 1 0 (set_fault (_fault q ++ [fault]) (set_requests [r] q)) in
  if DynInst.isSquashed i then let* q := squashTranslation q in Ok (h, q)
  else
    let i := DynInst.set_strictlyOrdered (Request.isStrictlyOrdered r) i in
    let q := set_flag TranslationFinished q in
    let* (i, q) :=
      match fault with
      | None =>
          let* pa := Request.getPaddr r in
          let* fl := Request.getFlags r in
          let* r := swap_data q r in
          Ok (DynInst.with_phys pa fl i, setState Request (set_requests [r] q))
      | Some _ => Ok (i, setState Fault q)
      end in
    let i := DynInst.set_flag DynInst.TranslationCompleted true (DynInst.with_fault fault i) in
    Ok (<[_inst q := i]> h, q).

(** The position of the first fault, or the number of fragments. *)
Fixpoint first_fault (l : list (option Z)) : nat :=
  match l with
  | None :: l => S (first_fault l)
  | _ => O
  end.

(** What [SplitDataRequest::finish] does with the last fragment. *)
Definition split_finished (h : heap) (q : t) : res (heap * t) :=
  let* i := deref h (_inst q) in
  if DynInst.isSquashed i then let* q := squashTranslation q in Ok (h, q)
  else match mainReq q with
  | None => Err Undefined
  | Some main =>
      let i := DynInst.set_strictlyOrdered (Request.isStrictlyOrdered main) i in
      let q := set_flag TranslationFinished q in
      let i := DynInst.set_flag DynInst.TranslationCompleted true i in
      let n := first_fault (_fault q) in
      let* (i, q) :=
        match n with
        | O => match _fault q with
               | f :: _ => Ok (DynInst.with_fault f i, setState Fault q)
               | [] => Err Undefined
               end
        | _ =>
            let* r0 := match _requests q with r :: _ => Ok r | [] => Err Undefined end in
            let* pa := Request.getPaddr r0 in
            let* fl := Request.getFlags main in
            let i := DynInst.with_phys pa fl i in
            let all := (n =? length (_fault q))%nat in
            assert! (negb (Request.isCondSwap main) || all) in
            let* main := swap_data q main in
            let q := set_mainReq (Some main) q in
            if all then Ok (DynInst.with_fault None i, setState Request q)
            else match _fault q !! n with
                 | Some f => Ok (DynInst.with_fault f i, setState PartialFault q)
                 | None => Err Undefined
                 end
        end in
      Ok (<[_inst q := i]> h, q)
  end.

(** [SplitDataRequest::finish] for fragment [k], translated to [r]. *)
Definition split_finish (k : nat) (fault : option Z) (r : Request.t) (h : heap) (q : t)
  : res (heap * t) :=
  assert! (k <? length (_requests q))%nat in
  let q := set_fault (<[k := fault]> (_fault q)) (set_requests (<[k := r]> (_requests q)) q) in
  let q := set_translation (u32 (numTranslatedFragments q + 1)) (u32 (numInTranslationFragments q - 1)) q in
  let* q := match fault with
            | None =>
                let* fl := Request.getFlags r in
                match mainReq q with
                | Some main => let* main := Request.setFlags fl main in Ok (set_mainReq (Some main) q)
                | None => Err Undefined
                end
            | Some _ => Ok q
            end in
  if numTranslatedFragments q =? Z.of_nat (length (_requests q)) then split_finished h q else Ok (h, q).

(** ** Packets *)

Definition mark_htm (i : DynInst.t) (p : Packet.t) : Packet.t :=
  if DynInst.has_flag DynInst.HtmFromTransaction i
  then Packet.setHtmTransactional (DynInst.htmUid i) p else p.

Definition set_sender (q : t) (p : Packet.t) : Packet.t :=
  Packet.with_senderState (match _senderState q with Some s => [Packet.SS_Other (_request s)] | None => [] end) p.

Definition create (q : t) (pid : Z) (r : Request.t) : res Packet.t :=
  if isLoad q then Packet.createRead pid r else Packet.createWrite pid r.

(** [SingleDataRequest::buildPackets]; a retry keeps the packet. *)
Definition single_buildPackets (pid : Z) (h : heap) (q : t) : res (heap * t) :=
  assert! (match _senderState q with Some _ => true | None => false end) in
  let* i := deref h (_inst q) in
  let* q :=
    match _packets q with
    | [] =>
        match _requests q with
        | r :: _ =>
            let* p := create q pid r in
            let* p := Packet.dataStatic (DynInst.memData i) p in
            Ok (set_packets [mark_htm i (set_sender q p)] (_mainPacket q) q)
        | [] => Err Undefined
        end
    | _ => Ok q
    end in
  match _packets q with
  | [p] =>
      let* i := DynInst.buildSHTpacket p (BaseCPU.cacheLineSize cpu) i in
      Ok (<[_inst q := i]> h, q)
  | _ => Err AssertFail
  end.

(** One packet per translated fragment, up to the first fault. *)
Fixpoint fragment_packets (pid : Z) (i : DynInst.t) (q : t) (rs : list Request.t) (fs : list (option Z))
  : res (list Packet.t) :=
  match rs, fs with
  | r :: rs, None :: fs =>
      let* p := create q pid r in
      let* va := Request.getVaddr r in
      let* n := Request.getSize r in
      let offset := Z.to_nat (va - _addr q) in
      let* p := if isLoad q then Packet.dataStatic (drop offset (DynInst.memData i)) p
                else Packet.dataDynamic (slice offset (Z.to_nat n) (DynInst.memData i)) p in
      let p := mark_htm i (set_sender q p) in
      let* ps := fragment_packets pid i q rs fs in
      Ok (p :: ps)
  | _, _ => Ok []
  end.

(** [SplitDataRequest::buildPackets] *)
Definition split_buildPackets (pid : Z) (h : heap) (q : t) : res (heap * t) :=
  let* i := deref h (_inst q) in
  let* q :=
    match _packets q with
    | [] =>
        let* main :=
          if isLoad q then
            match mainReq q with
            | Some r => let* p := Packet.createRead pid r in
                        let* p := Packet.dataStatic (DynInst.memData i) p in
                        Ok (Some (mark_htm i p))
            | None => Err Undefined
            end
          else Ok (_mainPacket q) in
        let* ps := fragment_packets pid i q (_requests q) (_fault q) in
        Ok (set_packets ps main q)
    | _ => Ok q
    end in
  match _packets q with
  | p :: _ =>
      let* i := DynInst.buildSHTpacket p (BaseCPU.cacheLineSize cpu) i in
      Ok (<[_inst q := i]> h, q)
  | [] => Err AssertFail
  end.

(** ** Snoops of the cache *)

Definition single_isCacheBlockHit (blockAddr blockMask : Z) (q : t) : res bool :=
  match _requests q with
  | r :: _ => let* a := Request.getPaddr r in Ok (Z.land a blockMask =? blockAddr)
  | [] => Err Undefined
  end.
Definition split_isCacheBlockHit (blockAddr blockMask : Z) (q : t) : bool :=
  existsb (fun r => Request.hasPaddr r && (Z.land (Request._paddr r) blockMask =? blockAddr)) (_requests q).

End lsq.
End LSQRequest.
