(* ===== verification/LsqFacts.v ===== *)
(** * Facts on the requests of the load/store queue

    Which requests are marked no-fill, how a split access is cut into lines, what the
    packets carry, and what the safe history buffer is told. *)

From stdpp Require Import gmap.
From S2P Require Import Prelude.
From S2P Require Import BaseUtil MemCmd Request Packet DynInst Rob Lsq.

Local Open Scope Z_scope.
Import CpuUtils LSQRequest.

Module LsqFacts.

(** ** One request *)

Section requests.
Context (cpu : BaseCPU.t) (domain context : Z -> Z) (now : Z).

(** The request before its flags are set. *)
Definition plain_request (q : t) (i : DynInst.t) (addr size : Z) (be : list bool) : Request.t :=
  Request.setDomainID (domain (DynInst.threadNumber i)) (Request.with_byteEnable be
    (Request.make_virt now addr size (_flags q) (BaseCPU.dataRequestorId cpu)
       (DynInst.instAddr i) (context (DynInst.threadNumber i)) (_amo_op q))).

(** The request [addRequest] makes for a piece of the access. *)
Definition request_for (q : t) (i : DynInst.t) (addr size : Z) (be : list bool) : Request.t :=
  let r := plain_request q i addr size be in
  let f := Request._flags r in
  let f := if mark_no_fill cpu q i then Flags.set f Request.NO_FILL else f in
  Request.with_flags (Flags.set f Request.DEMAND_FETCH) r.

Lemma setFlags_virtual r f :
  Request.hasVaddr r = true ->
  Request.setFlags f r = Ok (Request.with_flags (Flags.set (Request._flags r) f) r).
Proof. intros H. unfold Request.setFlags. by rewrite H, orb_true_r. Qed.

Lemma plain_request_virtual q i addr size be :
  Request.hasVaddr (plain_request q i addr size be) = true.
Proof. vm_compute. reflexivity. Qed.

Lemma addRequest_active h addr size be q i :
  h !! _inst q = Some i -> isAnyActiveElement be = true -> Z.of_nat (length be) = size ->
  addRequest cpu domain context now h addr size be q
  = Ok (set_requests (_requests q ++ [request_for q i addr size be]) (set_amo None q)).
Proof.
  intros Hi Ha Hl. unfold addRequest. rewrite Ha, (proj2 (deref_Ok _ _ _) Hi). cbn [rbind].
  unfold Request.setByteEnable at 1.
  change (Request._size (Request.make_virt _ _ size _ _ _ _ _)) with size.
  rewrite Hl, Z.eqb_refl. cbn [rbind].
  fold (plain_request q i addr size be). unfold request_for.
  pose proof (plain_request_virtual q i addr size be) as Hv. revert Hv.
  generalize (plain_request q i addr size be) as r. intros r Hv.
  destruct (mark_no_fill cpu q i); cbn [rbind]; rewrite setFlags_virtual by done; cbn [rbind];
    [rewrite setFlags_virtual by done|]; reflexivity.
Qed.

Lemma addRequest_inactive h addr size be q :
  isAnyActiveElement be = false -> addRequest cpu domain context now h addr size be q = Ok q.
Proof. intros Ha. unfold addRequest. by rewrite Ha. Qed.

(** What the mark and the domain of the request are. *)
Lemma request_for_marks q i addr size be :
  Flags.isSet (_flags q) Request.NO_FILL = false ->
  let r := request_for q i addr size be in
  Request.isNoFill r = mark_no_fill cpu q i
  /\ Request.getDomainID r = Ok (domain (DynInst.threadNumber i))
  /\ Request.validateDomainID r = Ok tt.
Proof.
  intros Hf r. subst r. unfold request_for.
  assert (Request._flags (plain_request q i addr size be) = Flags.set 0 (_flags q)) as Hp by reflexivity.
  assert (Request.domainID (plain_request q i addr size be) = Some (domain (DynInst.threadNumber i)))
    as Hd by reflexivity.
  assert (Flags.isSet (Request.privateFlags (plain_request q i addr size be)) Request.VALID_DOMAIN_ID = true)
    as Hv by (vm_compute; reflexivity).
  revert Hp Hd Hv. generalize (plain_request q i addr size be) as r. intros r Hp Hd Hv.
  unfold Request.getDomainID, Request.validateDomainID, Request.isNoFill. simpl. rewrite Hd, Hv, Hp.
  split_and!; [|done|done]. rewrite Flags.isSet_set. 
  assert (truthy (Z.land Request.DEMAND_FETCH Request.NO_FILL) = false) as -> by reflexivity.
  rewrite orb_false_r. assert (Flags.isSet (Flags.set 0 (_flags q)) Request.NO_FILL = false) as H0.
  { rewrite Flags.isSet_set. exact Hf. }
  destruct (mark_no_fill cpu q i); [|done]. by rewrite Flags.isSet_set, H0.
Qed.

(** ** Split accesses *)

(** Reference: cut [n] bytes from [a] at every line boundary. Each piece has at
    least one byte, so [n] bounds the number of pieces. *)
Fixpoint pieces (fuel : nat) (line a n : Z) : list (Z * Z) :=
  match fuel with
  | O => []
  | S fuel => if n <=? 0 then []
              else let c := Z.min n (line - a mod line) in (a, c) :: pieces fuel line (a + c) (n - c)
  end.

(** The byte enables of the pieces. *)
Fixpoint cut (be : list bool) (ps : list (Z * Z)) : list (Z * Z * list bool) :=
  match ps with
  | [] => []
  | (a, n) :: ps => (a, n, take (Z.to_nat n) be) :: cut (drop (Z.to_nat n) be) ps
  end.

(** The requests for pieces that have an enabled byte. *)
Definition fragment (q : t) (i : DynInst.t) (x : Z * Z * list bool) : list Request.t :=
  if isAnyActiveElement x.2 then [request_for q i x.1.1 x.1.2 x.2] else [].
Definition fragments (q : t) (i : DynInst.t) (l : list (Z * Z * list bool)) : list Request.t :=
  l ≫= fragment q i.

Lemma set_amo_None q : _amo_op q = None -> set_amo None q = q.
Proof. destruct q. simpl. by intros ->. Qed.

Lemma addRequest_fragment h q i rs a n be :
  h !! _inst q = Some i -> _amo_op q = None -> Z.of_nat (length be) = n ->
  addRequest cpu domain context now h a n be (set_requests rs q)
  = Ok (set_requests (rs ++ fragment q i (a, n, be)) q).
Proof.
  intros Hi Ha Hl. unfold fragment. simpl. destruct (isAnyActiveElement be) eqn:Hact.
  - rewrite (addRequest_active h a n be (set_requests rs q) i Hi Hact Hl).
    change (Ok (set_requests (rs ++ [request_for q i a n be]) (set_amo None q))
            = Ok (set_requests (rs ++ [request_for q i a n be]) q)).
    by rewrite set_amo_None.
  - rewrite addRequest_inactive by done. by rewrite app_nil_r.
Qed.

Lemma cut_app be ps1 ps2 :
  Forall (fun x => 0 <= x.2) ps1 ->
  cut be (ps1 ++ ps2) = cut be ps1 ++ cut (drop (Z.to_nat (foldr (fun x s => x.2 + s) 0 ps1)) be) ps2.
Proof.
  intros H. revert be. induction H as [|[a n] ps1 Hn H IH]; intros be; simpl; [by rewrite drop_0|].
  rewrite IH, drop_drop. simpl in Hn. do 3 f_equal.
  assert (0 <= foldr (fun x s => x.2 + s) 0 ps1) by (clear -H; induction H; simpl; lia).
  rewrite Z2Nat.inj_add by lia. done.
Qed.

(** [m] whole lines from [a]. *)
Fixpoint full (m : nat) (line a : Z) : list (Z * Z) :=
  match m with O => [] | S m => (a, line) :: full m line (a + line) end.

Section split.
Variables (h : heap) (q : t) (i : DynInst.t) (k : Z).
Hypothesis Hi : h !! _inst q = Some i.
Hypothesis Hamo : _amo_op q = None.
Hypothesis Hk : 0 <= k < 32.
Hypothesis Hline : BaseCPU.cacheLineSize cpu = 2 ^ k.
Abbreviation line := (2 ^ k).

Lemma whole_lines_full m : forall fuel base so_far rs,
  (m <= fuel)%nat -> 0 <= base -> base + Z.of_nat m * line < 2 ^ 64 ->
  0 <= so_far -> so_far + Z.of_nat m * line < 2 ^ 32 ->
  so_far + Z.of_nat m * line <= Z.of_nat (length (_byteEnable q)) ->
  whole_lines cpu domain context now fuel h base (base + Z.of_nat m * line) so_far (set_requests rs q)
  = Ok (base + Z.of_nat m * line, so_far + Z.of_nat m * line,
        set_requests (rs ++ fragments q i (cut (drop (Z.to_nat so_far) (_byteEnable q)) (full m line base))) q).
Proof.
  pose proof (pow2_pos k ltac:(lia)) as Hpos.
  induction m as [|m IH]; intros fuel base so_far rs Hf Hb Hb' Hs Hs' Hlen.
  { replace (base + Z.of_nat 0 * line) with base by lia.
    replace (so_far + Z.of_nat 0 * line) with so_far by lia.
    destruct fuel; cbn [whole_lines]; rewrite Z.eqb_refl; simpl; by rewrite app_nil_r. }
  destruct fuel as [|fuel]; [lia|]. cbn [whole_lines].
  destruct (Z.eqb_spec base (base + Z.of_nat (S m) * line)); [nia|].
  rewrite Hline. cbn [_byteEnable set_requests].
  rewrite (addRequest_fragment h q i) by
    (done || (rewrite length_slice; [lia|]; nia)). cbn [rbind].
  rewrite (uwrap_small 64) by (unfold in_word; nia). rewrite (uwrap_small 32) by (unfold in_word; nia).
  replace (base + Z.of_nat (S m) * line) with (base + line + Z.of_nat m * line) by lia.
  replace (so_far + Z.of_nat (S m) * line) with (so_far + line + Z.of_nat m * line) by lia.
  rewrite IH by (lia || nia). do 3 f_equal. simpl. rewrite <- app_assoc. unfold fragments. simpl.
  do 2 f_equal. rewrite drop_drop. rewrite Z2Nat.inj_add by lia. done.
Qed.

Lemma pieces_aligned m t : forall fuel a,
  (m + (if (t =? 0)%Z then 0 else 1) <= fuel)%nat -> a mod line = 0 -> 0 <= t < line ->
  pieces fuel line a (Z.of_nat m * line + t)
  = full m line a ++ if t =? 0 then [] else [(a + Z.of_nat m * line, t)].
Proof.
  pose proof (pow2_pos k ltac:(lia)) as Hpos.
  induction m as [|m IH]; intros fuel a Hf Ha Ht.
  - cbn [full app]. change (Z.of_nat 0) with 0. rewrite !Z.mul_0_l, Z.add_0_l, Z.add_0_r.
    assert (forall fuel a, pieces fuel line a 0 = []) as Hnil by by intros [|?] ?.
    destruct (Z.eqb_spec t 0) as [->|Ht0]; [apply Hnil|].
    destruct fuel as [|fuel]; [lia|]. cbn [pieces]. destruct (Z.leb_spec t 0); [lia|].
    rewrite Ha, Z.min_l, Z.sub_diag by lia. by rewrite Hnil.
  - destruct fuel as [|fuel]; [lia|]. cbn [pieces full].
    destruct (Z.leb_spec (Z.of_nat (S m) * line + t) 0); [nia|].
    rewrite Ha, Z.min_r by nia. rewrite Z.sub_0_r. cbn [app]. f_equal.
    replace (Z.of_nat (S m) * line + t - line) with (Z.of_nat m * line + t) by lia.
    rewrite IH; [|lia| |lia].
    + do 2 f_equal. destruct (t =? 0); [done|]. do 2 f_equal. lia.
    + rewrite <- (Z.mul_1_l line) at 1. rewrite Z.mod_add by lia. done.
Qed.

Lemma full_sum m a : foldr (fun x s => x.2 + s) 0 (full m line a) = Z.of_nat m * line.
Proof. revert a. induction m as [|m IH]; intros a; [done|]. cbn [full foldr]. rewrite IH. simpl. lia. Qed.

Lemma full_nonneg m a : Forall (fun x => 0 <= x.2) (full m line a).
Proof.
  pose proof (pow2_pos k ltac:(lia)).
  revert a. induction m as [|m IH]; intros a; constructor; [simpl; lia|apply IH].
Qed.

Lemma align_line a : in_word 64 a -> addrBlockAlign a line = a - a mod line.
Proof.
  intros Ha. pose proof (pow2_pos k ltac:(lia)). unfold addrBlockAlign.
  assert (line <= 2 ^ 32) by (apply Z.pow_le_mono_r; lia).
  rewrite (uwrap_small 64 (line - 1)) by (unfold in_word; lia). apply land_unot_ones; [lia|done].
Qed.

(** The three parts of the access: the first piece of [c] bytes, [m] whole lines, and
    [t] more bytes. *)
Lemma split_fragments_parts c m t rs :
  _size q = c + Z.of_nat m * line + t -> 0 <= t < line -> 0 < c < _size q -> 0 <= _addr q ->
  (_addr q + c) mod line = 0 -> c <= line -> _addr q + _size q + line < 2 ^ 64 -> _size q < 2 ^ 32 ->
  Z.of_nat (length (_byteEnable q)) = _size q ->
  split_fragments cpu domain context now h (set_requests rs q)
  = Ok (set_requests (rs ++ fragments q i (cut (_byteEnable q)
      ((_addr q, c) :: full m line (_addr q + c)
       ++ if t =? 0 then [] else [(_addr q + c + Z.of_nat m * line, t)]))) q).
Proof.
  intros Hs Ht Hc Ha Hal Hcl Hw Hs32 Hlen. pose proof (pow2_pos k ltac:(lia)) as Hpos.
  assert (line <= 2 ^ 32) by (apply Z.pow_le_mono_r; lia).
  unfold split_fragments. rewrite Hline. cbn [_addr _size _byteEnable set_requests].
  rewrite (uwrap_small 64 (_addr q + line)), (uwrap_small 64 (_addr q + _size q)) by (unfold in_word; lia).
  rewrite !align_line by (unfold in_word; lia).
  assert (exists n, _addr q + c = n * line) as [n Hn].
  { exists ((_addr q + c) / line). pose proof (Z.div_mod (_addr q + c) line). lia. }
  assert (_addr q + line - (_addr q + line) mod line = _addr q + c) as ->.
  { replace (_addr q + line) with (n * line + (line - c)) by lia. rewrite mod_pow2_mul_add by lia. lia. }
  assert (_addr q + _size q - (_addr q + _size q) mod line = _addr q + c + Z.of_nat m * line) as ->.
  { replace (_addr q + _size q) with ((n + Z.of_nat m) * line + t) by lia.
    rewrite mod_pow2_mul_add by lia. lia. }
  replace (_addr q + c - _addr q) with c by lia. rewrite (uwrap_small 64 c) by (unfold in_word; lia).
  rewrite (addRequest_fragment h q i rs) by (done || (rewrite length_slice; [lia|lia])). cbn [rbind].
  rewrite (uwrap_small 32 c) by (unfold in_word; lia).
  cbn [_size set_requests]. rewrite whole_lines_full by (lia || nia). cbn [rbind].
  cbn [_size _byteEnable set_requests]. unfold fragments. cbn [cut mbind list_bind].
  rewrite cut_app, bind_app, full_sum by apply full_nonneg. unfold slice. rewrite drop_0, drop_drop.
  destruct (Z.eqb_spec t 0) as [->|Ht0].
  - rewrite (proj2 (Z.ltb_ge _ _)) by lia. simpl. by rewrite app_nil_r, <- app_assoc.
  - rewrite (proj2 (Z.ltb_lt _ _)) by lia.
    rewrite (addRequest_fragment h q i) by (done || (rewrite length_drop; lia)).
    rewrite <- !app_assoc. cbn [cut mbind list_bind]. rewrite app_nil_r.
    replace (_size q - (c + Z.of_nat m * line)) with t by lia.
    rewrite <- Z2Nat.inj_add by lia. rewrite (take_ge (drop _ _)); [done|]. rewrite length_drop. lia.
Qed.

Lemma split_fragments_pieces rs :
  0 <= _addr q -> _addr q + _size q + line < 2 ^ 64 -> _size q < 2 ^ 32 ->
  transferNeedsBurst (_addr q) (_size q) line = true ->
  Z.of_nat (length (_byteEnable q)) = _size q ->
  split_fragments cpu domain context now h (set_requests rs q)
  = Ok (set_requests (rs ++ fragments q i (cut (_byteEnable q)
      (pieces (Z.to_nat (_size q)) line (_addr q) (_size q)))) q).
Proof.
  intros Ha Hw Hs Hburst Hlen. pose proof (pow2_pos k ltac:(lia)) as Hpos.
  assert (line <= 2 ^ 32) by (apply Z.pow_le_mono_r; lia).
  pose proof (Z.mod_pos_bound (_addr q) line Hpos) as Hoff.
  assert (line < _addr q mod line + _size q) as Hb.
  { unfold transferNeedsBurst, addrBlockOffset in Hburst. rewrite (uwrap_small 64 (line - 1)) in Hburst
      by (unfold in_word; lia). rewrite land_ones_mod in Hburst by lia.
    rewrite uwrap_small in Hburst by (unfold in_word; lia). lia. }
  set (c := line - _addr q mod line) in *.
  set (m := Z.to_nat ((_size q - c) / line)). set (t := (_size q - c) mod line).
  pose proof (Z.div_mod (_size q - c) line ltac:(lia)) as Hdm.
  pose proof (Z.mod_pos_bound (_size q - c) line Hpos) as Ht. fold t in Ht.
  assert (Z.of_nat m = (_size q - c) / line) as Hm
    by (unfold m; rewrite Z2Nat.id; [done|apply Z.div_pos; lia]).
  assert ((_addr q + c) mod line = 0) as Hal.
  { unfold c. pose proof (Z.div_mod (_addr q) line ltac:(lia)).
    replace (_addr q + (line - _addr q mod line)) with ((_addr q / line + 1) * line) by lia.
    apply Z.mod_mul. lia. }
  rewrite (split_fragments_parts c m t rs) by (assumption || (unfold t in *; lia)). do 5 f_equal.
  destruct (Z.to_nat (_size q)) as [|f] eqn:Hf; [lia|]. cbn [pieces].
  destruct (Z.leb_spec (_size q) 0); [lia|]. fold c. rewrite Z.min_r by lia. f_equal.
  replace (_size q - c) with (Z.of_nat m * line + t) by (unfold t; lia).
  symmetry. apply pieces_aligned; [|done|done].
  assert (_size q - c = Z.of_nat m * line + t) by (unfold t; lia).
  assert (Z.of_nat m <= Z.of_nat m * line) by nia.
  destruct (Z.eqb_spec t 0); lia.
Qed.

End split.

(** ** The pieces cover the access *)

Lemma pieces_cover k fuel a n :
  0 <= k -> n <= Z.of_nat fuel ->
  (pieces fuel (2 ^ k) a n ≫= fun x => seqZ x.1 x.2) = seqZ a n.
Proof.
  intros Hk. pose proof (pow2_pos k Hk) as Hpos. revert a n.
  induction fuel as [|fuel IH]; intros a n Hn; cbn [pieces].
  { by rewrite seqZ_nil by lia. }
  destruct (Z.leb_spec n 0); [by rewrite seqZ_nil by lia|].
  pose proof (Z.mod_pos_bound a (2 ^ k) Hpos). cbn [mbind list_bind].
  rewrite IH by lia. simpl. rewrite <- seqZ_app by lia. f_equal. lia.
Qed.

Lemma pieces_in_line k fuel a n :
  0 <= k -> Forall (fun x => 0 < x.2 /\ x.1 mod 2 ^ k + x.2 <= 2 ^ k) (pieces fuel (2 ^ k) a n).
Proof.
  intros Hk. pose proof (pow2_pos k Hk) as Hpos. revert a n.
  induction fuel as [|fuel IH]; intros a n; cbn [pieces]; [constructor|].
  destruct (Z.leb_spec n 0); constructor; [|apply IH]. simpl.
  pose proof (Z.mod_pos_bound a (2 ^ k) Hpos). lia.
Qed.

End requests.
End LsqFacts.
