(* ===== verification/LsqSpec.v ===== *)
(** * The load/store queue's requests: cut, marked, packed and reported

    The properties of [Lsq]: a split access is cut at every line, each request carries
    the mark and the domain the core decides, the translation of its fragments may end
    in any order, and the packets lead to the record the safe history buffer keeps. *)

From stdpp Require Import gmap.
From S2P Require Import Prelude.
From S2P Require Import CircularQueue BaseUtil MemCmd Request Packet CacheBlk ReplPolicy Indexing Tags Prefetch PrefetchFacts.
From S2P Require Import DynInst Rob Commit CoreExamples Lsq LsqFacts.

Local Open Scope Z_scope.
Import CpuUtils LSQRequest LsqFacts.

Module LsqSpec.

(** ** Translation is started *)

Section start.
Context (cpu : BaseCPU.t) (domain context : Z -> Z) (now : Z).

(** The request as handed to the MMU. *)
Definition tag (q : t) (i : DynInst.t) (r : Request.t) : Request.t :=
  Request.with_taskId (_taskId q) (Request.setReqInstSeqNum (DynInst.seqNum i) r).

Lemma send_all_ok ids : forall q,
  Forall (fun n => (n < length (_requests q))%nat) ids ->
  exists q', send_all ids q = Ok q' /\ _requests q' = _requests q.
Proof.
  induction ids as [|n ids IH]; intros q H; [by exists q|].
  apply Forall_cons in H as [Hn H]. apply lookup_lt_is_Some_2 in Hn as [r Hr]. simpl.
  unfold sendFragmentToTranslation at 1. rewrite Hr. cbn [rbind].
  apply (IH (set_translation _ _ q)), H.
Qed.

Lemma update_inst_Ok h p f i : h !! p = Some i -> update_inst h p f = Ok (<[p := f i]> h).
Proof. intros Hi. unfold update_inst. by rewrite (proj2 (deref_Ok _ _ _) Hi). Qed.

Lemma set_requests_same q : _requests q = [] -> set_requests [] q = q.
Proof. destruct q. simpl. by intros ->. Qed.

(** C21. A split access is exactly its pieces. The requests made for an access that
    crosses a line are, in order, one per piece of the access cut at every line
    boundary whose byte enables are not all clear, each with its own byte enables,
    tagged with the task and sequence number of the instruction, and all of them are
    handed to the MMU. The pieces cover every byte of the access once, and none
    crosses a line. *)
Theorem split_access_exact k h q i :
  h !! _inst q = Some i -> _requests q = [] -> _amo_op q = None ->
  0 <= k < 32 -> BaseCPU.cacheLineSize cpu = 2 ^ k ->
  0 <= _addr q -> _addr q + _size q + 2 ^ k < 2 ^ 64 -> _size q < 2 ^ 32 ->
  transferNeedsBurst (_addr q) (_size q) (2 ^ k) = true ->
  Z.of_nat (length (_byteEnable q)) = _size q ->
  let ps := pieces (Z.to_nat (_size q)) (2 ^ k) (_addr q) (_size q) in
  (exists h' q',
     split_initiateTranslation cpu domain context now h q = Ok (h', q', seq 0 (length (_requests q'))) /\
     _requests q' = tag q i <$> fragments cpu domain context now q i (cut (_byteEnable q) ps)) /\
  (ps ≫= fun x => seqZ x.1 x.2) = seqZ (_addr q) (_size q) /\
  Forall (fun x => 0 < x.2 /\ x.1 mod 2 ^ k + x.2 <= 2 ^ k) ps.
Proof.
  intros Hi Hrs Hamo Hk Hline Ha Hw Hs Hb Hlen ps.
  split_and!; [|apply pieces_cover; lia|apply pieces_in_line; lia].
  unfold split_initiateTranslation. rewrite (proj2 (deref_Ok _ _ _) Hi). cbn [rbind].
  unfold Request.setByteEnable at 1. change (Request._size (Request.make_virt _ _ (_size q) _ _ _ _ _)) with (_size q).
  rewrite Hlen, Z.eqb_refl. cbn [rbind].
  match goal with |- context [set_mainReq ?m q] => set (q1 := set_mainReq m q) end.
  assert (split_fragments cpu domain context now h q1
          = Ok (set_requests (fragments cpu domain context now q i (cut (_byteEnable q) ps)) q1)) as ->.
  { rewrite <- (set_requests_same q1 Hrs) at 1.
    exact (split_fragments_pieces cpu domain context now h q1 i k Hi Hamo Hk Hline [] Ha Hw Hs Hb Hlen). }
  cbn [rbind]. destruct (fragments cpu domain context now q i (cut (_byteEnable q) ps)) as [|r rs];
    cbn [_requests set_requests].
  - change (_inst (set_requests [] q1)) with (_inst q). rewrite (update_inst_Ok _ _ _ i Hi).
    eexists _, (set_requests [] q1). split; reflexivity.
  - change (_inst (set_requests ?l (set_requests _ q1))) with (_inst q).
    rewrite (update_inst_Ok _ _ _ i Hi). cbn [rbind].
    match goal with |- context [send_all ?l ?q2] => destruct (send_all_ok l q2) as (q' & -> & Hq') end.
    { apply Forall_forall. intros n ?%elem_of_seq. lia. }
    eexists _, q'. rewrite Hq'. split; reflexivity.
Qed.

(** ** Which requests are marked *)

(** The mark and the domain that the requests of [q] get. *)
Definition marked (q : t) (i : DynInst.t) (r : Request.t) : Prop :=
  Request.isNoFill r = BaseCPU.rasAll cpu || (BaseCPU.rasLoad cpu && isLoad q)
    || (BaseCPU.rasSpec cpu && isLoad q && negb (DynInst.has_status DynInst.PrevInstsCompleted i)) /\
  Request.isDemandFetch r = true /\
  Request.getDomainID r = Ok (domain (DynInst.threadNumber i)) /\ Request.validateDomainID r = Ok tt.

(** [q'] has gained marked requests only. *)
Definition grown (q0 : t) (i : DynInst.t) (q : t) : Prop :=
  flags q = flags q0 /\ _flags q = _flags q0 /\ _inst q = _inst q0 /\ Forall (marked q0 i) (_requests q).

Lemma request_for_marked q i addr size be :
  Flags.isSet (_flags q) Request.NO_FILL = false ->
  marked q i (request_for cpu domain context now q i addr size be).
Proof.
  intros Hf. destruct (request_for_marks cpu domain context now q i addr size be Hf) as (H1 & H2 & H3).
  split_and!; [done| |done|done]. unfold Request.isDemandFetch, request_for. simpl.
  rewrite Flags.isSet_set. apply orb_true_r.
Qed.

Lemma addRequest_grown h i q0 addr size be q q' :
  h !! _inst q0 = Some i -> Flags.isSet (_flags q0) Request.NO_FILL = false ->
  grown q0 i q -> addRequest cpu domain context now h addr size be q = Ok q' -> grown q0 i q'.
Proof.
  intros Hi Hf (H1 & H2 & H3 & H4) Hadd. destruct (isAnyActiveElement be) eqn:Ha.
  - destruct (decide (Z.of_nat (length be) = size)) as [Hl|Hl].
    + rewrite (addRequest_active cpu domain context now h addr size be q i) in Hadd by (congruence || done).
      simplify_res. split_and!; try done. apply Forall_app. split; [done|]. constructor; [|done].
      assert (forall n, marked q i (request_for cpu domain context now q i addr n be)) as Hm
        by (intros n; apply request_for_marked; congruence).
      revert Hm. unfold marked, mark_no_fill, isLoad. rewrite H1. intros Hm. apply Hm.
    + unfold addRequest in Hadd. rewrite Ha in Hadd. inv_res.
      unfold Request.setByteEnable in *. inv_res. exfalso. apply Hl. by apply Z.eqb_eq.
  - rewrite addRequest_inactive in Hadd by done. by simplify_res.
Qed.

Lemma whole_lines_grown h i q0 : forall fuel base final so_far q x,
  h !! _inst q0 = Some i -> Flags.isSet (_flags q0) Request.NO_FILL = false -> grown q0 i q ->
  whole_lines cpu domain context now fuel h base final so_far q = Ok x -> grown q0 i x.2.
Proof.
  induction fuel as [|fuel IH]; intros base final so_far q x Hi Hf Hg; cbn [whole_lines];
    destruct (base =? final); intros H; inv_res; [done..|].
  eapply IH; [done|done| |exact H]. eapply addRequest_grown; eauto.
Qed.

Lemma split_fragments_grown h i q0 q q' :
  h !! _inst q0 = Some i -> Flags.isSet (_flags q0) Request.NO_FILL = false -> grown q0 i q ->
  split_fragments cpu domain context now h q = Ok q' -> grown q0 i q'.
Proof.
  intros Hi Hf Hg H. unfold split_fragments in H. inv_res.
  eapply addRequest_grown in E; [|done..]. apply (whole_lines_grown _ i q0) in E0; [|done..]. simpl in E0.
  destruct (_ <? _); [by apply (addRequest_grown _ i q0) in H|by inv_res].
Qed.

Lemma marked_tag q i task n r :
  marked q i r -> marked q i (Request.with_taskId task (Request.setReqInstSeqNum n r)).
Proof.
  intros (H1 & H2 & H3 & H4). split_and!; [done..|]. revert H4.
  unfold Request.validateDomainID. simpl. rewrite Flags.isSet_set.
  by destruct (Flags.isSet _ _).
Qed.

Lemma sendFragment_requests n q q' : sendFragmentToTranslation n q = Ok q' -> _requests q' = _requests q.
Proof. unfold sendFragmentToTranslation. intros H. by destruct (_requests q !! n); inv_res. Qed.

Lemma send_all_requests ids : forall q q', send_all ids q = Ok q' -> _requests q' = _requests q.
Proof.
  induction ids as [|n l IH]; intros q q' H; simpl in H; inv_res; [done|].
  rewrite (IH _ _ H). by apply sendFragment_requests in E.
Qed.

Lemma split_marked h q i h' q' ids :
  h !! _inst q = Some i -> Flags.isSet (_flags q) Request.NO_FILL = false -> grown q i q ->
  split_initiateTranslation cpu domain context now h q = Ok (h', q', ids) -> Forall (marked q i) (_requests q').
Proof.
  intros Hi Hf Hg. unfold split_initiateTranslation. rewrite (proj2 (deref_Ok _ _ _) Hi). cbn [rbind].
  intros (main & Hmain & (q1 & Hq1 & H)%rbind_ok)%rbind_ok.
  apply (split_fragments_grown h i q) in Hq1 as (_ & _ & _ & Hm); [|done|done|exact Hg].
  destruct (_requests q1) as [|r rs] eqn:Hr; inv_res; [by rewrite Hr|].
  match goal with E : send_all _ _ = Ok _ |- _ => apply send_all_requests in E as -> end.
  cbn [_requests set_requests set_fault set_translation setState set_flag with_flags].
  change (Forall (marked q i) (map (fun x => Request.with_taskId (_taskId q1)
    (Request.setReqInstSeqNum (DynInst.seqNum i) x)) (r :: rs))).
  apply List.Forall_map. eapply Forall_impl; [exact Hm|]. intros x. apply marked_tag.
Qed.

Lemma single_marked h q i h' q' ids :
  h !! _inst q = Some i -> Flags.isSet (_flags q) Request.NO_FILL = false -> grown q i q ->
  single_initiateTranslation cpu domain context now h q = Ok (h', q', ids) -> Forall (marked q i) (_requests q').
Proof.
  intros Hi Hf Hg H. unfold single_initiateTranslation in H.
  destruct (_ =? _)%nat; [|done]. apply rbind_ok in H as (q1 & Hq1 & H).
  apply (addRequest_grown h i q) in Hq1 as (_ & _ & _ & Hm); [|done..].
  destruct (last (_requests q1)) as [r|] eqn:Hl; inv_res; [|done].
  match goal with E : sendFragmentToTranslation _ _ = Ok _ |- _ => apply sendFragment_requests in E as -> end.
  cbn [_requests set_requests setState set_flag with_flags].
  apply Forall_insert; [done|]. apply marked_tag.
  apply last_Some in Hl as [l Hl]. rewrite Hl in Hm. apply Forall_app in Hm as [_ Hm]. by inversion_clear Hm.
Qed.

End start.

(** ** Packets *)

(** A request the MMU has given back without a fault. *)
Definition translated (d : Z) (r : Request.t) : Prop :=
  Request.hasPaddr r = true /\ Request.hasVaddr r = true /\ Request.hasSize r = true /\
  Request.isHTMCmd r = false /\ in_word 64 (Request._paddr r) /\
  Request.validateDomainID r = Ok tt /\ Request.getDomainID r = Ok d.

(** The packet of a request: the mark is the request's, and the data are the bytes of
    the instruction's buffer at the request's place in the access. *)
Definition packet_of (q : t) (i : DynInst.t) (r : Request.t) (p : Packet.t) : Prop :=
  Packet.valid p /\ Packet.req p = r /\ Packet.addr p = Request._paddr r /\
  Packet.size p = Request._size r /\ Packet._isSecure p = Request.isSecure r /\
  Packet.isMayNotFill p = Request.isNoFill r /\
  Packet.data p = Some (
    if isSplit q then
      if isLoad q then drop (Z.to_nat (Request._vaddr r - _addr q)) (DynInst.memData i)
      else slice (Z.to_nat (Request._vaddr r - _addr q)) (Z.to_nat (Request._size r)) (DynInst.memData i)
    else DynInst.memData i).

Lemma create_ok d q pid r :
  translated d r ->
  exists p, create q pid r = Ok p /\ Packet.valid p /\ Packet.addr p = Request._paddr r /\
    Packet.size p = Request._size r /\ Packet.req p = r /\ Packet._isSecure p = Request.isSecure r /\
    Packet.isMayNotFill p = Request.isNoFill r /\
    Flags.noneSet (Packet.flags p) (Z.lor Packet.STATIC_DATA Packet.DYNAMIC_DATA) = true.
Proof.
  intros (Hp & _ & Hs & Hh & _). unfold create, Packet.createRead, Packet.createWrite.
  destruct (isLoad q);
    [destruct (Packet.packet_make_valid pid r (Packet.makeReadCmd r)) as (p & Hm & H)
    |destruct (Packet.packet_make_valid pid r (Packet.makeWriteCmd r)) as (p & Hm & H)]; try done;
    exists p; naive_solver.
Qed.

(** Data, sender state and the transaction mark leave the rest of a packet alone. *)
Lemma finish_packet q i f d p :
  Z.land f (Z.lor Packet.VALID_ADDR (Z.lor Packet.VALID_SIZE Packet.MAY_NOT_FILL)) = 0 ->
  Packet.valid p ->
  let p' := mark_htm i (set_sender q (Packet.with_data (Some d)
              (Packet.with_flags (Flags.set (Packet.flags p) f) p))) in
  Packet.valid p' /\ Packet.addr p' = Packet.addr p /\ Packet.size p' = Packet.size p /\
  Packet.req p' = Packet.req p /\ Packet._isSecure p' = Packet._isSecure p /\
  Packet.isMayNotFill p' = Packet.isMayNotFill p /\ Packet.data p' = Some d.
Proof.
  intros Hf [Ha Hs] p'. subst p'.
  assert (forall m, Z.land (Z.lor Packet.VALID_ADDR (Z.lor Packet.VALID_SIZE Packet.MAY_NOT_FILL)) m = m ->
    Z.land f m = 0) as Hm.
  { intros m Hm. rewrite <- Hm, Z.land_assoc, Hf. apply Z.land_0_l. }
  unfold mark_htm, set_sender, Packet.valid, Packet.isMayNotFill, Packet.setHtmTransactional.
  destruct (DynInst.has_flag _ i), (_senderState q); simpl; rewrite !Flags.isSet_set, !Hm by reflexivity;
    rewrite Ha, Hs; simpl; rewrite ?orb_false_r; done.
Qed.

Lemma fragment_packets_ok d pid i q :
  isSplit q = true -> forall rs, Forall (translated d) rs ->
  exists ps, fragment_packets pid i q rs (replicate (length rs) None) = Ok ps /\ Forall2 (packet_of q i) rs ps.
Proof.
  intros Hsp rs H. induction H as [|r rs Hr H (ps & Hps & IH)]; [by exists []|].
  destruct (create_ok d q pid r Hr) as (p & Hc & Hv & Ha & Hs & Hq & Hsec & Hm & Hnone).
  destruct Hr as (_ & Hva & Hsz & _). simpl. rewrite Hc. cbn [rbind].
  unfold Request.getVaddr, Request.getSize. rewrite Hva, Hsz. cbn [rbind].
  unfold Packet.dataStatic, Packet.dataDynamic. rewrite Hnone, Hps.
  destruct (isLoad q) eqn:Hl; cbn [rbind]; eexists; (split; [reflexivity|]); constructor; try done;
    unfold packet_of; rewrite Hsp, Hl;
    [destruct (finish_packet q i Packet.STATIC_DATA (drop (Z.to_nat (Request._vaddr r - _addr q)) (DynInst.memData i)) p eq_refl Hv) as (?&?&?&?&?&?&?)
    |destruct (finish_packet q i Packet.DYNAMIC_DATA (slice (Z.to_nat (Request._vaddr r - _addr q)) (Z.to_nat (Request._size r)) (DynInst.memData i)) p eq_refl Hv) as (?&?&?&?&?&?&?)];
    split_and!; congruence.
Qed.

(** ** The record of the safe history buffer *)

(** A packet that tells of line [a] of domain [d], marked neither here nor below. *)
Definition history_packet (k a : Z) (sec : bool) (d rid : Z) (p : Packet.t) : Prop :=
  Packet.cmd p = MemCmd.HardPFReq /\ Packet.isMayNotFill p = false /\ Packet.isNoFillLower p = false /\
  Packet.getAddr p = Ok a /\ Packet.getSize p = Ok (2 ^ k) /\ Packet.isSecure p = Ok sec /\
  Packet.getDomainID p = Ok d /\ Packet.requestorId p = rid.

Lemma buildSHTpacket_ok k d p i :
  0 <= k < 32 -> Packet.valid p -> translated d (Packet.req p) -> in_word 64 (Packet.addr p) ->
  exists sht, DynInst.buildSHTpacket p (2 ^ k) i = Ok (DynInst.with_SHTpkt (Some sht) i) /\
    history_packet k (Packet.addr p - Packet.addr p mod 2 ^ k) (Packet._isSecure p) d (Packet.requestorId p) sht.
Proof.
  intros Hk Hv (_ & _ & _ & _ & _ & Hd & Hdid) Hw. unfold DynInst.buildSHTpacket.
  rewrite IntMath.isPowerOf2_pow2 by lia. cbn [negb]. rewrite Hd. cbn [rbind].
  destruct (Packet.make_copy_keeps p false Hv) as (c & Hc & [Hca Hcs] & Ha & Hs & Hq & Hsec). rewrite Hc. cbn [rbind].
  set (u := Packet.with_cmd _ _).
  assert (Packet.valid u) as Hu.
  { split; unfold u; simpl; by rewrite !Flags.isSet_clear_disjoint by reflexivity. }
  assert (Packet.isMayNotFill u = false /\ Packet.isNoFillLower u = false) as [Hu1 Hu2].
  { unfold Packet.isMayNotFill, Packet.isNoFillLower, u. simpl.
    rewrite Flags.isSet_clear_disjoint, !Flags.isSet_clear_sub by reflexivity. done. }
  rewrite (Packet.getBlockAddr_valid u k Hu Hk) by (unfold u; simpl; by rewrite Ha).
  assert (Packet.addr u = Packet.addr p /\ Packet.req u = Packet.req p /\ Packet._isSecure u = Packet._isSecure p
    /\ Packet.cmd u = MemCmd.HardPFReq) as (Hua & Hur & Hus & Huc) by by unfold u.
  clearbody u. rewrite Hua. destruct Hu as [Hu3 Hu4].
  cbn [rbind]. unfold Packet.setAddr. rewrite Hu3. cbn [rbind]. unfold Packet.setSizeSHT. simpl. rewrite Hu4.
  cbn [rbind]. eexists. split; [reflexivity|].
  unfold history_packet, Packet.getAddr, Packet.getSize, Packet.isSecure, Packet.getDomainID,
    Packet.requestorId, Packet.isMayNotFill, Packet.isNoFillLower in *.
  simpl. rewrite Hu1, Hu2, Hu3, Hu4, Hus, Hur. split_and!; done.
Qed.

Lemma history_packet_record (S : SHB.SParams) k a sec d rid p s :
  history_packet k a sec d rid p -> a mod 2 ^ k = 0 -> 0 <= k -> PrefetchBase.blkSize (SHB.base S) = 2 ^ k ->
  0 < SHB.shbSize S -> Z.of_nat (length (SHB.shb s)) <= SHB.shbSize S ->
  SHB.notifySHB S p s = Ok (SHB.mk (SHB.mkReq a sec d rid :: take (pred (Z.to_nat (SHB.shbSize S))) (SHB.shb s))
    (SHB.readyTime s)).
Proof.
  intros (_ & _ & _ & Ha & _ & Hs & Hd & Hr) Hal Hk Hb Hn Hl. pose proof (pow2_pos k Hk).
  apply SHBFacts.notifySHB_record; [done|lia|done|]. exists a. simpl. rewrite Hb, Hal. split_and!; [done|lia|done..].
Qed.

Section build.
Context (cpu : BaseCPU.t) (k d : Z).
Hypothesis Hk : 0 <= k < 32.
Hypothesis Hline : BaseCPU.cacheLineSize cpu = 2 ^ k.

(** Ready to build its packets: every request is translated, none has faulted. *)
Definition ready (h : heap) (q : t) (i : DynInst.t) (r : Request.t) (rs : list Request.t) : Prop :=
  h !! _inst q = Some i /\ _senderState q <> None /\ _packets q = [] /\ _requests q = r :: rs /\
  Forall (translated d) (r :: rs) /\
  if isSplit q then _fault q = replicate (S (length rs)) None /\ (exists main, mainReq q = Some main /\ translated d main)
  else rs = [].

Lemma single_buildPackets_ok pid h q i r rs :
  ready h q i r rs -> isSplit q = false ->
  exists p sht, single_buildPackets cpu pid h q
      = Ok (<[_inst q := DynInst.with_SHTpkt (Some sht) i]> h, set_packets [p] (_mainPacket q) q) /\
    packet_of q i r p /\
    history_packet k (Request._paddr r - Request._paddr r mod 2 ^ k) (Request.isSecure r) d (Request.requestorId r) sht.
Proof.
  intros (Hi & Hss & Hp & Hr & Htr & Hsp) Hs. rewrite Hs in Hsp. subst rs. apply Forall_cons in Htr as [Htr _].
  unfold single_buildPackets. destruct (_senderState q) as [ss|] eqn:Hse; [|done].
  rewrite (proj2 (deref_Ok _ _ _) Hi), Hp, Hr. cbn [rbind].
  destruct (create_ok d q pid r Htr) as (p & -> & Hv & Ha & Hz & Hq & Hsec & Hm & Hnone).
  cbn [rbind]. unfold Packet.dataStatic. rewrite Hnone. cbn [rbind].
  destruct (finish_packet q i Packet.STATIC_DATA (DynInst.memData i) p eq_refl Hv) as (Hv' & Ha' & Hz' & Hq' & Hs' & Hm' & Hd').
  set (p' := mark_htm _ _) in *. cbn [_packets set_packets]. rewrite Hline.
  destruct (buildSHTpacket_ok k d p' i Hk Hv') as (sht & -> & Hsht);
    [congruence|rewrite Ha', Ha; apply Htr|].
  exists p', sht. cbn [rbind]. split_and!; [done| |].
  - unfold packet_of. rewrite Hs. split_and!; congruence.
  - unfold Packet.requestorId in Hsht. by rewrite Ha', Ha, Hs', Hsec, Hq', Hq in Hsht.
Qed.

Lemma split_buildPackets_ok pid h q i r rs :
  ready h q i r rs -> isSplit q = true ->
  exists ps main sht, split_buildPackets cpu pid h q
      = Ok (<[_inst q := DynInst.with_SHTpkt (Some sht) i]> h, set_packets ps main q) /\
    Forall2 (packet_of q i) (r :: rs) ps /\
    history_packet k (Request._paddr r - Request._paddr r mod 2 ^ k) (Request.isSecure r) d (Request.requestorId r) sht.
Proof.
  intros (Hi & Hss & Hp & Hr & Htr & Hsp) Hs. rewrite Hs in Hsp. destruct Hsp as (Hf & main & Hmain & Hmt).
  unfold split_buildPackets. rewrite (proj2 (deref_Ok _ _ _) Hi), Hp, Hr, Hf, Hmain. cbn [rbind].
  destruct (fragment_packets_ok d pid i q Hs (r :: rs) Htr) as (ps & Hps & Hall). cbn [length] in Hps. rewrite Hps.
  inversion Hall as [|? p ? ps' Hpk Hall']; subst.
  assert (exists m, (if isLoad q then let* p := Packet.createRead pid main in
      let* p := Packet.dataStatic (DynInst.memData i) p in Ok (Some (mark_htm i p)) else Ok (_mainPacket q)) = Ok m)
    as [m Hm].
  { destruct (isLoad q); [|by eexists]. destruct Hmt as (Hmp & _ & Hms & Hmh & _).
    destruct (Packet.packet_make_valid pid main (Packet.makeReadCmd main)) as (mp & Hmk & _ & _ & _ & _ & _ & _ & _ & Hnone); [done..|].
    unfold Packet.createRead. rewrite Hmk. cbn [rbind]. unfold Packet.dataStatic. rewrite Hnone. by eexists. }
  rewrite Hm. cbn [rbind _packets set_packets]. rewrite Hline.
  pose proof Hpk as (Hv & Hq & Ha & _ & Hsec & _). apply Forall_cons in Htr as [Htr _].
  destruct (buildSHTpacket_ok k d p i Hk Hv) as (sht & -> & Hsht); [by rewrite Hq|rewrite Ha; apply Htr|].
  exists (p :: ps'), m, sht. cbn [rbind]. split_and!; [done|done|].
  unfold Packet.requestorId in Hsht. by rewrite Ha, Hsec, Hq in Hsht.
Qed.

(** C8. What the cache and the history buffer receive. For a translated access, single
    or split, the build succeeds with one packet per request, in order: the packet is
    marked may-not-fill exactly when its request is marked no-fill, and carries the
    request's bytes of the instruction's data. The instruction gets a packet for the
    history buffer that is marked nowhere, and with which a history buffer of the same
    block size records the line of the access, or the first line of a split access,
    with its security state, domain and requestor. *)
Theorem packets_and_history pid h q i r rs :
  ready h q i r rs ->
  exists h' q' i' sht,
    (if isSplit q then split_buildPackets cpu pid h q else single_buildPackets cpu pid h q) = Ok (h', q') /\
    Forall2 (packet_of q i) (r :: rs) (_packets q') /\
    h' !! _inst q = Some i' /\ DynInst.SHTpkt i' = Some sht /\
    Packet.isMayNotFill sht = false /\ Packet.isNoFillLower sht = false /\
    forall S s, PrefetchBase.blkSize (SHB.base S) = 2 ^ k -> 0 < SHB.shbSize S ->
      Z.of_nat (length (SHB.shb s)) <= SHB.shbSize S ->
      SHB.notifySHB S sht s = Ok (SHB.mk
        (SHB.mkReq (Request._paddr r - Request._paddr r mod 2 ^ k) (Request.isSecure r) d (Request.requestorId r)
         :: take (pred (Z.to_nat (SHB.shbSize S))) (SHB.shb s)) (SHB.readyTime s)).
Proof.
  intros Hrdy. pose proof (pow2_pos k ltac:(lia)) as Hpos.
  assert ((Request._paddr r - Request._paddr r mod 2 ^ k) mod 2 ^ k = 0) as Hal.
  { pose proof (Z.div_mod (Request._paddr r) (2 ^ k) ltac:(lia)).
    replace (_ - _) with (Request._paddr r / 2 ^ k * 2 ^ k) by lia. apply Z.mod_mul. lia. }
  destruct (isSplit q) eqn:Hs.
  - destruct (split_buildPackets_ok pid h q i r rs Hrdy Hs) as (ps & m & sht & -> & Hps & Hsht).
    do 3 eexists. exists sht. split_and!; [done|done|apply lookup_insert_eq|done|apply Hsht|apply Hsht|].
    intros. by eapply history_packet_record; [done|done|lia|..].
  - destruct (single_buildPackets_ok pid h q i r rs Hrdy Hs) as (p & sht & -> & Hp & Hsht).
    destruct Hrdy as (_ & _ & _ & _ & _ & Hrs). rewrite Hs in Hrs. subst rs.
    do 3 eexists. exists sht. split_and!; [done|constructor; [done|constructor]|apply lookup_insert_eq|done|apply Hsht|apply Hsht|].
    intros. by eapply history_packet_record; [done|done|lia|..].
Qed.
End build.

(** ** Translation ends *)

(** The entries of [xs] at the positions in [l] replaced. *)
Definition visited {A} (g : nat -> A) (l : list nat) (xs : list A) : list A :=
  imap (fun j x => if bool_decide (j ∈ l) then g j else x) xs.

Lemma visited_snoc {A} (g : nat -> A) l k xs :
  (k < length xs)%nat -> <[k := g k]> (visited g l xs) = visited g (l ++ [k]) xs.
Proof.
  intros Hk. apply list_eq. intros j. unfold visited. destruct (decide (j = k)) as [->|Hj].
  - rewrite list_lookup_insert_eq by by rewrite length_imap. rewrite list_lookup_imap.
    destruct (lookup_lt_is_Some_2 xs k Hk) as [x ->]. simpl. by rewrite bool_decide_true by set_solver.
  - rewrite list_lookup_insert_ne, !list_lookup_imap by done. destruct (xs !! j); [|done]. simpl.
    by rewrite (bool_decide_ext (j ∈ l) (j ∈ l ++ [k])) by set_solver.
Qed.

Lemma visited_all {A} (g : nat -> A) l xs :
  l ≡ₚ seq 0 (length xs) -> visited g l xs = g <$> seq 0 (length xs).
Proof.
  intros Hl. apply list_eq. intros j. unfold visited. rewrite list_lookup_imap, list_lookup_fmap.
  destruct (xs !! j) as [x|] eqn:Hj.
  - apply lookup_lt_Some in Hj. rewrite lookup_seq_lt by done. simpl.
    rewrite bool_decide_true; [done|]. rewrite Hl. apply elem_of_seq. lia.
  - apply lookup_ge_None in Hj. by rewrite lookup_seq_ge.
Qed.

Section finish.
(** What the MMU answers for each fragment. *)
Context (faults : nat -> option Z) (results : nat -> Request.t).

(** No fragment is a conditional swap, and the ones without a fault have an address. *)
Definition answers_ok : Prop :=
  forall j, Request.hasVaddr (results j) = true /\ Request.isCondSwap (results j) = false /\
    (faults j = None -> Request.hasPaddr (results j) = true).

(** A split access handed to the MMU. *)
Definition in_translation (q : t) : Prop :=
  (0 < length (_requests q))%nat /\ Z.of_nat (length (_requests q)) < 2 ^ 32 /\
  length (_fault q) = length (_requests q) /\
  numTranslatedFragments q = 0 /\ numInTranslationFragments q = Z.of_nat (length (_requests q)) /\
  exists main, mainReq q = Some main /\ Request.hasVaddr main = true /\ Request.isCondSwap main = false.

(** [q] after the fragments [l] of [q0] have come back. *)
Definition came_back (q0 : t) (l : list nat) (q : t) : Prop :=
  _requests q = visited results l (_requests q0) /\ _fault q = visited faults l (_fault q0) /\
  numTranslatedFragments q = Z.of_nat (length l) /\
  numInTranslationFragments q = Z.of_nat (length (_requests q0)) - Z.of_nat (length l) /\
  flags q = flags q0 /\ _inst q = _inst q0 /\
  exists main, mainReq q = Some main /\ Request.hasVaddr main = true /\ Request.isCondSwap main = false.

(** Fragment [k] is recorded, before the test whether it was the last one. *)
Definition record_fragment (k : nat) (q : t) : res t :=
  let q := set_fault (<[k := faults k]> (_fault q)) (set_requests (<[k := results k]> (_requests q)) q) in
  let q := set_translation (u32 (numTranslatedFragments q + 1)) (u32 (numInTranslationFragments q - 1)) q in
  match faults k with
  | None =>
      let* fl := Request.getFlags (results k) in
      match mainReq q with
      | Some main => let* main := Request.setFlags fl main in Ok (set_mainReq (Some main) q)
      | None => Err Undefined
      end
  | Some _ => Ok q
  end.

Lemma split_finish_record k h q :
  (k < length (_requests q))%nat ->
  split_finish k (faults k) (results k) h q =
  (let* q := record_fragment k q in
   if numTranslatedFragments q =? Z.of_nat (length (_requests q)) then split_finished h q else Ok (h, q)).
Proof. intros Hk. unfold split_finish. by rewrite (proj2 (Nat.ltb_lt _ _) Hk). Qed.

Lemma record_fragment_ok q0 l k q :
  answers_ok -> in_translation q0 -> came_back q0 l q -> (k < length (_requests q0))%nat ->
  (length l < length (_requests q0))%nat ->
  exists q', record_fragment k q = Ok q' /\ came_back q0 (l ++ [k]) q'.
Proof.
  intros Hans (Hn & Hn32 & Hfl & _) (Hr & Hf & Ht & Hin & Hfg & Hi & main & Hm & Hmv & Hmc) Hk Hl.
  destruct (Hans k) as (Hkv & Hkc & _). unfold record_fragment.
  assert (forall m, Request.hasVaddr m = true -> Request.isCondSwap m = false ->
    came_back q0 (l ++ [k]) (set_mainReq (Some m) (set_translation (u32 (numTranslatedFragments q + 1))
      (u32 (numInTranslationFragments q - 1)) (set_fault (<[k := faults k]> (_fault q))
      (set_requests (<[k := results k]> (_requests q)) q))))) as Hcb.
  { intros m Hmv' Hmc'. unfold came_back. simpl. rewrite Hr, Hf, Ht, Hin, !visited_snoc by lia.
    rewrite length_app, !uwrap_small by (unfold in_word; lia). simpl.
    split_and!; [done|done|lia|lia|done|done|by exists m]. }
  destruct (faults k) eqn:Hfk.
  - eexists. split; [done|]. specialize (Hcb main Hmv Hmc). revert Hcb.
    unfold came_back. simpl. rewrite Hm. done.
  - unfold Request.getFlags. rewrite Hkv, orb_true_r. cbn [rbind]. cbn [mainReq set_translation set_fault set_requests].
    rewrite Hm. unfold Request.setFlags. rewrite Hmv, orb_true_r. cbn [rbind]. eexists. split; [done|].
    apply Hcb; [done|].
    unfold Request.isCondSwap in *. simpl. rewrite Flags.isSet_set, Hmc. exact Hkc.
Qed.
Lemma came_back_nil q : in_translation q -> came_back q [] q.
Proof.
  intros (_ & _ & _ & Ht & Hin & Hm).
  assert (forall A (g : nat -> A) xs, visited g [] xs = xs) as Hv.
  { intros A g xs. apply list_eq. intros j. unfold visited. rewrite list_lookup_imap. by destruct (xs !! j). }
  unfold came_back. rewrite !Hv. split_and!; simpl; (done || lia).
Qed.

(** One answer, which may be the last. *)
Lemma split_finish_step q0 l k h q :
  answers_ok -> in_translation q0 -> came_back q0 l q -> (k < length (_requests q0))%nat ->
  (length l < length (_requests q0))%nat ->
  exists q', came_back q0 (l ++ [k]) q' /\
    split_finish k (faults k) (results k) h q =
      if (S (length l) =? length (_requests q0))%nat then split_finished h q' else Ok (h, q').
Proof.
  intros Hans Hin Hcb Hk Hl.
  assert (forall l q, came_back q0 l q -> length (_requests q) = length (_requests q0)) as Hlen.
  { intros l' q' (-> & _). apply length_imap. }
  rewrite split_finish_record by by rewrite (Hlen _ _ Hcb).
  destruct (record_fragment_ok q0 l k q) as (q' & -> & Hcb'); [done..|].
  exists q'. split; [done|]. cbn [rbind]. rewrite (Hlen _ _ Hcb').
  destruct Hcb' as (_ & _ & -> & _). rewrite length_app. cbn [length].
  destruct (Nat.eqb_spec (S (length l)) (length (_requests q0)));
    [rewrite (proj2 (Z.eqb_eq _ _))|rewrite (proj2 (Z.eqb_neq _ _))]; (done || lia).
Qed.

(** The state and the fault an access ends with. *)
Definition first_of (fs : list (option Z)) : option Z :=
  foldr (fun f rest => match f with Some _ => f | None => rest end) None fs.
Definition outcome (fs : list (option Z)) : State :=
  match fs, first_of fs with
  | _, None => Request
  | Some _ :: _, _ => Fault
  | _, _ => PartialFault
  end.

Lemma first_fault_spec fs :
  (first_of fs = None /\ first_fault fs = length fs) \/
  (exists f, first_of fs = Some f /\ fs !! first_fault fs = Some (Some f) /\ (first_fault fs < length fs)%nat).
Proof.
  induction fs as [|[f|] fs IH]; [by left|right; exists f; simpl; auto with lia|].
  destruct IH as [[H1 H2]|(f & H1 & H2 & H3)]; simpl; [left; auto|right; exists f; auto with lia].
Qed.

Lemma split_finished_ok q0 ids h q i :
  answers_ok -> in_translation q0 -> ids ≡ₚ seq 0 (length (_requests q0)) -> came_back q0 ids q ->
  h !! _inst q0 = Some i ->
  let fs := faults <$> seq 0 (length (_requests q0)) in
  exists h' q', split_finished h q = Ok (h', q') /\ _requests q' = results <$> seq 0 (length (_requests q0)) /\
    _fault q' = fs /\ numInTranslationFragments q' = 0 /\
    if DynInst.isSquashed i then h' = h /\ Flags.isSet (flags q') TranslationSquashed = true
    else _state q' = outcome fs /\ Flags.isSet (flags q') TranslationFinished = true /\
         exists i', h' = <[_inst q0 := i']> h /\ DynInst.fault i' = first_of fs /\
           DynInst.has_flag DynInst.TranslationCompleted i' = true.
Proof.
  intros Hans (Hn & _ & Hfl & _) Hids (Hr & Hf & _ & Hin & Hfg & Hi & main & Hm & Hmv & Hmc) Hhi fs.
  rewrite visited_all in Hr by done. rewrite visited_all in Hf by by rewrite Hfl.
  rewrite Hfl in Hf. fold fs in Hf.
  assert (numInTranslationFragments q = 0) as Hin0.
  { rewrite Hin, (Permutation_length Hids), length_seq. lia. }
  unfold split_finished. rewrite Hi, (proj2 (deref_Ok _ _ _) Hhi). cbn [rbind].
  destruct (DynInst.isSquashed i).
  { unfold squashTranslation. rewrite Hin0. cbn [rbind Z.eqb]. eexists _, _. split; [reflexivity|].
    split_and!; try done. simpl. rewrite Flags.isSet_set. apply orb_true_r. }
  rewrite Hm. cbn [_fault set_flag with_flags _requests mainReq _inst]. rewrite Hf, Hr.
  assert (Flags.isSet (Flags.set (flags q) TranslationFinished) TranslationFinished = true) as Hfin
    by (rewrite Flags.isSet_set; apply orb_true_r).
  assert (forall i : DynInst.t, DynInst.has_flag DynInst.TranslationCompleted
    (DynInst.set_flag DynInst.TranslationCompleted true i) = true) as Hset.
  { intros j. unfold DynInst.has_flag, DynInst.set_flag. cbn [DynInst.instFlags DynInst.with_instFlags].
    by rewrite Z.setbit_eq by done. }
  destruct (length (_requests q0)) as [|n]; [lia|]. subst fs. cbn [seq fmap list_fmap] in *.
  set (fs := faults <$> seq 1 n) in *.
  destruct (faults 0%nat) as [f|] eqn:Hf0; cbn [first_fault].
  { cbn [rbind]. eexists _, _. split; [reflexivity|]. split_and!; try done.
    eexists. split; [simpl; by rewrite Hi|]. split; [done|]. apply Hset. }
  destruct (Hans 0%nat) as (_ & _ & Hp). unfold Request.getPaddr, Request.getFlags, swap_data.
  cbn [rbind]. rewrite (Hp Hf0). cbn [rbind]. rewrite Hmv, orb_true_r. cbn [rbind]. rewrite Hmc.
  cbn [rbind negb orb length Nat.eqb _fault set_mainReq set_flag with_flags].
  rewrite Hf. change ((None :: fs) !! S (first_fault fs)) with (fs !! first_fault fs).
  destruct (first_fault_spec fs) as [[H1 H2]|(f & H1 & H2 & H3)].
  - rewrite (proj2 (Nat.eqb_eq _ _) H2). cbn [rbind]. eexists _, _. split; [reflexivity|].
    split_and!; try done; [simpl; by rewrite H1|]. simpl. rewrite H1.
    eexists. split; [by rewrite Hi|]. split; [done|]. apply Hset.
  - rewrite (proj2 (Nat.eqb_neq _ _)) by lia. rewrite H2. cbn [rbind]. eexists _, _. split; [reflexivity|].
    split_and!; try done; [simpl; by rewrite H1|]. simpl. rewrite H1.
    eexists. split; [by rewrite Hi|]. split; [done|]. apply Hset.
Qed.

(** C22. The fragments may come back in any order. For every order in which the MMU
    answers the fragments of a split access, each once, the access takes all answers
    and ends in one and the same way: the requests and faults are the answers by
    position, nothing is left in translation, and, unless the instruction was squashed
    in the meantime, the access is ready when no fragment has a fault, partly faulting
    when the first fragment has none, and faulting otherwise, the instruction getting
    the fault of the first fragment that has one. *)
Theorem translation_any_order q ids h i :
  answers_ok -> in_translation q -> ids ≡ₚ seq 0 (length (_requests q)) -> h !! _inst q = Some i ->
  let fs := faults <$> seq 0 (length (_requests q)) in
  exists h' q', foldM (fun s k => split_finish k (faults k) (results k) s.1 s.2) ids (h, q) = Ok (h', q') /\
    _requests q' = results <$> seq 0 (length (_requests q)) /\ _fault q' = fs /\
    numInTranslationFragments q' = 0 /\
    if DynInst.isSquashed i then h' = h /\ Flags.isSet (flags q') TranslationSquashed = true
    else _state q' = outcome fs /\ Flags.isSet (flags q') TranslationFinished = true /\
         exists i', h' = <[_inst q := i']> h /\ DynInst.fault i' = first_of fs /\
           DynInst.has_flag DynInst.TranslationCompleted i' = true.
Proof.
  intros Hans Hin Hids Hi fs. pose proof (Permutation_length Hids) as Hlen. rewrite length_seq in Hlen.
  pose proof Hin as (Hn & _). destruct ids as [|k0 l0] using rev_ind; [simpl in *; lia|]. clear IHl0.
  rename k0 into k, l0 into l. rewrite foldM_app. rewrite length_app in Hlen. simpl in Hlen.
  assert (forall j, j ∈ l ++ [k] -> (j < length (_requests q))%nat) as Hlt.
  { intros j Hj. rewrite Hids in Hj. apply elem_of_seq in Hj. lia. }
  destruct (foldM_ind (fun s k => split_finish k (faults k) (results k) s.1 s.2)
    (fun pre s => s.1 = h /\ came_back q pre s.2) l (h, q)) as ([h1 q1] & Hrun & Hh1 & Hq1); simpl in *.
  { split; [done|by apply came_back_nil]. }
  { intros pre x post [h1 q1] -> [-> Hcb]. rewrite length_app in Hlen. simpl in *.
    destruct (split_finish_step q pre x h q1) as (q2 & Hcb2 & ->); [done..|apply Hlt; set_solver|lia|].
    rewrite (proj2 (Nat.eqb_neq _ _)) by lia. by exists (h, q2). }
  rewrite Hrun. cbn [rbind foldM]. simpl. subst h1.
  destruct (split_finish_step q l k h q1) as (q2 & Hcb2 & ->); [done..|apply Hlt; set_solver|lia|].
  rewrite (proj2 (Nat.eqb_eq _ _)) by lia.
  destruct (split_finished_ok q (l ++ [k]) h q2 i) as (h' & q' & Hfin & H); [done..|].
  exists h', q'. by rewrite Hfin.
Qed.

End finish.

(** ** The second load of the example crosses a line *)

Definition split_load : t :=
  make 3 CoreExamples.load2 true 0x103C 8 0 None None true (replicate 8 true) 5.

Definition no_thread (tid : Z) : Z := 0.
Definition domain7 (tid : Z) : Z := 7.

Lemma split_access_exact_witness :
  pieces 8 64 0x103C 8 = [(0x103C, 4); (0x1040, 4)] /\
  exists h' q',
    split_initiateTranslation CoreExamples.cpu domain7 no_thread 0 CoreExamples.heap0 split_load
      = Ok (h', q', seq 0 (length (_requests q'))) /\
    _requests q' = tag split_load CoreExamples.load2 <$>
      fragments CoreExamples.cpu domain7 no_thread 0 split_load CoreExamples.load2
        (cut (replicate 8 true) (pieces 8 64 0x103C 8)).
Proof.
  split; [reflexivity|].
  apply (split_access_exact CoreExamples.cpu domain7 no_thread 0 6 CoreExamples.heap0 split_load CoreExamples.load2);
    (reflexivity || (simpl; lia)).
Defined.

Definition started : heap * t * list nat := Eval vm_compute in
  CoreExamples.the (CoreExamples.heap0, split_load, [])
    (split_initiateTranslation CoreExamples.cpu domain7 no_thread 0 CoreExamples.heap0 split_load).

Lemma started_run :
  split_initiateTranslation CoreExamples.cpu domain7 no_thread 0 CoreExamples.heap0 split_load = Ok started.
Proof. vm_cast_no_check (eq_refl (Ok started)). Qed.

(** The answers of the MMU: the second line faults. *)
Definition fault1 (n : nat) : option Z := match n with 1%nat => Some 9 | _ => None end.
Definition answer (n : nat) : Request.t :=
  CoreExamples.load_request (0x103C + 4 * Z.of_nat n) (0x503C + 4 * Z.of_nat n).

Lemma translation_any_order_witness :
  (exists h' q', foldM (fun s k => split_finish k (fault1 k) (answer k) s.1 s.2) [1; 0]%nat started.1 = Ok (h', q') /\
    _state q' = PartialFault /\ _fault q' = [None; Some 9]).
Proof.
  destruct (translation_any_order fault1 answer started.1.2 [1; 0]%nat started.1.1 (CoreExamples.the CoreExamples.load2
    (deref started.1.1 3))) as (h' & q' & Hrun & _ & Hf & _ & Hst & _).
  - intros j. split_and!; reflexivity.
  - unfold in_translation. split_and!; [simpl; lia|simpl; lia|reflexivity..|]. eexists. split_and!; reflexivity.
  - constructor.
  - vm_compute. reflexivity.
  - exists h', q'. split_and!; [exact Hrun|exact Hst|exact Hf].
Defined.

(** A single load, translated. *)
Definition single_load : t :=
  let q := make 3 CoreExamples.load2 true 0x2048 8 0 None None false (replicate 8 true) 5 in
  set_requests [CoreExamples.load_request 0x2048 0x1048]
    (mk (flags q) Request (Some (mkSS 0 3 0 true true false false CircularQueue.null)) 1 0 (_inst q) (_taskId q) [] [] [None] None (_addr q)
       (_size q) 0 (_byteEnable q) 0 None 0 None None).

Lemma packets_and_history_witness :
  exists h' q' i' sht,
    single_buildPackets CoreExamples.cpu 0 CoreExamples.heap0 single_load = Ok (h', q') /\
    h' !! 3 = Some i' /\ DynInst.SHTpkt i' = Some sht /\
    SHB.notifySHB SHBFacts.example_shb sht (SHB.mk [] 0) = Ok (SHB.mk [SHB.mkReq 0x1040 false 7 3] 0).
Proof.
  destruct (packets_and_history CoreExamples.cpu 6 7 ltac:(lia) eq_refl 0 CoreExamples.heap0 single_load
    CoreExamples.load2 (CoreExamples.load_request 0x2048 0x1048) []) as (h' & q' & i' & sht & H1 & _ & H2 & H3 & _ & _ & H4).
  - unfold ready. split_and!; [reflexivity|done|reflexivity|reflexivity| |reflexivity].
    constructor; [|constructor]. unfold translated, in_word. split_and!; (reflexivity || (simpl; lia)).
  - exists h', q', i', sht. split_and!; [exact H1|exact H2|exact H3|].
    apply (H4 SHBFacts.example_shb (SHB.mk [] 0)); vm_compute; done.
Defined.

End LsqSpec.
