(* ===== verification/LsqUnit.v ===== *)
(** * The load and store queues: cpu/o3/lsq_unit.hh, lsq_unit_impl.hh, lsq_impl.hh

    [LSQUnit] holds the loads and the stores of a thread in two circular queues. A load
    enters and leaves with its instruction; a store leaves when the memory system has
    taken it. A load looks for its data among the older stores that have not been
    written back ([read]), a store looks for younger loads that went ahead of it
    ([checkViolations]), and committed stores are sent to the cache in order
    ([writebackStores]).

    The world of the unit is explicit: the instructions, the requests with their keys
    (a deleted request is no longer in the map, and using it is [Undefined]), the ports
    of the data cache, the writebacks scheduled for later, and the calls made to other
    components, in order. The instruction's own part of an access ([initiateAcc],
    [completeAcc]) is generated from the description of the ISA, and the MMU and the
    cache answer from outside: they are the fields of [Env]. The queue belongs to a core
    with one thread and without a checker. The ISA is x86: its [handleLockedRead] and
    [handleLockedSnoop] do nothing and its [handleLockedWrite] succeeds
    (arch/generic/locked_mem.hh). Statistics and the wake-up of an idle core are left
    out. *)

From stdpp Require Import gmap.
From S2P Require Import Prelude.
From S2P Require Import CircularQueue BaseUtil MemCmd Request Packet DynInst Rob Lsq.

Local Open Scope Z_scope.

(** ** Entries of the queues *)
Module LSQEntry.

Record t := mk {
  inst : option DynInstPtr;
  req : option Z;
  _size : Z;
  _valid : bool
}.
Definition empty : t := mk None None 0 false.
Definition set (i : DynInstPtr) (e : t) : res t :=
  assert! negb (_valid e) in Ok (mk (Some i) (req e) 0 true).
Definition setRequest (r : option Z) (e : t) : t := mk (inst e) r (_size e) (_valid e).
Definition hasRequest (e : t) : bool := match req e with Some _ => true | None => false end.
Definition valid : t -> bool := _valid.
Definition size : t -> Z := _size.
Definition set_size (n : Z) (e : t) : t := mk (inst e) (req e) n (_valid e).

(** Reading through the pointers. *)
Definition instruction (e : t) : res DynInstPtr :=
  match inst e with Some i => Ok i | None => Err Undefined end.
Definition request (e : t) : res Z :=
  match req e with Some r => Ok r | None => Err Undefined end.

End LSQEntry.

Module SQEntry.

Record t := mk {
  base : LSQEntry.t;
  _data : list Z;
  _canWB : bool;
  _committed : bool;
  _completed : bool;
  _isAllZeros : bool
}.
(** MaxVecRegLenInBytes *)
Definition DataSize : Z := 4096.
Definition empty : t := mk LSQEntry.empty (replicate 4096 0) false false false false.
Definition with_base (b : LSQEntry.t) (e : t) : t :=
  mk b (_data e) (_canWB e) (_committed e) (_completed e) (_isAllZeros e).
Definition with_data (d : list Z) (e : t) : t :=
  mk (base e) d (_canWB e) (_committed e) (_completed e) (_isAllZeros e).
Definition set_canWB (b : bool) (e : t) : t :=
  mk (base e) (_data e) b (_committed e) (_completed e) (_isAllZeros e).
Definition set_committed (b : bool) (e : t) : t :=
  mk (base e) (_data e) (_canWB e) b (_completed e) (_isAllZeros e).
Definition set_completed (b : bool) (e : t) : t :=
  mk (base e) (_data e) (_canWB e) (_committed e) b (_isAllZeros e).
Definition set_isAllZeros (b : bool) (e : t) : t :=
  mk (base e) (_data e) (_canWB e) (_committed e) (_completed e) b.
Definition set (i : DynInstPtr) (e : t) : res t :=
  let* b := LSQEntry.set i (base e) in Ok (with_base b e).
Definition valid (e : t) : bool := LSQEntry.valid (base e).
Definition size (e : t) : Z := LSQEntry.size (base e).
Definition instruction (e : t) : res DynInstPtr := LSQEntry.instruction (base e).
Definition request (e : t) : res Z := LSQEntry.request (base e).

End SQEntry.

Module LSQUnit.
Import LSQRequest.
Abbreviation iterator := CircularQueue.iterator.

(** ** State *)

Record t := mk {
  storeQueue : CircularQueue.t SQEntry.t;
  loadQueue : CircularQueue.t LSQEntry.t;
  loads : Z;
  stores : Z;
  storesToWB : Z;
  htmStarts : Z;
  htmStops : Z;
  lastRetiredHtmUid : Z;
  storeWBIt : iterator;
  stalled : bool;
  stallingStoreIsn : Z;
  stallingLoadIdx : Z;
  isStoreBlocked : bool;
  storeInFlight : bool;
  memDepViolator : option DynInstPtr
}.

Definition with_storeQueue v u := mk v (loadQueue u) (loads u) (stores u) (storesToWB u) (htmStarts u) (htmStops u)
  (lastRetiredHtmUid u) (storeWBIt u) (stalled u) (stallingStoreIsn u) (stallingLoadIdx u) (isStoreBlocked u)
  (storeInFlight u) (memDepViolator u).
Definition with_loadQueue v u := mk (storeQueue u) v (loads u) (stores u) (storesToWB u) (htmStarts u) (htmStops u)
  (lastRetiredHtmUid u) (storeWBIt u) (stalled u) (stallingStoreIsn u) (stallingLoadIdx u) (isStoreBlocked u)
  (storeInFlight u) (memDepViolator u).
Definition with_loads v u := mk (storeQueue u) (loadQueue u) v (stores u) (storesToWB u) (htmStarts u) (htmStops u)
  (lastRetiredHtmUid u) (storeWBIt u) (stalled u) (stallingStoreIsn u) (stallingLoadIdx u) (isStoreBlocked u)
  (storeInFlight u) (memDepViolator u).
Definition with_stores v u := mk (storeQueue u) (loadQueue u) (loads u) v (storesToWB u) (htmStarts u) (htmStops u)
  (lastRetiredHtmUid u) (storeWBIt u) (stalled u) (stallingStoreIsn u) (stallingLoadIdx u) (isStoreBlocked u)
  (storeInFlight u) (memDepViolator u).
Definition with_storesToWB v u := mk (storeQueue u) (loadQueue u) (loads u) (stores u) v (htmStarts u) (htmStops u)
  (lastRetiredHtmUid u) (storeWBIt u) (stalled u) (stallingStoreIsn u) (stallingLoadIdx u) (isStoreBlocked u)
  (storeInFlight u) (memDepViolator u).
Definition with_htmCounts starts stops u := mk (storeQueue u) (loadQueue u) (loads u) (stores u) (storesToWB u)
  starts stops (lastRetiredHtmUid u) (storeWBIt u) (stalled u) (stallingStoreIsn u) (stallingLoadIdx u)
  (isStoreBlocked u) (storeInFlight u) (memDepViolator u).
Definition with_lastRetiredHtmUid v u := mk (storeQueue u) (loadQueue u) (loads u) (stores u) (storesToWB u)
  (htmStarts u) (htmStops u) v (storeWBIt u) (stalled u) (stallingStoreIsn u) (stallingLoadIdx u)
  (isStoreBlocked u) (storeInFlight u) (memDepViolator u).
Definition with_storeWBIt v u := mk (storeQueue u) (loadQueue u) (loads u) (stores u) (storesToWB u) (htmStarts u)
  (htmStops u) (lastRetiredHtmUid u) v (stalled u) (stallingStoreIsn u) (stallingLoadIdx u) (isStoreBlocked u)
  (storeInFlight u) (memDepViolator u).
Definition with_stall st isn idx u := mk (storeQueue u) (loadQueue u) (loads u) (stores u) (storesToWB u)
  (htmStarts u) (htmStops u) (lastRetiredHtmUid u) (storeWBIt u) st isn idx (isStoreBlocked u)
  (storeInFlight u) (memDepViolator u).
Definition with_isStoreBlocked v u := mk (storeQueue u) (loadQueue u) (loads u) (stores u) (storesToWB u)
  (htmStarts u) (htmStops u) (lastRetiredHtmUid u) (storeWBIt u) (stalled u) (stallingStoreIsn u)
  (stallingLoadIdx u) v (storeInFlight u) (memDepViolator u).
Definition with_storeInFlight v u := mk (storeQueue u) (loadQueue u) (loads u) (stores u) (storesToWB u)
  (htmStarts u) (htmStops u) (lastRetiredHtmUid u) (storeWBIt u) (stalled u) (stallingStoreIsn u)
  (stallingLoadIdx u) (isStoreBlocked u) v (memDepViolator u).
Definition with_memDepViolator v u := mk (storeQueue u) (loadQueue u) (loads u) (stores u) (storesToWB u)
  (htmStarts u) (htmStops u) (lastRetiredHtmUid u) (storeWBIt u) (stalled u) (stallingStoreIsn u)
  (stallingLoadIdx u) (isStoreBlocked u) (storeInFlight u) v.

(** The ports to the data cache, of the [LSQ] the unit is part of. *)
Record Ports := mkPorts {
  _cacheBlocked : bool;
  cacheStorePorts : Z;
  usedStorePorts : Z;
  cacheLoadPorts : Z;
  usedLoadPorts : Z
}.

(** What the unit asks other components to do. *)
Inductive Action :=
  | SendTimingReq (p : Packet.t)
  | RescheduleMemInst (i : DynInstPtr)
  | ReplayMemInst (i : DynInstPtr)
  | BlockMemInst (i : DynInstPtr)
  | CompleteAcc (i : DynInstPtr) (data : option (list Z))
  | ForwardOldRegs (i : DynInstPtr)
  | InstToCommit (i : DynInstPtr)
  | CheckMisprediction (i : DynInstPtr)
  | UpdateLSQNextCycle
  | CacheUnblocked
  | LocalWrite (i : DynInstPtr) (data : list Z).

(** [htm_cpt]: the identifier in the checkpoint of the thread, [None] without one. *)
Record World := mkW {
  insts : heap;
  reqs : gmap Z LSQRequest.t;
  nextReq : Z;
  ports : Ports;
  unit : t;
  htm_cpt : option Z;
  globalHtmUid : Z;
  events : list (DynInstPtr * Packet.t);
  log : list Action
}.

Definition with_insts v w := mkW v (reqs w) (nextReq w) (ports w) (unit w) (htm_cpt w) (globalHtmUid w) (events w) (log w).
Definition with_reqs v w := mkW (insts w) v (nextReq w) (ports w) (unit w) (htm_cpt w) (globalHtmUid w) (events w) (log w).
Definition with_ports v w := mkW (insts w) (reqs w) (nextReq w) v (unit w) (htm_cpt w) (globalHtmUid w) (events w) (log w).
Definition with_unit v w := mkW (insts w) (reqs w) (nextReq w) (ports w) v (htm_cpt w) (globalHtmUid w) (events w) (log w).
Definition with_htm_cpt v w := mkW (insts w) (reqs w) (nextReq w) (ports w) (unit w) v (globalHtmUid w) (events w) (log w).
Definition with_events v w := mkW (insts w) (reqs w) (nextReq w) (ports w) (unit w) (htm_cpt w) (globalHtmUid w) v (log w).
Definition emit (a : Action) w :=
  mkW (insts w) (reqs w) (nextReq w) (ports w) (unit w) (htm_cpt w) (globalHtmUid w) (events w) (log w ++ [a]).
Definition upd (f : t -> t) w := with_unit (f (unit w)) w.

Definition inst_at (p : DynInstPtr) (w : World) : res DynInst.t := deref (insts w) p.
Definition set_inst (p : DynInstPtr) (i : DynInst.t) (w : World) : World := with_insts (<[p := i]> (insts w)) w.
Definition on_inst (p : DynInstPtr) (f : DynInst.t -> DynInst.t) (w : World) : res World :=
  let* i := inst_at p w in Ok (set_inst p (f i) w).
Definition req_at (r : Z) (w : World) : res LSQRequest.t :=
  match reqs w !! r with Some q => Ok q | None => Err Undefined end.
Definition set_req (r : Z) (q : LSQRequest.t) (w : World) : World := with_reqs (<[r := q]> (reqs w)) w.

(** BaseHTMCheckpoint::newHtmUid *)
Definition newHtmUid (w : World) : Z * World :=
  let n := u64 (globalHtmUid w + 1) in
  (n, mkW (insts w) (reqs w) (nextReq w) (ports w) (unit w) (Some n) n (events w) (log w)).

(** ** The life of a request *)

(** [delete this]: the destructor. *)
Definition delete_request (r : Z) (w : World) : res World :=
  let* q := req_at r w in
  assert! negb (isAnyOutstandingRequest q) in
  let* w := on_inst (_inst q) (DynInst.with_savedReq None) w in
  Ok (with_reqs (delete r (reqs w)) w).

Definition release (reason : Z) (r : Z) (w : World) : res World :=
  let* q := req_at r w in
  if negb (isAnyOutstandingRequest q) then delete_request r w
  else
    let q := match _senderState q with Some s => with_ss (Some (deleteRequest s)) q | None => q end in
    Ok (set_req r (set_flag reason q) w).
Definition freeLSQEntry : Z -> World -> res World := release LSQEntryFreed.
Definition discard : Z -> World -> res World := release Discarded.

Definition packetReplied (r : Z) (w : World) : res World :=
  let* q := req_at r w in
  assert! (0 <? _numOutstandingPackets q) in
  let q := set_outstanding (_numOutstandingPackets q - 1) q in
  let w := set_req r q w in
  if (_numOutstandingPackets q =? 0) && isReleased q then delete_request r w else Ok w.

Definition writebackDone (r : Z) (w : World) : res World :=
  let* q := req_at r w in
  let q := set_flag WritebackDone q in
  let w := set_req r q w in
  if isReleased q then delete_request r w else Ok w.

(** ** Entries *)

Definition lq_get (idx : Z) (w : World) : res LSQEntry.t := CircularQueue.get idx (loadQueue (unit w)).
Definition sq_get (idx : Z) (w : World) : res SQEntry.t := CircularQueue.get idx (storeQueue (unit w)).
Definition lq_set (idx : Z) (e : LSQEntry.t) (w : World) : res World :=
  let* q := CircularQueue.set idx e (loadQueue (unit w)) in Ok (upd (with_loadQueue q) w).
Definition sq_set (idx : Z) (e : SQEntry.t) (w : World) : res World :=
  let* q := CircularQueue.set idx e (storeQueue (unit w)) in Ok (upd (with_storeQueue q) w).
Definition on_lq (idx : Z) (f : LSQEntry.t -> LSQEntry.t) (w : World) : res World :=
  let* e := lq_get idx w in lq_set idx (f e) w.
Definition on_sq (idx : Z) (f : SQEntry.t -> SQEntry.t) (w : World) : res World :=
  let* e := sq_get idx w in sq_set idx (f e) w.

(** [LSQEntry::clear] and [SQEntry::clear]: the request of the entry is let go. *)
Definition free_request (e : LSQEntry.t) (w : World) : res World :=
  match LSQEntry.req e with Some r => freeLSQEntry r w | None => Ok w end.
Definition clear_load (idx : Z) (w : World) : res World :=
  let* e := lq_get idx w in
  let* w := free_request e w in
  lq_set idx LSQEntry.empty w.
Definition clear_store (idx : Z) (w : World) : res World :=
  let* e := sq_get idx w in
  let* w := free_request (SQEntry.base e) w in
  sq_set idx (SQEntry.mk LSQEntry.empty (SQEntry._data e) false false false false) w.

Record Params := mkParams {
  depCheckShift : Z;
  checkLoads : bool;
  needsTSO : bool
}.

(** The access an instruction makes in its [initiateAcc]: none, leaving a fault and the
    predicate, or one call to [pushRequest]. *)
Inductive Access :=
  | NoAccess (fault : option Z) (predicate : bool)
  | Push (isLoad : bool) (data : list Z) (size addr reqFlags : Z) (extra : option Z)
      (amo_op : option (list Z -> list Z)) (byte_enable : list bool).

(** What answers from outside, given what the unit has done so far: the access of an
    instruction and the fault of its completion, the MMU (no answer: the translation
    ends later), and the data cache. *)
Record Env := mkEnv {
  initiate : DynInst.t -> Access;
  completeAcc : DynInst.t -> option Packet.t -> option Z;
  translate : list Action -> Request.t -> option (option Z * Request.t);
  accepts : list Action -> Packet.t -> bool
}.

(** The two faults made by the unit. *)
Definition M5PanicFault : Z := -1.
Definition ReExec : Z := -2.

Section unit.
Variables (P : Params) (cpu : BaseCPU.t) (E : Env) (domain context : Z -> Z) (now pid task : Z).

Definition cacheLineSize : Z := BaseCPU.cacheLineSize cpu.
(** The complement is taken in the 32 bits of [unsigned int]. *)
Definition cacheBlockMask : Z := unot 32 (u32 (cacheLineSize - 1)).

(** ** Construction *)

Definition make (lqEntries sqEntries : Z) : t :=
  let sq := CircularQueue.make SQEntry.empty (u32 (sqEntries + 1)) in
  mk sq (CircularQueue.make LSQEntry.empty (u32 (lqEntries + 1))) 0 0 0 0 0 0
    (CircularQueue.begin sq) false 0 0 false false None.

Definition resetState (u : t) : t :=
  let u := with_storesToWB 0 (with_stores 0 (with_loads 0 u)) in
  let u := with_storeWBIt (CircularQueue.begin (storeQueue u)) (with_htmCounts 0 0 u) in
  with_stall false (stallingStoreIsn u) (stallingLoadIdx u) (with_memDepViolator None u).
Definition takeOverFrom (u : t) : t := resetState u.

(** ** Queries *)

Definition numFreeLoadEntries (u : t) : Z := u32 (CircularQueue.capacity (loadQueue u) - loads u).
Definition numFreeStoreEntries (u : t) : Z := u32 (CircularQueue.capacity (storeQueue u) - stores u).
Definition lqFull (u : t) : bool := CircularQueue.full (loadQueue u).
Definition sqFull (u : t) : bool := CircularQueue.full (storeQueue u).
Definition isFull (u : t) : bool := lqFull u || sqFull u.
Definition lqEmpty (u : t) : bool := loads u =? 0.
Definition sqEmpty (u : t) : bool := stores u =? 0.
Definition isEmpty (u : t) : bool := lqEmpty u && sqEmpty u.
Definition getCount (u : t) : Z := u32 (loads u + stores u).
Definition hasStoresToWB (u : t) : bool := truthy (storesToWB u).
Definition violation (u : t) : bool := match memDepViolator u with Some _ => true | None => false end.
Definition getMemDepViolator (u : t) : option DynInstPtr * t := (memDepViolator u, with_memDepViolator None u).
Definition resetHtmStartsStops (u : t) : t := with_htmCounts 0 0 u.
Definition setLastRetiredHtmUid (uid : Z) (u : t) : res t :=
  assert! (lastRetiredHtmUid u <=? uid) in Ok (with_lastRetiredHtmUid uid u).
Definition isStalled (u : t) : bool := stalled u.

Definition willWB (u : t) : bool :=
  CircularQueue.dereferenceable (storeQueue u) (storeWBIt u) &&
  match CircularQueue.deref (storeQueue u) (storeWBIt u) with
  | Ok e => SQEntry.valid e && SQEntry._canWB e && negb (SQEntry._completed e) && negb (isStoreBlocked u)
  | Err _ => false
  end.

(** The sequence number at the head of a queue, 0 in front of a cleared slot. *)
Definition head_seq (e : LSQEntry.t) (w : World) : res Z :=
  if LSQEntry.valid e then
    let* p := LSQEntry.instruction e in let* i := inst_at p w in Ok (DynInst.seqNum i)
  else Ok 0.
Definition getLoadHeadSeqNum (w : World) : res Z :=
  let* e := CircularQueue.front (loadQueue (unit w)) in head_seq e w.
Definition getStoreHeadSeqNum (w : World) : res Z :=
  let* e := CircularQueue.front (storeQueue (unit w)) in head_seq (SQEntry.base e) w.

Definition drainSanityCheck (u : t) : res Datatypes.unit :=
  assert! forallb (fun e => negb (LSQEntry.valid e)) (CircularQueue.data (loadQueue u)) in
  assert! (storesToWB u =? 0) in Ok tt.

(** ** Insertion *)

(** The nesting depth of transactions as instructions enter. *)
Definition insert_htm (p : DynInstPtr) (w : World) : res World :=
  let* i := inst_at p w in
  let* w :=
    if DynInst.isHtmStart i then
      let w := upd (fun u => with_htmCounts (htmStarts u + 1) (htmStops u) u) w in
      let depth := u64 (htmStarts (unit w) - htmStops (unit w)) in
      match htm_cpt w with
      | None => Err Undefined
      | Some uid =>
          let (uid, w) := if negb (DynInst.inHtmTransactionalState i) then newHtmUid w else (uid, w) in
          on_inst p (DynInst.setHtmTransactionalState uid depth) w
      end
    else Ok w in
  Ok (if DynInst.isHtmStop i then upd (fun u => with_htmCounts (htmStarts u) (htmStops u + 1) u) w else w).

Definition insertLoad (p : DynInstPtr) (w : World) : res World :=
  let u := unit w in
  assert! negb (CircularQueue.full (loadQueue u)) in
  assert! (loads u <? CircularQueue.capacity (loadQueue u)) in
  let w := upd (with_loadQueue (CircularQueue.advance_tail (loadQueue u))) w in
  let* w := on_inst p (DynInst.with_sqIt (CircularQueue.end_ (storeQueue u))) w in
  let tail := CircularQueue.tail (loadQueue (unit w)) in
  let* e := lq_get tail w in
  assert! negb (LSQEntry.valid e) in
  let* e := LSQEntry.set p e in
  let* w := lq_set tail e w in
  assert! (0 <? tail) in
  let* w := on_inst p (DynInst.with_lq tail (CircularQueue.getIterator tail (loadQueue (unit w)))) w in
  let w := upd (fun u => with_loads (loads u + 1) u) w in
  insert_htm p w.

Definition insertStore (p : DynInstPtr) (w : World) : res World :=
  let u := unit w in
  assert! negb (CircularQueue.full (storeQueue u)) in
  assert! (stores u <? CircularQueue.capacity (storeQueue u)) in
  let w := upd (with_storeQueue (CircularQueue.advance_tail (storeQueue u))) w in
  let tail := CircularQueue.tail (storeQueue (unit w)) in
  let lq := u64 (CircularQueue.tail (loadQueue u) + 1) in
  let* w := on_inst p (DynInst.with_sqIdx tail) w in
  assert! (0 <? lq) in
  let* w := on_inst p (DynInst.with_lq lq (CircularQueue.end_ (loadQueue u))) w in
  let* e := sq_get tail w in
  let* e := SQEntry.set p e in
  let* w := sq_set tail e w in
  Ok (upd (fun u => with_stores (stores u + 1) u) w).

Definition insert (p : DynInstPtr) (w : World) : res World :=
  let* i := inst_at p w in
  assert! DynInst.isMemRef i in
  assert! (DynInst.isLoad i || DynInst.isStore i || DynInst.isAtomic i) in
  let* w := if DynInst.isLoad i then insertLoad p w else insertStore p w in
  on_inst p DynInst.setInLSQ w.

(** ** Sending to the cache *)

Definition cachePortAvailable (is_load : bool) (s : Ports) : bool :=
  if is_load then usedLoadPorts s <? cacheLoadPorts s else usedStorePorts s <? cacheStorePorts s.
Definition cachePortBusy (is_load : bool) (s : Ports) : res Ports :=
  assert! cachePortAvailable is_load s in
  Ok (if is_load
      then mkPorts (_cacheBlocked s) (cacheStorePorts s) (usedStorePorts s) (cacheLoadPorts s) (usedLoadPorts s + 1)
      else mkPorts (_cacheBlocked s) (cacheStorePorts s) (usedStorePorts s + 1) (cacheLoadPorts s) (usedLoadPorts s)).
Definition set_cacheBlocked (b : bool) (s : Ports) : Ports :=
  mkPorts b (cacheStorePorts s) (usedStorePorts s) (cacheLoadPorts s) (usedLoadPorts s).

(** The packet is on its way: the port is busy, and the request and its instruction
    know. The flag that it has been counted is set on the request shared with the
    packet. *)
Definition packet_gone (r : Z) (idx : nat) (p : Packet.t) (w : World) : res World :=
  let* q := req_at r w in
  let is_load := isLoad q in
  let w := emit (SendTimingReq p) w in
  let w := if is_load then w else upd (with_isStoreBlocked false) w in
  let* s := cachePortBusy is_load (ports w) in
  let w := with_ports s w in
  let* st := match _senderState q with Some st => Ok st | None => Err Undefined end in
  let q := packetSent (with_ss (Some (set_ss_outstanding (uwrap 8 (outstanding st + 1)) st)) q) in
  let* w := on_inst (_inst q) (DynInst.with_packetSent true) w in
  let* req := if Packet.isRead p || Packet.isWrite p then
                assert! negb (Request.specStatAdded (Packet.req p)) in
                Request.setFlags Request.SPEC_STATS (Packet.req p)
              else Ok (Packet.req p) in
  let ps := <[idx := Packet.with_req req p]> (_packets q) in
  Ok (set_req r (set_packets ps (_mainPacket q) q) w).

(** The packet could not go; a refused store is the one being written back. *)
Definition packet_refused (r : Z) (asked : bool) (w : World) : res World :=
  let* q := req_at r w in
  let w := if asked then with_ports (set_cacheBlocked true (ports w)) w else w in
  let* w :=
    if isLoad q then Ok w
    else
      let* e := CircularQueue.deref (storeQueue (unit w)) (storeWBIt (unit w)) in
      assert! bool_decide (LSQEntry.req (SQEntry.base e) = Some r) in
      Ok (upd (with_isStoreBlocked true) w) in
  Ok (set_req r (packetNotSent q) w).

Definition trySendPacket (r : Z) (idx : nat) (w : World) : res (bool * World) :=
  let* q := req_at r w in
  match _packets q !! idx with
  | None => Err Undefined
  | Some p =>
      let* _ := Request.getPaddr (Packet.req p) in
      let ask := negb (_cacheBlocked (ports w)) && cachePortAvailable (isLoad q) (ports w) in
      if ask && accepts E (log w) p
      then let* w := packet_gone r idx p w in Ok (true, w)
      else let* w := packet_refused r ask w in Ok (false, w)
  end.

Definition single_sendPacketToCache (r : Z) (w : World) : res World :=
  let* q := req_at r w in
  assert! (_numOutstandingPackets q =? 0) in
  let* (ok, w) := trySendPacket r 0 w in
  if (ok : bool) then let* q := req_at r w in Ok (set_req r (set_outstanding 1 q) w) else Ok w.

(** One round per packet at most. *)
Fixpoint split_send (fuel : nat) (r : Z) (w : World) : res World :=
  let* q := req_at r w in
  let n := u32 (numReceivedPackets q + _numOutstandingPackets q) in
  if n <? Z.of_nat (length (_packets q)) then
    match fuel with
    | O => Err Undefined
    | S fuel =>
        let* (ok, w) := trySendPacket r (Z.to_nat n) w in
        if (ok : bool) then
          let* q := req_at r w in
          split_send fuel r (set_req r (set_outstanding (u32 (_numOutstandingPackets q + 1)) q) w)
        else Ok w
    end
  else Ok w.

Definition sendPacketToCache (r : Z) (w : World) : res World :=
  let* q := req_at r w in
  if isSplit q then split_send (length (_packets q)) r w else single_sendPacketToCache r w.

Definition buildPackets (r : Z) (w : World) : res World :=
  let* q := req_at r w in
  let* (h, q) := if isSplit q then split_buildPackets cpu pid (insts w) q
                 else single_buildPackets cpu pid (insts w) q in
  Ok (set_req r q (with_insts h w)).

(** ** Loads *)

Inductive AddrRangeCoverage :=
  PartialAddrRangeCoverage | FullAddrRangeCoverage | NoAddrRangeCoverage.

(** How the store of [store_size] bytes at [st_s] covers the [n] bytes at [req_s] of a
    load: [llsc] is about the load, [atomic] and [masked] are about the store. *)
Definition coverage_of (req_s n : Z) (llsc : bool) (st_s store_size : Z) (atomic masked : bool)
  : AddrRangeCoverage :=
  let req_e := u64 (req_s + n) in
  let st_e := u64 (st_s + store_size) in
  let store_has_lower_limit := st_s <=? req_s in
  let store_has_upper_limit := req_e <=? st_e in
  let lower_load_has_store_part := req_s <? st_e in
  let upper_load_has_store_part := st_s <? req_e in
  if negb atomic && store_has_lower_limit && store_has_upper_limit && negb llsc then
    if masked then PartialAddrRangeCoverage else FullAddrRangeCoverage
  else if (negb llsc && ((store_has_lower_limit && lower_load_has_store_part)
                         || (store_has_upper_limit && upper_load_has_store_part)
                         || (lower_load_has_store_part && upper_load_has_store_part)))
       || (llsc && ((store_has_lower_limit || upper_load_has_store_part)
                    && (store_has_upper_limit || lower_load_has_store_part)))
       || (atomic && ((store_has_lower_limit || upper_load_has_store_part)
                      && (store_has_upper_limit || lower_load_has_store_part)))
  then PartialAddrRangeCoverage
  else NoAddrRangeCoverage.

(** Whether an entry counts: it has data, is not strictly ordered, and is not cache
    maintenance. *)
Definition store_counts (e : SQEntry.t) (st : DynInst.t) (w : World) : res bool :=
  if negb (swrap 32 (SQEntry.size e) =? 0) && negb (DynInst.strictlyOrdered st) then
    let* r := SQEntry.request e in
    let* q := req_at r w in
    let* m := mainRequest q in
    Ok (negb (match m with Some m => Request.isCacheMaintenance m | None => false end))
  else Ok false.

(** The coverage of one entry; only a store that has all the data is asked for its
    byte enables. *)
Definition entry_coverage (main : Request.t) (e : SQEntry.t) (st : DynInst.t) (w : World)
  : res AddrRangeCoverage :=
  let* counts := store_counts e st w in
  if counts then
    assert! DynInst.effAddrValid st in
    let* req_s := Request.getVaddr main in
    let* n := Request.getSize main in
    let coverage := coverage_of req_s n (Request.isLLSC main) (DynInst.effAddr st)
                      (swrap 32 (SQEntry.size e)) (DynInst.isAtomic st) in
    match coverage false with
    | FullAddrRangeCoverage =>
        let* r := SQEntry.request e in
        let* q := req_at r w in
        let* m := mainRequest q in
        match m with Some m => Ok (coverage (Request.isMasked m)) | None => Err Undefined end
    | c => Ok c
    end
  else Ok NoAddrRangeCoverage.

(** The search among the older stores, from the youngest one down to the one to be
    written back next; [n] is the distance. *)
Fixpoint search_stores (n : nat) (main : Request.t) (seq : Z) (store_it : iterator) (w : World)
  : res (option (iterator * SQEntry.t * DynInst.t * AddrRangeCoverage)) :=
  if CircularQueue.it_eqb store_it (storeWBIt (unit w)) then Ok None
  else match n with
  | O => Err Undefined
  | S n =>
      let* store_it := CircularQueue.decr (storeQueue (unit w)) store_it in
      let* e := CircularQueue.deref (storeQueue (unit w)) store_it in
      assert! SQEntry.valid e in
      let* p := SQEntry.instruction e in
      let* st := inst_at p w in
      assert! (DynInst.seqNum st <? seq) in
      let* c := entry_coverage main e st w in
      match c with
      | NoAddrRangeCoverage => search_stores n main seq store_it w
      | _ => Ok (Some (store_it, e, st, c))
      end
  end.

(** [WritebackEvent] *)
Definition schedule_writeback (p : DynInstPtr) (pkt : Packet.t) (w : World) : res World :=
  let* i := inst_at p w in
  match DynInst.savedReq i with
  | None => Err AssertFail
  | Some r =>
      let* q := req_at r w in
      let* q := writebackScheduled q in
      let w := set_req r q w in
      Ok (with_events (events w ++ [(p, pkt)]) w)
  end.

(** The part of [InstructionQueue::rescheduleMemInst] and [blockMemInst] that changes
    the instruction. *)
Definition rescheduleMemInst (p : DynInstPtr) (w : World) : res World :=
  on_inst p (fun i => DynInst.clearCanIssue (DynInst.set_flag DynInst.TranslationCompleted false
    (DynInst.set_flag DynInst.TranslationStarted false i))) (emit (RescheduleMemInst p) w).
Definition blockMemInst (p : DynInstPtr) (w : World) : res World :=
  on_inst p (fun i => DynInst.clearCanIssue (DynInst.clearIssued i)) (emit (BlockMemInst p) w).

(** The load will be tried again later. *)
Definition reschedule (p : DynInstPtr) (w : World) : res World :=
  let* w := rescheduleMemInst p w in
  on_inst p (fun i => DynInst.set_effAddrValid false (DynInst.clearIssued i)) w.

(** Fill the buffer of the instruction, allocating it the first time. *)
Definition fill_memData (bytes : list Z) (i : DynInst.t) : DynInst.t :=
  DynInst.with_memData (match DynInst.memData i with [] => bytes | old => splice 0 bytes old end) i.
Definition alloc_memData (n : Z) (i : DynInst.t) : DynInst.t :=
  match DynInst.memData i with
  | [] => DynInst.with_memData (replicate (Z.to_nat n) 0) i
  | _ => i
  end.

(** The bytes of a store, or zeros for a store without data. *)
Definition store_bytes (e : SQEntry.t) (off n : Z) : res (list Z) :=
  if SQEntry._isAllZeros e then Ok (replicate (Z.to_nat n) 0)
  else if (0 <=? off) && (off + n <=? Z.of_nat (length (SQEntry._data e)))
  then Ok (slice (Z.to_nat off) (Z.to_nat n) (SQEntry._data e))
  else Err Undefined.

(** The store has all of the load's data. *)
Definition forward (r : Z) (p : DynInstPtr) (main : Request.t) (e : SQEntry.t) (st : DynInst.t) (w : World)
  : res World :=
  let* va := Request.getVaddr main in
  let* n := Request.getSize main in
  let shift_amt := swrap 32 (va - DynInst.effAddr st) in
  let* bytes := store_bytes e shift_amt n in
  let* w := on_inst p (fill_memData bytes) w in
  let* i := inst_at p w in
  let* pkt := Packet.make pid main MemCmd.ReadReq in
  let* pkt := Packet.dataStatic (DynInst.memData i) pkt in
  assert! negb (Request.isHTMCmd main) in
  let* pkt :=
    if DynInst.inHtmTransactionalState i then
      assert! negb (SQEntry._completed e) in
      assert! DynInst.inHtmTransactionalState st in
      assert! (DynInst.htmUid i =? DynInst.htmUid st) in
      Ok (Packet.setHtmTransactional (DynInst.htmUid i) pkt)
    else Ok pkt in
  let* q := req_at r w in
  let* w := if isAnyOutstandingRequest q then
              assert! (0 <? _numOutstandingPackets q) in
              let* q := discardSenderState q in Ok (set_req r q w)
            else Ok w in
  schedule_writeback p pkt w.

(** The store has some of the load's data: the load waits, and the unit remembers the
    oldest load that does. *)
Definition stall_load (r load_idx : Z) (p : DynInstPtr) (e : SQEntry.t) (st : DynInst.t) (w : World) : res World :=
  panic_if! SQEntry._completed e in
  let* i := inst_at p w in
  let u := unit w in
  let* oldest :=
    if stalled u then
      let* le := lq_get (stallingLoadIdx u) w in
      let* lp := LSQEntry.instruction le in
      let* li := inst_at lp w in
      Ok (DynInst.seqNum i <? DynInst.seqNum li)
    else Ok true in
  let w := if (oldest : bool) then upd (with_stall true (DynInst.seqNum st) load_idx) w else w in
  let* w := reschedule p w in
  let* w := discard r w in
  on_lq load_idx (LSQEntry.setRequest None) w.

(** The access goes to the cache. *)
Definition access_memory (r load_idx : Z) (p : DynInstPtr) (main : Request.t) (w : World) : res World :=
  let* n := Request.getSize main in
  let* w := on_inst p (alloc_memData n) w in
  let* w := if Request.isHTMCmd main
            then on_inst p (fun i => DynInst.with_memData (<[0%nat := 1]> (DynInst.memData i)) i) w else Ok w in
  let* q := req_at r w in
  let w := match _senderState q with
           | None => set_req r (LSQRequest.senderState
               (mkSS r p 0 true true (isSplit q) false (CircularQueue.getIterator load_idx (loadQueue (unit w)))) q) w
           | Some _ => w
           end in
  let* w := buildPackets r w in
  let* w := sendPacketToCache r w in
  let* q := req_at r w in
  if isSent q then Ok w else blockMemInst p w.

(** A strictly ordered load that is not at the head of both queues. *)
Definition too_early (main : Request.t) (load_idx : Z) (i : DynInst.t) (w : World) : bool :=
  Request.isStrictlyOrdered main
  && (negb (load_idx =? CircularQueue.head (loadQueue (unit w))) || negb (DynInst.isAtCommit i)).

(** A transactional command that stays in the core. *)
Definition read_htm (p : DynInstPtr) (main : Request.t) (w : World) : res World :=
  let* pkt := Packet.make pid main MemCmd.ReadReq in
  let* n := Request.getSize main in
  let* w := on_inst p (alloc_memData n) w in
  let* i := inst_at p w in
  let* pkt := Packet.dataStatic (DynInst.memData i) pkt in
  let pkt := if DynInst.inHtmTransactionalState i then Packet.setHtmTransactional (DynInst.htmUid i) pkt else pkt in
  let* pkt := Packet.makeResponse pkt in
  schedule_writeback p pkt w.

(** An access to a register of the core. *)
Definition read_local (p : DynInstPtr) (main : Request.t) (accessor : list Z -> list Z) (w : World) : res World :=
  let* i := inst_at p w in
  assert! (length (DynInst.memData i) =? 0)%nat in
  assert! negb (DynInst.inHtmTransactionalState i) in
  let data := accessor (replicate (Z.to_nat SQEntry.DataSize) 0) in
  let w := set_inst p (DynInst.with_memData data i) w in
  let* pkt := Packet.make pid main MemCmd.ReadReq in
  let* pkt := Packet.dataStatic data pkt in
  schedule_writeback p pkt w.

(** [LSQUnit::read] *)
Definition read (r load_idx : Z) (w : World) : res (option Z * World) :=
  let* w := on_lq load_idx (LSQEntry.setRequest (Some r)) w in
  let* e := lq_get load_idx w in
  match LSQEntry.inst e with
  | None => Err AssertFail
  | Some p =>
      let* i := inst_at p w in
      assert! negb (DynInst.isExecuted i) in
      let* q := req_at r w in
      let* m := mainRequest q in
      match m with
      | None => Err Undefined
      | Some main =>
          if too_early main load_idx i w then
            let* w := reschedule p w in
            let* w := on_lq load_idx (LSQEntry.setRequest None) w in
            let* w := discard r w in
            Ok (Some M5PanicFault, w)
          else
            let* w := if Request.isLLSC main then on_inst p (DynInst.recordResult true) w else Ok w in
            match Request._localAccessor main with
            | Some accessor => let* w := read_local p main accessor w in Ok (None, w)
            | None =>
                if (Request.isHTMStart main || Request.isHTMCommit main)
                   && Flags.isSet (Request._flags main) Request.NO_ACCESS
                then let* w := read_htm p main w in Ok (None, w)
                else
                  let* i := inst_at p w in
                  let store_it := DynInst.sqIt i in
                  assert! CircularQueue.it_leb (storeWBIt (unit w)) store_it in
                  let dist := Z.to_nat (CircularQueue._idx store_it - CircularQueue._idx (storeWBIt (unit w))) in
                  let* found := search_stores dist main (DynInst.seqNum i) store_it w in
                  let* w :=
                    match found with
                    | Some (_, e, st, FullAddrRangeCoverage) => forward r p main e st w
                    | Some (_, e, st, _) => stall_load r load_idx p e st w
                    | None => access_memory r load_idx p main w
                    end in
                  Ok (None, w)
            end
      end
  end.

(** ** Stores *)

(** [LSQUnit::write]: [data] is what the instruction stores. *)
Definition write (r : Z) (data : list Z) (store_idx : Z) (w : World) : res (option Z * World) :=
  let* e := sq_get store_idx w in
  assert! SQEntry.valid e in
  let* q := req_at r w in
  let size := LSQRequest._size q in
  let* m := mainRequest q in
  match m with
  | None => Err Undefined
  | Some main =>
      let* mf := Request.getFlags main in
      let store_no_data := Flags.isSet mf Request.STORE_NO_DATA in
      let e := SQEntry.with_base (LSQEntry.set_size size (LSQEntry.setRequest (Some r) (SQEntry.base e))) e in
      let e := SQEntry.set_isAllZeros store_no_data e in
      assert! ((size <=? SQEntry.DataSize) || store_no_data) in
      let* req := LSQRequest.request q in
      let* rf := Request.getFlags req in
      let* e :=
        if negb (Flags.isSet rf Request.CACHE_BLOCK_ZERO) && negb (Request.isCacheMaintenance req)
           && negb (Request.isAtomic req)
        then if (Z.to_nat size <=? length data)%nat && (size <=? SQEntry.DataSize)
             then Ok (SQEntry.with_data (splice 0 (take (Z.to_nat size) data) (SQEntry._data e)) e)
             else Err Undefined
        else Ok e in
      let* w := sq_set store_idx e w in
      Ok (None, w)
  end.

(** ** The access of an instruction: LSQ::pushRequest *)

(** [LSQRequest::install] *)
Definition install (r : Z) (q : LSQRequest.t) (w : World) : res World :=
  let* i := inst_at (_inst q) w in
  if isLoad q then on_lq (DynInst.lqIdx i) (LSQEntry.setRequest (Some r)) w
  else on_sq (DynInst.sqIdx i) (fun e => SQEntry.with_base (LSQEntry.setRequest (Some r) (SQEntry.base e)) e) w.

(** A translation comes back; a request nobody owns any more ends here. *)
Definition finish (r : Z) (k : nat) (fault : option Z) (req : Request.t) (w : World) : res World :=
  let* q := req_at r w in
  let* i := inst_at (_inst q) w in
  let* (h, q') := if isSplit q then split_finish k fault req (insts w) q
                  else single_finish fault req (insts w) q in
  let w := set_req r q' (with_insts h w) in
  if Flags.isSet (flags q') TranslationSquashed && isReleased q' then delete_request r w else Ok w.

(** The MMU answers some of the fragments at once. All are handed over before the first
    answer, where the code hands over one at a time; the state is the same when the
    loop ends. *)
Fixpoint translate_all (r : Z) (ids : list nat) (w : World) : res World :=
  match ids with
  | [] => Ok w
  | k :: ids =>
      let* q := req_at r w in
      match _requests q !! k with
      | None => Err Undefined
      | Some req =>
          let* w := match translate E (log w) req with
                    | Some (fault, req) => finish r k fault req w
                    | None => Ok w
                    end in
          translate_all r ids w
      end
  end.

(** A request of class [HtmCmdRequest]. *)
Definition isHtmCmdRequest (q : LSQRequest.t) : bool :=
  isLoad q && Flags.isSet (LSQRequest._flags q) Request.HTM_CMD.

Definition initiateTranslation (r : Z) (w : World) : res World :=
  let* q := req_at r w in
  if isHtmCmdRequest q then
    let q := setState LSQRequest.Request (set_flag TranslationFinished (set_flag TranslationStarted q)) in
    let* w := on_inst (_inst q) (fun i => DynInst.set_flag DynInst.TranslationCompleted true
                (DynInst.set_flag DynInst.TranslationStarted true i)) w in
    Ok (set_req r q w)
  else
    let* (h, q, ids) := if isSplit q then split_initiateTranslation cpu domain context now (insts w) q
                        else single_initiateTranslation cpu domain context now (insts w) q in
    let h := match ids with [] => h | _ => alter (DynInst.with_savedReq (Some r)) (_inst q) h end in
    translate_all r ids (set_req r q (with_insts h w)).

(** The rest of the constructor of [HtmCmdRequest]: it looks at the byte enables, which
    [pushRequest] sets only after it. *)
Definition construct_htm_cmd (r : Z) (w : World) : res World :=
  let* q := req_at r w in
  let* q := addRequest cpu domain context now (insts w) (_addr q) (LSQRequest._size q) (_byteEnable q) q in
  match last (_requests q) with
  | None => Err Panic
  | Some req =>
      let* i := inst_at (_inst q) w in
      let req := Request.setPaddr (_addr q) (Request.with_taskId (_taskId q)
                   (Request.setReqInstSeqNum (DynInst.seqNum i) req)) in
      let i := DynInst.with_fault None (DynInst.set_strictlyOrdered (Request.isStrictlyOrdered req) i) in
      let* pa := Request.getPaddr req in
      let* fl := Request.getFlags req in
      let i := DynInst.with_savedReq (Some r) (DynInst.with_phys pa fl i) in
      let q := set_requests (<[pred (length (_requests q)) := req]> (_requests q)) q in
      Ok (set_req r (setState Translation q) (set_inst (_inst q) i w))
  end.

(** A new request is made and installed; the caller sets byte enables and task. *)
Definition new_request (p : DynInstPtr) (is_load : bool) (size addr reqFlags : Z) (extra : option Z)
    (amo_op : option (list Z -> list Z)) (byte_enable : list bool) (burst : bool) (w : World) : res (Z * World) :=
  let htm_cmd := is_load && Flags.isSet reqFlags Request.HTM_CMD in
  let* i := inst_at p w in
  let r := nextReq w in
  let q := if htm_cmd then LSQRequest.make p i true 0 8 reqFlags None None false [] 0
           else LSQRequest.make p i is_load addr size reqFlags extra amo_op burst [] 0 in
  assert! (negb htm_cmd || (addr =? 0)) in
  assert! (negb htm_cmd || (size =? 8)) in
  let w := mkW (insts w) (<[r := q]> (reqs w)) (r + 1) (ports w) (unit w) (htm_cpt w) (globalHtmUid w)
             (events w) (log w) in
  let* w := install r q w in
  let* w := if htm_cmd then construct_htm_cmd r w else Ok w in
  let* q := req_at r w in
  let q := set_requests (map (Request.with_taskId task) (_requests q)) (set_call byte_enable task q) in
  Ok (r, set_req r q w).

(** The translated access is made. *)
Definition perform (r : Z) (p : DynInstPtr) (is_load : bool) (data : list Z) (size : Z) (w : World) : res World :=
  let* q := req_at r w in
  if isTranslationComplete q then
    if isMemAccessRequired q then
      let* va := getVaddr q in
      let* w := on_inst p (fun i => DynInst.set_effAddrValid true (DynInst.with_eff va size i)) w in
      let* i := inst_at p w in
      let* (fault, w) := if is_load then read r (DynInst.lqIdx i) w else write r data (DynInst.sqIdx i) w in
      match fault with Some _ => on_inst p (DynInst.with_fault fault) w | None => Ok w end
    else if is_load then on_inst p (fun i => DynInst.setExecuted (DynInst.setMemAccPredicate false i)) w
    else Ok w
  else Ok w.

(** [LSQ::pushRequest], for the instruction's only thread. *)
Definition pushRequest (p : DynInstPtr) (is_load : bool) (data : list Z) (size addr reqFlags : Z)
    (extra : option Z) (amo_op : option (list Z -> list Z)) (byte_enable : list bool) (w : World)
  : res (option Z * World) :=
  let burst := CpuUtils.transferNeedsBurst addr size cacheLineSize in
  let is_atomic := negb is_load && match amo_op with Some _ => true | None => false end in
  assert! (negb is_atomic || negb burst) in
  let* i := inst_at p w in
  let* (r, w) :=
    if DynInst.translationStarted i then
      match DynInst.savedReq i with Some r => Ok (r, w) | None => Err AssertFail end
    else
      let* (r, w) := new_request p is_load size addr reqFlags extra amo_op byte_enable burst w in
      let* w := on_inst p (fun i => DynInst.with_fault None (DynInst.setRequest i)) w in
      let* w := initiateTranslation r w in
      Ok (r, w) in
  let* w := perform r p is_load data size w in
  let* i := inst_at p w in
  Ok (DynInst.fault i, w).

(** [BaseO3DynInst::initiateAcc] *)
Definition initiateAcc (p : DynInstPtr) (w : World) : res (option Z * World) :=
  let* i := inst_at p w in
  let* (fault, w) :=
    match initiate E i with
    | NoAccess fault predicate =>
        let* w := on_inst p (DynInst.set_flag DynInst.Predicate predicate) w in Ok (fault, w)
    | Push is_load data size addr reqFlags extra amo_op byte_enable =>
        pushRequest p is_load data size addr reqFlags extra amo_op byte_enable w
    end in
  let* w := on_inst p (DynInst.with_fault fault) w in
  Ok (fault, w).

(** ** Memory order *)

(** One younger load against the access [lo..hi] of [inst]: [Some] of the result when
    the scan ends here. *)
Definition check_load (i : DynInst.t) (lo hi : Z) (lp : DynInstPtr) (w : World) : res (option (option Z) * World) :=
  let* ld := inst_at lp w in
  if negb (DynInst.effAddrValid ld) || DynInst.strictlyOrdered ld then Ok (None, w)
  else
    let ld_lo := Z.shiftr (DynInst.effAddr ld) (depCheckShift P) in
    let ld_hi := Z.shiftr (u64 (DynInst.effAddr ld + DynInst.effSize ld - 1)) (depCheckShift P) in
    if (ld_lo <=? hi) && (lo <=? ld_hi) then
      let* violator := match memDepViolator (unit w) with
                       | Some v => let* vi := inst_at v w in Ok (Some (DynInst.seqNum vi))
                       | None => Ok None
                       end in
      if DynInst.isLoad i then
        if DynInst.hitExternalSnoop ld
           && match violator with Some n => DynInst.seqNum ld <? n | None => true end
        then Ok (Some (Some M5PanicFault), upd (with_memDepViolator (Some lp)) w)
        else let* w := on_inst lp (DynInst.set_possibleLoadViolation true) w in Ok (None, w)
      else
        if match violator with Some n => n <? DynInst.seqNum ld | None => false end
        then Ok (Some None, w)
        else Ok (Some (Some M5PanicFault), upd (with_memDepViolator (Some lp)) w)
    else Ok (None, w).

(** [n]: the distance to the end of the load queue. *)
Fixpoint check_loads (n : nat) (i : DynInst.t) (lo hi : Z) (it : iterator) (w : World) : res (option Z * World) :=
  if CircularQueue.it_eqb it (CircularQueue.end_ (loadQueue (unit w))) then Ok (None, w)
  else match n with
  | O => Err Undefined
  | S n =>
      let* e := CircularQueue.deref (loadQueue (unit w)) it in
      let* lp := LSQEntry.instruction e in
      let* (stop, w) := check_load i lo hi lp w in
      match stop with
      | Some fault => Ok (fault, w)
      | None => check_loads n i lo hi (CircularQueue.incr it) w
      end
  end.

Definition checkViolations (it : iterator) (p : DynInstPtr) (w : World) : res (option Z * World) :=
  let* i := inst_at p w in
  let lo := Z.shiftr (DynInst.effAddr i) (depCheckShift P) in
  let hi := Z.shiftr (u64 (DynInst.effAddr i + DynInst.effSize i - 1)) (depCheckShift P) in
  let dist := Z.to_nat (CircularQueue._idx (CircularQueue.end_ (loadQueue (unit w))) - CircularQueue._idx it) in
  check_loads dist i lo hi it w.

(** ** Execution *)

Definition executeLoad (p : DynInstPtr) (w : World) : res (option Z * World) :=
  let* i := inst_at p w in
  assert! negb (DynInst.isSquashed i) in
  let* (fault, w) := initiateAcc p w in
  let no_fault := match fault with None => true | Some _ => false end in
  let* i := inst_at p w in
  if no_fault && negb (DynInst.readMemAccPredicate i) then
    assert! DynInst.readPredicate i in
    let i := DynInst.with_fault (completeAcc E (DynInst.setExecuted i) None) (DynInst.setExecuted i) in
    Ok (None, emit (InstToCommit p) (emit (CompleteAcc p None) (set_inst p i w)))
  else if DynInst.isTranslationDelayed i && no_fault then Ok (fault, w)
  else
    let* partial :=
      if negb no_fault && DynInst.translationCompleted i then
        match DynInst.savedReq i with
        | None => Err Undefined
        | Some r =>
            let* q := req_at r w in
            let partial := isPartialFault q && negb (isComplete q) in
            assert! (negb partial || isSplit q) in Ok partial
        end
      else Ok false in
    if (partial : bool) then Ok (None, w)
    else if negb no_fault || negb (DynInst.readPredicate i) then
      let w := if negb (DynInst.readPredicate i) then emit (ForwardOldRegs p) w else w in
      let* w := if negb (DynInst.hasRequest i && DynInst.strictlyOrdered i) || DynInst.isAtCommit i
                then on_inst p DynInst.setExecuted w else Ok w in
      Ok (fault, emit (InstToCommit p) w)
    else if DynInst.effAddrValid i && checkLoads P
    then checkViolations (CircularQueue.incr (DynInst.lqIt i)) p w
    else Ok (fault, w).

Definition executeStore (p : DynInstPtr) (w : World) : res (option Z * World) :=
  assert! negb (stores (unit w) =? 0) in
  let* i := inst_at p w in
  let store_idx := DynInst.sqIdx i in
  assert! negb (DynInst.isSquashed i) in
  let it := DynInst.lqIt i in
  let* (fault, w) := initiateAcc p w in
  let* i := inst_at p w in
  if DynInst.isTranslationDelayed i && match fault with None => true | Some _ => false end then Ok (fault, w)
  else if negb (DynInst.readPredicate i) then Ok (fault, emit (ForwardOldRegs p) w)
  else
    let* e := sq_get store_idx w in
    if SQEntry.size e =? 0 then Ok (fault, w)
    else
      assert! match fault with None => true | Some _ => false end in
      let* w := if DynInst.isStoreConditional i || DynInst.isAtomic i then
                  let* w := on_sq store_idx (SQEntry.set_canWB true) w in
                  Ok (upd (fun u => with_storesToWB (storesToWB u + 1) u) w)
                else Ok w in
      checkViolations it p w.

(** ** Commit *)

Definition commitLoad (w : World) : res World :=
  let* e := CircularQueue.front (loadQueue (unit w)) in
  assert! LSQEntry.valid e in
  let* w := clear_load (CircularQueue.head (loadQueue (unit w))) w in
  let* q := CircularQueue.pop_front 1 (loadQueue (unit w)) in
  Ok (upd (fun u => with_loads (loads u - 1) (with_loadQueue q u)) w).

(** [n]: at most the loads that are in the queue. *)
Fixpoint commit_loads (n : nat) (youngest : Z) (w : World) : res World :=
  if loads (unit w) =? 0 then Ok w
  else
    let* e := CircularQueue.front (loadQueue (unit w)) in
    let* p := LSQEntry.instruction e in
    let* i := inst_at p w in
    if DynInst.seqNum i <=? youngest then
      match n with O => Err Undefined | S n => let* w := commitLoad w in commit_loads n youngest w end
    else Ok w.

Definition commitLoads (youngest : Z) (w : World) : res World :=
  let* e := CircularQueue.front (loadQueue (unit w)) in
  assert! ((loads (unit w) =? 0) || LSQEntry.valid e) in
  commit_loads (Z.to_nat (loads (unit w))) youngest w.

Fixpoint commit_stores (n : nat) (youngest : Z) (it : iterator) (w : World) : res World :=
  if CircularQueue.it_eqb it (CircularQueue.end_ (storeQueue (unit w))) then Ok w
  else match n with
  | O => Err Undefined
  | S n =>
      let* e := CircularQueue.deref (storeQueue (unit w)) it in
      assert! SQEntry.valid e in
      if SQEntry._canWB e then commit_stores n youngest (CircularQueue.incr it) w
      else
        let* p := SQEntry.instruction e in
        let* i := inst_at p w in
        if youngest <? DynInst.seqNum i then Ok w
        else
          let* w := sq_set (CircularQueue._idx it) (SQEntry.set_canWB true e) w in
          commit_stores n youngest (CircularQueue.incr it)
            (upd (fun u => with_storesToWB (storesToWB u + 1) u) w)
  end.

Definition commitStores (youngest : Z) (w : World) : res World :=
  let* e := CircularQueue.front (storeQueue (unit w)) in
  assert! ((stores (unit w) =? 0) || SQEntry.valid e) in
  commit_stores (Z.to_nat (CircularQueue.size (storeQueue (unit w)))) youngest
    (CircularQueue.begin (storeQueue (unit w))) w.

(** ** Writing stores back *)

(** The load that waits for store [seq] is replayed. *)
Definition unstall (seq : Z) (w : World) : res World :=
  let u := unit w in
  if stalled u && (seq =? stallingStoreIsn u) then
    let* e := lq_get (stallingLoadIdx u) w in
    let* p := LSQEntry.instruction e in
    Ok (emit (ReplayMemInst p) (upd (with_stall false 0 (stallingLoadIdx u)) w))
  else Ok w.

(** The [do ... while] loop of [completeStore]; [n] bounds the stores in the queue. *)
Fixpoint pop_completed (n : nat) (w : World) : res World :=
  match n with
  | O => Err Undefined
  | S n =>
      let* w := clear_store (CircularQueue.head (storeQueue (unit w))) w in
      let* q := CircularQueue.pop_front 1 (storeQueue (unit w)) in
      let w := upd (fun u => with_stores (stores u - 1) (with_storeQueue q u)) w in
      let* e := CircularQueue.front (storeQueue (unit w)) in
      if SQEntry._completed e && negb (CircularQueue.empty (storeQueue (unit w)))
      then pop_completed n w else Ok w
  end.

Definition completeStore (it : iterator) (w : World) : res World :=
  let* e := CircularQueue.deref (storeQueue (unit w)) it in
  assert! SQEntry.valid e in
  let* w := sq_set (CircularQueue._idx it) (SQEntry.set_completed true e) w in
  let w := upd (fun u => with_storesToWB (storesToWB u - 1) u) w in
  let* p := SQEntry.instruction e in
  let* w := if CircularQueue.it_eqb it (CircularQueue.begin (storeQueue (unit w))) then
              let* w := pop_completed (Z.to_nat (CircularQueue.size (storeQueue (unit w)))) w in
              Ok (emit UpdateLSQNextCycle w)
            else Ok w in
  let* i := inst_at p w in
  let* w := unstall (DynInst.seqNum i) w in
  let* w := on_inst p DynInst.setCompleted w in
  Ok (if needsTSO P then upd (with_storeInFlight false) w else w).

Definition storePostSend (w : World) : res World :=
  let* e := CircularQueue.deref (storeQueue (unit w)) (storeWBIt (unit w)) in
  let* p := SQEntry.instruction e in
  let* i := inst_at p w in
  let* w := unstall (DynInst.seqNum i) w in
  let* w := if negb (DynInst.isStoreConditional i) then on_inst p DynInst.setCompleted w else Ok w in
  let w := if needsTSO P then upd (with_storeInFlight true) w else w in
  Ok (upd (fun u => with_storeWBIt (CircularQueue.incr (storeWBIt u)) u) w).

Definition writebackBlockedStore (w : World) : res World :=
  assert! isStoreBlocked (unit w) in
  let* e := CircularQueue.deref (storeQueue (unit w)) (storeWBIt (unit w)) in
  let* r := SQEntry.request e in
  let* w := sendPacketToCache r w in
  let* q := req_at r w in
  if isSent q then storePostSend w else Ok w.

(** arch/generic/locked_mem.hh, which x86 uses. *)
Definition handleLockedWrite (i : DynInst.t) : bool := true.

(** The data leave the entry for the buffer of the instruction, and the packets of the
    request are built. *)
Definition prepare_store (r : Z) (p : DynInstPtr) (w : World) : res World :=
  let it := storeWBIt (unit w) in
  let* w := on_sq (CircularQueue._idx it) (SQEntry.set_committed true) w in
  let* e := CircularQueue.deref (storeQueue (unit w)) it in
  let* i := inst_at p w in
  assert! (length (DynInst.memData i) =? 0)%nat in
  let* q := req_at r w in
  let* bytes := store_bytes e 0 (LSQRequest._size q) in
  let w := set_inst p (DynInst.with_memData bytes i) w in
  let w := match _senderState q with
           | None => set_req r (LSQRequest.senderState
               (mkSS r p 0 false (DynInst.isStoreConditional i || DynInst.isAtomic i) false false it) q) w
           | Some _ => w
           end in
  buildPackets r w.

(** A failed store conditional completes at once. *)
Definition fail_conditional (r : Z) (p : DynInstPtr) (w : World) : res World :=
  let* q := req_at r w in
  let q := complete q in
  let w := set_req r q w in
  let* pkt := match _packets q with x :: _ => Ok x | [] => Err Undefined end in
  let* w := schedule_writeback p pkt w in
  let* w := completeStore (storeWBIt (unit w)) w in
  Ok (upd (fun u => with_storeWBIt (if negb (CircularQueue.empty (storeQueue u)) then CircularQueue.incr (storeWBIt u)
                                    else CircularQueue.end_ (storeQueue u)) u) w).

Definition local_store (r : Z) (p : DynInstPtr) (main : Request.t) (accessor : list Z -> list Z) (w : World)
  : res World :=
  let* i := inst_at p w in
  assert! negb (DynInst.isStoreConditional i) in
  assert! negb (DynInst.inHtmTransactionalState i) in
  let* pkt := Packet.make pid main MemCmd.WriteReq in
  let* _ := Packet.dataStatic (DynInst.memData i) pkt in
  let w := emit (LocalWrite p (accessor (DynInst.memData i))) w in
  let* w := completeStore (storeWBIt (unit w)) w in
  Ok (upd (fun u => with_storeWBIt (CircularQueue.incr (storeWBIt u)) u) w).

(** A store with data is written back. *)
Definition write_store (r : Z) (p : DynInstPtr) (w : World) : res World :=
  let* w := prepare_store r p w in
  let* i := inst_at p w in
  let* ok :=
    if DynInst.isStoreConditional i then
      let* w := on_inst p (DynInst.recordResult true) w in
      let* q := req_at r w in
      Ok (set_req r (packetSent q) w, handleLockedWrite i)
    else Ok (w, true) in
  let (w, success) := ok in
  if negb success then fail_conditional r p w
  else
    let* q := req_at r w in
    let* req := LSQRequest.request q in
    match Request._localAccessor req with
    | Some accessor =>
        let* m := mainRequest q in
        match m with Some main => local_store r p main accessor w | None => Err Undefined end
    | None =>
        let* w := sendPacketToCache r w in
        let* q := req_at r w in
        if isSent q then storePostSend w else Ok w
    end.

(** The condition of the loop, which reads the entry only when there is one. *)
Definition may_write_back (w : World) : res bool :=
  let u := unit w in
  if (0 <? storesToWB u) && CircularQueue.dereferenceable (storeQueue u) (storeWBIt u) then
    let* e := CircularQueue.deref (storeQueue u) (storeWBIt u) in
    Ok (SQEntry.valid e && SQEntry._canWB e && (negb (needsTSO P) || negb (storeInFlight u))
        && cachePortAvailable false (ports w))
  else Ok false.

(** One round: [true] when the loop goes on. *)
Definition write_back_one (w : World) : res (bool * World) :=
  if isStoreBlocked (unit w) then Ok (false, w)
  else
    let it := storeWBIt (unit w) in
    let* e := CircularQueue.deref (storeQueue (unit w)) it in
    if SQEntry.size e =? 0 then
      let* w := completeStore it (upd (with_storeWBIt (CircularQueue.incr it)) w) in Ok (true, w)
    else
      let* p := SQEntry.instruction e in
      let* i := inst_at p w in
      if DynInst.isDataPrefetch i then Ok (true, upd (with_storeWBIt (CircularQueue.incr it)) w)
      else match LSQEntry.req (SQEntry.base e) with
      | None => Err AssertFail
      | Some r =>
          assert! negb (SQEntry._committed e) in
          let* q := req_at r w in
          let* m := mainRequest q in
          match m with
          | None => Err Undefined
          | Some main =>
              if (Request.isLLSC main || Request.isRelease main)
                 && negb (CircularQueue._idx it =? CircularQueue.head (storeQueue (unit w)))
              then Ok (false, w)
              else let* w := write_store r p w in Ok (true, w)
          end
      end.

(** Every round but the last moves [storeWBIt]; [n] bounds the stores ahead of it. *)
Fixpoint write_back_loop (n : nat) (w : World) : res World :=
  let* more := may_write_back w in
  if (more : bool) then
    match n with
    | O => Err Undefined
    | S n => let* (again, w) := write_back_one w in if (again : bool) then write_back_loop n w else Ok w
    end
  else Ok w.

Definition writebackStores (w : World) : res World :=
  let* w := if isStoreBlocked (unit w) then writebackBlockedStore w else Ok w in
  let* w := write_back_loop (S (Z.to_nat (CircularQueue.size (storeQueue (unit w))))) w in
  assert! ((0 <=? stores (unit w)) && (0 <=? storesToWB (unit w))) in Ok w.

Definition recvRetry (w : World) : res World :=
  if isStoreBlocked (unit w) then writebackBlockedStore w else Ok w.

(** ** Squash *)

Definition squash_load (w : World) : res World :=
  let u := unit w in
  let tail := CircularQueue.tail (loadQueue u) in
  let* e := lq_get tail w in
  let* p := LSQEntry.instruction e in
  let* i := inst_at p w in
  let w := if isStalled u && (tail =? stallingLoadIdx u) then upd (with_stall false 0 0) w else w in
  let w := if DynInst.isHtmStart i
           then upd (fun u => with_htmCounts (Z.max 0 (htmStarts u - 1)) (htmStops u) u) w else w in
  let w := if DynInst.isHtmStop i
           then upd (fun u => with_htmCounts (htmStarts u) (Z.max 0 (htmStops u - 1)) u) w else w in
  let* i := DynInst.setSquashed i in
  let* w := clear_load tail (set_inst p i w) in
  let w := upd (fun u => with_loads (loads u - 1) u) w in
  let* q := CircularQueue.pop_back (loadQueue (unit w)) in
  Ok (upd (with_loadQueue q) w).

Fixpoint squash_loads (n : nat) (squashed_num : Z) (w : World) : res World :=
  if loads (unit w) =? 0 then Ok w
  else
    let* e := CircularQueue.back (loadQueue (unit w)) in
    let* p := LSQEntry.instruction e in
    let* i := inst_at p w in
    if squashed_num <? DynInst.seqNum i then
      match n with O => Err Undefined | S n => let* w := squash_load w in squash_loads n squashed_num w end
    else Ok w.

(** The identifier of the youngest transaction that is left, 0 without one. *)
Fixpoint in_flight_uid (n : nat) (it : iterator) (uid : Z) (w : World) : res Z :=
  if CircularQueue.it_eqb it (CircularQueue.end_ (loadQueue (unit w))) then Ok uid
  else match n with
  | O => Err Undefined
  | S n =>
      let* e := CircularQueue.deref (loadQueue (unit w)) it in
      let* p := LSQEntry.instruction e in
      let* i := inst_at p w in
      let* uid := if DynInst.isHtmStart i && negb (DynInst.isSquashed i)
                  then DynInst.getHtmTransactionUid i else Ok uid in
      in_flight_uid n (CircularQueue.incr it) uid w
  end.

Definition squash_store (w : World) : res World :=
  let u := unit w in
  let tail := CircularQueue.tail (storeQueue u) in
  let* e := sq_get tail w in
  let* p := SQEntry.instruction e in
  let* i := inst_at p w in
  panic_if! isStalled u && (DynInst.seqNum i =? stallingStoreIsn u) in
  let* i := DynInst.setSquashed i in
  let* w := clear_store tail (set_inst p i w) in
  let w := upd (fun u => with_stores (stores u - 1) u) w in
  let* q := CircularQueue.pop_back (storeQueue (unit w)) in
  Ok (upd (with_storeQueue q) w).

Fixpoint squash_stores (n : nat) (squashed_num : Z) (w : World) : res World :=
  if stores (unit w) =? 0 then Ok w
  else
    let* e := CircularQueue.back (storeQueue (unit w)) in
    let* p := SQEntry.instruction e in
    let* i := inst_at p w in
    if (squashed_num <? DynInst.seqNum i) && negb (SQEntry._canWB e) then
      match n with O => Err Undefined | S n => let* w := squash_store w in squash_stores n squashed_num w end
    else Ok w.

Definition squash (squashed_num : Z) (w : World) : res World :=
  let* w := squash_loads (Z.to_nat (loads (unit w))) squashed_num w in
  let lq := loadQueue (unit w) in
  let* uid := in_flight_uid (Z.to_nat (CircularQueue.size lq)) (CircularQueue.begin lq) 0 w in
  let w := match htm_cpt w with
           | Some _ => with_htm_cpt (Some (if 0 <? uid then uid else lastRetiredHtmUid (unit w))) w
           | None => w
           end in
  let* w := match memDepViolator (unit w) with
            | Some v =>
                let* i := inst_at v w in
                Ok (if squashed_num <? DynInst.seqNum i then upd (with_memDepViolator None) w else w)
            | None => Ok w
            end in
  squash_stores (Z.to_nat (stores (unit w))) squashed_num w.

(** ** Responses *)

(** [LSQUnit::writeback] *)
Definition writeback (p : DynInstPtr) (pkt : Packet.t) (w : World) : res World :=
  let* i := inst_at p w in
  if DynInst.isSquashed i then
    assert! (negb (DynInst.isStore i) || DynInst.isStoreConditional i) in Ok w
  else
    let* w :=
      if negb (DynInst.isExecuted i) then
        let i := DynInst.setExecuted i in
        match DynInst.fault i with
        | None =>
            let i' := DynInst.with_fault (completeAcc E i (Some pkt)) i in
            Ok (emit (CompleteAcc p (Packet.data pkt)) (set_inst p i' w))
        | Some f =>
            let* known :=
              if f =? ReExec then Ok true
              else match DynInst.savedReq i with
                   | Some r => let* q := req_at r w in Ok (isPartialFault q)
                   | None => Err Undefined
                   end in
            assert! known in Ok (set_inst p i w)
        end
      else Ok w in
    Ok (emit (CheckMisprediction p) (emit (InstToCommit p) w)).

(** A scheduled writeback happens: WritebackEvent::process. *)
Definition process_event (w : World) : res World :=
  match events w with
  | [] => Err Undefined
  | (p, pkt) :: rest =>
      let* w := writeback p pkt (with_events rest w) in
      let* i := inst_at p w in
      match DynInst.savedReq i with
      | None => Err AssertFail
      | Some r => writebackDone r w
      end
  end.

(** [LSQUnit::completeDataAccess] for a response to request [r]; transactions that fail
    in the cache are those of transactional commands, which cannot be made. *)
Definition completeDataAccess (r : Z) (w : World) : res World :=
  let* q := req_at r w in
  match _senderState q with
  | None => Err Undefined
  | Some st =>
      let p := inst st in
      let* i := inst_at p w in
      if DynInst.isSquashed i then Ok w
      else if needWB st then
        assert! (DynInst.isLoad i || DynInst.isStoreConditional i || DynInst.isAtomic i) in
        let* m := mainPacket q in
        match m with
        | None => Err Undefined
        | Some pkt =>
            let* w := writeback p pkt w in
            if DynInst.isStore i || DynInst.isAtomic i then
              let* w := writebackDone r w in completeStore (idx st) w
            else Ok w
        end
      else if DynInst.isStore i then completeStore (idx st) w
      else Ok w
  end.

(** The data of a packet are in the buffer of the instruction. *)
Definition arrived (k : nat) (pkt : Packet.t) (q : LSQRequest.t) (w : World) : res World :=
  match _packets q !! k, Packet.data pkt with
  | Some sent, Some d =>
      if isLoad q then
        let* va := Request.getVaddr (Packet.req sent) in
        let off := if isSplit q then Z.to_nat (va - _addr q) else 0%nat in
        on_inst (_inst q) (fun i => DynInst.with_memData
          (splice off (take (Z.to_nat (Packet.size pkt)) d) (DynInst.memData i)) i) w
      else Ok w
  | _, _ => Err Undefined
  end.

Definition set_data_of (i : DynInst.t) (p : Packet.t) : Packet.t := Packet.with_data (Some (DynInst.memData i)) p.

(** [SingleDataRequest::recvTimingResp] and [SplitDataRequest::recvTimingResp]: packet
    [k] of request [r] comes back as [pkt]. *)
Definition request_recvTimingResp (r : Z) (k : nat) (pkt : Packet.t) (w : World) : res World :=
  let* q := req_at r w in
  let* st := match _senderState q with Some st => Ok st | None => Err Undefined end in
  let q := with_ss (Some (set_ss_outstanding (uwrap 8 (outstanding st - 1)) st)) q in
  assert! (k <? length (_packets q))%nat in
  let* i := inst_at (_inst q) w in
  if isSplit q then
    let q := set_received (u32 (numReceivedPackets q + 1)) q in
    let q := set_packets (_packets q) (set_data_of i <$> _mainPacket q) q in
    if numReceivedPackets q =? Z.of_nat (length (_packets q)) then
      let* w := completeDataAccess r (set_req r (complete q) w) in
      on_inst (_inst q) (DynInst.with_respReceived true) w
    else Ok (set_req r q w)
  else
    assert! (_numOutstandingPackets q =? 1) in
    let q := set_packets (<[k := if isLoad q then set_data_of i pkt else pkt]> (_packets q)) (_mainPacket q) q in
    let* w := completeDataAccess r (set_req r (complete q) w) in
    on_inst (_inst q) (DynInst.with_respReceived true) w.

(** [LSQUnit::recvTimingResp]: the response to a request that has been let go is only
    counted. *)
Definition unit_recvTimingResp (r : Z) (k : nat) (pkt : Packet.t) (w : World) : res World :=
  let* q := req_at r w in
  match _senderState q with
  | None => Err Undefined
  | Some st =>
      let* w := arrived k pkt q w in
      if alive st then request_recvTimingResp r k pkt w
      else Ok (set_req r (with_ss (Some (set_ss_outstanding (uwrap 8 (outstanding st - 1)) st)) q) w)
  end.

(** ** Snoops *)

Definition isCacheBlockHit (a : Z) (q : LSQRequest.t) : res bool :=
  if isSplit q then Ok (split_isCacheBlockHit a cacheBlockMask q)
  else single_isCacheBlockHit a cacheBlockMask q.

(** The younger loads, from the second of the queue on. *)
Fixpoint snoop_loads (n : nat) (a : Z) (force_squash : bool) (it : iterator) (w : World) : res World :=
  if CircularQueue.it_eqb it (CircularQueue.end_ (loadQueue (unit w))) then Ok w
  else match n with
  | O => Err Undefined
  | S n =>
      let* e := CircularQueue.deref (loadQueue (unit w)) it in
      match LSQEntry.inst e with
      | None => Err AssertFail
      | Some p =>
          let* i := inst_at p w in
          if negb (DynInst.effAddrValid i) || DynInst.strictlyOrdered i
          then snoop_loads n a force_squash (CircularQueue.incr it) w
          else
            let* r := LSQEntry.request e in
            let* q := req_at r w in
            let* hit := if force_squash then Ok true else isCacheBlockHit a q in
            if (hit : bool) then
              let force_squash := force_squash || needsTSO P in
              let w := if DynInst.possibleLoadViolation i || force_squash
                       then set_req r (setStateToFault q) (set_inst p (DynInst.with_fault (Some ReExec) i) w)
                       else set_inst p (DynInst.set_hitExternalSnoop true i) w in
              snoop_loads n a force_squash (CircularQueue.incr it) w
            else snoop_loads n a force_squash (CircularQueue.incr it) w
      end
  end.

Definition checkSnoop (pkt : Packet.t) (w : World) : res World :=
  assert! Packet.isInvalidate pkt in
  let lq := loadQueue (unit w) in
  if CircularQueue.empty lq then Ok w
  else
    let* e := CircularQueue.front lq in
    match LSQEntry.inst e with
    | None => Err AssertFail
    | Some p =>
        let* addr := Packet.getAddr pkt in
        let a := Z.land addr cacheBlockMask in
        let* i := inst_at p w in
        let* _ := if DynInst.effAddrValid i then
                    let* r := LSQEntry.request e in
                    let* q := req_at r w in isCacheBlockHit a q
                  else Ok false in
        snoop_loads (Z.to_nat (CircularQueue.size lq)) a false (CircularQueue.incr (CircularQueue.begin lq)) w
    end.

(** ** The LSQ of a core with one thread: lsq_impl.hh *)

Definition tick (w : World) : World :=
  let s := ports w in
  let w := if (usedLoadPorts s =? cacheLoadPorts s) && negb (_cacheBlocked s) then emit CacheUnblocked w else w in
  with_ports (mkPorts (_cacheBlocked s) (cacheStorePorts s) 0 (cacheLoadPorts s) 0) w.

Definition recvReqRetry (w : World) : res World :=
  let w := emit CacheUnblocked w in
  recvRetry (with_ports (set_cacheBlocked false (ports w)) w).

Definition recvTimingSnoopReq (pkt : Packet.t) (w : World) : res World :=
  if Packet.isInvalidate pkt then checkSnoop pkt w else Ok w.

Definition recvTimingResp (k : nat) (pkt : Packet.t) (w : World) : res World :=
  match Packet.senderState pkt with
  | Packet.SS_Other r :: _ =>
      let* w := unit_recvTimingResp r k pkt w in
      let* w := if Packet.isInvalidate pkt then checkSnoop pkt w else Ok w in
      packetReplied r w
  | _ => Err Panic
  end.

End unit.
End LSQUnit.
