(* ===== verification/LsqUnitFacts.v ===== *)
(** * Facts on the load and store queues

    How the entries of the two queues are read and written, what a well-formed unit is,
    and the search of a store for younger loads that went ahead of it. *)

From stdpp Require Import gmap sorting.
From S2P Require Import Prelude.
From S2P Require Import CircularQueue BaseUtil MemCmd Request Packet DynInst Rob Lsq LsqUnit.

Local Open Scope Z_scope.

Module LsqUnitFacts.
Import LSQRequest LSQUnit.

(** ** Entries *)

Definition lq (w : World) : list LSQEntry.t := CircularQueue.contents (loadQueue (unit w)).
Definition sq (w : World) : list SQEntry.t := CircularQueue.contents (storeQueue (unit w)).
Definition lq_head (w : World) : Z := CircularQueue._head (loadQueue (unit w)).
Definition sq_head (w : World) : Z := CircularQueue._head (storeQueue (unit w)).

(** The instruction of an entry. *)
Definition inst_of (h : heap) (e : LSQEntry.t) : option DynInst.t := LSQEntry.inst e ≫= fun p => h !! p.
Definition seq_of (h : heap) (e : LSQEntry.t) : Z :=
  match inst_of h e with Some i => DynInst.seqNum i | None => 0 end.

(** An occupied entry. *)
Definition occupied (h : heap) (is_load : bool) (e : LSQEntry.t) : Prop :=
  LSQEntry._valid e = true /\ exists i, inst_of h e = Some i /\ DynInst.isLoad i = is_load.

Lemma occupied_inst h b e : occupied h b e ->
  exists p i, LSQEntry.inst e = Some p /\ h !! p = Some i /\ DynInst.isLoad i = b /\ seq_of h e = DynInst.seqNum i.
Proof.
  intros (_ & i & Hi & Hl). unfold inst_of in Hi. destruct (LSQEntry.inst e) as [p|] eqn:Hp; [|done].
  exists p, i. unfold seq_of, inst_of. rewrite Hp. simpl in *. by rewrite Hi.
Qed.

(** Age order. *)
Definition in_order (h : heap) (l : list LSQEntry.t) : Prop := StronglySorted Z.lt (seq_of h <$> l).

Lemma queue_order_lt h l j k e f :
  in_order h l -> l !! j = Some e -> l !! k = Some f -> (j < k)%nat -> seq_of h e < seq_of h f.
Proof.
  intros Hs Hj Hk Hlt. unfold in_order in Hs.
  assert ((seq_of h <$> l) !! j = Some (seq_of h e)) as Hj' by by rewrite list_lookup_fmap, Hj.
  assert ((seq_of h <$> l) !! k = Some (seq_of h f)) as Hk' by by rewrite list_lookup_fmap, Hk.
  revert Hs Hj' Hk' Hlt. generalize (seq_of h <$> l) as s, (seq_of h e) as x, (seq_of h f) as y. clear.
  intros s x y Hs. revert j k. induction Hs as [|a s Hs IH Ha]; intros j k Hj Hk Hlt; [done|].
  destruct k as [|k]; [lia|]. destruct j as [|j]; simpl in *.
  - simplify_eq. rewrite Forall_forall in Ha. apply Ha. by apply list_elem_of_lookup_2 in Hk.
  - eapply IH; [done|done|lia].
Qed.

(** ** Indices *)

Section indices.
Context {A : Type}.
Implicit Types q : CircularQueue.t A.

Lemma end_idx q : CircularQueue.wf q ->
  CircularQueue.end_ q = CircularQueue.It true (CircularQueue._head q + CircularQueue._size q).
Proof.
  intros (_ & Hc & Hs & Hh & Hw). unfold CircularQueue.end_, CircularQueue.tail.
  rewrite (uwrap_small 64 (_ + _ - 1)) by (unfold in_word; lia). rewrite uwrap_small by (unfold in_word; lia).
  f_equal. lia.
Qed.

Lemma contents_window q n x :
  CircularQueue.contents q !! n = Some x -> CircularQueue.window q !! n = Some x.
Proof. unfold CircularQueue.contents. intros H. by apply lookup_take_Some in H as [H _]. Qed.

Lemma get_contents q n x :
  CircularQueue.wf q -> CircularQueue.contents q !! n = Some x ->
  CircularQueue.get (CircularQueue._head q + Z.of_nat n) q = Ok x.
Proof. intros Hwf Hx. by apply CircularQueue.get_ok, contents_window. Qed.

Lemma set_contents q n x :
  CircularQueue.wf q -> (n < length (CircularQueue.contents q))%nat ->
  exists q', CircularQueue.set (CircularQueue._head q + Z.of_nat n) x q = Ok q' /\ CircularQueue.wf q' /\
    CircularQueue.contents q' = <[n := x]> (CircularQueue.contents q) /\ CircularQueue.spare q' = CircularQueue.spare q /\
    CircularQueue._head q' = CircularQueue._head q /\ CircularQueue._size q' = CircularQueue._size q /\
    CircularQueue._capacity q' = CircularQueue._capacity q.
Proof.
  intros Hwf Hn. pose proof (CircularQueue.length_window q Hwf) as Hlw.
  rewrite CircularQueue.length_contents in Hn by done. pose proof Hwf as (_ & _ & Hs & _).
  destruct (CircularQueue.set_ok q n x Hwf ltac:(lia)) as (q' & H1 & H2 & H3 & H4 & H5 & H6).
  exists q'. unfold CircularQueue.contents, CircularQueue.spare. rewrite H3, H4. split_and!; try done.
  - by rewrite take_insert_lt by lia.
  - by rewrite drop_insert_lt by lia.
Qed.

(** The iterator at position [n] of the queue. *)
Definition at_pos q (n : nat) : CircularQueue.iterator :=
  CircularQueue.It true (CircularQueue._head q + Z.of_nat n).

Lemma deref_at q n x :
  CircularQueue.wf q -> CircularQueue.contents q !! n = Some x -> CircularQueue.deref q (at_pos q n) = Ok x.
Proof. intros. unfold CircularQueue.deref. simpl. by apply get_contents. Qed.

Lemma at_pos_end q n : CircularQueue.wf q ->
  CircularQueue.it_eqb (at_pos q n) (CircularQueue.end_ q) = (n =? length (CircularQueue.contents q))%nat.
Proof.
  intros Hwf. rewrite end_idx, CircularQueue.length_contents by done. unfold CircularQueue.it_eqb. simpl.
  destruct Hwf as (_ & _ & Hs & _). destruct (Nat.eqb_spec n (Z.to_nat (CircularQueue._size q)));
    [rewrite (proj2 (Z.eqb_eq _ _))|rewrite (proj2 (Z.eqb_neq _ _))]; (done || lia).
Qed.

Lemma incr_at q n : CircularQueue.wf q -> (n < length (CircularQueue.contents q))%nat ->
  CircularQueue.incr (at_pos q n) = at_pos q (S n).
Proof.
  intros Hwf Hn. rewrite CircularQueue.length_contents in Hn by done. destruct Hwf as (_ & Hc & Hs & Hh & Hw).
  unfold CircularQueue.incr, at_pos. simpl. rewrite uwrap_small by (unfold in_word; lia). f_equal. lia.
Qed.

Lemma decr_at q n : CircularQueue.wf q -> CircularQueue.decr q (at_pos q (S n)) = Ok (at_pos q n).
Proof.
  intros Hwf. unfold CircularQueue.decr, at_pos, CircularQueue.head. simpl.
  rewrite (proj2 (Z.ltb_lt _ _)) by lia. do 2 f_equal. lia.
Qed.

Lemma at_pos_eqb q m n : CircularQueue.it_eqb (at_pos q m) (at_pos q n) = (m =? n)%nat.
Proof.
  unfold CircularQueue.it_eqb. simpl. destruct (Nat.eqb_spec m n);
    [rewrite (proj2 (Z.eqb_eq _ _))|rewrite (proj2 (Z.eqb_neq _ _))]; (done || lia).
Qed.
End indices.

(** A load queue entry is changed in place. *)
Lemma on_lq_Ok w k e f :
  CircularQueue.wf (loadQueue (unit w)) -> lq w !! k = Some e ->
  exists q, on_lq (lq_head w + Z.of_nat k) f w = Ok (upd (with_loadQueue q) w) /\ CircularQueue.wf q /\
    CircularQueue.contents q = <[k := f e]> (lq w) /\ CircularQueue.spare q = CircularQueue.spare (loadQueue (unit w)) /\
    CircularQueue._head q = lq_head w /\ CircularQueue._size q = CircularQueue._size (loadQueue (unit w)) /\
    CircularQueue._capacity q = CircularQueue._capacity (loadQueue (unit w)).
Proof.
  intros Hwf He. unfold on_lq, lq_get, lq_set, lq_head. rewrite (get_contents _ _ _ Hwf He). cbn [rbind].
  destruct (set_contents (loadQueue (unit w)) k (f e) Hwf) as (q & -> & H); [by eapply lookup_lt_Some|].
  by exists q.
Qed.

(** The constructor of [HtmCmdRequest] looks at the byte enables before [pushRequest]
    has set them, finds no active element and panics: no transactional command can
    reach the cache. *)
Lemma htm_cmd_panics cpu domain context now task p flags extra amo be burst w i e :
  insts w !! p = Some i -> Flags.isSet flags Request.HTM_CMD = true ->
  lq_get (DynInst.lqIdx i) w = Ok e ->
  new_request cpu domain context now task p true 8 0 flags extra amo be burst w = Err Panic.
Proof.
  intros Hi Hf He. unfold new_request. rewrite Hf. unfold inst_at at 1. rewrite (proj2 (deref_Ok _ _ _) Hi).
  cbn [rbind andb negb orb]. set (q := LSQRequest.make _ _ _ _ _ _ _ _ _ _ _). unfold install.
  change (_inst q) with p. unfold inst_at at 1. cbn [insts]. rewrite (proj2 (deref_Ok _ _ _) Hi). cbn [rbind].
  assert (isLoad q = true) as ->.
  { unfold isLoad, q, LSQRequest.make. simpl.
    by destruct (DynInst.isStoreConditional i), (DynInst.isAtomic i). }
  unfold on_lq, lq_get. cbn [unit]. unfold lq_get in He. rewrite He. cbn [rbind]. unfold lq_set. cbn [unit].
  unfold CircularQueue.get, CircularQueue.set in *. inv_res.
  cbn [Z.eqb Pos.eqb]. rewrite E. cbn [rbind].
  rewrite (proj2 (Nat.ltb_lt _ _)) by (destruct (CircularQueue.data _ !! _) eqn:Hd in He; [by eapply lookup_lt_Some|done]).
  cbn [rbind].
  unfold construct_htm_cmd, req_at. cbn [reqs upd with_unit]. rewrite lookup_insert_eq. cbn [rbind].
  unfold addRequest. cbn [_byteEnable q LSQRequest.make]. done.
Qed.

(** The mask of a snooped line has no bits above the lowest 32: lines 4 GB apart look
    the same to [checkSnoop]. *)
Lemma snoop_mask_32bit cpu a :
  0 < BaseCPU.cacheLineSize cpu <= 2 ^ 32 ->
  Z.land (a + 2 ^ 32) (cacheBlockMask cpu) = Z.land a (cacheBlockMask cpu).
Proof.
  intros Hl. unfold cacheBlockMask, cacheLineSize, unot. rewrite uwrap_small by (unfold in_word; lia).
  set (m := 2 ^ 32 - 1 - (BaseCPU.cacheLineSize cpu - 1)). assert (0 <= m < 2 ^ 32) as Hm by (unfold m; lia).
  assert (m = Z.land m (Z.ones 32)) as -> by (rewrite Z.land_ones by lia; by rewrite Z.mod_small).
  rewrite !(Z.land_comm m), !Z.land_assoc, !Z.land_ones by lia. f_equal.
  rewrite <- (Z.mod_add a 1 (2 ^ 32)) by lia. by rewrite Z.mul_1_l.
Qed.

(** ** Younger loads that went ahead of a store *)

Section violations.
Context (P : Params).

(** The load at an entry conflicts with the access of [i] when it has its address and,
    in units of [2^depCheckShift] bytes, they share one. *)
Definition conflicts (i ld : DynInst.t) : bool :=
  DynInst.effAddrValid ld && negb (DynInst.strictlyOrdered ld)
  && (Z.shiftr (DynInst.effAddr ld) (depCheckShift P)
      <=? Z.shiftr (u64 (DynInst.effAddr i + DynInst.effSize i - 1)) (depCheckShift P))
  && (Z.shiftr (DynInst.effAddr i) (depCheckShift P)
      <=? Z.shiftr (u64 (DynInst.effAddr ld + DynInst.effSize ld - 1)) (depCheckShift P)).

(** Both accesses stay below the end of the address space and share a byte. *)
Definition shares_byte (i ld : DynInst.t) : Prop :=
  DynInst.effAddrValid ld = true /\ DynInst.strictlyOrdered ld = false /\
  0 <= DynInst.effAddr i /\ 0 <= DynInst.effAddr ld /\
  DynInst.effAddr i + DynInst.effSize i <= 2 ^ 64 /\ DynInst.effAddr ld + DynInst.effSize ld <= 2 ^ 64 /\
  exists b, DynInst.effAddr i <= b < DynInst.effAddr i + DynInst.effSize i /\
    DynInst.effAddr ld <= b < DynInst.effAddr ld + DynInst.effSize ld.

(** Accesses that share a byte conflict. *)
Lemma overlap_conflicts i ld : 0 <= depCheckShift P -> shares_byte i ld -> conflicts i ld = true.
Proof.
  intros Hsh (Hv & Hso & Hi & Hl & Hwi & Hwl & b & Hbi & Hbl). unfold conflicts. rewrite Hv, Hso. simpl.
  rewrite !uwrap_small by (unfold in_word; lia). rewrite !Z.shiftr_div_pow2 by done.
  pose proof (pow2_pos _ Hsh). apply andb_true_iff. split; apply Z.leb_le; apply Z.div_le_mono; lia.
Qed.

(** The violator the unit remembers, if it is known. *)
Definition violator_seq (w : World) : option Z :=
  memDepViolator (unit w) ≫= fun p => DynInst.seqNum <$> insts w !! p.

(** One load against a store. *)
Lemma check_load_store i p ld w :
  DynInst.isLoad i = false -> insts w !! p = Some ld ->
  (forall v, memDepViolator (unit w) = Some v -> is_Some (insts w !! v)) ->
  check_load P i (Z.shiftr (DynInst.effAddr i) (depCheckShift P))
    (Z.shiftr (u64 (DynInst.effAddr i + DynInst.effSize i - 1)) (depCheckShift P)) p w
  = Ok (if conflicts i ld then
          if match violator_seq w with Some n => n <? DynInst.seqNum ld | None => false end
          then (Some None, w)
          else (Some (Some M5PanicFault), upd (with_memDepViolator (Some p)) w)
        else (None, w)).
Proof.
  intros Hl Hp Hv. unfold check_load, inst_at. rewrite (proj2 (deref_Ok _ _ _) Hp). cbn [rbind].
  unfold conflicts. destruct (DynInst.effAddrValid ld); [|done]. destruct (DynInst.strictlyOrdered ld); [done|].
  cbn [negb orb andb]. destruct (_ && _); [|done]. unfold violator_seq. rewrite Hl.
  destruct (memDepViolator (unit w)) as [v|]; [|done].
  destruct (Hv v eq_refl) as [vi Hvi]. rewrite (proj2 (deref_Ok _ _ _) Hvi). simpl. rewrite Hvi. simpl.
  by destruct (_ <? _).
Qed.

(** The scan of the queue from position [n] on finds the first load that conflicts. *)
Lemma check_loads_scan i w :
  DynInst.isLoad i = false -> CircularQueue.wf (loadQueue (unit w)) ->
  Forall (occupied (insts w) true) (lq w) ->
  (forall v, memDepViolator (unit w) = Some v -> is_Some (insts w !! v)) ->
  forall m n, (n + m = length (lq w))%nat ->
  check_loads P m i (Z.shiftr (DynInst.effAddr i) (depCheckShift P))
    (Z.shiftr (u64 (DynInst.effAddr i + DynInst.effSize i - 1)) (depCheckShift P)) (at_pos (loadQueue (unit w)) n) w
  = match find_first (fun e => match inst_of (insts w) e with Some ld => conflicts i ld | None => false end)
            (drop n (lq w)) with
    | None => Ok (None, w)
    | Some (_, e) =>
        if match violator_seq w with Some s => s <? seq_of (insts w) e | None => false end
        then Ok (None, w)
        else Ok (Some M5PanicFault, upd (with_memDepViolator (LSQEntry.inst e)) w)
    end.
Proof.
  intros Hl Hwf Hocc Hv. induction m as [|m IH]; intros n Hn.
  - cbn [check_loads]. rewrite at_pos_end by done. fold (lq w).
    rewrite (proj2 (Nat.eqb_eq _ _)) by lia. by rewrite drop_ge by lia.
  - cbn [check_loads]. rewrite at_pos_end by done. fold (lq w). rewrite (proj2 (Nat.eqb_neq _ _)) by lia.
    destruct (lookup_lt_is_Some_2 (lq w) n ltac:(lia)) as [e He].
    rewrite (deref_at _ _ _ Hwf He). cbn [rbind]. rewrite Forall_lookup in Hocc.
    destruct (occupied_inst _ _ _ (Hocc n e He)) as (p & ld & Hp & Hld & _ & Hseq).
    unfold LSQEntry.instruction. rewrite Hp. cbn [rbind]. rewrite (check_load_store i p ld w Hl Hld Hv). cbn [rbind].
    rewrite (drop_S _ e n He). cbn [find_first].
    assert (inst_of (insts w) e = Some ld) as -> by (unfold inst_of; by rewrite Hp).
    destruct (conflicts i ld).
    + rewrite Hseq, Hp. by destruct (match violator_seq w with Some s => s <? DynInst.seqNum ld | None => false end).
    + rewrite incr_at by (done || by eapply lookup_lt_Some). rewrite IH by lia.
      destruct (find_first _ (drop (S n) (lq w))) as [[k f]|]; done.
Qed.

(** A store finds the loads that overtook it. When a store has its address, the
    scan of the loads from its place in the load queue ends and changes nothing but the
    violator. If some load from there on already has its address and shares a byte with
    the store, or only a block of [2^depCheckShift] bytes, there is a violator
    afterwards, at least as old as that load. The violator is the one known before, or
    it is one of these loads, not younger than the one known before, and is reported
    with a fault. *)
Theorem violation_found w p i n v0 :
  insts w !! p = Some i -> DynInst.isLoad i = false -> CircularQueue.wf (loadQueue (unit w)) ->
  Forall (occupied (insts w) true) (lq w) -> in_order (insts w) (lq w) -> (n <= length (lq w))%nat ->
  0 <= depCheckShift P -> v0 = memDepViolator (unit w) -> (forall v, v0 = Some v -> is_Some (insts w !! v)) ->
  exists fault v,
    checkViolations P (at_pos (loadQueue (unit w)) n) p w = Ok (fault, upd (with_memDepViolator v) w) /\
    (fault = None /\ v = v0 \/ fault = Some M5PanicFault /\ exists k e, (n <= k)%nat /\ lq w !! k = Some e /\ v = LSQEntry.inst e) /\
    (fault <> None -> forall s, violator_seq w = Some s ->
       exists s', violator_seq (upd (with_memDepViolator v) w) = Some s' /\ s' <= s) /\
    forall k e ld, (n <= k)%nat -> lq w !! k = Some e -> inst_of (insts w) e = Some ld ->
      shares_byte i ld \/ conflicts i ld = true ->
      exists s, violator_seq (upd (with_memDepViolator v) w) = Some s /\ s <= DynInst.seqNum ld.
Proof.
  intros Hp Hl Hwf Hocc Hord Hn Hsh -> Hv. unfold checkViolations, inst_at.
  rewrite (proj2 (deref_Ok _ _ _) Hp). cbn [rbind]. rewrite end_idx by done. cbn [CircularQueue._idx at_pos].
  replace (Z.to_nat _) with (length (lq w) - n)%nat
    by (unfold lq; rewrite CircularQueue.length_contents by done; lia).
  rewrite check_loads_scan by (done || lia).
  assert (forall v, v = memDepViolator (unit w) -> upd (with_memDepViolator v) w = w) as Hsame.
  { intros v ->. by destruct w as [? ? ? ? [] ? ? ? ?]. }
  assert (forall ld, shares_byte i ld \/ conflicts i ld = true -> conflicts i ld = true) as Hcf
    by (intros ld [?|?]; [by apply overlap_conflicts|done]).
  set (f := fun e => match inst_of (insts w) e with Some ld => conflicts i ld | None => false end).
  destruct (find_first f (drop n (lq w))) as [[j e]|] eqn:Hf.
  - apply find_first_Some in Hf as (Hj & Hfe & Hmin). rewrite lookup_drop in Hj.
    assert (forall k e' ld, (n <= k)%nat -> lq w !! k = Some e' -> inst_of (insts w) e' = Some ld ->
      conflicts i ld = true -> seq_of (insts w) e <= DynInst.seqNum ld) as Hold.
    { intros k e' ld Hk He' Hld Hc. destruct (decide (k < n + j)%nat) as [Hkj|Hkj].
      - exfalso. specialize (Hmin (k - n)%nat e' ltac:(lia)). rewrite lookup_drop in Hmin.
        replace (n + (k - n))%nat with k in Hmin by lia. specialize (Hmin He'). unfold f in Hmin.
        rewrite Hld in Hmin. congruence.
      - assert (seq_of (insts w) e' = DynInst.seqNum ld) as <- by (unfold seq_of; by rewrite Hld).
        destruct (decide (k = n + j)%nat) as [->|]; [by simplify_eq|].
        apply Z.lt_le_incl. eapply queue_order_lt; [done|exact Hj|exact He'|lia]. }
    rewrite Forall_lookup in Hocc. destruct (occupied_inst _ _ _ (Hocc _ e Hj)) as (lp & ld & Hlp & Hld & _ & Hseq).
    assert (violator_seq (upd (with_memDepViolator (LSQEntry.inst e)) w) = Some (seq_of (insts w) e)) as Hnew.
    { unfold violator_seq. simpl. rewrite Hlp. simpl. by rewrite Hld, Hseq. }
    destruct (match violator_seq w with Some s => s <? seq_of (insts w) e | None => false end) eqn:Ht.
    + exists None, (memDepViolator (unit w)). rewrite Hsame by done. split_and!; [done|by left|done|].
      intros k e' ld' Hk He' Hld' Hc%Hcf. destruct (violator_seq w) as [s|]; [|done]. exists s. split; [done|].
      specialize (Hold k e' ld' Hk He' Hld' Hc). lia.
    + exists (Some M5PanicFault), (LSQEntry.inst e). split_and!; [done|right; split; [done|]; by exists (n + j)%nat, e; split_and!; [lia|..]| |].
      * intros _ s Hs. rewrite Hs in Ht. exists (seq_of (insts w) e). split; [done|lia].
      * intros k e' ld' Hk He' Hld' Hc%Hcf. exists (seq_of (insts w) e). split; [done|by eapply Hold].
  - exists None, (memDepViolator (unit w)). rewrite Hsame by done. split_and!; [done|by left|done|].
    intros k e ld Hk He Hld Hc%Hcf. exfalso. apply find_first_None in Hf. rewrite Forall_lookup in Hf.
    specialize (Hf (k - n)%nat e). rewrite lookup_drop in Hf. replace (n + (k - n))%nat with k in Hf by lia.
    specialize (Hf He). unfold f in Hf. rewrite Hld in Hf. congruence.
Qed.

End violations.
End LsqUnitFacts.
