(* ===== verification/LsqForward.v ===== *)
(** * A load reads the latest older store

    The search of a load among the older stores that have not been written back,
    against a reference: the effect of these stores, in program order, on the memory the
    load would read. *)

From stdpp Require Import gmap sorting.
From S2P Require Import Prelude.
From S2P Require Import CircularQueue BaseUtil MemCmd Request Packet DynInst Rob Lsq LsqFacts LsqSpec LsqUnit LsqUnitFacts.

Local Open Scope Z_scope.

Module LsqForward.
Import LSQRequest LSQUnit LsqUnitFacts.

(** ** Coverage *)

(** What the classification means, for ranges that do not reach the end of the address
    space. *)
Lemma coverage_exact va n llsc s z atomic masked :
  0 <= va -> 0 < n -> va + n < 2 ^ 64 -> 0 <= s -> 0 < z -> s + z < 2 ^ 64 ->
  coverage_of va n llsc s z atomic masked =
    if (va + n <=? s) || (s + z <=? va) then NoAddrRangeCoverage
    else if (s <=? va) && (va + n <=? s + z) && negb atomic && negb llsc && negb masked
    then FullAddrRangeCoverage else PartialAddrRangeCoverage.
Proof.
  intros. unfold coverage_of. rewrite !uwrap_small by (unfold in_word; lia).
  destruct (Z.leb_spec s va), (Z.leb_spec (va + n) (s + z)), (Z.ltb_spec va (s + z)), (Z.ltb_spec s (va + n)),
    (Z.leb_spec (va + n) s), (Z.leb_spec (s + z) va), llsc, atomic, masked; simpl; (reflexivity || lia).
Qed.

(** A store that ends with the address space wraps its end to 0: a load that lies inside
    it but ends before the end of the address space is told that there is nothing to
    forward, and reads stale data. *)
Lemma store_at_top_missed va n s z masked :
  0 <= s <= va -> 0 < n -> va + n < 2 ^ 64 -> s + z = 2 ^ 64 ->
  coverage_of va n false s z false masked = NoAddrRangeCoverage.
Proof.
  intros. unfold coverage_of. rewrite (uwrap_small 64 (va + n)) by (unfold in_word; lia).
  assert (u64 (s + z) = 0) as -> by by replace (s + z) with (2 ^ 64).
  rewrite (proj2 (Z.leb_le s va)), (proj2 (Z.leb_gt (va + n) 0)), (proj2 (Z.ltb_ge va 0)) by lia. done.
Qed.

(** ** The effect of a store on memory *)

(** Memory as the program sees it: a byte per virtual address. *)
Abbreviation memory := (Z -> Z).

(** The bytes of a store: an atomic computes them from the old ones, a masked store
    leaves the disabled ones alone. *)
Definition stored (e : SQEntry.t) (st : DynInst.t) (main : Request.t) (old : list Z) : list Z :=
  if DynInst.isAtomic st then match Request.atomicOpFunctor main with Some f => f old | None => old end
  else imap (fun k o => if default true (Request._byteEnable main !! k)
                        then if SQEntry._isAllZeros e then 0 else default o (SQEntry._data e !! k)
                        else o) old.

Definition apply_store (e : SQEntry.t) (st : DynInst.t) (main : Request.t) (m : memory) : memory :=
  fun a =>
    let k := a - DynInst.effAddr st in
    if (0 <=? k) && (k <? SQEntry.size e)
    then default (m a) (stored e st main (m <$> seqZ (DynInst.effAddr st) (SQEntry.size e)) !! Z.to_nat k)
    else m a.

(** The store at an entry with its instruction and main request. A store that has not
    executed yet has no size; strictly ordered stores and cache maintenance do not
    take part. *)
Definition resolve (w : World) (e : SQEntry.t) : option (DynInst.t * Request.t) :=
  match inst_of (insts w) (SQEntry.base e), LSQEntry.req (SQEntry.base e) ≫= fun r => reqs w !! r with
  | Some st, Some q => match mainRequest q with Ok (Some m) => Some (st, m) | _ => None end
  | _, _ => None
  end.
Definition takes_part (e : SQEntry.t) (st : DynInst.t) (m : Request.t) : bool :=
  negb (SQEntry.size e =? 0) && negb (DynInst.strictlyOrdered st) && negb (Request.isCacheMaintenance m).

Definition effect (w : World) (m : memory) (e : SQEntry.t) : memory :=
  match resolve w e with
  | Some (st, main) => if takes_part e st main then apply_store e st main m else m
  | None => m
  end.

(** Memory after the stores of [l], the oldest first. *)
Definition after (w : World) (l : list SQEntry.t) (m : memory) : memory := foldl (effect w) m l.

Lemma after_app w l1 l2 m : after w (l1 ++ l2) m = after w l2 (after w l1 m).
Proof. apply foldl_app. Qed.

(** ** Well-formed older stores *)

(** An entry a load of sequence number [seq] may meet. *)
Definition store_ok (w : World) (seq : Z) (e : SQEntry.t) : Prop :=
  SQEntry.valid e = true /\ SQEntry._completed e = false /\ 0 <= SQEntry.size e < 2 ^ 31 /\
  (exists st, inst_of (insts w) (SQEntry.base e) = Some st /\ DynInst.seqNum st < seq /\
   (SQEntry.size e <> 0 -> exists main,
      resolve w e = Some (st, main) /\ DynInst.effAddrValid st = true /\
      0 <= DynInst.effAddr st /\ DynInst.effAddr st + SQEntry.size e < 2 ^ 64 /\
      (Request.isMasked main = false -> DynInst.isAtomic st = false ->
         SQEntry._isAllZeros e = true \/ SQEntry.size e <= Z.of_nat (length (SQEntry._data e))))).

Lemma swrap_small z : 0 <= z < 2 ^ 31 -> swrap 32 z = z.
Proof. intros. unfold swrap. simpl. rewrite Z.mod_small by lia. lia. Qed.

(** What the search computes for one entry. *)
Definition classify (w : World) (va n : Z) (llsc : bool) (e : SQEntry.t) : AddrRangeCoverage :=
  match resolve w e with
  | Some (st, main) =>
      if takes_part e st main then
        coverage_of va n llsc (DynInst.effAddr st) (SQEntry.size e) (DynInst.isAtomic st) (Request.isMasked main)
      else NoAddrRangeCoverage
  | None => NoAddrRangeCoverage
  end.

Lemma resolve_Some w e st main :
  resolve w e = Some (st, main) ->
  exists r q, SQEntry.request e = Ok r /\ req_at r w = Ok q /\ mainRequest q = Ok (Some main) /\
    inst_of (insts w) (SQEntry.base e) = Some st.
Proof.
  unfold resolve, SQEntry.request, LSQEntry.request, req_at.
  destruct (inst_of _ _) as [st'|]; [|done]. destruct (LSQEntry.req _) as [r|]; [|done]. simpl.
  destruct (reqs w !! r) as [q|] eqn:Hq; [|done]. destruct (mainRequest q) as [[m|]|] eqn:Hm; [|done..].
  intros [= -> ->]. exists r, q. by rewrite Hq.
Qed.

Lemma entry_coverage_classify w main va n seq e st :
  Request.getVaddr main = Ok va -> Request.getSize main = Ok n ->
  store_ok w seq e -> inst_of (insts w) (SQEntry.base e) = Some st ->
  entry_coverage main e st w = Ok (classify w va n (Request.isLLSC main) e).
Proof.
  intros Hva Hn (Hv & Hc & Hz & st' & Hst & Hseq & Hcont) Hi. assert (st' = st) as -> by congruence.
  unfold entry_coverage, store_counts, classify. rewrite swrap_small by done.
  destruct (Z.eqb_spec (SQEntry.size e) 0) as [Hz0|Hz0].
  { cbn [negb andb rbind]. destruct (resolve w e) as [[st1 m1]|]; [|done].
    unfold takes_part. by rewrite Hz0. }
  destruct (Hcont Hz0) as (m & Hr & Hea & _). rewrite Hr. unfold takes_part.
  rewrite (proj2 (Z.eqb_neq _ _) Hz0). cbn [negb andb].
  destruct (DynInst.strictlyOrdered st); [done|]. cbn [negb andb].
  destruct (resolve_Some _ _ _ _ Hr) as (r & q & Hreq & Hq & Hm & _). rewrite Hreq. cbn [rbind]. rewrite Hq. cbn [rbind].
  rewrite Hm. cbn [rbind]. destruct (Request.isCacheMaintenance m); [done|]. cbn [negb].
  rewrite Hea, Hva. cbn [rbind]. rewrite Hn. cbn [rbind].
  unfold coverage_of. set (b1 := _ && negb (Request.isLLSC main)). destruct b1.
  - by destruct (Request.isMasked m).
  - by destruct (_ || _).
Qed.

(** ** The search *)

(** The outcome of the search in positions [a, b) of the store queue. *)
Definition search_result (w : World) (va n : Z) (llsc : bool) (a b : nat)
    (found : option (iterator * SQEntry.t * DynInst.t * AddrRangeCoverage)) : Prop :=
  match found with
  | None => forall k e, (a <= k < b)%nat -> sq w !! k = Some e -> classify w va n llsc e = NoAddrRangeCoverage
  | Some (it, e, st, c) =>
      exists j, (a <= j < b)%nat /\ sq w !! j = Some e /\ inst_of (insts w) (SQEntry.base e) = Some st /\
        classify w va n llsc e = c /\ c <> NoAddrRangeCoverage /\
        forall k f, (j < k < b)%nat -> sq w !! k = Some f -> classify w va n llsc f = NoAddrRangeCoverage
  end.

Lemma search_stores_ok w main va n seq a d :
  Request.getVaddr main = Ok va -> Request.getSize main = Ok n ->
  CircularQueue.wf (storeQueue (unit w)) -> storeWBIt (unit w) = at_pos (storeQueue (unit w)) a ->
  (a + d <= length (sq w))%nat ->
  (forall k e, (a <= k < a + d)%nat -> sq w !! k = Some e -> store_ok w seq e) ->
  exists found, search_stores d main seq (at_pos (storeQueue (unit w)) (a + d)) w = Ok found /\
    search_result w va n (Request.isLLSC main) a (a + d) found.
Proof.
  intros Hva Hn Hwf Hwb. induction d as [|d IH]; intros Hlen Hok.
  { exists None. cbn [search_stores]. rewrite Hwb, at_pos_eqb, (proj2 (Nat.eqb_eq _ _)) by lia.
    split; [done|]. intros k e Hk. lia. }
  cbn [search_stores]. rewrite Hwb, at_pos_eqb, (proj2 (Nat.eqb_neq _ _)) by lia.
  rewrite Nat.add_succ_r in Hlen |- *. rewrite decr_at by done. cbn [rbind].
  destruct (lookup_lt_is_Some_2 (sq w) (a + d) ltac:(lia)) as [e He].
  rewrite (deref_at _ _ _ Hwf He). cbn [rbind].
  pose proof (Hok (a + d)%nat e ltac:(lia) He) as Hse. pose proof Hse as (Hv & _ & _ & st & Hst & Hseq & _).
  rewrite Hv. unfold SQEntry.instruction, LSQEntry.instruction. unfold inst_of in Hst.
  destruct (LSQEntry.inst (SQEntry.base e)) as [p|] eqn:Hp; [|done]. simpl in Hst. cbn [rbind].
  unfold inst_at. rewrite (proj2 (deref_Ok _ _ _) Hst). cbn [rbind]. rewrite (proj2 (Z.ltb_lt _ _) Hseq).
  assert (inst_of (insts w) (SQEntry.base e) = Some st) as Hst' by (unfold inst_of; by rewrite Hp).
  rewrite (entry_coverage_classify w main va n seq e st) by done. cbn [rbind].
  destruct (classify w va n (Request.isLLSC main) e) eqn:Hc.
  3:{ destruct IH as (found & -> & Hres); [lia|intros; eapply Hok; [|done]; lia|].
      exists found. split; [done|]. unfold search_result in *. destruct found as [[[[it f] fst] c]|].
      - destruct Hres as (j & Hj & H1 & H2 & H3 & H4 & H5). exists j. split_and!; try done; [lia|lia|].
        intros k g Hk Hg. destruct (decide (k = a + d)%nat) as [->|]; [congruence|apply (H5 k); [lia|done]].
      - intros k g Hk Hg. destruct (decide (k = a + d)%nat) as [->|]; [congruence|apply (Hres k); [lia|done]]. }
  all: eexists; split; [reflexivity|]; exists (a + d)%nat; split_and!; try done; try lia; intros; lia.
Qed.

(** ** Stores that do not reach an address *)

Lemma classify_No w va n llsc seq e m b :
  0 <= va -> 0 < n -> va + n < 2 ^ 64 -> store_ok w seq e ->
  classify w va n llsc e = NoAddrRangeCoverage -> va <= b < va + n -> effect w m e b = m b.
Proof.
  intros Hva Hn Hw (Hv & Hc & Hz & st' & Hst & Hseq & Hcont) Hcl Hb. unfold effect, classify in *.
  destruct (resolve w e) as [[st main]|] eqn:Hr; [|done].
  destruct (takes_part e st main) eqn:Ht; [|done].
  unfold takes_part in Ht. apply andb_true_iff in Ht as [[Hz0 _]%andb_true_iff _].
  destruct (Z.eqb_spec (SQEntry.size e) 0) as [|Hz1]; [done|].
  destruct (Hcont Hz1) as (m' & Hr' & _ & Ha & Hw' & _). simplify_eq.
  rewrite coverage_exact in Hcl by lia. unfold apply_store.
  destruct (Z.leb_spec (va + n) (DynInst.effAddr st')), (Z.leb_spec (DynInst.effAddr st' + SQEntry.size e) va); simpl in Hcl.
  4:{ by destruct (_ && _). }
  all: destruct (Z.leb_spec 0 (b - DynInst.effAddr st')), (Z.ltb_spec (b - DynInst.effAddr st') (SQEntry.size e));
    simpl; (done || lia).
Qed.

Lemma after_untouched w va n llsc seq l m b :
  0 <= va -> 0 < n -> va + n < 2 ^ 64 -> va <= b < va + n ->
  Forall (store_ok w seq) l -> Forall (fun e => classify w va n llsc e = NoAddrRangeCoverage) l ->
  after w l m b = m b.
Proof.
  intros Hva Hn Hw Hb Hok Hno. revert m. induction l as [|e l IH]; intros m; [done|].
  apply Forall_cons in Hok as [He Hok], Hno as [Hne Hno]. cbn [after foldl]. fold (after w l (effect w m e)).
  rewrite IH by done. by eapply classify_No.
Qed.

(** ** The store that has all the data *)

Lemma classify_Full w va n llsc seq e st :
  0 <= va -> 0 < n -> va + n < 2 ^ 64 -> store_ok w seq e ->
  inst_of (insts w) (SQEntry.base e) = Some st -> classify w va n llsc e = FullAddrRangeCoverage ->
  let off := va - DynInst.effAddr st in
  0 <= off /\ off + n <= SQEntry.size e /\ llsc = false /\
  exists bytes, store_bytes e off n = Ok bytes /\ length bytes = Z.to_nat n /\
    forall m k, 0 <= k < n -> bytes !! Z.to_nat k = Some (effect w m e (va + k)).
Proof.
  intros Hva Hn Hw (Hv & Hc & Hz & st' & Hst & Hseq & Hcont) Hi Hcl off. assert (st' = st) as -> by congruence.
  unfold classify in Hcl. destruct (resolve w e) as [[st1 main]|] eqn:Hr; [|done].
  destruct (takes_part e st1 main) eqn:Ht; [|done]. pose proof Ht as Ht'.
  unfold takes_part in Ht'. apply andb_true_iff in Ht' as [[Hz0 _]%andb_true_iff _].
  destruct (Z.eqb_spec (SQEntry.size e) 0) as [|Hz1]; [done|].
  destruct (Hcont Hz1) as (m' & Hr' & _ & Ha & Hw' & Hdata). assert (st1 = st /\ m' = main) as [-> ->] by (split; congruence).
  rewrite coverage_exact in Hcl by lia. destruct (_ || _) eqn:Hdis; [done|].
  destruct (_ && negb (Request.isMasked main)) eqn:Hcov; [|done].
  repeat match goal with H : _ && _ = true |- _ => apply andb_true_iff in H as [? ?] end.
  rewrite !negb_true_iff in *. subst off.
  assert (DynInst.effAddr st <= va /\ va + n <= DynInst.effAddr st + SQEntry.size e) as [Hlo Hhi] by lia.
  split_and!; [lia|lia|done|].
  assert (forall m k, 0 <= k < n -> effect w m e (va + k) =
    if SQEntry._isAllZeros e then 0 else default (m (va + k)) (SQEntry._data e !! Z.to_nat (va + k - DynInst.effAddr st))) as Heff.
  { intros m k Hk. unfold effect. rewrite Hr, Ht. unfold apply_store, stored.
    rewrite (proj2 (Z.leb_le _ _)), (proj2 (Z.ltb_lt _ _)) by lia. simpl.
    match goal with H : DynInst.isAtomic st = false |- _ => rewrite H end.
    rewrite list_lookup_imap, list_lookup_fmap, lookup_seqZ_lt by lia. simpl.
    assert (default true (Request._byteEnable main !! Z.to_nat (va + k - DynInst.effAddr st)) = true) as ->.
    { destruct (Request._byteEnable main !! _) as [[]|] eqn:Hbe; try done. exfalso.
      match goal with H : Request.isMasked main = false |- _ => revert H end. unfold Request.isMasked.
      apply not_false_iff_true, existsb_exists. exists false. split; [|done].
      apply list_elem_of_In. by apply list_elem_of_lookup_2 in Hbe. }
    destruct (SQEntry._isAllZeros e); [done|].
    replace (DynInst.effAddr st + Z.of_nat (Z.to_nat (va + k - DynInst.effAddr st))) with (va + k) by lia. done. }
  unfold store_bytes. destruct (SQEntry._isAllZeros e) eqn:Haz.
  - eexists. split; [reflexivity|]. rewrite length_replicate. split; [done|]. intros m k Hk. rewrite Heff by done.
    apply lookup_replicate. split; [done|lia].
  - destruct (Hdata ltac:(done) ltac:(done)) as [?|Hlen]; [done|].
    rewrite (proj2 (Z.leb_le 0 _)), (proj2 (Z.leb_le (_ + n) _)) by lia. simpl.
    eexists. split; [reflexivity|]. split; [apply length_slice; lia|]. intros m k Hk. rewrite Heff by done.
    rewrite lookup_slice, decide_True by lia.
    assert (Z.to_nat (va + k - DynInst.effAddr st) = Z.to_nat (va - DynInst.effAddr st) + Z.to_nat k)%nat as -> by lia.
    destruct (lookup_lt_is_Some_2 (SQEntry._data e) (Z.to_nat (va - DynInst.effAddr st) + Z.to_nat k) ltac:(lia)) as [x ->]. done.
Qed.

(** The bytes found are those of memory after all the older stores. *)
Lemma forwarded_bytes w va n llsc seq a b j e st m :
  0 <= va -> 0 < n -> va + n < 2 ^ 64 -> (a <= j < b)%nat -> (b <= length (sq w))%nat ->
  (forall k f, (a <= k < b)%nat -> sq w !! k = Some f -> store_ok w seq f) ->
  sq w !! j = Some e -> inst_of (insts w) (SQEntry.base e) = Some st -> classify w va n llsc e = FullAddrRangeCoverage ->
  (forall k f, (j < k < b)%nat -> sq w !! k = Some f -> classify w va n llsc f = NoAddrRangeCoverage) ->
  exists bytes, store_bytes e (va - DynInst.effAddr st) n = Ok bytes /\ length bytes = Z.to_nat n /\
    forall k, 0 <= k < n -> bytes !! Z.to_nat k = Some (after w (slice a (b - a) (sq w)) m (va + k)).
Proof.
  intros Hva Hn Hw Hj Hb Hok He Hst Hfull Hno.
  assert (store_ok w seq e) as Hse by (by eapply Hok).
  destruct (classify_Full w va n llsc seq e st Hva Hn Hw Hse Hst Hfull) as (_ & _ & _ & bytes & Hby & Hlen & Hbs).
  exists bytes. split_and!; [done|done|]. intros k Hk.
  assert (slice a (b - a) (sq w) = slice a (j - a) (sq w) ++ e :: slice (S j) (b - S j) (sq w)) as ->.
  { apply list_eq. intros x. rewrite lookup_slice. destruct (decide (x < j - a)%nat) as [Hx|Hx].
    - rewrite lookup_app_l by (rewrite length_slice by lia; lia). rewrite lookup_slice, !decide_True by lia. done.
    - rewrite lookup_app_r by (rewrite length_slice by lia; lia). rewrite length_slice by lia.
      destruct (x - (j - a))%nat as [|y] eqn:Hy; simpl.
      + rewrite decide_True by lia. replace (a + x)%nat with j by lia. done.
      + rewrite lookup_slice. replace (S j + y)%nat with (a + x)%nat by lia. by repeat case_decide; try lia. }
  rewrite after_app. cbn [after foldl]. fold (after w (slice (S j) (b - S j) (sq w)) (effect w (after w (slice a (j - a) (sq w)) m) e)).
  rewrite (after_untouched w va n llsc seq).
  - by apply Hbs.
  - done.
  - done.
  - done.
  - lia.
  - apply Forall_lookup. intros x f Hf. rewrite lookup_slice in Hf. case_decide; [|done]. eapply Hok; [|done]. lia.
  - apply Forall_lookup. intros x f Hf. rewrite lookup_slice in Hf. case_decide; [|done]. eapply Hno; [|done]. lia.
Qed.

End LsqForward.
