(* ===== verification/LsqRead.v ===== *)
(** * What a load does: forward, wait, or go to memory

    The whole of [LSQUnit::read] for a translated load, against the reference of
    [LsqForward]. *)

From stdpp Require Import gmap sorting.
From S2P Require Import Prelude.
From S2P Require Import CircularQueue BaseUtil MemCmd Request Packet DynInst Rob Lsq LsqFacts LsqSpec LsqUnit LsqUnitFacts LsqForward.

Local Open Scope Z_scope.

Module LsqRead.
Import LSQRequest LSQUnit LsqUnitFacts LsqForward.

Lemma on_inst_Ok p f i w : insts w !! p = Some i -> on_inst p f w = Ok (set_inst p (f i) w).
Proof. intros Hi. unfold on_inst, inst_at. by rewrite (proj2 (deref_Ok _ _ _) Hi). Qed.

Lemma inst_at_Ok p i w : insts w !! p = Some i -> inst_at p w = Ok i.
Proof. intros Hi. unfold inst_at. by rewrite (proj2 (deref_Ok _ _ _) Hi). Qed.

Lemma req_at_Ok r q w : reqs w !! r = Some q -> req_at r w = Ok q.
Proof. intros H. unfold req_at. by rewrite H. Qed.

Lemma isSent_packetSent q : isSent (packetSent q) = true.
Proof. unfold isSent, packetSent. simpl. rewrite Flags.isSet_set. apply orb_true_r. Qed.

Lemma isSent_packetNotSent q : isSent (packetNotSent q) = false.
Proof. unfold isSent, packetNotSent. simpl. by rewrite Flags.isSet_clear_sub by reflexivity. Qed.

(** ** Sending the packets of a load *)

Section send.
Context (E : Env).

(** What sending leaves alone in a request. *)
Definition same_call (q q' : LSQRequest.t) : Prop :=
  isLoad q' = isLoad q /\ isSplit q' = isSplit q /\ _inst q' = _inst q /\
  numReceivedPackets q' = numReceivedPackets q /\ length (_packets q') = length (_packets q) /\
  (_senderState q <> None -> _senderState q' <> None) /\ isReleased q' = isReleased q.

#[global] Instance same_call_preorder : PreOrder same_call.
Proof. split; [done|]. intros x y z (?&?&?&?&?&?&?) (?&?&?&?&?&?&?). split_and!; try congruence; auto. Qed.

(** A packet that can be handed to the cache. *)
Definition sendable (p : Packet.t) : Prop :=
  Request.hasPaddr (Packet.req p) = true /\ Request.specStatAdded (Packet.req p) = false.

(** The world after one or more packets of request [r] were tried: the requests, the
    ports and the instruction's [packetSent] have changed. *)
Definition only_sent (r : Z) (p : DynInstPtr) (w w' : World) (q' : LSQRequest.t) : Prop :=
  reqs w' = <[r := q']> (reqs w) /\ unit w' = unit w /\ events w' = events w /\
  exists i', insts w' = <[p := i']> (insts w).

Lemma mask_flags q f m :
  Z.land m f = 0 -> Flags.isSet (Flags.set (flags q) m) f = Flags.isSet (flags q) f.
Proof. intros H. rewrite Flags.isSet_set, H. apply orb_false_r. Qed.

Lemma same_call_sent q st ps m :
  length ps = length (_packets q) ->
  same_call q (set_packets ps m (packetSent (with_ss (Some st) q))).
Proof.
  intros Hl. unfold same_call, isLoad, isSplit, isReleased. simpl.
  rewrite !mask_flags by reflexivity. split_and!; done.
Qed.

Lemma same_call_not_sent q : same_call q (packetNotSent q).
Proof.
  unfold same_call, isLoad, isSplit, isReleased, packetNotSent. simpl.
  rewrite !Flags.isSet_clear_disjoint by reflexivity. rewrite !mask_flags by reflexivity. split_and!; done.
Qed.

Lemma trySendPacket_load r idx w q i p :
  reqs w !! r = Some q -> isLoad q = true -> _senderState q <> None -> insts w !! _inst q = Some i ->
  _packets q !! idx = Some p -> sendable p ->
  exists ok w' q', trySendPacket E r idx w = Ok (ok, w') /\ only_sent r (_inst q) w w' q' /\
    log w' = log w ++ (if ok then [SendTimingReq p] else []) /\ isSent q' = ok /\ same_call q q' /\
    _numOutstandingPackets q' = _numOutstandingPackets q /\
    (forall k, k <> idx -> _packets q' !! k = _packets q !! k).
Proof.
  intros Hq Hl Hss Hi Hp [Hpa Hspec]. unfold trySendPacket. rewrite (req_at_Ok _ _ _ Hq). cbn [rbind]. rewrite Hp.
  unfold Request.getPaddr. rewrite Hpa. cbn [rbind].
  destruct (_ && accepts E (log w) p) eqn:Hgo.
  - apply andb_true_iff in Hgo as [[Hnb Hport]%andb_true_iff _].
    unfold packet_gone. rewrite (req_at_Ok _ _ _ Hq). cbn [rbind]. rewrite Hl in *.
    unfold cachePortBusy. change (ports (emit _ w)) with (ports w). rewrite Hport. cbn [rbind].
    destruct (_senderState q) as [st|]; [|done]. cbn [rbind].
    rewrite (on_inst_Ok _ _ i) by exact Hi. cbn [rbind].
    assert (exists rq, (if Packet.isRead p || Packet.isWrite p then
        assert! negb (Request.specStatAdded (Packet.req p)) in Request.setFlags Request.SPEC_STATS (Packet.req p)
      else Ok (Packet.req p)) = Ok rq) as [rq ->].
    { rewrite Hspec. unfold Request.setFlags. rewrite Hpa. destruct (_ || _); by eexists. }
    cbn [rbind]. eexists true, _, _. split; [reflexivity|].
    split_and!; [unfold only_sent; split_and!; [reflexivity..|by eexists]|reflexivity| | |reflexivity|].
    + unfold isSent. simpl. rewrite Flags.isSet_set. apply orb_true_r.
    + apply same_call_sent. simpl. by rewrite length_insert.
    + intros k Hk. simpl. by rewrite list_lookup_insert_ne.
  - unfold packet_refused. rewrite (req_at_Ok _ _ _ Hq). cbn [rbind]. clear Hgo. rewrite Hl. cbn [rbind].
    generalize (negb (_cacheBlocked (ports w)) && cachePortAvailable true (ports w)) as ask. intros ask.
    eexists false, _, (packetNotSent q). split; [reflexivity|]. split_and!; [| | | |reflexivity|done].
    + unfold only_sent. split_and!; [by destruct ask..|]. exists i.
      rewrite insert_id by done. by destruct ask.
    + rewrite app_nil_r. by destruct ask.
    + apply isSent_packetNotSent.
    + apply same_call_not_sent.
Qed.

(** One packet. *)
Lemma single_send_load r w q i p :
  reqs w !! r = Some q -> isLoad q = true -> isSplit q = false -> _senderState q <> None ->
  insts w !! _inst q = Some i -> _packets q = [p] -> sendable p -> _numOutstandingPackets q = 0 ->
  exists (ok : bool) w' q', sendPacketToCache E r w = Ok w' /\ only_sent r (_inst q) w w' q' /\
    log w' = log w ++ (if ok then [SendTimingReq p] else []) /\ isSent q' = ok /\ same_call q q'.
Proof.
  intros Hq Hl Hsp Hss Hi Hp Hs Hout. unfold sendPacketToCache. rewrite (req_at_Ok _ _ _ Hq). cbn [rbind].
  rewrite Hsp. unfold single_sendPacketToCache. rewrite (req_at_Ok _ _ _ Hq). cbn [rbind]. rewrite Hout. cbn [Z.eqb].
  destruct (trySendPacket_load r 0 w q i p) as (ok & w1 & q1 & -> & (Hr & Hu & He & i1 & Hin) & Hlog & Hsent & Hcall & _);
    [done..|by rewrite Hp|done|]. cbn [rbind].
  destruct ok; [|by exists false, w1, q1; split_and!; [done|unfold only_sent; split_and!; [done..|by exists i1]|done..]].
  rewrite (req_at_Ok r q1) by (rewrite Hr; apply lookup_insert_eq). cbn [rbind].
  exists true. eexists _, (set_outstanding 1 q1). split; [reflexivity|]. split_and!; [|done|done|exact Hcall].
  unfold only_sent. simpl. rewrite Hr, insert_insert_eq. split_and!; [done..|by exists i1].
Qed.

(** Several packets, from the [n]-th on. *)
Lemma split_send_load r w0 p0 : forall fuel w q q0 ps n,
  reqs w !! r = Some q -> isLoad q = true -> _senderState q <> None -> is_Some (insts w !! _inst q) ->
  _numOutstandingPackets q = Z.of_nat n -> numReceivedPackets q = 0 -> Z.of_nat (length (_packets q)) < 2 ^ 32 ->
  drop n (_packets q) = ps -> Forall sendable ps -> length ps = fuel -> (n <= length (_packets q))%nat ->
  only_sent r p0 w0 w q -> _inst q = p0 -> same_call q0 q -> (ps = [] -> isSent q = true) ->
  exists sent rest w' q', split_send E fuel r w = Ok w' /\ ps = sent ++ rest /\ only_sent r p0 w0 w' q' /\
    log w' = log w ++ map SendTimingReq sent /\ same_call q0 q' /\
    isSent q' = (match rest with [] => true | _ => false end).
Proof.
  induction fuel as [|fuel IH]; intros w q q0 ps n Hq Hl Hss [i Hi] Hout Hrec Hlen Hps Hs Hf Hn Hsent Hp0 Hcall Hall.
  - assert (ps = []) as -> by by apply nil_length_inv.
    assert (n = length (_packets q)) as ->.
    { apply (f_equal length) in Hps. rewrite length_drop in Hps. simpl in Hps. lia. }
    exists [], [], w, q. cbn [split_send]. rewrite (req_at_Ok _ _ _ Hq). cbn [rbind]. rewrite Hrec, Hout.
    rewrite uwrap_small by (unfold in_word; lia). rewrite (proj2 (Z.ltb_ge _ _)) by lia.
    split_and!; [done..| |done|by apply Hall]. by rewrite app_nil_r.
  - destruct ps as [|p ps]; [done|]. cbn [split_send]. rewrite (req_at_Ok _ _ _ Hq). cbn [rbind]. rewrite Hrec, Hout.
    rewrite uwrap_small by (unfold in_word; lia).
    assert (_packets q !! n = Some p) as Hp.
    { rewrite <- (Nat.add_0_r n), <- lookup_drop, Hps. done. }
    pose proof (lookup_lt_Some _ _ _ Hp) as Hlt.
    rewrite (proj2 (Z.ltb_lt _ _)) by lia. replace (Z.to_nat (0 + Z.of_nat n)) with n by lia.
    apply Forall_cons in Hs as [Hsp Hs]. destruct Hsent as (Hr & Hu & He & i0 & Hin).
    destruct (trySendPacket_load r n w q i p) as
      (ok & w1 & q1 & -> & (Hr1 & Hu1 & He1 & i1 & Hin1) & Hlog1 & Hsent1 & Hcall1 & Hout1 & Hrest1); [done..|].
    assert (only_sent r p0 w0 w1 q1) as Hos.
    { unfold only_sent. rewrite Hr1, Hr, insert_insert_eq, Hu1, He1. split_and!; [done..|].
      exists i1. rewrite Hin1, Hin, Hp0, insert_insert_eq. done. }
    cbn [rbind]. destruct ok.
    2:{ exists [], (p :: ps), w1, q1. split_and!; [done..| |by etrans|done]. by rewrite Hlog1. }
    rewrite (req_at_Ok r q1) by (rewrite Hr1; apply lookup_insert_eq). cbn [rbind].
    pose proof Hcall1 as (C1 & C2 & C3 & C4 & C5 & C6 & C7).
    set (q2 := set_outstanding (u32 (_numOutstandingPackets q1 + 1)) q1). set (w2 := set_req r q2 w1).
    destruct (IH w2 q2 q0 ps (S n)) as (sent & rest & w' & q' & H1 & H2 & H3 & H4 & H5 & H6).
    + unfold w2, set_req. simpl. apply lookup_insert_eq.
    + unfold q2. by rewrite <- Hl, <- C1.
    + unfold q2. simpl. by apply C6.
    + unfold w2, q2. simpl. rewrite C3, Hin1, lookup_insert_eq. done.
    + unfold q2. simpl. rewrite Hout1, Hout, uwrap_small by (unfold in_word; lia). lia.
    + unfold q2. simpl. congruence.
    + unfold q2. simpl. lia.
    + unfold q2. simpl. apply list_eq. intros k. rewrite lookup_drop, Hrest1 by lia.
      rewrite (drop_S _ p n Hp) in Hps. injection Hps as <-. by rewrite lookup_drop.
    + done.
    + simpl in Hf. lia.
    + unfold q2. simpl. lia.
    + unfold w2, q2, only_sent in *. simpl. destruct Hos as (-> & -> & -> & i2 & ->).
      rewrite insert_insert_eq. split_and!; [done..|by exists i2].
    + unfold q2. simpl. congruence.
    + etrans; [exact Hcall|]. exact Hcall1.
    + intros _. exact Hsent1.
    + exists (p :: sent), rest, w', q'. rewrite H1, H2. split_and!; [done..| |done|done].
      rewrite H4. unfold w2. simpl. rewrite Hlog1, <- app_assoc. done.
Qed.

(** All the packets of a load: the ones that go are logged in order, and the request
    counts as sent exactly when all have gone. *)
Lemma send_load r w q :
  reqs w !! r = Some q -> isLoad q = true -> _senderState q <> None -> is_Some (insts w !! _inst q) ->
  _packets q <> [] -> (isSplit q = false -> length (_packets q) = 1%nat) -> Forall sendable (_packets q) ->
  _numOutstandingPackets q = 0 -> numReceivedPackets q = 0 -> Z.of_nat (length (_packets q)) < 2 ^ 32 ->
  exists sent rest w' q', sendPacketToCache E r w = Ok w' /\ _packets q = sent ++ rest /\
    only_sent r (_inst q) w w' q' /\ log w' = log w ++ map SendTimingReq sent /\ same_call q q' /\
    isSent q' = (match rest with [] => true | _ => false end).
Proof.
  intros Hq Hl Hss [i Hi] Hne Hone Hs Hout Hrec Hlen. destruct (isSplit q) eqn:Hsp.
  - unfold sendPacketToCache. rewrite (req_at_Ok _ _ _ Hq). cbn [rbind]. rewrite Hsp.
    destruct (split_send_load r w (_inst q) (length (_packets q)) w q q (_packets q) 0)
      as (sent & rest & w' & q' & H); try done; [lia| |].
    + unfold only_sent. split_and!; [by rewrite insert_id|done..|]. exists i. by rewrite insert_id.
    + exists sent, rest, w', q'. exact H.
  - destruct (_packets q) as [|p [|]] eqn:Hp; [done| |by specialize (Hone eq_refl)].
    apply Forall_cons in Hs as [Hs _].
    destruct (single_send_load r w q i p) as (ok & w' & q' & H1 & H2 & H3 & H4 & H5); [done..|].
    exists (if ok then [p] else []), (if ok then [] else [p]), w', q'. by destruct ok; split_and!.
Qed.
End send.

(** ** Going to memory *)

Section read.
Context (cpu : BaseCPU.t) (E : Env) (pid k d : Z).
Hypothesis Hk : 0 <= k < 32.
Hypothesis Hline : BaseCPU.cacheLineSize cpu = 2 ^ k.

(** A translated load whose packets have not been built. *)
Definition translated_load (q : LSQRequest.t) (rq : Request.t) (rqs : list Request.t) : Prop :=
  isLoad q = true /\ _senderState q = None /\ _packets q = [] /\ _requests q = rq :: rqs /\
  Forall (LsqSpec.translated d) (rq :: rqs) /\ Forall (fun x => Request.specStatAdded x = false) (rq :: rqs) /\
  _numOutstandingPackets q = 0 /\ numReceivedPackets q = 0 /\ Z.of_nat (length rqs) + 1 < 2 ^ 32 /\
  if isSplit q then _fault q = replicate (S (length rqs)) None /\
                    (exists main, mainReq q = Some main /\ LsqSpec.translated d main)
  else rqs = [].

(** The packets that go, and the load that is blocked if not all go. *)
Definition sent_actions (p : DynInstPtr) (sent rest : list Packet.t) : list Action :=
  map SendTimingReq sent ++ match rest with [] => [] | _ => [BlockMemInst p] end.

Lemma build_ok w r q p i rq rqs st :
  reqs w !! r = Some q -> _inst q = p -> insts w !! p = Some i -> translated_load q rq rqs ->
  exists ps m sht q2, buildPackets cpu pid r (set_req r (LSQRequest.senderState st q) w)
      = Ok (mkW (<[p := DynInst.with_SHTpkt sht i]> (insts w)) (<[r := q2]> (reqs w)) (nextReq w) (ports w)
              (unit w) (htm_cpt w) (globalHtmUid w) (events w) (log w)) /\
    q2 = set_packets ps m (LSQRequest.senderState st q) /\ Forall2 (LsqSpec.packet_of q i) (rq :: rqs) ps.
Proof.
  intros Hq Hp Hi (Hl & Hss & Hpk & Hrs & Htr & Hsp & Ho & Hn & Hlen & Hsplit).
  set (q1 := LSQRequest.senderState st q).
  assert (LsqSpec.ready d (insts w) q1 i rq rqs) as Hrdy.
  { unfold LsqSpec.ready, q1. simpl. rewrite Hp, Hpk. split_and!; done. }
  unfold buildPackets. rewrite (req_at_Ok r q1) by (simpl; apply lookup_insert_eq). cbn [rbind].
  change (insts (set_req r q1 w)) with (insts w).
  assert (_inst q1 = p) as Hp1 by done.
  destruct (isSplit q1) eqn:Hs.
  - destruct (LsqSpec.split_buildPackets_ok cpu k d Hk Hline pid (insts w) q1 i rq rqs Hrdy Hs) as (ps & m & sht & -> & Hps & _).
    exists ps, m, (Some sht). eexists. cbn [rbind]. rewrite Hp1. split_and!; [|reflexivity|exact Hps].
    unfold set_req, with_reqs, with_insts. simpl. by rewrite insert_insert_eq.
  - destruct (LsqSpec.single_buildPackets_ok cpu k d Hk Hline pid (insts w) q1 i rq rqs Hrdy Hs) as (pk & sht & -> & Hpk1 & _).
    exists [pk], (_mainPacket q1), (Some sht). eexists. cbn [rbind]. rewrite Hp1. split_and!; [|reflexivity|].
    + unfold set_req, with_reqs, with_insts. simpl. by rewrite insert_insert_eq.
    + destruct Hrdy as (_ & _ & _ & _ & _ & Hrs1). rewrite Hs in Hrs1. subst rqs. constructor; [exact Hpk1|constructor].
Qed.

Lemma access_memory_ok w r q p i rq rqs main n load_idx :
  reqs w !! r = Some q -> _inst q = p -> insts w !! p = Some i -> translated_load q rq rqs ->
  Request.getSize main = Ok n -> Request.isHTMCmd main = false ->
  exists sent rest w', access_memory cpu E pid r load_idx p main w = Ok w' /\
    Forall2 (LsqSpec.packet_of q (alloc_memData n i)) (rq :: rqs) (sent ++ rest) /\
    log w' = log w ++ sent_actions p sent rest /\ events w' = events w /\ unit w' = unit w.
Proof.
  intros Hq Hp Hi Htl Hn Hhtm. unfold access_memory. rewrite Hn. cbn [rbind].
  rewrite (on_inst_Ok _ _ i w Hi). cbn [rbind]. rewrite Hhtm. cbn [rbind].
  set (w1 := set_inst p (alloc_memData n i) w). rewrite (req_at_Ok r q) by exact Hq. cbn [rbind].
  pose proof Htl as (Hl & Hss & Hpk & Hrs & Htr & Hsp & Ho & Hrec & Hlen & Hsplit). rewrite Hss.
  match goal with |- context [LSQRequest.senderState ?s q] => set (st := s) end.
  destruct (build_ok w1 r q p (alloc_memData n i) rq rqs st) as (ps & m & sht & q2 & -> & Hq2 & Hps);
    [done|done|unfold w1; simpl; apply lookup_insert_eq|done|]. cbn [rbind].
  set (w2 := mkW _ _ _ _ _ _ _ _ _).
  assert (length ps = S (length rqs)) as Hlps by (by rewrite <- (Forall2_length _ _ _ Hps)).
  assert (_packets q2 = ps /\ isLoad q2 = true /\ isSplit q2 = isSplit q /\ _inst q2 = p /\ _senderState q2 <> None
    /\ _numOutstandingPackets q2 = 0 /\ numReceivedPackets q2 = 0) as (P1 & P2 & P3 & P4 & P5 & P6 & P7).
  { rewrite Hq2. split_and!; done. }
  destruct (send_load E r w2 q2) as (sent & rest & w3 & q3 & Hsend & Happ & (Hr3 & Hu3 & He3 & i3 & Hi3) & Hlog & Hcall & Hsent).
  - unfold w2. simpl. apply lookup_insert_eq.
  - done.
  - done.
  - rewrite P4. unfold w2. simpl. rewrite lookup_insert_eq. done.
  - rewrite P1. intros ->. simpl in Hlps. lia.
  - rewrite P3, P1. intros Hs. rewrite Hs in Hsplit. rewrite Hlps, Hsplit. done.
  - rewrite P1. clear -Hps Htr Hsp. revert Htr Hsp. induction Hps as [|x y xs ys Hxy Hps IH]; intros Htr Hsp; constructor.
    + apply Forall_cons in Htr as [Ht _], Hsp as [Hs _]. destruct Hxy as (_ & Hreq & _).
      unfold sendable. rewrite Hreq. split; [apply Ht|done].
    + apply Forall_cons in Htr as [_ Ht], Hsp as [_ Hs]. by apply IH.
  - done.
  - done.
  - rewrite P1, Hlps. lia.
  - rewrite Hsend. cbn [rbind]. rewrite (req_at_Ok r q3) by (rewrite Hr3; apply lookup_insert_eq). cbn [rbind].
    rewrite P1 in Happ. exists sent, rest. rewrite <- Happ. rewrite Hsent. unfold sent_actions.
    destruct rest as [|x rest].
    + eexists. split; [reflexivity|]. split_and!; [done| |done|done]. rewrite Hlog, app_nil_r. done.
    + unfold blockMemInst. rewrite (on_inst_Ok _ _ i3)
        by (simpl; rewrite Hi3, P4; apply lookup_insert_eq).
      eexists. split; [reflexivity|]. split_and!; [done| |done|done]. simpl. rewrite Hlog, <- app_assoc. done.
Qed.


(** ** Reading *)

(** A load [p] at position [pos] of the load queue, about to be read with its request
    [r]: the [n] bytes at [va], no special access. Positions [a, b) of the store queue
    hold the older stores that have not been written back. *)
Record load_ctx (w : World) (r : Z) (pos : nat) (p : DynInstPtr) (i : DynInst.t) (q : LSQRequest.t)
    (main : Request.t) (va n : Z) (a b : nat) : Prop := {
  lc_lq : CircularQueue.wf (loadQueue (unit w));
  lc_sq : CircularQueue.wf (storeQueue (unit w));
  lc_entry : exists e, lq w !! pos = Some e /\ LSQEntry.inst e = Some p;
  lc_inst : insts w !! p = Some i;
  lc_fresh : DynInst.isExecuted i = false /\ DynInst.inHtmTransactionalState i = false;
  lc_saved : DynInst.savedReq i = Some r;
  lc_buffer : DynInst.memData i = [] \/ Z.of_nat (length (DynInst.memData i)) = n;
  lc_req : reqs w !! r = Some q /\ _inst q = p;
  lc_idle : isAnyOutstandingRequest q = false /\ Flags.isSet (flags q) WritebackScheduled = false;
  lc_main : mainRequest q = Ok (Some main);
  lc_vaddr : Request.getVaddr main = Ok va;
  lc_size : Request.getSize main = Ok n;
  lc_bounds : 0 <= va /\ 0 < n < 2 ^ 31 /\ va + n < 2 ^ 64;
  lc_plain : Request.isStrictlyOrdered main = false /\ Request.isLLSC main = false /\
             Request._localAccessor main = None /\ Request.isHTMCmd main = false;
  lc_range : DynInst.sqIt i = at_pos (storeQueue (unit w)) b /\
             storeWBIt (unit w) = at_pos (storeQueue (unit w)) a /\ (a <= b <= length (sq w))%nat;
  lc_stores : forall j e, (a <= j < b)%nat -> sq w !! j = Some e -> store_ok w (DynInst.seqNum i) e;
  lc_stall : stalled (unit w) = true -> exists j e li,
    stallingLoadIdx (unit w) = lq_head w + Z.of_nat j /\ lq w !! j = Some e /\ inst_of (insts w) e = Some li
}.

(** The older stores, the oldest first. *)
Definition older (w : World) (a b : nat) : list SQEntry.t := slice a (b - a) (sq w).

Definition forwarded (w w' : World) (p : DynInstPtr) (va n : Z) (a b : nat) : Prop :=
  exists bytes pkt, events w' = events w ++ [(p, pkt)] /\ Packet.data pkt = Some bytes /\
    Z.of_nat (length bytes) = n /\ log w' = log w /\
    forall m k, 0 <= k < n -> bytes !! Z.to_nat k = Some (after w (older w a b) m (va + k)).

Definition waits (w w' : World) (r : Z) (p : DynInstPtr) (va n : Z) (a b : nat) : Prop :=
  log w' = log w ++ [RescheduleMemInst p] /\ events w' = events w /\ reqs w' = delete r (reqs w) /\
  stalled (unit w') = true /\
  exists j e st main, (a <= j < b)%nat /\ sq w !! j = Some e /\ resolve w e = Some (st, main) /\
    DynInst.effAddr st < va + n /\ va < DynInst.effAddr st + SQEntry.size e.

Definition goes_to_memory (w w' : World) (q : LSQRequest.t) (p : DynInstPtr) (i : DynInst.t) (va n : Z) (a b : nat)
    (rqs : list Request.t) : Prop :=
  (forall m k, 0 <= k < n -> after w (older w a b) m (va + k) = m (va + k)) /\
  events w' = events w /\
  exists sent rest, Forall2 (LsqSpec.packet_of q (alloc_memData n i)) rqs (sent ++ rest) /\
    log w' = log w ++ sent_actions p sent rest.

Lemma fill_memData_bytes bytes i n :
  Z.of_nat (length bytes) = n -> DynInst.memData i = [] \/ Z.of_nat (length (DynInst.memData i)) = n ->
  DynInst.memData (fill_memData bytes i) = bytes.
Proof.
  intros Hl Hb. unfold fill_memData. simpl. destruct (DynInst.memData i) as [|x l] eqn:Hm; [done|].
  destruct Hb as [|Hb]; [done|]. apply Packet.splice_0_all. lia.
Qed.

Lemma forward_ok w w1 r pos p i q main va n a b e st :
  load_ctx w r pos p i q main va n a b ->
  insts w1 = insts w -> reqs w1 = reqs w -> events w1 = events w -> log w1 = log w ->
  forall j, (a <= j < b)%nat -> sq w !! j = Some e -> inst_of (insts w) (SQEntry.base e) = Some st ->
  classify w va n false e = FullAddrRangeCoverage ->
  (forall k f, (j < k < b)%nat -> sq w !! k = Some f -> classify w va n false f = NoAddrRangeCoverage) ->
  exists w', forward pid r p main e st w1 = Ok w' /\ forwarded w w' p va n a b.
Proof.
  intros C Hi1 Hr1 He1 Hl1 j Hj He Hst Hfull Hno. destruct C.
  destruct lc_bounds0 as (Hva & Hn & Hw), lc_fresh0 as [_ Hhtm], lc_req0 as [Hq Hp], lc_idle0 as [Hidle Hwb],
    lc_plain0 as (_ & _ & _ & Hcmd), lc_range0 as (_ & _ & Hab).
  assert (store_ok w (DynInst.seqNum i) e) as Hse by by eapply lc_stores0.
  destruct (classify_Full w va n false (DynInst.seqNum i) e st) as (Ho & Hon & _); [lia|lia|done|exact Hse|done|done|].
  pose proof Hse as (_ & _ & Hz & _).
  destruct (forwarded_bytes w va n false (DynInst.seqNum i) a b j e st (fun _ => 0)) as (bytes & Hby & Hlen & _); try done; try lia.
  unfold forward. rewrite lc_vaddr0. cbn [rbind]. rewrite lc_size0. cbn [rbind].
  rewrite swrap_small by lia. rewrite Hby. cbn [rbind].
  assert (insts w1 !! p = Some i) as Hip by by rewrite Hi1.
  rewrite (on_inst_Ok _ _ i w1 Hip). cbn [rbind].
  rewrite (inst_at_Ok p (fill_memData bytes i)) by (simpl; apply lookup_insert_eq). cbn [rbind].
  unfold Packet.make at 1. rewrite Hcmd. cbn [negb orb rbind].
  match goal with |- context [Packet.dataStatic _ ?x] => set (pk := x) end.
  assert (Flags.noneSet (Packet.flags pk) (Z.lor Packet.STATIC_DATA Packet.DYNAMIC_DATA) = true) as Hns.
  { unfold pk. cbn [Packet.flags]. unfold Packet.set_if.
    destruct (Request.hasPaddr main), (Request.hasSize main), (Request.isNoFill main); reflexivity. }
  unfold Packet.dataStatic. rewrite Hns. cbn [rbind].
  change (DynInst.inHtmTransactionalState (fill_memData bytes i)) with (DynInst.inHtmTransactionalState i).
  rewrite Hhtm. cbn [rbind]. rewrite (req_at_Ok r q) by (simpl; by rewrite Hr1). cbn [rbind].
  rewrite Hidle. cbn [rbind]. unfold schedule_writeback.
  rewrite (inst_at_Ok p (fill_memData bytes i)) by (simpl; apply lookup_insert_eq). cbn [rbind].
  change (DynInst.savedReq (fill_memData bytes i)) with (DynInst.savedReq i). rewrite lc_saved0.
  rewrite (req_at_Ok r q) by (simpl; by rewrite Hr1). cbn [rbind]. unfold writebackScheduled. rewrite Hwb. cbn [negb rbind].
  eexists. split; [reflexivity|]. exists bytes. eexists. simpl. rewrite He1.
  split_and!; [reflexivity| |lia|done|].
  - simpl. f_equal. apply (fill_memData_bytes bytes i n); [lia|done].
  - intros m k' Hk'. destruct (forwarded_bytes w va n false (DynInst.seqNum i) a b j e st m) as (bytes' & Hby' & _ & Hbs); try done; try lia.
    assert (bytes' = bytes) as -> by congruence. by apply Hbs.
Qed.

Lemma stall_ok w w1 r pos p i q main va n a b e st l1 :
  load_ctx w r pos p i q main va n a b ->
  w1 = upd (with_loadQueue l1) w -> CircularQueue.wf l1 ->
  (exists e0, CircularQueue.contents l1 = <[pos := LSQEntry.setRequest (Some r) e0]> (lq w) /\ lq w !! pos = Some e0) ->
  CircularQueue._head l1 = lq_head w ->
  forall j, (a <= j < b)%nat -> sq w !! j = Some e -> inst_of (insts w) (SQEntry.base e) = Some st ->
  classify w va n false e = PartialAddrRangeCoverage ->
  exists w', stall_load r (lq_head w + Z.of_nat pos) p e st w1 = Ok w' /\ waits w w' r p va n a b.
Proof.
  intros C Hw1 Hwf1 (e0 & Hl1 & He0) Hh1 j Hj He Hst Hpart. destruct C.
  destruct lc_bounds0 as (Hva & Hn & Hw), lc_req0 as [Hq Hp], lc_idle0 as [Hidle _], lc_range0 as (_ & _ & Hab).
  assert (store_ok w (DynInst.seqNum i) e) as (Hv & Hc & Hz & st' & Hst' & _ & Hcont) by by eapply lc_stores0.
  assert (st' = st) as -> by congruence.
  unfold stall_load. rewrite Hc. rewrite (inst_at_Ok p i) by by rewrite Hw1. cbn [rbind].
  assert (exists old, (if stalled (unit w1) then
      let* le := lq_get (stallingLoadIdx (unit w1)) w1 in
      let* lp := LSQEntry.instruction le in
      let* li := inst_at lp w1 in Ok (DynInst.seqNum i <? DynInst.seqNum li) else Ok true) = Ok old /\
      (old = false -> stalled (unit w1) = true)) as (old & -> & Hold).
  { rewrite Hw1. simpl. destruct (stalled (unit w)) eqn:Hs; [|by exists true].
    destruct (lc_stall0 eq_refl) as (j' & e' & li & Hidx & He' & Hli). rewrite Hidx. unfold lq_get. simpl.
    rewrite <- Hh1. destruct (decide (j' = pos)) as [->|Hne].
    - rewrite (get_contents l1 pos (LSQEntry.setRequest (Some r) e0) Hwf1)
        by (rewrite Hl1; apply list_lookup_insert_eq; by eapply lookup_lt_Some).
      cbn [rbind]. unfold LSQEntry.instruction. simpl. assert (e' = e0) as -> by congruence.
      unfold inst_of in Hli. destruct (LSQEntry.inst e0) as [lp|]; [|done]. cbn [rbind]. simpl in Hli.
      rewrite (inst_at_Ok lp li) by done. cbn [rbind]. by eexists.
    - rewrite (get_contents l1 j' e' Hwf1) by (rewrite Hl1; by rewrite list_lookup_insert_ne).
      cbn [rbind]. unfold LSQEntry.instruction. unfold inst_of in Hli. destruct (LSQEntry.inst e') as [lp|]; [|done].
      cbn [rbind]. simpl in Hli. rewrite (inst_at_Ok lp li) by done. cbn [rbind]. by eexists. }
  cbn [rbind]. set (w2 := if old then _ else w1).
  assert (insts w2 = insts w /\ reqs w2 = reqs w /\ log w2 = log w /\ events w2 = events w /\
    loadQueue (unit w2) = l1 /\ stalled (unit w2) = true) as (I2 & R2 & L2 & V2 & Q2 & S2).
  { unfold w2. destruct old; rewrite Hw1; split_and!; try done. rewrite Hw1 in Hold. by apply Hold. }
  clearbody w2. unfold reschedule, rescheduleMemInst. rewrite (on_inst_Ok _ _ i) by (simpl; by rewrite I2). cbn [rbind].
  rewrite (on_inst_Ok _ _ (DynInst.clearCanIssue (DynInst.set_flag DynInst.TranslationCompleted false
    (DynInst.set_flag DynInst.TranslationStarted false i)))) by (simpl; apply lookup_insert_eq). cbn [rbind].
  unfold discard, release. rewrite (req_at_Ok r q) by (simpl; by rewrite R2). cbn [rbind]. rewrite Hidle. cbn [negb].
  unfold delete_request. rewrite (req_at_Ok r q) by (simpl; by rewrite R2). cbn [rbind]. rewrite Hidle. cbn [negb].
  rewrite Hp. match goal with |- context [on_inst p _ ?x] => erewrite (on_inst_Ok p _ _ x) by (simpl; apply lookup_insert_eq) end.
  cbn [rbind]. match goal with |- context [on_lq _ _ ?x] => set (w3 := x) end.
  assert (loadQueue (unit w3) = l1) as Q3 by (unfold w3; simpl; exact Q2).
  destruct (on_lq_Ok w3 pos (LSQEntry.setRequest (Some r) e0) (LSQEntry.setRequest None)) as (l4 & H4 & _).
  { by rewrite Q3. }
  { unfold lq. rewrite Q3, Hl1. apply list_lookup_insert_eq. by eapply lookup_lt_Some. }
  unfold lq_head at 1 in H4. rewrite Q3, Hh1 in H4. rewrite H4. eexists. split; [reflexivity|].
  unfold waits, w3. simpl. rewrite L2, V2, R2, S2. split_and!; try done.
  unfold classify in Hpart. destruct (resolve w e) as [[st1 m1]|] eqn:Hr; [|done].
  destruct (takes_part e st1 m1) eqn:Ht; [|done]. unfold takes_part in Ht.
  apply andb_true_iff in Ht as [[Hz0 _]%andb_true_iff _]. destruct (Z.eqb_spec (SQEntry.size e) 0) as [|Hz1]; [done|].
  destruct (Hcont Hz1) as (m' & Hr' & _ & Ha & Hw' & _). rewrite coverage_exact in Hpart by (simplify_eq; lia).
  destruct (_ || _) eqn:Hdis; [done|]. exists j, e, st1, m1. apply orb_false_iff in Hdis as [D1 D2].
  split_and!; try done; lia.
Qed.


(** Up to the search, a plain load only leaves its request in its entry. *)
Lemma read_search w r pos p i q main va n a b :
  load_ctx w r pos p i q main va n a b ->
  exists l1 e0 found,
    CircularQueue.wf l1 /\ CircularQueue._head l1 = lq_head w /\ lq w !! pos = Some e0 /\
    CircularQueue.contents l1 = <[pos := LSQEntry.setRequest (Some r) e0]> (lq w) /\
    search_result w va n false a b found /\
    read cpu E pid r (lq_head w + Z.of_nat pos) w =
      (let* w' := match found with
                  | Some (_, e, st, FullAddrRangeCoverage) => forward pid r p main e st (upd (with_loadQueue l1) w)
                  | Some (_, e, st, _) => stall_load r (lq_head w + Z.of_nat pos) p e st (upd (with_loadQueue l1) w)
                  | None => access_memory cpu E pid r (lq_head w + Z.of_nat pos) p main (upd (with_loadQueue l1) w)
                  end in Ok (None, w')).
Proof.
  intros C. destruct C. destruct lc_entry0 as (e0 & He0 & Hp0), lc_fresh0 as [Hex _], lc_req0 as [Hq Hp],
    lc_plain0 as (Hso & Hll & Hla & Hcmd), lc_range0 as (Hsqit & Hwbit & Hab).
  destruct (on_lq_Ok w pos e0 (LSQEntry.setRequest (Some r)) lc_lq0 He0) as (l1 & Hon & Hwf1 & Hc1 & _ & Hh1 & _ & _).
  set (w1 := upd (with_loadQueue l1) w) in *.
  destruct (search_stores_ok w1 main va n (DynInst.seqNum i) a (b - a)) as (found & Hs & Hres); try done.
  { change (sq w1) with (sq w). lia. }
  { intros j e Hj He. apply (lc_stores0 j e); [lia|done]. }
  replace (a + (b - a))%nat with b in * by lia. rewrite Hll in Hres.
  exists l1, e0, found. split_and!; try done.
  unfold read. rewrite Hon. cbn [rbind]. fold w1.
  assert (lq_get (lq_head w + Z.of_nat pos) w1 = Ok (LSQEntry.setRequest (Some r) e0)) as ->.
  { unfold lq_get. simpl. rewrite <- Hh1. apply get_contents; [done|]. rewrite Hc1.
    apply list_lookup_insert_eq. by eapply lookup_lt_Some. }
  cbn [rbind]. change (LSQEntry.inst (LSQEntry.setRequest (Some r) e0)) with (LSQEntry.inst e0). rewrite Hp0.
  rewrite (inst_at_Ok p i) by done. cbn [rbind]. rewrite Hex. cbn [negb]. rewrite (req_at_Ok r q) by done. cbn [rbind].
  rewrite lc_main0. cbn [rbind]. unfold too_early. rewrite Hso. cbn [andb]. rewrite Hll. cbn [rbind]. rewrite Hla.
  assert (Request.isHTMStart main || Request.isHTMCommit main = false) as ->.
  { revert Hcmd. unfold Request.isHTMCmd, Request.isHTMStart, Request.isHTMCommit.
    destruct (Flags.isSet _ Request.HTM_START), (Flags.isSet _ Request.HTM_COMMIT); done. }
  cbn [andb]. rewrite (inst_at_Ok p i) by done. cbn [rbind].
  change (storeWBIt (unit w1)) with (storeWBIt (unit w)). rewrite Hsqit, Hwbit.
  unfold CircularQueue.it_leb, CircularQueue.it_ltb. cbn [at_pos CircularQueue._idx].
  rewrite (proj2 (Z.ltb_ge _ _)) by lia. cbn [negb].
  replace (Z.to_nat _) with (b - a)%nat by lia.
  change (storeQueue (unit w1)) with (storeQueue (unit w)) in Hs. rewrite Hs. cbn [rbind]. done.
Qed.

(** C18. A load gets the latest data, at its first read. The load is translated and has no
    packets yet (it is not retried after the cache refused it), and is not strictly
    ordered, load-linked, transactional or local; the load and the older stores that have
    not been written back have positive sizes below 2^31 (a store may still have none) and
    end strictly below 2^64 ([store_at_top_missed] shows that the claim fails for a store
    that ends there). Then [LSQUnit::read] returns, and does one of three things, decided
    by the older stores that have their address and have not been written back. It takes
    the bytes from the queue: then they are, byte for byte, what memory holds after all
    these stores, in program order, whatever it held before, and no packet is sent. Or it
    waits: it is rescheduled and its request is gone, nothing is sent and no data are
    written back, and one of the stores shares a byte with it. Or it goes to memory: then
    none of these stores changes a byte of it, and the packets of its requests go to the
    cache in order, the load being blocked if not all can go. *)
Theorem load_gets_latest w r pos p i q main va n a b rq rqs :
  load_ctx w r pos p i q main va n a b -> translated_load q rq rqs ->
  exists w', read cpu E pid r (lq_head w + Z.of_nat pos) w = Ok (None, w') /\
    (forwarded w w' p va n a b \/ waits w w' r p va n a b \/ goes_to_memory w w' q p i va n a b (rq :: rqs)).
Proof.
  intros C Htl. destruct (read_search _ _ _ _ _ _ _ _ _ _ _ C) as (l1 & e0 & found & Hwf1 & Hh1 & He0 & Hc1 & Hres & ->).
  set (w1 := upd (with_loadQueue l1) w). destruct found as [[[[it e] st] c]|].
  - destruct Hres as (j & Hj & He & Hst & Hcl & Hc & Hno). destruct c; [| |done].
    + destruct (stall_ok w w1 r pos p i q main va n a b e st l1 C eq_refl Hwf1 ltac:(eauto) Hh1 j Hj He Hst Hcl) as (w' & -> & H).
      exists w'. auto.
    + destruct (forward_ok w w1 r pos p i q main va n a b e st C eq_refl eq_refl eq_refl eq_refl j Hj He Hst Hcl Hno) as (w' & -> & H).
      exists w'. auto.
  - destruct C. destruct lc_req0 as [Hq Hp], lc_plain0 as (_ & _ & _ & Hcmd), lc_bounds0 as (Hva & Hn & Hw), lc_range0 as (_ & _ & Hab).
    destruct (access_memory_ok w1 r q p i rq rqs main n (lq_head w + Z.of_nat pos)) as (sent & rest & w' & -> & Hps & Hlog & Hev & _); try done.
    exists w'. split; [done|]. right. right. split_and!; [|done|by exists sent, rest].
    intros m k' Hk'. apply (after_untouched w va n false (DynInst.seqNum i)); try lia.
    + apply Forall_lookup. intros x f Hf. unfold older in Hf. rewrite lookup_slice in Hf. case_decide; [|done].
      eapply lc_stores0; [|done]. lia.
    + apply Forall_lookup. intros x f Hf. unfold older in Hf. rewrite lookup_slice in Hf. case_decide; [|done].
      eapply Hres; [|done]. lia.
Qed.

End read.
End LsqRead.
