(* ===== verification/LsqExamples.v ===== *)
(** * A store and a load in the queues

    A core with one thread, four entries per queue and lines of 64 bytes: a store of 8
    bytes at 0x2000 and a younger load of 4 bytes at 0x2004. The MMU adds 0x10000 and
    the cache takes every packet. *)

From stdpp Require Import gmap sorting.
From S2P Require Import Prelude.
From S2P Require Import CircularQueue BaseUtil MemCmd Request Packet DynInst Rob Lsq LsqFacts LsqSpec LsqUnit LsqUnitFacts LsqForward LsqRead.

Local Open Scope Z_scope.

Module LsqExamples.
Import LSQRequest LSQUnit LsqUnitFacts LsqForward LsqRead.

Definition static (ld st : bool) : StaticInst.t :=
  StaticInst.mk ld st false false false false false false false false false false false false false false.
Definition store : DynInst.t := DynInst.make 5 0 0x400 (static false true).
Definition load : DynInst.t := DynInst.make 6 0 0x404 (static true false).
Definition cpu : BaseCPU.t := BaseCPU.mk true false false true 64 3 [0] [].
Definition params : Params := mkParams 0 true true.
Definition env : Env := mkEnv
  (fun i => if DynInst.isLoad i then Push true [] 4 0x2004 0 None None (replicate 4 true)
            else Push false [1; 2; 3; 4; 5; 6; 7; 8] 8 0x2000 0 None None (replicate 8 true))
  (fun _ _ => None)
  (fun _ r => Some (None, Request.setPaddr (Request._vaddr r + 0x10000) r)) (fun _ _ => true).
Definition start : World :=
  mkW {[1 := store; 2 := load]} ∅ 0 (mkPorts false 2 0 2 0) (make 4 4) None 0 [] [].
Definition domain : Z -> Z := fun _ => 7.
Definition context : Z -> Z := fun _ => 0.

Definition inserted : res World := let* w := insert 1 start in insert 2 w.

(** The store has executed and the load is translated. *)
Definition before_read : res World :=
  let* w := inserted in
  let* (_, w) := executeStore params cpu env domain context 0 0 0 1 w in
  let* (r, w) := new_request cpu domain context 0 0 2 true 4 0x2004 0 None None (replicate 4 true) false w in
  let* w := on_inst 2 (fun i => DynInst.with_fault None (DynInst.setRequest i)) w in
  let* w := initiateTranslation cpu env domain context 0 r w in
  on_inst 2 (fun i => DynInst.set_effAddrValid true (DynInst.with_eff 0x2004 4 i)) w.

Definition world (r : res World) : World := match r with Ok w => w | Err _ => start end.

Definition inst_in (r : res World) (p : DynInstPtr) : DynInst.t := default store (insts (world r) !! p).
Definition request_in (r : res World) (k : Z) : LSQRequest.t :=
  default (LSQRequest.make 0 store false 0 0 0 None None false [] 0) (reqs (world r) !! k).
Definition requests_of (q : LSQRequest.t) : Request.t := default Request.default (head (_requests q)).

(** The only entry of the store queue. *)
Definition store_entry : SQEntry.t := default SQEntry.empty (sq (world before_read) !! 0%nat).

Lemma store_entry_ok : store_ok (world before_read) 6 store_entry.
Proof.
  split_and!; [by vm_compute|by vm_compute|by vm_compute|by vm_compute|].
  exists (inst_in before_read 1). split_and!; [by vm_compute|by vm_compute|]. intros _.
  exists (requests_of (request_in before_read 0)). split_and!; try by vm_compute.
  intros _ _. right. by vm_compute.
Qed.

Lemma load_before_read :
  load_ctx (world before_read) 1 0 2 (inst_in before_read 2) (request_in before_read 1)
    (requests_of (request_in before_read 1)) 0x2004 4 0 1.
Proof.
  split.
  - by vm_compute.
  - vm_compute. done.
  - exists (LSQEntry.mk (Some 2) (Some 1) 0 true). split; by vm_compute.
  - by vm_compute.
  - split; by vm_compute.
  - by vm_compute.
  - left. by vm_compute.
  - split; by vm_compute.
  - split; by vm_compute.
  - by vm_compute.
  - by vm_compute.
  - by vm_compute.
  - lia.
  - split_and!; by vm_compute.
  - split_and!; [by vm_compute|by vm_compute|lia|]. unfold sq. rewrite CircularQueue.length_contents by (vm_compute; done). vm_compute. lia.
  - intros j e Hj He. assert (j = 0%nat) as -> by lia.
    assert (e = store_entry) as -> by (unfold store_entry; by rewrite He). exact store_entry_ok.
  - by vm_compute.
Qed.

(** The load gets the upper four bytes of the store, without a packet. *)
Lemma load_gets_latest_witness :
  exists w', read cpu env 0 1 (lq_head (world before_read) + Z.of_nat 0) (world before_read) = Ok (None, w') /\
    exists pkt, events w' = [(2, pkt)] /\ Packet.data pkt = Some [5; 6; 7; 8].
Proof.
  destruct (load_gets_latest cpu env 0 6 7 ltac:(lia) eq_refl (world before_read) 1 0 2 (inst_in before_read 2)
    (request_in before_read 1) (requests_of (request_in before_read 1)) 0x2004 4 0 1
    (requests_of (request_in before_read 1)) []) as (w' & H & _).
  - exact load_before_read.
  - split_and!; [by vm_compute|by vm_compute|by vm_compute|by vm_compute| | |by vm_compute|by vm_compute|by vm_compute|by vm_compute].
    + constructor; [|constructor]. unfold LsqSpec.translated, in_word. split_and!; by vm_compute.
    + constructor; [|constructor]. by vm_compute.
  - exists w'. split; [exact H|].
    assert (match read cpu env 0 1 (lq_head (world before_read) + Z.of_nat 0) (world before_read) with
            | Ok (_, w) => match events w with [(p, pkt)] => (p, Packet.data pkt) | _ => (0, None) end
            | Err _ => (0, None)
            end = (2, Some [5; 6; 7; 8])) as Hev by by vm_compute.
    rewrite H in Hev. destruct (events w') as [|[p pkt] [|]]; [discriminate Hev| |discriminate Hev].
    exists pkt. injection Hev as -> ->. split; reflexivity.
Defined.
End LsqExamples.
