(* ===== verification/LsqInv.v ===== *)
(** * The invariant of the load and store queues

    What a unit looks like between two operations, and the changes that leave all
    entries in their places. *)

From stdpp Require Import gmap sorting.
From S2P Require Import Prelude.
From S2P Require Import CircularQueue BaseUtil MemCmd Request Packet DynInst Rob Lsq LsqFacts LsqSpec LsqUnit LsqUnitFacts LsqForward LsqRead.

Local Open Scope Z_scope.

Module LsqInv.
Import LSQRequest LSQUnit LsqUnitFacts LsqRead.

(** ** The invariant *)

Definition bases (w : World) : list LSQEntry.t := SQEntry.base <$> sq w.
Definition lq_end (w : World) : Z := lq_head w + CircularQueue._size (loadQueue (unit w)).
Definition sq_end (w : World) : Z := sq_head w + CircularQueue._size (storeQueue (unit w)).
Definition wb_idx (w : World) : Z := CircularQueue._idx (storeWBIt (unit w)).

(** A queue whose elements can be removed one by one without an index overflowing. *)
Definition queue_ok {A} (q : CircularQueue.t A) : Prop :=
  CircularQueue.wf q /\ CircularQueue._head q + CircularQueue._size q + CircularQueue._capacity q < 2 ^ 64.

Definition cleared (e : SQEntry.t) : Prop :=
  SQEntry.base e = LSQEntry.empty /\ SQEntry._canWB e = false /\ SQEntry._completed e = false.

(** The iterators of the load at index [idx]: where it is, and where the older stores
    end; no store behind that end is written back before the load has executed. *)
Definition load_placed (w : World) (idx : Z) (i : DynInst.t) : Prop :=
  DynInst.lqIdx i = idx /\ DynInst.lqIt i = CircularQueue.It true idx /\
  exists b, DynInst.sqIt i = CircularQueue.It true b /\ b <= sq_end w /\
    (DynInst.isExecuted i = false -> wb_idx w <= b) /\
    forall k e, bases w !! k = Some e -> sq_head w + Z.of_nat k < b <-> seq_of (insts w) e < DynInst.seqNum i.

(** The store at index [idx]: where it is, and where the younger loads begin. *)
Definition store_placed (w : World) (idx : Z) (i : DynInst.t) : Prop :=
  DynInst.sqIdx i = idx /\
  exists b, DynInst.lqIt i = CircularQueue.It true b /\
    forall k e, lq w !! k = Some e -> b <= lq_head w + Z.of_nat k <-> DynInst.seqNum i < seq_of (insts w) e.

(** Entry [it] of the store queue has request [r], and may be written back. *)
Definition at_entry (q : CircularQueue.t SQEntry.t) (r : Z) (it : CircularQueue.iterator) : Prop :=
  exists k e, it = at_pos q k /\ CircularQueue.contents q !! k = Some e /\
    LSQEntry.req (SQEntry.base e) = Some r /\ SQEntry._canWB e = true.

(** The request of an entry was made for its instruction. *)
Definition entry_ok (w : World) (e : LSQEntry.t) : Prop :=
  forall r, LSQEntry.req e = Some r ->
    r < nextReq w /\ forall q, reqs w !! r = Some q -> LSQEntry.inst e = Some (_inst q).

(** A request belongs to an instruction of its kind; a response to a store that is still
    in the queue finds its entry. *)
Definition req_ok (w : World) (r : Z) (q : LSQRequest.t) : Prop :=
  r < nextReq w /\ exists i, insts w !! _inst q = Some i /\ isLoad q = DynInst.isLoad i /\
    forall st, _senderState q = Some st -> alive st = true ->
      inst st = _inst q /\ (isLoad q = false -> at_entry (storeQueue (unit w)) r (idx st)).

(** A load is not a store or atomic at the same time. *)
Definition kind_ok (i : DynInst.t) : Prop :=
  DynInst.isLoad i = true -> DynInst.isStore i = false /\ DynInst.isAtomic i = false.

(** The store to be written back next is there and may be written back. *)
Definition can_wb (w : World) : Prop :=
  exists k e, storeWBIt (unit w) = at_pos (storeQueue (unit w)) k /\ sq w !! k = Some e /\ SQEntry._canWB e = true.

(** A blocked store is that one, and has not been sent. *)
Definition held (w : World) : Prop := isStoreBlocked (unit w) = true ->
  exists k e, storeWBIt (unit w) = at_pos (storeQueue (unit w)) k /\ sq w !! k = Some e /\ SQEntry._canWB e = true /\
    forall r q, LSQEntry.req (SQEntry.base e) = Some r -> reqs w !! r = Some q -> isSent q = false.

Record core_ok (w : World) : Prop := {
  uo_lq : queue_ok (loadQueue (unit w));
  uo_sq : queue_ok (storeQueue (unit w));
  uo_loads : loads (unit w) = CircularQueue._size (loadQueue (unit w));
  uo_stores : stores (unit w) = CircularQueue._size (storeQueue (unit w));
  uo_lq_spare : Forall (fun e => e = LSQEntry.empty) (CircularQueue.spare (loadQueue (unit w)));
  uo_sq_spare : Forall cleared (CircularQueue.spare (storeQueue (unit w)));
  uo_lq_occ : Forall (occupied (insts w) true) (lq w);
  uo_sq_occ : Forall (occupied (insts w) false) (bases w);
  uo_lq_order : in_order (insts w) (lq w);
  uo_sq_order : in_order (insts w) (bases w);
  uo_wb : exists k, storeWBIt (unit w) = at_pos (storeQueue (unit w)) k /\ (k <= length (sq w))%nat /\
    (forall j e, (j < k)%nat -> sq w !! j = Some e -> SQEntry._canWB e = true) /\
    (forall j e, (k <= j)%nat -> sq w !! j = Some e -> SQEntry._completed e = false);
  uo_load_at : forall k e i, lq w !! k = Some e -> inst_of (insts w) e = Some i ->
    load_placed w (lq_head w + Z.of_nat k) i;
  uo_store_at : forall k e i, bases w !! k = Some e -> inst_of (insts w) e = Some i ->
    store_placed w (sq_head w + Z.of_nat k) i;
  uo_committed : forall k e j f i, sq w !! k = Some e -> SQEntry._canWB e = true ->
    lq w !! j = Some f -> inst_of (insts w) f = Some i -> DynInst.seqNum i <= seq_of (insts w) (SQEntry.base e) ->
    DynInst.isExecuted i = true;
  uo_blocked : held w;
  uo_violator : forall v, memDepViolator (unit w) = Some v -> is_Some (insts w !! v);
  uo_kind : forall p i, insts w !! p = Some i -> kind_ok i;
  uo_entries : Forall (entry_ok w) (lq w ++ bases w);
  uo_reqs : forall r q, reqs w !! r = Some q -> req_ok w r q;
  uo_saved : forall p i r, insts w !! p = Some i -> DynInst.savedReq i = Some r ->
    r < nextReq w /\ forall q, reqs w !! r = Some q -> _inst q = p
}.

(** The scan of a store that has not been committed begins inside the load queue or at
    its end: not before its head, and, for a store not younger than [n], not behind its
    end. During a squash the end holds only for the stores that stay. *)
Definition ends_ok (n : option Z) (w : World) : Prop :=
  forall k e i, sq w !! k = Some e -> inst_of (insts w) (SQEntry.base e) = Some i ->
    (SQEntry._canWB e = false -> lq_head w <= CircularQueue._idx (DynInst.lqIt i)) /\
    (match n with Some n => DynInst.seqNum i <= n | None => True end -> CircularQueue._idx (DynInst.lqIt i) <= lq_end w).

Definition unit_ok (w : World) : Prop := core_ok w /\ ends_ok None w.

(** ** Changes that leave the entries in place *)

(** The part of an instruction that only its insertion changes; what has executed
    stays executed. *)
Definition inst_step (i j : DynInst.t) : Prop :=
  DynInst.same_identity i j /\ DynInst.lqIdx j = DynInst.lqIdx i /\ DynInst.lqIt j = DynInst.lqIt i /\
  DynInst.sqIdx j = DynInst.sqIdx i /\ DynInst.sqIt j = DynInst.sqIt i /\
  (DynInst.isExecuted i = true -> DynInst.isExecuted j = true).

#[global] Instance inst_step_preorder : PreOrder inst_step.
Proof.
  split; [done|]. intros x y z (H1&H2&H3&H4&H5&H6) (K1&K2&K3&K4&K5&K6).
  split_and!; try congruence; [by etrans|auto].
Qed.

Lemma inst_step_kind i j : inst_step i j ->
  DynInst.seqNum j = DynInst.seqNum i /\ DynInst.isLoad j = DynInst.isLoad i /\ (kind_ok i -> kind_ok j).
Proof.
  intros ((H1 & _ & H2) & _). unfold kind_ok, DynInst.isLoad, DynInst.isStore, DynInst.isAtomic in *.
  by rewrite H1, H2.
Qed.

(** Every instruction takes a step, and none comes or goes. *)
Definition heap_step (h h' : heap) : Prop := forall p, option_relation inst_step (fun _ => False) (fun _ => False) (h !! p) (h' !! p).

Lemma heap_step_fwd h h' p i : heap_step h h' -> h !! p = Some i -> exists j, h' !! p = Some j /\ inst_step i j.
Proof. intros H Hi. specialize (H p). rewrite Hi in H. destruct (h' !! p) as [j|]; [|done]. by exists j. Qed.
Lemma heap_step_bwd h h' p j : heap_step h h' -> h' !! p = Some j -> exists i, h !! p = Some i /\ inst_step i j.
Proof. intros H Hj. specialize (H p). rewrite Hj in H. destruct (h !! p) as [i|]; [|done]. by exists i. Qed.

#[global] Instance heap_step_preorder : PreOrder heap_step.
Proof.
  split.
  - intros h p. destruct (h !! p); simpl; done.
  - intros h1 h2 h3 H1 H2 p. specialize (H1 p). specialize (H2 p).
    destruct (h1 !! p), (h2 !! p), (h3 !! p); simpl in *; try done. by etrans.
Qed.

Lemma heap_step_insert h p i j : h !! p = Some i -> inst_step i j -> heap_step h (<[p := j]> h).
Proof.
  intros Hp Hij p'. destruct (decide (p = p')) as [<-|Hne].
  - by rewrite lookup_insert_eq, Hp.
  - rewrite lookup_insert_ne by done. destruct (h !! p'); simpl; done.
Qed.

Definition lshape (e : LSQEntry.t) := (LSQEntry.inst e, LSQEntry._valid e).
Definition sshape (e : SQEntry.t) := (lshape (SQEntry.base e), SQEntry._canWB e, SQEntry._completed e).

Definition same_queue {A B} (f : A -> B) (q q' : CircularQueue.t A) : Prop :=
  (CircularQueue.wf q -> CircularQueue.wf q') /\ CircularQueue._head q' = CircularQueue._head q /\
  CircularQueue._size q' = CircularQueue._size q /\ CircularQueue._capacity q' = CircularQueue._capacity q /\
  CircularQueue.spare q' = CircularQueue.spare q /\
  f <$> CircularQueue.contents q' = f <$> CircularQueue.contents q.

#[global] Instance same_queue_preorder {A B} (f : A -> B) : PreOrder (same_queue f).
Proof. split; [done|]. intros q1 q2 q3 (A1&A2&A3&A4&A5&A6) (B1&B2&B3&B4&B5&B6). split_and!; try congruence. auto. Qed.

(** A request keeps its instruction and kind; what its responses find is what they found
    before, or the entry of the store queue that holds it. *)
Definition req_step (sq' : CircularQueue.t SQEntry.t) (r : Z) (q q' : LSQRequest.t) : Prop :=
  _inst q' = _inst q /\ isLoad q' = isLoad q /\
  forall st', _senderState q' = Some st' -> alive st' = true ->
    (exists st, _senderState q = Some st /\ alive st = true /\ inst st' = inst st /\ idx st' = idx st) \/
    (inst st' = _inst q /\ (isLoad q = true \/ at_entry sq' r (idx st'))).

Record quiet (w w' : World) : Prop := {
  qt_heap : heap_step (insts w) (insts w');
  qt_lq : same_queue lshape (loadQueue (unit w)) (loadQueue (unit w'));
  qt_sq : same_queue sshape (storeQueue (unit w)) (storeQueue (unit w'));
  qt_counts : loads (unit w') = loads (unit w) /\ stores (unit w') = stores (unit w) /\
    storeWBIt (unit w') = storeWBIt (unit w);
  qt_blocked : held w -> held w';
  qt_violator : forall v, memDepViolator (unit w') = Some v ->
    memDepViolator (unit w) = Some v \/ is_Some (insts w !! v);
  qt_next : nextReq w <= nextReq w';
  qt_held : forall r it, at_entry (storeQueue (unit w)) r it -> at_entry (storeQueue (unit w')) r it;
  qt_entries : forall e' r, e' ∈ lq w' ++ bases w' -> LSQEntry.req e' = Some r ->
    (exists e, e ∈ lq w ++ bases w /\ LSQEntry.inst e = LSQEntry.inst e' /\ LSQEntry.req e = Some r) \/
    (r < nextReq w' /\ forall q', reqs w' !! r = Some q' -> LSQEntry.inst e' = Some (_inst q'));
  qt_reqs : forall r q', reqs w' !! r = Some q' ->
    (exists q, reqs w !! r = Some q /\ req_step (storeQueue (unit w')) r q q') \/
    (nextReq w <= r /\ req_ok w' r q');
  qt_saved : forall p i' r, insts w' !! p = Some i' -> DynInst.savedReq i' = Some r ->
    (exists i, insts w !! p = Some i /\ DynInst.savedReq i = Some r) \/
    (r < nextReq w' /\ forall q', reqs w' !! r = Some q' -> _inst q' = p)
}.

Lemma can_wb_quiet w w' :
  same_queue sshape (storeQueue (unit w)) (storeQueue (unit w')) -> storeWBIt (unit w') = storeWBIt (unit w) ->
  can_wb w' <-> can_wb w.
Proof.
  intros (_ & Hh & _ & _ & _ & Hf) Hwb. unfold can_wb. rewrite Hwb.
  assert (forall k, at_pos (storeQueue (unit w')) k = at_pos (storeQueue (unit w)) k) as Hat
    by (intros; unfold at_pos; by rewrite Hh).
  split; intros (k & e & Hk & He & Hc); exists k; fold (sq w') in Hf; fold (sq w) in Hf.
  - assert ((sshape <$> sq w) !! k = Some (sshape e)) as H by (by rewrite <- Hf, list_lookup_fmap, He).
    rewrite list_lookup_fmap in H. destruct (sq w !! k) as [e0|] eqn:He0; [|done]. exists e0. simpl in H.
    rewrite <- Hat. split_and!; [done..|]. unfold sshape in H. congruence.
  - assert ((sshape <$> sq w') !! k = Some (sshape e)) as H by (by rewrite Hf, list_lookup_fmap, He).
    rewrite list_lookup_fmap in H. destruct (sq w' !! k) as [e0|] eqn:He0; [|done]. exists e0. simpl in H.
    rewrite Hat. split_and!; [done..|]. unfold sshape in H. congruence.
Qed.

(** A request that is as it should be stays so. *)
Lemma req_ok_quiet w w' r q q' :
  heap_step (insts w) (insts w') -> nextReq w <= nextReq w' ->
  (forall r it, at_entry (storeQueue (unit w)) r it -> at_entry (storeQueue (unit w')) r it) ->
  req_ok w r q -> req_step (storeQueue (unit w')) r q q' -> req_ok w' r q'.
Proof.
  intros Hh Hn Hheld (Hr & i & Hi & Hl & Hss) (S1 & S2 & S3). split; [lia|].
  destruct (heap_step_fwd _ _ _ _ Hh Hi) as (j & Hj & Hij). exists j. rewrite S1. split; [done|].
  apply inst_step_kind in Hij as (_ & Hk & _). split; [congruence|]. intros st' Hst' Ha.
  destruct (S3 st' Hst' Ha) as [(st & Hst & Ha0 & Hin & Hidx)|(Hin & Hor)].
  - destruct (Hss st Hst Ha0) as [H1 H2]. split; [congruence|]. intros Hf. rewrite Hidx. apply Hheld, H2. congruence.
  - split; [done|]. intros Hf. destruct Hor as [Hor|Hor]; [congruence|done].
Qed.

#[global] Instance quiet_preorder : PreOrder quiet.
Proof.
  split.
  - intros w. split; try done; try reflexivity; auto.
    + intros e' r He Hr. left. by exists e'.
    + intros r q' Hq. left. exists q'. split; [done|]. split_and!; [done..|]. intros st Hst Ha. left. by exists st.
    + intros p i' r Hi Hr. left. by exists i'.
  - intros w1 w2 w3 [A1 A2 A3 (A4&A4'&A4'') A5 A6 A7 A8 A9 A10 A11] [B1 B2 B3 (B4&B4'&B4'') B5 B6 B7 B8 B9 B10 B11].
    split; try by etrans.
    + split_and!; congruence.
    + auto.
    + intros v H. destruct (B6 v H) as [H1|H1]; [auto|]. right. destruct H1 as [j Hj].
      destruct (heap_step_bwd _ _ _ _ A1 Hj) as (i & Hi & _). by exists i.
    + auto.
    + intros e3 r He3 Hr3. destruct (B9 e3 r He3 Hr3) as [(e2 & He2 & Hi2 & Hr2)|H]; [|auto].
      destruct (A9 e2 r He2 Hr2) as [(e1 & He1 & Hi1 & Hr1)|[Hr Hq]].
      * left. exists e1. split_and!; [done|congruence|done].
      * right. split; [lia|]. intros q3 Hq3. destruct (B10 r q3 Hq3) as [(q2 & Hq2 & S1 & _)|[H _]]; [|lia].
        rewrite <- Hi2, S1. by apply Hq.
    + intros r q3 Hq3. destruct (B10 r q3 Hq3) as [(q2 & Hq2 & S)|[H H']]; [|right; split; [lia|done]].
      destruct (A10 r q2 Hq2) as [(q1 & Hq1 & T)|[H H']].
      * left. exists q1. split; [done|]. destruct S as (S1 & S2 & S3), T as (T1 & T2 & T3).
        split_and!; [congruence..|]. intros st3 Hst3 Ha3.
        destruct (S3 st3 Hst3 Ha3) as [(st2 & Hst2 & Ha2 & I2 & X2)|(I2 & X2)].
        -- destruct (T3 st2 Hst2 Ha2) as [(st1 & Hst1 & Ha1 & I1 & X1)|(I1 & X1)].
           ++ left. exists st1. split_and!; congruence.
           ++ right. split; [congruence|]. destruct X1 as [X1|X1]; [by left|right]. rewrite X2. by apply B8.
        -- right. split; [congruence|]. destruct X2 as [X2|X2]; [left; congruence|by right].
      * right. split; [done|]. by eapply req_ok_quiet.
    + intros p i3 r Hi3 Hs3. destruct (B11 p i3 r Hi3 Hs3) as [(i2 & Hi2 & Hs2)|H]; [|auto].
      destruct (A11 p i2 r Hi2 Hs2) as [H|[Hr Hq]]; [auto|]. right. split; [lia|]. intros q3 Hq3.
      destruct (B10 r q3 Hq3) as [(q2 & Hq2 & S1 & _)|[H _]]; [|lia]. rewrite S1. by apply Hq.
Qed.
(** ** The invariant under such changes *)

(** The entry at a position keeps its shape. *)
Lemma same_shape {A B} (f : A -> B) (l l' : list A) k e' :
  f <$> l' = f <$> l -> l' !! k = Some e' -> exists e, l !! k = Some e /\ f e' = f e.
Proof.
  intros Hf Hk. assert ((f <$> l') !! k = Some (f e')) as H by by rewrite list_lookup_fmap, Hk.
  rewrite Hf, list_lookup_fmap in H. destruct (l !! k) as [e|]; [|done]. exists e. simpl in H. split; congruence.
Qed.

Lemma inst_of_step h h' e e' i :
  heap_step h h' -> lshape e' = lshape e -> inst_of h e = Some i -> exists j, inst_of h' e' = Some j /\ inst_step i j.
Proof.
  intros Hh He Hi. unfold inst_of in *. unfold lshape in He. replace (LSQEntry.inst e') with (LSQEntry.inst e) by congruence.
  destruct (LSQEntry.inst e) as [p|]; [|done]. simpl in *. by apply (heap_step_fwd h).
Qed.

Lemma inst_of_step_bwd h h' e e' j :
  heap_step h h' -> lshape e' = lshape e -> inst_of h' e' = Some j -> exists i, inst_of h e = Some i /\ inst_step i j.
Proof.
  intros Hh He Hi. unfold inst_of in *. unfold lshape in He. replace (LSQEntry.inst e') with (LSQEntry.inst e) in Hi by congruence.
  destruct (LSQEntry.inst e) as [p|]; [|done]. simpl in *. by apply (heap_step_bwd _ h').
Qed.

Lemma seq_of_step h h' e e' : heap_step h h' -> lshape e' = lshape e -> seq_of h' e' = seq_of h e.
Proof.
  intros Hh He. unfold seq_of. destruct (inst_of h e) as [i|] eqn:Hi.
  - destruct (inst_of_step h h' e e' i) as (j & -> & Hj); [done..|]. by apply inst_step_kind in Hj as (-> & _).
  - destruct (inst_of h' e') as [j|] eqn:Hj; [|done].
    destruct (inst_of_step_bwd h h' e e' j) as (i & Hi' & _); [done..|]. congruence.
Qed.

Lemma occupied_step h h' b e e' : heap_step h h' -> lshape e' = lshape e -> occupied h b e -> occupied h' b e'.
Proof.
  intros Hh He (Hv & i & Hi & Hl). destruct (inst_of_step h h' e e' i) as (j & Hj & Hij); [done..|].
  apply inst_step_kind in Hij as (_ & Hk & _). unfold lshape in He. split; [congruence|]. exists j. split; congruence.
Qed.

Section quiet.
Context (w w' : World).
Hypothesis Hok : core_ok w.
Hypothesis Hq : quiet w w'.

Lemma quiet_bases_shape : lshape <$> bases w' = lshape <$> bases w.
Proof.
  destruct (qt_sq _ _ Hq) as (_&_&_&_&_&Hs). unfold bases, sq. rewrite <- !list_fmap_compose.
  assert (forall l : list SQEntry.t, (lshape ∘ SQEntry.base) <$> l = (fun x => fst (fst x)) <$> (sshape <$> l)) as Hc.
  { intros l. by rewrite <- list_fmap_compose. }
  by rewrite !Hc, Hs.
Qed.

Lemma quiet_lq_shape : lshape <$> lq w' = lshape <$> lq w.
Proof. by destruct (qt_lq _ _ Hq) as (_&_&_&_&_&Hs). Qed.

Lemma quiet_occupied b (l l' : list LSQEntry.t) :
  lshape <$> l' = lshape <$> l -> Forall (occupied (insts w) b) l -> Forall (occupied (insts w') b) l'.
Proof.
  intros Hs Hocc. apply Forall_lookup. intros k e' He'. destruct (same_shape _ _ _ _ _ Hs He') as (e & He & Hsh).
  rewrite Forall_lookup in Hocc. eapply occupied_step; [apply Hq|exact Hsh|by eapply Hocc].
Qed.

Lemma quiet_seqs (l l' : list LSQEntry.t) : lshape <$> l' = lshape <$> l -> seq_of (insts w') <$> l' = seq_of (insts w) <$> l.
Proof.
  intros Hs. apply list_eq. intros k. rewrite !list_lookup_fmap. destruct (l' !! k) as [e'|] eqn:He'.
  - destruct (same_shape _ _ _ _ _ Hs He') as (e & He & Hsh). rewrite He. simpl. f_equal.
    apply seq_of_step; [apply Hq|done].
  - destruct (l !! k) as [e|] eqn:He; [|done]. symmetry in Hs.
    destruct (same_shape _ _ _ _ _ Hs He) as (e1 & He1 & _). congruence.
Qed.

Lemma quiet_heads : lq_head w' = lq_head w /\ sq_head w' = sq_head w /\ lq_end w' = lq_end w /\ sq_end w' = sq_end w /\
  wb_idx w' = wb_idx w.
Proof.
  destruct Hq as [_ (_&H2&H3&_&_&_) (_&K2&K3&_&_&_) (_&_&H) _ _ _ _ _ _ _].
  unfold lq_end, sq_end, wb_idx, lq_head, sq_head. by rewrite H2, H3, K2, K3, H.
Qed.

Lemma quiet_load_placed idx i j : inst_step i j -> load_placed w idx i -> load_placed w' idx j.
Proof.
  intros Hij (H1 & H2 & b & H3 & H4 & H5 & H6). pose proof (inst_step_kind _ _ Hij) as (Hsn & _).
  destruct Hij as (Hid & I1 & I2 & _ & I4 & I5).
  destruct quiet_heads as (_ & Q2 & _ & Q4 & Q5). split_and!; [congruence..|].
  exists b. rewrite Q2, Q4, Q5. split_and!; [congruence|done| |].
  - intros Hx. apply H5. destruct (DynInst.isExecuted i); [|done]. by rewrite I5 in Hx.
  - intros k e' He'. destruct (same_shape _ _ _ _ _ quiet_bases_shape He') as (e & He & Hsh).
    rewrite (seq_of_step (insts w) _ e) by (apply Hq || done). rewrite Hsn. by apply H6.
Qed.

Lemma quiet_store_placed idx i j : inst_step i j -> store_placed w idx i -> store_placed w' idx j.
Proof.
  intros Hij (H1 & b & H3 & H6). pose proof (inst_step_kind _ _ Hij) as (Hsn & _).
  destruct Hij as (Hid & I1 & I2 & I3 & _ & _).
  destruct quiet_heads as (Q1 & _ & _ & _ & _). split_and!; [congruence..|].
  exists b. rewrite Q1. split_and!; [congruence|].
  intros k e' He'. destruct (same_shape _ _ _ _ _ quiet_lq_shape He') as (e & He & Hsh).
  rewrite (seq_of_step (insts w) _ e) by (apply Hq || done). rewrite Hsn. by apply H6.
Qed.

Lemma quiet_placed (l l' : list LSQEntry.t) (placed placed' : Z -> DynInst.t -> Prop) hd :
  lshape <$> l' = lshape <$> l -> (forall idx i j, inst_step i j -> placed idx i -> placed' idx j) ->
  (forall k e i, l !! k = Some e -> inst_of (insts w) e = Some i -> placed (hd + Z.of_nat k) i) ->
  forall k e i, l' !! k = Some e -> inst_of (insts w') e = Some i -> placed' (hd + Z.of_nat k) i.
Proof.
  intros Hs Hstep Hpl k e' j He' Hj. destruct (same_shape _ _ _ _ _ Hs He') as (e & He & Hsh).
  destruct (inst_of_step_bwd _ _ e e' j (qt_heap _ _ Hq) Hsh Hj) as (i & Hi & Hij).
  eapply Hstep; [exact Hij|by eapply Hpl].
Qed.

Lemma quiet_entries : Forall (entry_ok w') (lq w' ++ bases w').
Proof.
  apply Forall_forall. intros e' He' r Hr. destruct (qt_entries _ _ Hq e' r He' Hr) as [(e & He & Hi & Hre)|H]; [|done].
  pose proof (uo_entries _ Hok) as H. rewrite Forall_forall in H. destruct (H e He r Hre) as [Hlt Hqs].
  pose proof (qt_next _ _ Hq). split; [lia|]. intros q' Hq'.
  destruct (qt_reqs _ _ Hq r q' Hq') as [(q & Hq0 & S1 & _)|[Hge _]]; [|lia]. rewrite <- Hi, S1. by apply Hqs.
Qed.

Lemma quiet_reqs r q' : reqs w' !! r = Some q' -> req_ok w' r q'.
Proof.
  intros Hq'. destruct (qt_reqs _ _ Hq r q' Hq') as [(q & Hq0 & S)|[_ H]]; [|done].
  eapply req_ok_quiet; [apply Hq|apply Hq|apply Hq|by apply (uo_reqs _ Hok)|done].
Qed.

Lemma quiet_saved p i r : insts w' !! p = Some i -> DynInst.savedReq i = Some r ->
  r < nextReq w' /\ forall q, reqs w' !! r = Some q -> _inst q = p.
Proof.
  intros Hi Hs. destruct (qt_saved _ _ Hq p i r Hi Hs) as [(i0 & Hi0 & Hs0)|H]; [|done].
  destruct (uo_saved _ Hok p i0 r Hi0 Hs0) as [Hlt Hqs]. pose proof (qt_next _ _ Hq). split; [lia|].
  intros q' Hq'. destruct (qt_reqs _ _ Hq r q' Hq') as [(q & Hq0 & S1 & _)|[Hge _]]; [|lia]. rewrite S1. by apply Hqs.
Qed.

Lemma quiet_wb : exists k, storeWBIt (unit w') = at_pos (storeQueue (unit w')) k /\ (k <= length (sq w'))%nat /\
    (forall j e, (j < k)%nat -> sq w' !! j = Some e -> SQEntry._canWB e = true) /\
    (forall j e, (k <= j)%nat -> sq w' !! j = Some e -> SQEntry._completed e = false).
Proof.
  destruct (uo_wb _ Hok) as (k & K1 & K2 & K3 & K4). destruct (qt_sq _ _ Hq) as (_&B2&_&_&_&B6).
  exists k. destruct (qt_counts _ _ Hq) as (_ & _ & ->). rewrite K1. unfold at_pos. rewrite B2.
  assert (length (sq w') = length (sq w)) as Hlen.
  { apply (f_equal length) in B6. rewrite !length_fmap in B6. exact B6. }
  split_and!; [done|lia| |]; intros j e' Hj He'; destruct (same_shape _ _ _ _ _ B6 He') as (e & He & Hsh);
    unfold sshape in Hsh; [specialize (K3 j e Hj He)|specialize (K4 j e Hj He)]; congruence.
Qed.

Lemma quiet_committed k e j f i : sq w' !! k = Some e -> SQEntry._canWB e = true ->
  lq w' !! j = Some f -> inst_of (insts w') f = Some i -> DynInst.seqNum i <= seq_of (insts w') (SQEntry.base e) ->
  DynInst.isExecuted i = true.
Proof.
  intros He Hc Hf Hi Hlt. destruct (qt_sq _ _ Hq) as (_&_&_&_&_&B6).
  destruct (same_shape _ _ _ _ _ B6 He) as (e0 & He0 & Hsh). unfold sshape in Hsh.
  destruct (same_shape _ _ _ _ _ quiet_lq_shape Hf) as (f0 & Hf0 & Hfs).
  destruct (inst_of_step_bwd _ _ f0 f i (qt_heap _ _ Hq) Hfs Hi) as (i0 & Hi0 & Hii).
  rewrite (seq_of_step (insts w) _ (SQEntry.base e0)) in Hlt by (apply Hq || congruence).
  pose proof (inst_step_kind _ _ Hii) as (Hsn & _). rewrite Hsn in Hlt. destruct Hii as (_&_&_&_&_&Hx). apply Hx.
  eapply (uo_committed _ Hok k e0 j f0 i0); try done. congruence.
Qed.

Lemma quiet_ok : core_ok w'.
Proof.
  pose proof quiet_heads as (Q1 & Q2 & _). destruct (qt_lq _ _ Hq) as (A1&A2&A3&A4&A5&A6).
  destruct (qt_sq _ _ Hq) as (B1&B2&B3&B4&B5&B6). destruct (qt_counts _ _ Hq) as (C1&C2&C3).
  destruct (uo_lq _ Hok) as [O1 O1'], (uo_sq _ Hok) as [O2 O2'].
  split.
  - split; [auto|]. rewrite A2, A3, A4. done.
  - split; [auto|]. rewrite B2, B3, B4. done.
  - rewrite C1, A3. apply Hok.
  - rewrite C2, B3. apply Hok.
  - rewrite A5. apply Hok.
  - rewrite B5. apply Hok.
  - eapply quiet_occupied; [apply quiet_lq_shape|apply Hok].
  - eapply quiet_occupied; [apply quiet_bases_shape|apply Hok].
  - unfold in_order. rewrite (quiet_seqs _ _ quiet_lq_shape). apply Hok.
  - unfold in_order. rewrite (quiet_seqs _ _ quiet_bases_shape). apply Hok.
  - apply quiet_wb.
  - rewrite Q1. eapply quiet_placed; [apply quiet_lq_shape|apply quiet_load_placed|apply Hok].
  - rewrite Q2. eapply quiet_placed; [apply quiet_bases_shape|apply quiet_store_placed|apply Hok].
  - apply quiet_committed.
  - apply (qt_blocked _ _ Hq), Hok.
  - intros v Hv. destruct (qt_violator _ _ Hq v Hv) as [H|[i Hi]].
    + destruct (uo_violator _ Hok v H) as [i Hi]. destruct (heap_step_fwd _ _ _ _ (qt_heap _ _ Hq) Hi) as (j & Hj & _). by exists j.
    + destruct (heap_step_fwd _ _ _ _ (qt_heap _ _ Hq) Hi) as (j & Hj & _). by exists j.
  - intros p j Hj. destruct (heap_step_bwd _ _ _ _ (qt_heap _ _ Hq) Hj) as (i & Hi & Hij).
    apply inst_step_kind in Hij as (_ & _ & Hk). by apply Hk, (uo_kind _ Hok p).
  - apply quiet_entries.
  - apply quiet_reqs.
  - apply quiet_saved.
Qed.

Lemma quiet_ends n : ends_ok n w -> ends_ok n w'.
Proof.
  intros He k e' j He' Hj. destruct (qt_sq _ _ Hq) as (_&_&_&_&_&Hs).
  destruct (same_shape _ _ _ _ _ Hs He') as (e & He0 & Hsh). unfold sshape in Hsh.
  destruct (inst_of_step_bwd _ _ (SQEntry.base e) (SQEntry.base e') j (qt_heap _ _ Hq) ltac:(congruence) Hj) as (i & Hi & Hij).
  pose proof (inst_step_kind _ _ Hij) as (Hsn & _). destruct Hij as (_ & _ & -> & _).
  destruct quiet_heads as (-> & _ & -> & _). destruct (He k e i He0 Hi) as [H1 H2]. split; intros H.
  - apply H1. congruence.
  - apply H2. destruct n; [lia|done].
Qed.
End quiet.

Lemma quiet_unit_ok w w' : unit_ok w -> quiet w w' -> unit_ok w'.
Proof. intros [H1 H2] Hq. split; [by eapply quiet_ok|by eapply quiet_ends]. Qed.

End LsqInv.
