(* ===== verification/LsqQuiet.v ===== *)
(** * Operations that leave the entries of the queues in place

    Execution, translation, sending, responses and snoops change instructions and
    requests, and the request, size and data of an entry: all are [quiet]. *)

From stdpp Require Import gmap sorting.
From S2P Require Import Prelude.
From S2P Require Import CircularQueue BaseUtil MemCmd Request Packet DynInst Rob Lsq LsqFacts LsqSpec LsqUnit LsqUnitFacts LsqForward LsqRead LsqInv.

Local Open Scope Z_scope.

Module LsqQuiet.
Import LSQRequest LSQUnit LsqUnitFacts LsqRead LsqInv.

(** ** Steps of an instruction *)

(** A step that does not point to another request. *)
Definition inst_quiet (i j : DynInst.t) : Prop :=
  inst_step i j /\ (DynInst.savedReq j = DynInst.savedReq i \/ DynInst.savedReq j = None).

#[global] Instance inst_quiet_preorder : PreOrder inst_quiet.
Proof.
  split; [intros i; split; [reflexivity|auto]|]. intros x y z [H1 H2] [K1 K2]. split; [by etrans|].
  destruct K2 as [K2|K2]; [|auto]. rewrite K2. destruct H2; auto.
Qed.

Lemma executed_status s i : DynInst.isExecuted i = true -> DynInst.isExecuted (DynInst.set_status s i) = true.
Proof. intros H. unfold DynInst.isExecuted in *. rewrite DynInst.has_set_status, H. apply orb_true_r. Qed.

Lemma inst_quiet_set_status s i : inst_quiet i (DynInst.set_status s i).
Proof. split; [|by left]. split_and!; try done. apply executed_status. Qed.

Lemma inst_quiet_reset_status s i : s <> DynInst.Executed -> inst_quiet i (DynInst.reset_status s i).
Proof.
  intros Hs. split; [|by left]. split_and!; try done. intros H. unfold DynInst.isExecuted in *.
  rewrite DynInst.has_reset_status, H. by rewrite bool_decide_false by congruence.
Qed.

(** Setters of the other fields. *)
Lemma inst_quiet_field i j :
  DynInst.seqNum j = DynInst.seqNum i -> DynInst.threadNumber j = DynInst.threadNumber i ->
  DynInst.staticInst j = DynInst.staticInst i -> DynInst.status j = DynInst.status i ->
  DynInst.lqIdx j = DynInst.lqIdx i -> DynInst.lqIt j = DynInst.lqIt i -> DynInst.sqIdx j = DynInst.sqIdx i ->
  DynInst.sqIt j = DynInst.sqIt i -> DynInst.savedReq j = DynInst.savedReq i \/ DynInst.savedReq j = None ->
  inst_quiet i j.
Proof.
  intros. split; [|done]. unfold inst_step, DynInst.same_identity, DynInst.isExecuted, DynInst.has_status.
  split_and!; congruence.
Qed.

Ltac inst_field := apply inst_quiet_field; first [done | by left | by right].

Ltac inst_quiet_tac := cbv beta;
  repeat match goal with
  | |- inst_quiet ?i ?i => reflexivity
  | |- inst_quiet _ (DynInst.set_status _ _) => etrans; [|apply inst_quiet_set_status]
  | |- inst_quiet _ (DynInst.reset_status _ _) => etrans; [|apply inst_quiet_reset_status; done]
  | |- inst_quiet _ (DynInst.setExecuted ?i) => change (DynInst.setExecuted i) with (DynInst.set_status DynInst.Executed i)
  | |- inst_quiet _ (DynInst.setCompleted ?i) => change (DynInst.setCompleted i) with (DynInst.set_status DynInst.Completed i)
  | |- inst_quiet _ (DynInst.setInLSQ ?i) => change (DynInst.setInLSQ i) with (DynInst.set_status DynInst.LsqEntry i)
  | |- inst_quiet _ (DynInst.clearIssued ?i) => change (DynInst.clearIssued i) with (DynInst.reset_status DynInst.Issued i)
  | |- inst_quiet _ (DynInst.clearCanIssue ?i) => change (DynInst.clearCanIssue i) with (DynInst.reset_status DynInst.CanIssue i)
  | |- inst_quiet _ (?f ?j) => is_var j; inst_field
  | |- inst_quiet _ (?f ?j) => etrans; [|apply (inst_quiet_field j (f j)); first [done | by left | by right]]
  end.

Definition heap_quiet (h h' : heap) : Prop :=
  forall p, option_relation inst_quiet (fun _ => False) (fun _ => False) (h !! p) (h' !! p).

Lemma heap_quiet_step h h' : heap_quiet h h' -> heap_step h h'.
Proof. intros H p. specialize (H p). destruct (h !! p), (h' !! p); simpl in *; try done. apply H. Qed.

#[global] Instance heap_quiet_preorder : PreOrder heap_quiet.
Proof.
  split.
  - intros h p. destruct (h !! p); simpl; done.
  - intros h1 h2 h3 H1 H2 p. specialize (H1 p). specialize (H2 p).
    destruct (h1 !! p), (h2 !! p), (h3 !! p); simpl in *; try done. by etrans.
Qed.

Lemma heap_quiet_insert h p i j : h !! p = Some i -> inst_quiet i j -> heap_quiet h (<[p := j]> h).
Proof.
  intros Hp Hij p'. destruct (decide (p = p')) as [<-|Hne].
  - by rewrite lookup_insert_eq, Hp.
  - rewrite lookup_insert_ne by done. destruct (h !! p'); simpl; done.
Qed.

Lemma heap_quiet_saved h h' p i' r : heap_quiet h h' -> h' !! p = Some i' -> DynInst.savedReq i' = Some r ->
  exists i, h !! p = Some i /\ DynInst.savedReq i = Some r.
Proof.
  intros H Hi Hr. specialize (H p). rewrite Hi in H. destruct (h !! p) as [i|]; [|done]. exists i. split; [done|].
  destruct H as [_ [H|H]]; congruence.
Qed.

(** ** Steps of a request *)

Definition req_quiet (q q' : LSQRequest.t) : Prop :=
  _inst q' = _inst q /\ isLoad q' = isLoad q /\ (isSent q' = true -> isSent q = true) /\
  forall st', _senderState q' = Some st' -> alive st' = true ->
    exists st, _senderState q = Some st /\ alive st = true /\ inst st' = inst st /\ idx st' = idx st.

#[global] Instance req_quiet_preorder : PreOrder req_quiet.
Proof.
  split.
  - intros q. split_and!; [done..|]. intros st Hst Ha. by exists st.
  - intros x y z (A1&A2&A4&A3) (B1&B2&B4&B3). split_and!; [congruence..|auto|]. intros st Hst Ha.
    destruct (B3 st Hst Ha) as (s & Hs & Has & ? & ?). destruct (A3 s Hs Has) as (s' & ? & ? & ? & ?).
    exists s'. split_and!; congruence.
Qed.

Lemma req_quiet_step q q' sq r : req_quiet q q' -> req_step sq r q q'.
Proof. intros (H1&H2&_&H3). split_and!; [done..|]. intros st Hst Ha. left. by apply H3. Qed.

Lemma req_quiet_flag f q : Z.land f IsLoad = 0 -> Z.land f Sent = 0 -> req_quiet q (set_flag f q).
Proof.
  intros Hf Hs. split_and!; [done| | |intros st Hst Ha; by exists st]; unfold isLoad, isSent; simpl.
  - by apply mask_flags.
  - by rewrite mask_flags.
Qed.

Lemma req_quiet_field q q' : _inst q' = _inst q -> flags q' = flags q -> _senderState q' = _senderState q -> req_quiet q q'.
Proof. intros H1 H2 H3. unfold req_quiet, isLoad, isSent. rewrite H1, H2, H3. split_and!; [done..|]. intros st Hst Ha. by exists st. Qed.

Lemma req_quiet_ss f q st :
  _senderState q = Some st -> (alive (f st) = true -> alive st = true) -> inst (f st) = inst st -> idx (f st) = idx st ->
  req_quiet q (with_ss (Some (f st)) q).
Proof. intros Hst Ha Hi Hx. split_and!; [done..|]. intros st' [= <-] Ha'. exists st. split_and!; auto. Qed.

Ltac req_quiet_tac := cbv beta;
  repeat match goal with
  | |- req_quiet ?q ?q => reflexivity
  | |- req_quiet _ (set_flag _ _) => etrans; [|apply req_quiet_flag; reflexivity]
  | |- req_quiet _ (complete ?q) => change (complete q) with (set_flag Complete q)
  | |- req_quiet _ (?f ?j) => etrans; [|apply (req_quiet_field j (f j)); done]
  end.

Lemma not_sent q : isSent (packetNotSent q) = false.
Proof. unfold isSent, packetNotSent. simpl. by apply Flags.isSet_clear_sub. Qed.

Lemma req_quiet_not_sent q : req_quiet q (packetNotSent q).
Proof.
  split_and!; [done| |by rewrite not_sent|intros st Hst Ha; by exists st]. unfold isLoad, packetNotSent. simpl.
  rewrite Flags.isSet_clear_disjoint by reflexivity. by apply mask_flags.
Qed.

(** ** Translation and packets *)

Section requests.
Context (cpu : BaseCPU.t) (domain context : Z -> Z) (now : Z).

Lemma addRequest_quiet h a n be q q' : addRequest cpu domain context now h a n be q = Ok q' -> req_quiet q q'.
Proof. unfold addRequest. intros H. destruct (CpuUtils.isAnyActiveElement be); inv_res; req_quiet_tac. Qed.

Lemma update_inst_quiet h p f h' : (forall i, inst_quiet i (f i)) -> update_inst h p f = Ok h' -> heap_quiet h h'.
Proof. unfold update_inst. intros Hf H. inv_res. apply deref_Ok in E. by apply (heap_quiet_insert _ _ a). Qed.

Lemma sendFragment_quiet k q q' : sendFragmentToTranslation k q = Ok q' -> req_quiet q q'.
Proof. unfold sendFragmentToTranslation. intros H. destruct (_ !! k); inv_res; req_quiet_tac. Qed.

Lemma send_all_quiet ids : forall q q', send_all ids q = Ok q' -> req_quiet q q'.
Proof.
  induction ids as [|k ids IH]; intros q q' H; simpl in H; inv_res; [reflexivity|].
  etrans; [by eapply sendFragment_quiet|by apply IH].
Qed.

Lemma whole_lines_quiet h final : forall fuel base size q b s q',
  whole_lines cpu domain context now fuel h base final size q = Ok (b, s, q') -> req_quiet q q'.
Proof.
  induction fuel as [|fuel IH]; intros base size q b s q' H; simpl in H; destruct (_ =? _); inv_res; try reflexivity.
  etrans; [by eapply addRequest_quiet|by eapply IH].
Qed.

Lemma split_fragments_quiet h q q' : split_fragments cpu domain context now h q = Ok q' -> req_quiet q q'.
Proof.
  unfold split_fragments. intros H. inv_res. etrans; [by eapply addRequest_quiet|].
  etrans; [by eapply whole_lines_quiet|]. destruct (_ <? _); [by eapply addRequest_quiet|by inv_res].
Qed.

Ltac steps_quiet :=
  repeat match goal with
  | H : addRequest _ _ _ _ _ _ _ _ _ = Ok _ |- _ => apply addRequest_quiet in H
  | H : split_fragments _ _ _ _ _ _ = Ok _ |- _ => apply split_fragments_quiet in H
  | H : sendFragmentToTranslation _ _ = Ok _ |- _ => apply sendFragment_quiet in H
  | H : send_all _ _ = Ok _ |- _ => apply send_all_quiet in H
  | H : update_inst _ _ _ = Ok _ |- _ => apply update_inst_quiet in H; [|intros; inst_quiet_tac]
  end.

Definition initiate_quiet (h : heap) (q : LSQRequest.t) (h' : heap) (q' : LSQRequest.t) : Prop :=
  heap_quiet h h' /\ req_quiet q q'.

Lemma single_initiate_quiet h q h' q' ids :
  single_initiateTranslation cpu domain context now h q = Ok (h', q', ids) -> initiate_quiet h q h' q'.
Proof.
  unfold single_initiateTranslation. intros H. inv_res. steps_quiet.
  destruct (last (_requests a)) as [r|]; inv_res; steps_quiet; (split; [done|]).
  - etrans; [done|]. etrans; [|done]. req_quiet_tac.
  - done.
Qed.

Lemma split_initiate_quiet h q h' q' ids :
  split_initiateTranslation cpu domain context now h q = Ok (h', q', ids) -> initiate_quiet h q h' q'.
Proof.
  unfold split_initiateTranslation. intros H. inv_res. steps_quiet.
  assert (req_quiet q a1) as Hq by (etrans; [|done]; req_quiet_tac).
  destruct (_requests a1) as [|r rs]; inv_res; steps_quiet; (split; [done|]); [done|].
  etrans; [exact Hq|]. etrans; [|done]. req_quiet_tac.
Qed.

Lemma single_finish_quiet fault r h q h' q' :
  single_finish fault r h q = Ok (h', q') -> initiate_quiet h q h' q'.
Proof.
  unfold single_finish, squashTranslation. intros H. inv_res. apply deref_Ok in E.
  destruct (DynInst.isSquashed a); inv_res.
  - split; [reflexivity|req_quiet_tac].
  - destruct fault; inv_res; (split; [apply (heap_quiet_insert _ _ a); [done|inst_quiet_tac]|req_quiet_tac]).
Qed.

Lemma split_finished_quiet h q h' q' : split_finished h q = Ok (h', q') -> initiate_quiet h q h' q'.
Proof.
  unfold split_finished, squashTranslation. intros H. inv_res. apply deref_Ok in E.
  destruct (DynInst.isSquashed a); inv_res; [split; [reflexivity|req_quiet_tac]|].
  destruct (mainReq q) as [main|]; [|done]. inv_res.
  assert (inst_quiet a t0 /\ req_quiet q q') as [Hi Hq].
  { destruct (first_fault (_fault q)) as [|n].
    - destruct (_fault q); inv_res. split; [inst_quiet_tac|req_quiet_tac].
    - inv_res. clear E E1 E4. repeat case_match; inv_res; (split; [inst_quiet_tac|req_quiet_tac]). }
  split; [|done]. destruct Hq as (-> & _). by apply (heap_quiet_insert _ _ a).
Qed.

Lemma split_finish_quiet k fault r h q h' q' :
  split_finish k fault r h q = Ok (h', q') -> initiate_quiet h q h' q'.
Proof.
  unfold split_finish. intros H. inv_res.
  assert (req_quiet q a) as Hq.
  { destruct fault; inv_res; [req_quiet_tac|]. simpl in E. destruct (mainReq q); inv_res. req_quiet_tac. }
  destruct (_ =? _); inv_res; [|by split]. apply split_finished_quiet in H as [H1 H2]. split; [done|by etrans].
Qed.

Lemma buildSHT_quiet p n i i' : DynInst.buildSHTpacket p n i = Ok i' -> inst_quiet i i'.
Proof. unfold DynInst.buildSHTpacket. intros H. inv_res. inst_quiet_tac. Qed.

Lemma single_build_quiet pid h q h' q' : single_buildPackets cpu pid h q = Ok (h', q') -> initiate_quiet h q h' q'.
Proof.
  unfold single_buildPackets. intros H. inv_res. apply deref_Ok in E0.
  assert (req_quiet q a0) as Hq.
  { destruct (_packets q); [|by inv_res]. destruct (_requests q); inv_res. req_quiet_tac. }
  destruct (_packets a0) as [|x [|]]; inv_res. split; [|done].
  destruct Hq as (-> & _). apply (heap_quiet_insert _ _ a); [done|by eapply buildSHT_quiet].
Qed.

Lemma split_build_quiet pid h q h' q' : split_buildPackets cpu pid h q = Ok (h', q') -> initiate_quiet h q h' q'.
Proof.
  unfold split_buildPackets. intros H. inv_res. apply deref_Ok in E.
  assert (req_quiet q a0) as Hq.
  { destruct (_packets q); [|by inv_res]. inv_res. req_quiet_tac. }
  destruct (_packets a0) as [|x xs]; inv_res. split; [|done].
  destruct Hq as (-> & _). apply (heap_quiet_insert _ _ a); [done|by eapply buildSHT_quiet].
Qed.
End requests.

(** ** Changes outside the queues *)

Definition same_unit (u u' : LSQUnit.t) : Prop :=
  loadQueue u' = loadQueue u /\ storeQueue u' = storeQueue u /\ loads u' = loads u /\ stores u' = stores u /\
  storeWBIt u' = storeWBIt u /\ (memDepViolator u' = memDepViolator u \/ memDepViolator u' = None).

Lemma quiet_frame w w' :
  heap_quiet (insts w) (insts w') -> same_unit (unit w) (unit w') -> nextReq w' = nextReq w ->
  (held w -> held w') ->
  (forall r q', reqs w' !! r = Some q' -> exists q, reqs w !! r = Some q /\ req_step (storeQueue (unit w)) r q q') ->
  quiet w w'.
Proof.
  intros Hh (U1&U2&U3&U4&U5&U6) Hn Hb Hr. split.
  - by apply heap_quiet_step.
  - rewrite U1. reflexivity.
  - rewrite U2. reflexivity.
  - done.
  - done.
  - intros v Hv. left. destruct U6; congruence.
  - lia.
  - by rewrite U2.
  - unfold lq, bases, sq. rewrite U1, U2. intros e' r He' Hre. left. by exists e'.
  - rewrite U2. intros r q' Hq'. left. by apply Hr.
  - intros p i' r Hi Hs. left. by eapply heap_quiet_saved.
Qed.

Lemma same_unit_refl u : same_unit u u.
Proof. by split_and!; try left. Qed.

Lemma held_frame w w' :
  same_unit (unit w) (unit w') -> (isStoreBlocked (unit w') = true -> isStoreBlocked (unit w) = true) ->
  (forall r q', reqs w' !! r = Some q' -> exists q, reqs w !! r = Some q /\ (isSent q' = true -> isSent q = true)) ->
  held w -> held w'.
Proof.
  intros (_ & U2 & _ & _ & U5 & _) Hb Hr H Hb'. destruct (H (Hb Hb')) as (k & e & H1 & H2 & H3 & H4).
  exists k, e. unfold sq. rewrite U2, U5. split_and!; [done..|]. intros r q' He Hq'.
  destruct (Hr r q' Hq') as (q & Hq & Hs). specialize (H4 r q He Hq). destruct (isSent q'); [|done]. by rewrite Hs in H4.
Qed.

Lemma held_set_req r q q' w :
  reqs w !! r = Some q -> (isSent q' = true -> isSent q = true) -> held w -> held (set_req r q' w).
Proof.
  intros Hq Hs. apply held_frame; [apply same_unit_refl|done|]. simpl. intros r' q1 Hq1.
  destruct (decide (r = r')) as [<-|Hne]; [rewrite lookup_insert_eq in Hq1; simplify_eq; eauto|].
  rewrite lookup_insert_ne in Hq1 by done. eauto.
Qed.

Lemma same_reqs w w' sq : reqs w' = reqs w ->
  forall r q', reqs w' !! r = Some q' -> exists q, reqs w !! r = Some q /\ req_step sq r q q'.
Proof. intros -> r q' Hq'. exists q'. split; [done|]. by apply req_quiet_step. Qed.

(** A world that differs in what the invariant does not look at. *)
Lemma quiet_same w w' :
  insts w' = insts w -> reqs w' = reqs w -> nextReq w' = nextReq w -> same_unit (unit w) (unit w') ->
  (isStoreBlocked (unit w') = true -> isStoreBlocked (unit w) = true) -> quiet w w'.
Proof.
  intros H1 H2 H3 H4 H5. apply quiet_frame; [by rewrite H1|done|done| |by apply same_reqs].
  apply held_frame; [done..|]. rewrite H2. eauto.
Qed.

Lemma quiet_emit a w : quiet w (emit a w).
Proof. apply quiet_same; try done. apply same_unit_refl. Qed.
Lemma quiet_ports s w : quiet w (with_ports s w).
Proof. apply quiet_same; try done. apply same_unit_refl. Qed.
Lemma quiet_events s w : quiet w (with_events s w).
Proof. apply quiet_same; try done. apply same_unit_refl. Qed.
Lemma quiet_htm_cpt s w : quiet w (with_htm_cpt s w).
Proof. apply quiet_same; try done. apply same_unit_refl. Qed.

Lemma quiet_upd f w :
  same_unit (unit w) (f (unit w)) -> (isStoreBlocked (f (unit w)) = true -> isStoreBlocked (unit w) = true) ->
  quiet w (upd f w).
Proof. intros. by apply quiet_same. Qed.

Lemma quiet_insts h w : heap_quiet (insts w) h -> quiet w (with_insts h w).
Proof. intros. apply quiet_frame; [done|apply same_unit_refl|done|done|by apply same_reqs]. Qed.

Lemma quiet_set_inst p i j w : insts w !! p = Some i -> inst_quiet i j -> quiet w (set_inst p j w).
Proof. intros. by apply quiet_insts, (heap_quiet_insert _ _ i). Qed.

Lemma on_inst_inv p f w w' : on_inst p f w = Ok w' -> exists i, insts w !! p = Some i /\ w' = set_inst p (f i) w.
Proof. unfold on_inst, inst_at. intros H. inv_res. apply deref_Ok in E. by exists a. Qed.

Lemma quiet_on_inst p f w w' : (forall i, inst_quiet i (f i)) -> on_inst p f w = Ok w' -> quiet w w'.
Proof. intros Hf (i & Hi & ->)%on_inst_inv. by apply (quiet_set_inst _ i). Qed.

Lemma req_at_inv r q w : req_at r w = Ok q -> reqs w !! r = Some q.
Proof. unfold req_at. intros H. destruct (reqs w !! r); by simplify_res. Qed.

Lemma inst_at_inv p i w : inst_at p w = Ok i -> insts w !! p = Some i.
Proof. apply deref_Ok. Qed.

Lemma quiet_set_req_step r q q' w :
  reqs w !! r = Some q -> (isSent q' = true -> isSent q = true) -> req_step (storeQueue (unit w)) r q q' -> quiet w (set_req r q' w).
Proof.
  intros Hq Hx Hs. apply quiet_frame; [reflexivity|apply same_unit_refl|done|by apply (held_set_req _ q)|]. simpl. intros r' q1 Hq1.
  destruct (decide (r = r')) as [<-|Hne].
  - rewrite lookup_insert_eq in Hq1. simplify_eq. by exists q.
  - rewrite lookup_insert_ne in Hq1 by done. exists q1. split; [done|]. by apply req_quiet_step.
Qed.

Lemma quiet_set_req r q q' w : reqs w !! r = Some q -> req_quiet q q' -> quiet w (set_req r q' w).
Proof. intros Hq Hs. eapply quiet_set_req_step; [done|by apply Hs|by apply req_quiet_step]. Qed.

Lemma quiet_delete_request r w w' : delete_request r w = Ok w' -> quiet w w'.
Proof.
  unfold delete_request. intros H. inv_res. etrans; [eapply quiet_on_inst; [|exact E1]; intros; inst_quiet_tac|].
  apply quiet_frame; [reflexivity|apply same_unit_refl|done| |]; [apply held_frame; [apply same_unit_refl|done|]|];
    simpl; intros r' q' Hq'; [apply lookup_delete_Some in Hq' as [_ Hq']; by exists q'|].
  apply lookup_delete_Some in Hq' as [_ Hq']. exists q'. split; [done|]. by apply req_quiet_step.
Qed.

Lemma quiet_release reason r w w' : Z.land reason IsLoad = 0 -> Z.land reason Sent = 0 -> release reason r w = Ok w' -> quiet w w'.
Proof.
  intros Hf Hf' H. unfold release in H. inv_res. apply req_at_inv in E. destruct (isAnyOutstandingRequest a); simpl in H.
  - inv_res. eapply quiet_set_req; [exact E|]. etrans; [|by apply req_quiet_flag].
    destruct (_senderState a) as [st|] eqn:Hst; [|reflexivity]. by apply (req_quiet_ss deleteRequest).
  - by eapply quiet_delete_request.
Qed.

Lemma quiet_packetReplied r w w' : packetReplied r w = Ok w' -> quiet w w'.
Proof.
  intros H. unfold packetReplied in H. inv_res. apply req_at_inv in E.
  match type of H with context [set_req r ?q1 w] => assert (quiet w (set_req r q1 w)) as F
    by (eapply quiet_set_req; [exact E|req_quiet_tac]) end.
  destruct (_ && _); [|by inv_res]. etrans; [exact F|by eapply quiet_delete_request].
Qed.

Lemma quiet_writebackDone r w w' : writebackDone r w = Ok w' -> quiet w w'.
Proof.
  intros H. unfold writebackDone in H. inv_res. apply req_at_inv in E.
  assert (quiet w (set_req r (set_flag WritebackDone a) w)) as F by (eapply quiet_set_req; [exact E|req_quiet_tac]).
  destruct (isReleased _); [|by inv_res]. etrans; [exact F|by eapply quiet_delete_request].
Qed.

(** ** Entries *)

(** Request [r] may be put into the entry of instruction [p]. *)
Definition belongs (w : World) (p : DynInstPtr) (r : Z) : Prop :=
  r < nextReq w /\ forall q, reqs w !! r = Some q -> _inst q = p.

Lemma belongs_quiet w w' p r : quiet w w' -> belongs w p r -> belongs w' p r.
Proof.
  intros Hq [Hr Hb]. pose proof (qt_next _ _ Hq). split; [lia|]. intros q' Hq'.
  destruct (qt_reqs _ _ Hq r q' Hq') as [(q & Hq0 & S1 & _)|[Hge _]]; [|lia]. rewrite S1. by apply Hb.
Qed.

(** Instruction [p] has an entry, at its own index. *)
Definition in_lq (w : World) (p : DynInstPtr) : Prop := exists k e, lq w !! k = Some e /\ LSQEntry.inst e = Some p.
Definition in_sq (w : World) (p : DynInstPtr) (b : bool) : Prop :=
  exists k e, sq w !! k = Some e /\ LSQEntry.inst (SQEntry.base e) = Some p /\ SQEntry._canWB e = b.

Lemma in_lq_quiet w w' p : quiet w w' -> in_lq w p -> in_lq w' p.
Proof.
  intros Hq (k & e & He & Hp). pose proof (quiet_lq_shape _ _ Hq) as Hs. symmetry in Hs.
  destruct (same_shape _ _ _ _ _ Hs He) as (e' & He' & Hsh). exists k, e'. split; [done|]. unfold lshape in Hsh. congruence.
Qed.

Lemma in_sq_quiet w w' p b : quiet w w' -> in_sq w p b -> in_sq w' p b.
Proof.
  intros Hq (k & e & He & Hp & Hb). destruct (qt_sq _ _ Hq) as (_&_&_&_&_&Hs). symmetry in Hs.
  destruct (same_shape _ _ _ _ _ Hs He) as (e' & He' & Hsh). unfold sshape, lshape in Hsh.
  exists k, e'. split; [done|]. split; congruence.
Qed.

Lemma lq_place w p i : core_ok w -> in_lq w p -> insts w !! p = Some i ->
  exists k e, lq w !! k = Some e /\ LSQEntry.inst e = Some p /\ DynInst.lqIdx i = lq_head w + Z.of_nat k.
Proof.
  intros Hok (k & e & He & Hp) Hi. exists k, e. split_and!; [done..|].
  destruct (uo_load_at _ Hok k e i He) as (H & _); [|done]. unfold inst_of. by rewrite Hp.
Qed.

Lemma sq_place w p i b : core_ok w -> in_sq w p b -> insts w !! p = Some i ->
  exists k e, sq w !! k = Some e /\ LSQEntry.inst (SQEntry.base e) = Some p /\ SQEntry._canWB e = b /\
    DynInst.sqIdx i = sq_head w + Z.of_nat k.
Proof.
  intros Hok (k & e & He & Hp & Hb) Hi. exists k, e. split_and!; [done..|].
  destruct (uo_store_at _ Hok k (SQEntry.base e) i) as (H & _); [| |done].
  - unfold bases. by rewrite list_lookup_fmap, He.
  - unfold inst_of. by rewrite Hp.
Qed.

Lemma elem_of_insert_2 {A} (l : list A) k x y z : z ∈ <[k := x]> l -> l !! k = Some y -> z = x \/ z ∈ l.
Proof.
  intros Hz Hy. apply list_elem_of_lookup in Hz as [j Hj]. destruct (decide (k = j)) as [<-|Hne].
  - rewrite list_lookup_insert_eq in Hj by by eapply lookup_lt_Some. left. congruence.
  - rewrite list_lookup_insert_ne in Hj by done. right. by eapply list_elem_of_lookup_2.
Qed.

Lemma fmap_insert_same {A B} (f : A -> B) (l : list A) k x y : l !! k = Some y -> f x = f y -> f <$> <[k := x]> l = f <$> l.
Proof. intros Hk Hf. rewrite list_fmap_insert, Hf. apply list_insert_id. by rewrite list_lookup_fmap, Hk. Qed.

(** An entry of the load queue gets a request or loses it. *)
Lemma quiet_on_lq w w' k e x :
  CircularQueue.wf (loadQueue (unit w)) -> lq w !! k = Some e ->
  on_lq (lq_head w + Z.of_nat k) (LSQEntry.setRequest x) w = Ok w' ->
  (forall r, x = Some r -> exists p, LSQEntry.inst e = Some p /\ belongs w p r) -> quiet w w'.
Proof.
  intros Hwf He H Hx. destruct (on_lq_Ok w k e (LSQEntry.setRequest x) Hwf He) as (q & Hon & W & C & S & Hh & Hz & Hc).
  rewrite Hon in H. inv_res. split; try done; try reflexivity; simpl; auto.
  - split_and!; try done. unfold lq in *. rewrite C. by apply (fmap_insert_same _ _ _ _ e).
  - intros e' r He' Hr. unfold lq, bases, sq in He'. simpl in He'. rewrite C in He'.
    apply elem_of_app in He' as [He'|He']; [|left; exists e'; split_and!; [|done..]; apply elem_of_app; by right].
    destruct (elem_of_insert_2 _ _ _ _ _ He' He) as [->|Hin]; [|left; exists e'; split_and!; [|done..]; apply elem_of_app; by left].
    right. simpl in Hr. destruct (Hx r Hr) as (p & Hp & Hr' & Hb). split; [done|]. intros q' Hq'. simpl. rewrite Hp. f_equal. symmetry. by apply Hb.
  - intros r q' Hq'. left. exists q'. split; [done|]. by apply req_quiet_step.
  - intros p i' r Hi Hs. left. by exists i'.
Qed.

(** An entry of the store queue gets a request and data; one that may be written back
    keeps its request. *)
Lemma quiet_sq_set w w' k e e' :
  CircularQueue.wf (storeQueue (unit w)) -> sq w !! k = Some e -> sq_set (sq_head w + Z.of_nat k) e' w = Ok w' ->
  sshape e' = sshape e ->
  LSQEntry.req (SQEntry.base e') = LSQEntry.req (SQEntry.base e) \/
    (SQEntry._canWB e = false /\ forall r, LSQEntry.req (SQEntry.base e') = Some r ->
       exists p, LSQEntry.inst (SQEntry.base e) = Some p /\ belongs w p r) ->
  quiet w w'.
Proof.
  intros Hwf He H Hsh Hx. unfold sq_set, sq_head in H.
  destruct (set_contents (storeQueue (unit w)) k e' Hwf) as (q & Hset & W & C & S & Hh & Hz & Hc); [by eapply lookup_lt_Some|].
  rewrite Hset in H. cbn [rbind] in H. apply ok_inj in H. subst w'. fold (sq w) in C. pose proof (lookup_lt_Some _ _ _ He) as Hlt.
  assert (same_queue sshape (storeQueue (unit w)) q) as Hsame.
  { split_and!; try done. rewrite C. by apply (fmap_insert_same _ _ _ _ e). }
  split; try done; try reflexivity; simpl; auto.
  - intros H Hb. destruct (H Hb) as (j & f & H1 & H2 & H3 & H4). exists j. unfold sq, at_pos in *. simpl.
    rewrite Hh, C. destruct (decide (j = k)) as [->|Hne].
    + assert (f = e) as -> by congruence. exists e'. rewrite list_lookup_insert_eq by done. unfold sshape in Hsh.
      destruct Hx as [Hx|[Hx _]]; [|congruence]. rewrite Hx. split_and!; [done..|congruence|done].
    + exists f. by rewrite list_lookup_insert_ne.
  - intros r it (j & f & Hit & Hf & Hr & Hcan). fold (sq w) in Hf. destruct (decide (j = k)) as [->|Hne].
    + assert (f = e) as -> by congruence. exists k, e'. unfold at_pos. rewrite Hh, C, list_lookup_insert_eq by done.
      destruct Hx as [Hx|[Hx _]]; [|congruence]. unfold sshape in Hsh. split_and!; [done..|congruence|congruence].
    + exists j, f. unfold at_pos. rewrite Hh, C, list_lookup_insert_ne by done. done.
  - intros f' r Hf' Hr. unfold lq, bases, sq in Hf'. simpl in Hf'. rewrite C, list_fmap_insert in Hf'.
    apply elem_of_app in Hf' as [Hf'|Hf']; [left; exists f'; split_and!; [|done..]; apply elem_of_app; by left|].
    assert ((SQEntry.base <$> sq w) !! k = Some (SQEntry.base e)) as He0 by by rewrite list_lookup_fmap, He.
    destruct (elem_of_insert_2 _ _ _ _ _ Hf' He0) as [->|Hin]; [|left; exists f'; split_and!; [|done..]; apply elem_of_app; by right].
    unfold sshape, lshape in Hsh. destruct Hx as [Hx|[_ Hx]].
    + left. exists (SQEntry.base e). split_and!; [|congruence|congruence]. apply elem_of_app. right. by eapply list_elem_of_lookup_2.
    + right. destruct (Hx r Hr) as (p & Hp & Hr' & Hb). split; [done|]. intros q' Hq'.
      replace (LSQEntry.inst (SQEntry.base e')) with (LSQEntry.inst (SQEntry.base e)) by congruence.
      rewrite Hp. f_equal. symmetry. by apply Hb.
  - intros r q' Hq'. left. exists q'. split; [done|]. by apply req_quiet_step.
  - intros p i' r Hi Hs. left. by exists i'.
Qed.

End LsqQuiet.
