(* ===== verification/LsqExec.v ===== *)
(** * Executing loads and stores keeps the queues in order

    Sending, translation, [read], [write], [pushRequest], [checkViolations], responses
    and snoops, all of which are [quiet] in a unit that satisfies the invariant. *)

From stdpp Require Import gmap sorting.
From S2P Require Import Prelude.
From S2P Require Import CircularQueue BaseUtil MemCmd Request Packet DynInst Rob Lsq LsqFacts LsqSpec LsqUnit LsqUnitFacts LsqForward LsqRead LsqInv LsqQuiet.

Local Open Scope Z_scope.

Module LsqExec.
Import LSQRequest LSQUnit LsqUnitFacts LsqRead LsqInv LsqQuiet.

(** Compose the steps found so far. *)
Ltac quiet_chain := repeat first [eassumption | reflexivity | etrans; [eassumption|]].

Ltac unit_tac := split_and!; first [done | by left | by right].

Section exec.
Context (P : Params) (cpu : BaseCPU.t) (E : Env) (domain context : Z -> Z) (now pid task : Z).

(** ** Sending *)

(** A store is only sent from the place of [storeWBIt]. *)
Definition may_send (w : World) (r : Z) : Prop :=
  can_wb w \/ (r < nextReq w /\ forall q, reqs w !! r = Some q -> isLoad q = true).

Lemma may_send_quiet w w' r : quiet w w' -> may_send w r -> may_send w' r.
Proof.
  intros Hq [H|[Hr Hl]].
  - left. apply (can_wb_quiet w w'); [apply Hq| |done]. by destruct (qt_counts _ _ Hq) as (_ & _ & ?).
  - right. pose proof (qt_next _ _ Hq). split; [lia|]. intros q' Hq'.
    destruct (qt_reqs _ _ Hq r q' Hq') as [(q & Hq0 & _ & S2 & _)|[Hge _]]; [|lia]. rewrite S2. by apply Hl.
Qed.

(** A request of a load is not that of the store to be written back. *)
Lemma load_not_held w r q k e :
  core_ok w -> reqs w !! r = Some q -> isLoad q = true -> sq w !! k = Some e -> LSQEntry.req (SQEntry.base e) <> Some r.
Proof.
  intros Hok Hq Hl He Hr. destruct (uo_reqs _ Hok r q Hq) as (_ & i & Hi & Hil & _).
  assert (bases w !! k = Some (SQEntry.base e)) as Hb by (unfold bases; by rewrite list_lookup_fmap, He).
  pose proof (uo_sq_occ _ Hok) as Ho. rewrite Forall_lookup in Ho. destruct (Ho _ _ Hb) as (_ & j & Hj & Hjl).
  pose proof (uo_entries _ Hok) as Hen. rewrite Forall_forall in Hen.
  destruct (Hen (SQEntry.base e) ltac:(apply elem_of_app; right; by eapply list_elem_of_lookup_2) r Hr) as [_ Hin].
  unfold inst_of in Hj. rewrite (Hin q Hq) in Hj. simpl in Hj. congruence.
Qed.

(** A request is marked as sent: that of a load, or of a store that is not blocked. *)
Lemma quiet_sent r q q' w :
  reqs w !! r = Some q -> _inst q' = _inst q -> isLoad q' = isLoad q -> core_ok w ->
  (forall st', _senderState q' = Some st' -> exists st, _senderState q = Some st /\ alive st' = alive st /\ inst st' = inst st /\ idx st' = idx st) ->
  (forall k e, sq w !! k = Some e -> LSQEntry.req (SQEntry.base e) <> Some r) \/ isStoreBlocked (unit w) = false ->
  quiet w (set_req r q' w).
Proof.
  intros Hq Hi Hl Hok Hss Hor. apply quiet_frame; [reflexivity|apply same_unit_refl|done| |].
  - intros H Hb. destruct Hor as [Hor|Hor]; [|simpl in Hb; congruence]. destruct (H Hb) as (k & e & H1 & H2 & H3 & H4).
    exists k, e. split_and!; [done..|]. simpl. intros r' q1 Hr' Hq1. destruct (decide (r = r')) as [<-|Hne]; [by apply Hor in H2|].
    rewrite lookup_insert_ne in Hq1 by done. by eapply H4.
  - simpl. intros r' q1 Hq1. destruct (decide (r = r')) as [<-|Hne].
    + rewrite lookup_insert_eq in Hq1. simplify_eq. exists q. split; [done|]. split_and!; [done..|]. intros st' Hst' Ha.
      destruct (Hss st' Hst') as (st & ? & ? & ? & ?). left. exists st. split_and!; congruence.
    + rewrite lookup_insert_ne in Hq1 by done. exists q1. split; [done|]. by apply req_quiet_step.
Qed.

Lemma quiet_packet_gone r k p w w' : core_ok w -> packet_gone r k p w = Ok w' -> quiet w w'.
Proof.
  unfold packet_gone. intros Hok H. inv_res. apply req_at_inv in E0.
  destruct (_senderState a) as [st|] eqn:Hst; [|done]. inv_res.
  match goal with H : on_inst _ _ ?x = Ok ?y |- _ =>
    assert (quiet w x) as Q1; [|assert (quiet x y) as Q2 by (eapply quiet_on_inst; [|exact H]; intros; inst_quiet_tac);
      assert (reqs y = reqs w /\ (isLoad a = false -> isStoreBlocked (unit y) = false)) as [Hreqs Hfree]
        by (apply on_inst_inv in H as (? & ? & ->); by destruct (isLoad a))] end.
  { etrans; [apply quiet_emit|]. etrans; [|apply quiet_ports]. destruct (isLoad a); [reflexivity|].
    apply quiet_upd; [unit_tac|done]. }
  match goal with H : quiet ?x ?y |- quiet _ (set_req _ _ ?y) => assert (quiet w y) as Q by (by etrans) end.
  pose proof (quiet_ok _ _ Hok Q) as Hoky. etrans; [exact Q|]. rewrite <- Hreqs in E0.
  eapply quiet_sent; [exact E0|done| |done| |].
  - unfold isLoad. simpl. by apply mask_flags.
  - intros st' Hst'. simpl in Hst'. simplify_eq. eauto.
  - destruct (isLoad a) eqn:Hl; [left; intros k' e' He'; by eapply load_not_held|right; by apply Hfree].
Qed.

Lemma quiet_packet_refused r asked w w' : core_ok w -> may_send w r -> packet_refused r asked w = Ok w' -> quiet w w'.
Proof.
  unfold packet_refused. intros Hok Hs H. inv_res. apply req_at_inv in E0.
  set (w1 := if asked then _ else w) in *. assert (quiet w w1) as Q1 by (unfold w1; destruct asked; [apply quiet_ports|reflexivity]).
  assert (reqs w1 = reqs w) as R1 by (unfold w1; by destruct asked).
  apply (may_send_quiet _ _ _ Q1) in Hs. apply (quiet_ok _ _ Hok) in Q1 as Hok1. clearbody w1. destruct (isLoad a) eqn:Hl; inv_res.
  - etrans; [exact Q1|]. eapply quiet_set_req; [by rewrite R1|]. apply req_quiet_not_sent.
  - etrans; [exact Q1|]. rewrite <- R1 in E0.
    assert (can_wb w1) as (k & e & Hwb & He & Hcan) by (destruct Hs as [Hs|[_ Hs]]; [done|specialize (Hs a E0); congruence]).
    match goal with H : CircularQueue.deref _ _ = Ok _, H2 : bool_decide _ = true |- _ =>
      rewrite Hwb, (deref_at _ k e) in H by (apply Hok1 || done); apply ok_inj in H; rewrite <- H in H2; apply bool_decide_eq_true_1 in H2; rename H2 into Hre end.
    apply quiet_frame; [reflexivity|unit_tac|done| |].
    + intros _ _. exists k, e. split_and!; [done..|]. simpl. intros r' q1 Hr' Hq1. rewrite Hre in Hr'. simplify_eq.
      rewrite lookup_insert_eq in Hq1. simplify_eq. apply not_sent.
    + simpl. intros r' q1 Hq1. destruct (decide (r = r')) as [<-|Hne].
      * rewrite lookup_insert_eq in Hq1. simplify_eq. exists a. split; [done|]. apply req_quiet_step, req_quiet_not_sent.
      * rewrite lookup_insert_ne in Hq1 by done. exists q1. split; [done|]. by apply req_quiet_step.
Qed.

Lemma quiet_trySendPacket r k w ok w' : core_ok w -> may_send w r -> trySendPacket E r k w = Ok (ok, w') -> quiet w w'.
Proof.
  unfold trySendPacket. intros Hok Hs H. inv_res. destruct (_packets a !! k) as [p|]; [|done]. inv_res.
  destruct (_ && _); inv_res; [by eapply quiet_packet_gone|by eapply quiet_packet_refused].
Qed.

Lemma quiet_split_send r : forall fuel w w', core_ok w -> may_send w r -> split_send E fuel r w = Ok w' -> quiet w w'.
Proof.
  induction fuel as [|fuel IH]; intros w w' Hok Hs H; simpl in H; inv_res; apply req_at_inv in E0.
  - destruct (_ <? _); by inv_res.
  - destruct (_ <? _); [|by inv_res]. inv_res. pose proof (quiet_trySendPacket _ _ _ _ _ Hok Hs E1) as Q1.
    destruct b; [|by inv_res]. inv_res. apply req_at_inv in E2. etrans; [exact Q1|].
    match type of H with split_send _ _ _ (set_req _ ?q1 _) = _ =>
      assert (quiet w0 (set_req r q1 w0)) as Q2 by (eapply quiet_set_req; [exact E2|req_quiet_tac]) end.
    etrans; [exact Q2|]. eapply IH; [| |exact H]; [eapply quiet_ok; [|exact Q2]; by eapply quiet_ok|]. eapply may_send_quiet; [exact Q2|]. by eapply may_send_quiet.
Qed.

Lemma quiet_send r w w' : core_ok w -> may_send w r -> sendPacketToCache E r w = Ok w' -> quiet w w'.
Proof.
  unfold sendPacketToCache. intros Hok Hs H. inv_res. destruct (isSplit a); [by eapply quiet_split_send|].
  unfold single_sendPacketToCache in H. inv_res. pose proof (quiet_trySendPacket _ _ _ _ _ Hok Hs E3) as Q1.
  destruct b; inv_res; [|done]. apply req_at_inv in E4. etrans; [exact Q1|]. eapply quiet_set_req; [exact E4|req_quiet_tac].
Qed.

(** The heap and the request [r] change together. *)
Lemma quiet_both r q q' h w :
  reqs w !! r = Some q -> heap_quiet (insts w) h -> req_quiet q q' -> quiet w (set_req r q' (with_insts h w)).
Proof.
  intros Hq Hh Hr. etrans; [by apply quiet_insts|]. by eapply quiet_set_req.
Qed.

Lemma quiet_build r w w' : buildPackets cpu pid r w = Ok w' -> quiet w w'.
Proof.
  unfold buildPackets. intros H. inv_res. apply req_at_inv in E0.
  match goal with H : (if _ then _ else _) = Ok (?h, ?q) |- _ => assert (initiate_quiet (insts w) a h q) as [Q1 Q2] end.
  { destruct (isSplit a); [by eapply split_build_quiet|by eapply single_build_quiet]. }
  by eapply quiet_both.
Qed.

(** ** Translation *)

Lemma quiet_finish r k fault req w w' : finish r k fault req w = Ok w' -> quiet w w'.
Proof.
  unfold finish. intros H. inv_res. apply req_at_inv in E0.
  match goal with H : (if _ then _ else _) = Ok (?h, ?q) |- _ => assert (initiate_quiet (insts w) a h q) as [Q1 Q2] end.
  { destruct (isSplit a); [by eapply split_finish_quiet|by eapply single_finish_quiet]. }
  etrans; [by eapply quiet_both|]. destruct (_ && _); [by eapply quiet_delete_request|by inv_res].
Qed.

Lemma quiet_translate_all r : forall ids w w', translate_all E r ids w = Ok w' -> quiet w w'.
Proof.
  induction ids as [|k ids IH]; intros w w' H; simpl in H; [by inv_res|]. inv_res.
  destruct (_requests a !! k) as [req|]; [|done]. inv_res. etrans; [|by apply IH].
  destruct (translate E (log w) req) as [[f rq]|]; [by eapply quiet_finish|by inv_res].
Qed.

(** The instruction of a request points to it. *)
Lemma quiet_save r p w : belongs w p r -> quiet w (with_insts (alter (DynInst.with_savedReq (Some r)) p (insts w)) w).
Proof.
  intros [Hr Hb]. split; try done; try reflexivity; simpl; auto.
  - intros p'. destruct (decide (p = p')) as [<-|Hne].
    + rewrite lookup_alter_eq. destruct (insts w !! p); simpl; [|done]. split_and!; done.
    + rewrite lookup_alter_ne by done. destruct (insts w !! p'); simpl; done.
  - intros e' r' He' Hr'. left. by exists e'.
  - intros r' q' Hq'. left. exists q'. split; [done|]. by apply req_quiet_step.
  - intros p' i' r' Hi' Hs'. destruct (decide (p = p')) as [<-|Hne].
    + rewrite lookup_alter_eq in Hi'. destruct (insts w !! p) as [i|]; [|done]. simpl in Hi'. simplify_eq. simpl in Hs'.
      simplify_eq. right. done.
    + rewrite lookup_alter_ne in Hi' by done. left. by exists i'.
Qed.

Lemma quiet_initiateTranslation r w w' :
  (forall q, reqs w !! r = Some q -> belongs w (_inst q) r) ->
  initiateTranslation cpu E domain context now r w = Ok w' -> quiet w w'.
Proof.
  unfold initiateTranslation. intros Hb H. inv_res. apply req_at_inv in E0. specialize (Hb a E0).
  destruct (isHtmCmdRequest a); inv_res.
  - match goal with H : on_inst _ _ _ = Ok ?y |- _ => pose proof H as (? & ? & Hy)%on_inst_inv; apply quiet_on_inst in H; [|intros; inst_quiet_tac] end.
    etrans; [eassumption|]. eapply quiet_set_req; [by rewrite Hy|]. req_quiet_tac.
  - match goal with H : (if _ then _ else _) = Ok (?h, ?q, ?ids) |- _ => assert (initiate_quiet (insts w) a h q) as [Q1 Q2] end.
    { destruct (isSplit a); [by eapply split_initiate_quiet|by eapply single_initiate_quiet]. }
    etrans; [|by eapply quiet_translate_all].
    assert (_inst t0 = _inst a) as Hi by apply Q2.
    destruct l as [|k l]; [by eapply quiet_both|].
    match goal with Hx : heap_quiet _ ?hh |- _ => etrans; [by eapply (quiet_insts hh)|] end. etrans; [apply (quiet_save r (_inst a))|].
    + eapply belongs_quiet; [by apply quiet_insts|done].
    + simpl. rewrite Hi. eapply (quiet_set_req r a); [done|done].
Qed.

(** ** Loads *)

(** The load queue entry at index [idx] is that of instruction [p]. *)
Definition load_entry (w : World) (idx : Z) (p : DynInstPtr) : Prop :=
  exists k e, idx = lq_head w + Z.of_nat k /\ lq w !! k = Some e /\ LSQEntry.inst e = Some p.

Lemma load_entry_quiet w w' idx p : quiet w w' -> load_entry w idx p -> load_entry w' idx p.
Proof.
  intros Hq (k & e & -> & He & Hp). pose proof (quiet_lq_shape _ _ Hq) as Hs. symmetry in Hs.
  destruct (same_shape _ _ _ _ _ Hs He) as (e' & He' & Hsh). exists k, e'.
  destruct (quiet_heads _ _ Hq) as (-> & _). split_and!; [done..|]. unfold lshape in Hsh. congruence.
Qed.

Lemma quiet_lq_req w w' idx p x :
  core_ok w -> load_entry w idx p -> (forall r, x = Some r -> belongs w p r) ->
  on_lq idx (LSQEntry.setRequest x) w = Ok w' -> quiet w w'.
Proof.
  intros Hok (k & e & -> & He & Hp) Hx H. eapply quiet_on_lq; [apply Hok|exact He|exact H|].
  intros r Hr. exists p. split; [done|by apply Hx].
Qed.

Lemma load_request w idx p r : core_ok w -> load_entry w idx p -> belongs w p r ->
  r < nextReq w /\ forall q, reqs w !! r = Some q -> isLoad q = true /\ _inst q = p.
Proof.
  intros Hok (k & e & _ & He & Hp) [Hr Hb]. split; [done|]. intros q Hq. pose proof (Hb q Hq) as Hi. split; [|done].
  destruct (uo_reqs _ Hok r q Hq) as (_ & i & Hii & Hl & _). pose proof (uo_lq_occ _ Hok) as Hocc.
  rewrite Forall_lookup in Hocc. destruct (occupied_inst _ _ _ (Hocc k e He)) as (p' & i' & Hp' & Hi' & Hl' & _).
  congruence.
Qed.

Lemma quiet_schedule p pkt w w' : schedule_writeback p pkt w = Ok w' -> quiet w w'.
Proof.
  unfold schedule_writeback. intros H. inv_res. destruct (DynInst.savedReq a) as [r|]; [|done].
  unfold writebackScheduled in H. inv_res. apply req_at_inv in E1.
  etrans; [|apply quiet_events]. eapply quiet_set_req; [exact E1|req_quiet_tac].
Qed.

Lemma quiet_reschedule p w w' : reschedule p w = Ok w' -> quiet w w'.
Proof.
  unfold reschedule, rescheduleMemInst. intros H. inv_res. etrans; [apply quiet_emit|].
  etrans; (eapply quiet_on_inst; [|eassumption]); intros; inst_quiet_tac.
Qed.

Lemma fill_quiet bytes i : inst_quiet i (fill_memData bytes i).
Proof. apply inst_quiet_field; first [done | by left]. Qed.
Lemma alloc_quiet n i : inst_quiet i (alloc_memData n i).
Proof. unfold alloc_memData. destruct (DynInst.memData i); inst_quiet_tac. Qed.

Lemma quiet_forward r p main e st w w' : forward pid r p main e st w = Ok w' -> quiet w w'.
Proof.
  unfold forward. intros H. inv_res.
  match goal with H : on_inst _ _ _ = Ok _ |- _ => apply quiet_on_inst in H; [|intros; apply fill_quiet] end.
  match goal with H : schedule_writeback _ _ _ = Ok _ |- _ => apply quiet_schedule in H end.
  match goal with H : req_at _ _ = Ok _ |- _ => apply req_at_inv in H end.
  etrans; [eassumption|]. etrans; [|eassumption].
  match goal with H : (if isAnyOutstandingRequest ?q then _ else _) = Ok _ |- _ => destruct (isAnyOutstandingRequest q); [|by inv_res] end.
  unfold discardSenderState in *. inv_res.
  match goal with H : match _senderState ?q with _ => _ end = Ok _ |- _ => destruct (_senderState q) eqn:Hst end; inv_res.
  eapply quiet_set_req; [eassumption|]. by apply (req_quiet_ss deleteRequest).
Qed.

Lemma quiet_discard r w w' : discard r w = Ok w' -> quiet w w'.
Proof. by apply quiet_release. Qed.

Lemma quiet_stall_load r idx p e st w w' :
  core_ok w -> load_entry w idx p -> stall_load r idx p e st w = Ok w' -> quiet w w'.
Proof.
  unfold stall_load. intros Hok Hle H. inv_res.
  match goal with H : reschedule _ ?x = Ok _ |- _ => assert (quiet w x) as Q1
    by (match goal with b : bool |- _ => destruct b end; [apply quiet_upd; [unit_tac|done]|reflexivity]); apply quiet_reschedule in H end.
  match goal with H : discard _ _ = Ok ?y |- _ => apply quiet_discard in H; assert (quiet w y) as Q2 by (etrans; [exact Q1|quiet_chain]) end.
  etrans; [exact Q2|]. eapply (quiet_lq_req _ _ _ _ None); [by eapply quiet_ok|by eapply load_entry_quiet|intros ? [=]|exact H].
Qed.

Lemma quiet_blockMemInst p w w' : blockMemInst p w = Ok w' -> quiet w w'.
Proof.
  unfold blockMemInst. intros H. etrans; [apply quiet_emit|]. eapply quiet_on_inst; [|exact H]. intros; inst_quiet_tac.
Qed.

Lemma quiet_access_memory r idx p main w w' :
  core_ok w -> load_entry w idx p -> belongs w p r -> access_memory cpu E pid r idx p main w = Ok w' -> quiet w w'.
Proof.
  unfold access_memory. intros Hok Hle Hb H. inv_res.
  match goal with H : on_inst _ _ w = Ok _ |- _ => apply quiet_on_inst in H; [|intros; apply alloc_quiet] end.
  assert (quiet a0 a1) as Q2.
  { destruct (Request.isHTMCmd main); [|by inv_res]. eapply quiet_on_inst; [|eassumption]. intros; inst_quiet_tac. }
  assert (quiet w a1) as Q by (etrans; eassumption).
  apply (quiet_ok _ _ Hok) in Q as Hok1. pose proof (load_entry_quiet _ _ _ _ Q Hle) as Hle1.
  pose proof (belongs_quiet _ _ _ _ Q Hb) as Hb1. destruct (load_request _ _ _ _ Hok1 Hle1 Hb1) as [Hr Hqs].
  match goal with H : req_at _ a1 = Ok ?q |- _ => apply req_at_inv in H; destruct (Hqs q H) as [Hl Hi]; rename H into Hreq end.
  match goal with H : buildPackets _ _ _ ?x = Ok _ |- _ => assert (quiet a1 x) as Q3; [|apply quiet_build in H] end.
  { destruct (_senderState a2) as [st|] eqn:Hst; [reflexivity|]. eapply quiet_set_req_step; [exact Hreq|done|].
    split_and!; [done..|]. intros st' [= <-] _. right. split; [done|by left]. }
  match goal with H : sendPacketToCache _ _ ?x = Ok _ |- _ => assert (quiet a1 x) as Q4 by (etrans; eassumption);
    apply quiet_send in H; [|by eapply (quiet_ok a1)|eapply may_send_quiet; [exact Q4|]; right; split; [done|]; intros q Hq; by apply Hqs] end.
  etrans; [exact Q|]. etrans; [exact Q4|]. etrans; [eassumption|].
  destruct (isSent _); [by inv_res|by eapply quiet_blockMemInst].
Qed.

Lemma quiet_read_local p main acc w w' : read_local pid p main acc w = Ok w' -> quiet w w'.
Proof.
  unfold read_local. intros H. inv_res. apply inst_at_inv in E0. etrans; [|by eapply quiet_schedule].
  eapply quiet_set_inst; [exact E0|inst_quiet_tac].
Qed.

Lemma quiet_read_htm p main w w' : read_htm pid p main w = Ok w' -> quiet w w'.
Proof.
  unfold read_htm. intros H. inv_res. etrans; [|by eapply quiet_schedule].
  eapply quiet_on_inst; [|eassumption]. intros; apply alloc_quiet.
Qed.

Lemma lq_get_entry w idx p e : core_ok w -> load_entry w idx p -> lq_get idx w = Ok e -> LSQEntry.inst e = Some p.
Proof.
  intros Hok (k & e0 & -> & He & Hp) H. unfold lq_get, lq_head in H. rewrite (get_contents _ k e0) in H by (apply Hok || done).
  by inv_res.
Qed.

Lemma quiet_read r idx p w f w' :
  core_ok w -> load_entry w idx p -> belongs w p r -> read cpu E pid r idx w = Ok (f, w') -> quiet w w'.
Proof.
  unfold read. intros Hok Hle Hb H. inv_res. apply (quiet_lq_req _ _ _ _ _ Hok Hle) in E0; [|by intros ? [= <-]].
  rename E0 into Q. apply (quiet_ok _ _ Hok) in Q as Hok1. pose proof (load_entry_quiet _ _ _ _ Q Hle) as Hle1.
  pose proof (belongs_quiet _ _ _ _ Q Hb) as Hb1. etrans; [exact Q|]. clear Q Hok Hle Hb. rename a into w1.
  match goal with G : lq_get _ _ = Ok _ |- _ => apply (lq_get_entry _ _ _ _ Hok1 Hle1) in G; rewrite G in H end. inv_res.
  match goal with H : match ?m with Some _ => _ | None => Err _ end = Ok _ |- _ => destruct m as [main|]; [|done] end.
  destruct (too_early main idx _ w1); inv_res.
  { match goal with H : reschedule _ _ = Ok _ |- _ => apply quiet_reschedule in H as Q1 end.
    match goal with H : discard _ _ = Ok _ |- _ => apply quiet_discard in H as Q3 end.
    etrans; [exact Q1|]. etrans; [|exact Q3].
    eapply (quiet_lq_req _ _ _ _ None); [by eapply (quiet_ok _ _ Hok1)|by eapply load_entry_quiet|intros ? [=]|eassumption]. }
  match goal with H : (if Request.isLLSC main then _ else _) = Ok ?x |- _ => assert (quiet w1 x) as Q1
    by (destruct (Request.isLLSC main); [eapply quiet_on_inst; [|exact H]; intros; inst_quiet_tac|by inv_res]); clear H end.
  etrans; [exact Q1|]. apply (quiet_ok _ _ Hok1) in Q1 as Hok2. pose proof (load_entry_quiet _ _ _ _ Q1 Hle1) as Hle2.
  pose proof (belongs_quiet _ _ _ _ Q1 Hb1) as Hb2. clear Q1 Hok1 Hle1 Hb1.
  destruct (Request._localAccessor main); inv_res; [by eapply quiet_read_local|].
  destruct (_ && _); inv_res; [by eapply quiet_read_htm|].
  match goal with H : match ?found with Some _ => _ | None => _ end = Ok _ |- _ => destruct found as [[[[it e] st] c]|] end.
  - destruct c; [by eapply quiet_stall_load|by eapply quiet_forward|by eapply quiet_stall_load].
  - by eapply quiet_access_memory.
Qed.

(** ** Stores *)

(** The store queue entry at index [idx] is that of instruction [p]. *)
Definition store_entry (w : World) (idx : Z) (p : DynInstPtr) (b : bool) : Prop :=
  exists k e, idx = sq_head w + Z.of_nat k /\ sq w !! k = Some e /\ LSQEntry.inst (SQEntry.base e) = Some p /\ SQEntry._canWB e = b.

Lemma store_entry_quiet w w' idx p b : quiet w w' -> store_entry w idx p b -> store_entry w' idx p b.
Proof.
  intros Hq (k & e & -> & He & Hp & Hb). destruct (qt_sq _ _ Hq) as (_&_&_&_&_&Hs). symmetry in Hs.
  destruct (same_shape _ _ _ _ _ Hs He) as (e' & He' & Hsh). exists k, e'.
  destruct (quiet_heads _ _ Hq) as (_ & -> & _). unfold sshape, lshape in Hsh. split_and!; [done..|congruence|congruence].
Qed.

Lemma sq_get_entry w k e e0 : core_ok w -> sq w !! k = Some e0 -> sq_get (sq_head w + Z.of_nat k) w = Ok e -> e = e0.
Proof.
  intros Hok He H. unfold sq_get, sq_head in H. rewrite (get_contents _ k e0) in H by (apply Hok || done). by inv_res.
Qed.

Lemma quiet_write r data idx p w f w' :
  core_ok w -> store_entry w idx p false -> belongs w p r -> write r data idx w = Ok (f, w') -> quiet w w'.
Proof.
  unfold write. intros Hok (k & e0 & -> & He & Hp & Hc) Hb H. inv_res.
  match goal with H : sq_get _ _ = Ok _ |- _ => apply (sq_get_entry _ _ _ _ Hok He) in H as -> end.
  match goal with H : match ?m with Some _ => _ | None => Err _ end = Ok _ |- _ => destruct m as [main|]; [|done] end.
  inv_res. match goal with H : sq_set _ ?e1 _ = Ok _ |- _ => eapply (quiet_sq_set w w' k e0 e1); [apply Hok|done|exact H|..];
    clear H; match goal with H : (if _ then _ else _) = Ok e1 |- _ => repeat case_match; inv_res end end;
    first [done | right; split; [done|]; intros r' [= <-]; by exists p].
Qed.

Lemma quiet_install r q p i w w' :
  core_ok w -> _inst q = p -> insts w !! p = Some i -> belongs w p r -> isLoad q = DynInst.isLoad i ->
  (if DynInst.isLoad i then in_lq w p else in_sq w p false) -> install r q w = Ok w' -> quiet w w'.
Proof.
  unfold install. intros Hok Hp Hi Hb Hl Hin H. rewrite Hp in H. rewrite (inst_at_Ok _ _ _ Hi) in H. cbn [rbind] in H.
  rewrite Hl in H. destruct (DynInst.isLoad i).
  - destruct (lq_place _ _ _ Hok Hin Hi) as (k & e & He & Hpe & Hidx). rewrite Hidx in H.
    eapply quiet_on_lq; [apply Hok|exact He|exact H|]. intros r' [= <-]. by exists p.
  - destruct (sq_place _ _ _ _ Hok Hin Hi) as (k & e & He & Hpe & Hc & Hidx). rewrite Hidx in H.
    unfold on_sq in H. inv_res. match goal with H : sq_get _ _ = Ok _ |- _ => apply (sq_get_entry _ _ _ _ Hok He) in H as -> end.
    eapply quiet_sq_set; [apply Hok|exact He|exact H|done|]. right. split; [done|]. intros r' [= <-]. by exists p.
Qed.

Lemma make_isLoad p i b addr size fl res amo split be tk : isLoad (LSQRequest.make p i b addr size fl res amo split be tk) = b.
Proof.
  unfold isLoad, LSQRequest.make. simpl. by destruct b, (DynInst.isStoreConditional i), (DynInst.isAtomic i), split.
Qed.

Lemma make_isSent p i b addr size fl res amo split be tk : isSent (LSQRequest.make p i b addr size fl res amo split be tk) = false.
Proof.
  unfold isSent, LSQRequest.make. simpl. by destruct b, (DynInst.isStoreConditional i), (DynInst.isAtomic i), split.
Qed.

(** ** The access of an instruction *)

Definition placed (w : World) (p : DynInstPtr) (i : DynInst.t) : Prop :=
  if DynInst.isLoad i then in_lq w p else in_sq w p false.

Lemma placed_quiet w w' p i j : quiet w w' -> DynInst.isLoad j = DynInst.isLoad i -> placed w p i -> placed w' p j.
Proof.
  intros Hq Hl. unfold placed. rewrite Hl. destruct (DynInst.isLoad i); [by apply in_lq_quiet|by apply in_sq_quiet].
Qed.

(** A request that does not exist yet. *)
Lemma quiet_make q p i w :
  _inst q = p -> insts w !! p = Some i -> isLoad q = DynInst.isLoad i -> isSent q = false -> _senderState q = None ->
  quiet w (mkW (insts w) (<[nextReq w := q]> (reqs w)) (nextReq w + 1) (ports w) (unit w) (htm_cpt w) (globalHtmUid w)
             (events w) (log w)).
Proof.
  intros Hp Hi Hl Hse Hss. split; try done; try reflexivity; simpl; auto; try lia.
  - intros H Hb. destruct (H Hb) as (k & e & H1 & H2 & H3 & H4). exists k, e. split_and!; [done..|]. simpl. intros r q' Hr Hq'.
    destruct (decide (nextReq w = r)) as [<-|Hne]; [rewrite lookup_insert_eq in Hq'; congruence|].
    rewrite lookup_insert_ne in Hq' by done. by eapply H4.
  - intros e' r He' Hr. left. by exists e'.
  - intros r q' Hq'. destruct (decide (nextReq w = r)) as [<-|Hne].
    + rewrite lookup_insert_eq in Hq'. simplify_eq. right. split; [done|]. split; [simpl; lia|]. exists i.
      split_and!; [done..|]. intros st Hst. congruence.
    + rewrite lookup_insert_ne in Hq' by done. left. exists q'. split; [done|]. by apply req_quiet_step.
  - intros p' i' r Hi' Hs. left. by exists i'.
Qed.

Lemma install_reqs r q w w' : install r q w = Ok w' -> reqs w' = reqs w /\ nextReq w' = nextReq w.
Proof.
  unfold install, on_lq, on_sq, lq_set, sq_set. intros H. inv_res. destruct (isLoad q); inv_res; done.
Qed.

Lemma construct_htm_cmd_fails r q w w' :
  reqs w !! r = Some q -> _byteEnable q = [] -> _requests q = [] ->
  construct_htm_cmd cpu domain context now r w = Ok w' -> False.
Proof.
  intros Hq Hb Hr H. unfold construct_htm_cmd in H. rewrite (req_at_Ok _ _ _ Hq) in H. cbn [rbind] in H.
  unfold addRequest in H. rewrite Hb in H. simpl in H. by rewrite Hr in H.
Qed.

Lemma quiet_new_request p i is_load size addr fl extra amo be burst w r w' :
  core_ok w -> insts w !! p = Some i -> is_load = DynInst.isLoad i -> placed w p i ->
  new_request cpu domain context now task p is_load size addr fl extra amo be burst w = Ok (r, w') ->
  quiet w w' /\ belongs w' p r.
Proof.
  intros Hok Hi Hl Hpl H. unfold new_request in H. rewrite (inst_at_Ok _ _ _ Hi) in H. cbn [rbind] in H.
  set (htm := is_load && _) in *. set (q := if htm then _ else _) in *.
  assert (_inst q = p /\ isLoad q = is_load /\ isSent q = false /\ _senderState q = None /\ _byteEnable q = [] /\ _requests q = [])
    as (Q1 & Q2 & Q2' & Q3 & Q4 & Q5).
  { unfold q. destruct htm eqn:Hh; [|by rewrite make_isLoad, make_isSent]. rewrite make_isLoad, make_isSent. unfold htm in Hh.
    apply andb_true_iff in Hh as [-> _]. done. }
  clearbody q. inv_res.
  match goal with H : install _ _ ?x = Ok _ |- _ => assert (quiet w x) as Qm by (by apply (quiet_make q (_inst q) i)); pose proof (install_reqs _ _ _ _ H) as [R1 R2] end.
  match goal with H : install ?r ?q ?x = Ok _ |- _ => apply (quiet_install r q (_inst q) i) in H;
    [|by eapply (quiet_ok w)|done|done| |done|by eapply (placed_quiet w)] end.
  2:{ split; [simpl; lia|]. simpl. intros q'. rewrite lookup_insert_eq. by intros [= <-]. }
  destruct htm.
  { exfalso. match goal with H : construct_htm_cmd _ _ _ _ _ _ = Ok _ |- _ => eapply construct_htm_cmd_fails; [|exact Q4|exact Q5|exact H] end.
    rewrite R1. simpl. apply lookup_insert_eq. }
  inv_res. match goal with H : req_at _ _ = Ok ?q' |- _ => apply req_at_inv in H as Hq; rewrite R1 in Hq; simpl in Hq;
    rewrite lookup_insert_eq in Hq; assert (q' = q) as -> by congruence; clear H Hq end.
  split.
  - etrans; [exact Qm|]. etrans; [eassumption|]. eapply quiet_set_req; [rewrite R1; simpl; apply lookup_insert_eq|req_quiet_tac].
  - split; [simpl; rewrite R2; simpl; lia|]. simpl. intros q' Hq'. rewrite lookup_insert_eq in Hq'. by simplify_eq.
Qed.

Lemma quiet_perform r p i is_load data size w w' :
  core_ok w -> insts w !! p = Some i -> is_load = DynInst.isLoad i -> placed w p i -> belongs w p r ->
  perform cpu E pid r p is_load data size w = Ok w' -> quiet w w'.
Proof.
  intros Hok Hi Hl Hpl Hb H. unfold perform in H. inv_res. destruct (isTranslationComplete a); [|by inv_res].
  destruct (isMemAccessRequired a).
  - inv_res. match goal with H : on_inst p _ w = Ok ?x |- _ => pose proof H as (i0 & Hi0 & Hx)%on_inst_inv; apply quiet_on_inst in H as Q1; [|intros; inst_quiet_tac]; clear H end.
    assert (i0 = i) as -> by congruence.
    apply (quiet_ok _ _ Hok) in Q1 as Hok1. pose proof (belongs_quiet _ _ _ _ Q1 Hb) as Hb1.
    match goal with H : inst_at p _ = Ok ?x |- _ => apply inst_at_inv in H; rename x into j; rename H into Hj end.
    assert (DynInst.isLoad j = DynInst.isLoad i) as Hlj.
    { rewrite Hx in Hj. simpl in Hj. rewrite lookup_insert_eq in Hj. by simplify_eq. }
    pose proof (placed_quiet _ _ _ _ _ Q1 Hlj Hpl) as Hpl1. unfold placed in Hpl1. rewrite Hlj, <- Hl in Hpl1.
    match goal with H : (if is_load then _ else _) = Ok (_, ?x) |- _ => assert (quiet a1 x) as Q2; [|clear H] end.
    { destruct is_load.
      - destruct (lq_place _ _ _ Hok1 Hpl1 Hj) as (k & e & He & Hpe & Hidx). eapply quiet_read; [exact Hok1| |exact Hb1|eassumption].
        rewrite Hidx. by exists k, e.
      - destruct (sq_place _ _ _ _ Hok1 Hpl1 Hj) as (k & e & He & Hpe & Hc & Hidx). eapply quiet_write; [exact Hok1| |exact Hb1|eassumption].
        rewrite Hidx. by exists k, e. }
    etrans; [exact Q1|]. etrans; [exact Q2|].
    match type of H with match ?f with _ => _ end = _ => destruct f end; [|by inv_res].
    eapply quiet_on_inst; [|exact H]. intros; inst_quiet_tac.
  - destruct is_load; [|by inv_res]. eapply quiet_on_inst; [|exact H]. intros; inst_quiet_tac.
Qed.

Lemma quiet_pushRequest p i is_load data size addr fl extra amo be w f w' :
  core_ok w -> insts w !! p = Some i -> is_load = DynInst.isLoad i -> placed w p i ->
  pushRequest cpu E domain context now pid task p is_load data size addr fl extra amo be w = Ok (f, w') -> quiet w w'.
Proof.
  intros Hok Hi Hl Hpl H. unfold pushRequest in H. inv_res. rewrite (inst_at_Ok _ _ _ Hi) in *. inv_res.
  match goal with H : perform _ _ _ ?r _ _ _ _ ?x = Ok _ |- _ => assert (quiet w x /\ belongs x p r) as [Q1 Hb] end.
  { destruct (DynInst.translationStarted a).
    - destruct (DynInst.savedReq a) as [r|] eqn:Hs; inv_res. split; [reflexivity|]. by apply (uo_saved _ Hok p a).
    - inv_res. match goal with H : new_request _ _ _ _ _ _ _ _ _ _ _ _ _ _ _ = Ok _ |- _ => apply (quiet_new_request p a) in H as [Q Hb]; [|done..] end.
      match goal with H : on_inst p _ _ = Ok _ |- _ => apply quiet_on_inst in H as Q'; [|intros; inst_quiet_tac] end.
      match goal with H : initiateTranslation _ _ _ _ _ _ _ = Ok _ |- _ => apply quiet_initiateTranslation in H as Q'' end.
      + split; [quiet_chain|]. eapply belongs_quiet; [exact Q''|]. by eapply belongs_quiet.
      + intros q Hq. pose proof (belongs_quiet _ _ _ _ Q' Hb) as Hb'. by rewrite (proj2 Hb' q Hq). }
  etrans; [exact Q1|]. destruct (heap_step_fwd _ _ _ _ (qt_heap _ _ Q1) Hi) as (j & Hj & Hij).
  apply inst_step_kind in Hij as (_ & Hk & _).
  eapply (quiet_perform _ p j); last eassumption; [by eapply quiet_ok|done|by rewrite Hk|by eapply placed_quiet|exact Hb].
Qed.

(** Every access is of the kind of its instruction. *)
Hypothesis Hkind : forall i, match initiate E i with
  | Push is_load _ _ _ _ _ _ _ => is_load = DynInst.isLoad i | NoAccess _ _ => True end.

Lemma quiet_initiateAcc p i w f w' :
  core_ok w -> insts w !! p = Some i -> placed w p i ->
  initiateAcc cpu E domain context now pid task p w = Ok (f, w') -> quiet w w'.
Proof.
  intros Hok Hi Hpl H. unfold initiateAcc in H. rewrite (inst_at_Ok _ _ _ Hi) in H. cbn [rbind] in H. inv_res.
  match goal with H : on_inst _ _ _ = Ok w' |- _ => apply quiet_on_inst in H as Q2; [|intros; inst_quiet_tac] end.
  etrans; [|exact Q2]. specialize (Hkind i). destruct (initiate E i).
  - inv_res. eapply quiet_on_inst; [|eassumption]. intros; inst_quiet_tac.
  - by eapply quiet_pushRequest.
Qed.

(** ** Memory order *)

Lemma quiet_violator v w : is_Some (insts w !! v) -> quiet w (upd (with_memDepViolator (Some v)) w).
Proof.
  intros Hv. split; try done; try reflexivity; simpl; auto.
  - intros v' [= <-]. by right.
  - intros e' r He' Hr. left. by exists e'.
  - intros r q' Hq'. left. exists q'. split; [done|]. by apply req_quiet_step.
  - intros p i' r Hi Hs. left. by exists i'.
Qed.

Lemma quiet_check_load i lo hi lp w stop w' : check_load P i lo hi lp w = Ok (stop, w') -> quiet w w'.
Proof.
  unfold check_load. intros H. inv_res. apply inst_at_inv in E0. destruct (_ || _); [by inv_res|].
  destruct (_ && _); [|by inv_res]. inv_res.
  destruct (DynInst.isLoad i).
  - destruct (_ && _); inv_res; [apply quiet_violator; eauto|]. eapply quiet_on_inst; [|eassumption]. intros; inst_quiet_tac.
  - match type of H with (if ?b then _ else _) = _ => destruct b end; inv_res; [reflexivity|]. apply quiet_violator. eauto.
Qed.

Lemma quiet_check_loads i lo hi : forall n it w f w', check_loads P n i lo hi it w = Ok (f, w') -> quiet w w'.
Proof.
  induction n as [|n IH]; intros it w f w' H; cbn [check_loads] in H; destruct (CircularQueue.it_eqb _ _); inv_res; try reflexivity.
  match goal with H : check_load _ _ _ _ _ _ = Ok _ |- _ => apply quiet_check_load in H as Q end.
  match type of H with match ?o with _ => _ end = _ => destruct o end; [by inv_res|]. etrans; [exact Q|by eapply IH].
Qed.

Lemma quiet_checkViolations it p w f w' : checkViolations P it p w = Ok (f, w') -> quiet w w'.
Proof. unfold checkViolations. intros H. inv_res. by eapply quiet_check_loads. Qed.

(** ** Execution *)

Lemma quiet_executeLoad p i w f w' :
  core_ok w -> insts w !! p = Some i -> DynInst.isLoad i = true -> in_lq w p ->
  executeLoad P cpu E domain context now pid task p w = Ok (f, w') -> quiet w w'.
Proof.
  intros Hok Hi Hl Hin H. unfold executeLoad in H. rewrite (inst_at_Ok _ _ _ Hi) in H. inv_res.
  match goal with H : initiateAcc _ _ _ _ _ _ _ _ _ = Ok _ |- _ => apply (quiet_initiateAcc p a) in H as Q; [|done..|unfold placed; by rewrite Hl]; clear H end.
  etrans; [exact Q|]. clear Q. match goal with H : inst_at p _ = Ok _ |- _ => apply inst_at_inv in H as Hj; clear H end.
  destruct (_ && _).
  { inv_res. etrans; [|apply quiet_emit]. etrans; [|apply quiet_emit]. eapply quiet_set_inst; [exact Hj|inst_quiet_tac]. }
  destruct (_ && _); [by inv_res|]. inv_res.
  match type of H with (if ?b then _ else _) = _ => destruct b end; [by inv_res|].
  destruct (_ || _).
  - inv_res. etrans; [|apply quiet_emit].
    match goal with H : (if ?b then on_inst _ _ ?x else Ok ?x) = Ok _ |- _ => etrans; [instantiate (1 := x);
      match goal with |- quiet _ (if ?c then _ else _) => destruct c end; [apply quiet_emit|reflexivity]|];
      destruct b; [eapply quiet_on_inst; [|exact H]; intros; inst_quiet_tac|by inv_res] end.
  - match type of H with (if ?b then _ else _) = _ => destruct b end; [by eapply quiet_checkViolations|by inv_res].
Qed.

(** ** Responses *)

Lemma quiet_writeback p pkt w w' : writeback E p pkt w = Ok w' -> quiet w w'.
Proof.
  unfold writeback. intros H. inv_res. apply inst_at_inv in E0. destruct (DynInst.isSquashed a); [by inv_res|]. inv_res.
  etrans; [|apply quiet_emit]. etrans; [|apply quiet_emit].
  destruct (DynInst.isExecuted a); cbn [negb] in *; [by inv_res|]. destruct (DynInst.fault a).
  - inv_res. eapply quiet_set_inst; [exact E0|inst_quiet_tac].
  - inv_res. etrans; [|apply quiet_emit]. eapply quiet_set_inst; [exact E0|inst_quiet_tac].
Qed.

Lemma quiet_process_event w w' : process_event E w = Ok w' -> quiet w w'.
Proof.
  unfold process_event. intros H. destruct (events w) as [|[p pkt] rest]; [done|]. inv_res.
  etrans; [apply quiet_events|]. etrans; [by eapply quiet_writeback|].
  destruct (DynInst.savedReq _); [by eapply quiet_writebackDone|done].
Qed.

Lemma quiet_arrived k pkt q w w' : arrived k pkt q w = Ok w' -> quiet w w'.
Proof.
  unfold arrived. intros H. destruct (_packets q !! k); [|done]. destruct (Packet.data pkt); [|done].
  destruct (isLoad q); inv_res; [|reflexivity]. eapply quiet_on_inst; [|exact H]. intros; inst_quiet_tac.
Qed.

(** ** Snoops *)

Lemma quiet_snoop_loads a : forall n force it w w', snoop_loads P cpu n a force it w = Ok w' -> quiet w w'.
Proof.
  induction n as [|n IH]; intros force it w w' H; cbn [snoop_loads] in H; destruct (CircularQueue.it_eqb _ _); inv_res; try reflexivity.
  destruct (LSQEntry.inst _) as [p|]; [|done]. inv_res.
  match goal with H : inst_at p _ = Ok _ |- _ => apply inst_at_inv in H as Hj; clear H end.
  destruct (_ || _); [by eapply IH|]. inv_res.
  match goal with H : req_at _ _ = Ok _ |- _ => apply req_at_inv in H as Hq; clear H end.
  match type of H with (if ?b then _ else _) = _ => destruct b end; [|by eapply IH].
  etrans; [|by eapply IH]. match goal with |- quiet _ (if ?b then _ else _) => destruct b end.
  - etrans; [|eapply quiet_set_req; [exact Hq|req_quiet_tac]]. eapply quiet_set_inst; [exact Hj|inst_quiet_tac].
  - eapply quiet_set_inst; [exact Hj|inst_quiet_tac].
Qed.

Lemma quiet_checkSnoop pkt w w' : checkSnoop P cpu pkt w = Ok w' -> quiet w w'.
Proof.
  unfold checkSnoop. intros H. inv_res. destruct (CircularQueue.empty _); [by inv_res|]. inv_res.
  destruct (LSQEntry.inst _) as [p|]; [|done]. inv_res. by eapply quiet_snoop_loads.
Qed.

End exec.
End LsqExec.
