(* ===== verification/LsqOrder.v ===== *)
(** * Entering and leaving the queues

    Insertion, commit, completion, write-back and squash: the operations that add
    entries at the tail and take them from the head or the tail. *)

From stdpp Require Import gmap sorting.
From S2P Require Import Prelude.
From S2P Require Import CircularQueue BaseUtil MemCmd Request Packet DynInst Rob Lsq LsqFacts LsqSpec LsqUnit LsqUnitFacts LsqForward LsqRead LsqInv LsqQuiet LsqExec.

Local Open Scope Z_scope.

Module LsqOrder.
Import LSQRequest LSQUnit LsqUnitFacts LsqRead LsqInv LsqQuiet LsqExec.

(** ** Entries leave *)

(** A queue loses its first [d] entries and those from position [t] on. *)
Definition cut {A} (d t : nat) (q q' : CircularQueue.t A) : Prop :=
  queue_ok q' /\ CircularQueue._head q' = CircularQueue._head q + Z.of_nat d /\
  CircularQueue.contents q' = drop d (take t (CircularQueue.contents q)).

Lemma cut_at {A} d t (q q' : CircularQueue.t A) k : cut d t q q' -> (d <= k)%nat -> at_pos q' (k - d) = at_pos q k.
Proof. intros (_ & Hh & _) Hk. unfold at_pos. rewrite Hh. f_equal. lia. Qed.

Lemma cut_lookup {A} d t (q q' : CircularQueue.t A) k e :
  cut d t q q' -> CircularQueue.contents q' !! k = Some e ->
  CircularQueue.contents q !! (d + k)%nat = Some e /\ (d + k < t)%nat.
Proof. intros (_ & _ & ->) H. rewrite lookup_drop in H. by apply lookup_take_Some in H. Qed.

Lemma cut_keeps {A} d t (q q' : CircularQueue.t A) k e :
  cut d t q q' -> CircularQueue.contents q !! k = Some e -> (d <= k < t)%nat ->
  CircularQueue.contents q' !! (k - d)%nat = Some e.
Proof.
  intros (_ & _ & ->) H Hk. rewrite lookup_drop, lookup_take_lt by lia. by replace (d + (k - d))%nat with k by lia.
Qed.

Lemma cut_refl {A} t (q : CircularQueue.t A) : queue_ok q -> (length (CircularQueue.contents q) <= t)%nat -> cut 0 t q q.
Proof. intros Hq Ht. split_and!; [done|lia|]. by rewrite drop_0, take_ge. Qed.

Record shrink (dl tl ds ts : nat) (w w' : World) : Prop := {
  sh_heap : heap_step (insts w) (insts w');
  sh_lq : cut dl tl (loadQueue (unit w)) (loadQueue (unit w'));
  sh_sq : cut ds ts (storeQueue (unit w)) (storeQueue (unit w'));
  sh_lq_spare : Forall (fun e => e = LSQEntry.empty) (CircularQueue.spare (loadQueue (unit w')));
  sh_sq_spare : Forall cleared (CircularQueue.spare (storeQueue (unit w')));
  sh_loads : loads (unit w') = CircularQueue._size (loadQueue (unit w'));
  sh_stores : stores (unit w') = CircularQueue._size (storeQueue (unit w'));
  sh_wb : storeWBIt (unit w') = storeWBIt (unit w);
  sh_wb_in : forall k, storeWBIt (unit w) = at_pos (storeQueue (unit w)) k -> (k <= length (sq w))%nat ->
    (forall j e, (j < k)%nat -> sq w !! j = Some e -> SQEntry._canWB e = true) ->
    (ds <= k)%nat /\ (k <= length (sq w') + ds)%nat;
  sh_wb_there : forall k e, sq w !! k = Some e -> SQEntry._canWB e = true -> (k < ts)%nat;
  sh_blocked : isStoreBlocked (unit w') = isStoreBlocked (unit w);
  sh_violator : memDepViolator (unit w') = memDepViolator (unit w);
  sh_ends : forall k e i, lq w' !! k = Some e -> inst_of (insts w') e = Some i ->
    CircularQueue._idx (DynInst.sqIt i) <= sq_end w -> CircularQueue._idx (DynInst.sqIt i) <= sq_end w';
  sh_next : nextReq w' = nextReq w;
  sh_reqs : forall r q', reqs w' !! r = Some q' -> exists q, reqs w !! r = Some q /\
    _inst q' = _inst q /\ isLoad q' = isLoad q /\ (isSent q' = true -> isSent q = true) /\
    forall st', _senderState q' = Some st' -> alive st' = true ->
      exists st, _senderState q = Some st /\ alive st = true /\ inst st' = inst st /\ idx st' = idx st /\
        (isLoad q = false -> at_entry (storeQueue (unit w)) r (idx st) -> at_entry (storeQueue (unit w')) r (idx st));
  sh_saved : forall p i' r, insts w' !! p = Some i' -> DynInst.savedReq i' = Some r ->
    exists i, insts w !! p = Some i /\ DynInst.savedReq i = Some r
}.

Section shrink.
Context (dl tl ds ts : nat) (w w' : World).
Hypothesis Hok : core_ok w.
Hypothesis Hs : shrink dl tl ds ts w w'.

Lemma shrink_lq k e : lq w' !! k = Some e -> lq w !! (dl + k)%nat = Some e.
Proof. intros H. by eapply cut_lookup; [apply Hs|]. Qed.

Lemma shrink_sq k e : sq w' !! k = Some e -> sq w !! (ds + k)%nat = Some e.
Proof. intros H. by eapply cut_lookup; [apply Hs|]. Qed.

Lemma shrink_bases k e : bases w' !! k = Some e -> bases w !! (ds + k)%nat = Some e.
Proof.
  unfold bases. rewrite !list_lookup_fmap. destruct (sq w' !! k) as [x|] eqn:Hx; [|done]. simpl. intros [= <-].
  by rewrite (shrink_sq _ _ Hx).
Qed.

Lemma shrink_heads : lq_head w' = lq_head w + Z.of_nat dl /\ sq_head w' = sq_head w + Z.of_nat ds /\ wb_idx w' = wb_idx w.
Proof.
  destruct (sh_lq _ _ _ _ _ _ Hs) as (_ & Hl & _), (sh_sq _ _ _ _ _ _ Hs) as (_ & Hh & _).
  unfold lq_head, sq_head, wb_idx. rewrite Hl, Hh, (sh_wb _ _ _ _ _ _ Hs). done.
Qed.

Lemma shrink_seq e : seq_of (insts w') e = seq_of (insts w) e.
Proof. apply seq_of_step; [apply Hs|done]. Qed.

Lemma shrink_occupied b (l l' : list LSQEntry.t) :
  (forall k e, l' !! k = Some e -> exists j, l !! j = Some e) ->
  Forall (occupied (insts w) b) l -> Forall (occupied (insts w') b) l'.
Proof.
  intros Hl Hocc. apply Forall_lookup. intros k e He. destruct (Hl k e He) as [j Hj].
  rewrite Forall_lookup in Hocc. eapply occupied_step; [apply Hs|done|by eapply Hocc].
Qed.

Lemma shrink_order d t (l l' : list LSQEntry.t) : l' = drop d (take t l) -> in_order (insts w) l -> in_order (insts w') l'.
Proof.
  intros -> Ho. unfold in_order in *.
  assert (seq_of (insts w') <$> drop d (take t l) = drop d (take t (seq_of (insts w) <$> l))) as ->.
  { rewrite fmap_drop, fmap_take. f_equal. f_equal. apply list_fmap_ext. intros. apply shrink_seq. }
  rewrite <- (take_drop t (seq_of (insts w) <$> l)) in Ho. apply StronglySorted_app in Ho as (_ & Ho & _).
  rewrite <- (take_drop d) in Ho. by apply StronglySorted_app in Ho as (_ & _ & ?).
Qed.

Lemma shrink_load_placed k e i :
  lq w' !! k = Some e -> inst_of (insts w') e = Some i -> load_placed w' (lq_head w' + Z.of_nat k) i.
Proof.
  intros He Hi. destruct (inst_of_step_bwd _ _ e e i (sh_heap _ _ _ _ _ _ Hs) eq_refl Hi) as (i0 & Hi0 & Hii).
  destruct (uo_load_at _ Hok _ _ _ (shrink_lq _ _ He) Hi0) as (H1 & H2 & b & H3 & H4 & H5 & H6).
  pose proof (inst_step_kind _ _ Hii) as (Hsn & _). destruct Hii as (_ & I1 & I2 & _ & I4 & I5).
  destruct shrink_heads as (-> & Hsh & Hwb). pose proof (sh_ends _ _ _ _ _ _ Hs k e i He Hi) as Hend.
  split_and!; [rewrite I1, H1; lia|rewrite I2, H2; f_equal; lia|]. exists b. rewrite I4, H3 in *. simpl in Hend. split_and!; [done|auto| |].
  - rewrite Hwb. intros Hx. apply H5. destruct (DynInst.isExecuted i0); [|done]. by rewrite I5 in Hx.
  - intros j f Hf. rewrite shrink_seq, Hsn, Hsh, <- (H6 _ f (shrink_bases _ _ Hf)). lia.
Qed.

Lemma shrink_store_placed k e i :
  bases w' !! k = Some e -> inst_of (insts w') e = Some i -> store_placed w' (sq_head w' + Z.of_nat k) i.
Proof.
  intros He Hi. destruct (inst_of_step_bwd _ _ e e i (sh_heap _ _ _ _ _ _ Hs) eq_refl Hi) as (i0 & Hi0 & Hii).
  destruct (uo_store_at _ Hok _ _ _ (shrink_bases _ _ He) Hi0) as (H1 & b & H3 & H6).
  pose proof (inst_step_kind _ _ Hii) as (Hsn & _). destruct Hii as (_ & I1 & I2 & I3 & _).
  destruct shrink_heads as (Hlh & -> & _). split; [rewrite I3, H1; lia|]. exists b. rewrite I2, H3. split; [done|].
  intros j f Hf. rewrite shrink_seq, Hsn, Hlh, <- (H6 _ f (shrink_lq _ _ Hf)). lia.
Qed.

Lemma shrink_wb : exists k, storeWBIt (unit w') = at_pos (storeQueue (unit w')) k /\ (k <= length (sq w'))%nat /\
    (forall j e, (j < k)%nat -> sq w' !! j = Some e -> SQEntry._canWB e = true) /\
    (forall j e, (k <= j)%nat -> sq w' !! j = Some e -> SQEntry._completed e = false).
Proof.
  destruct (uo_wb _ Hok) as (k & K1 & K2 & K3 & K4). destruct (sh_wb_in _ _ _ _ _ _ Hs k K1 K2 K3) as [Hd Hl].
  exists (k - ds)%nat. rewrite (cut_at _ _ _ _ k (sh_sq _ _ _ _ _ _ Hs) Hd).
  split_and!; [by rewrite (sh_wb _ _ _ _ _ _ Hs)|lia| |]; intros j e Hj He; apply shrink_sq in He.
  - eapply K3; [|exact He]. lia.
  - eapply K4; [|exact He]. lia.
Qed.

Lemma shrink_held : held w -> held w'.
Proof.
  intros H Hb. rewrite (sh_blocked _ _ _ _ _ _ Hs) in Hb. destruct (H Hb) as (k & e & K1 & He & Hc & Hq).
  destruct (uo_wb _ Hok) as (k' & K1' & K2' & K3' & _).
  assert (k = k') as ->. { rewrite K1 in K1'. unfold at_pos in K1'. injection K1' as K. lia. }
  destruct (sh_wb_in _ _ _ _ _ _ Hs k' K1' K2' K3') as [Hd _].
  exists (k' - ds)%nat, e. split_and!; [|eapply cut_keeps; [apply Hs|exact He|]|done|].
  - rewrite (cut_at _ _ _ _ k' (sh_sq _ _ _ _ _ _ Hs) Hd). by rewrite (sh_wb _ _ _ _ _ _ Hs).
  - split; [done|]. by eapply (sh_wb_there _ _ _ _ _ _ Hs).
  - intros r q' Hr Hq'. destruct (sh_reqs _ _ _ _ _ _ Hs r q' Hq') as (q & Hq0 & _ & _ & Hse & _).
    specialize (Hq r q Hr Hq0). destruct (isSent q'); [|done]. by rewrite Hse in Hq.
Qed.

Lemma shrink_reqs r q' : reqs w' !! r = Some q' -> req_ok w' r q'.
Proof.
  intros Hq'. destruct (sh_reqs _ _ _ _ _ _ Hs r q' Hq') as (q & Hq & S1 & S2 & _ & S3).
  destruct (uo_reqs _ Hok r q Hq) as (Hr & i & Hi & Hl & Hss). split; [by rewrite (sh_next _ _ _ _ _ _ Hs)|].
  destruct (heap_step_fwd _ _ _ _ (sh_heap _ _ _ _ _ _ Hs) Hi) as (j & Hj & Hij). apply inst_step_kind in Hij as (_ & Hk & _).
  exists j. rewrite S1. split_and!; [done|congruence|]. intros st' Hst' Ha.
  destruct (S3 st' Hst' Ha) as (st & Hst & Ha0 & Hin & Hix & Hat). destruct (Hss st Hst Ha0) as [Hin0 Hat0].
  split; [congruence|]. intros Hf. rewrite Hix. rewrite S2 in Hf. auto.
Qed.

Lemma shrink_entries : Forall (entry_ok w') (lq w' ++ bases w').
Proof.
  pose proof (uo_entries _ Hok) as H. apply Forall_forall. intros e He.
  assert (e ∈ lq w ++ bases w) as He0.
  { apply elem_of_app in He as [He|He]; apply list_elem_of_lookup in He as [k Hk]; apply elem_of_app;
      [left; by eapply list_elem_of_lookup_2, shrink_lq|right; by eapply list_elem_of_lookup_2, shrink_bases]. }
  rewrite Forall_forall in H. intros r Hr. destruct (H e He0 r Hr) as [Hlt Hqs]. rewrite (sh_next _ _ _ _ _ _ Hs).
  split; [done|]. intros q' Hq'. destruct (sh_reqs _ _ _ _ _ _ Hs r q' Hq') as (q & Hq & S1 & _). rewrite S1. by apply Hqs.
Qed.

Lemma shrink_ok : core_ok w'.
Proof.
  split.
  - apply Hs.
  - apply Hs.
  - apply Hs.
  - apply Hs.
  - apply Hs.
  - apply Hs.
  - eapply shrink_occupied; [|apply (uo_lq_occ _ Hok)]. intros k e He. eexists. by apply shrink_lq.
  - eapply shrink_occupied; [|apply (uo_sq_occ _ Hok)]. intros k e He. eexists. by apply shrink_bases.
  - apply (shrink_order dl tl (lq w)); [|apply Hok]. unfold lq. by destruct (sh_lq _ _ _ _ _ _ Hs) as (_ & _ & ->).
  - apply (shrink_order ds ts (bases w)); [|apply Hok]. unfold bases, sq. destruct (sh_sq _ _ _ _ _ _ Hs) as (_ & _ & ->).
    by rewrite fmap_drop, fmap_take.
  - apply shrink_wb.
  - apply shrink_load_placed.
  - apply shrink_store_placed.
  - intros k e j f i He Hc Hf Hi Hlt. rewrite shrink_seq in Hlt.
    destruct (inst_of_step_bwd _ _ f f i (sh_heap _ _ _ _ _ _ Hs) eq_refl Hi) as (i0 & Hi0 & Hii).
    pose proof (inst_step_kind _ _ Hii) as (Hsn & _). rewrite Hsn in Hlt. destruct Hii as (_&_&_&_&_&Hx). apply Hx.
    by eapply (uo_committed _ Hok _ e _ f i0 (shrink_sq _ _ He) Hc (shrink_lq _ _ Hf)).
  - apply shrink_held, Hok.
  - rewrite (sh_violator _ _ _ _ _ _ Hs). intros v Hv. destruct (uo_violator _ Hok v Hv) as [i Hi].
    destruct (heap_step_fwd _ _ _ _ (sh_heap _ _ _ _ _ _ Hs) Hi) as (j & Hj & _). by exists j.
  - intros p j Hj. destruct (heap_step_bwd _ _ _ _ (sh_heap _ _ _ _ _ _ Hs) Hj) as (i & Hi & Hij).
    apply inst_step_kind in Hij as (_ & _ & Hk). by apply Hk, (uo_kind _ Hok p).
  - apply shrink_entries.
  - apply shrink_reqs.
  - intros p i r Hi Hr. destruct (sh_saved _ _ _ _ _ _ Hs p i r Hi Hr) as (i0 & Hi0 & Hr0).
    destruct (uo_saved _ Hok p i0 r Hi0 Hr0) as [Hlt Hqs]. rewrite (sh_next _ _ _ _ _ _ Hs). split; [done|].
    intros q' Hq'. destruct (sh_reqs _ _ _ _ _ _ Hs r q' Hq') as (q & Hq & S1 & _). rewrite S1. by apply Hqs.
Qed.
End shrink.

(** ** The ends of a queue *)

Section ends.
Context {A : Type}.
Implicit Types (q : CircularQueue.t A) (x : A).

Lemma front_contents q : queue_ok q -> 0 < CircularQueue._size q ->
  exists e, CircularQueue.contents q !! 0%nat = Some e /\ CircularQueue.front q = Ok e.
Proof.
  intros [Hwf _] Hs. destruct (lookup_lt_is_Some_2 (CircularQueue.contents q) 0) as [e He].
  { rewrite CircularQueue.length_contents by done. lia. }
  exists e. split; [done|]. unfold CircularQueue.front, CircularQueue.head.
  replace (CircularQueue._head q) with (CircularQueue._head q + Z.of_nat 0) by lia. by apply get_contents.
Qed.

Lemma tail_idx q : queue_ok q -> 0 < CircularQueue._size q ->
  CircularQueue.tail q = CircularQueue._head q + Z.of_nat (length (CircularQueue.contents q) - 1).
Proof.
  intros [Hwf _] Hs. rewrite CircularQueue.length_contents by done. pose proof Hwf as (_ & Hc & Hz & Hh & Hw).
  unfold CircularQueue.tail. rewrite uwrap_small by (unfold in_word; lia). lia.
Qed.

Lemma back_contents q : queue_ok q -> 0 < CircularQueue._size q ->
  exists e, CircularQueue.contents q !! (length (CircularQueue.contents q) - 1)%nat = Some e /\ CircularQueue.back q = Ok e.
Proof.
  intros Hq Hs. pose proof Hq as [Hwf _]. pose proof (CircularQueue.length_contents q Hwf) as Hl.
  destruct (lookup_lt_is_Some_2 (CircularQueue.contents q) (length (CircularQueue.contents q) - 1)) as [e He]; [lia|].
  exists e. split; [done|]. unfold CircularQueue.back. rewrite (tail_idx q Hq Hs). by apply get_contents.
Qed.

Lemma clear_front q x q1 q2 t :
  queue_ok q -> 0 < CircularQueue._size q -> (length (CircularQueue.contents q) <= t)%nat ->
  CircularQueue.set (CircularQueue._head q) x q = Ok q1 -> CircularQueue.pop_front 1 q1 = Ok q2 ->
  cut 1 t q q2 /\ CircularQueue.spare q2 = CircularQueue.spare q ++ [x] /\ CircularQueue._size q2 = CircularQueue._size q - 1.
Proof.
  intros [Hwf Hb] Hs Ht H1 H2. pose proof (CircularQueue.length_contents q Hwf) as Hl.
  destruct (set_contents q 0 x Hwf ltac:(lia)) as (q' & Hset & W & C & S & Hh & Hz & Hc).
  rewrite Z.add_0_r in Hset. rewrite Hset in H1. apply ok_inj in H1. subst q'.
  destruct (CircularQueue.pop_front_ok q1 1 W) as (q' & Hpop & W2 & Hh2 & Hz2 & Hc2 & _ & C2 & S2); [lia|lia|].
  rewrite Hpop in H2. apply ok_inj in H2. subst q'. destruct (CircularQueue.contents q) as [|e l] eqn:Hcont; [simpl in Hl; lia|].
  unfold cut, queue_ok. split_and!.
  - done.
  - rewrite Hh2, Hz2, Hc2, Hh, Hz, Hc. lia.
  - rewrite Hh2, Hh. lia.
  - rewrite C2, C, Hcont, take_ge by done. done.
  - rewrite S2, S, C. done.
  - lia.
Qed.

Lemma clear_back q x q1 q2 :
  queue_ok q -> 0 < CircularQueue._size q ->
  CircularQueue.set (CircularQueue.tail q) x q = Ok q1 -> CircularQueue.pop_back q1 = Ok q2 ->
  cut 0 (length (CircularQueue.contents q) - 1) q q2 /\ CircularQueue.spare q2 = x :: CircularQueue.spare q /\
  CircularQueue._size q2 = CircularQueue._size q - 1.
Proof.
  intros Hq Hs H1 H2. pose proof Hq as [Hwf Hb]. pose proof (CircularQueue.length_contents q Hwf) as Hl.
  rewrite (tail_idx q Hq Hs) in H1. set (n := (length (CircularQueue.contents q) - 1)%nat) in *.
  destruct (set_contents q n x Hwf ltac:(lia)) as (q' & Hset & W & C & S & Hh & Hz & Hc).
  rewrite Hset in H1. apply ok_inj in H1. subst q'.
  destruct (CircularQueue.pop_back_ok q1 W) as (q' & Hpop & W2 & Hh2 & Hz2 & Hc2 & _ & Win); [lia|].
  rewrite Hpop in H2. apply ok_inj in H2. subst q'.
  assert (CircularQueue.window q1 = take n (CircularQueue.contents q) ++ x :: CircularQueue.spare q) as Hw.
  { rewrite CircularQueue.window_split, C, S. rewrite insert_take_drop by lia. rewrite (drop_ge _ (Datatypes.S n)) by lia.
    by rewrite <- app_assoc. }
  assert (Z.to_nat (CircularQueue._size q2) = n) as Hn by lia.
  assert (length (take n (CircularQueue.contents q)) = n) as Hlt by (rewrite length_take; lia).
  unfold cut, queue_ok. split_and!.
  - done.
  - rewrite Hh2, Hz2, Hc2, Hh, Hz, Hc. lia.
  - rewrite Hh2, Hh. lia.
  - unfold CircularQueue.contents at 1. rewrite Win, Hw, Hn, drop_0. rewrite take_app_le by lia.
    rewrite take_take. f_equal. lia.
  - unfold CircularQueue.spare at 1. rewrite Win, Hw, Hn. rewrite drop_app_ge by lia. by rewrite Hlt, Nat.sub_diag.
  - lia.
Qed.
End ends.

(** ** The request of an entry is let go *)

Definition freed (o : option Z) (w w' : World) : Prop :=
  heap_quiet (insts w) (insts w') /\ unit w' = unit w /\ nextReq w' = nextReq w /\
  forall r q', reqs w' !! r = Some q' -> exists q, reqs w !! r = Some q /\ req_quiet q q' /\
    (o = Some r -> forall st, _senderState q' = Some st -> alive st = false).

Lemma free_request_spec e w w' : free_request e w = Ok w' -> freed (LSQEntry.req e) w w'.
Proof.
  unfold free_request. intros H. destruct (LSQEntry.req e) as [r|] eqn:Hr.
  2:{ inv_res. split_and!; [done..|]. intros r q' Hq'. exists q'. split_and!; [done..|]. done. }
  unfold freeLSQEntry, release in H. inv_res. apply req_at_inv in E. destruct (isAnyOutstandingRequest a); cbn [negb] in H.
  - inv_res. split_and!; [done..|]. simpl. intros r' q' Hq'. destruct (decide (r = r')) as [<-|Hne].
    + rewrite lookup_insert_eq in Hq'. simplify_eq. exists a. split; [done|].
      split; [etrans; [|apply req_quiet_flag; reflexivity]; destruct (_senderState a) eqn:Hst; [by apply (req_quiet_ss deleteRequest)|done]|].
      intros _ st Hst. destruct (_senderState a) as [st0|] eqn:Hst0; simpl in Hst; [by simplify_eq|congruence].
    + rewrite lookup_insert_ne in Hq' by done. exists q'. split_and!; [done..|]. congruence.
  - unfold delete_request in H. inv_res. match goal with H : on_inst _ _ _ = Ok _ |- _ => apply on_inst_inv in H as (i & Hi & ->) end.
    split_and!; [simpl; apply (heap_quiet_insert _ _ i); [done|inst_quiet_tac]|done..|].
    simpl. intros r' q' Hq'. apply lookup_delete_Some in Hq' as [Hne Hq']. exists q'. split_and!; [done..|]. congruence.
Qed.

(** ** Loads leave *)

(** What both ends have in common: the instructions take steps and the requests that are
    left are those that were there. *)
Definition released (w w' : World) : Prop :=
  heap_quiet (insts w) (insts w') /\ nextReq w' = nextReq w /\
  forall r q', reqs w' !! r = Some q' -> exists q, reqs w !! r = Some q /\ req_quiet q q'.

Lemma freed_released o w w' : freed o w w' -> released w w'.
Proof. intros (H1 & _ & H2 & H3). split_and!; [done..|]. intros r q' Hq'. destruct (H3 r q' Hq') as (q & ? & ? & _). by exists q. Qed.

Lemma shrink_loads dl tl w w' :
  core_ok w -> released w w' -> cut dl tl (loadQueue (unit w)) (loadQueue (unit w')) ->
  Forall (fun e => e = LSQEntry.empty) (CircularQueue.spare (loadQueue (unit w'))) ->
  loads (unit w') = CircularQueue._size (loadQueue (unit w')) ->
  storeQueue (unit w') = storeQueue (unit w) -> stores (unit w') = stores (unit w) ->
  storeWBIt (unit w') = storeWBIt (unit w) -> isStoreBlocked (unit w') = isStoreBlocked (unit w) ->
  memDepViolator (unit w') = memDepViolator (unit w) ->
  shrink dl tl 0 (length (sq w)) w w'.
Proof.
  intros Hok (Hh & Hn & Hr) Hc Hsp Hl Hsq Hst Hwb Hb Hv. split; try done.
  - by apply heap_quiet_step.
  - rewrite Hsq. apply cut_refl; [apply Hok|done].
  - rewrite Hsq. apply Hok.
  - rewrite Hst, Hsq. apply Hok.
  - intros k _ Hk _. unfold sq in *. rewrite Hsq. lia.
  - intros k e He _. by eapply lookup_lt_Some.
  - unfold sq_end, sq_head. by rewrite Hsq.
  - intros r q' Hq'. destruct (Hr r q' Hq') as (q & Hq & S1 & S2 & S4 & S3). exists q. split_and!; [done..|].
    intros st' Hst' Ha. destruct (S3 st' Hst' Ha) as (st & ? & ? & ? & ?). exists st. rewrite Hsq. split_and!; done.
  - intros p i' r Hi Hs. by eapply heap_quiet_saved.
Qed.

Lemma core_size w : core_ok w -> CircularQueue._size (loadQueue (unit w)) = Z.of_nat (length (lq w)) /\
  CircularQueue._size (storeQueue (unit w)) = Z.of_nat (length (sq w)).
Proof.
  intros Hok. unfold lq, sq. destruct (uo_lq _ Hok) as [H1 _], (uo_sq _ Hok) as [H2 _].
  rewrite !CircularQueue.length_contents by done. destruct H1 as (_ & _ & ? & _), H2 as (_ & _ & ? & _). lia.
Qed.

(** A queue without entries shows a cleared slot. *)
Lemma front_empty {A} (q : CircularQueue.t A) e :
  queue_ok q -> CircularQueue._size q = 0 -> CircularQueue.front q = Ok e -> e ∈ CircularQueue.spare q.
Proof.
  intros [Hwf _] Hs H. unfold CircularQueue.front, CircularQueue.head in H. pose proof Hwf as (_ & Hc & _).
  destruct (lookup_lt_is_Some_2 (CircularQueue.window q) 0) as [x Hx].
  { rewrite CircularQueue.length_window by done. lia. }
  replace (CircularQueue._head q) with (CircularQueue._head q + Z.of_nat 0) in H by lia.
  rewrite (CircularQueue.get_ok _ _ x Hwf Hx) in H. inv_res. unfold CircularQueue.spare. rewrite Hs, drop_0.
  by eapply list_elem_of_lookup_2.
Qed.

Lemma commitLoad_shrink w w' : core_ok w -> commitLoad w = Ok w' ->
  shrink 1 (length (lq w)) 0 (length (sq w)) w w' /\ (0 < length (lq w))%nat /\ storeQueue (unit w') = storeQueue (unit w).
Proof.
  intros Hok H. unfold commitLoad in H. inv_res. pose proof (core_size _ Hok) as [Hlen _]. pose proof (uo_lq _ Hok) as Hq.
  assert (0 < CircularQueue._size (loadQueue (unit w))) as Hpos.
  { pose proof Hq as [(_ & _ & ? & _) _]. destruct (Z.eq_dec (CircularQueue._size (loadQueue (unit w))) 0) as [H0|]; [|lia].
    exfalso. match goal with H : CircularQueue.front _ = Ok _ |- _ => apply (front_empty _ _ Hq H0) in H; rename H into He end.
    pose proof (uo_lq_spare _ Hok) as Hsp. rewrite Forall_forall in Hsp. by rewrite (Hsp _ He) in *. }
  unfold clear_load in *. inv_res.
  match goal with H : free_request _ _ = Ok _ |- _ => apply free_request_spec in H as Hf end. pose proof Hf as (_ & Hu & _).
  unfold lq_set in *. inv_res. rewrite Hu in *. simpl in *.
  match goal with H1 : CircularQueue.set _ _ _ = Ok _, H2 : CircularQueue.pop_front _ _ = Ok _ |- _ =>
    destruct (clear_front _ _ _ _ (length (lq w)) Hq Hpos (Nat.le_refl _) H1 H2) as (C1 & C2 & C3) end.
  split_and!; [|lia|by rewrite Hu]. apply shrink_loads; simpl; rewrite ?Hu; try done.
  - by apply freed_released in Hf.
  - rewrite C2. apply Forall_app. split; [apply Hok|by repeat constructor].
  - rewrite C3, (uo_loads _ Hok). done.
Qed.

Lemma setSquashed_quiet i j : DynInst.setSquashed i = Ok j -> inst_quiet i j.
Proof.
  unfold DynInst.setSquashed, DynInst.setPinnedRegsSquashDone. intros H. inv_res. repeat case_match; inv_res; inst_quiet_tac.
Qed.

Lemma released_trans w1 w2 w3 : released w1 w2 -> released w2 w3 -> released w1 w3.
Proof.
  intros (A1 & A2 & A3) (B1 & B2 & B3). split_and!; [by etrans|congruence|]. intros r q3 Hq3.
  destruct (B3 r q3 Hq3) as (q2 & Hq2 & S2). destruct (A3 r q2 Hq2) as (q1 & Hq1 & S1). exists q1. split; [done|by etrans].
Qed.

Lemma released_inst p i j w : insts w !! p = Some i -> inst_quiet i j -> released w (set_inst p j w).
Proof. intros. split_and!; [by apply (heap_quiet_insert _ _ i)|done|]. intros r q' Hq'. by exists q'. Qed.

(** The youngest load is squashed: [i] is its instruction. *)
Lemma squash_load_shrink w w' : core_ok w -> 0 < CircularQueue._size (loadQueue (unit w)) -> squash_load w = Ok w' ->
  shrink 0 (length (lq w) - 1) 0 (length (sq w)) w w' /\ storeQueue (unit w') = storeQueue (unit w).
Proof.
  intros Hok Hpos H. unfold squash_load in H. pose proof (core_size _ Hok) as [Hlen _]. pose proof (uo_lq _ Hok) as Hq. inv_res.
  match goal with H : clear_load _ (set_inst _ _ ?x) = Ok _ |- _ => set (w1 := x) in * end.
  assert (released w w1 /\ loadQueue (unit w1) = loadQueue (unit w) /\ storeQueue (unit w1) = storeQueue (unit w) /\
    loads (unit w1) = loads (unit w) /\ stores (unit w1) = stores (unit w) /\ storeWBIt (unit w1) = storeWBIt (unit w) /\
    isStoreBlocked (unit w1) = isStoreBlocked (unit w) /\ memDepViolator (unit w1) = memDepViolator (unit w) /\ insts w1 = insts w)
    as (R1 & U1 & U2 & U3 & U4 & U5 & U6 & U7 & U8).
  { unfold w1. destruct (_ && _), (DynInst.isHtmStart _), (DynInst.isHtmStop _); split_and!; try done;
      (split_and!; [done..|]; intros r q' Hq'; by exists q'). }
  clearbody w1. unfold clear_load in *. inv_res.
  match goal with H : free_request _ _ = Ok _ |- _ => apply free_request_spec in H as Hf end. pose proof Hf as (_ & Hu & _).
  apply freed_released in Hf. unfold lq_set in *. inv_res. rewrite Hu in *. simpl in *. rewrite U1 in *.
  match goal with H1 : CircularQueue.set _ _ _ = Ok _, H2 : CircularQueue.pop_back _ = Ok _ |- _ =>
    destruct (clear_back _ _ _ _ Hq Hpos H1 H2) as (C1 & C2 & C3) end.
  split; [|by rewrite Hu]. apply shrink_loads; simpl; rewrite ?Hu; simpl; try done.
  - eapply released_trans; [exact R1|]. eapply released_trans; [|exact Hf].
    match goal with H : inst_at _ _ = Ok ?x, H2 : DynInst.setSquashed ?x = Ok _ |- _ => eapply (released_inst _ x); [rewrite U8; by apply inst_at_inv|by apply setSquashed_quiet] end.
  - rewrite C2. constructor; [done|apply Hok].
  - rewrite C3, U3, (uo_loads _ Hok). done.
Qed.

(** ** Stores leave *)

(** The entry at position [d] of the store queue goes with its request, and all others
    stay. *)
Lemma shrink_store d ds ts w w1 w' e :
  core_ok w -> sq w !! d = Some e -> freed (LSQEntry.req (SQEntry.base e)) w1 w' -> released w w1 ->
  forall q', cut ds ts (storeQueue (unit w)) q' ->
  (forall k f, sq w !! k = Some f -> k <> d -> (ds <= k < ts)%nat) ->
  Forall cleared (CircularQueue.spare q') ->
  forall w2, insts w2 = insts w' -> reqs w2 = reqs w' -> nextReq w2 = nextReq w' -> storeQueue (unit w2) = q' ->
  stores (unit w2) = CircularQueue._size q' -> loadQueue (unit w2) = loadQueue (unit w) -> loads (unit w2) = loads (unit w) ->
  storeWBIt (unit w2) = storeWBIt (unit w) -> isStoreBlocked (unit w2) = isStoreBlocked (unit w) ->
  memDepViolator (unit w2) = memDepViolator (unit w) ->
  (forall k, storeWBIt (unit w) = at_pos (storeQueue (unit w)) k -> (k <= length (sq w))%nat ->
    (forall j e, (j < k)%nat -> sq w !! j = Some e -> SQEntry._canWB e = true) -> (ds <= k <= ts)%nat) ->
  (forall k f, sq w !! k = Some f -> SQEntry._canWB f = true -> (k < ts)%nat) ->
  (forall k f i, lq w !! k = Some f -> inst_of (insts w) f = Some i -> CircularQueue._idx (DynInst.sqIt i) <= sq_end w ->
    CircularQueue._idx (DynInst.sqIt i) <= sq_head w + Z.of_nat ts) ->
  (ts <= length (sq w))%nat -> (ds <= ts)%nat ->
  shrink 0 (length (lq w)) ds ts w w2.
Proof.
  intros Hok He (F1 & F2 & F3 & F4) (R1 & R2 & R3) q' Hc Hothers Hsp w2 I1 I2 I3 Q1 Q2 L1 L2 W1 B1 V1 Hwb Hthere Hends Hts Hds.
  assert (length (CircularQueue.contents q') = ts - ds)%nat as Hlen.
  { destruct Hc as (_ & _ & ->). rewrite length_drop, length_take. unfold sq in Hts. lia. }
  assert (sq_end w2 = sq_head w + Z.of_nat ts) as Hse.
  { unfold sq_end, sq_head. rewrite Q1. destruct Hc as ([Hwf _] & -> & _).
    pose proof (CircularQueue.length_contents q' Hwf). destruct Hwf as (_ & _ & ? & _). lia. }
  split; try done.
  - rewrite I1. apply heap_quiet_step. by etrans.
  - rewrite L1. apply cut_refl; [apply Hok|done].
  - by rewrite Q1.
  - rewrite L1. apply Hok.
  - by rewrite Q1.
  - rewrite L1, L2. apply Hok.
  - by rewrite Q1.
  - intros k K1 K2 K3. unfold sq at 1. rewrite Q1, Hlen. specialize (Hwb k K1 K2 K3). lia.
  - intros k f i Hf Hi. rewrite Hse. unfold lq in Hf. rewrite L1 in Hf. rewrite I1 in Hi.
    assert (heap_step (insts w) (insts w')) as Hh by (apply heap_quiet_step; by etrans).
    destruct (inst_of_step_bwd _ _ f f i Hh eq_refl Hi) as (i0 & Hi0 & (_ & _ & _ & _ & -> & _)). by eapply Hends.
  - congruence.
  - intros r q1 Hq1. rewrite I2 in Hq1. destruct (F4 r q1 Hq1) as (q2 & Hq2 & (S1 & S2 & S4 & S3) & Hdead).
    destruct (R3 r q2 Hq2) as (q3 & Hq3 & (T1 & T2 & T4 & T3)). exists q3. split_and!; [done|congruence|congruence|auto|].
    intros st1 Hst1 Ha1. destruct (S3 st1 Hst1 Ha1) as (st2 & Hst2 & Ha2 & ? & ?).
    destruct (T3 st2 Hst2 Ha2) as (st3 & Hst3 & Ha3 & ? & ?). exists st3. split_and!; try congruence.
    intros _ (k & f & Hit & Hf & Hrf & Hcf). fold (sq w) in Hf. destruct (decide (k = d)) as [->|Hne].
    { assert (f = e) as -> by congruence. specialize (Hdead Hrf st1 Hst1). congruence. }
    specialize (Hothers k f Hf Hne). rewrite Q1. exists (k - ds)%nat, f. split_and!; [|by eapply cut_keeps|done..].
    rewrite Hit. symmetry. eapply cut_at; [exact Hc|lia].
  - intros p i' r Hi Hs. rewrite I1 in Hi. eapply heap_quiet_saved; [|exact Hi|done]. by etrans.
Qed.

Lemma cleared_empty d : cleared (SQEntry.mk LSQEntry.empty d false false false false).
Proof. done. Qed.

(** A completed store at the head leaves: the body of the loop of [completeStore]. *)
Lemma pop_head_shrink w w1 w' q e :
  core_ok w -> sq w !! 0%nat = Some e -> SQEntry._completed e = true ->
  clear_store (CircularQueue.head (storeQueue (unit w))) w = Ok w1 -> CircularQueue.pop_front 1 (storeQueue (unit w1)) = Ok q ->
  w' = upd (fun u => with_stores (stores u - 1) (with_storeQueue q u)) w1 ->
  shrink 0 (length (lq w)) 1 (length (sq w)) w w' /\ loadQueue (unit w') = loadQueue (unit w).
Proof.
  intros Hok He Hco H1 H2 ->. pose proof (core_size _ Hok) as [_ Hlen]. pose proof (uo_sq _ Hok) as Hq.
  pose proof (lookup_lt_Some _ _ _ He) as Hlt. unfold clear_store in H1. inv_res.
  match goal with H : sq_get _ _ = Ok ?x |- _ => assert (x = e) as ->
    by (eapply (sq_get_entry w 0); [exact Hok|done|]; unfold sq_head; by rewrite Z.add_0_r) end.
  match goal with H : free_request _ _ = Ok _ |- _ => apply free_request_spec in H as Hf end. pose proof Hf as (_ & Hu & _).
  unfold sq_set in *. inv_res. rewrite Hu in *. simpl in *.
  match goal with G : CircularQueue.set _ _ _ = Ok _ |- _ =>
    destruct (clear_front _ _ _ _ (length (sq w)) Hq ltac:(lia) (Nat.le_refl _) G H2) as (C1 & C2 & C3) end.
  split; [|by rewrite Hu].
  eapply (shrink_store 0 1 (length (sq w)) w w _ e); [exact Hok|done|exact Hf| |exact C1|..]; simpl; rewrite ?Hu; try done.
  - split_and!; [done..|]. intros r q' Hq'. by exists q'.
  - intros k f Hk Hne. apply lookup_lt_Some in Hk. lia.
  - rewrite C2. apply Forall_app. split; [apply Hok|repeat constructor].
  - rewrite C3, (uo_stores _ Hok). done.
  - intros k K1 K2 K3. split; [|done]. destruct (uo_wb _ Hok) as (k' & K1' & _ & _ & K4').
    assert (k = k') as -> by (rewrite K1 in K1'; unfold at_pos in K1'; injection K1' as K; lia).
    destruct k'; [|lia]. rewrite (K4' 0%nat e) in Hco by (done || lia). done.
  - intros k f Hk _. by eapply lookup_lt_Some.
  - intros k f i _ _ Hb. unfold sq_end in Hb. lia.
Qed.

(** The youngest store is squashed. *)
Lemma squash_store_shrink w w' e n :
  core_ok w -> sq w !! (length (sq w) - 1)%nat = Some e -> SQEntry._canWB e = false ->
  Forall (fun f => seq_of (insts w) f <= n) (lq w) -> n < seq_of (insts w) (SQEntry.base e) -> squash_store w = Ok w' ->
  shrink 0 (length (lq w)) 0 (length (sq w) - 1) w w' /\ loadQueue (unit w') = loadQueue (unit w).
Proof.
  intros Hok He Hcan Hall Hn H. unfold squash_store in H. pose proof (core_size _ Hok) as [_ Hlen]. pose proof (uo_sq _ Hok) as Hq.
  pose proof (lookup_lt_Some _ _ _ He) as Hlt. inv_res. unfold clear_store in *. inv_res.
  pose proof (tail_idx _ Hq ltac:(lia)) as Htail. fold (sq w) in Htail.
  match goal with H : sq_get _ (set_inst _ _ w) = Ok ?x |- _ => assert (x = e) as ->
    by (eapply (sq_get_entry w (length (sq w) - 1)); [exact Hok|done|]; unfold sq_head; rewrite <- Htail; exact H) end.
  match goal with H : free_request _ _ = Ok _ |- _ => apply free_request_spec in H as Hf end. pose proof Hf as (_ & Hu & _).
  unfold sq_set in *. inv_res. rewrite Hu in *. simpl in *.
  match goal with G : CircularQueue.set _ _ _ = Ok _, G2 : CircularQueue.pop_back _ = Ok _ |- _ =>
    destruct (clear_back _ _ _ _ Hq ltac:(lia) G G2) as (C1 & C2 & C3) end. fold (sq w) in C1.
  split; [|by rewrite Hu].
  eapply (shrink_store (length (sq w) - 1) 0 (length (sq w) - 1) w _ _ e); [exact Hok|done|exact Hf| |exact C1|..]; simpl; rewrite ?Hu; simpl; try done; try lia.
  - match goal with H : inst_at _ _ = Ok ?x, H2 : DynInst.setSquashed ?x = Ok _ |- _ => eapply (released_inst _ x); [by apply inst_at_inv|by apply setSquashed_quiet] end.
  - intros k f Hk Hne. apply lookup_lt_Some in Hk. lia.
  - rewrite C2. constructor; [done|apply Hok].
  - rewrite C3, (uo_stores _ Hok). done.
  - intros k _ K2 K3. split; [lia|]. destruct (decide (k = length (sq w))) as [->|]; [|lia].
    rewrite (K3 (length (sq w) - 1)%nat e) in Hcan by (done || lia). done.
  - intros k f Hk Hc. pose proof (lookup_lt_Some _ _ _ Hk). destruct (decide (k = length (sq w) - 1)%nat) as [->|]; [congruence|lia].
  - intros k f i Hf0 Hi Hb. destruct (uo_load_at _ Hok k f i Hf0 Hi) as (_ & _ & b & H3 & H4 & _ & H6). rewrite H3 in *. simpl in *.
    rewrite Forall_lookup in Hall. specialize (Hall k f Hf0). unfold seq_of at 1 in Hall. rewrite Hi in Hall.
    assert (bases w !! (length (sq w) - 1)%nat = Some (SQEntry.base e)) as Hbe by (unfold bases; by rewrite list_lookup_fmap, He).
    pose proof (H6 _ _ Hbe). lia.
Qed.

End LsqOrder.
