(* ===== verification/LsqCommit.v ===== *)
(** * Commit, completion, write-back and squash

    The loops that take entries out of the queues, mark stores that may be written back
    and send them, and what they leave of the invariant. *)

From stdpp Require Import gmap sorting.
From S2P Require Import Prelude.
From S2P Require Import CircularQueue BaseUtil MemCmd Request Packet DynInst Rob Lsq LsqFacts LsqSpec LsqUnit LsqUnitFacts LsqForward LsqRead LsqInv LsqQuiet LsqExec LsqOrder.

Local Open Scope Z_scope.

Module LsqCommit.
Import LSQRequest LSQUnit LsqUnitFacts LsqRead LsqInv LsqQuiet LsqExec LsqOrder.

(** ** The ends of the load queue *)

Lemma lq_end_length w : core_ok w -> lq_end w = lq_head w + Z.of_nat (length (lq w)).
Proof. intros Hok. unfold lq_end. by destruct (core_size _ Hok) as [-> _]. Qed.

Lemma sq_end_length w : core_ok w -> sq_end w = sq_head w + Z.of_nat (length (sq w)).
Proof. intros Hok. unfold sq_end. by destruct (core_size _ Hok) as [_ ->]. Qed.

(** The end of the load queue stays where it is, and its head too or the stores that are
    not committed are behind it. *)
Lemma shrink_ends n dl tl ds ts w w' :
  shrink dl tl ds ts w w' -> lq_end w' = lq_end w ->
  (forall k e i, sq w !! k = Some e -> inst_of (insts w) (SQEntry.base e) = Some i -> SQEntry._canWB e = false ->
     lq_head w <= CircularQueue._idx (DynInst.lqIt i) -> lq_head w' <= CircularQueue._idx (DynInst.lqIt i)) ->
  ends_ok n w -> ends_ok n w'.
Proof.
  intros Hs Hend Hhead He k e i Hk Hi. apply (shrink_sq _ _ _ _ _ _ Hs) in Hk.
  destruct (inst_of_step_bwd _ _ _ (SQEntry.base e) i (sh_heap _ _ _ _ _ _ Hs) eq_refl Hi) as (i0 & Hi0 & Hii).
  pose proof (inst_step_kind _ _ Hii) as (Hsn & _). destruct Hii as (_ & _ & -> & _). rewrite Hend.
  destruct (He _ _ _ Hk Hi0) as [H1 H2]. split; intros H; [by eapply Hhead; [..|auto]|]. apply H2. destruct n; [lia|done].
Qed.

Lemma shrink_ends_same n dl tl ds ts w w' :
  shrink dl tl ds ts w w' -> loadQueue (unit w') = loadQueue (unit w) -> ends_ok n w -> ends_ok n w'.
Proof. intros Hs Hq. eapply shrink_ends; [exact Hs|unfold lq_end, lq_head; by rewrite Hq|]. intros. unfold lq_head. by rewrite Hq. Qed.

(** The youngest load leaves, and it is younger than [n]. *)
Lemma shrink_ends_young n e w w' :
  core_ok w -> shrink 0 (length (lq w) - 1) 0 (length (sq w)) w w' -> lq w !! (length (lq w) - 1)%nat = Some e ->
  n < seq_of (insts w) e -> ends_ok (Some n) w -> ends_ok (Some n) w'.
Proof.
  intros Hok Hs He Hn Hends k f i Hk Hi. pose proof (shrink_ok _ _ _ _ _ _ Hok Hs) as Hok'.
  destruct (inst_of_step_bwd _ _ _ (SQEntry.base f) i (sh_heap _ _ _ _ _ _ Hs) eq_refl Hi) as (i0 & Hi0 & Hii).
  pose proof (inst_step_kind _ _ Hii) as (Hsn & _). destruct Hii as (_ & _ & Hit & _).
  apply (shrink_sq _ _ _ _ _ _ Hs) in Hk. destruct (Hends _ _ _ Hk Hi0) as [H1 _].
  assert (bases w !! (0 + k)%nat = Some (SQEntry.base f)) as Hbf by (unfold bases; by rewrite list_lookup_fmap, Hk).
  destruct (uo_store_at _ Hok _ _ _ Hbf Hi0) as (_ & b & Hb0 & Hb). rewrite Hit, Hb0 in *. simpl in *.
  destruct (shrink_heads _ _ _ _ _ _ Hs) as (Hhd & _). split; intros Hle; [rewrite Hhd; specialize (H1 Hle); lia|].
  specialize (Hb _ _ He). rewrite lq_end_length, Hhd by done.
  assert (length (lq w') = length (lq w) - 1)%nat as ->.
  { unfold lq. destruct (sh_lq _ _ _ _ _ _ Hs) as (_ & _ & ->). rewrite drop_0, length_take. unfold lq. lia. }
  lia.
Qed.

(** ** Loads are committed *)

(** The stores up to [y] have been committed. *)
Definition committed_to (y : Z) (w : World) : Prop :=
  forall k e, sq w !! k = Some e -> seq_of (insts w) (SQEntry.base e) <= y -> SQEntry._canWB e = true.

Lemma committed_to_shrink y dl tl ds ts w w' : shrink dl tl ds ts w w' -> committed_to y w -> committed_to y w'.
Proof.
  intros Hs H k e He Hle. rewrite (shrink_seq _ _ _ _ _ _ Hs) in Hle. eapply H; [|done]. by eapply shrink_sq.
Qed.

Lemma commitLoad_ok y e w w' : unit_ok w -> committed_to y w -> lq w !! 0%nat = Some e -> seq_of (insts w) e <= y ->
  commitLoad w = Ok w' -> unit_ok w' /\ committed_to y w'.
Proof.
  intros [Hok He] Hst Hfront Hle H. destruct (commitLoad_shrink _ _ Hok H) as (Hs & Hpos & _).
  pose proof (shrink_ok _ _ _ _ _ _ Hok Hs) as Hok'. split; [|by eapply committed_to_shrink]. split; [done|].
  destruct (shrink_heads _ _ _ _ _ _ Hs) as (Hhd & _). eapply shrink_ends; [exact Hs| | |exact He].
  - rewrite !lq_end_length, Hhd by done. assert (length (lq w') = length (lq w) - 1)%nat as ->; [|lia].
    unfold lq. destruct (sh_lq _ _ _ _ _ _ Hs) as (_ & _ & ->). rewrite length_drop, length_take. unfold lq. lia.
  - intros k f i Hf Hi Hc Hb. assert (bases w !! k = Some (SQEntry.base f)) as Hbf by (unfold bases; by rewrite list_lookup_fmap, Hf).
    destruct (uo_store_at _ Hok _ _ _ Hbf Hi) as (_ & b & Hb0 & Hiff). specialize (Hiff _ _ Hfront). rewrite Hb0 in *. simpl in *.
    destruct (Z.le_gt_cases (DynInst.seqNum i) y) as [Hy|Hy]; [|lia].
    rewrite (Hst k f Hf) in Hc; [done|]. unfold seq_of. by rewrite Hi.
Qed.

Lemma load_front w e p i : core_ok w -> loads (unit w) <> 0 -> CircularQueue.front (loadQueue (unit w)) = Ok e ->
  LSQEntry.instruction e = Ok p -> inst_at p w = Ok i -> lq w !! 0%nat = Some e /\ seq_of (insts w) e = DynInst.seqNum i.
Proof.
  intros Hok Hl Hb Hp Hi. rewrite (uo_loads _ Hok) in Hl. pose proof (uo_lq _ Hok) as Hq. pose proof Hq as [(_ & _ & ? & _) _].
  destruct (front_contents _ Hq ltac:(lia)) as (e0 & He0 & Hb0). rewrite Hb in Hb0. apply ok_inj in Hb0. subst e0.
  split; [done|]. unfold seq_of, inst_of, LSQEntry.instruction in *. destruct (LSQEntry.inst e); [|done].
  apply ok_inj in Hp. subst. simpl. by rewrite (inst_at_inv _ _ _ Hi).
Qed.

Lemma commit_loads_ok y : forall n w w', unit_ok w -> committed_to y w -> commit_loads n y w = Ok w' -> unit_ok w'.
Proof.
  induction n as [|n IH]; intros w w' Hu Hst H; cbn [commit_loads] in H;
    (destruct (Z.eqb_spec (loads (unit w)) 0) as [H0|H0]; [by inv_res|]);
    inv_res; try done; (destruct (Z.leb_spec (DynInst.seqNum a1) y) as [Hle|]; inv_res; try done).
  match goal with H1 : CircularQueue.front _ = Ok _, H2 : LSQEntry.instruction _ = Ok _, H3 : inst_at _ _ = Ok _, H4 : commitLoad _ = Ok _ |- _ =>
    destruct (load_front _ _ _ _ (proj1 Hu) H0 H1 H2 H3) as [Hf Hs]; apply (commitLoad_ok y _ _ _ Hu Hst Hf ltac:(lia)) in H4 as [Hu1 Hst1] end.
  by eapply IH.
Qed.

Lemma commitLoads_ok y w w' : unit_ok w -> committed_to y w -> commitLoads y w = Ok w' -> unit_ok w'.
Proof. unfold commitLoads. intros Hok Hst H. inv_res. by eapply commit_loads_ok. Qed.

(** ** Squash *)

(** What may be written back is not squashed. *)
Definition settled (n : Z) (w : World) : Prop :=
  forall k e, sq w !! k = Some e -> SQEntry._canWB e = true -> seq_of (insts w) (SQEntry.base e) <= n.

Lemma settled_shrink n dl tl ds ts w w' : shrink dl tl ds ts w w' -> settled n w -> settled n w'.
Proof.
  intros Hs H k e He Hc. rewrite (shrink_seq _ _ _ _ _ _ Hs). eapply H; [|done]. by eapply shrink_sq.
Qed.

Lemma settled_quiet n w w' : quiet w w' -> settled n w -> settled n w'.
Proof.
  intros Hq H k e' He' Hc. destruct (qt_sq _ _ Hq) as (_&_&_&_&_&Hs).
  destruct (same_shape _ _ _ _ _ Hs He') as (e & He & Hsh). unfold sshape in Hsh.
  rewrite (seq_of_step (insts w) _ (SQEntry.base e)) by (apply Hq || congruence). eapply H; [done|congruence].
Qed.

(** When the youngest entry is not younger than [n], none is. *)
Lemma last_bounds h l n e : in_order h l -> l !! (length l - 1)%nat = Some e -> seq_of h e <= n -> Forall (fun f => seq_of h f <= n) l.
Proof.
  intros Ho He Hn. apply Forall_lookup. intros k f Hf. pose proof (lookup_lt_Some _ _ _ Hf).
  destruct (decide (k = length l - 1)%nat) as [->|Hne]; [congruence|].
  pose proof (queue_order_lt _ _ _ _ _ _ Ho Hf He ltac:(lia)). lia.
Qed.

Lemma load_back w e p i : core_ok w -> loads (unit w) <> 0 -> CircularQueue.back (loadQueue (unit w)) = Ok e ->
  LSQEntry.instruction e = Ok p -> inst_at p w = Ok i ->
  0 < CircularQueue._size (loadQueue (unit w)) /\ lq w !! (length (lq w) - 1)%nat = Some e /\ seq_of (insts w) e = DynInst.seqNum i.
Proof.
  intros Hok Hl Hb Hp Hi. rewrite (uo_loads _ Hok) in Hl. pose proof (uo_lq _ Hok) as Hq. pose proof Hq as [(_ & _ & ? & _) _].
  split; [lia|]. destruct (back_contents _ Hq ltac:(lia)) as (e0 & He0 & Hb0). rewrite Hb in Hb0. apply ok_inj in Hb0. subst e0.
  split; [done|]. unfold seq_of, inst_of, LSQEntry.instruction in *. destruct (LSQEntry.inst e); [|done].
  apply ok_inj in Hp. subst. simpl. by rewrite (inst_at_inv _ _ _ Hi).
Qed.

Lemma store_back w e p i : core_ok w -> stores (unit w) <> 0 -> CircularQueue.back (storeQueue (unit w)) = Ok e ->
  SQEntry.instruction e = Ok p -> inst_at p w = Ok i ->
  sq w !! (length (sq w) - 1)%nat = Some e /\ seq_of (insts w) (SQEntry.base e) = DynInst.seqNum i.
Proof.
  intros Hok Hl Hb Hp Hi. rewrite (uo_stores _ Hok) in Hl. pose proof (uo_sq _ Hok) as Hq. pose proof Hq as [(_ & _ & ? & _) _].
  destruct (back_contents _ Hq ltac:(lia)) as (e0 & He0 & Hb0). rewrite Hb in Hb0. apply ok_inj in Hb0. subst e0.
  split; [done|]. unfold seq_of, inst_of, SQEntry.instruction, LSQEntry.instruction in *. destruct (LSQEntry.inst _); [|done].
  apply ok_inj in Hp. subst. simpl. by rewrite (inst_at_inv _ _ _ Hi).
Qed.

Lemma no_loads w : core_ok w -> loads (unit w) = 0 -> lq w = [].
Proof. intros Hok H. rewrite (uo_loads _ Hok) in H. destruct (core_size _ Hok) as [Hs _]. apply nil_length_inv. lia. Qed.
Lemma no_stores w : core_ok w -> stores (unit w) = 0 -> sq w = [].
Proof. intros Hok H. rewrite (uo_stores _ Hok) in H. destruct (core_size _ Hok) as [_ Hs]. apply nil_length_inv. lia. Qed.

(** No entry is younger than [n]. *)
Definition none_younger (n : Z) (w : World) (l : list LSQEntry.t) : Prop := Forall (fun f => seq_of (insts w) f <= n) l.

Lemma squash_loads_ok n : forall fuel w w', core_ok w -> ends_ok (Some n) w -> settled n w -> squash_loads fuel n w = Ok w' ->
  core_ok w' /\ ends_ok (Some n) w' /\ settled n w' /\ none_younger n w' (lq w').
Proof.
  induction fuel as [|fuel IH]; intros w w' Hok He Hse H; cbn [squash_loads] in H;
    (destruct (Z.eqb_spec (loads (unit w)) 0) as [H0|H0];
      [inv_res; split_and!; try done; unfold none_younger; by rewrite no_loads|]); simplify_res;
    match goal with H1 : CircularQueue.back _ = Ok _, H2 : LSQEntry.instruction _ = Ok _, H3 : inst_at _ _ = Ok _ |- _ =>
      destruct (load_back _ _ _ _ Hok H0 H1 H2 H3) as (Hpos & Hlast & Hseq) end;
    (destruct (Z.ltb_spec n (DynInst.seqNum a1)) as [Hlt|Hge];
      [|simplify_res; split_and!; try done; eapply last_bounds; [apply Hok|exact Hlast|lia]]); simplify_res; try done.
  match goal with H : squash_load _ = Ok _ |- _ => destruct (squash_load_shrink _ _ Hok Hpos H) as [Hs _] end.
  eapply IH; [| | |exact H].
  - by eapply shrink_ok.
  - eapply shrink_ends_young; [exact Hok|exact Hs|exact Hlast|lia|done].
  - by eapply settled_shrink.
Qed.

Lemma squash_stores_ok n : forall fuel w w', core_ok w -> ends_ok (Some n) w -> settled n w -> none_younger n w (lq w) ->
  squash_stores fuel n w = Ok w' -> core_ok w' /\ ends_ok (Some n) w' /\ none_younger n w' (lq w') /\ none_younger n w' (bases w').
Proof.
  induction fuel as [|fuel IH]; intros w w' Hok He Hse Hl H; cbn [squash_stores] in H;
    (destruct (Z.eqb_spec (stores (unit w)) 0) as [H0|H0];
      [simplify_res; split_and!; try done; unfold none_younger, bases; by rewrite no_stores|]); simplify_res;
    match goal with H1 : CircularQueue.back _ = Ok _, H2 : SQEntry.instruction _ = Ok _, H3 : inst_at _ _ = Ok _ |- _ =>
      destruct (store_back _ _ _ _ Hok H0 H1 H2 H3) as (Hlast & Hseq) end;
    try match type of H with (if ?c then _ else _) = _ => destruct c eqn:Hc end; simplify_res;
    try match goal with E : _ && _ = false |- _ => rename E into Hc end.
  all: try (split_and!; try done; eapply last_bounds; [apply Hok|unfold bases; by rewrite length_fmap, list_lookup_fmap, Hlast|];
    apply andb_false_iff in Hc as [Hc|Hc]; [apply Z.ltb_ge in Hc; lia|apply negb_false_iff in Hc; by eapply Hse]).
  apply andb_true_iff in Hc as [Hlt%Z.ltb_lt Hcan%negb_true_iff].
  match goal with H : squash_store _ = Ok _ |- _ => destruct (squash_store_shrink _ _ _ n Hok Hlast Hcan Hl ltac:(lia) H) as [Hs Hlq] end.
  pose proof (shrink_ok _ _ _ _ _ _ Hok Hs) as Hok'. eapply IH; [done| | | |exact H].
  - by eapply shrink_ends_same.
  - by eapply settled_shrink.
  - unfold none_younger, lq in *. rewrite Hlq. eapply Forall_impl; [exact Hl|]. intros f. by rewrite (shrink_seq _ _ _ _ _ _ Hs).
Qed.

(** Exactly what is not younger than [n] is left in the queues. *)
Lemma squash_ok n w w' : unit_ok w -> settled n w -> squash n w = Ok w' ->
  unit_ok w' /\ none_younger n w' (lq w' ++ bases w').
Proof.
  intros [Hok He] Hse H. unfold squash in H. simplify_res.
  match goal with H : squash_loads _ _ _ = Ok _ |- _ => apply (squash_loads_ok n) in H as (Hok1 & He1 & Hse1 & Hl1); [|done| |done] end.
  2:{ intros k e i Hk Hi. destruct (He k e i Hk Hi) as [H1 H2]. auto. }
  match goal with H : squash_stores _ _ ?x = Ok _ |- _ => assert (quiet a x) as Q end.
  { match goal with H : match memDepViolator (unit ?y) with _ => _ end = Ok ?x |- quiet _ ?x => assert (quiet a y) as Q1;
      [|etrans; [exact Q1|]; destruct (memDepViolator (unit y)); simplify_res; [|reflexivity]] end.
    { destruct (htm_cpt a); [apply quiet_htm_cpt|reflexivity]. }
    match goal with |- quiet _ (if ?c then _ else _) => destruct c; [|reflexivity] end. apply quiet_upd; [split_and!; first [done | by left | by right]|done]. }
  match goal with H : squash_stores _ _ _ = Ok _ |- _ => apply (squash_stores_ok n) in H as (Hok2 & He2 & Hl2 & Hb2) end.
  - split; [split; [done|]|apply Forall_app; done]. intros k e i Hk Hi. destruct (He2 k e i Hk Hi) as [H1 H2].
    split; [done|]. intros _. apply H2. unfold none_younger in Hb2. rewrite Forall_lookup in Hb2.
    specialize (Hb2 k (SQEntry.base e)). unfold seq_of in Hb2. rewrite Hi in Hb2. apply Hb2. unfold bases. by rewrite list_lookup_fmap, Hk.
  - by eapply quiet_ok.
  - by eapply quiet_ends.
  - by eapply settled_quiet.
  - unfold none_younger in *. apply Forall_lookup. intros k f Hf. rewrite Forall_lookup in Hl1.
    destruct (same_shape _ _ _ _ _ (quiet_lq_shape _ _ Q) Hf) as (f0 & Hf0 & Hsh).
    rewrite (seq_of_step (insts a) _ f0) by (apply Q || done). by eapply Hl1.
Qed.

(** ** Flags of a store *)

(** The loads not younger than [n] have executed. *)
Definition executed_to (n : Z) (w : World) : Prop :=
  forall j f i, lq w !! j = Some f -> inst_of (insts w) f = Some i -> DynInst.seqNum i <= n -> DynInst.isExecuted i = true.

Lemma executed_to_quiet n w w' : quiet w w' -> executed_to n w -> executed_to n w'.
Proof.
  intros Hq H j f i Hf Hi Hn. destruct (same_shape _ _ _ _ _ (quiet_lq_shape _ _ Hq) Hf) as (f0 & Hf0 & Hsh).
  destruct (inst_of_step_bwd _ _ f0 f i (qt_heap _ _ Hq) Hsh Hi) as (i0 & Hi0 & Hii).
  pose proof (inst_step_kind _ _ Hii) as (Hsn & _). destruct Hii as (_&_&_&_&_&Hx). apply Hx. eapply H; [done..|lia].
Qed.

Record flagged (k : nat) (e e' : SQEntry.t) (w w' : World) : Prop := {
  fl_world : exists q, w' = upd (with_storeQueue q) w;
  fl_sq : sq w' = <[k := e']> (sq w);
  fl_bases : bases w' = bases w;
  fl_queue : queue_ok (storeQueue (unit w')) /\ sq_head w' = sq_head w /\ sq_end w' = sq_end w /\
    CircularQueue._size (storeQueue (unit w')) = CircularQueue._size (storeQueue (unit w)) /\
    CircularQueue.spare (storeQueue (unit w')) = CircularQueue.spare (storeQueue (unit w));
  fl_base : SQEntry.base e' = SQEntry.base e;
  fl_canWB : SQEntry._canWB e = true -> SQEntry._canWB e' = true;
  fl_old : sq w !! k = Some e
}.

Lemma flag_entry w w' k e e' :
  queue_ok (storeQueue (unit w)) -> sq w !! k = Some e -> sq_set (sq_head w + Z.of_nat k) e' w = Ok w' ->
  SQEntry.base e' = SQEntry.base e -> (SQEntry._canWB e = true -> SQEntry._canWB e' = true) -> flagged k e e' w w'.
Proof.
  intros [Hwf Hb] He H Hbase Hcan. unfold sq_set, sq_head in H.
  destruct (set_contents (storeQueue (unit w)) k e' Hwf) as (q & Hset & W & C & S & Hh & Hz & Hc); [by eapply lookup_lt_Some|].
  rewrite Hset in H. apply ok_inj in H. subst w'. fold (sq w) in C. split; try done.
  - by exists q.
  - unfold bases, sq. simpl. rewrite C. by apply (fmap_insert_same _ _ _ _ e).
  - unfold sq_end, sq_head, queue_ok. simpl. rewrite Hh, Hz, Hc. done.
Qed.

Section flag.
Context (k : nat) (e e' : SQEntry.t) (w w' : World).
Hypothesis Hok : core_ok w.
Hypothesis Hf : flagged k e e' w w'.
Hypothesis Hcompleted : SQEntry._completed e' = true -> SQEntry._completed e = true \/ sq_head w + Z.of_nat k < wb_idx w.
Hypothesis Hexecuted : SQEntry._canWB e' = true -> SQEntry._canWB e = true \/ executed_to (seq_of (insts w) (SQEntry.base e)) w.

Lemma flag_other j f : sq w' !! j = Some f -> j = k /\ f = e' \/ j <> k /\ sq w !! j = Some f.
Proof.
  rewrite (fl_sq _ _ _ _ _ Hf). destruct (decide (k = j)) as [<-|Hne].
  - rewrite list_lookup_insert_eq by (eapply lookup_lt_Some; apply Hf). intros [= <-]. by left.
  - rewrite list_lookup_insert_ne by done. right. by split.
Qed.

Lemma flag_keeps j f : sq w !! j = Some f -> exists f', sq w' !! j = Some f' /\ SQEntry.base f' = SQEntry.base f /\
  (SQEntry._canWB f = true -> SQEntry._canWB f' = true).
Proof.
  intros Hj. rewrite (fl_sq _ _ _ _ _ Hf). destruct (decide (k = j)) as [<-|Hne].
  - rewrite list_lookup_insert_eq by (by eapply lookup_lt_Some). rewrite (fl_old _ _ _ _ _ Hf) in Hj. simplify_eq.
    exists e'. split_and!; [done|apply Hf|apply Hf].
  - rewrite list_lookup_insert_ne by done. by exists f.
Qed.

Lemma flag_at j : at_pos (storeQueue (unit w')) j = at_pos (storeQueue (unit w)) j.
Proof. destruct (fl_queue _ _ _ _ _ Hf) as (_ & H & _). unfold at_pos, sq_head in *. by rewrite H. Qed.

Lemma flag_rest : insts w' = insts w /\ reqs w' = reqs w /\ nextReq w' = nextReq w /\ loadQueue (unit w') = loadQueue (unit w) /\
  loads (unit w') = loads (unit w) /\ stores (unit w') = stores (unit w) /\ storeWBIt (unit w') = storeWBIt (unit w) /\
  isStoreBlocked (unit w') = isStoreBlocked (unit w) /\ memDepViolator (unit w') = memDepViolator (unit w).
Proof. by destruct (fl_world _ _ _ _ _ Hf) as [q ->]. Qed.

Lemma flag_wb : exists j, storeWBIt (unit w') = at_pos (storeQueue (unit w')) j /\ (j <= length (sq w'))%nat /\
    (forall j' f, (j' < j)%nat -> sq w' !! j' = Some f -> SQEntry._canWB f = true) /\
    (forall j' f, (j <= j')%nat -> sq w' !! j' = Some f -> SQEntry._completed f = false).
Proof.
  destruct (uo_wb _ Hok) as (j & K1 & K2 & K3 & K4). destruct flag_rest as (_&_&_&_&_&_&R7&_). exists j.
  rewrite flag_at, R7. split_and!; [done|by rewrite (fl_sq _ _ _ _ _ Hf), length_insert| |].
  - intros j' f Hj Hfj. destruct (flag_other _ _ Hfj) as [[-> ->]|[_ H]]; [|by eapply K3]. apply Hf. eapply K3; [exact Hj|apply Hf].
  - intros j' f Hj Hfj. destruct (flag_other _ _ Hfj) as [[-> ->]|[_ H]]; [|by eapply K4].
    destruct (SQEntry._completed e') eqn:He'; [|done]. destruct (Hcompleted eq_refl) as [H|H].
    + rewrite (K4 k e) in H by (done || apply Hf). done.
    + unfold wb_idx in H. rewrite K1 in H. simpl in H. unfold sq_head in H. lia.
Qed.

Lemma flag_req r q : req_ok w r q -> req_ok w' r q.
Proof.
  destruct flag_rest as (R1&R2&R3&_). intros (Hr & i & Hi & Hl & Hss). split; [by rewrite R3|]. exists i. rewrite R1.
  split_and!; [done..|]. intros st Hst Ha. destruct (Hss st Hst Ha) as [H1 H2]. split; [done|]. intros Hlf.
  destruct (H2 Hlf) as (j & f & Hit & Hj & Hrf & Hcf). destruct (flag_keeps j f Hj) as (f' & Hf' & Hbf & Hcan).
  exists j, f'. rewrite flag_at, Hbf. split_and!; auto.
Qed.

Lemma flag_held : held w -> held w'.
Proof.
  destruct flag_rest as (R1&R2&R3&R4&R5&R6&R7&R8&R9). intros H Hb. rewrite R8 in Hb.
  destruct (H Hb) as (j & f & H1 & H2 & H3 & H4). destruct (flag_keeps j f H2) as (f' & Hf' & Hbf & Hcan).
  exists j, f'. rewrite flag_at, R7, R2, Hbf. split_and!; auto.
Qed.

Lemma flag_ok : core_ok w'.
Proof.
  destruct flag_rest as (R1&R2&R3&R4&R5&R6&R7&R8&R9). pose proof (fl_bases _ _ _ _ _ Hf) as Hbs.
  destruct (fl_queue _ _ _ _ _ Hf) as (Q1&Q2&Q3&Q4&Q5).
  split; unfold lq, lq_head in *; rewrite ?Hbs, ?R1, ?R4, ?R5, ?R6, ?R9.
  - apply Hok.
  - done.
  - apply Hok.
  - rewrite Q4. apply Hok.
  - apply Hok.
  - rewrite Q5. apply Hok.
  - apply Hok.
  - apply Hok.
  - apply Hok.
  - apply Hok.
  - apply flag_wb.
  - intros j f i Hj Hi. destruct (uo_load_at _ Hok j f i Hj Hi) as (H1 & H2 & b & H3 & H4 & H5 & H6).
    split_and!; [done..|]. exists b. unfold wb_idx. rewrite R7, R1, Q2, Q3, Hbs. done.
  - intros j f i Hj Hi. rewrite Q2. destruct (uo_store_at _ Hok j f i Hj Hi) as (H1 & b & H3 & H6).
    split; [done|]. exists b. unfold lq, lq_head. rewrite R1, R4. done.
  - intros j f j' f' i Hj Hc Hj' Hi Hle. destruct (flag_other _ _ Hj) as [[-> ->]|[_ H]].
    + rewrite (fl_base _ _ _ _ _ Hf) in Hle. destruct (Hexecuted Hc) as [H|H].
      * eapply (uo_committed _ Hok k e); [apply Hf|done..].
      * by eapply H.
    + by eapply (uo_committed _ Hok j f).
  - apply flag_held, Hok.
  - apply Hok.
  - apply Hok.
  - pose proof (uo_entries _ Hok) as H. eapply Forall_impl; [exact H|]. intros x Hx r Hr. rewrite R2, R3. by apply Hx.
  - rewrite R2. intros r q Hq. by apply flag_req, (uo_reqs _ Hok).
  - rewrite R2, R3. apply Hok.
Qed.

Lemma flag_ends n : ends_ok n w -> ends_ok n w'.
Proof.
  intros H j f i Hj Hi. destruct flag_rest as (R1&_&_&R4&_). unfold lq_end, lq_head. rewrite R4. rewrite R1 in Hi.
  destruct (flag_other _ _ Hj) as [[-> ->]|[_ Hj0]]; [|exact (H j f i Hj0 Hi)]. rewrite (fl_base _ _ _ _ _ Hf) in Hi.
  destruct (H k e i (fl_old _ _ _ _ _ Hf) Hi) as [H1 H2]. split; [|done]. intros Hc. apply H1.
  apply not_true_is_false. intros He. by rewrite (fl_canWB _ _ _ _ _ Hf He) in Hc.
Qed.
End flag.

Lemma executed_to_le m n w : m <= n -> executed_to n w -> executed_to m w.
Proof. intros Hmn H j f i Hf Hi Hle. eapply H; [done..|lia]. Qed.

(** A store may be written back from now on. *)
Lemma mark_ok w w' k e :
  unit_ok w -> sq w !! k = Some e -> executed_to (seq_of (insts w) (SQEntry.base e)) w ->
  sq_set (sq_head w + Z.of_nat k) (SQEntry.set_canWB true e) w = Ok w' ->
  unit_ok w' /\ flagged k e (SQEntry.set_canWB true e) w w'.
Proof.
  intros [Hok He] Hk Hx H. assert (flagged k e (SQEntry.set_canWB true e) w w') as Hf by (apply flag_entry; [apply Hok|done..]).
  split; [|done]. split; [eapply flag_ok; [done|exact Hf|..]; auto|by eapply flag_ends].
Qed.

Lemma quiet_storesToWB f w : quiet w (upd (fun u => with_storesToWB (f u) u) w).
Proof. apply quiet_upd; [split_and!; first [done | by left]|done]. Qed.

(** ** Stores are committed *)

Lemma commit_stores_ok y : forall n j w w', unit_ok w -> executed_to y w -> (j <= length (sq w))%nat ->
  commit_stores n y (at_pos (storeQueue (unit w)) j) w = Ok w' -> unit_ok w'.
Proof.
  induction n as [|n IH]; intros j w w' Hu Hx Hj H; pose proof Hu as [Hok _]; pose proof (uo_sq _ Hok) as [Hwf _];
    cbn [commit_stores] in H; rewrite at_pos_end in H by done; fold (sq w) in H;
    (destruct (Nat.eqb_spec j (length (sq w))); [by simplify_res|]); [done|].
  destruct (lookup_lt_is_Some_2 (sq w) j) as [e He]; [lia|]. rewrite (deref_at _ j e) in H by done. cbn [rbind] in H.
  simplify_res. rewrite (incr_at _ j) in H by (done || unfold sq in *; lia).
  destruct (SQEntry._canWB e) eqn:Hc; [eapply IH; [..|exact H]; (done || lia)|]. simplify_res.
  destruct (Z.ltb_spec y (DynInst.seqNum a0)) as [|Hle]; [by simplify_res|]. simplify_res.
  match goal with H : sq_set _ _ _ = Ok _ |- _ => apply mark_ok in H as [Hu1 Hf]; [|done|done|] end.
  2:{ eapply executed_to_le; [|exact Hx]. unfold seq_of, inst_of. unfold SQEntry.instruction, LSQEntry.instruction in *.
      destruct (LSQEntry.inst _); simplify_res. simpl. by rewrite (inst_at_inv _ _ _ E1). }
  rewrite <- (flag_at _ _ _ _ _ Hf) in H.
  pose proof (quiet_storesToWB (fun u => storesToWB u + 1) a1) as Q. eapply (IH (S j) (upd (fun u => with_storesToWB (storesToWB u + 1) u) a1)); [..|exact H].
  - by eapply quiet_unit_ok.
  - eapply executed_to_quiet; [exact Q|]. destruct (flag_rest _ _ _ _ _ Hf) as (R1&_&_&R4&_).
    unfold executed_to, lq. by rewrite R1, R4.
  - unfold sq. simpl. fold (sq a1). rewrite (fl_sq _ _ _ _ _ Hf), length_insert. lia.
Qed.

Lemma begin_at {A} (q : CircularQueue.t A) : CircularQueue.begin q = at_pos q 0.
Proof. unfold CircularQueue.begin, at_pos. f_equal. lia. Qed.

Lemma commitStores_ok y w w' : unit_ok w -> executed_to y w -> commitStores y w = Ok w' -> unit_ok w'.
Proof.
  unfold commitStores. intros Hok Hx H. simplify_res. rewrite begin_at in H. eapply commit_stores_ok; [done..| |exact H]. lia.
Qed.

(** ** A store is executed *)

Section stores.
Context (P : Params) (cpu : BaseCPU.t) (E : Env) (domain context : Z -> Z) (now pid task : Z).
Hypothesis Hkind : forall i, match initiate E i with
  | Push is_load _ _ _ _ _ _ _ => is_load = DynInst.isLoad i | NoAccess _ _ => True end.

Lemma executeStore_ok p i w f w' :
  unit_ok w -> insts w !! p = Some i -> DynInst.isLoad i = false -> in_sq w p false ->
  (DynInst.isStoreConditional i || DynInst.isAtomic i = true -> executed_to (DynInst.seqNum i) w) ->
  executeStore P cpu E domain context now pid task p w = Ok (f, w') -> unit_ok w'.
Proof.
  intros Hu Hi Hl Hin Hx H. pose proof Hu as [Hok _]. unfold executeStore in H. simplify_res.
  rewrite (inst_at_Ok _ _ _ Hi) in E1. apply ok_inj in E1. subst a.
  match goal with H : initiateAcc _ _ _ _ _ _ _ _ _ = Ok ?x |- _ => destruct x as [f1 w1]; rename H into Hacc end.
  eapply quiet_initiateAcc in Hacc as Q; [|exact Hkind|exact Hok|exact Hi|unfold placed; by rewrite Hl].
  apply (quiet_unit_ok _ _ Hu) in Q as Hu1. pose proof Hu1 as [Hok1 _]. simplify_res.
  match goal with H : inst_at p w1 = Ok _ |- _ => apply inst_at_inv in H as Hj end.
  destruct (_ && _); [by simplify_res|]. destruct (negb (DynInst.readPredicate _)); [simplify_res; by eapply quiet_unit_ok, quiet_emit|].
  simplify_res. destruct (SQEntry.size _ =? 0); [by simplify_res|]. simplify_res.
  match goal with H : checkViolations _ _ _ _ = Ok _ |- _ => apply quiet_checkViolations in H as Qc end.
  eapply quiet_unit_ok; [|exact Qc]. match goal with H : (if ?c then _ else Ok w1) = Ok _ |- _ => destruct c eqn:Hsc end; simplify_res; [|done].
  eapply quiet_unit_ok; [|apply quiet_storesToWB].
  destruct (heap_step_fwd _ _ _ _ (qt_heap _ _ Q) Hi) as (i1 & Hi1 & Hii).
  pose proof (inst_step_kind _ _ Hii) as (Hsn & _). destruct Hii as (Hid & _ & _ & Hsx & _).
  assert (i1 = a) as -> by congruence.
  destruct (sq_place _ _ _ false Hok1 (in_sq_quiet _ _ _ _ Q Hin) Hj) as (k & e & He & Hpe & Hce & Hidx).
  rewrite <- Hsx, Hidx in *. unfold on_sq in *. simplify_res.
  match goal with H : sq_get _ _ = Ok ?x, H2 : sq_set _ (SQEntry.set_canWB true ?x) _ = Ok _ |- _ => apply (sq_get_entry _ _ _ _ Hok1 He) in H as -> end.
  match goal with H : sq_set _ _ _ = Ok _ |- _ => apply mark_ok in H as [Hu2 _]; [done|done|done|] end.
  replace (seq_of _ _) with (DynInst.seqNum i) by (unfold seq_of, inst_of; rewrite Hpe; simpl; rewrite Hj; congruence).
  eapply executed_to_quiet; [exact Q|]. apply Hx. destruct Hid as (Hid1 & _ & Hid2).
  unfold DynInst.isStoreConditional, DynInst.isAtomic in *. by rewrite Hid2.
Qed.
(** ** A store is complete *)

Lemma quiet_unstall n w w' : unstall n w = Ok w' -> quiet w w'.
Proof.
  unfold unstall. intros H. destruct (_ && _); simplify_res; [|reflexivity]. etrans; [|apply quiet_emit].
  apply quiet_upd; [split_and!; first [done | by left]|done].
Qed.

Lemma pop_completed_ok : forall n w w' e, unit_ok w -> sq w !! 0%nat = Some e -> SQEntry._completed e = true ->
  pop_completed n w = Ok w' -> unit_ok w'.
Proof.
  induction n as [|n IH]; intros w w' e Hu He Hc H; [done|]. pose proof Hu as [Hok Hends]. cbn [pop_completed] in H.
  apply rbind_ok in H as (w1 & H1 & H). apply rbind_ok in H as (q & H2 & H). cbv zeta in H.
  set (w2 := upd (fun u => with_stores (stores u - 1) (with_storeQueue q u)) w1) in *.
  destruct (pop_head_shrink w w1 w2 q e Hok He Hc H1 H2 eq_refl) as [Hs Hlq]. clearbody w2. clear H1 H2.
  assert (unit_ok w2) as Hu2.
  { split; [by eapply shrink_ok|]. by eapply shrink_ends_same. }
  apply rbind_ok in H as (e2 & Hf & H). destruct (_ && _) eqn:Hb; [|by simplify_res].
  apply andb_true_iff in Hb as [Hc2 Hne%negb_true_iff]. pose proof (uo_sq _ (proj1 Hu2)) as Hq2.
  destruct (front_contents _ Hq2) as (e3 & He3 & Hf3).
  { unfold CircularQueue.empty in Hne. apply Z.eqb_neq in Hne. destruct Hq2 as [(_ & _ & ? & _) _]. lia. }
  rewrite Hf in Hf3. apply ok_inj in Hf3. subst e3. by eapply (IH w2).
Qed.

Lemma complete_ok k e w w' :
  unit_ok w -> sq w !! k = Some e -> sq_head w + Z.of_nat k < wb_idx w ->
  completeStore P (at_pos (storeQueue (unit w)) k) w = Ok w' -> unit_ok w'.
Proof.
  intros Hu Hk Hlt H. pose proof Hu as [Hok Hends]. unfold completeStore in H. rewrite (deref_at _ k e) in H by (apply Hok || done).
  cbn [rbind] in H. destruct (SQEntry.valid e); [|done]. apply rbind_ok in H as (w1 & H1 & H). simpl in H1.
  apply (flag_entry w w1 k e) in H1 as Hf; [|apply Hok|done..].
  assert (unit_ok w1) as Hu1.
  { split; [eapply flag_ok; [exact Hok|exact Hf|..]; auto|by eapply flag_ends]. }
  set (w2 := upd _ w1) in H. assert (quiet w1 w2) as Q by apply quiet_storesToWB.
  apply (quiet_unit_ok _ _ Hu1) in Q as Hu2.
  apply rbind_ok in H as (p & Hp & H). apply rbind_ok in H as (w3 & H3 & H).
  assert (unit_ok w3) as Hu3.
  { rewrite begin_at, <- (flag_at _ _ _ _ _ Hf), at_pos_eqb in H3. destruct (Nat.eqb_spec k 0) as [->|]; [|by simplify_res].
    simplify_res. eapply quiet_unit_ok; [|apply quiet_emit]. eapply (pop_completed_ok _ w2); [done| | |eassumption].
    - unfold w2, sq. simpl. fold (sq w1). rewrite (fl_sq _ _ _ _ _ Hf). by rewrite list_lookup_insert_eq by (by eapply lookup_lt_Some).
    - done. }
  simplify_res.
  match goal with H : unstall _ _ = Ok _ |- _ => apply quiet_unstall in H as Q1 end.
  match goal with H : on_inst _ _ _ = Ok _ |- _ => apply quiet_on_inst in H as Q2; [|intros; inst_quiet_tac] end.
  eapply quiet_unit_ok; [exact Hu3|]. etrans; [exact Q1|]. etrans; [exact Q2|]. destruct (needsTSO P); [|reflexivity].
  apply quiet_upd; [split_and!; first [done | by left]|done].
Qed.

(** ** The next store *)

Definition swb (it : iterator) (w : World) : World := upd (with_storeWBIt it) w.

Lemma wb_pos w k : core_ok w -> storeWBIt (unit w) = at_pos (storeQueue (unit w)) k -> wb_idx w = sq_head w + Z.of_nat k.
Proof. intros _ H. unfold wb_idx. by rewrite H. Qed.

Lemma advance_idx w : core_ok w -> can_wb w -> exists k e, sq w !! k = Some e /\ SQEntry._canWB e = true /\
  storeWBIt (unit w) = at_pos (storeQueue (unit w)) k /\ CircularQueue.incr (storeWBIt (unit w)) = at_pos (storeQueue (unit w)) (S k).
Proof.
  intros Hok (k & e & Hwb & He & Hc). exists k, e. split_and!; [done..|]. rewrite Hwb. apply incr_at; [apply Hok|].
  fold (sq w). by eapply lookup_lt_Some.
Qed.

Lemma advance_core w : core_ok w -> can_wb w -> isStoreBlocked (unit w) = false ->
  core_ok (swb (CircularQueue.incr (storeWBIt (unit w))) w).
Proof.
  intros Hok Hcw Hb. destruct (advance_idx _ Hok Hcw) as (k & e & He & Hc & Hwb & ->).
  destruct Hok as [A1 A2 A3 A4 A5 A6 A7 A8 A9 A10 A11 A12 A13 A14 A15 A16 A17 A18 A19 A20].
  split; try done.
  - destruct A11 as (k' & K1 & K2 & K3 & K4).
    assert (k' = k) as ->. { rewrite Hwb in K1. unfold at_pos in K1. injection K1 as K. lia. }
    exists (S k). split_and!; [done|pose proof (lookup_lt_Some _ _ _ He); unfold sq in *; simpl; lia| |].
    + intros j f Hj Hf. destruct (decide (j = k)) as [->|]; [|eapply (K3 j); [lia|done]].
      assert (f = e) as -> by (unfold sq in *; simpl in *; congruence). done.
    + intros j f Hj Hf. eapply (K4 j); [lia|done].
  - intros j f i Hf Hi. destruct (A12 j f i Hf Hi) as (H1 & H2 & b & H3 & H4 & H5 & H6). split_and!; [done..|].
    exists b. split_and!; [done..| |done]. intros Hx. specialize (H5 Hx). unfold wb_idx. simpl.
    assert (bases w !! k = Some (SQEntry.base e)) as Hbe by (unfold bases; by rewrite list_lookup_fmap, He).
    specialize (H6 _ _ Hbe). destruct (Z.le_gt_cases (DynInst.seqNum i) (seq_of (insts w) (SQEntry.base e))) as [Hle|Hgt].
    + rewrite (A14 k e j f i He Hc Hf Hi Hle) in Hx. done.
    + unfold sq_head in H6. lia.
  - intros Hb'. simpl in Hb'. congruence.
Qed.

Lemma advance_wb_ok w : unit_ok w -> can_wb w -> isStoreBlocked (unit w) = false ->
  unit_ok (swb (CircularQueue.incr (storeWBIt (unit w))) w).
Proof. intros [Hok He] Hc Hb. split; [by apply advance_core|exact He]. Qed.

(** [completeStore] does not look at [storeWBIt]. *)

Definition blind (op : World -> res World) : Prop :=
  forall it w, op (swb it w) = rmap (swb it) (op w).

Lemma blind_bind (f g : World -> res World) : blind f -> blind g -> blind (fun w => let* w := f w in g w).
Proof. intros Hf Hg it w. cbv beta. rewrite Hf. destruct (f w); simpl; [apply Hg|done]. Qed.

Lemma blind_on_inst p f : blind (on_inst p f).
Proof. intros it w. unfold on_inst, inst_at. simpl. by destruct (deref _ _). Qed.

Lemma blind_delete r : blind (delete_request r).
Proof.
  intros it w. unfold delete_request, req_at. simpl. destruct (reqs w !! r); [|done]. cbn [rbind].
  destruct (negb _); [|done]. rewrite blind_on_inst. by destruct (on_inst _ _ w).
Qed.

Lemma blind_free e : blind (free_request e).
Proof.
  intros it w. unfold free_request. destruct (LSQEntry.req e) as [r|]; [|done]. unfold freeLSQEntry, release, req_at. simpl.
  destruct (reqs w !! r); [|done]. cbn [rbind]. destruct (negb _); [apply blind_delete|done].
Qed.

Lemma blind_sq_set idx e : blind (sq_set idx e).
Proof. intros it w. unfold sq_set. simpl. by destruct (CircularQueue.set _ _ _). Qed.

Lemma blind_clear_store idx : blind (clear_store idx).
Proof.
  intros it w. unfold clear_store, sq_get. simpl. destruct (CircularQueue.get _ _); [|done]. cbn [rbind].
  apply (blind_bind (free_request _) (sq_set idx _)); [apply blind_free|apply blind_sq_set].
Qed.

Lemma blind_pop : forall n, blind (pop_completed n).
Proof.
  induction n as [|n IH]; intros it w; [done|]. cbn [pop_completed]. rewrite blind_clear_store.
  destruct (clear_store _ w) as [w1|]; [|done]. simpl. destruct (CircularQueue.pop_front _ _) as [q|]; [|done]. simpl.
  destruct (CircularQueue.front q); [|done]. simpl. destruct (_ && _); [|done].
  rewrite <- IH. done.
Qed.

Lemma blind_unstall n : blind (unstall n).
Proof.
  intros it w. unfold unstall, lq_get. simpl. destruct (_ && _); [|done]. destruct (CircularQueue.get _ _); [|done]. simpl.
  by destruct (LSQEntry.instruction _).
Qed.

Lemma blind_complete x : blind (completeStore P x).
Proof.
  intros it w. unfold completeStore. simpl. destruct (CircularQueue.deref _ _) as [e|]; [|done]. simpl. destruct (SQEntry.valid e); [|done].
  rewrite blind_sq_set. destruct (sq_set _ _ w) as [w1|]; [|done]. simpl. destruct (SQEntry.instruction e) as [p|]; [|done]. simpl.
  set (w2 := upd (fun u => with_storesToWB (storesToWB u - 1) u) w1).
  change (upd (fun u => with_storesToWB (storesToWB u - 1) u) (swb it w1)) with (swb it w2).
  destruct (CircularQueue.it_eqb _ _).
  - rewrite blind_pop. destruct (pop_completed _ w2) as [w3|]; [|done]. simpl.
    change (emit UpdateLSQNextCycle (swb it w3)) with (swb it (emit UpdateLSQNextCycle w3)). generalize (emit UpdateLSQNextCycle w3). clear.
    intros w. unfold inst_at. simpl. destruct (deref _ _); [|done]. simpl. rewrite blind_unstall. destruct (unstall _ w) as [w1|]; [|done]. simpl.
    rewrite blind_on_inst. destruct (on_inst _ _ w1); [|done]. simpl. by destruct (needsTSO P).
  - simpl. generalize w2. clear. intros w. unfold inst_at. simpl. destruct (deref _ _); [|done]. simpl. rewrite blind_unstall.
    destruct (unstall _ w) as [w1|]; [|done]. simpl. rewrite blind_on_inst. destruct (on_inst _ _ w1); [|done]. simpl. by destruct (needsTSO P).
Qed.

(** ** Stores are written back *)

Lemma complete_keeps_wb x w w' : completeStore P x w = Ok w' -> storeWBIt (unit w') = storeWBIt (unit w).
Proof.
  intros H. pose proof (blind_complete x (storeWBIt (unit w)) w) as Hb.
  assert (swb (storeWBIt (unit w)) w = w) as Hw by by destruct w as [? ? ? ? [] ? ? ? ?].
  rewrite Hw, H in Hb. simpl in Hb. apply ok_inj in Hb. by rewrite Hb.
Qed.

(** A store completes and is left behind, in either order. *)
Lemma advance_complete_ok w w' : unit_ok w -> can_wb w -> isStoreBlocked (unit w) = false ->
  completeStore P (storeWBIt (unit w)) (swb (CircularQueue.incr (storeWBIt (unit w))) w) = Ok w' -> unit_ok w'.
Proof.
  intros Hu Hc Hb H. pose proof (advance_wb_ok _ Hu Hc Hb) as Hu1.
  destruct (advance_idx _ (proj1 Hu) Hc) as (k & e & He & _ & Hwb & Hinc). rewrite Hinc in *. rewrite Hwb in H.
  eapply (complete_ok k e _ _ Hu1); [exact He| |exact H]. unfold wb_idx, sq_head. simpl. lia.
Qed.

Lemma complete_advance_ok w w1 : unit_ok w -> can_wb w -> isStoreBlocked (unit w) = false ->
  completeStore P (storeWBIt (unit w)) w = Ok w1 -> unit_ok (swb (CircularQueue.incr (storeWBIt (unit w1))) w1).
Proof.
  intros Hu Hc Hb H. rewrite (complete_keeps_wb _ _ _ H). eapply (advance_complete_ok w); [done..|].
  by rewrite blind_complete, H.
Qed.

Lemma can_wb_step w w' : quiet w w' -> can_wb w -> can_wb w'.
Proof. intros Q. apply (can_wb_quiet w w'); [apply Q|]. by destruct (qt_counts _ _ Q) as (_ & _ & ?). Qed.

Lemma storePostSend_ok w w' : unit_ok w -> can_wb w -> isStoreBlocked (unit w) = false -> storePostSend P w = Ok w' -> unit_ok w'.
Proof.
  unfold storePostSend. intros Hu Hc Hb H. simplify_res.
  match goal with H : unstall _ _ = Ok ?x |- _ => apply quiet_unstall in H as Q1;
    assert (isStoreBlocked (unit x) = false) as B1 by (unfold unstall in H; destruct (_ && _); by simplify_res) end.
  match goal with H : (if _ then _ else _) = Ok ?x |- _ => assert (quiet a2 x /\ isStoreBlocked (unit x) = false) as [Q2 B2] end.
  { destruct (negb _); simplify_res; [|done]. match goal with H : on_inst _ _ _ = Ok _ |- _ =>
      split; [eapply quiet_on_inst; [|exact H]; intros; inst_quiet_tac|by apply on_inst_inv in H as (? & _ & ->)] end. }
  match goal with |- unit_ok (upd _ ?x) => assert (quiet a3 x /\ isStoreBlocked (unit x) = false) as [Q3 B3] end.
  { destruct (needsTSO P); [|done]. split; [apply quiet_upd; [split_and!; first [done | by left]|done]|done]. }
  match type of Q3 with quiet _ ?x => assert (quiet w x) as Q by (etrans; [exact Q1|]; by etrans); generalize dependent x end.
  intros x _ B3 Q. apply (advance_wb_ok x); [by eapply quiet_unit_ok|by eapply can_wb_step|done].
Qed.

(** The store to be written back has request [r]. *)
Definition wb_request (r : Z) (w : World) : Prop := at_entry (storeQueue (unit w)) r (storeWBIt (unit w)).

Lemma wb_request_can r w : wb_request r w -> can_wb w.
Proof. intros (k & e & Hk & He & _ & Hc). by exists k, e. Qed.

Lemma wb_request_quiet r w w' : quiet w w' -> wb_request r w -> wb_request r w'.
Proof. intros Q H. unfold wb_request. destruct (qt_counts _ _ Q) as (_ & _ & ->). by apply Q. Qed.

Lemma send_ok r w w1 q w' :
  unit_ok w -> wb_request r w -> sendPacketToCache E r w = Ok w1 -> req_at r w1 = Ok q ->
  (if isSent q then storePostSend P w1 else Ok w1) = Ok w' -> unit_ok w'.
Proof.
  intros Hu Hr Hs Hq H. apply quiet_send in Hs as Q; [|apply Hu|left; by eapply wb_request_can].
  pose proof (quiet_unit_ok _ _ Hu Q) as Hu1. destruct (isSent q) eqn:Hse; [|by simplify_res].
  pose proof (wb_request_quiet _ _ _ Q Hr) as Hr1.
  eapply storePostSend_ok; [exact Hu1|by eapply wb_request_can| |exact H].
  destruct (isStoreBlocked (unit w1)) eqn:Hb; [|done]. exfalso.
  destruct (uo_blocked _ (proj1 Hu1) Hb) as (k & e & K1 & K2 & _ & K4). destruct Hr1 as (k' & e' & K1' & K2' & K3' & _).
  assert (k' = k) as ->. { rewrite K1 in K1'. unfold at_pos in K1'. injection K1' as K. lia. }
  fold (sq w1) in K2'. simplify_eq. rewrite (K4 r q) in Hse; [done|done|by apply req_at_inv].
Qed.

Lemma writebackBlockedStore_ok w w' : unit_ok w -> writebackBlockedStore P E w = Ok w' -> unit_ok w'.
Proof.
  unfold writebackBlockedStore. intros Hu H. simplify_res.
  match goal with H : isStoreBlocked _ = true |- _ => destruct (uo_blocked _ (proj1 Hu) H) as (k & e & K1 & K2 & K3 & _) end.
  match goal with H : CircularQueue.deref _ _ = Ok _ |- _ => rewrite K1, (deref_at _ k e) in H by (apply Hu || done); apply ok_inj in H; rewrite <- H in * end.
  eapply send_ok; [exact Hu| |eassumption..]. exists k, e. split_and!; [done..| |done].
  unfold SQEntry.request, LSQEntry.request in *. destruct (LSQEntry.req _); by simplify_res.
Qed.

(** The store at [storeWBIt] is that of instruction [p] and request [r], and the cache
    has not refused it. *)
Definition wb_store (r : Z) (p : DynInstPtr) (w : World) : Prop :=
  exists k e, storeWBIt (unit w) = at_pos (storeQueue (unit w)) k /\ sq w !! k = Some e /\ SQEntry._canWB e = true /\
    LSQEntry.req (SQEntry.base e) = Some r /\ LSQEntry.inst (SQEntry.base e) = Some p.

Lemma wb_store_request r p w : wb_store r p w -> wb_request r w.
Proof. intros (k & e & H1 & H2 & H3 & H4 & _). by exists k, e. Qed.

(** Its request is a store's. *)
Lemma wb_store_inst r p q w : core_ok w -> wb_store r p w -> reqs w !! r = Some q -> _inst q = p.
Proof.
  intros Hok (k & e & _ & He & _ & Hr & Hp) Hq. pose proof (uo_entries _ Hok) as H. rewrite Forall_forall in H.
  destruct (H (SQEntry.base e) ltac:(apply elem_of_app; right; eapply (list_elem_of_lookup_2 _ k); unfold bases; by rewrite list_lookup_fmap, He) r Hr)
    as [_ Hq']. specialize (Hq' q Hq). congruence.
Qed.

Lemma quiet_prepare r p w w' : core_ok w -> wb_store r p w -> prepare_store cpu pid r p w = Ok w' ->
  quiet w w' /\ isStoreBlocked (unit w') = isStoreBlocked (unit w).
Proof.
  intros Hok Hwb H. unfold prepare_store in H. pose proof Hwb as (k & e & K1 & K2 & K3 & K4 & K5).
  unfold on_sq in H. simplify_res. rewrite K1 in *. simpl in *.
  match goal with H : sq_get _ _ = Ok ?x, H2 : sq_set _ _ w = Ok ?y |- _ => apply (sq_get_entry _ k _ e Hok K2) in H as ->;
    assert (quiet w y) as Q1; [eapply quiet_sq_set; [apply Hok|exact K2|exact H2|done|by left]|];
    assert (reqs y = reqs w /\ isStoreBlocked (unit y) = isStoreBlocked (unit w)) as [R1 B1] by (unfold sq_set in H2; by simplify_res) end.
  pose proof (quiet_ok _ _ Hok Q1) as Hok1.
  repeat match goal with H : inst_at _ _ = Ok _ |- _ => apply inst_at_inv in H | H : req_at _ _ = Ok _ |- _ => apply req_at_inv in H end.
  rewrite R1 in *.
  match goal with H : insts ?y !! p = Some ?i, H2 : buildPackets _ _ _ ?x = Ok _ |- _ =>
    apply quiet_build in H2 as Q3; assert (quiet y x /\ isStoreBlocked (unit x) = isStoreBlocked (unit w)) as [Q2 B2];
    [|assert (isStoreBlocked (unit w') = isStoreBlocked (unit x)) as B3
       by (unfold buildPackets in H2; destruct (req_at r x); [|done]; cbn [rbind] in H2; by simplify_res; repeat case_match; simplify_res)] end.
  2:{ split; [etrans; [exact Q1|]; by etrans|congruence]. }
  match goal with |- quiet ?y (match _ with None => set_req _ _ (set_inst _ ?j _) | Some _ => _ end) /\ _ =>
    assert (quiet y (set_inst p j y)) as Q2 by (eapply quiet_set_inst; [eassumption|inst_quiet_tac]) end.
  destruct (_senderState _) eqn:Hss; [done|]. split; [|done]. etrans; [exact Q2|]. eapply quiet_set_req_step; [simpl; rewrite R1; eassumption|done|].
  split_and!; [done..|]. intros st' [= <-] _. right. simpl. split; [symmetry; by eapply (wb_store_inst r p _ w)|]. right.
  eapply Q1. exists k, e. done.
Qed.

Lemma write_store_ok r p w w' : unit_ok w -> wb_store r p w -> isStoreBlocked (unit w) = false ->
  write_store P cpu E pid r p w = Ok w' -> unit_ok w'.
Proof.
  intros Hu Hwb Hb H. unfold write_store in H. apply rbind_ok in H as (w1 & H1 & H).
  destruct (quiet_prepare _ _ _ _ (proj1 Hu) Hwb H1) as [Q1 B1]. rewrite Hb in B1. clear H1.
  apply rbind_ok in H as (i & Hi & H). apply rbind_ok in H as ([w2 success] & H2 & H).
  pose proof (quiet_unit_ok _ _ Hu Q1) as Hu1. pose proof (wb_request_quiet _ _ _ Q1 (wb_store_request _ _ _ Hwb)) as Hr1.
  assert (quiet w1 w2 /\ isStoreBlocked (unit w2) = false /\ success = true) as (Q2 & B2 & ->).
  { destruct (DynInst.isStoreConditional i); simplify_res; [|done].
    match goal with H : on_inst _ _ _ = Ok _ |- _ => apply quiet_on_inst in H as Q2; [|intros; inst_quiet_tac];
      apply on_inst_inv in H as (i' & _ & ->) end.
    split_and!; [|done..]. etrans; [exact Q2|]. match goal with H : req_at _ _ = Ok _ |- _ => apply req_at_inv in H; eapply quiet_sent; [exact H|..] end.
    - done.
    - unfold isLoad. simpl. by apply mask_flags.
    - by eapply quiet_ok, Q2; apply Hu1.
    - intros st' Hst'. by exists st'.
    - by right. }
  pose proof (quiet_unit_ok _ _ Hu1 Q2) as Hu2. pose proof (wb_request_quiet _ _ _ Q2 Hr1) as Hr2. cbn [negb] in H. clear H2.
  simplify_res. destruct (Request._localAccessor _).
  - simplify_res. destruct a1 as [main|]; [|done]. unfold local_store in H. simplify_res.
    match goal with H : completeStore _ _ (emit ?a ?x) = Ok _ |- _ => pose proof (quiet_emit a x) as Q3; apply (complete_advance_ok (emit a x)) in H end;
      [done|by eapply quiet_unit_ok|eapply can_wb_step; [exact Q3|by eapply wb_request_can]|done].
  - simplify_res. by eapply send_ok.
Qed.

Lemma may_write_back_inv w : core_ok w -> may_write_back P w = Ok true ->
  exists k e, storeWBIt (unit w) = at_pos (storeQueue (unit w)) k /\ sq w !! k = Some e /\ SQEntry._canWB e = true.
Proof.
  intros Hok H. unfold may_write_back in H. destruct (_ && _) eqn:Hd; [|done]. apply andb_true_iff in Hd as [_ Hd].
  destruct (uo_wb _ Hok) as (k & K1 & K2 & _). rewrite K1 in *. pose proof (uo_sq _ Hok) as [(_ & Hc & Hz & Hh & Hw) Hbd].
  unfold CircularQueue.dereferenceable, CircularQueue.isValidIdx in Hd. simpl in Hd.
  rewrite uwrap_small in Hd by (unfold in_word; lia). apply andb_true_iff in Hd as [_ Hd%Z.ltb_lt].
  destruct (core_size _ Hok) as [_ Hsz]. destruct (lookup_lt_is_Some_2 (sq w) k) as [e He]; [lia|].
  rewrite (deref_at _ k e) in H by (apply Hok || done). cbn [rbind] in H. apply ok_inj in H. exists k, e. split_and!; [done..|].
  repeat match goal with H : _ && _ = true |- _ => apply andb_true_iff in H as [H ?] end. done.
Qed.

Lemma write_back_one_ok w b w' : unit_ok w -> may_write_back P w = Ok true -> write_back_one P cpu E pid w = Ok (b, w') -> unit_ok w'.
Proof.
  intros Hu Hm H. destruct (may_write_back_inv _ (proj1 Hu) Hm) as (k & e & K1 & K2 & K3). unfold write_back_one in H.
  destruct (isStoreBlocked (unit w)) eqn:Hb; [by simplify_res|]. assert (can_wb w) as Hc by by exists k, e.
  assert (CircularQueue.deref (storeQueue (unit w)) (storeWBIt (unit w)) = Ok e) as Hd by (rewrite K1; apply deref_at; [apply Hu|done]).
  rewrite Hd in H. cbn [rbind] in H. destruct (SQEntry.size e =? 0).
  { apply rbind_ok in H as (w1 & H1 & H). simplify_res. by eapply advance_complete_ok. }
  simplify_res. destruct (DynInst.isDataPrefetch _); [simplify_res; by apply advance_wb_ok|].
  destruct (LSQEntry.req (SQEntry.base e)) as [r|] eqn:Hr; [|done]. simplify_res.
  match goal with H : match ?m with Some _ => _ | None => _ end = Ok _ |- _ => destruct m as [main|]; [|done] end.
  destruct (_ && _); [by simplify_res|]. simplify_res. eapply write_store_ok; [exact Hu| |done|eassumption].
  exists k, e. split_and!; [done..|]. unfold SQEntry.instruction, LSQEntry.instruction in *. destruct (LSQEntry.inst _); by simplify_res.
Qed.

Lemma write_back_loop_ok : forall n w w', unit_ok w -> write_back_loop P cpu E pid n w = Ok w' -> unit_ok w'.
Proof.
  induction n as [|n IH]; intros w w' Hu H; cbn [write_back_loop] in H; apply rbind_ok in H as ([] & Hm & H);
    try done; try by simplify_res.
  apply rbind_ok in H as ([again w1] & H1 & H). pose proof (write_back_one_ok _ _ _ Hu Hm H1) as Hu1.
  destruct again; [by eapply IH|by simplify_res].
Qed.

Lemma writebackStores_ok w w' : unit_ok w -> writebackStores P cpu E pid w = Ok w' -> unit_ok w'.
Proof.
  unfold writebackStores. intros Hu H. apply rbind_ok in H as (w1 & H1 & H). apply rbind_ok in H as (w2 & H2 & H).
  destruct (_ && _); [|done]. apply ok_inj in H. subst w2. eapply write_back_loop_ok; [|exact H2].
  destruct (isStoreBlocked _); simplify_res; [by eapply writebackBlockedStore_ok|done].
Qed.

Lemma recvRetry_ok w w' : unit_ok w -> recvRetry P E w = Ok w' -> unit_ok w'.
Proof. unfold recvRetry. intros Hu H. destruct (isStoreBlocked _); [by eapply writebackBlockedStore_ok|by simplify_res]. Qed.

End stores.

End LsqCommit.
