(* ===== verification/LsqInsert.v ===== *)
(** * Instructions enter the queues

    A new entry at the tail of one of the queues, younger than all others, and the
    places its instruction remembers. *)

From stdpp Require Import gmap sorting.
From S2P Require Import Prelude.
From S2P Require Import CircularQueue BaseUtil MemCmd Request Packet DynInst Rob Lsq LsqFacts LsqSpec LsqUnit LsqUnitFacts LsqForward LsqRead LsqInv LsqQuiet LsqExec LsqOrder LsqCommit.

Local Open Scope Z_scope.

Module LsqInsert.
Import LSQRequest LSQUnit LsqUnitFacts LsqRead LsqInv LsqQuiet LsqExec LsqOrder LsqCommit.

(** ** The tail of a queue *)

Section append.
Context {A : Type} (q : CircularQueue.t A).
Hypothesis Hq : queue_ok q.
Hypothesis Hroom : CircularQueue._size q < CircularQueue._capacity q.

Lemma append_tail : CircularQueue.tail (CircularQueue.advance_tail q) =
  CircularQueue._head q + Z.of_nat (length (CircularQueue.contents q)).
Proof.
  destruct Hq as [Hwf Hb]. destruct (CircularQueue.advance_tail_room q Hwf Hroom) as (W & Hh & Hs & Hc & _).
  rewrite CircularQueue.length_contents by done. pose proof Hwf as (_ & _ & ? & ? & _). unfold CircularQueue.tail.
  rewrite Hh, Hs, uwrap_small by (unfold in_word; lia). lia.
Qed.

Lemma append_slot e : CircularQueue.get (CircularQueue.tail (CircularQueue.advance_tail q)) (CircularQueue.advance_tail q) = Ok e ->
  e ∈ CircularQueue.spare q.
Proof.
  intros H. destruct Hq as [Hwf Hb]. destruct (CircularQueue.advance_tail_room q Hwf Hroom) as (W & Hh & Hs & Hc & Hw).
  rewrite append_tail, <- Hh in H. pose proof Hwf as (_ & _ & Hz & _).
  destruct (lookup_lt_is_Some_2 (CircularQueue.window q) (length (CircularQueue.contents q))) as [x Hx].
  { rewrite CircularQueue.length_window, CircularQueue.length_contents by done. lia. }
  rewrite (CircularQueue.get_ok _ _ x W) in H by by rewrite Hw. apply ok_inj in H. subst x.
  rewrite CircularQueue.window_split, lookup_app_r, Nat.sub_diag in Hx by lia. by eapply list_elem_of_lookup_2.
Qed.

Lemma append_entry x q2 :
  CircularQueue._head q + CircularQueue._size q + 1 + CircularQueue._capacity q < 2 ^ 64 ->
  CircularQueue.set (CircularQueue.tail (CircularQueue.advance_tail q)) x (CircularQueue.advance_tail q) = Ok q2 ->
  queue_ok q2 /\ CircularQueue._head q2 = CircularQueue._head q /\ CircularQueue._size q2 = CircularQueue._size q + 1 /\
  CircularQueue.contents q2 = CircularQueue.contents q ++ [x] /\ CircularQueue.spare q2 = drop 1 (CircularQueue.spare q).
Proof.
  intros Hbd H. destruct Hq as [Hwf Hb]. destruct (CircularQueue.advance_tail_room q Hwf Hroom) as (W & Hh & Hs & Hc & Hw).
  rewrite append_tail, <- Hh in H. pose proof Hwf as (_ & _ & Hz & _).
  pose proof (CircularQueue.length_contents q Hwf) as Hl. pose proof (CircularQueue.length_window q Hwf) as Hlw.
  destruct (CircularQueue.set_ok (CircularQueue.advance_tail q) (length (CircularQueue.contents q)) x W) as (q' & Hset & W2 & Hw2 & Hs2 & Hh2 & Hc2).
  { rewrite Hw. lia. }
  rewrite Hset in H. apply ok_inj in H. subst q'. rewrite Hw in Hw2.
  assert (CircularQueue.window q2 = CircularQueue.contents q ++ [x] ++ drop 1 (CircularQueue.spare q)) as Hw3.
  { rewrite Hw2, CircularQueue.window_split. rewrite insert_app_r_alt, Nat.sub_diag by lia. f_equal.
    destruct (CircularQueue.spare q) as [|y l] eqn:Hsp; [|done]. exfalso.
    pose proof (CircularQueue.length_spare q Hwf) as Hls. rewrite Hsp in Hls. simpl in Hls. lia. }
  assert (Z.to_nat (CircularQueue._size q2) = length (CircularQueue.contents q ++ [x])) as Hn by (rewrite length_app; simpl; lia).
  split_and!; [split; [done|lia]|lia|lia| |].
  - unfold CircularQueue.contents at 1. rewrite Hw3, Hn, app_assoc. by rewrite take_app_length.
  - unfold CircularQueue.spare at 1. rewrite Hw3, Hn, app_assoc. by rewrite drop_app_length.
Qed.
End append.

(** ** A young instruction *)

(** [p] is younger than everything in the queues. *)
Definition youngest (w : World) (i : DynInst.t) : Prop :=
  Forall (fun e => seq_of (insts w) e < DynInst.seqNum i) (lq w ++ bases w).

(** What both insertions do: the instruction learns its places, and nothing else in the
    world changes but the queue. *)
Record enters (p : DynInstPtr) (i j : DynInst.t) (w w' : World) : Prop := {
  en_old : insts w !! p = Some i;
  en_new : insts w' = <[p := j]> (insts w);
  en_same : DynInst.same_identity i j;
  en_saved : DynInst.savedReq j = DynInst.savedReq i;
  en_young : youngest w i;
  en_reqs : reqs w' = reqs w /\ nextReq w' = nextReq w;
  en_unit : storeWBIt (unit w') = storeWBIt (unit w) /\ isStoreBlocked (unit w') = isStoreBlocked (unit w) /\
    memDepViolator (unit w') = memDepViolator (unit w)
}.

Section enters.
Context (p : DynInstPtr) (i j : DynInst.t) (w w' : World).
Hypothesis Hok : core_ok w.
Hypothesis Hen : enters p i j w w'.

Lemma young_seq e : e ∈ lq w ++ bases w -> seq_of (insts w) e < DynInst.seqNum i.
Proof. intros He. pose proof (en_young _ _ _ _ _ Hen) as H. unfold youngest in H. rewrite Forall_forall in H. by apply H. Qed.

Lemma enters_inst_of e : e ∈ lq w ++ bases w -> inst_of (insts w') e = inst_of (insts w) e.
Proof.
  intros He. pose proof (young_seq _ He) as Hlt. rewrite (en_new _ _ _ _ _ Hen). unfold seq_of, inst_of in *.
  destruct (LSQEntry.inst e) as [p0|]; [|done]. simpl in *. destruct (decide (p = p0)) as [<-|Hne].
  - rewrite (en_old _ _ _ _ _ Hen) in Hlt. lia.
  - by rewrite lookup_insert_ne.
Qed.

Lemma enters_seq e : e ∈ lq w ++ bases w -> seq_of (insts w') e = seq_of (insts w) e.
Proof. intros He. unfold seq_of. by rewrite enters_inst_of. Qed.

Lemma in_loads k e : lq w !! k = Some e -> e ∈ lq w ++ bases w.
Proof. intros H. apply elem_of_app. left. by eapply list_elem_of_lookup_2. Qed.
Lemma in_stores k e : bases w !! k = Some e -> e ∈ lq w ++ bases w.
Proof. intros H. apply elem_of_app. right. by eapply list_elem_of_lookup_2. Qed.

Lemma enters_here : insts w' !! p = Some j.
Proof. rewrite (en_new _ _ _ _ _ Hen). apply lookup_insert_eq. Qed.

Lemma enters_kind : DynInst.isLoad j = DynInst.isLoad i /\ DynInst.seqNum j = DynInst.seqNum i /\ (kind_ok i -> kind_ok j).
Proof.
  destruct (en_same _ _ _ _ _ Hen) as (H1 & _ & H2). unfold kind_ok, DynInst.isLoad, DynInst.isStore, DynInst.isAtomic.
  by rewrite H2.
Qed.

Lemma enters_occupied b l : (forall e, e ∈ l -> e ∈ lq w ++ bases w) -> Forall (occupied (insts w) b) l -> Forall (occupied (insts w') b) l.
Proof.
  intros Hl H. rewrite Forall_forall in *. intros e He. destruct (H e He) as (Hv & x & Hx & Hb). split; [done|].
  exists x. by rewrite enters_inst_of by auto.
Qed.

Lemma enters_order l : (forall e, e ∈ l -> e ∈ lq w ++ bases w) -> in_order (insts w) l -> in_order (insts w') l.
Proof.
  intros Hl H. unfold in_order in *. assert (seq_of (insts w') <$> l = seq_of (insts w) <$> l) as ->; [|done].
  apply list_fmap_ext. intros k e He. apply enters_seq, Hl. by eapply list_elem_of_lookup_2.
Qed.

Lemma enters_order_snoc l e : (forall e, e ∈ l -> e ∈ lq w ++ bases w) -> LSQEntry.inst e = Some p ->
  in_order (insts w) l -> in_order (insts w') (l ++ [e]).
Proof.
  intros Hl Hp H. apply (enters_order _ Hl) in H as H'. unfold in_order in *. rewrite fmap_app. apply StronglySorted_app.
  split_and!; [|done|by repeat constructor]. intros x y Hx Hy. apply list_elem_of_fmap in Hx as (f & -> & Hf). simpl in Hy.
  apply list_elem_of_singleton in Hy as ->. rewrite enters_seq by auto. unfold seq_of at 2, inst_of. rewrite Hp. simpl.
  rewrite enters_here. pose proof (young_seq f (Hl f Hf)). destruct enters_kind as (_ & -> & _). done.
Qed.

Lemma enters_occupied_new b e : LSQEntry.inst e = Some p -> LSQEntry._valid e = true -> DynInst.isLoad i = b -> occupied (insts w') b e.
Proof.
  intros Hp Hv Hb. split; [done|]. exists j. unfold inst_of. rewrite Hp. simpl. rewrite enters_here. split; [done|].
  destruct enters_kind as (-> & _). done.
Qed.

Lemma enters_violator v : memDepViolator (unit w') = Some v -> is_Some (insts w' !! v).
Proof.
  destruct (en_unit _ _ _ _ _ Hen) as (_ & _ & ->). intros Hv. rewrite (en_new _ _ _ _ _ Hen).
  apply lookup_insert_is_Some'. right. by apply (uo_violator _ Hok).
Qed.

Lemma enters_kinds p' i' : insts w' !! p' = Some i' -> kind_ok i'.
Proof.
  rewrite (en_new _ _ _ _ _ Hen). intros [[<- <-]|[_ H]]%lookup_insert_Some.
  - apply enters_kind. eapply (uo_kind _ Hok), Hen.
  - by eapply (uo_kind _ Hok).
Qed.

Lemma enters_saved p' i' r : insts w' !! p' = Some i' -> DynInst.savedReq i' = Some r ->
  r < nextReq w' /\ forall q, reqs w' !! r = Some q -> _inst q = p'.
Proof.
  destruct (en_reqs _ _ _ _ _ Hen) as [-> ->]. rewrite (en_new _ _ _ _ _ Hen).
  intros [[<- <-]|[_ H]]%lookup_insert_Some Hs; [|by eapply (uo_saved _ Hok)].
  rewrite (en_saved _ _ _ _ _ Hen) in Hs. eapply (uo_saved _ Hok); [apply Hen|done].
Qed.

Lemma enters_reqs r q : (forall r it, at_entry (storeQueue (unit w)) r it -> at_entry (storeQueue (unit w')) r it) ->
  reqs w' !! r = Some q -> req_ok w' r q.
Proof.
  intros Hat Hq. destruct (en_reqs _ _ _ _ _ Hen) as [R1 R2]. rewrite R1 in Hq.
  destruct (uo_reqs _ Hok r q Hq) as (Hr & x & Hx & Hl & Hss). split; [by rewrite R2|].
  assert (exists y, insts w' !! _inst q = Some y /\ DynInst.isLoad y = DynInst.isLoad x) as (y & Hy & Hyl).
  { rewrite (en_new _ _ _ _ _ Hen). destruct (decide (p = _inst q)) as [Heq|Hne].
    - rewrite <- Heq, lookup_insert_eq in *. exists j. split; [done|]. rewrite (en_old _ _ _ _ _ Hen) in Hx.
      assert (x = i) as -> by congruence. apply enters_kind.
    - rewrite lookup_insert_ne by done. by exists x. }
  exists y. split_and!; [done|congruence|]. intros st Hst Ha. destruct (Hss st Hst Ha) as [H1 H2]. auto.
Qed.

Lemma enters_entry e : entry_ok w e -> entry_ok w' e.
Proof. intros H r Hr. destruct (en_reqs _ _ _ _ _ Hen) as [-> ->]. by apply H. Qed.

End enters.

(** ** A load enters *)

Section load.
Context (p : DynInstPtr) (i j : DynInst.t) (w w' : World) (e : LSQEntry.t).
Hypothesis Hu : unit_ok w.
Hypothesis Hen : enters p i j w w'.
Hypothesis Hload : DynInst.isLoad i = true.
Hypothesis Hsq : storeQueue (unit w') = storeQueue (unit w) /\ stores (unit w') = stores (unit w).
Hypothesis Hlq : queue_ok (loadQueue (unit w')) /\ lq_head w' = lq_head w /\
  CircularQueue._size (loadQueue (unit w')) = CircularQueue._size (loadQueue (unit w)) + 1 /\ lq w' = lq w ++ [e] /\
  CircularQueue.spare (loadQueue (unit w')) = drop 1 (CircularQueue.spare (loadQueue (unit w))) /\
  loads (unit w') = loads (unit w) + 1.
Hypothesis He : e = LSQEntry.mk (Some p) None 0 true.
Hypothesis Hplace : DynInst.lqIdx j = lq_end w /\ DynInst.lqIt j = CircularQueue.It true (lq_end w) /\
  DynInst.sqIt j = CircularQueue.It true (sq_end w).

Lemma load_enters_bases : sq w' = sq w /\ bases w' = bases w /\ sq_head w' = sq_head w /\ sq_end w' = sq_end w /\ wb_idx w' = wb_idx w.
Proof.
  destruct Hsq as [H _], (en_unit _ _ _ _ _ Hen) as (H2 & _). unfold bases, sq, sq_head, sq_end, wb_idx, sq_head. by rewrite H, H2.
Qed.

Lemma load_enters_lookup k f : lq w' !! k = Some f -> lq w !! k = Some f \/ k = length (lq w) /\ f = e.
Proof. destruct Hlq as (_ & _ & _ & -> & _).
  intros [H|[Hk H]]%lookup_app_Some; [by left|]. right. apply list_lookup_singleton_Some in H as [H ->]. split; [lia|done].
Qed.

Lemma load_enters_inst : inst_of (insts w') e = Some j.
Proof. unfold inst_of. rewrite He. simpl. by eapply enters_here. Qed.

Lemma load_enters_seq : seq_of (insts w') e = DynInst.seqNum i.
Proof. unfold seq_of. rewrite load_enters_inst. by destruct (enters_kind _ _ _ _ _ Hen) as (_ & -> & _). Qed.

Lemma load_enters_load_at k f x : lq w' !! k = Some f -> inst_of (insts w') f = Some x -> load_placed w' (lq_head w' + Z.of_nat k) x.
Proof.
  pose proof Hu as [Hok _]. destruct load_enters_bases as (_ & B1 & B2 & B3 & B4). destruct Hlq as (_ & -> & _).
  intros Hf Hx. unfold load_placed. rewrite B1, B2, B3, B4. destruct (load_enters_lookup _ _ Hf) as [Hf0|[-> ->]].
  - rewrite (enters_inst_of _ _ _ _ _ Hen) in Hx by by eapply in_loads.
    destruct (uo_load_at _ Hok _ _ _ Hf0 Hx) as (H1 & H2 & b & H3 & H4 & H5 & H6). split_and!; [done..|]. exists b. split_and!; [done..|].
    intros k' g Hg. rewrite (enters_seq _ _ _ _ _ Hen) by by eapply in_stores. by apply H6.
  - rewrite load_enters_inst in Hx. injection Hx as <-. rewrite <- lq_end_length by done. destruct Hplace as (P1 & P2 & P3).
    split_and!; [done..|]. exists (sq_end w). split_and!; [done|lia| |].
    + intros _. destruct (uo_wb _ Hok) as (k & K1 & K2 & _). rewrite (wb_pos _ _ Hok K1), sq_end_length by done. lia.
    + intros k g Hg. pose proof (lookup_lt_Some _ _ _ Hg) as Hlt. unfold bases in Hlt. rewrite length_fmap in Hlt.
      rewrite (enters_seq _ _ _ _ _ Hen) by by eapply in_stores. destruct (enters_kind _ _ _ _ _ Hen) as (_ & -> & _).
      pose proof (young_seq _ _ _ _ _ Hen g ltac:(by eapply in_stores)). rewrite sq_end_length by done. lia.
Qed.

Lemma load_enters_store_at k f x : bases w' !! k = Some f -> inst_of (insts w') f = Some x -> store_placed w' (sq_head w' + Z.of_nat k) x.
Proof.
  pose proof Hu as [Hok Hends]. destruct load_enters_bases as (_ & B1 & B2 & _). rewrite B1, B2. intros Hf Hx.
  rewrite (enters_inst_of _ _ _ _ _ Hen) in Hx by by eapply in_stores.
  destruct (uo_store_at _ Hok _ _ _ Hf Hx) as (H1 & b & H2 & H3). assert (b <= lq_end w) as Hb.
  { unfold bases in Hf. rewrite list_lookup_fmap in Hf. destruct (sq w !! k) as [g|] eqn:Hg; [|done]. injection Hf as <-.
    destruct (Hends k g x Hg Hx) as [_ Hb]. rewrite H2 in Hb. by apply Hb. }
  split; [done|]. exists b. split; [done|]. destruct Hlq as (_ & -> & _). intros k' g Hg.
  destruct (load_enters_lookup _ _ Hg) as [Hg0|[-> ->]].
  - rewrite (enters_seq _ _ _ _ _ Hen) by by eapply in_loads. by apply H3.
  - rewrite load_enters_seq, <- lq_end_length by done. pose proof (young_seq _ _ _ _ _ Hen f ltac:(by eapply in_stores)) as Hy.
    unfold seq_of in Hy. rewrite Hx in Hy. lia.
Qed.

Lemma load_enters_core : core_ok w'.
Proof.
  pose proof Hu as [Hok _]. destruct load_enters_bases as (B0 & B1 & B2 & B3 & B4). destruct Hsq as [S1 S2].
  pose proof Hlq as (L1 & L2 & L3 & L4 & L5 & L6). destruct (en_reqs _ _ _ _ _ Hen) as [R1 R2], (en_unit _ _ _ _ _ Hen) as (U1 & U2 & U3).
  assert (forall x, x ∈ lq w -> x ∈ lq w ++ bases w) as Il by (intros; apply elem_of_app; by left).
  assert (forall x, x ∈ bases w -> x ∈ lq w ++ bases w) as Is by (intros; apply elem_of_app; by right).
  split; rewrite ?B1, ?S1, ?S2, ?L4.
  - done.
  - apply Hok.
  - rewrite L6, L3, (uo_loads _ Hok). done.
  - apply Hok.
  - rewrite L5. apply Forall_drop, Hok.
  - apply Hok.
  - apply Forall_app. split; [by eapply enters_occupied; [..|apply Hok]|]. apply Forall_singleton.
    eapply enters_occupied_new; [exact Hen|by rewrite He|by rewrite He|done].
  - by eapply enters_occupied; [..|apply Hok].
  - eapply enters_order_snoc; [exact Hen|done|by rewrite He|apply Hok].
  - by eapply enters_order; [..|apply Hok].
  - rewrite U1, B0. apply Hok.
  - rewrite <- L4. apply load_enters_load_at.
  - rewrite <- B1. apply load_enters_store_at.
  - rewrite B0, <- L4. intros k f k' g x Hf Hc Hg Hx Hle.
    assert (bases w !! k = Some (SQEntry.base f)) as Hbf by (unfold bases; by rewrite list_lookup_fmap, Hf).
    rewrite (enters_seq _ _ _ _ _ Hen) in Hle by by eapply in_stores. destruct (load_enters_lookup _ _ Hg) as [Hg0|[-> ->]].
    + rewrite (enters_inst_of _ _ _ _ _ Hen) in Hx by by eapply in_loads. by eapply (uo_committed _ Hok k f k' g).
    + rewrite load_enters_inst in Hx. injection Hx as <-. destruct (enters_kind _ _ _ _ _ Hen) as (_ & Hs & _).
      pose proof (young_seq _ _ _ _ _ Hen _ (in_stores w k _ Hbf)). lia.
  - intros Hb. rewrite U2 in Hb. destruct (uo_blocked _ Hok Hb) as (k & f & K1 & K2 & K3 & K4). exists k, f.
    rewrite U1, S1, B0, R1. done.
  - by eapply enters_violator.
  - by eapply enters_kinds.
  - rewrite <- app_assoc, (Permutation_app_comm [e]), app_assoc. apply Forall_app. split.
    + eapply Forall_impl; [apply (uo_entries _ Hok)|]. intros x. by eapply enters_entry.
    + apply Forall_singleton. by rewrite He.
  - intros r q. eapply enters_reqs; [done|exact Hen|]. by rewrite S1.
  - by eapply enters_saved.
Qed.

Lemma load_enters_ok : unit_ok w'.
Proof.
  split; [apply load_enters_core|]. pose proof Hu as [Hok Hends]. destruct load_enters_bases as (_ & B1 & _).
  intros k f x Hf Hx. destruct load_enters_bases as (B0 & _). rewrite B0 in Hf.
  rewrite (enters_inst_of _ _ _ _ _ Hen) in Hx by (eapply (in_stores _ k); unfold bases; by rewrite list_lookup_fmap, Hf).
  destruct (Hends k f x Hf Hx) as [H1 H2]. destruct Hlq as (_ & L2 & L3 & _). unfold lq_end in *. rewrite L2, L3. split; [done|].
  intros _. specialize (H2 I). lia.
Qed.

End load.

(** ** A store enters *)

Section store.
Context (p : DynInstPtr) (i j : DynInst.t) (w w' : World) (e : SQEntry.t).
Hypothesis Hu : unit_ok w.
Hypothesis Hen : enters p i j w w'.
Hypothesis Hstore : DynInst.isLoad i = false.
Hypothesis Hlq : loadQueue (unit w') = loadQueue (unit w) /\ loads (unit w') = loads (unit w).
Hypothesis Hsq : queue_ok (storeQueue (unit w')) /\ sq_head w' = sq_head w /\
  CircularQueue._size (storeQueue (unit w')) = CircularQueue._size (storeQueue (unit w)) + 1 /\ sq w' = sq w ++ [e] /\
  CircularQueue.spare (storeQueue (unit w')) = drop 1 (CircularQueue.spare (storeQueue (unit w))) /\
  stores (unit w') = stores (unit w) + 1.
Hypothesis He : SQEntry.base e = LSQEntry.mk (Some p) None 0 true /\ SQEntry._canWB e = false /\ SQEntry._completed e = false.
Hypothesis Hplace : DynInst.sqIdx j = sq_end w /\ DynInst.lqIt j = CircularQueue.It true (lq_end w).

Lemma store_enters_loads : lq w' = lq w /\ lq_head w' = lq_head w /\ lq_end w' = lq_end w.
Proof. destruct Hlq as [H _]. unfold lq, lq_end, lq_head. by rewrite H. Qed.

Lemma store_enters_bases : bases w' = bases w ++ [SQEntry.base e].
Proof. destruct Hsq as (_ & _ & _ & H & _). unfold bases. by rewrite H, fmap_app. Qed.

Lemma store_enters_lookup k f : sq w' !! k = Some f -> sq w !! k = Some f \/ k = length (sq w) /\ f = e.
Proof.
  destruct Hsq as (_ & _ & _ & -> & _).
  intros [H|[Hk H]]%lookup_app_Some; [by left|]. right. apply list_lookup_singleton_Some in H as [H ->]. split; [lia|done].
Qed.

Lemma store_enters_base k f : bases w' !! k = Some f -> bases w !! k = Some f \/ k = length (sq w) /\ f = SQEntry.base e.
Proof.
  rewrite store_enters_bases. intros [H|[Hk H]]%lookup_app_Some; [by left|]. right.
  apply list_lookup_singleton_Some in H as [H ->]. unfold bases in *. rewrite length_fmap in *. split; [lia|done].
Qed.

Lemma store_enters_inst : inst_of (insts w') (SQEntry.base e) = Some j.
Proof. unfold inst_of. destruct He as [-> _]. simpl. by eapply enters_here. Qed.

Lemma store_enters_seq : seq_of (insts w') (SQEntry.base e) = DynInst.seqNum i.
Proof. unfold seq_of. rewrite store_enters_inst. by destruct (enters_kind _ _ _ _ _ Hen) as (_ & -> & _). Qed.

Lemma store_enters_at k : at_pos (storeQueue (unit w')) k = at_pos (storeQueue (unit w)) k.
Proof. destruct Hsq as (_ & H & _). unfold at_pos, sq_head in *. by rewrite H. Qed.

Lemma store_enters_keeps k f : sq w !! k = Some f -> sq w' !! k = Some f.
Proof. destruct Hsq as (_ & _ & _ & -> & _). by apply lookup_app_l_Some. Qed.

Lemma store_enters_wb : exists k, storeWBIt (unit w') = at_pos (storeQueue (unit w')) k /\ (k <= length (sq w'))%nat /\
    (forall n f, (n < k)%nat -> sq w' !! n = Some f -> SQEntry._canWB f = true) /\
    (forall n f, (k <= n)%nat -> sq w' !! n = Some f -> SQEntry._completed f = false).
Proof.
  destruct (uo_wb _ (proj1 Hu)) as (k & K1 & K2 & K3 & K4). destruct (en_unit _ _ _ _ _ Hen) as (U1 & _). exists k.
  rewrite store_enters_at, U1. split_and!; [done| | |].
  - destruct Hsq as (_ & _ & _ & -> & _). rewrite length_app. lia.
  - intros n f Hn Hf. destruct (store_enters_lookup _ _ Hf) as [Hf0|[-> _]]; [by eapply K3|lia].
  - intros n f Hn Hf. destruct (store_enters_lookup _ _ Hf) as [Hf0|[_ ->]]; [by eapply K4|apply He].
Qed.

Lemma store_enters_load_at k f x : lq w' !! k = Some f -> inst_of (insts w') f = Some x -> load_placed w' (lq_head w' + Z.of_nat k) x.
Proof.
  pose proof Hu as [Hok _]. destruct store_enters_loads as (-> & -> & _). intros Hf Hx.
  rewrite (enters_inst_of _ _ _ _ _ Hen) in Hx by by eapply in_loads.
  destruct (uo_load_at _ Hok _ _ _ Hf Hx) as (H1 & H2 & b & H3 & H4 & H5 & H6). split_and!; [done..|]. exists b.
  destruct (en_unit _ _ _ _ _ Hen) as (U1 & _). unfold wb_idx, sq_end. rewrite U1. destruct Hsq as (_ & -> & -> & _).
  split_and!; [done|unfold sq_end in H4; lia|done|]. intros n g Hg. destruct (store_enters_base _ _ Hg) as [Hg0|[-> ->]].
  - rewrite (enters_seq _ _ _ _ _ Hen) by by eapply in_stores. by apply H6.
  - rewrite store_enters_seq. pose proof (young_seq _ _ _ _ _ Hen f ltac:(by eapply in_loads)) as Hy.
    unfold seq_of in Hy. rewrite Hx in Hy. rewrite sq_end_length in H4 by done. lia.
Qed.

Lemma store_enters_store_at k f x : bases w' !! k = Some f -> inst_of (insts w') f = Some x -> store_placed w' (sq_head w' + Z.of_nat k) x.
Proof.
  pose proof Hu as [Hok _]. destruct Hsq as (_ & -> & _). intros Hf Hx. unfold store_placed.
  destruct store_enters_loads as (-> & -> & _). destruct (store_enters_base _ _ Hf) as [Hf0|[-> ->]].
  - rewrite (enters_inst_of _ _ _ _ _ Hen) in Hx by by eapply in_stores.
    destruct (uo_store_at _ Hok _ _ _ Hf0 Hx) as (H1 & b & H2 & H3). split; [done|]. exists b. split; [done|]. intros n g Hg.
    rewrite (enters_seq _ _ _ _ _ Hen) by by eapply in_loads. by apply H3.
  - rewrite store_enters_inst in Hx. injection Hx as <-. destruct Hplace as [P1 P2]. rewrite <- sq_end_length by done.
    split; [done|]. exists (lq_end w). split; [done|]. intros n g Hg. pose proof (lookup_lt_Some _ _ _ Hg) as Hlt.
    rewrite (enters_seq _ _ _ _ _ Hen) by by eapply in_loads. destruct (enters_kind _ _ _ _ _ Hen) as (_ & -> & _).
    pose proof (young_seq _ _ _ _ _ Hen g ltac:(by eapply in_loads)). rewrite lq_end_length by done. lia.
Qed.

Lemma store_enters_core : core_ok w'.
Proof.
  pose proof Hu as [Hok _]. destruct store_enters_loads as (B0 & B1 & B2). destruct Hlq as [L1 L2].
  pose proof Hsq as (S1 & S2 & S3 & S4 & S5 & S6). destruct (en_reqs _ _ _ _ _ Hen) as [R1 R2], (en_unit _ _ _ _ _ Hen) as (U1 & U2 & U3).
  assert (forall x, x ∈ lq w -> x ∈ lq w ++ bases w) as Il by (intros; apply elem_of_app; by left).
  assert (forall x, x ∈ bases w -> x ∈ lq w ++ bases w) as Is by (intros; apply elem_of_app; by right).
  split; rewrite ?B0, ?L1, ?L2, ?store_enters_bases.
  - apply Hok.
  - done.
  - apply Hok.
  - rewrite S6, S3, (uo_stores _ Hok). done.
  - apply Hok.
  - rewrite S5. apply Forall_drop, Hok.
  - by eapply enters_occupied; [..|apply Hok].
  - apply Forall_app. split; [by eapply enters_occupied; [..|apply Hok]|]. apply Forall_singleton. destruct He as [He1 _].
    eapply enters_occupied_new; [exact Hen|by rewrite He1|by rewrite He1|done].
  - by eapply enters_order; [..|apply Hok].
  - destruct He as [He1 _]. eapply enters_order_snoc; [exact Hen|done|by rewrite He1|apply Hok].
  - apply store_enters_wb.
  - rewrite <- B0. apply store_enters_load_at.
  - rewrite <- store_enters_bases. apply store_enters_store_at.
  - intros k f k' g x Hf Hc Hg Hx Hle. destruct (store_enters_lookup _ _ Hf) as [Hf0|[_ ->]]; [|destruct He as (_ & ? & _); congruence].
    assert (bases w !! k = Some (SQEntry.base f)) as Hbf by (unfold bases; by rewrite list_lookup_fmap, Hf0).
    rewrite (enters_seq _ _ _ _ _ Hen) in Hle by by eapply in_stores.
    rewrite (enters_inst_of _ _ _ _ _ Hen) in Hx by by eapply in_loads. by eapply (uo_committed _ Hok k f k' g).
  - intros Hb. rewrite U2 in Hb. destruct (uo_blocked _ Hok Hb) as (k & f & K1 & K2 & K3 & K4). exists k, f.
    rewrite U1, store_enters_at, R1. split_and!; [done|by apply store_enters_keeps|done..].
  - by eapply enters_violator.
  - by eapply enters_kinds.
  - rewrite app_assoc. apply Forall_app. split.
    + eapply Forall_impl; [apply (uo_entries _ Hok)|]. intros x. by eapply enters_entry.
    + apply Forall_singleton. destruct He as [-> _]. done.
  - intros r q. eapply enters_reqs; [done|exact Hen|]. intros r' it (k & f & Hit & Hf & Hr & Hc). exists k, f.
    rewrite store_enters_at. split_and!; [done|by apply store_enters_keeps|done..].
  - by eapply enters_saved.
Qed.

Lemma store_enters_ok : unit_ok w'.
Proof.
  split; [apply store_enters_core|]. pose proof Hu as [Hok Hends]. intros k f x Hf Hx. destruct store_enters_loads as (_ & -> & ->).
  destruct (store_enters_lookup _ _ Hf) as [Hf0|[_ ->]].
  - rewrite (enters_inst_of _ _ _ _ _ Hen) in Hx by (eapply (in_stores _ k); unfold bases; by rewrite list_lookup_fmap, Hf0).
    exact (Hends k f x Hf0 Hx).
  - rewrite store_enters_inst in Hx. injection Hx as <-. destruct Hplace as [_ ->]. simpl. rewrite lq_end_length by done. lia.
Qed.

End store.

(** ** [insert] *)

(** Indices stay within 64 bits. *)
Definition room {A} (q : CircularQueue.t A) : Prop :=
  CircularQueue._head q + CircularQueue._size q + 1 + CircularQueue._capacity q < 2 ^ 64.

Lemma not_full {A} (q : CircularQueue.t A) : queue_ok q -> negb (CircularQueue.full q) = true -> CircularQueue._size q < CircularQueue._capacity q.
Proof.
  intros [(_ & _ & Hs & _) _] H. unfold CircularQueue.full in H. apply negb_true_iff, Z.eqb_neq in H. lia.
Qed.

Lemma quiet_insert_htm p w w' : insert_htm p w = Ok w' -> quiet w w'.
Proof.
  unfold insert_htm. intros H. apply rbind_ok in H as (i & Hi & H). apply rbind_ok in H as (w1 & H1 & H).
  apply ok_inj in H. subst w'. etrans; [|instantiate (1 := w1); destruct (DynInst.isHtmStop i); [apply quiet_upd; [split_and!; first [done | by left]|done]|reflexivity]].
  destruct (DynInst.isHtmStart i); [|by simplify_res]. cbv zeta in H1. destruct (htm_cpt _) as [uid|]; [|done].
  set (w0 := upd _ w) in *. assert (quiet w w0) as Q0 by (apply quiet_upd; [split_and!; first [done | by left]|done]).
  etrans; [exact Q0|]. destruct (negb _).
  - cbn [newHtmUid] in H1. etrans; [|eapply quiet_on_inst; [|exact H1]; intros; inst_quiet_tac].
    apply quiet_same; try done. apply same_unit_refl.
  - eapply quiet_on_inst; [|exact H1]. intros; inst_quiet_tac.
Qed.

Lemma insertLoad_ok p i w w' : unit_ok w -> insts w !! p = Some i -> DynInst.isLoad i = true -> youngest w i ->
  room (loadQueue (unit w)) -> insertLoad p w = Ok w' -> unit_ok w'.
Proof.
  intros Hu Hi Hl Hy Hr H. pose proof Hu as [Hok _]. unfold insertLoad in H.
  match type of H with (if ?b then _ else _) = _ => destruct b eqn:Hfull; [|done] end. destruct (_ <? _); [|done].
  pose proof (uo_lq _ Hok) as Hq. pose proof (not_full _ Hq Hfull) as Hroom.
  apply rbind_ok in H as (w1 & H1 & H). apply on_inst_inv in H1 as (i1 & Hi1 & ->). simpl in Hi1, H. rewrite Hi in Hi1. injection Hi1 as <-.
  apply rbind_ok in H as (e & He & H). unfold lq_get in He. simpl in He. apply (append_slot _ Hq Hroom) in He as Hsp.
  pose proof (uo_lq_spare _ Hok) as Hspare. rewrite Forall_forall in Hspare. apply Hspare in Hsp as ->. simpl in H.
  apply rbind_ok in H as (w2 & H2 & H). unfold lq_set in H2. apply rbind_ok in H2 as (q2 & Hset & H2). apply ok_inj in H2. subst w2.
  simpl in Hset. destruct (append_entry _ Hq Hroom _ _ Hr Hset) as (A1 & A2 & A3 & A4 & A5).
  destruct (0 <? _); [|done]. apply rbind_ok in H as (w3 & H3 & H). apply on_inst_inv in H3 as (i3 & Hi3 & ->). simpl in Hi3, H.
  rewrite lookup_insert_eq in Hi3. injection Hi3 as <-. apply quiet_insert_htm in H as Q. eapply quiet_unit_ok; [|exact Q]. clear Q H.
  eapply (load_enters_ok p i _ w _ (LSQEntry.mk (Some p) None 0 true)); [exact Hu| |done|done| |done|].
  - split; simpl; [done|apply insert_insert_eq|done..].
  - unfold lq, lq_head. simpl. split_and!; done.
  - simpl. rewrite (append_tail _ Hq Hroom). fold (lq w). fold (lq_head w). rewrite <- lq_end_length by done.
    split_and!; [done..|]. by rewrite end_idx by apply Hok.
Qed.

Lemma insertStore_ok p i w w' : unit_ok w -> insts w !! p = Some i -> DynInst.isLoad i = false -> youngest w i ->
  room (storeQueue (unit w)) -> insertStore p w = Ok w' -> unit_ok w'.
Proof.
  intros Hu Hi Hl Hy Hr H. pose proof Hu as [Hok _]. unfold insertStore in H.
  match type of H with (if ?b then _ else _) = _ => destruct b eqn:Hfull; [|done] end. destruct (_ <? _); [|done].
  pose proof (uo_sq _ Hok) as Hq. pose proof (not_full _ Hq Hfull) as Hroom.
  apply rbind_ok in H as (w1 & H1 & H). apply on_inst_inv in H1 as (i1 & Hi1 & ->). simpl in Hi1, H. rewrite Hi in Hi1. injection Hi1 as <-.
  destruct (0 <? _); [|done]. apply rbind_ok in H as (w2 & H2 & H). apply on_inst_inv in H2 as (i2 & Hi2 & ->). simpl in Hi2, H.
  rewrite lookup_insert_eq in Hi2. injection Hi2 as <-.
  apply rbind_ok in H as (e & He & H). unfold sq_get in He. simpl in He. apply (append_slot _ Hq Hroom) in He as Hsp.
  pose proof (uo_sq_spare _ Hok) as Hspare. rewrite Forall_forall in Hspare. apply Hspare in Hsp as (C1 & C2 & C3).
  unfold SQEntry.set in H. rewrite C1 in H. simpl in H.
  apply rbind_ok in H as (w3 & H3 & H). unfold sq_set in H3. apply rbind_ok in H3 as (q2 & Hset & H3). apply ok_inj in H3. subst w3.
  simpl in Hset. destruct (append_entry _ Hq Hroom _ _ Hr Hset) as (A1 & A2 & A3 & A4 & A5). apply ok_inj in H. subst w'.
  eapply (store_enters_ok p i _ w _ (SQEntry.with_base (LSQEntry.mk (Some p) None 0 true) e)); [exact Hu| |done|done| |done|].
  - split; simpl; [done|apply insert_insert_eq|done..].
  - unfold sq, sq_head. simpl. split_and!; done.
  - simpl. rewrite (append_tail _ Hq Hroom). fold (sq w). fold (sq_head w). rewrite <- sq_end_length by done.
    split_and!; [done..|]. by rewrite end_idx by apply Hok.
Qed.

Lemma lsq_insert_ok p i w w' : unit_ok w -> insts w !! p = Some i -> youngest w i ->
  room (loadQueue (unit w)) -> room (storeQueue (unit w)) -> insert p w = Ok w' -> unit_ok w'.
Proof.
  intros Hu Hi Hy Hl Hs H. unfold insert in H. rewrite (inst_at_Ok _ _ _ Hi) in H. cbn [rbind] in H.
  destruct (DynInst.isMemRef i); [|done]. destruct (_ || _); [|done]. apply rbind_ok in H as (w1 & H1 & H).
  apply quiet_on_inst in H as Q; [|intros; inst_quiet_tac]. eapply quiet_unit_ok; [|exact Q].
  destruct (DynInst.isLoad i) eqn:Hload; [by eapply insertLoad_ok|by eapply insertStore_ok].
Qed.

End LsqInsert.
