(* ===== verification/LsqHistory.v ===== *)
(** * The load and store queues over every history

    The operations of the unit as the steps of a transition system, with what the other
    stages of the core and the cache promise as the conditions of the steps, and the
    invariant of all reachable states. *)

From stdpp Require Import gmap sorting.
From S2P Require Import Prelude.
From S2P Require Import CircularQueue BaseUtil MemCmd Request Packet DynInst Rob Lsq LsqFacts LsqSpec LsqUnit LsqUnitFacts LsqForward LsqRead LsqExamples LsqInv LsqQuiet LsqExec LsqOrder LsqCommit LsqInsert.

Local Open Scope Z_scope.

Module LsqHistory.
Import LSQRequest LSQUnit LsqUnitFacts LsqRead LsqInv LsqQuiet LsqExec LsqOrder LsqCommit LsqInsert.

Section history.
Context (P : Params) (cpu : BaseCPU.t) (domain context : Z -> Z) (pid : Z).

(** Every access is of the kind of its instruction. *)
Definition kind_of (E : Env) : Prop := forall i, match initiate E i with
  | Push is_load _ _ _ _ _ _ _ => is_load = DynInst.isLoad i | NoAccess _ _ => True end.

(** The packet that is answered is the last one of its request. *)
Definition last_answer (q : LSQRequest.t) : Prop :=
  isSplit q = true -> u32 (numReceivedPackets q + 1) = Z.of_nat (length (_packets q)).

(** The cache answers what it has been sent: when the last answer to a store comes, all
    its packets have gone and the unit has turned to the next store. *)
Definition answers_sent (r : Z) (w : World) : Prop :=
  forall q st, reqs w !! r = Some q -> _senderState q = Some st -> isLoad q = false -> last_answer q ->
    CircularQueue._idx (idx st) < wb_idx w.

(** ** Responses *)

Lemma complete_entry_ok r it w w' :
  unit_ok w -> at_entry (storeQueue (unit w)) r it -> CircularQueue._idx it < wb_idx w -> completeStore P it w = Ok w' -> unit_ok w'.
Proof. intros Hu (k & e & -> & He & _) Hlt H. by eapply (complete_ok P k e). Qed.

Lemma completeDataAccess_ok E r q st w w' :
  unit_ok w -> reqs w !! r = Some q -> _senderState q = Some st -> alive st = true ->
  (isLoad q = false -> CircularQueue._idx (idx st) < wb_idx w) -> completeDataAccess P E r w = Ok w' -> unit_ok w'.
Proof.
  intros Hu Hq Hst Ha Hlt H. pose proof Hu as [Hok _]. unfold completeDataAccess in H. rewrite (req_at_Ok _ _ _ Hq) in H. cbn [rbind] in H.
  rewrite Hst in H. destruct (uo_reqs _ Hok r q Hq) as (_ & i & Hi & Hl & Hss). destruct (Hss st Hst Ha) as [Hin Hat].
  rewrite Hin, (inst_at_Ok _ _ _ Hi) in H. cbn [rbind] in H. destruct (DynInst.isSquashed i); [by simplify_res|].
  assert (DynInst.isStore i || DynInst.isAtomic i = true -> isLoad q = false) as Hkind.
  { rewrite Hl. intros Hs. apply not_true_is_false. intros Hx. destruct (uo_kind _ Hok _ _ Hi Hx) as [H1 H2]. by rewrite H1, H2 in Hs. }
  destruct (needWB st).
  - destruct (_ || _ || _); [|done]. simplify_res. match goal with H : match ?m with Some _ => _ | None => _ end = _ |- _ => destruct m as [pkt|]; [|done] end.
    simplify_res. match goal with H : writeback _ _ _ _ = Ok _ |- _ => apply quiet_writeback in H as Q1 end.
    destruct (_ || _) eqn:Hs in H; [|simplify_res; by eapply quiet_unit_ok]. simplify_res.
    match goal with H : writebackDone _ _ = Ok ?x |- _ => apply quiet_writebackDone in H as Q2; assert (quiet w x) as Q by by etrans end.
    specialize (Hkind Hs). eapply complete_entry_ok; [by eapply quiet_unit_ok| | |exact H].
    + eapply (qt_held _ _ Q). by apply Hat.
    + destruct (quiet_heads _ _ Q) as (_ & _ & _ & _ & ->). auto.
  - destruct (DynInst.isStore i) eqn:Hs; [|by simplify_res]. specialize (Hkind eq_refl).
    eapply complete_entry_ok; [exact Hu|by apply Hat|auto|exact H].
Qed.

(** Only the instruction of a request sees the data that arrive for it. *)
Lemma arrived_frame k pkt q w w' : arrived k pkt q w = Ok w' -> reqs w' = reqs w /\ wb_idx w' = wb_idx w.
Proof.
  unfold arrived. intros H. destruct (_packets q !! k); [|done]. destruct (Packet.data pkt); [|done].
  destruct (isLoad q); simplify_res; [|done]. by apply on_inst_inv in H as (? & _ & ->).
Qed.

Lemma request_recvTimingResp_ok E r k pkt q st w w' :
  unit_ok w -> reqs w !! r = Some q -> _senderState q = Some st -> alive st = true -> answers_sent r w ->
  request_recvTimingResp P E r k pkt w = Ok w' -> unit_ok w'.
Proof.
  intros Hu Hq Hst Ha Hans H. unfold request_recvTimingResp in H. rewrite (req_at_Ok _ _ _ Hq) in H. cbn [rbind] in H.
  rewrite Hst in H. cbn [rbind] in H. set (f := set_ss_outstanding (uwrap 8 (outstanding st - 1))) in *.
  assert (req_quiet q (with_ss (Some (f st)) q)) as Q0 by by apply req_quiet_ss.
  set (q1 := with_ss (Some (f st)) q) in *. destruct (_ <? _)%nat; [|done]. apply rbind_ok in H as (i & Hi & H).
  change (isSplit q1) with (isSplit q) in H. destruct (isSplit q) eqn:Hsp.
  - set (q2 := set_received _ q1) in H. set (q3 := set_packets _ _ q2) in H. assert (req_quiet q q3) as Q3 by (etrans; [exact Q0|by apply req_quiet_field]).
    destruct (Z.eqb_spec (numReceivedPackets q3) (Z.of_nat (length (_packets q3)))) as [Hn|Hn].
    + assert (req_quiet q (complete q3)) as Q4 by (etrans; [exact Q3|by apply req_quiet_flag]).
      apply rbind_ok in H as (w1 & H1 & H). apply quiet_on_inst in H as Qe; [|intros; inst_quiet_tac]. eapply quiet_unit_ok; [|exact Qe].
      eapply (completeDataAccess_ok E r (complete q3) (f st) (set_req r (complete q3) w)); [|apply lookup_insert_eq|done|done| |exact H1].
      * eapply quiet_unit_ok; [exact Hu|by eapply quiet_set_req].
      * intros Hl. simpl. apply (Hans q st); [done..|by destruct Q4 as (_ & <- & _)|]. intros _. exact Hn.
    + simplify_res. eapply quiet_unit_ok; [exact Hu|by eapply quiet_set_req].
  - destruct (_ =? 1); [|done]. set (q3 := set_packets _ _ q1) in H.
    assert (req_quiet q (complete q3)) as Q4
      by (etrans; [exact Q0|]; etrans; [by apply (req_quiet_field q1 q3)|by apply req_quiet_flag]).
    apply rbind_ok in H as (w1 & H1 & H). apply quiet_on_inst in H as Qe; [|intros; inst_quiet_tac]. eapply quiet_unit_ok; [|exact Qe].
    eapply (completeDataAccess_ok E r (complete q3) (f st) (set_req r (complete q3) w)); [|apply lookup_insert_eq|done|done| |exact H1].
    + eapply quiet_unit_ok; [exact Hu|by eapply quiet_set_req].
    + intros Hl. simpl. apply (Hans q st); [done..|by destruct Q4 as (_ & <- & _)|]. intros Hx. congruence.
Qed.

Lemma recvTimingResp_ok E r rest k pkt w w' :
  unit_ok w -> Packet.senderState pkt = Packet.SS_Other r :: rest -> answers_sent r w ->
  recvTimingResp P cpu E k pkt w = Ok w' -> unit_ok w'.
Proof.
  intros Hu Hss Hans H. unfold recvTimingResp in H. rewrite Hss in H. apply rbind_ok in H as (w1 & H1 & H).
  apply rbind_ok in H as (w2 & H2 & H). apply quiet_packetReplied in H as Q2. eapply quiet_unit_ok; [|exact Q2].
  enough (unit_ok w1) as Hu1.
  { destruct (Packet.isInvalidate pkt); [|by simplify_res]. eapply quiet_unit_ok; [exact Hu1|by eapply quiet_checkSnoop]. }
  clear H H2 Q2. unfold unit_recvTimingResp in H1. apply rbind_ok in H1 as (q & Hq & H1). apply req_at_inv in Hq.
  destruct (_senderState q) as [st|] eqn:Hst; [|done]. apply rbind_ok in H1 as (w3 & H3 & H1).
  apply quiet_arrived in H3 as Q3. destruct (arrived_frame _ _ _ _ _ H3) as [R3 W3]. pose proof (quiet_unit_ok _ _ Hu Q3) as Hu3.
  destruct (alive st) eqn:Ha.
  - eapply request_recvTimingResp_ok; [exact Hu3|by rewrite R3|exact Hst|done| |exact H1]. unfold answers_sent. by rewrite R3, W3.
  - apply ok_inj in H1. subst w1. eapply quiet_unit_ok; [exact Hu3|]. eapply quiet_set_req; [by rewrite R3|].
    by apply (req_quiet_ss (set_ss_outstanding (uwrap 8 (outstanding st - 1)))).
Qed.

Lemma recvReqRetry_ok E w w' : unit_ok w -> recvReqRetry P E w = Ok w' -> unit_ok w'.
Proof.
  unfold recvReqRetry. intros Hu H. eapply recvRetry_ok; [|exact H].
  eapply quiet_unit_ok; [exact Hu|]. etrans; [apply quiet_emit|apply quiet_ports].
Qed.

(** ** A new instruction *)

Section fresh.
Context (p : DynInstPtr) (i : DynInst.t) (w : World).
Hypothesis Hu : unit_ok w.
Hypothesis Hnew : insts w !! p = None.
Hypothesis Hkind : kind_ok i.
Hypothesis Hsaved : DynInst.savedReq i = None.

Lemma fresh_inst_of e : e ∈ lq w ++ bases w -> inst_of (<[p := i]> (insts w)) e = inst_of (insts w) e.
Proof.
  intros He. pose proof Hu as [Hok _]. assert (exists b, occupied (insts w) b e) as (b & Ho).
  { apply elem_of_app in He as [He|He]; eexists; [pose proof (uo_lq_occ _ Hok) as H|pose proof (uo_sq_occ _ Hok) as H];
      rewrite Forall_forall in H; by apply H. }
  destruct (occupied_inst _ _ _ Ho) as (p' & i' & Hp & Hi & _). unfold inst_of. rewrite Hp. simpl.
  rewrite lookup_insert_ne; [done|congruence].
Qed.

Lemma fresh_seq e : e ∈ lq w ++ bases w -> seq_of (<[p := i]> (insts w)) e = seq_of (insts w) e.
Proof. intros He. unfold seq_of. by rewrite fresh_inst_of. Qed.

Lemma fresh_old p' j : insts w !! p' = Some j -> insts (set_inst p i w) !! p' = Some j.
Proof. intros H. simpl. rewrite lookup_insert_ne; [done|congruence]. Qed.

Lemma fresh_occupied b l : (forall e, e ∈ l -> e ∈ lq w ++ bases w) -> Forall (occupied (insts w) b) l ->
  Forall (occupied (<[p := i]> (insts w)) b) l.
Proof.
  intros Hl H. rewrite Forall_forall in *. intros e He. destruct (H e He) as (Hv & x & Hx & Hb). split; [done|].
  exists x. by rewrite fresh_inst_of by auto.
Qed.

Lemma fresh_order l : (forall e, e ∈ l -> e ∈ lq w ++ bases w) -> in_order (insts w) l -> in_order (<[p := i]> (insts w)) l.
Proof.
  intros Hl H. unfold in_order in *. assert (seq_of (<[p := i]> (insts w)) <$> l = seq_of (insts w) <$> l) as ->; [|done].
  apply list_fmap_ext. intros k e He. apply fresh_seq, Hl. by eapply list_elem_of_lookup_2.
Qed.

Lemma fresh_core : core_ok (set_inst p i w).
Proof.
  pose proof Hu as [Hok _].
  assert (forall x, x ∈ lq w -> x ∈ lq w ++ bases w) as Il by (intros; apply elem_of_app; by left).
  assert (forall x, x ∈ bases w -> x ∈ lq w ++ bases w) as Is by (intros; apply elem_of_app; by right).
  split; try apply Hok.
  - apply fresh_occupied; [done|apply Hok].
  - apply fresh_occupied; [done|apply Hok].
  - apply fresh_order; [done|apply Hok].
  - apply fresh_order; [done|apply Hok].
  - simpl. intros k e x He Hx. rewrite fresh_inst_of in Hx by by eapply in_loads.
    destruct (uo_load_at _ Hok _ _ _ He Hx) as (H1 & H2 & b & H3 & H4 & H5 & H6). split_and!; [done..|]. exists b. split_and!; [done..|].
    simpl. intros k' g Hg. rewrite fresh_seq by (by eapply (in_stores w)). by apply H6.
  - simpl. intros k e x He Hx. rewrite fresh_inst_of in Hx by (by eapply (in_stores w)).
    destruct (uo_store_at _ Hok _ _ _ He Hx) as (H1 & b & H2 & H3). split; [done|]. exists b. split; [done|].
    simpl. intros k' g Hg. rewrite fresh_seq by (by eapply (in_loads w)). by apply H3.
  - simpl. intros k e k' g x He Hc Hg Hx Hle. change (sq (set_inst p i w)) with (sq w) in He. rewrite fresh_inst_of in Hx by (by eapply (in_loads w)).
    rewrite fresh_seq in Hle by (eapply (in_stores w k); unfold bases; by rewrite list_lookup_fmap, He).
    by eapply (uo_committed _ Hok k e).
  - intros v Hv. destruct (uo_violator _ Hok v Hv) as [x Hx]. exists x. by apply fresh_old.
  - simpl. intros p' x [[_ <-]|[_ Hx]]%lookup_insert_Some; [done|by eapply (uo_kind _ Hok)].
  - intros r q Hq. destruct (uo_reqs _ Hok r q Hq) as (Hr & x & Hx & H). split; [done|]. exists x. split; [by apply fresh_old|done].
  - simpl. intros p' x r [[_ <-]|[_ Hx]]%lookup_insert_Some Hs; [congruence|by eapply (uo_saved _ Hok)].
Qed.

Lemma fresh_ok : unit_ok (set_inst p i w).
Proof.
  split; [apply fresh_core|]. pose proof Hu as [_ Hends]. intros k e x He Hx. simpl in Hx.
  change (sq (set_inst p i w)) with (sq w) in He.
  rewrite fresh_inst_of in Hx by (eapply (in_stores w k); unfold bases; by rewrite list_lookup_fmap, He). exact (Hends k e x He Hx).
Qed.
End fresh.

(** ** The steps *)

Inductive step (w : World) : World -> Prop :=
  (** An instruction is made, and other stages work on instructions. *)
  | step_new p i : insts w !! p = None -> kind_ok i -> DynInst.savedReq i = None -> step w (set_inst p i w)
  | step_stage h : heap_quiet (insts w) h -> step w (with_insts h w)
  (** Dispatch is in program order. *)
  | step_insert p i w' : insts w !! p = Some i -> youngest w i -> room (loadQueue (unit w)) -> room (storeQueue (unit w)) ->
      insert p w = Ok w' -> step w w'
  (** An instruction in the queues is executed; store conditionals and atomics only when
      the loads before them have been. *)
  | step_executeLoad E now task p i f w' : kind_of E -> insts w !! p = Some i -> DynInst.isLoad i = true -> in_lq w p ->
      executeLoad P cpu E domain context now pid task p w = Ok (f, w') -> step w w'
  | step_executeStore E now task p i f w' : kind_of E -> insts w !! p = Some i -> DynInst.isLoad i = false -> in_sq w p false ->
      (DynInst.isStoreConditional i || DynInst.isAtomic i = true -> executed_to (DynInst.seqNum i) w) ->
      executeStore P cpu E domain context now pid task p w = Ok (f, w') -> step w w'
  | step_translated r k fault req w' : finish r k fault req w = Ok w' -> step w w'
  | step_violator : step w (upd (fun u => snd (getMemDepViolator u)) w)
  (** Commit is in program order: what is committed has executed, and stores are
      committed before loads. *)
  | step_commitStores y w' : executed_to y w -> commitStores y w = Ok w' -> step w w'
  | step_commitLoads y w' : committed_to y w -> commitLoads y w = Ok w' -> step w w'
  | step_writeback E w' : writebackStores P cpu E pid w = Ok w' -> step w w'
  (** What has been committed is not squashed. *)
  | step_squash n w' : settled n w -> squash n w = Ok w' -> step w w'
  | step_event E w' : process_event E w = Ok w' -> step w w'
  (** The data cache. *)
  | step_response E r rest k pkt w' : Packet.senderState pkt = Packet.SS_Other r :: rest -> answers_sent r w ->
      recvTimingResp P cpu E k pkt w = Ok w' -> step w w'
  | step_retry E w' : recvReqRetry P E w = Ok w' -> step w w'
  | step_snoop pkt w' : recvTimingSnoopReq P cpu pkt w = Ok w' -> step w w'
  | step_tick : step w (tick w).

Lemma lsq_step_ok w w' : unit_ok w -> step w w' -> unit_ok w'.
Proof.
  intros Hu Hs. destruct Hs.
  - by apply fresh_ok.
  - eapply quiet_unit_ok; [exact Hu|by apply quiet_insts].
  - by eapply lsq_insert_ok.
  - eapply quiet_unit_ok; [exact Hu|]. by eapply quiet_executeLoad; [..|apply Hu| | | |].
  - by eapply executeStore_ok.
  - eapply quiet_unit_ok; [exact Hu|by eapply quiet_finish].
  - eapply quiet_unit_ok; [exact Hu|]. apply quiet_upd; [split_and!; first [done | by left | by right]|done].
  - by eapply commitStores_ok.
  - by eapply commitLoads_ok.
  - by eapply writebackStores_ok.
  - by eapply squash_ok.
  - eapply quiet_unit_ok; [exact Hu|by eapply quiet_process_event].
  - by eapply recvTimingResp_ok.
  - by eapply recvReqRetry_ok.
  - unfold recvTimingSnoopReq in *. destruct (Packet.isInvalidate pkt); [|by simplify_res].
    eapply quiet_unit_ok; [exact Hu|by eapply quiet_checkSnoop].
  - eapply quiet_unit_ok; [exact Hu|]. unfold tick. etrans; [|apply quiet_ports].
    destruct (_ && _); [apply quiet_emit|reflexivity].
Qed.

(** The unit as it is made, without requests. *)
Definition initial (w : World) : Prop :=
  (exists lqEntries sqEntries, 0 <= lqEntries < 2 ^ 32 - 1 /\ 0 <= sqEntries < 2 ^ 32 - 1 /\ unit w = make lqEntries sqEntries) /\
  reqs w = ∅ /\ forall p i, insts w !! p = Some i -> kind_ok i /\ DynInst.savedReq i = None.

Definition reachable (w : World) : Prop := exists w0, initial w0 /\ rtc step w0 w.

Lemma make_queue {A} (x : A) n : 0 <= n < 2 ^ 32 - 1 ->
  queue_ok (CircularQueue.make x (u32 (n + 1))) /\ CircularQueue.contents (CircularQueue.make x (u32 (n + 1))) = [] /\
  Forall (fun y => y = x) (CircularQueue.spare (CircularQueue.make x (u32 (n + 1)))).
Proof.
  intros Hn. rewrite uwrap_small by (unfold in_word; lia).
  assert (CircularQueue.wf (CircularQueue.make x (n + 1))) as Hwf.
  { unfold CircularQueue.wf, CircularQueue.make. simpl. rewrite length_replicate. split_and!; lia. }
  split_and!; [split; [done|simpl; lia]|done|]. unfold CircularQueue.spare, CircularQueue.make. simpl. rewrite drop_0.
  unfold CircularQueue.window, rotate. simpl. apply Forall_app. split; [apply Forall_drop|apply Forall_take]; by apply Forall_replicate.
Qed.

Lemma initial_ok w : initial w -> unit_ok w.
Proof.
  intros ((nl & ns & Hl & Hs & Hm) & Hr & Hi).
  destruct (make_queue LSQEntry.empty nl Hl) as (L1 & L2 & L3), (make_queue SQEntry.empty ns Hs) as (S1 & S2 & S3).
  assert (lq w = [] /\ sq w = []) as [Hlq Hsq] by (unfold lq, sq; by rewrite Hm).
  split; [|intros k e i He; by rewrite Hsq in He]. split; rewrite ?Hm; unfold bases; rewrite ?Hlq, ?Hsq; simpl; try done; try by constructor.
  - eapply Forall_impl; [exact S3|]. by intros e ->.
  - exists 0%nat. rewrite begin_at. split_and!; [done|lia| |]; intros k e _ He; done.
  - intros Hb. rewrite Hm in Hb. done.
  - intros p i Hp. by apply (Hi p).
  - intros r q Hq. by rewrite Hr in Hq.
  - intros p i r Hp Hsv. destruct (Hi p i Hp) as [_ H]. congruence.
Qed.

Lemma steps_ok w0 w : initial w0 -> rtc step w0 w -> unit_ok w.
Proof.
  intros H0 H. apply initial_ok in H0. induction H as [|w0 w1 w2 Hs _ IH]; [done|]. apply IH. by eapply lsq_step_ok.
Qed.

(** C19. The load and store queues over every history. From a unit as it is made, after
    any sequence of insertions in program order, executions, commits, write-backs,
    squashes, responses, retries and snoops, the queues are well-formed circular queues
    with as many entries as the counters say; loads and stores are in age order, each at
    the index its instruction remembers; the older stores of a load end where it
    remembers, and the younger loads of a store begin where it remembers, inside the
    load queue until the store is committed; the stores before [storeWBIt] may be written
    back and none behind it is complete; no store is written back past a load that has
    not executed; a blocked store is the one at [storeWBIt] and has not been sent; every
    slot that is not in use is cleared; and requests belong to the instructions of the
    entries and responses that hold them. *)
Theorem lsq_history_ok w : reachable w -> unit_ok w.
Proof.
  intros (w0 & H0 & H). by eapply steps_ok.
Qed.

(** The place of a store among the loads. *)
Lemma store_scan_place p i w : unit_ok w -> insts w !! p = Some i -> in_sq w p false ->
  exists n, DynInst.lqIt i = at_pos (loadQueue (unit w)) n /\ (n <= length (lq w))%nat /\
    forall k e ld, lq w !! k = Some e -> inst_of (insts w) e = Some ld -> (n <= k)%nat <-> DynInst.seqNum i < DynInst.seqNum ld.
Proof.
  intros [Hok Hends] Hi (k & e & He & Hp & Hc).
  assert (inst_of (insts w) (SQEntry.base e) = Some i) as Hei by (unfold inst_of; by rewrite Hp).
  assert (bases w !! k = Some (SQEntry.base e)) as Hb by (unfold bases; by rewrite list_lookup_fmap, He).
  destruct (uo_store_at _ Hok _ _ _ Hb Hei) as (_ & b & Hit & Hiff). destruct (Hends k e i He Hei) as [H1 H2].
  rewrite Hit in *. simpl in *. specialize (H1 Hc). specialize (H2 I). rewrite lq_end_length in H2 by done.
  exists (Z.to_nat (b - lq_head w)). unfold at_pos. fold (lq_head w).
  split_and!; [f_equal; lia|lia|]. intros k' f ld Hf Hld. specialize (Hiff _ _ Hf). unfold seq_of in Hiff. rewrite Hld in Hiff. lia.
Qed.

(** C20. A store finds the loads that overtook it, in every history. When a store that is
    in the queue gets its address, the scan from the place it remembers returns and
    changes nothing but the violator. If a younger load already has its address and
    shares a byte with the store, or only a block of [2^depCheckShift] bytes, there is a
    violator afterwards, at least as old as that load. The violator is the one known
    before, or it is a younger load and is reported with a fault. *)
Theorem store_finds_overtaking_loads E now task w p i f w1 i1 :
  reachable w -> 0 <= depCheckShift P -> kind_of E -> insts w !! p = Some i -> DynInst.isLoad i = false -> in_sq w p false ->
  initiateAcc cpu E domain context now pid task p w = Ok (f, w1) -> insts w1 !! p = Some i1 ->
  exists fault v,
    checkViolations P (DynInst.lqIt i) p w1 = Ok (fault, upd (with_memDepViolator v) w1) /\
    (fault = None /\ v = memDepViolator (unit w1) \/
     fault = Some M5PanicFault /\ exists lp ld, v = Some lp /\ insts w1 !! lp = Some ld /\ DynInst.seqNum i < DynInst.seqNum ld) /\
    forall k e ld, lq w1 !! k = Some e -> inst_of (insts w1) e = Some ld -> DynInst.seqNum i < DynInst.seqNum ld ->
      shares_byte i1 ld \/ conflicts P i1 ld = true ->
      exists s, violator_seq (upd (with_memDepViolator v) w1) = Some s /\ s <= DynInst.seqNum ld.
Proof.
  intros Hr Hsh HE Hi Hl Hin Hacc Hi1. destruct Hr as (w0 & H0 & Hr). pose proof (steps_ok _ _ H0 Hr) as Hu.
  eapply quiet_initiateAcc in Hacc as Q; [|exact HE|apply Hu|exact Hi|unfold placed; by rewrite Hl].
  pose proof (quiet_unit_ok _ _ Hu Q) as Hu1. pose proof Hu1 as [Hok1 _].
  destruct (heap_step_fwd _ _ _ _ (qt_heap _ _ Q) Hi) as (i2 & Hi2 & Hii). assert (i2 = i1) as -> by congruence.
  pose proof (inst_step_kind _ _ Hii) as (Hsn & Hil & _). destruct Hii as (_ & _ & Hit & _).
  destruct (store_scan_place p i1 w1 Hu1 Hi1 (in_sq_quiet _ _ _ _ Q Hin)) as (n & Hn & Hlen & Hplace). rewrite <- Hit, Hn, <- Hsn.
  destruct (violation_found P w1 p i1 n (memDepViolator (unit w1))) as (fault & v & H1 & H2 & _ & H3);
    [done|congruence|apply Hok1|apply Hok1|apply Hok1|done|done|done|apply Hok1|].
  exists fault, v. split_and!; [done| |].
  - destruct H2 as [H2|(-> & k & e & Hk & He & ->)]; [by left|right]. split; [done|].
    pose proof (uo_lq_occ _ Hok1) as Ho. rewrite Forall_lookup in Ho.
    destruct (occupied_inst _ _ _ (Ho k e He)) as (lp & ld & Hlp & Hld & _). exists lp, ld. split_and!; [done..|].
    eapply Hplace; [exact He|unfold inst_of; by rewrite Hlp|done].
  - intros k e ld He Hld Hlt Hor. eapply H3; [|done..]. by eapply Hplace.
Qed.

End history.
End LsqHistory.

(** ** A run

    The store and the load of [LsqExamples] from dispatch to the answer of the cache: the
    load takes its data from the store, both are committed, and the store is written
    back. *)
Module LsqRun.
Import LSQRequest LSQUnit LsqUnitFacts LsqRead LsqInv LsqQuiet LsqExec LsqOrder LsqCommit LsqInsert LsqHistory.
Import LsqExamples.

Lemma executed_to_check n w :
  forallb (fun f => match inst_of (insts w) f with Some i => (n <? DynInst.seqNum i) || DynInst.isExecuted i | None => true end) (lq w) = true ->
  executed_to n w.
Proof.
  intros H j f i Hf Hi Hle. rewrite forallb_forall in H. specialize (H f).
  rewrite Hi in H. rewrite (proj2 (Z.ltb_ge _ _)) in H by done. apply H. apply list_elem_of_In. by eapply list_elem_of_lookup_2.
Qed.

Lemma committed_to_check n w :
  forallb (fun e => (n <? seq_of (insts w) (SQEntry.base e)) || SQEntry._canWB e) (sq w) = true -> committed_to n w.
Proof.
  intros H k e He Hle. rewrite forallb_forall in H. specialize (H e).
  rewrite (proj2 (Z.ltb_ge _ _)) in H by done. apply H. apply list_elem_of_In. by eapply list_elem_of_lookup_2.
Qed.

Lemma answers_sent_check r w :
  match reqs w !! r with
  | Some q => match _senderState q with Some st => CircularQueue._idx (idx st) <? wb_idx w | None => true end
  | None => true
  end = true -> answers_sent r w.
Proof. intros H q st Hq Hst _ _. rewrite Hq, Hst in H. by apply Z.ltb_lt. Qed.

Definition second {A} (r : res (A * World)) : res World := let* (_, w) := r in Ok w.

Lemma run_world r : is_ok r = true -> r = Ok (world r).
Proof. by destruct r. Qed.
Lemma run_second {A} (r : res (A * World)) : is_ok r = true -> exists x, r = Ok (x, world (second r)).
Proof. destruct r as [[x w]|]; [|done]. by exists x. Qed.

Definition w1 : World := world (insert 1 start).
Definition w2 : World := world (insert 2 w1).
Definition w3 : World := world (second (executeStore params cpu env domain context 0 0 0 1 w2)).
Definition w4 : World := world (second (executeLoad params cpu env domain context 0 0 0 2 w3)).
Definition w5 : World := world (process_event env w4).
Definition w6 : World := world (commitStores 6 w5).
Definition w7 : World := world (commitLoads 6 w6).
Definition w8 : World := world (writebackStores params cpu env 0 w7).
Definition answer : res Packet.t :=
  match reqs w8 !! 0 with
  | Some q => match _packets q with pkt :: _ => Packet.makeTimingResponse pkt | [] => Err Undefined end
  | None => Err Undefined
  end.
Definition w9 : World := world (let* pkt := answer in recvTimingResp params cpu env 0 pkt w8).

Lemma env_kind : kind_of env.
Proof. intros i. simpl. by destruct (DynInst.isLoad i). Qed.

Lemma start_initial : initial start.
Proof.
  split_and!; [exists 4, 4; split_and!; (done || lia)|done|]. simpl. intros p i Hp.
  apply lookup_insert_Some in Hp as [[_ <-]|[_ Hp]]; [done|]. apply lookup_singleton_Some in Hp as [_ <-]. done.
Qed.

Abbreviation steps := (rtc (step params cpu domain context 0)).

Lemma inserts : steps start w2.
Proof.
  eapply rtc_l; [eapply (step_insert _ _ _ _ _ _ 1 store _); [by vm_compute|by apply (bool_decide_eq_true_1 _)|by vm_compute|by vm_compute|]; apply run_world; by vm_compute|].
  apply rtc_once. eapply (step_insert _ _ _ _ _ _ 2 load); [by vm_compute| |by vm_compute|by vm_compute|apply run_world; by vm_compute].
  apply (bool_decide_eq_true_1 _). by vm_compute.
Qed.

Lemma executes : steps w2 w5.
Proof.
  destruct (run_second (executeStore params cpu env domain context 0 0 0 1 w2)) as [f3 H3]; [by vm_compute|].
  destruct (run_second (executeLoad params cpu env domain context 0 0 0 2 w3)) as [f4 H4]; [by vm_compute|].
  eapply rtc_l; [eapply (step_executeStore _ _ _ _ _ _ env 0 0 1 (default store (insts w2 !! 1))); [exact env_kind|by vm_compute|by vm_compute| |by vm_compute|exact H3]|].
  { exists 0%nat, (default SQEntry.empty (sq w2 !! 0%nat)). split_and!; by vm_compute. }
  eapply rtc_l; [eapply (step_executeLoad _ _ _ _ _ _ env 0 0 2 (default store (insts w3 !! 2))); [exact env_kind|by vm_compute|by vm_compute| |exact H4]|].
  { exists 0%nat, (default LSQEntry.empty (lq w3 !! 0%nat)). split_and!; by vm_compute. }
  apply rtc_once. eapply (step_event _ _ _ _ _ _ env). apply run_world. by vm_compute.
Qed.

Lemma retires : steps w5 w9.
Proof.
  eapply rtc_l; [apply (step_commitStores _ _ _ _ _ _ 6); [apply executed_to_check; by vm_compute|apply run_world; by vm_compute]|].
  eapply rtc_l; [apply (step_commitLoads _ _ _ _ _ _ 6); [apply committed_to_check; by vm_compute|apply run_world; by vm_compute]|].
  eapply rtc_l; [apply (step_writeback _ _ _ _ _ _ env), run_world; by vm_compute|].
  assert (match answer with Ok pkt => Packet.senderState pkt = [Packet.SS_Other 0] | Err _ => False end) as Hss by by vm_compute.
  assert (is_ok (let* pkt := answer in recvTimingResp params cpu env 0 pkt w8) = true) as Hok by by vm_compute.
  apply rtc_once. fold w8. unfold w9. destruct answer as [pkt|] eqn:Hans; [|done]. simpl in Hok.
  apply (step_response _ _ _ _ _ _ env 0 [] 0 pkt); [exact Hss|apply answers_sent_check; vm_compute; reflexivity|exact (run_world _ Hok)].
Qed.

Lemma run_reachable : reachable params cpu domain context 0 w9.
Proof. exists start. split; [exact start_initial|]. etrans; [exact inserts|]. etrans; [exact executes|exact retires]. Qed.

(** Both queues are empty again, and the cache has been sent the store. *)
Lemma lsq_history_ok_witness : unit_ok w9 /\ loads (unit w9) = 0 /\ stores (unit w9) = 0 /\ storesToWB (unit w9) = 0.
Proof.
  split; [|by vm_compute]. apply (lsq_history_ok params cpu domain context 0). exact run_reachable.
Defined.

(** The load is executed before the store has its address, and the store finds it. *)
Definition v3 : World := world (second (executeLoad params cpu env domain context 0 0 0 2 w2)).
Definition v4 : World := world (second (initiateAcc cpu env domain context 0 0 0 1 v3)).

Lemma overtaken_reachable : reachable params cpu domain context 0 v3.
Proof.
  exists start. split; [exact start_initial|]. etrans; [exact inserts|]. apply rtc_once.
  destruct (run_second (executeLoad params cpu env domain context 0 0 0 2 w2)) as [f4 H4]; [by vm_compute|].
  eapply (step_executeLoad _ _ _ _ _ _ env 0 0 2 (default store (insts w2 !! 2))); [exact env_kind|by vm_compute|by vm_compute| |exact H4].
  exists 0%nat, (default LSQEntry.empty (lq w2 !! 0%nat)). split_and!; by vm_compute.
Qed.

Lemma store_finds_overtaking_loads_witness :
  exists fault v, checkViolations params (DynInst.lqIt (default store (insts v3 !! 1))) 1 v4 = Ok (fault, upd (with_memDepViolator v) v4) /\
    exists s, violator_seq (upd (with_memDepViolator v) v4) = Some s /\ s <= 6.
Proof.
  destruct (run_second (initiateAcc cpu env domain context 0 0 0 1 v3)) as [f4 H4]; [by vm_compute|]. fold v4 in H4.
  destruct (store_finds_overtaking_loads params cpu domain context 0 env 0 0 v3 1 (default store (insts v3 !! 1)) f4 v4
    (default store (insts v4 !! 1)) overtaken_reachable) as (fault & v & H1 & _ & H2);
    [by vm_compute|exact env_kind|by vm_compute|by vm_compute| |exact H4|by vm_compute|].
  - exists 0%nat, (default SQEntry.empty (sq v3 !! 0%nat)). split_and!; by vm_compute.
  - exists fault, v. split; [exact H1|].
    destruct (H2 0%nat (default LSQEntry.empty (lq v4 !! 0%nat)) (default store (insts v4 !! 2))) as (s & Hs & Hle);
      [by vm_compute..|right; by vm_compute|].
    assert (DynInst.seqNum (default store (insts v4 !! 2)) = 6) as H6 by by vm_compute. rewrite H6 in Hle. exists s. exact (conj Hs Hle).
Defined.

End LsqRun.
