(* ===== verification/Defence.v ===== *)
(** * From the core to the cache

    The composition of the halves of the defence. A load that the core issues
    while the visibility update finds an older instruction that has not completed is turned into requests and packets
    by the load/store queue, and these packets leave no trace in the tag store of the
    cache they are sent to. *)

From stdpp Require Import gmap.
From S2P Require Import Prelude.
From S2P Require Import BaseUtil MemCmd Request Packet CacheBlk ReplPolicy ReplPolicyFacts.
From S2P Require Import Indexing IndexingFacts Tags Prefetch MSHR Queues CacheState BaseCache CoherentCache.
From S2P Require Import CacheLogic CacheExamples NoFillFacts.
From S2P Require Import DynInst Rob RobFacts RobSafety Commit CoreExamples CommitFacts Lsq LsqFacts LsqSpec.

Local Open Scope Z_scope.
Import HeapFacts VisibleFacts RobInv RobSafety LSQRequest CacheState.

Module Defence.

(** What an MMU does to a request: it gives it a physical address and may add flags. *)
Definition mmu_answer (r r' : Request.t) : Prop :=
  exists pa fl, r' = Request.setPaddr pa (Request.with_flags (Flags.set (Request._flags r) fl) r).

Lemma mmu_answer_noFill r r' :
  mmu_answer r r' -> Request.isNoFill r = true -> Request.isNoFill r' = true.
Proof.
  intros (pa & fl & ->) Hr. unfold Request.isNoFill in *. simpl. rewrite Flags.isSet_set. by rewrite Hr.
Qed.

(** A packet of a load for the request [r]. *)
Definition load_packet (r : Request.t) (p : Packet.t) : Prop :=
  Packet.req p = r /\ Packet.isRead p = true /\ Packet.isMayNotFill p = Request.isNoFill r /\ Packet.fromCache p = false.

Lemma read_command r : MemCmd.isRead (Packet.makeReadCmd r) = true /\ MemCmd.fromCache (Packet.makeReadCmd r) = false.
Proof.
  unfold Packet.makeReadCmd.
  destruct (Request.isHTMCmd r), (Request.isHTMAbort r), (Request.isLLSC r), (Request.isPrefetchEx r),
    (Request.isPrefetch r); done.
Qed.

Lemma load_packet_created q i pid r p p' d :
  isLoad q = true -> create q pid r = Ok p -> Packet.dataStatic d p = Ok p' ->
  load_packet r (mark_htm i (set_sender q p')).
Proof.
  intros Hl Hc Hd. unfold create in Hc. rewrite Hl in Hc. unfold Packet.createRead in Hc.
  pose proof (Packet.make_MayNotFill _ _ _ _ Hc) as [Hm _].
  assert (Packet.req p = r /\ Packet.cmd p = Packet.makeReadCmd r) as [Hr Hcmd].
  { unfold Packet.make in Hc. by inv_res. }
  unfold Packet.dataStatic in Hd. inv_res. unfold load_packet, Packet.isMayNotFill, Packet.isRead, Packet.fromCache in *.
  assert (Packet.cmd (mark_htm i (set_sender q (Packet.with_data (Some d)
    (Packet.with_flags (Flags.set (Packet.flags p) Packet.STATIC_DATA) p)))) = Packet.cmd p) as ->.
  { unfold mark_htm, set_sender. by destruct (DynInst.has_flag _ i), (_senderState q). }
  rewrite Hcmd. split_and!; [|apply read_command| |apply read_command];
    unfold mark_htm, set_sender, Packet.setHtmTransactional;
    destruct (DynInst.has_flag _ i), (_senderState q); simpl; try done;
    rewrite !Flags.isSet_set; simpl; rewrite ?orb_false_r; done.
Qed.

Lemma fragment_load_packets pid i q rs : forall fs ps,
  isLoad q = true -> fragment_packets pid i q rs fs = Ok ps ->
  Forall (fun p => exists r, r ∈ rs /\ load_packet r p) ps.
Proof.
  induction rs as [|r rs IH]; intros fs ps Hl Hf; simpl in Hf; [by inv_res|].
  destruct fs as [|[f|] fs]; [by inv_res..|]. rewrite Hl in Hf. inv_res. constructor.
  - exists r. split; [left|]. by eapply load_packet_created.
  - eapply Forall_impl; [by eapply IH|]. intros p (r' & Hr & Hp). exists r'. split; [by right|done].
Qed.

Lemma built_load_packets cpu pid h q h' q' :
  isLoad q = true -> _packets q = [] ->
  (if isSplit q then split_buildPackets cpu pid h q else single_buildPackets cpu pid h q) = Ok (h', q') ->
  Forall (fun p => exists r, r ∈ _requests q /\ load_packet r p) (_packets q').
Proof.
  intros Hl Hp. destruct (isSplit q).
  - unfold split_buildPackets. rewrite Hp, Hl. intros Hb. inv_res.
    match goal with Hf : fragment_packets _ _ _ _ _ = Ok ?ps |- _ =>
      apply fragment_load_packets in Hf; [|done]; destruct ps; [done|] end.
    simpl in *. by inv_res.
  - unfold single_buildPackets. rewrite Hp. intros Hb. inv_res.
    match goal with Hm : match _requests q with [] => _ | _ :: _ => _ end = Ok _ |- _ =>
      destruct (_requests q) as [|r rs] eqn:Hr; inv_res end.
    simpl in *. inv_res. constructor; [|constructor]. exists r. split; [left|]. by eapply load_packet_created.
Qed.

(** A load whose instruction does not have the mark of the visibility update. *)
Lemma unmarked_load_traceless {T P V} `{TagStore T} `{Prefetcher P} `{!NoFill.LineStore T V}
    cpu domain context now pid C (s s' : CacheState.t T P) h q i h1 q1 ids q2 h3 q3 xs :
  BaseCPU.rasSpec cpu = true -> isLoad q = true -> h !! _inst q = Some i ->
  DynInst.has_status DynInst.PrevInstsCompleted i = false ->
  _requests q = [] -> Flags.isSet (_flags q) Request.NO_FILL = false ->
  (if isSplit q then split_initiateTranslation cpu domain context now h q
   else single_initiateTranslation cpu domain context now h q) = Ok (h1, q1, ids) ->
  isLoad q2 = true -> _packets q2 = [] -> Forall2 mmu_answer (_requests q1) (_requests q2) ->
  (if isSplit q2 then split_buildPackets cpu pid h1 q2 else single_buildPackets cpu pid h1 q2) = Ok (h3, q3) ->
  nofillEn C = true ->
  Forall (fun x => x.2 ∈ _packets q3 /\ Request.isUncacheable (Packet.req x.2) = false) xs ->
  NoFill.recv_all C xs s = Ok s' -> NoFill.lines (CacheState.tags s') = NoFill.lines (CacheState.tags s).
Proof.
  intros Hspec Hl Hi Hprev Hrs Hf Hstart Hl2 Hp2 Hmmu Hb Hn Hxs Hrun.
  assert (Forall (fun r => Request.isNoFill r = true) (_requests q2)) as Hmark.
  { apply Forall_forall. intros r' Hr'. apply list_elem_of_lookup in Hr' as [n Hr'].
    destruct (Forall2_lookup_r _ _ _ _ _ Hmmu Hr') as (r & Hr & Ha). apply (mmu_answer_noFill r); [done|].
    assert (Forall (LsqSpec.marked cpu domain q i) (_requests q1)) as Hm.
    { assert (LsqSpec.grown cpu domain q i q) by (split_and!; [done..|by rewrite Hrs]).
      destruct (isSplit q); [by eapply LsqSpec.split_marked|by eapply LsqSpec.single_marked]. }
    eapply Forall_lookup_1 in Hm as (-> & _); [|done]. rewrite Hspec, Hl, Hprev. apply orb_true_r. }
  apply built_load_packets in Hb; [|done..].
  apply (NoFill.recv_all_view (fun s => NoFill.lines (tags s)) C xs); [|done].
  eapply Forall_impl; [exact Hxs|]. intros [e p] [Hp Hu] s1 b s2.
  rewrite Forall_forall in Hb. destruct (Hb p Hp) as (r & Hr & Hq & Hread & Hm & Hfc). rewrite Forall_forall in Hmark.
  apply NoFill.nofill_request_lines; [done|by right|]. unfold NoFill.nofill_access. simpl in *. rewrite Hm, Hread, (Hmark r Hr). done.
Qed.

(** ** From the reorder buffer *)

(** The instruction [p] is the [k]-th of its thread in the buffer, a load or store that no
    visibility update has marked before, and the update is run. *)
Record updated (P : ROB.Params) (cpu : BaseCPU.t) (h : heap) (r : ROB.t) (h' : heap) (tid : Z) (k : nat) (p : DynInstPtr) : Prop := {
  up_rob : rob_ok P cpu h r;
  up_threads : NoDup (BaseCPU.activeThreads cpu);
  up_run : exists sent, ROB.updateVisibleState cpu h r = Ok (h', sent);
  up_active : tid ∈ BaseCPU.activeThreads cpu;
  up_place : exists th, ROB.thread tid r = Ok th /\ ROB.instList th !! k = Some p;
  up_inst : exists i, h !! p = Some i /\ memref i = true /\ DynInst.isPrevInstsCompleted i = false
}.

(** Whether an access is speculative to the update: an instruction of its thread in front
    of it has not completed, or the buffer is told not to mark anything. *)
Definition speculative (cpu : BaseCPU.t) (h : heap) (r : ROB.t) (tid : Z) (k : nat) : bool :=
  negb (BaseCPU.robInsert cpu && forallb VisibleFacts.complete (take k (RobSafety.insts h r tid))).

Lemma updated_mark P cpu h r h' tid k p i' :
  updated P cpu h r h' tid k p -> h' !! p = Some i' ->
  DynInst.isPrevInstsCompleted i' = negb (speculative cpu h r tid k).
Proof.
  intros [Hok Hnd [sent Hrun] Hin (th & Hth & Hk) (i & Hi & Hm & Hc)] Hi'.
  destruct (updateVisibleState_exact _ _ _ _ Hok Hnd) as (h2 & Hrun2 & _ & _ & Hs).
  rewrite Hrun2 in Hrun. apply ok_inj in Hrun. simplify_eq.
  rewrite (Hs tid th k p i Hin Hth Hk Hi) in Hi'. simplify_eq.
  unfold DynInst.isPrevInstsCompleted, speculative in *. by rewrite seen_status, Hc, orb_false_r, negb_involutive, andb_comm.
Qed.

(** C7. Every request of an access carries the mark that the reorder buffer and the mode
    of the core decide. An instruction is in the reorder buffer, has not been marked by an
    earlier visibility update, and the update runs. Its access has no requests yet, and
    the instruction itself has not asked for no-fill. Whatever happens to the instruction
    before its access starts, other than to this mark, and whether the access fits one
    line or is split, each request handed to the MMU is no-fill exactly when RaS applies
    to all accesses, or to loads and this is one, or to speculative loads, this is one,
    and an older instruction of its thread in the buffer was not complete at the update
    (unfinished, faulting, squashed, or waiting for the head) or insertion from the
    reorder buffer is switched off; each request is a demand access and belongs to the
    security domain of the thread of the instruction. *)
Theorem accesses_marked P cpu domain context now h r h' tid k q i' h1 i1 h2 q' ids :
  updated P cpu h r h' tid k (_inst q) -> h' !! _inst q = Some i' ->
  h1 !! _inst q = Some i1 -> DynInst.isPrevInstsCompleted i1 = DynInst.isPrevInstsCompleted i' ->
  _requests q = [] -> Flags.isSet (_flags q) Request.NO_FILL = false ->
  (if isSplit q then split_initiateTranslation cpu domain context now h1 q
   else single_initiateTranslation cpu domain context now h1 q) = Ok (h2, q', ids) ->
  Forall (fun x => Request.isNoFill x
      = BaseCPU.rasAll cpu || isLoad q && (BaseCPU.rasLoad cpu || BaseCPU.rasSpec cpu && speculative cpu h r tid k)
    /\ Request.isDemandFetch x = true /\ Request.getDomainID x = Ok (domain (DynInst.threadNumber i1)))
    (_requests q').
Proof.
  intros Hup Hi' Hi1 Hsame Hrs Hf Hstart. rewrite (updated_mark _ _ _ _ _ _ _ _ _ Hup Hi') in Hsame.
  assert (Forall (LsqSpec.marked cpu domain q i1) (_requests q')) as Hm.
  { assert (LsqSpec.grown cpu domain q i1 q) by (split_and!; [done..|by rewrite Hrs]).
    destruct (isSplit q); [by eapply LsqSpec.split_marked|by eapply LsqSpec.single_marked]. }
  eapply Forall_impl; [exact Hm|]. intros x (Hn & Hd & Hdom & _). split; [|done]. rewrite Hn.
  unfold DynInst.isPrevInstsCompleted in Hsame. rewrite Hsame, negb_involutive.
  by destruct (BaseCPU.rasAll cpu), (BaseCPU.rasLoad cpu), (BaseCPU.rasSpec cpu), (isLoad q), (speculative cpu h r tid k).
Qed.

(** C1. A speculative load leaves no trace in the cache, from the reorder buffer to the
    tag store. The core is in RaS-Spec mode. The load is in the reorder buffer, no earlier
    visibility update has marked it, and the update runs while an older instruction of its
    thread in the buffer is not complete (or with insertion from the reorder buffer
    switched off). Its access then starts, the mark being as the update left it: its
    requests are made, the MMU answers them with addresses and possibly more flags, and
    the packets are built. Whichever of these packets, cacheable and in whatever order,
    number and at whatever times, arrive at a cache in no-fill mode, inclusive or
    exclusive, no line of its tag store is inserted, evicted, invalidated or renamed and
    its replacement state stays the same. *)
Theorem speculative_load_traceless {T P V} `{TagStore T} `{Prefetcher P} `{!NoFill.LineStore T V}
    RP cpu domain context now pid C (s s' : CacheState.t T P) h r h' tid k q i' h0 i h1 q1 ids q2 h3 q3 xs :
  BaseCPU.rasSpec cpu = true -> isLoad q = true ->
  updated RP cpu h r h' tid k (_inst q) -> speculative cpu h r tid k = true ->
  h' !! _inst q = Some i' -> h0 !! _inst q = Some i ->
  DynInst.isPrevInstsCompleted i = DynInst.isPrevInstsCompleted i' ->
  _requests q = [] -> Flags.isSet (_flags q) Request.NO_FILL = false ->
  (if isSplit q then split_initiateTranslation cpu domain context now h0 q
   else single_initiateTranslation cpu domain context now h0 q) = Ok (h1, q1, ids) ->
  isLoad q2 = true -> _packets q2 = [] -> Forall2 mmu_answer (_requests q1) (_requests q2) ->
  (if isSplit q2 then split_buildPackets cpu pid h1 q2 else single_buildPackets cpu pid h1 q2) = Ok (h3, q3) ->
  nofillEn C = true ->
  Forall (fun x => x.2 ∈ _packets q3 /\ Request.isUncacheable (Packet.req x.2) = false) xs ->
  NoFill.recv_all C xs s = Ok s' -> NoFill.lines (CacheState.tags s') = NoFill.lines (CacheState.tags s).
Proof.
  intros Hspec Hl Hup Hsp Hi' Hi Hsame. apply (unmarked_load_traceless _ domain context now _ _ _ _ h0 q i); [done..|].
  rewrite (updated_mark _ _ _ _ _ _ _ _ _ Hup Hi'), Hsp in Hsame. exact Hsame.
Qed.

(** ** The example: a split load behind an unresolved branch *)

Definition mmu (r : Request.t) : Request.t :=
  Request.setPaddr (Request._vaddr r + 0x4000) (Request.with_flags (Flags.set (Request._flags r) 0) r).

(** The visibility update with the branch at the head of the buffer, and the load started in the heap it leaves. *)
Definition seen_heap : heap * list Packet.t := Eval vm_compute in
  CoreExamples.the (CoreExamples.started.1, [])
    (ROB.updateVisibleState CoreExamples.cpu CoreExamples.started.1 CoreExamples.started.2).
Definition issued : heap * LSQRequest.t * list nat := Eval vm_compute in
  CoreExamples.the (seen_heap.1, LsqSpec.split_load, [])
    (split_initiateTranslation CoreExamples.cpu LsqSpec.domain7 LsqSpec.no_thread 0 seen_heap.1 LsqSpec.split_load).
Definition seen_load : DynInst.t := Eval vm_compute in CoreExamples.the CoreExamples.load2 (deref seen_heap.1 3).

Definition translated_load : LSQRequest.t := Eval vm_compute in
  set_requests (map mmu (_requests issued.1.2)) issued.1.2.
Definition built : heap * LSQRequest.t := Eval vm_compute in
  CoreExamples.the (issued.1.1, translated_load)
    (split_buildPackets CoreExamples.cpu 0 issued.1.1 translated_load).
Definition arrivals : list (Env * Packet.t) :=
  imap (fun n p => (CacheExamples.env (1000 + 100 * Z.of_nat n), p)) (_packets built.2).
Definition missed_twice : CacheExamples.State := Eval vm_compute in
  CacheExamples.the CacheExamples.init (NoFill.recv_all CacheExamples.l1 arrivals CacheExamples.init).

Lemma seen_run : ROB.updateVisibleState CoreExamples.cpu CoreExamples.started.1 CoreExamples.started.2 = Ok seen_heap.
Proof. vm_cast_no_check (eq_refl (Ok seen_heap)). Qed.
Lemma issued_run :
  split_initiateTranslation CoreExamples.cpu LsqSpec.domain7 LsqSpec.no_thread 0 seen_heap.1 LsqSpec.split_load = Ok issued.
Proof. vm_cast_no_check (eq_refl (Ok issued)). Qed.
Lemma built_run : split_buildPackets CoreExamples.cpu 0 issued.1.1 translated_load = Ok built.
Proof. vm_cast_no_check (eq_refl (Ok built)). Qed.
Lemma missed_twice_run : NoFill.recv_all CacheExamples.l1 arrivals CacheExamples.init = Ok missed_twice.
Proof. vm_cast_no_check (eq_refl (Ok missed_twice)). Qed.

Lemma load_updated : updated CoreExamples.params CoreExamples.cpu CoreExamples.started.1 CoreExamples.started.2 seen_heap.1 0 2 3.
Proof.
  constructor.
  - exact CommitFacts.started_ok.
  - exact CommitFacts.cpu_NoDup.
  - exists seen_heap.2. exact seen_run.
  - apply list_elem_of_here.
  - exists CommitFacts.started_thread. by split.
  - eexists. by split_and!.
Qed.

Lemma accesses_marked_witness :
  speculative CoreExamples.cpu CoreExamples.started.1 CoreExamples.started.2 0 2 = true /\
  length (_requests issued.1.2) = 2%nat /\
  Forall (fun x => Request.isNoFill x = true /\ Request.isDemandFetch x = true /\ Request.getDomainID x = Ok 7)
    (_requests issued.1.2).
Proof.
  split; [reflexivity|]. split; [reflexivity|].
  apply (accesses_marked CoreExamples.params CoreExamples.cpu LsqSpec.domain7 LsqSpec.no_thread 0 CoreExamples.started.1
    CoreExamples.started.2 seen_heap.1 0 2 LsqSpec.split_load seen_load seen_heap.1 seen_load issued.1.1 issued.1.2 issued.2);
    [exact load_updated|reflexivity..|exact issued_run].
Defined.

Lemma speculative_load_traceless_witness :
  length (_packets built.2) = 2%nat /\
  NoFill.lines (tags missed_twice) = NoFill.lines (tags CacheExamples.init).
Proof.
  split; [reflexivity|].
  apply (speculative_load_traceless CoreExamples.params CoreExamples.cpu LsqSpec.domain7 LsqSpec.no_thread 0 0 CacheExamples.l1
    CacheExamples.init missed_twice CoreExamples.started.1 CoreExamples.started.2 seen_heap.1 0 2 LsqSpec.split_load seen_load
    seen_heap.1 seen_load issued.1.1 issued.1.2 issued.2 translated_load built.1 built.2 arrivals);
    [reflexivity|reflexivity|exact load_updated|reflexivity|reflexivity|reflexivity|reflexivity|reflexivity|reflexivity
    |exact issued_run|reflexivity|reflexivity| |exact built_run|reflexivity|
    |exact missed_twice_run].
  - change (Forall2 mmu_answer (_requests issued.1.2) (mmu <$> _requests issued.1.2)).
    apply Forall2_fmap_r, Forall_Forall2_diag, Forall_forall. intros r _. by eexists _, _.
  - apply Forall_cons. split; [split; [apply list_elem_of_here|reflexivity]|].
    apply Forall_cons. split; [split; [apply list_elem_of_further, list_elem_of_here|reflexivity]|apply Forall_nil_2].
Defined.

End Defence.
