(* ===== verification/AddrRange.v ===== *)
(** * Address ranges: base/addr_range.hh

    A range of addresses, possibly interleaved: with n masks the addresses between
    start and end are dealt out to 2^n ranges, the parity of the address bits under
    each mask giving one bit of the number of the range. *)

From stdpp Require Import sorting.
From S2P Require Import Prelude BaseUtil.
Local Open Scope Z_scope.

Module AddrRange.

(** ** Bit counting: base/bitfield.hh *)

Definition popCount (val : Z) : Z :=
  foldr (fun i n => Z.b2z (Z.testbit val (Z.of_nat i)) + n) 0 (seq 0 64).

Definition ctz64 (value : Z) : Z :=
  match find_first (fun i => Z.testbit value (Z.of_nat i)) (seq 0 64) with
  | Some (_, i) => Z.of_nat i
  | None => 64
  end.

(** ** Data *)

Record t := mk {
  _start : Z;
  _end : Z;
  masks : list Z;
  intlvMatch : Z
}.
#[global] Instance t_eq_dec : EqDecision t.
Proof. solve_decision. Defined.

Definition numMasks (r : t) : Z := Z.of_nat (length (masks r)).
Definition interleaved (r : t) : bool := 0 <? numMasks r.
Definition size (r : t) : Z := Z.shiftr (u64 (_end r - _start r)) (numMasks r).
Definition valid (r : t) : bool := _start r <=? _end r.
Definition stripes (r : t) : Z := u32 (Z.shiftl 1 (numMasks r)).

(** ** Constructors *)

(** [1ULL << n]; a shift by the width or more is not defined. *)
Definition shl1 (n : Z) : res Z := if n <? 64 then Ok (Z.shiftl 1 n) else Err Undefined.

Definition make_masks (start end_ : Z) (ms : list Z) (match_ : Z) : res t :=
  let n := Z.of_nat (length ms) in
  let* fits := if (0 <? n) then let* m := shl1 n in Ok (match_ <? m) else Ok true in
  fatal_if! negb fits in
  Ok (mk start end_ ms match_).

(** The mask made in round [i] of the constructor's loop. *)
Definition bit_mask (intlv_high xor_high i : Z) : res Z :=
  let* m := shl1 (uwrap 8 (intlv_high - i)) in
  if truthy xor_high then let* x := shl1 (uwrap 8 (xor_high - i)) in Ok (Z.lor m x) else Ok m.

(** The high bits of interleaving and hashing are far enough apart. *)
Definition bits_apart (intlv_high xor_high intlv_bits : Z) : bool :=
  if xor_high =? intlv_high then false
  else if intlv_high <? xor_high then intlv_bits <=? xor_high - intlv_high
  else intlv_bits <=? intlv_high - xor_high.

Definition make_bits (start end_ intlv_high xor_high intlv_bits match_ : Z) : res t :=
  let* fits := if truthy intlv_bits then let* m := shl1 intlv_bits in Ok (match_ <? m) else Ok true in
  fatal_if! negb fits in
  fatal_if! (truthy intlv_bits && truthy xor_high && negb (bits_apart intlv_high xor_high intlv_bits)) in
  let* ms := foldM (fun ms i => let* m := bit_mask intlv_high xor_high (Z.of_nat i) in Ok (m :: ms))
               (seq 0 (Z.to_nat intlv_bits)) [] in
  Ok (mk start end_ ms match_).

Definition make (start end_ : Z) : t := mk start end_ [] 0.

Definition mergesWith (r s : t) : bool :=
  (_start r =? _start s) && (_end r =? _end s) && bool_decide (masks r = masks s).

(** Every range merges with the first and they are numbered in order. *)
Fixpoint merge_check (first : t) (rs : list t) (match_ : Z) : bool :=
  match rs with
  | [] => true
  | r :: rs => mergesWith first r && (intlvMatch r =? match_) && merge_check first rs (uwrap 8 (match_ + 1))
  end.

Definition make_ranges (ranges : list t) : res t :=
  match ranges with
  | [] => Ok (make 1 0)
  | [r] => Ok r
  | r :: _ =>
      let* n := shl1 (numMasks r) in
      fatal_if! negb (Z.of_nat (length ranges) =? n) in
      fatal_if! negb (merge_check r ranges 0) in
      Ok (mk (_start r) (_end r) [] 0)
  end.

Definition RangeEx (start end_ : Z) : t := make start end_.
Definition RangeIn (start end_ : Z) : t := make start (u64 (end_ + 1)).
Definition RangeSize (start size : Z) : t := make start (u64 (start + size)).

(** ** Tests *)

(** The bits of an address that select a range, from mask [i] on. *)
Fixpoint sel_from (i : Z) (ms : list Z) (a : Z) : Z :=
  match ms with
  | [] => 0
  | m :: ms => Z.lor (Z.shiftl (popCount (Z.land a m) mod 2) i) (sel_from (i + 1) ms a)
  end.
Definition sel (ms : list Z) (a : Z) : Z := sel_from 0 ms a.

Definition contains (r : t) (a : Z) : bool :=
  if (_start r <=? a) && (a <? _end r) then sel (masks r) a =? intlvMatch r else false.

(** [combined_mask] is an [int]: the upper half of the masks is lost, and [ctz64] gets
    the sign-extended lower half. *)
Definition combined_mask (ms : list Z) : Z := swrap 32 (foldr Z.lor 0 ms).

Definition granularity (r : t) : res Z :=
  if interleaved r then shl1 (ctz64 (u64 (combined_mask (masks r)))) else Ok (size r).

Definition intersects (r s : t) : res bool :=
  if (_end s <=? _start r) || (_end r <=? _start s) then Ok false
  else if negb (interleaved r) && negb (interleaved s) then Ok true
  else if size s =? 1 then Ok (contains r (_start s))
  else if mergesWith r s then Ok (intlvMatch r =? intlvMatch s)
  else Err Panic.

Definition isSubset (r s : t) : res bool :=
  panic_if! interleaved r in
  if interleaved s then
    if contains s (_start r) && contains s (u64 (_end r - 1)) then
      let* g := granularity s in Ok (size r <=? g)
    else Ok false
  else Ok ((_start s <=? _start r) && (_end r <=? _end s)).

Definition ltb (r s : t) : bool :=
  if negb (_start r =? _start s) then _start r <? _start s else intlvMatch r <? intlvMatch s.
Definition eqb (r s : t) : bool := bool_decide (r = s).

(** ** Offsets *)

(** The lowest bits of the masks, sorted. *)
Definition masks_lsb (ms : list Z) : list Z := merge_sort Z.le (map ctz64 ms).

(** Bit positions are unsigned: the position before 0 makes an empty mask. *)
Definition remove_bit (bit_ i a : Z) : res Z :=
  if (0 <? bit_) && (0 <=? bit_ - i - 1) then Bitfield.insertBits (Z.shiftr a 1) (bit_ - i - 1) 0 a
  else Ok (Z.shiftr a 1).

Fixpoint remove_bits (bs : list Z) (i a : Z) : res Z :=
  match bs with
  | [] => Ok a
  | b :: bs => let* a := remove_bit b i a in remove_bits bs (i + 1) a
  end.

Definition removeIntlvBits (r : t) (a : Z) : res Z :=
  if interleaved r then remove_bits (masks_lsb (masks r)) 0 a else Ok a.

Definition add_bit (bit_ a : Z) : res Z :=
  if 0 <? bit_ then Bitfield.insertBits (u64 (Z.shiftl a 1)) (bit_ - 1) 0 a else Ok (u64 (Z.shiftl a 1)).

(** [~(1 << lsb)] of an [int], converted to 64 bits. *)
Definition not_bit (lsb : Z) : res Z :=
  if lsb <? 31 then Ok (unot 64 (Z.shiftl 1 lsb))
  else if lsb =? 31 then Ok (2 ^ 31 - 1)
  else Err Undefined.

Definition set_parity (i m intlv_match a : Z) : res Z :=
  let lsb := ctz64 m in
  let* intlv_bit := Bitfield.bit intlv_match i in
  let* k := not_bit lsb in
  let masked := Z.land (Z.land a m) k in
  Bitfield.insertBits a lsb lsb (Z.lxor intlv_bit (popCount masked)).

Fixpoint set_parities (i : Z) (ms : list Z) (intlv_match a : Z) : res Z :=
  match ms with
  | [] => Ok a
  | m :: ms => let* a := set_parity i m intlv_match a in set_parities (i + 1) ms intlv_match a
  end.

Definition addIntlvBits (r : t) (a : Z) : res Z :=
  if interleaved r then
    let* a := foldM (fun a b => add_bit b a) (masks_lsb (masks r)) a in
    set_parities 0 (masks r) (intlvMatch r) a
  else Ok a.

Definition getOffset (r : t) (a : Z) : res Z :=
  if (_start r <=? a) && (a <? _end r) then
    if interleaved r then
      let* x := removeIntlvBits r a in
      let* y := removeIntlvBits r (_start r) in
      Ok (u64 (x - y))
    else Ok (a - _start r)
  else Ok (2 ^ 64 - 1).

End AddrRange.
