(* ===== verification/AddrRangeFacts.v ===== *)
(** * Address ranges: what the interleaving does

    The stripes of an interleaved range partition it, and taking the interleaving bits
    out of an address and putting them back are inverse to each other. *)

From stdpp Require Import sorting.
From S2P Require Import Prelude BaseUtil AddrRange.
Local Open Scope Z_scope.

(** ** Bits of words *)
Module WordBits.

Lemma in_word_high w x j : in_word w x -> w <= j -> Z.testbit x j = false.
Proof.
  intros [H0 H1] Hj. destruct (Z.ltb_spec w 0); [rewrite Z.pow_neg_r in H1; lia|].
  rewrite <- (Z.mod_small x (2 ^ w)) by done. by apply Z.mod_pow2_bits_high.
Qed.

Lemma in_word_bits w x :
  0 <= w -> 0 <= x -> (forall j, w <= j -> Z.testbit x j = false) -> in_word w x.
Proof.
  intros Hw Hx Hb. assert (x = x mod 2 ^ w) as ->.
  { apply Z.bits_inj'. intros j Hj. destruct (Z.ltb_spec j w).
    - by rewrite Z.mod_pow2_bits_low.
    - rewrite Z.mod_pow2_bits_high by lia. by apply Hb. }
  by apply uwrap_range.
Qed.

Lemma uwrap_testbit w x j : 0 <= w -> 0 <= j -> Z.testbit (uwrap w x) j = (j <? w) && Z.testbit x j.
Proof.
  intros. unfold uwrap. destruct (Z.ltb_spec j w); [by rewrite Z.mod_pow2_bits_low|].
  by rewrite Z.mod_pow2_bits_high by lia.
Qed.

(** [insertBits] replaces the bits from [last] to [first]. *)
Lemma insertBits_testbit val first last v :
  0 <= last <= first -> first < 64 -> in_word 64 val ->
  exists r, Bitfield.insertBits val first last v = Ok r /\ in_word 64 r /\
    forall j, 0 <= j -> Z.testbit r j =
      if (last <=? j) && (j <=? first) then Z.testbit v (j - last) else Z.testbit val j.
Proof.
  intros Hl Hf Hval. unfold Bitfield.insertBits. rewrite (proj2 (Z.leb_le last first)) by lia.
  assert (forall j, 0 <= j -> Z.testbit (Bitfield.mask2 first last) j = (last <=? j) && (j <=? first)) as Hm.
  { intros j Hj. unfold Bitfield.mask2. rewrite Bitfield.mbits_testbit by lia.
    change (2 ^ 64 - 1) with (Z.ones 64). rewrite Bitfield.ones_testbit by lia. lia. }
  assert (in_word 64 (Bitfield.mask2 first last)) as Hmw.
  { unfold Bitfield.mask2, Bitfield.mbits. change (2 ^ 64 - 1) with (Z.ones 64).
    rewrite Z.land_comm, Z.land_ones by lia. by apply uwrap_range. }
  eexists. split; [done|].
  match goal with |- in_word 64 ?r /\ _ => assert (forall j, 0 <= j -> Z.testbit r j =
      if (last <=? j) && (j <=? first) then Z.testbit v (j - last) else Z.testbit val j) as Hb end.
  { intros j Hj. rewrite Z.lor_spec, !Z.land_spec, Bitfield.unot_testbit, Hm, uwrap_testbit by (done || lia).
    destruct ((last <=? j) && (j <=? first)) eqn:E; simpl; rewrite ?andb_false_r, ?andb_true_r; simpl.
    - rewrite Z.shiftl_spec by lia. by rewrite (proj2 (Z.ltb_lt j 64)) by lia.
    - rewrite orb_false_r. destruct (Z.ltb_spec j 64); [by rewrite andb_true_r|]. rewrite andb_false_r. symmetry.
      by eapply in_word_high. }
  split; [|done]. apply in_word_bits; [lia| |].
  - apply Z.lor_nonneg. split; apply Z.land_nonneg; [left; apply Hval|right; apply Hmw].
  - intros j Hj. rewrite Hb by lia. rewrite (proj2 (Z.leb_gt j first)) by lia. rewrite andb_false_r.
    by eapply in_word_high.
Qed.

End WordBits.
Import WordBits.

Module AddrRangeFacts.
Import AddrRange.

(** ** Counting bits *)

(** The sum of the bits of a word over a list of positions. *)
Definition ones_at (f : nat -> bool) (l : list nat) : Z := foldr (fun i n => Z.b2z (f i) + n) 0 l.

Lemma ones_at_ext f g l : (forall i, In i l -> f i = g i) -> ones_at f l = ones_at g l.
Proof. induction l as [|i l IH]; simpl; intros He; [done|]. rewrite He, IH by auto. done. Qed.

Lemma ones_at_split f b l :
  NoDup l -> In b l -> ones_at f l = Z.b2z (f b) + ones_at (fun i => f i && negb (i =? b)%nat) l.
Proof.
  induction 1 as [|i l Hi Hnd IH]; simpl; [done|]. intros [->|Hin].
  - rewrite Nat.eqb_refl, andb_false_r. simpl. f_equal. apply ones_at_ext. intros j Hj.
    destruct (Nat.eqb_spec j b) as [->|]; [by rewrite <- list_elem_of_In in Hj|]. by rewrite andb_true_r.
  - rewrite IH by done. rewrite (proj2 (Nat.eqb_neq i b)); [|intros ->; by rewrite <- list_elem_of_In in Hin].
    rewrite andb_true_r. lia.
Qed.

Lemma popCount_ones val : popCount val = ones_at (fun i => Z.testbit val (Z.of_nat i)) (seq 0 64).
Proof. done. Qed.

Lemma popCount_ext x y : (forall j, 0 <= j < 64 -> Z.testbit x j = Z.testbit y j) -> popCount x = popCount y.
Proof. intros He. rewrite !popCount_ones. apply ones_at_ext. intros i Hi%in_seq. apply He. lia. Qed.

(** One bit apart from the others. *)
Lemma popCount_split x y b :
  0 <= b < 64 -> (forall j, 0 <= j < 64 -> Z.testbit y j = Z.testbit x j && negb (j =? b)) ->
  popCount x = Z.b2z (Z.testbit x b) + popCount y.
Proof.
  intros Hb Hy. rewrite !popCount_ones, (ones_at_split _ (Z.to_nat b)), Z2Nat.id by (try apply NoDup_seq; try apply in_seq; lia).
  f_equal. apply ones_at_ext. intros i Hi%in_seq. rewrite Hy by lia. do 2 f_equal.
  destruct (Z.eqb_spec (Z.of_nat i) b), (Nat.eqb_spec i (Z.to_nat b)); lia.
Qed.

Lemma ctz64_range m : 0 <= ctz64 m.
Proof. unfold ctz64. destruct (find_first _ _) as [[]|]; lia. Qed.

Lemma ctz64_set m : ctz64 m < 64 -> Z.testbit m (ctz64 m) = true.
Proof.
  unfold ctz64. destruct (find_first _ _) as [[i n]|] eqn:E; [|lia].
  apply find_first_Some in E as (_ & Hp & _). done.
Qed.

(** The parity of the bits of an address under a mask. *)
Definition parity (a m : Z) : bool := Z.odd (popCount (Z.land a m)).

Lemma parity_mod a m : popCount (Z.land a m) mod 2 = Z.b2z (parity a m).
Proof. unfold parity. rewrite Zmod_odd. by destruct (Z.odd _). Qed.

Lemma parity_ext a a' m :
  (forall j, 0 <= j < 64 -> Z.testbit m j = true -> Z.testbit a j = Z.testbit a' j) -> parity a m = parity a' m.
Proof.
  intros He. unfold parity. f_equal. apply popCount_ext. intros j Hj. rewrite !Z.land_spec.
  destruct (Z.testbit m j) eqn:E; [by rewrite He|]. by rewrite !andb_false_r.
Qed.

(** The parity is that of the other bits and one bit of the mask. *)
Lemma parity_split a m b c :
  0 <= b < 64 -> Z.testbit m b = true ->
  (forall j, 0 <= j < 64 -> Z.testbit c j = Z.testbit (Z.land a m) j && negb (j =? b)) ->
  parity a m = xorb (Z.testbit a b) (Z.odd (popCount c)).
Proof.
  intros Hb Hm Hc. unfold parity. rewrite (popCount_split (Z.land a m) c b Hb Hc), Z.land_spec, Hm, andb_true_r, Z.odd_add.
  by destruct (Z.testbit a b).
Qed.

(** ** The stripe of an address *)

Lemma sel_from_bits ms : forall i a j,
  0 <= i -> 0 <= j -> Z.testbit (sel_from i ms a) j =
    if i <=? j then match ms !! Z.to_nat (j - i) with Some m => parity a m | None => false end else false.
Proof.
  induction ms as [|m ms IH]; intros i a j Hi Hj; simpl; [by rewrite Z.bits_0; destruct (i <=? j)|].
  rewrite Z.lor_spec, IH, Z.shiftl_spec, parity_mod by lia.
  destruct (Z.leb_spec i j).
  - destruct (decide (j = i)) as [->|Hn].
    + rewrite (proj2 (Z.leb_gt (i + 1) i)), Z.sub_diag, orb_false_r by lia. by rewrite Z.b2z_bit0.
    + rewrite (proj2 (Z.leb_le (i + 1) j)) by lia. replace (Z.to_nat (j - i)) with (S (Z.to_nat (j - (i + 1)))) by lia. simpl.
      rewrite (in_word_high 1); [done|destruct (parity a m); done|lia].
  - rewrite (proj2 (Z.leb_gt (i + 1) j)) by lia. by rewrite Z.testbit_neg_r by lia.
Qed.

Lemma sel_bits ms a j :
  0 <= j -> Z.testbit (sel ms a) j = match ms !! Z.to_nat j with Some m => parity a m | None => false end.
Proof. intros Hj. unfold sel. rewrite sel_from_bits by lia. rewrite (proj2 (Z.leb_le 0 j)), Z.sub_0_r by lia. done. Qed.

Lemma sel_from_nonneg ms : forall i a, 0 <= i -> 0 <= sel_from i ms a.
Proof.
  induction ms as [|m ms IH]; simpl; intros i a Hi; [lia|]. apply Z.lor_nonneg. split; [|apply IH; lia].
  apply Z.shiftl_nonneg. rewrite parity_mod. by destruct (parity a m).
Qed.

Lemma sel_range ms a : in_word (Z.of_nat (length ms)) (sel ms a).
Proof.
  apply in_word_bits; [lia|apply sel_from_nonneg; lia|]. intros j Hj. rewrite sel_bits by lia.
  by rewrite lookup_ge_None_2 by lia.
Qed.

(** Two addresses are of the same stripe when every mask has the same parity. *)
Lemma sel_eq ms a b : in_word (Z.of_nat (length ms)) b ->
  (forall i m, ms !! i = Some m -> parity a m = Z.testbit b (Z.of_nat i)) -> sel ms a = b.
Proof.
  intros Hb Hp. apply Z.bits_inj'. intros j Hj. rewrite sel_bits by done.
  destruct (ms !! Z.to_nat j) as [m|] eqn:E.
  - rewrite (Hp _ _ E). f_equal. lia.
  - apply lookup_ge_None_1 in E. symmetry. eapply in_word_high; [done|lia].
Qed.

(** ** Merging *)

Lemma merge_check_lookup first : forall rs n i r,
  merge_check first rs n = true -> n + Z.of_nat (length rs) <= 2 ^ 8 -> 0 <= n -> rs !! i = Some r ->
  r = mk (_start first) (_end first) (masks first) (n + Z.of_nat i).
Proof.
  induction rs as [|x rs IH]; intros n i r Hc Hn Hn0 Hi; simpl in *; [done|].
  apply andb_prop in Hc as [[Hm Hx%Z.eqb_eq]%andb_prop Hc]. destruct i as [|i]; simpl in Hi.
  - injection Hi as ->. unfold mergesWith in Hm. destruct r as [s e ms im]. simpl in *.
    apply andb_prop in Hm as [[->%Z.eqb_eq ->%Z.eqb_eq]%andb_prop ->%bool_decide_eq_true]. f_equal. lia.
  - destruct (decide (rs = [])) as [->|Hne]; [by rewrite lookup_nil in Hi|].
    assert (0 < length rs)%nat by (destruct rs; [done|simpl; lia]).
    rewrite (uwrap_small 8) in Hc by (unfold in_word; lia).
    rewrite (IH (n + 1) i r Hc) by (done || lia). f_equal. lia.
Qed.

(** Merging the stripes of an interleaved range gives the range without interleaving,
    and each address of it belongs to exactly one of the stripes that were merged:
    whenever the constructor accepts two or more ranges, with at most eight interleaving
    masks, the result has an address exactly when one of the ranges has it, and no two
    ranges share one. *)
Theorem merged_stripes_partition rs r a :
  make_ranges rs = Ok r -> (2 <= length rs)%nat -> Forall (fun x => numMasks x <= 8) rs ->
  interleaved r = false /\
  (contains r a = true <-> exists i x, rs !! i = Some x /\ contains x a = true) /\
  (forall i j x y, rs !! i = Some x -> rs !! j = Some y -> contains x a = true -> contains y a = true -> i = j).
Proof.
  intros Hr Hlen Hall. destruct rs as [|x [|y rs]]; simpl in Hlen; [lia..|].
  unfold make_ranges in Hr. set (l := x :: y :: rs) in *.
  pose proof (Forall_inv Hall) as Hx. simpl in Hx. unfold shl1 in Hr.
  rewrite (proj2 (Z.ltb_lt (numMasks x) 64)) in Hr by lia. cbn [rbind] in Hr.
  destruct (Z.eqb_spec (Z.of_nat (length l)) (Z.shiftl 1 (numMasks x))) as [Hn|]; cbn [negb] in Hr; [|done].
  destruct (merge_check x l 0) eqn:Hc; cbn [negb] in Hr; [|done]. injection Hr as <-.
  assert (0 <= numMasks x) by (unfold numMasks; lia). rewrite Z.shiftl_mul_pow2, Z.mul_1_l in Hn by lia.
  assert (2 ^ numMasks x <= 2 ^ 8) by (apply Z.pow_le_mono_r; lia).
  assert (forall i z, l !! i = Some z -> z = mk (_start x) (_end x) (masks x) (Z.of_nat i)) as Hz.
  { intros i z Hi. by apply (merge_check_lookup x l 0 i z Hc ltac:(lia) ltac:(lia)). }
  unfold contains at 1. simpl. change (sel [] a =? 0) with true.
  split; [done|]. split.
  - split.
    + destruct ((_start x <=? a) && (a <? _end x)) eqn:Hin; [|done]. intros _.
      pose proof (sel_range (masks x) a) as [Hs0 Hs1]. fold (numMasks x) in Hs1.
      destruct (lookup_lt_is_Some_2 l (Z.to_nat (sel (masks x) a)) ltac:(lia)) as [z Hl].
      exists (Z.to_nat (sel (masks x) a)), z. split; [done|]. rewrite (Hz _ _ Hl). unfold contains. simpl.
      rewrite Hin, Z2Nat.id by done. by apply Z.eqb_refl.
    + intros (i & z & Hl & Hc'). rewrite (Hz _ _ Hl) in Hc'. unfold contains in Hc'. simpl in Hc'.
      by destruct ((_start x <=? a) && (a <? _end x)).
  - intros i j z w Hi Hj. rewrite (Hz _ _ Hi), (Hz _ _ Hj). unfold contains. simpl.
    destruct ((_start x <=? a) && (a <? _end x)); [|done]. intros ?%Z.eqb_eq ?%Z.eqb_eq. lia.
Qed.

(** ** Taking bits out and putting bits in *)

(** Sequences of bits: position [k] taken out, and position [k] put in. *)
Definition drop_bit (k : Z) (f : Z -> bool) (j : Z) : bool := if j <? k then f j else f (j + 1).
Definition dup_bit (k : Z) (f : Z -> bool) (j : Z) : bool := if j <? k then f j else (0 <? j) && f (j - 1).

(** The positions in increasing order, taken out from the highest, put in from the lowest. *)
Fixpoint drops (bs : list Z) (f : Z -> bool) : Z -> bool :=
  match bs with [] => f | b :: bs => drop_bit b (drops bs f) end.
Fixpoint dups (bs : list Z) (f : Z -> bool) : Z -> bool :=
  match bs with [] => f | b :: bs => dups bs (dup_bit b f) end.

(** Agreement outside a set of positions. *)
Definition agree (E : Z -> Prop) (f g : Z -> bool) : Prop := forall j, 0 <= j -> ~ E j -> f j = g j.
Definition below (E : Z -> Prop) (bs : list Z) : Prop := forall e b, E e -> b ∈ bs -> e < b.

#[local] Ltac cmp := repeat match goal with |- context [?x <? ?y] => destruct (Z.ltb_spec x y); try lia end.

Lemma agree_or (E : Z -> Prop) b bs f g :
  agree (fun j => E j \/ j ∈ b :: bs) f g -> agree (fun j => (E j \/ j = b) \/ j ∈ bs) f g.
Proof. intros H j Hj Hn. apply H; [done|]. set_solver. Qed.

Lemma below_cons (E : Z -> Prop) b bs :
  StronglySorted Z.lt (b :: bs) -> below E (b :: bs) -> below (fun j => E j \/ j = b) bs.
Proof.
  intros [_ Hb]%StronglySorted_inv He e c [H| ->] Hc; [apply (He e c H); set_solver|].
  rewrite Forall_forall in Hb. by apply Hb.
Qed.

(** What was put in can be taken out, whatever the bits put in have become. *)
Lemma drops_dups bs : forall (E : Z -> Prop) f g,
  StronglySorted Z.lt bs -> below E bs -> Forall (fun b => 0 <= b) bs ->
  agree (fun j => E j \/ j ∈ bs) g (dups bs f) -> agree E (drops bs g) f.
Proof.
  induction bs as [|b bs IH]; intros E f g Hs He Hb Hg; simpl in *.
  - intros j Hj Hn. apply Hg; [done|]. set_solver.
  - apply agree_or in Hg. apply IH in Hg; [|by eapply StronglySorted_inv|by apply below_cons|by inversion Hb].
    apply Forall_inv in Hb. intros j Hj Hn. unfold drop_bit, dup_bit in *. cmp.
    + rewrite Hg by (try intros [?| ->]; lia || done). by cmp.
    + rewrite Hg; [cmp; simpl; f_equal; lia|lia|]. intros [Hj'|]; [|lia].
      pose proof (He (j + 1) b Hj' ltac:(set_solver)). lia.
Qed.

Lemma dups_agree bs : forall (E : Z -> Prop) f g,
  StronglySorted Z.lt bs -> below E bs -> agree E f g ->
  agree (fun j => E j \/ j ∈ bs) (dups bs f) (dups bs g).
Proof.
  induction bs as [|b bs IH]; intros E f g Hs He Hfg; simpl; [intros j Hj Hn; apply Hfg; set_solver|].
  intros j Hj Hn. apply (IH (fun j => E j \/ j = b)); [by eapply StronglySorted_inv|by apply below_cons| |done|set_solver].
  clear j Hj Hn. intros j Hj Hn. unfold dup_bit. cmp; simpl; try done; [apply Hfg; tauto|].
  apply Hfg; [lia|]. intros Hee. pose proof (He _ b Hee ltac:(set_solver)). assert (j <> b) by tauto. lia.
Qed.

Lemma dups_ext bs : forall f g,
  (forall j, 0 <= j -> f j = g j) -> forall j, 0 <= j -> dups bs f j = dups bs g j.
Proof.
  induction bs as [|b bs IH]; simpl; intros f g He; [done|]. apply IH. intros j Hj. unfold dup_bit.
  cmp; simpl; try done; apply He; lia.
Qed.

Lemma dups_drops bs : forall f,
  StronglySorted Z.lt bs -> Forall (fun b => 0 <= b) bs ->
  agree (fun j => j ∈ bs) (dups bs (drops bs f)) f.
Proof.
  induction bs as [|b bs IH]; intros f Hs Hb; simpl; [done|].
  apply StronglySorted_inv in Hs as [Hs Hlt]. apply Forall_cons in Hb as [Hb Hbs].
  intros j Hj Hn. rewrite <- (IH f Hs Hbs j Hj) by set_solver.
  apply (dups_agree bs (fun j => j = b)); [done| | |done|set_solver].
  - intros e c -> Hc. rewrite Forall_forall in Hlt. by apply Hlt.
  - intros i Hi Hib. unfold dup_bit, drop_bit. cmp; [done|]. simpl. f_equal. lia.
Qed.

Lemma drops_high bs W f :
  Forall (fun b => b + Z.of_nat (length bs) <= W) bs -> (forall j, W <= j -> f j = false) ->
  forall j, W - Z.of_nat (length bs) <= j -> drops bs f j = false.
Proof.
  induction bs as [|b bs IH]; simpl; intros Hb Hf j Hj; [apply Hf; lia|].
  apply Forall_cons in Hb as [Hb Hbs]. unfold drop_bit. cmp. apply IH; [|done|lia].
  eapply Forall_impl; [done|]. simpl. lia.
Qed.

(** The code takes the bits out from the lowest, which moves the others down. *)
Fixpoint drops_up (bs : list Z) (i : Z) (f : Z -> bool) : Z -> bool :=
  match bs with [] => f | b :: bs => drops_up bs (i + 1) (drop_bit (b - i) f) end.

Lemma drops_up_ext bs : forall i f g,
  (forall j, 0 <= j -> f j = g j) -> forall j, 0 <= j -> drops_up bs i f j = drops_up bs i g j.
Proof.
  induction bs as [|b bs IH]; simpl; intros i f g He; [done|]. apply IH. intros j Hj. unfold drop_bit.
  cmp; apply He; lia.
Qed.

Lemma drops_up_comm bs : forall i c f,
  StronglySorted Z.lt bs -> Forall (fun b => c < b - i) bs -> forall j, 0 <= j ->
  drops_up bs (i + 1) (drop_bit c f) j = drop_bit c (drops_up bs i f) j.
Proof.
  induction bs as [|b bs IH]; simpl; intros i c f Hs Hc j Hj; [done|].
  apply StronglySorted_inv in Hs as [Hs Hlt]. apply Forall_cons in Hc as [Hb Hc].
  rewrite <- IH; [|done| |done].
  - apply drops_up_ext; [|done]. intros k Hk. unfold drop_bit. cmp; try done; f_equal; lia.
  - eapply Forall_impl; [apply Hlt|]. simpl. lia.
Qed.

Lemma drops_up_drops bs : forall f,
  StronglySorted Z.lt bs -> forall j, 0 <= j -> drops_up bs 0 f j = drops bs f j.
Proof.
  induction bs as [|b bs IH]; simpl; intros f Hs j Hj; [done|]. apply StronglySorted_inv in Hs as [Hs Hlt].
  rewrite Z.sub_0_r. change (drops_up bs 1 (drop_bit b f) j) with (drops_up bs (0 + 1) (drop_bit b f) j).
  rewrite drops_up_comm; [|done| |done].
  - unfold drop_bit. cmp; apply IH; (done || lia).
  - eapply Forall_impl; [apply Hlt|]. simpl. lia.
Qed.

(** ** What the two functions compute *)

Lemma remove_bits_run bs : forall i a,
  StronglySorted Z.lt bs -> Forall (fun b => i <= b < 64) bs -> 0 <= i -> in_word 64 a ->
  exists r, remove_bits bs i a = Ok r /\ in_word 64 r /\
    forall j, 0 <= j -> Z.testbit r j = drops_up bs i (Z.testbit a) j.
Proof.
  induction bs as [|b bs IH]; intros i a Hs Hb Hi Ha; simpl; [by exists a|].
  apply StronglySorted_inv in Hs as [Hs Hlt]. apply Forall_cons in Hb as [Hb Hbs].
  assert (in_word 64 (Z.shiftr a 1)) as Hsh.
  { destruct Ha. split; [by apply Z.shiftr_nonneg|]. rewrite Z.shiftr_div_pow2 by lia. change (2 ^ 1) with 2. apply Z.div_lt_upper_bound; lia. }
  assert (exists x, remove_bit b i a = Ok x /\ in_word 64 x /\
    forall j, 0 <= j -> Z.testbit x j = drop_bit (b - i) (Z.testbit a) j) as (x & Hx & Hxw & Hxb).
  { unfold remove_bit, drop_bit. destruct ((0 <? b) && (0 <=? b - i - 1)) eqn:E.
    - destruct (insertBits_testbit (Z.shiftr a 1) (b - i - 1) 0 a ltac:(lia) ltac:(lia) Hsh) as (x & Hx & Hxw & Hxb).
      exists x. split_and!; [done..|]. intros j Hj. rewrite Hxb by done. rewrite (proj2 (Z.leb_le 0 j)), Z.sub_0_r by lia.
      simpl. cmp; destruct (Z.leb_spec j (b - i - 1)); try lia; [done|]. rewrite Z.shiftr_spec by lia. done.
    - exists (Z.shiftr a 1). split_and!; [done..|]. intros j Hj. cmp. rewrite Z.shiftr_spec by lia. done. }
  rewrite Hx. cbn [rbind]. destruct (IH (i + 1) x) as (r & Hr & Hrw & Hrb); [done| |lia|done|].
  - apply Forall_forall. intros c Hc. rewrite Forall_forall in Hlt, Hbs. specialize (Hlt c Hc). specialize (Hbs c Hc). lia.
  - exists r. split_and!; [done..|]. intros j Hj. rewrite Hrb by done. by apply drops_up_ext.
Qed.

Lemma add_bits_run bs : forall a,
  Forall (fun b => 0 <= b < 64) bs -> in_word (64 - Z.of_nat (length bs)) a -> (length bs <= 64)%nat ->
  exists r, foldM (fun a b => add_bit b a) bs a = Ok r /\ in_word 64 r /\
    forall j, 0 <= j -> Z.testbit r j = dups bs (Z.testbit a) j.
Proof.
  induction bs as [|b bs IH]; intros a Hb Ha Hlen.
  { simpl in *. by exists a. }
  cbn [foldM dups]. simpl in Ha, Hlen. apply Forall_cons in Hb as [Hb Hbs].
  assert (in_word 64 (Z.shiftl a 1)) as Hsh.
  { destruct Ha as [Ha0 Ha1]. split; [by apply Z.shiftl_nonneg|]. rewrite Z.shiftl_mul_pow2 by lia.
    assert (2 ^ (64 - Z.of_nat (S (length bs))) <= 2 ^ 63) by (apply Z.pow_le_mono_r; lia). lia. }
  assert (exists x, add_bit b a = Ok x /\ in_word 64 x /\
    forall j, 0 <= j -> Z.testbit x j = dup_bit b (Z.testbit a) j) as (x & Hx & Hxw & Hxb).
  { assert (forall j, 0 <= j -> Z.testbit (Z.shiftl a 1) j = (0 <? j) && Z.testbit a (j - 1)) as Hsb.
    { intros j Hj. rewrite Z.shiftl_spec by lia. cmp; [done|]. by rewrite Z.testbit_neg_r by lia. }
    unfold add_bit, dup_bit. rewrite (uwrap_small 64) by done. destruct (Z.ltb_spec 0 b).
    - destruct (insertBits_testbit (Z.shiftl a 1) (b - 1) 0 a ltac:(lia) ltac:(lia) Hsh) as (x & Hx & Hxw & Hxb).
      exists x. split_and!; [done..|]. intros j Hj. rewrite Hxb by done. rewrite (proj2 (Z.leb_le 0 j)), Z.sub_0_r by lia.
      simpl. destruct (Z.leb_spec j (b - 1)), (Z.ltb_spec j b); try lia; [done|]. by apply Hsb.
    - exists (Z.shiftl a 1). split_and!; [done..|]. intros j Hj. rewrite Hsb by done. by cmp. }
  rewrite Hx. cbn [rbind]. destruct (IH x) as (r & Hr & Hrw & Hrb); [done| |lia|].
  - apply in_word_bits; [lia|apply Hxw|]. intros j Hj. rewrite Hxb by lia. unfold dup_bit.
    cmp; simpl; eapply in_word_high; try done; lia.
  - exists r. split_and!; [done..|]. intros j Hj. rewrite Hrb by done.
    apply dups_ext; [|done]. intros k Hk. by apply Hxb.
Qed.

(** ** Setting the parities *)

(** Masks that can be told apart: the lowest bit of each is in no other, and is one the
    complement of an [int] can clear. *)
Record masks_ok (ms : list Z) : Prop := {
  mo_low : Forall (fun m => ctz64 m <= 30) ms;
  mo_apart : forall i j m m', ms !! i = Some m -> ms !! j = Some m' -> i <> j -> Z.testbit m (ctz64 m') = false;
  mo_few : (length ms <= 8)%nat
}.

Lemma masks_ok_tail m ms : masks_ok (m :: ms) -> masks_ok ms.
Proof.
  intros [Hl Ha Hf]. constructor; [by inversion Hl| |simpl in Hf; lia].
  intros i j x y Hi Hj Hij. apply (Ha (S i) (S j)); [done..|lia].
Qed.

Lemma masks_ok_NoDup ms : masks_ok ms -> NoDup (map ctz64 ms).
Proof.
  intros [Hl Ha _]. apply NoDup_alt. intros i j c Hi Hj.
  apply list_lookup_fmap_Some in Hi as (x & -> & Hi). apply list_lookup_fmap_Some in Hj as (y & Hc & Hj).
  destruct (decide (i = j)) as [|Hij]; [done|]. specialize (Ha _ _ _ _ Hi Hj Hij). rewrite <- Hc in Ha.
  rewrite ctz64_set in Ha; [done|]. rewrite Forall_lookup in Hl. specialize (Hl _ _ Hi). simpl in Hl. lia.
Qed.

Lemma sorted_strict l : StronglySorted Z.le l -> NoDup l -> StronglySorted Z.lt l.
Proof.
  induction 1 as [|x l Hs IH Hx]; intros Hn; [constructor|]. apply NoDup_cons in Hn as [Hnx Hn].
  constructor; [by apply IH|]. rewrite !Forall_forall in *. intros y Hy. specialize (Hx y Hy).
  assert (x <> y) by (intros ->; done). lia.
Qed.

Lemma masks_lsb_perm ms : masks_lsb ms ≡ₚ map ctz64 ms.
Proof. apply merge_sort_Permutation. Qed.

Lemma masks_lsb_sorted ms : masks_ok ms -> StronglySorted Z.lt (masks_lsb ms).
Proof.
  intros Hm. apply sorted_strict; [apply (StronglySorted_merge_sort Z.le)|].
  rewrite masks_lsb_perm. by apply masks_ok_NoDup.
Qed.

Lemma masks_lsb_range ms : masks_ok ms -> Forall (fun b => 0 <= b <= 30) (masks_lsb ms).
Proof.
  intros [Hl _ _]. rewrite masks_lsb_perm. apply Forall_map. eapply Forall_impl; [exact Hl|].
  intros m Hm. cbn beta in *. pose proof (ctz64_range m). lia.
Qed.

Lemma masks_lsb_length ms : length (masks_lsb ms) = length ms.
Proof. by rewrite masks_lsb_perm, length_map. Qed.

(** The bits under a mask, its lowest bit apart. *)
Definition others (a m : Z) : Z := Z.land (Z.land a m) (unot 64 (Z.shiftl 1 (ctz64 m))).

Lemma others_bits a m j :
  ctz64 m <= 30 -> 0 <= j < 64 -> Z.testbit (others a m) j = Z.testbit (Z.land a m) j && negb (j =? ctz64 m).
Proof.
  intros Hm Hj. pose proof (ctz64_range m). unfold others. rewrite Z.shiftl_mul_pow2, Z.mul_1_l by lia.
  rewrite Z.land_spec, Bitfield.unot_testbit by (lia || (apply IntMath.pow2_in_word; lia)).
  rewrite (proj2 (Z.ltb_lt j 64)) by lia. simpl. rewrite Z.pow2_bits_eqb by lia. by rewrite Z.eqb_sym.
Qed.

Lemma set_parity_run i m im a :
  in_word 64 a -> ctz64 m <= 30 -> 0 <= i < 64 ->
  exists r, set_parity i m im a = Ok r /\ in_word 64 r /\
    agree (fun j => j = ctz64 m) (Z.testbit r) (Z.testbit a) /\ parity r m = Z.testbit im i.
Proof.
  intros Ha Hm Hi. pose proof (ctz64_range m) as H0. pose proof (ctz64_set m ltac:(lia)) as Hbit.
  unfold set_parity. rewrite Bitfield.bit_spec by done. cbn [rbind]. unfold not_bit.
  rewrite (proj2 (Z.ltb_lt (ctz64 m) 31)) by lia. cbn [rbind].
  fold (others a m). set (c := others a m).
  assert (forall j, 0 <= j < 64 -> Z.testbit c j = Z.testbit (Z.land a m) j && negb (j =? ctz64 m)) as Hc
    by (intros; by apply others_bits).
  destruct (insertBits_testbit a (ctz64 m) (ctz64 m) (Z.lxor (Z.b2z (Z.testbit im i)) (popCount c)) ltac:(lia) ltac:(lia) Ha)
    as (r & Hr & Hrw & Hrb).
  exists r. split; [done|]. split; [done|]. split.
  - intros j Hj Hn. rewrite Hrb by done. by replace ((_ <=? j) && _) with false by lia.
  - rewrite (parity_split r m (ctz64 m) c); [|lia|done|].
    + rewrite Hrb by lia. rewrite Z.leb_refl. simpl. rewrite Z.sub_diag, Z.lxor_spec, Z.b2z_bit0, Z.bit0_odd.
      by destruct (Z.testbit im i), (Z.odd _).
    + intros j Hj. rewrite Hc, !Z.land_spec by done. destruct (Z.eqb_spec j (ctz64 m)); simpl; [by rewrite !andb_false_r|].
      rewrite Hrb by lia. by replace ((_ <=? j) && _) with false by lia.
Qed.

Lemma set_parities_run ms : forall i im a,
  masks_ok ms -> in_word 64 a -> 0 <= i -> i + Z.of_nat (length ms) <= 64 ->
  exists r, set_parities i ms im a = Ok r /\ in_word 64 r /\
    agree (fun j => j ∈ map ctz64 ms) (Z.testbit r) (Z.testbit a) /\
    forall k m, ms !! k = Some m -> parity r m = Z.testbit im (i + Z.of_nat k).
Proof.
  induction ms as [|m ms IH]; intros i im a Hok Ha Hi Hlen; simpl.
  { exists a. split_and!; [done..| |]; [by intros j|]. intros k m Hk. by rewrite lookup_nil in Hk. }
  destruct (set_parity_run i m im a Ha) as (x & -> & Hx & Hxa & Hxp); [by destruct Hok as [Hl _ _]; inversion Hl|simpl in Hlen; lia|].
  cbn [rbind]. simpl in Hlen.
  destruct (IH (i + 1) im x (masks_ok_tail _ _ Hok) Hx ltac:(lia) ltac:(lia)) as (r & Hr & Hrw & Hra & Hrp).
  exists r. split_and!; [done..| |].
  - intros j Hj Hn. rewrite Hra by set_solver. apply Hxa; [done|set_solver].
  - intros [|k] y Hk; simpl in Hk.
    + injection Hk as <-. rewrite Z.add_0_r, <- Hxp. apply parity_ext. intros j Hj Hmj. apply Hra; [lia|].
      intros (z & -> & (k & Hk)%list_elem_of_lookup)%list_elem_of_fmap.
      pose proof (mo_apart _ Hok 0 (S k) m z eq_refl Hk ltac:(done)). congruence.
    + rewrite (Hrp k y Hk). f_equal. lia.
Qed.

(** An address is known from its stripe and its other bits. *)
Lemma stripe_unique ms a b :
  masks_ok ms -> in_word 64 a -> in_word 64 b -> agree (fun j => j ∈ map ctz64 ms) (Z.testbit a) (Z.testbit b) ->
  (forall k m, ms !! k = Some m -> parity a m = parity b m) -> a = b.
Proof.
  intros Hok Ha Hb Hab Hp. apply Z.bits_inj'. intros j Hj. destruct (decide (j ∈ map ctz64 ms)) as [Hin|]; [|by apply Hab].
  apply list_elem_of_fmap in Hin as (m & -> & (k & Hk)%list_elem_of_lookup).
  assert (ctz64 m <= 30) as Hm by (destruct Hok as [Hl _ _]; rewrite Forall_lookup in Hl; by apply (Hl k)).
  pose proof (ctz64_set m ltac:(lia)) as Hbit.
  pose proof (ctz64_range m). set (c := others a m).
  assert (forall j, 0 <= j < 64 -> Z.testbit c j = Z.testbit (Z.land a m) j && negb (j =? ctz64 m)) as Hc
    by (intros; by apply others_bits).
  specialize (Hp k m Hk). rewrite (parity_split a m (ctz64 m) c), (parity_split b m (ctz64 m) c) in Hp; try (done || lia).
  - by destruct (Z.testbit a _), (Z.testbit b _), (Z.odd _).
  - intros i Hi. rewrite Hc, !Z.land_spec by done. destruct (Z.eqb_spec i (ctz64 m)) as [->|Hn]; simpl; [by rewrite !andb_false_r|].
    destruct (Z.testbit m i) eqn:Em; [|by rewrite !andb_false_r]. rewrite !andb_true_r. apply Hab; [lia|].
    intros (z & -> & (k' & Hk')%list_elem_of_lookup)%list_elem_of_fmap.
    rewrite (mo_apart _ Hok k k' m z Hk Hk') in Em; [done|]. intros <-. congruence.
Qed.

(** ** The round trip *)

Lemma interleaved_nil r : interleaved r = false -> masks r = [].
Proof. unfold interleaved, numMasks. destruct (masks r); [done|]. intros ?%Z.ltb_ge. simpl in *. lia. Qed.

(** The bits of a stripe's address, without and with the interleaving bits. *)
Lemma removeIntlvBits_run r a :
  masks_ok (masks r) -> in_word 64 a ->
  exists x, removeIntlvBits r a = Ok x /\ in_word (64 - numMasks r) x /\
    forall j, 0 <= j -> Z.testbit x j = drops (masks_lsb (masks r)) (Z.testbit a) j.
Proof.
  intros Hok Ha. unfold removeIntlvBits. pose proof (masks_lsb_sorted _ Hok) as Hs. pose proof (masks_lsb_range _ Hok) as Hb.
  pose proof (masks_lsb_length (masks r)) as Hlen. pose proof (mo_few _ Hok) as Hfew.
  destruct (interleaved r) eqn:E.
  - destruct (remove_bits_run (masks_lsb (masks r)) 0 a Hs) as (x & Hx & Hxw & Hxb); [|lia|done|].
    { eapply Forall_impl; [exact Hb|]. simpl. lia. }
    exists x. split; [done|].
    assert (forall j, 0 <= j -> Z.testbit x j = drops (masks_lsb (masks r)) (Z.testbit a) j) as Hd
      by (intros j Hj; rewrite Hxb by done; by apply drops_up_drops).
    split; [|done]. unfold numMasks. apply in_word_bits; [lia|apply Hxw|]. intros j Hj. rewrite Hd by lia.
    apply (drops_high _ 64); [|intros; by eapply in_word_high|lia]. eapply Forall_impl; [exact Hb|]. simpl. lia.
  - exists a. unfold numMasks. rewrite (interleaved_nil _ E). by rewrite Z.sub_0_r.
Qed.

Lemma addIntlvBits_run r x :
  masks_ok (masks r) -> in_word (64 - numMasks r) x -> in_word (numMasks r) (intlvMatch r) ->
  exists a, addIntlvBits r x = Ok a /\ in_word 64 a /\ sel (masks r) a = intlvMatch r /\
    agree (fun j => j ∈ masks_lsb (masks r)) (Z.testbit a) (dups (masks_lsb (masks r)) (Z.testbit x)).
Proof.
  intros Hok Hx Him. unfold addIntlvBits. pose proof (masks_lsb_range _ Hok) as Hb.
  pose proof (masks_lsb_length (masks r)) as Hlen. pose proof (mo_few _ Hok) as Hfew.
  destruct (interleaved r) eqn:E.
  - destruct (add_bits_run (masks_lsb (masks r)) x) as (y & Hy & Hyw & Hyb).
    { eapply Forall_impl; [exact Hb|]. simpl. lia. }
    { by rewrite Hlen. }
    { lia. }
    rewrite Hy. cbn [rbind].
    destruct (set_parities_run (masks r) 0 (intlvMatch r) y Hok Hyw ltac:(lia) ltac:(lia)) as (a & Ha & Haw & Hag & Hp).
    exists a. split_and!; [done..| |].
    + by apply sel_eq.
    + intros j Hj Hn. rewrite Hag; [by apply Hyb|done|]. by rewrite <- masks_lsb_perm.
  - apply interleaved_nil in E. unfold numMasks in *. rewrite E in *. exists x. rewrite Z.sub_0_r in Hx.
    split_and!; [done..| |done]. unfold in_word in Him. simpl in *. change (sel [] x) with 0. lia.
Qed.

(** C39. The addresses of a stripe are numbered by the words that are shorter by the
    number of masks. For masks whose lowest bits are in no other mask and lie below bit
    31, at most eight of them: putting the interleaving bits into a word gives an
    address of the stripe, from which taking them out gives the word back; and taking
    them out of an address of the stripe gives a word from which putting them in gives
    the address back. *)
Theorem intlv_bits_roundtrip r :
  masks_ok (masks r) -> in_word (numMasks r) (intlvMatch r) ->
  (forall x, in_word (64 - numMasks r) x ->
     exists a, addIntlvBits r x = Ok a /\ in_word 64 a /\ sel (masks r) a = intlvMatch r /\ removeIntlvBits r a = Ok x) /\
  (forall a, in_word 64 a -> sel (masks r) a = intlvMatch r ->
     exists x, removeIntlvBits r a = Ok x /\ in_word (64 - numMasks r) x /\ addIntlvBits r x = Ok a).
Proof.
  intros Hok Him. pose proof (masks_lsb_sorted _ Hok) as Hs.
  assert (Forall (fun b => 0 <= b) (masks_lsb (masks r))) as Hb
    by (eapply Forall_impl; [apply (masks_lsb_range _ Hok)|simpl; lia]).
  split.
  - intros x Hx. destruct (addIntlvBits_run r x Hok Hx Him) as (a & Ha & Haw & Hsel & Hag).
    destruct (removeIntlvBits_run r a Hok Haw) as (y & Hy & Hyw & Hyb).
    exists a. split_and!; [done..|]. rewrite Hy. f_equal. apply Z.bits_inj'. intros j Hj. rewrite Hyb by done.
    apply (drops_dups _ (fun _ => False)); [done|by intros ? ? []|done| |done|tauto].
    intros k Hk Hn. apply Hag; tauto.
  - intros a Ha Hsel. destruct (removeIntlvBits_run r a Hok Ha) as (x & Hx & Hxw & Hxb).
    destruct (addIntlvBits_run r x Hok Hxw Him) as (b & Hb' & Hbw & Hbsel & Hag).
    exists x. split_and!; [done..|]. rewrite Hb'. f_equal. apply (stripe_unique (masks r)); [done..| |].
    + intros j Hj Hn. rewrite Hag by (done || by rewrite masks_lsb_perm).
      rewrite (dups_ext _ _ (drops (masks_lsb (masks r)) (Z.testbit a)) Hxb j Hj).
      apply dups_drops; [done..|]. by rewrite masks_lsb_perm.
    + intros k m Hk. pose proof (lookup_lt_Some _ _ _ Hk).
      assert (Z.testbit (sel (masks r) b) (Z.of_nat k) = Z.testbit (sel (masks r) a) (Z.of_nat k)) as He by congruence.
      rewrite !sel_bits, Nat2Z.id, Hk in He by lia. done.
Qed.

(** ** Concrete ranges *)

(** Four stripes of lines of 64 bytes, the upper selecting bit hashed with bit 13. *)
Definition stripe (i : Z) : t := mk 0 (2 ^ 20) [2 ^ 6; Z.lor (2 ^ 7) (2 ^ 13)] i.

Lemma stripe_masks i : masks_ok (masks (stripe i)).
Proof.
  constructor; [repeat constructor; by vm_compute| |simpl; lia].
  intros [|[|[]]] [|[|[]]] m m' Hi Hj Hij; simplify_eq/=; try done; by vm_compute.
Qed.

Lemma merged_stripes_partition_witness :
  make_ranges (map stripe [0; 1; 2; 3]) = Ok (mk 0 (2 ^ 20) [] 0) /\
  contains (mk 0 (2 ^ 20) [] 0) 0x20c0 = true /\
  exists i x, map stripe [0; 1; 2; 3] !! i = Some x /\ contains x 0x20c0 = true.
Proof.
  split; [reflexivity|]. split; [reflexivity|].
  apply (merged_stripes_partition (map stripe [0; 1; 2; 3]) (mk 0 (2 ^ 20) [] 0) 0x20c0);
    [reflexivity|simpl; lia|repeat constructor; by vm_compute|reflexivity].
Defined.

Lemma intlv_bits_roundtrip_witness :
  exists a, addIntlvBits (stripe 2) 0x1005 = Ok a /\ in_word 64 a /\ sel (masks (stripe 2)) a = 2 /\
    removeIntlvBits (stripe 2) a = Ok 0x1005.
Proof.
  assert (in_word 2 2) as Hm by (split; by vm_compute).
  assert (in_word 62 0x1005) as Hx by (split; by vm_compute).
  exact (proj1 (intlv_bits_roundtrip (stripe 2) (stripe_masks 2) Hm) 0x1005 Hx).
Defined.

(** The combined mask of a range that interleaves above bit 31 is 0, and the granularity
    is a shift by 64. *)
Lemma granularity_high_masks : granularity (mk 0 (2 ^ 40) [2 ^ 33] 0) = Err Undefined.
Proof. reflexivity. Qed.

(** For a mask at bit 31 the complement of the [int] keeps only the bits below it: the
    hashed bit 33 is not counted, and the address made is not of the stripe. *)
Lemma addIntlvBits_bit31 :
  let r := mk 0 (2 ^ 40) [Z.lor (2 ^ 31) (2 ^ 33)] 0 in
  exists a, addIntlvBits r (2 ^ 32) = Ok a /\ sel (masks r) a = 1.
Proof. eexists. split; [reflexivity|]. by vm_compute. Qed.

End AddrRangeFacts.
