(* ===== verification/Memory.v ===== *)
(** * Main memory: mem/abstract_mem.*, simple_mem.*

    [AbstractMemory] keeps the bytes of a range of physical addresses and the
    reservations of load-locked accesses, and serves a packet at once. [SimpleMemory]
    answers timing requests: it is busy for a time that depends on the size of the
    request, and keeps the answers in a queue until they are due. *)

From S2P Require Import Prelude BaseUtil MemCmd Request Packet CacheBlk ReplPolicy Indexing Tags.
From S2P Require Import Prefetch MSHR Queues CacheState BaseCache AddrRange.
Local Open Scope Z_scope.

Module AbstractMemory.

Definition InvalidContextID : Z := -1.

Record LockedAddr := mkLocked { addr : Z; contextId : Z }.
#[global] Instance LockedAddr_eq_dec : EqDecision LockedAddr.
Proof. solve_decision. Defined.

(** [LockedAddr::mask]: the granule of a reservation is 16 bytes. *)
Definition mask (paddr : Z) : Z := Z.land paddr (unot 64 0xf).

Definition matchesContext (r : Request.t) (l : LockedAddr) : res bool :=
  assert! (negb (contextId l =? InvalidContextID)) in
  assert! (Request.hasContextId r) in
  let* c := Request.contextId r in
  Ok (contextId l =? c).

(** [pmemAddr] is the backing store; a null memory has none. *)
Record t := mk {
  range : AddrRange.t;
  pmemAddr : option (list Z);
  lockedAddrList : list LockedAddr
}.
Definition with_pmemAddr (v : option (list Z)) (m : t) : t := mk (range m) v (lockedAddrList m).
Definition with_lockedAddrList (v : list LockedAddr) (m : t) : t := mk (range m) (pmemAddr m) v.

(** ** Reservations *)

(** The record of this context, if there is one, gets the new address. *)
Fixpoint track (paddr : Z) (r : Request.t) (l : list LockedAddr) : res (option (list LockedAddr)) :=
  match l with
  | [] => Ok None
  | x :: l =>
      let* m := matchesContext r x in
      if m then Ok (Some (mkLocked paddr (contextId x) :: l))
      else let* l' := track paddr r l in Ok (cons x <$> l')
  end.

Definition trackLoadLocked (p : Packet.t) (m : t) : res t :=
  let r := Packet.req p in
  let* pa := Request.getPaddr r in
  let paddr := mask pa in
  let* l := track paddr r (lockedAddrList m) in
  match l with
  | Some l => Ok (with_lockedAddrList l m)
  | None => let* c := Request.contextId r in
            Ok (with_lockedAddrList (mkLocked paddr c :: lockedAddrList m) m)
  end.

(** The search of a store-conditional for the reservation of its context. *)
Fixpoint reserved (paddr : Z) (r : Request.t) (l : list LockedAddr) : res bool :=
  match l with
  | [] => Ok false
  | x :: l =>
      if addr x =? paddr then
        let* c := matchesContext r x in if c then Ok true else reserved paddr r l
      else reserved paddr r l
  end.

(** Removes the reservations of an address, and lists the other contexts that lose
    theirs, whose monitors are cleared. *)
Fixpoint erase (paddr requestor_cid : Z) (l : list LockedAddr) : res (list LockedAddr * list Z) :=
  match l with
  | [] => Ok ([], [])
  | x :: l =>
      if addr x =? paddr then
        assert! (negb (contextId x =? InvalidContextID)) in
        let* (l, cleared) := erase paddr requestor_cid l in
        Ok (l, if contextId x =? requestor_cid then cleared else contextId x :: cleared)
      else let* (l, cleared) := erase paddr requestor_cid l in Ok (x :: l, cleared)
  end.

(** Whether a store may be made, the packet, the memory and the contexts whose monitors
    are cleared. *)
Definition checkLockedAddrList (p : Packet.t) (m : t) : res (bool * Packet.t * t * list Z) :=
  let r := Packet.req p in
  let* pa := Request.getPaddr r in
  let paddr := mask pa in
  let* (allowStore, p) :=
    if Packet.isLLSC p then
      let* ok := reserved paddr r (lockedAddrList m) in
      Ok (ok, Packet.with_req (Request.setExtraData (Z.b2z ok) r) p)
    else Ok (true, p) in
  if allowStore then
    let* cid := if Request.hasContextId r then Request.contextId r else Ok InvalidContextID in
    let* (l, cleared) := erase paddr cid (lockedAddrList m) in
    Ok (true, p, with_lockedAddrList l m, cleared)
  else Ok (false, p, m, []).

Definition writeOK (p : Packet.t) (m : t) : res (bool * Packet.t * t * list Z) :=
  match lockedAddrList m with
  | [] =>
      if Packet.isLLSC p then Ok (false, Packet.with_req (Request.setExtraData 0 (Packet.req p)) p, m, [])
      else Ok (true, p, m, [])
  | _ => checkLockedAddrList p m
  end.

(** ** Accesses *)

(** The place of an address in the backing store. *)
Definition toHostAddr (a : Z) (m : t) : nat := Z.to_nat (a - AddrRange._start (range m)).

Definition getAddrRange (p : Packet.t) : res AddrRange.t :=
  let* a := Packet.getAddr p in
  let* n := Packet.getSize p in
  Ok (AddrRange.RangeSize a n).

(** [pkt->getAddrRange().isSubset(range)] *)
Definition in_memory (p : Packet.t) (m : t) : res bool :=
  let* r := getAddrRange p in AddrRange.isSubset r (range m).

Definition write_bytes (host : nat) (bs : list Z) (m : t) : t :=
  with_pmemAddr (option_map (splice host bs) (pmemAddr m)) m.

(** The value a conditional swap expects, compared with the memory. *)
Definition swap_matches (r : Request.t) (n : Z) (mem : list Z) : res bool :=
  if Request.isCondSwap r then
    if (n =? 8) || (n =? 4) then
      let* v := Request.getExtraData r in
      Ok (bool_decide (BaseCache.le_bytes (Z.to_nat n) v = take (Z.to_nat n) mem))
    else Err Panic
  else Ok true.

Definition access_swap (p : Packet.t) (host : nat) (m : t) : res (Packet.t * t) :=
  if Packet.isAtomicOp p then
    match pmemAddr m with
    | None => Ok (p, m)
    | Some bytes =>
        let* p := Packet.setData (drop host bytes) p in
        match Request.atomicOpFunctor (Packet.req p) with
        | None => Err Undefined
        | Some op => Ok (p, with_pmemAddr (Some (take host bytes ++ op (drop host bytes))) m)
        end
    end
  else
    match pmemAddr m with
    | None => Err Panic
    | Some bytes =>
        let* n := Packet.getSize p in
        let* overwrite_val := Packet.writeData (replicate (Z.to_nat n) 0) p in
        let* p := Packet.setData (drop host bytes) p in
        let* overwrite_mem := swap_matches (Packet.req p) n (drop host bytes) in
        assert! (negb (Request.isInstFetch (Packet.req p))) in
        Ok (p, if overwrite_mem then write_bytes host overwrite_val m else m)
    end.

Definition access_read (p : Packet.t) (host : nat) (m : t) : res (Packet.t * t) :=
  assert! (negb (Packet.isWrite p)) in
  let* m :=
    if Packet.isLLSC p then
      assert! (negb (Packet.fromCache p)) in trackLoadLocked p m
    else Ok m in
  let* p := match pmemAddr m with Some bytes => Packet.setData (drop host bytes) p | None => Ok p end in
  Ok (p, m).

Definition access_write (p : Packet.t) (host : nat) (m : t) : res (Packet.t * t * list Z) :=
  let* (ok, p, m, cleared) := writeOK p m in
  if (ok : bool) then
    let* m :=
      match pmemAddr m with
      | Some bytes =>
          let* d := Packet.writeData (drop host bytes) p in
          Ok (with_pmemAddr (Some (take host bytes ++ d)) m)
      | None => Ok m
      end in
    assert! (negb (Request.isInstFetch (Packet.req p))) in
    Ok (p, m, cleared)
  else Ok (p, m, cleared).

(** [AbstractMemory::access] *)
Definition access (p : Packet.t) (m : t) : res (Packet.t * t * list Z) :=
  if Packet.cacheResponding p then Ok (p, m, [])
  else if Packet.cmd_is p MemCmd.CleanEvict || Packet.cmd_is p MemCmd.WritebackClean then Ok (p, m, [])
  else
    let* inside := in_memory p m in
    assert! inside in
    let* a := Packet.getAddr p in
    let host := toHostAddr a m in
    let* (p, m, cleared) :=
      if Packet.cmd_is p MemCmd.SwapReq then let* (p, m) := access_swap p host m in Ok (p, m, [])
      else if Packet.isRead p then let* (p, m) := access_read p host m in Ok (p, m, [])
      else if Packet.isInvalidate p || Packet.isClean p then assert! (negb (Packet.isWrite p)) in Ok (p, m, [])
      else if Packet.isWrite p then access_write p host m
      else Err Panic in
    let* p := if Packet.needsResponse p then Packet.makeResponse p else Ok p in
    Ok (p, m, cleared).

(** [AbstractMemory::functionalAccess]; what a print request prints is left out. *)
Definition functionalAccess (p : Packet.t) (m : t) : res (Packet.t * t) :=
  let* inside := in_memory p m in
  assert! inside in
  let* a := Packet.getAddr p in
  let host := toHostAddr a m in
  if Packet.isRead p then
    let* p := match pmemAddr m with Some bytes => Packet.setData (drop host bytes) p | None => Ok p end in
    let* p := Packet.makeResponse p in
    Ok (p, m)
  else if Packet.isWrite p then
    let* m :=
      match pmemAddr m with
      | Some bytes =>
          let* d := Packet.writeData (drop host bytes) p in
          Ok (with_pmemAddr (Some (take host bytes ++ d)) m)
      | None => Ok m
      end in
    let* p := Packet.makeResponse p in
    Ok (p, m)
  else if Packet.isPrint p then Ok (p, m)
  else Err Panic.

End AbstractMemory.

(** ** SimpleMemory *)
Module SimpleMemory.

Record Config := mkConfig {
  latency : Z;
  latency_var : Z;
  (* the ticks a request of a size takes: its size times [bandwidth], a double *)
  duration : Z -> Z
}.

(** What the memory does to the system. *)
Inductive Action :=
  | SendTimingResp (p : Packet.t)
  | SendRetryReq
  | ClearMonitor (context : Z).

(** [releaseAt] and [dequeueAt] are the times of the two events, when scheduled. *)
Record t := mk {
  mem : AbstractMemory.t;
  packetQueue : list (Packet.t * Z);
  isBusy : bool;
  retryReq : bool;
  retryResp : bool;
  releaseAt : option Z;
  dequeueAt : option Z;
  rng : nat
}.
Definition make (m : AbstractMemory.t) (rng : nat) : t := mk m [] false false false None None rng.

Definition with_mem (v : AbstractMemory.t) (s : t) : t :=
  mk v (packetQueue s) (isBusy s) (retryReq s) (retryResp s) (releaseAt s) (dequeueAt s) (rng s).
Definition with_queue (v : list (Packet.t * Z)) (s : t) : t :=
  mk (mem s) v (isBusy s) (retryReq s) (retryResp s) (releaseAt s) (dequeueAt s) (rng s).
Definition with_busy (v : bool) (at_ : option Z) (s : t) : t :=
  mk (mem s) (packetQueue s) v (retryReq s) (retryResp s) at_ (dequeueAt s) (rng s).
Definition with_retryReq (v : bool) (s : t) : t :=
  mk (mem s) (packetQueue s) (isBusy s) v (retryResp s) (releaseAt s) (dequeueAt s) (rng s).
Definition with_retryResp (v : bool) (s : t) : t :=
  mk (mem s) (packetQueue s) (isBusy s) (retryReq s) v (releaseAt s) (dequeueAt s) (rng s).
Definition with_dequeueAt (v : option Z) (s : t) : t :=
  mk (mem s) (packetQueue s) (isBusy s) (retryReq s) (retryResp s) (releaseAt s) v (rng s).
Definition with_rng (v : nat) (s : t) : t :=
  mk (mem s) (packetQueue s) (isBusy s) (retryReq s) (retryResp s) (releaseAt s) (dequeueAt s) v.

Section memory.
Context `{RandomSource}.
Variable C : Config.

Definition getLatency (s : t) : res (Z * t) :=
  if truthy (latency_var C) then
    let* (v, g) := RandomMT.random 0 (latency_var C) (rng s) in
    Ok (u64 (latency C + v), with_rng g s)
  else Ok (latency C, s).

(** [SimpleMemory::recvAtomic]: the latency, the packet, the memory and its actions. *)
Definition recvAtomic (p : Packet.t) (s : t) : res (Z * Packet.t * t * list Action) :=
  panic_if! Packet.cacheResponding p in
  let* (p, m, cleared) := AbstractMemory.access p (mem s) in
  let* (lat, s) := getLatency (with_mem m s) in
  Ok (lat, p, s, map ClearMonitor cleared).

(** The packets of the queue, searched until one completes the request. *)
Fixpoint satisfy_queue (l : list (Packet.t * Z)) (p : Packet.t) : res (Packet.t * list (Packet.t * Z)) :=
  match l with
  | [] => Ok (p, [])
  | (q, tick) :: l =>
      let* (ok, p, q) := Packet.trySatisfyFunctional q p in
      if (ok : bool) then Ok (p, (q, tick) :: l)
      else let* (p, l) := satisfy_queue l p in Ok (p, (q, tick) :: l)
  end.

Definition recvFunctional (p : Packet.t) (s : t) : res (Packet.t * t) :=
  let* (p, m) := AbstractMemory.functionalAccess p (mem s) in
  let* (p, l) := satisfy_queue (packetQueue s) p in
  Ok (p, with_queue l (with_mem m s)).

(** The place after which a packet due at [when] goes: the search moves from entry [i]
    towards the front, but not to before the first entry, nor past an entry of the
    same address. *)
Fixpoint place (p : Packet.t) (when : Z) (l : list (Packet.t * Z)) (i : nat) : res nat :=
  match i with
  | O => Ok O
  | S j =>
      match l !! i with
      | None => Err Undefined
      | Some (q, tick) =>
          if when <? tick then
            let* same := Packet.matchAddr_pkt p q in
            if same then Ok i else place p when l j
          else Ok i
      end
  end.

(** Inserting after that place. On an empty queue the decremented iterator of the list
    is its sentinel, after which the first entry goes. *)
Definition enqueue (p : Packet.t) (when : Z) (l : list (Packet.t * Z)) : res (list (Packet.t * Z)) :=
  match l with
  | [] => Ok [(p, when)]
  | _ => let* i := place p when l (length l - 1) in Ok (insert_at (S i) (p, when) l)
  end.

(** [schedule]: an event may not be put in the past. *)
Definition schedule_dequeue (now when : Z) (s : t) : res t :=
  assert! (now <=? when) in Ok (with_dequeueAt (Some when) s).
Definition schedule_release (now when : Z) (s : t) : res t :=
  assert! (bool_decide (releaseAt s = None)) in
  assert! (now <=? when) in
  Ok (with_busy true (Some when) s).

(** [SimpleMemory::recvTimingReq]: whether the request was accepted. *)
Definition recvTimingReq (now : Z) (p : Packet.t) (s : t) : res (bool * t * list Action) :=
  panic_if! Packet.cacheResponding p in
  panic_if! negb (Packet.isRead p || Packet.isWrite p) in
  if retryReq s then Ok (false, s, [])
  else if isBusy s then Ok (false, with_retryReq true s, [])
  else
    let receive_delay := u64 (Packet.headerDelay p + Packet.payloadDelay p) in
    let p := Packet.with_payloadDelay 0 (Packet.with_headerDelay 0 p) in
    let* n := Packet.getSize p in
    let d := duration C n in
    let* s := if truthy d then schedule_release now (u64 (now + d)) s else Ok s in
    let needsResponse := Packet.needsResponse p in
    let* (_, p, s, acts) := recvAtomic p s in
    if needsResponse then
      assert! (Packet.isResponse p) in
      let* (lat, s) := getLatency s in
      let when_to_send := u64 (now + receive_delay + lat) in
      let* l := enqueue p when_to_send (packetQueue s) in
      let s := with_queue l s in
      let* s :=
        if negb (retryResp s) && bool_decide (dequeueAt s = None) then
          schedule_dequeue now (List.last (map snd l) when_to_send) s
        else Ok s in
      Ok (true, s, acts)
    else Ok (true, s, acts).

(** The event that ends a request's time. *)
Definition release (s : t) : res (t * list Action) :=
  assert! (isBusy s) in
  let s := with_busy false None s in
  if retryReq s then Ok (with_retryReq false s, [SendRetryReq]) else Ok (s, []).

(** [accepted] is the answer of the requestor to the response sent, which does not call
    the memory again before it returns. *)
Definition dequeue (now : Z) (accepted : bool) (s : t) : res (t * list Action) :=
  match packetQueue s with
  | [] => Err AssertFail
  | (p, _) :: l =>
      let s := with_retryResp (negb accepted) s in
      if accepted then
        let s := with_queue l s in
        match l with
        | [] => Ok (s, [SendTimingResp p])
        | (_, tick) :: _ =>
            let* s := schedule_dequeue now (Z.max tick now) s in Ok (s, [SendTimingResp p])
        end
      else Ok (s, [SendTimingResp p])
  end.

(** The dequeue event: it is no longer scheduled when it runs. *)
Definition dequeue_event (now : Z) (accepted : bool) (s : t) : res (t * list Action) :=
  dequeue now accepted (with_dequeueAt None s).

Definition recvRespRetry (now : Z) (accepted : bool) (s : t) : res (t * list Action) :=
  assert! (retryResp s) in dequeue now accepted s.

End memory.
End SimpleMemory.
