(* ===== verification/MemoryFacts.v ===== *)
(** * Main memory: properties

    The bytes a range of addresses holds, as a function of the address; what the memory
    does with the packets a cache sends it; and the protocol of its timing port. *)

From S2P Require Import Prelude BaseUtil MemCmd Request Packet CacheBlk ReplPolicy.
From S2P Require Import Indexing Tags Prefetch MSHR Queues CacheState BaseCache AddrRange Memory.
Local Open Scope Z_scope.

(** ** Bytes of a function on addresses *)
Module Bytes.

(** The [n] bytes from address [a] on. *)
Definition bytes_of (f : Z -> Z) (a n : Z) : list Z := map f (seqZ a n).

(** [f] with [d] written at [a]. *)
Definition write (f : Z -> Z) (a : Z) (d : list Z) (z : Z) : Z :=
  if (a <=? z) && (z <? a + Z.of_nat (length d)) then nth (Z.to_nat (z - a)) d 0 else f z.

Lemma length_bytes_of f a n : length (bytes_of f a n) = Z.to_nat n.
Proof. unfold bytes_of. by rewrite length_map, length_seqZ. Qed.

Lemma lookup_bytes_of f a n i :
  bytes_of f a n !! i = if decide (Z.of_nat i < n) then Some (f (a + Z.of_nat i)) else None.
Proof.
  unfold bytes_of. rewrite list_lookup_fmap. case_decide.
  - by rewrite lookup_seqZ_lt by lia.
  - by rewrite lookup_seqZ_ge by lia.
Qed.

(** A list whose bytes are those of [f]. *)
Lemma bytes_of_ext f a n l :
  length l = Z.to_nat n -> (forall i, (i < length l)%nat -> l !! i = Some (f (a + Z.of_nat i))) ->
  l = bytes_of f a n.
Proof.
  intros Hlen Hl. apply list_eq. intros i. rewrite lookup_bytes_of. case_decide.
  - apply Hl. lia.
  - apply lookup_ge_None. lia.
Qed.

Lemma slice_bytes_of f a n off m :
  0 <= off -> 0 <= m -> off + m <= n ->
  slice (Z.to_nat off) (Z.to_nat m) (bytes_of f a n) = bytes_of f (a + off) m.
Proof.
  intros Ho Hm Hn. apply list_eq. intros i. rewrite lookup_slice, !lookup_bytes_of.
  repeat case_decide; try lia; [|done]. do 2 f_equal. lia.
Qed.

Lemma bytes_of_write_in f a d b n :
  b <= a -> a + Z.of_nat (length d) <= b + n ->
  bytes_of (write f a d) b n = splice (Z.to_nat (a - b)) d (bytes_of f b n).
Proof.
  intros Hb Hn. symmetry. apply bytes_of_ext.
  - rewrite length_splice; rewrite length_bytes_of; lia.
  - intros i Hi. rewrite length_splice in Hi by (rewrite length_bytes_of; lia). rewrite length_bytes_of in Hi.
    rewrite lookup_splice by (rewrite length_bytes_of; lia). unfold write. case_decide.
    + rewrite (proj2 (Z.leb_le _ _)), (proj2 (Z.ltb_lt _ _)) by lia. cbn [andb].
      destruct (lookup_lt_is_Some_2 d (i - Z.to_nat (a - b))) as [x Hx]; [lia|]. rewrite Hx. f_equal.
      erewrite nth_lookup_Some; [done|]. replace (Z.to_nat (b + Z.of_nat i - a)) with (i - Z.to_nat (a - b))%nat by lia. done.
    + rewrite lookup_bytes_of. rewrite decide_True by lia. f_equal.
      destruct (Z.leb_spec a (b + Z.of_nat i)), (Z.ltb_spec (b + Z.of_nat i) (a + Z.of_nat (length d))); try done. lia.
Qed.

Lemma bytes_of_write_out f a d b n :
  b + n <= a \/ a + Z.of_nat (length d) <= b -> bytes_of (write f a d) b n = bytes_of f b n.
Proof.
  intros Hout. apply list_eq. intros i. rewrite !lookup_bytes_of. case_decide; [|done]. f_equal. unfold write.
  destruct (Z.leb_spec a (b + Z.of_nat i)), (Z.ltb_spec (b + Z.of_nat i) (a + Z.of_nat (length d))); try done. lia.
Qed.

End Bytes.

(** ** What the memory does with the packets of a cache *)
Module MemoryFacts.
Import Bytes AbstractMemory.

(** A memory of one contiguous range, with its bytes and no reservations. *)
Record plain (m : AbstractMemory.t) (bs : list Z) : Prop := {
  pl_masks : AddrRange.masks (range m) = [];
  pl_bytes : pmemAddr m = Some bs;
  pl_locks : lockedAddrList m = [];
  pl_start : 0 <= AddrRange._start (range m);
  pl_end : AddrRange._end (range m) < 2 ^ 64;
  pl_size : AddrRange._end (range m) = AddrRange._start (range m) + Z.of_nat (length bs)
}.

Definition inside (m : AbstractMemory.t) (a n : Z) : Prop :=
  AddrRange._start (range m) <= a /\ a + n <= AddrRange._end (range m).

(** A packet with room for, or with, [d]. *)
Definition holds (d : list Z) (p : Packet.t) : Prop :=
  Packet.valid p /\ Packet.hasDataPtr p = true /\ Packet.isMaskedWrite p = false /\
  Packet.data p = Some d /\ length d = Z.to_nat (Packet.size p) /\ 0 <= Packet.size p.

Lemma in_memory_ok p m bs :
  plain m bs -> Packet.valid p -> 0 <= Packet.size p -> inside m (Packet.addr p) (Packet.size p) ->
  in_memory p m = Ok true.
Proof.
  intros [Hm _ _ Hs He _] Hv Hn [Hlo Hhi]. unfold in_memory, getAddrRange.
  rewrite Packet.getAddr_valid, Packet.getSize_valid by done. cbn [rbind].
  unfold AddrRange.isSubset, AddrRange.RangeSize, AddrRange.make, AddrRange.interleaved, AddrRange.numMasks. rewrite Hm. simpl.
  rewrite (uwrap_small 64) by (split; lia). by rewrite !(proj2 (Z.leb_le _ _)) by lia.
Qed.

(** The bytes of a read. *)
Definition read_bytes (m : AbstractMemory.t) (bs : list Z) (a n : Z) : list Z :=
  slice (toHostAddr a m) (Z.to_nat n) bs.

Lemma setData_memory p m bs d :
  plain m bs -> holds d p -> inside m (Packet.addr p) (Packet.size p) ->
  Packet.setData (drop (toHostAddr (Packet.addr p) m) bs) p
    = Ok (Packet.with_data (Some (read_bytes m bs (Packet.addr p) (Packet.size p))) p).
Proof.
  intros Hp (Hv & Hptr & Hmask & Hd & Hlen & Hn) [Hlo Hhi]. pose proof (pl_size _ _ Hp).
  unfold Packet.setData, Packet.getPtr. rewrite Hptr, Hmask, Hd, Packet.getSize_valid by done. cbn [rbind negb].
  unfold toHostAddr. rewrite (proj2 (Nat.ltb_ge _ _)) by (rewrite length_drop; lia).
  rewrite (proj2 (Nat.ltb_ge _ _)) by lia. cbn [orb].
  rewrite Packet.splice_0_all by (rewrite length_take, length_drop; lia). done.
Qed.

(** A read from the cache above. *)
Lemma access_read p m bs d :
  plain m bs -> holds d p -> inside m (Packet.addr p) (Packet.size p) ->
  Packet.cacheResponding p = false -> Packet.isRead p = true -> Packet.isWrite p = false ->
  Packet.isLLSC p = false -> Packet.needsResponse p = true -> Packet.isRequest p = true ->
  access p m = (let* p := Packet.makeResponse
                  (Packet.with_data (Some (read_bytes m bs (Packet.addr p) (Packet.size p))) p) in Ok (p, m, [])).
Proof.
  intros Hp Hh Hin Hcr Hr Hw Hll Hnr Hreq. pose proof Hh as (Hv & _ & _ & _ & _ & Hn).
  unfold access. rewrite Hcr.
  assert (Packet.cmd_is p MemCmd.CleanEvict = false /\ Packet.cmd_is p MemCmd.WritebackClean = false /\
    Packet.cmd_is p MemCmd.SwapReq = false) as (-> & -> & ->).
  { unfold Packet.isRead, Packet.isWrite, Packet.cmd_is in *. by destruct (Packet.cmd p). }
  cbn [orb]. rewrite (in_memory_ok p m bs) by done. cbn [rbind]. rewrite Packet.getAddr_valid by done. cbn [rbind].
  rewrite Hr. unfold access_read. rewrite Hw, Hll. cbn [negb rbind]. rewrite (pl_bytes _ _ Hp).
  rewrite (setData_memory p m bs d) by done. cbn [rbind]. unfold Packet.needsResponse in *. simpl. by rewrite Hnr.
Qed.

(** The write-back of a dirty line. *)
Lemma access_writeback p m bs d :
  plain m bs -> holds d p -> inside m (Packet.addr p) (Packet.size p) ->
  Packet.cacheResponding p = false -> Packet.cmd p = MemCmd.WritebackDirty ->
  Request.isInstFetch (Packet.req p) = false ->
  access p m = Ok (p, with_pmemAddr (Some (splice (toHostAddr (Packet.addr p) m) d bs)) m, []).
Proof.
  intros Hp (Hv & Hptr & Hmask & Hd & Hlen & Hn) Hin Hcr Hc Hif. pose proof Hin as [Hlo Hhi]. pose proof (pl_size _ _ Hp).
  unfold access. rewrite Hcr. unfold Packet.cmd_is, Packet.isRead, Packet.isInvalidate, Packet.isClean, Packet.isWrite,
    Packet.needsResponse. rewrite Hc. cbn [MemCmd.eqb orb]. rewrite (in_memory_ok p m bs) by done. cbn [rbind].
  rewrite Packet.getAddr_valid by done. cbn [rbind]. simpl MemCmd.isRead. simpl.
  unfold access_write, writeOK. rewrite (pl_locks _ _ Hp). unfold Packet.isLLSC. rewrite Hc. simpl.
  rewrite (pl_bytes _ _ Hp). unfold Packet.writeData, Packet.getConstPtr.
  rewrite Hptr, Hmask, Hd, Packet.getSize_valid by done. cbn [rbind negb]. unfold toHostAddr.
  rewrite (proj2 (Nat.ltb_ge _ _)) by (rewrite length_drop; lia). rewrite (proj2 (Nat.ltb_ge _ _)) by lia.
  cbn [orb rbind]. rewrite Hif. simpl. rewrite Hc. simpl. rewrite (take_ge d) by lia. do 4 f_equal.
  unfold splice. simpl. by rewrite drop_drop.
Qed.

Lemma access_clean_evict p m :
  Packet.cacheResponding p = false -> Packet.cmd p = MemCmd.CleanEvict \/ Packet.cmd p = MemCmd.WritebackClean ->
  access p m = Ok (p, m, []).
Proof. intros Hcr Hc. unfold access, Packet.cmd_is. rewrite Hcr. by destruct Hc as [-> | ->]. Qed.

End MemoryFacts.
