(* ===== verification/MemoryProtocol.v ===== *)
(** * Main memory: the protocol of its timing port

    The events of the simple memory in time, the invariant that keeps them from failing
    an assertion, and the order in which responses leave. *)

From S2P Require Import Prelude BaseUtil MemCmd Request Packet CacheBlk ReplPolicy.
From S2P Require Import Indexing Tags Prefetch MSHR Queues CacheState BaseCache AddrRange Memory MemoryFacts.
Local Open Scope Z_scope.

Module MemoryProtocol.
Import SimpleMemory.

Section protocol.
Context `{RandomSource}.
Variable C : Config.

(** What happens at the port: a request arrives, the time of a request is over, a
    response is due, or the requestor that refused a response asks for it again. *)
Inductive event :=
  | Req (p : Packet.t)
  | Release
  | Dequeue (accepted : bool)
  | RespRetry (accepted : bool).

Definition step (now : Z) (e : event) (s : t) : res (t * list Action) :=
  match e with
  | Req p => let* (_, s, acts) := recvTimingReq C now p s in Ok (s, acts)
  | Release => release s
  | Dequeue accepted => dequeue_event now accepted s
  | RespRetry accepted => recvRespRetry now accepted s
  end.

(** The two events happen when they are scheduled, and a retry follows a refusal. *)
Definition enabled (now : Z) (e : event) (s : t) : Prop :=
  match e with
  | Req _ => True
  | Release => releaseAt s = Some now
  | Dequeue _ => dequeueAt s = Some now
  | RespRetry _ => retryResp s = true
  end.

(** The response a request will get: what the memory makes of the packet. *)
Definition answers (e : event) (s : t) : list Packet.t :=
  match e with
  | Req p =>
      if retryReq s || isBusy s || negb (Packet.needsResponse p) then []
      else match AbstractMemory.access (Packet.with_payloadDelay 0 (Packet.with_headerDelay 0 p)) (mem s) with
           | Ok (q, _, _) => [q]
           | Err _ => []
           end
  | _ => []
  end.

(** The response the requestor has taken. *)
Definition delivered (e : event) (s : t) : list Packet.t :=
  match e with
  | Dequeue true | RespRetry true => take 1 (map fst (packetQueue s))
  | _ => []
  end.

(** What has happened up to a time: the responses made and the responses delivered. *)
Inductive history (s0 : t) : Z -> list Packet.t -> list Packet.t -> t -> Prop :=
  | history_start : history s0 0 [] [] s0
  | history_later now now' ins outs s :
      history s0 now ins outs s -> now <= now' ->
      (forall at_, releaseAt s = Some at_ -> now' <= at_) ->
      (forall at_, dequeueAt s = Some at_ -> now' <= at_) -> history s0 now' ins outs s
  | history_step now ins outs s e s' acts :
      history s0 now ins outs s -> enabled now e s -> step now e s = Ok (s', acts) ->
      history s0 now (ins ++ answers e s) (outs ++ delivered e s) s'.

(** Busy while the release is scheduled; a refused request waits for the release; a
    response is due at a time not before its own, or was refused and waits for a retry. *)
Record ok (now : Z) (s : t) : Prop := {
  ok_busy : isBusy s = true <-> is_Some (releaseAt s);
  ok_release : forall at_, releaseAt s = Some at_ -> now <= at_;
  ok_retryReq : retryReq s = true -> isBusy s = true;
  ok_retryResp : retryResp s = true -> packetQueue s <> [] /\ dequeueAt s = None;
  ok_dequeue : forall at_, dequeueAt s = Some at_ ->
    now <= at_ /\ exists p tick l, packetQueue s = (p, tick) :: l /\ tick <= at_;
  ok_due : packetQueue s <> [] -> retryResp s = false -> is_Some (dequeueAt s)
}.

Lemma ok_later now now' s :
  ok now s -> (forall at_, releaseAt s = Some at_ -> now' <= at_) ->
  (forall at_, dequeueAt s = Some at_ -> now' <= at_) -> ok now' s.
Proof. intros [] Hr Hd. constructor; auto. intros at_ Ha. split; [by apply Hd|]. by apply ok_dequeue0. Qed.

(** ** The queue *)

Lemma place_spec p w l : forall i j, (i < length l)%nat -> place p w l i = Ok j ->
  (j <= i)%nat /\ forall n q tick, (j < n <= i)%nat -> l !! n = Some (q, tick) -> w < tick /\ Packet.matchAddr_pkt p q = Ok false.
Proof.
  induction i as [|i IH]; intros j Hi Hp; simpl in Hp.
  - injection Hp as <-. split; [lia|]. intros. lia.
  - destruct (lookup_lt_is_Some_2 l (S i) Hi) as [[q tick] Hl]. rewrite Hl in Hp.
    destruct (Z.ltb_spec w tick) as [Hw|]; [|injection Hp as <-; split; [lia|intros; lia]].
    destruct (Packet.matchAddr_pkt p q) as [[]|] eqn:Em; simpl in Hp; [injection Hp as <-; split; [lia|intros; lia]| |done].
    destruct (IH j ltac:(lia) Hp) as [Hj Hs]. split; [lia|]. intros n q' tick' Hn Hl'.
    destruct (decide (n = S i)) as [->|]; [|apply (Hs n); (done || lia)]. rewrite Hl in Hl'. by injection Hl' as -> ->.
Qed.

(** A response is put behind the first, and only in front of later ones of other addresses. *)
Lemma enqueue_spec p w l l' :
  enqueue p w l = Ok l' ->
  exists l1 l2, l = l1 ++ l2 /\ l' = l1 ++ (p, w) :: l2 /\ (l <> [] -> l1 <> []) /\
    Forall (fun x => w < snd x /\ Packet.matchAddr_pkt p (fst x) = Ok false) l2.
Proof.
  unfold enqueue. destruct l as [|x l]; [intros [= <-]; by exists [], []|].
  destruct (place p w (x :: l) _) as [i|] eqn:Ep; [|done]. cbn [rbind]. intros Hl. injection Hl as <-.
  apply place_spec in Ep as [Hi Hs]; [|simpl; lia].
  exists (take (S i) (x :: l)), (drop (S i) (x :: l)). rewrite take_drop. split; [done|]. split; [done|]. split; [done|].
  apply Forall_lookup. intros n [q tick] Hn. rewrite lookup_drop in Hn. pose proof (lookup_lt_Some _ _ _ Hn).
  simpl. apply (Hs (S i + n)%nat); [simpl in *; lia|done].
Qed.

Lemma filter_none {A} (P : A -> Prop) `{!forall x, Decision (P x)} (l : list A) : Forall (fun x => ~ P x) l -> filter P l = [].
Proof. induction 1 as [|x l Hx _ IH]; [done|]. by rewrite filter_cons_False. Qed.

(** Responses of one address, security state and domain. *)
Definition of_line (a : Z) (secure : bool) (did : Z) (p : Packet.t) : bool :=
  match Packet.matchAddr a secure did p with Ok b => b | Err _ => false end.

Lemma of_line_match a sec did p q :
  of_line a sec did p = true -> Packet.matchAddr_pkt p q = Packet.matchAddr a sec did q.
Proof.
  unfold of_line, Packet.matchAddr at 1, Packet.matchAddr_pkt. destruct (Packet.getAddr p) as [x|]; simpl; [|done].
  destruct (Z.eqb_spec x a) as [->|]; [|done]. destruct (Packet.isSecure p) as [b|]; simpl; [|done].
  destruct (Bool.eqb b sec) eqn:Eb; [|done]. apply eqb_prop in Eb as ->.
  destruct (Packet.getDomainID p) as [d|]; simpl; [|done]. by intros ->%Z.eqb_eq.
Qed.

Lemma enqueue_in_order p w l l' a sec did :
  enqueue p w l = Ok l' ->
  filter (fun q => of_line a sec did q = true) (map fst l')
    = filter (fun q => of_line a sec did q = true) (map fst l) ++ filter (fun q => of_line a sec did q = true) [p].
Proof.
  intros (l1 & l2 & -> & -> & _ & Hf)%enqueue_spec. rewrite !map_app, !filter_app. simpl. rewrite <- app_assoc. f_equal.
  rewrite !filter_cons, filter_nil. case_decide as Hp; [|by rewrite app_nil_r].
  assert (filter (fun q => of_line a sec did q = true) (map fst l2) = []) as ->; [|done]. apply filter_none.
  apply Forall_map. eapply Forall_impl; [exact Hf|]. intros [q tick] [_ Hq]. simpl in *.
  rewrite (of_line_match _ _ _ _ q Hp) in Hq. unfold of_line. by rewrite Hq.
Qed.

(** ** The steps *)

Definition line_of a sec did (l : list Packet.t) : list Packet.t := filter (fun q => of_line a sec did q = true) l.

(** What stays the same in the queue and what changes in a step, line by line. *)
Definition conserves (e : event) (s s' : t) : Prop := forall a sec did,
  line_of a sec did (map fst (packetQueue s) ++ answers e s)
    = line_of a sec did (delivered e s ++ map fst (packetQueue s')).

Lemma getLatency_frame s lat s' : getLatency C s = Ok (lat, s') -> s' = with_rng (rng s') s.
Proof.
  unfold getLatency. destruct (truthy _); [|by intros [= <- <-]; destruct s].
  destruct (RandomMT.random _ _ _) as [[v g]|]; simpl; [|done]. by intros [= <- <-].
Qed.

Lemma recvAtomic_frame p s lat q s' acts :
  recvAtomic C p s = Ok (lat, q, s', acts) ->
  exists m g cleared, AbstractMemory.access p (mem s) = Ok (q, m, cleared) /\ s' = with_rng g (with_mem m s) /\
    Packet.cacheResponding p = false.
Proof.
  unfold recvAtomic. destruct (Packet.cacheResponding p) eqn:Ec; [done|].
  destruct (AbstractMemory.access p (mem s)) as [[[q' m] cl]|]; [|done]. cbn [rbind].
  destruct (getLatency C _) as [[lat' s1]|] eqn:El; [|done]. cbn [rbind]. intros [= <- <- <- <-].
  apply getLatency_frame in El. eexists _, _, _. split; [done|]. by rewrite El at 1.
Qed.

(** What an accepted request leaves in the queue: nothing, or its response, with a
    dequeue scheduled if none was and no refused response waits. *)
Definition queued (now : Z) (p : Packet.t) (s s' : t) : Prop :=
  if Packet.needsResponse p then
    exists q w m cleared,
      AbstractMemory.access (Packet.with_payloadDelay 0 (Packet.with_headerDelay 0 p)) (mem s) = Ok (q, m, cleared) /\
      enqueue q w (packetQueue s) = Ok (packetQueue s') /\
      if negb (retryResp s) && bool_decide (dequeueAt s = None)
      then exists at_, dequeueAt s' = Some at_ /\ now <= at_ /\ at_ = List.last (map snd (packetQueue s')) w
      else dequeueAt s' = dequeueAt s
  else packetQueue s' = packetQueue s /\ dequeueAt s' = dequeueAt s.

Lemma accepted_inv now p s b s' acts :
  retryReq s = false -> isBusy s = false -> releaseAt s = None -> recvTimingReq C now p s = Ok (b, s', acts) ->
  retryReq s' = false /\ retryResp s' = retryResp s /\
  (isBusy s' = true <-> is_Some (releaseAt s')) /\ (forall at_, releaseAt s' = Some at_ -> now <= at_) /\ queued now p s s'.
Proof.
  intros Hrq Hb Hra Hr. unfold recvTimingReq in Hr. rewrite Hrq, Hb in Hr.
  destruct (Packet.cacheResponding p); [done|]. destruct (negb _); [done|].
  set (p0 := Packet.with_payloadDelay 0 _) in Hr. destruct (Packet.getSize p0) as [n|]; [|done]. cbn [rbind] in Hr.
  destruct (if truthy (duration C n) then _ else _) as [s1|] eqn:Es; [|done]. cbn [rbind] in Hr.
  assert (retryReq s1 = false /\ retryResp s1 = retryResp s /\ packetQueue s1 = packetQueue s /\ mem s1 = mem s /\
    dequeueAt s1 = dequeueAt s /\ (isBusy s1 = true <-> is_Some (releaseAt s1)) /\
    (forall at_, releaseAt s1 = Some at_ -> now <= at_)) as (E1 & E2 & E3 & E4 & E5 & E6 & E7).
  { destruct (truthy (duration C n)).
    - unfold schedule_release in Es. rewrite Hra in Es. simpl in Es. destruct (Z.leb_spec now (u64 (now + duration C n))); [|done].
      injection Es as <-. simpl. split_and!; try done. by intros ? [= <-].
    - injection Es as <-. rewrite Hra, Hb. by split_and!. }
  destruct (recvAtomic C p0 s1) as [[[[lat q] s2] a2]|] eqn:Ea; [|done]. cbn [rbind] in Hr.
  apply recvAtomic_frame in Ea as (m & g & cl & Hacc & -> & _). unfold queued. fold p0. rewrite E4 in Hacc.
  change (Packet.needsResponse p0) with (Packet.needsResponse p) in Hr. destruct (Packet.needsResponse p).
  - destruct (Packet.isResponse q); [|done]. destruct (getLatency C _) as [[lat' s3]|] eqn:El; [|done]. cbn [rbind] in Hr.
    apply getLatency_frame in El. set (w := u64 (now + _ + lat')) in Hr. rewrite El in Hr. simpl in Hr. rewrite E3 in Hr.
    destruct (enqueue q w (packetQueue s)) as [l|] eqn:Eq; [|done]. cbn [rbind] in Hr. rewrite E2, E5 in Hr.
    destruct (negb (retryResp s) && bool_decide (dequeueAt s = None)).
    + unfold schedule_dequeue in Hr. destruct (Z.leb_spec now (List.last (map snd l) w)); [|done]. cbn [rbind] in Hr.
      injection Hr as <- <- <-. simpl. split_and!; try done. eexists _, w, _, _. split; [done|]. split; [done|]. by eexists.
    + injection Hr as <- <- <-. simpl. split_and!; try done. by eexists _, w, _, _.
  - injection Hr as <- <- <-. simpl. by split_and!.
Qed.

Lemma queued_ok now p s s' :
  ok now s -> retryReq s = false -> isBusy s = false -> retryReq s' = false -> retryResp s' = retryResp s ->
  (isBusy s' = true <-> is_Some (releaseAt s')) -> (forall at_, releaseAt s' = Some at_ -> now <= at_) ->
  queued now p s s' -> ok now s' /\ conserves (Req p) s s'.
Proof.
  intros Hok Hrq Hb Hrq' Hrr Hbusy Hrel Hq. unfold queued, conserves, answers in *. rewrite Hrq, Hb. simpl.
  destruct (Packet.needsResponse p); simpl.
  - destruct Hq as (q & w & m & cl & Hacc & Henq & Hd). rewrite Hacc. split.
    2: { intros a sec did. unfold line_of. rewrite filter_app. symmetry. by apply (enqueue_in_order q w). }
    apply enqueue_spec in Henq as (l1 & l2 & Hl & Hl' & Hne & _).
    assert (packetQueue s' <> []) as Hne' by (rewrite Hl'; by destruct l1).
    assert (forall x l, packetQueue s = x :: l -> exists l3, packetQueue s' = x :: l3) as Hfront.
    { intros x l Hx. destruct l1 as [|y l1]; [by destruct Hne; [rewrite Hx|]|]. rewrite Hl' in *. rewrite Hl in Hx.
      injection Hx as <- _. by eexists. }
    destruct (negb (retryResp s) && bool_decide (dequeueAt s = None)) eqn:Ed.
    + apply andb_prop in Ed as [Er%negb_true_iff Ed%bool_decide_eq_true]. destruct Hd as (at_ & Hd & Hnow & Hlast).
      assert (packetQueue s = []) as Hnil.
      { destruct (decide (packetQueue s = [])); [done|]. destruct (ok_due _ _ Hok n Er) as [? ?]. congruence. }
      destruct (app_eq_nil l1 l2) as [-> ->]; [congruence|]. simpl in Hl'. rewrite Hl' in Hlast. simpl in Hlast.
      constructor; try done; rewrite ?Hrq', ?Hrr, ?Er; try done.
      rewrite Hd. intros ? [= <-]. split; [done|]. exists q, w, []. split; [done|]. lia.
    + constructor; try done; rewrite ?Hrq', ?Hrr, ?Hd; try done.
      * intros Hrr'. split; [done|]. by apply (ok_retryResp _ _ Hok).
      * intros at_ Hat. destruct (ok_dequeue _ _ Hok at_ Hat) as (Hnow & p' & tick & l & Hx & Ht).
        split; [done|]. destruct (Hfront _ _ Hx) as [l3 Hl3]. by exists p', tick, l3.
      * intros _ Hrr'. rewrite Hrr' in Ed. simpl in Ed. apply bool_decide_eq_false in Ed. by apply not_eq_None_Some.
  - destruct Hq as [Hq Hd]. rewrite Hq, app_nil_r. split; [|done].
    destruct Hok. constructor; rewrite ?Hq, ?Hd, ?Hrr, ?Hrq'; done.
Qed.

Lemma req_step now p s s' acts :
  ok now s -> step now (Req p) s = Ok (s', acts) -> ok now s' /\ conserves (Req p) s s'.
Proof.
  intros Hok Hstep. simpl in Hstep. destruct (recvTimingReq C now p s) as [[[b s1] a1]|] eqn:Er; [|done].
  cbn [rbind] in Hstep. injection Hstep as <- <-.
  destruct (retryReq s || isBusy s) eqn:Eb.
  - unfold recvTimingReq in Er. destruct (Packet.cacheResponding p); [done|]. destruct (negb _); [done|].
    unfold conserves, answers, delivered. rewrite Eb. simpl.
    destruct (retryReq s) eqn:Erq; simpl in Eb; rewrite ?Eb in Er; injection Er as <- <- <-; simpl; (split; [|intros; by rewrite app_nil_r]); [done|].
    destruct Hok. by constructor.
  - apply orb_false_elim in Eb as [Erq Eb].
    assert (releaseAt s = None) as Hra by (apply eq_None_not_Some; intros ?%(ok_busy _ _ Hok); congruence).
    destruct (accepted_inv now p s b s1 a1 Erq Eb Hra Er) as (? & ? & ? & ? & ?). by apply queued_ok.
Qed.

(** The other events do not fail. *)
Lemma release_step now s :
  ok now s -> enabled now Release s -> exists s' acts, step now Release s = Ok (s', acts) /\ ok now s' /\ conserves Release s s'.
Proof.
  intros Hok He. simpl in *. unfold release. rewrite (proj2 (ok_busy _ _ Hok)) by (rewrite He; by eexists).
  unfold conserves. simpl. destruct (retryReq s) eqn:Er; eexists _, _; (split; [reflexivity|]); (split; [|intros; by rewrite app_nil_r]);
    destruct Hok; constructor; simpl; try done; try (by split; [|intros []]); congruence.
Qed.

Lemma dequeue_step now accepted s :
  dequeueAt s = None -> packetQueue s <> [] -> (isBusy s = true <-> is_Some (releaseAt s)) ->
  (forall at_, releaseAt s = Some at_ -> now <= at_) -> (retryReq s = true -> isBusy s = true) ->
  exists s' acts, dequeue now accepted s = Ok (s', acts) /\ ok now s' /\
    map fst (packetQueue s) = (if accepted then take 1 (map fst (packetQueue s)) else []) ++ map fst (packetQueue s').
Proof.
  intros Hd Hq Hb Hr Hrq. unfold dequeue. destruct (packetQueue s) as [|[p tick] l] eqn:El; [done|]. destruct accepted; simpl.
  - destruct l as [|[p' tick'] l].
    + eexists _, _. split; [done|]. split; [|done]. constructor; simpl; rewrite ?Hd; done.
    + unfold schedule_dequeue. rewrite (proj2 (Z.leb_le now (Z.max tick' now))) by lia. cbn [rbind].
      eexists _, _. split; [done|]. split; [|done]. constructor; simpl; try done.
      intros ? [= <-]. split; [lia|]. exists p', tick', l. split; [done|lia].
  - eexists _, _. split; [done|]. simpl. rewrite El. split; [|done]. constructor; simpl; rewrite ?Hd, ?El; done.
Qed.

Lemma other_step now e s :
  ok now s -> enabled now e s -> (forall p, e <> Req p) ->
  exists s' acts, step now e s = Ok (s', acts) /\ ok now s' /\ conserves e s s'.
Proof.
  intros Hok He Hn. destruct e as [p| |accepted|accepted]; [by destruct (Hn p)|by apply release_step| |].
  - simpl in He. destruct (ok_dequeue _ _ Hok _ He) as (_ & p & tick & l & Hq & _).
    destruct (dequeue_step now accepted (with_dequeueAt None s)) as (s' & acts & Hs & Hok' & Hl);
      [done|simpl; by rewrite Hq|by destruct Hok..|].
    exists s', acts. split; [done|]. split; [done|]. intros a sec did. simpl in *. rewrite app_nil_r. rewrite Hl at 1. by destruct accepted.
  - simpl in He. destruct (ok_retryResp _ _ Hok He) as [Hq Hd].
    destruct (dequeue_step now accepted s) as (s' & acts & Hs & Hok' & Hl); [done|done|by destruct Hok..|].
    exists s', acts. simpl. unfold recvRespRetry. rewrite He. split; [done|]. split; [done|]. intros a sec did. simpl in *.
    rewrite app_nil_r. rewrite Hl at 1. by destruct accepted.
Qed.

Lemma history_conserves s0 now ins outs s :
  ok 0 s0 -> packetQueue s0 = [] -> history s0 now ins outs s ->
  ok now s /\ forall a sec did, line_of a sec did ins = line_of a sec did (outs ++ map fst (packetQueue s)).
Proof.
  intros Hok0 Hq0. induction 1 as [|now now' ins outs s Hh [Hok Hl] Hle Hr Hd|now ins outs s e s' acts Hh [Hok Hl] He Hs].
  - split; [done|]. intros. by rewrite Hq0.
  - split; [|done]. by eapply ok_later.
  - assert (ok now s' /\ conserves e s s') as [Hok' Hc].
    { destruct e as [p| | |]; [by eapply req_step|..];
        (destruct (other_step now _ s Hok He) as (s1 & a1 & Hs1 & ? & ?); [done|]; rewrite Hs1 in Hs; by injection Hs as <- <-). }
    split; [done|]. intros a sec did. specialize (Hc a sec did). specialize (Hl a sec did). unfold line_of in *.
    rewrite !filter_app in *. rewrite Hl, <- !app_assoc. f_equal. done.
Qed.

(** C37. The timing port of the memory is a queue. Over any history of requests,
    releases, responses, refusals and retries from an idle memory: for each address,
    security state and domain the responses made are, in order, those delivered followed
    by those still queued, so none is lost, repeated or overtaken by a later one of its
    line; a response that waits is either scheduled, not before it is due, or was refused
    and is sent again on the retry; a request is refused only while the memory is busy,
    with the end of that time scheduled; and no event other than a request can fail an
    assertion. *)
Theorem memory_port_fifo m g now ins outs s :
  history (make m g) now ins outs s ->
  ok now s /\
  (forall a sec did, line_of a sec did ins = line_of a sec did (outs ++ map fst (packetQueue s))) /\
  (forall e, enabled now e s -> (forall p, e <> Req p) -> exists s' acts, step now e s = Ok (s', acts)).
Proof.
  intros Hh. assert (ok 0 (make m g)) as Hok0 by (constructor; simpl; try done; by split; [|intros []]).
  destruct (history_conserves _ _ _ _ _ Hok0 eq_refl Hh) as [Hok Hl]. split; [done|]. split; [done|].
  intros e He Hn. destruct (other_step now e s Hok He Hn) as (s' & acts & Hs & _). by exists s', acts.
Qed.

End protocol.

(** ** A concrete memory *)

(** 64 bytes, a latency of 100 ticks and one tick per byte. *)
Definition small : t := make (AbstractMemory.mk (AddrRange.make 0 64) (Some (map Z.of_nat (seq 0 64))) []) 0.
Definition config : Config := mkConfig 100 0 (fun n => n).

Definition read (did addr : Z) : res Packet.t :=
  let* p := Packet.make 0 (Request.setDomainID did (Request.make 0 addr 8 0 0)) MemCmd.ReadReq in Packet.allocate p.
Definition the_packet (r : res Packet.t) : Packet.t :=
  match r with Ok p => p | Err _ => Packet.make_blk 0 (Request.make 0 0 0 0 0) MemCmd.ReadReq 64 end.
Definition read16 : Packet.t := Eval vm_compute in the_packet (read 3 16).
Definition answer16 : Packet.t := Eval vm_compute in
  match answers (Req read16) small with [q] => q | _ => read16 end.
Definition the_state (r : res (t * list Action)) : t := match r with Ok (s, _) => s | Err _ => small end.
Definition busy : t := Eval vm_compute in the_state (step config 0 (Req read16) small).
Definition idle : t := Eval vm_compute in the_state (step config 8 Release busy).
Definition done_ : t := Eval vm_compute in the_state (step config 100 (Dequeue true) idle).

Lemma served : history config small 100 [answer16] [answer16] done_.
Proof.
  apply (history_step config small 100 [answer16] [] idle (Dequeue true) done_ [SendTimingResp answer16]); [|reflexivity..].
  apply (history_later config small 8); [|lia|done|by intros ? [= <-]].
  apply (history_step config small 8 [answer16] [] busy Release idle []); [|reflexivity..].
  apply (history_later config small 0); [|lia|by intros ? [= <-]|by intros ? [= <-]].
  apply (history_step config small 0 [] [] small (Req read16) busy []); [constructor|done|reflexivity].
Qed.

Lemma memory_port_fifo_witness :
  Packet.data answer16 = Some [16; 17; 18; 19; 20; 21; 22; 23] /\
  ok 100 done_ /\ line_of 16 false 3 [answer16] = line_of 16 false 3 ([answer16] ++ map fst (packetQueue done_)).
Proof.
  split; [reflexivity|].
  destruct (memory_port_fifo config (mem small) 0 100 [answer16] [answer16] done_ served) as (Hok & Hl & _).
  split; [exact Hok|apply Hl].
Defined.

(** The comparison of addresses includes the domain: a response goes in front of an
    earlier one of the same address when another domain waits for that one. *)
Lemma same_address_overtaken :
  let first := the_packet (read 3 0) in
  let earlier := the_packet (read 3 16) in
  let later := the_packet (read 4 16) in
  enqueue later 100 [(first, 50); (earlier, 200)] = Ok [(first, 50); (later, 100); (earlier, 200)].
Proof. reflexivity. Qed.

End MemoryProtocol.
