(* ===== verification/Transparency.v ===== *)
(** * A cache is transparent: atomic accesses over main memory

    A first-level cache over the main memory, accessed in atomic mode, behaves as the
    memory alone would. The simulation relation [sim] says how the bytes seen by the
    core ([f], a function on addresses) are spread over the lines of the cache, the bytes
    of the memory, and a write-back that is under way. *)

From S2P Require Import Prelude BaseUtil MemCmd Request Packet CacheBlk ReplPolicy ReplPolicyFacts.
From S2P Require Import Indexing IndexingFacts Tags TagsFacts Prefetch MSHR Queues CacheState BaseCache.
From S2P Require Import CoherentCache CacheModes CacheLogic StoreSpec AddrRange Memory MemoryFacts CacheExamples.
Local Open Scope Z_scope.

Module MemorySystem.
Import CacheState.

Section system.
Context `{RandomSource}.
Variables (MC : SimpleMemory.Config) (m0 : SimpleMemory.t).

(** The memory after what the cache has sent it. *)
Definition mem_step (m : SimpleMemory.t) (a : Action) : res SimpleMemory.t :=
  match a with
  | SendAtomic p => let* (_, _, m, _) := SimpleMemory.recvAtomic MC p m in Ok m
  | SendFunctional p => let* (_, m) := SimpleMemory.recvFunctional p m in Ok m
  | _ => Ok m
  end.
Definition mem_after (sent : list Action) : res SimpleMemory.t := foldM mem_step sent m0.

(** The memory as the component below the cache; nothing is above it. *)
Definition over_memory : Peers := {|
  sendAtomic sent p :=
    match (let* m := mem_after sent in SimpleMemory.recvAtomic MC p m) with
    | Ok (lat, p, _, _) => (lat, p)
    | Err _ => (0, p)
    end;
  sendAtomicSnoop _ p := p;
  cpuSatisfy p := (false, p);
  memSatisfy p := (false, p);
  sendFunctional p := p;
  sendFunctionalSnoop p := p
|}.

Lemma mem_after_snoc sent a m : mem_after sent = Ok m -> mem_after (sent ++ [a]) = mem_step m a.
Proof. intros Hm. unfold mem_after. rewrite foldM_app. unfold mem_after in Hm. rewrite Hm. simpl. by destruct (mem_step m a). Qed.

(** Sending a packet that the memory serves. *)
Lemma send_run {T P} sent p m lat p' m' acts (s : CacheState.t T P) :
  out s = sent -> mem_after sent = Ok m -> SimpleMemory.recvAtomic MC p m = Ok (lat, p', m', acts) ->
  BaseModes.port_sendAtomic over_memory p s = Ok ((lat, p'), with_out (sent ++ [SendAtomic p]) s) /\
  mem_after (sent ++ [SendAtomic p]) = Ok m'.
Proof.
  intros <- Hm Hp. split.
  - unfold BaseModes.port_sendAtomic, bind, gets, emit, modify, ret. cbn [rbind]. simpl. rewrite Hm. cbn [rbind]. by rewrite Hp.
  - rewrite (mem_after_snoc _ _ m Hm). simpl. by rewrite Hp.
Qed.

End system.
End MemorySystem.

Module Transparency.
Import CacheState BaseCache BaseModes CacheLogic StoreSpec Bytes MemoryFacts MemorySystem.

(** ** Running member functions *)

Section run.
Context {T P : Type}.

Lemma bind_run {A B} (m : CacheState.M T P A) (k : A -> CacheState.M T P B) s a s1 :
  m s = Ok (a, s1) -> bind m k s = k a s1.
Proof. intros Hm. unfold bind. by rewrite Hm. Qed.

Lemma lift_run {A} (r : res A) a (s : CacheState.t T P) : r = Ok a -> lift r s = Ok (a, s).
Proof. by intros ->. Qed.
End run.

(** Runs the next call of a member function by an equation. *)
Ltac run H := rewrite (bind_run _ _ _ _ _ H); cbn beta iota.
Ltac run_lift H := rewrite (bind_run _ _ _ _ _ (lift_run _ _ _ H)); cbn beta iota.

(** Evaluates the tests of a known command. *)
Ltac eval_cmd t := let b := eval vm_compute in t in change t with b.
Ltac cmd_step :=
  match goal with
  | |- context [MemCmd.eqb ?c ?d] => is_constructor c; is_constructor d; eval_cmd (MemCmd.eqb c d)
  | |- context [?f ?c] => is_constructor c; lazymatch type of c with MemCmd.Command =>
      lazymatch type of (f c) with bool => eval_cmd (f c) | MemCmd.Command => eval_cmd (f c) end end
  end.
Ltac cmd_eval := repeat cmd_step; cbn [negb andb orb].

Section cache.
Context {T P : Type} `{MapStore T} `{Prefetcher P} `{RandomSource}.
Abbreviation S := (CacheState.t T P).
Variables (C : Config) (E : Env) (MC : SimpleMemory.Config) (m0 : SimpleMemory.t) (k : Z) (sigma : bool) (dom : Z).

(** ** Changing one line *)

(** From [s] to [s'] only line [e] has changed, to [x]. *)
Definition line_step (e : nat) (x : CacheBlk.t) (s s' : S) : Prop :=
  exists g, s' = with_tags g s /\ ls_ok g /\ same_but e (tags s) g /\
    view e g = (Ok x, ts_regenerateBlkAddr e (tags s)).

Lemma line_step_trans e x y s s1 s2 : line_step e x s s1 -> line_step e y s1 s2 -> line_step e y s s2.
Proof.
  intros (g & -> & Hok & [Hc Hsh Hix Ho] & Hv) (g' & -> & Hok' & [Hc' Hsh' Hix' Ho'] & Hv'). exists g'. simpl in *.
  split; [by destruct s|]. split; [done|]. split; [|rewrite Hv'; unfold view in Hv; congruence].
  constructor; [congruence..| |]; [intros a; by rewrite Hix', Hix|]. intros e' Hne. rewrite Ho', Ho by done. done.
Qed.

Lemma line_step_get e x s s' : line_step e x s s' -> getB (InTags e) s' = Ok (x, s').
Proof. intros (g & -> & _ & _ & [= Hx _]). simpl. by rewrite Hx. Qed.

Lemma line_step_addr e x s s' a :
  line_step e x s s' -> ts_regenerateBlkAddr e (tags s) = Ok a -> regenerateBlkAddr (InTags e) s' = Ok (a, s').
Proof. intros (g & -> & _ & _ & [= _ Hv]) Ha. simpl. by rewrite Hv, Ha. Qed.

Lemma updB_run f e x x' (s : S) :
  ls_ok (tags s) -> ts_getBlk e (tags s) = Ok x -> f x = Ok x' -> place x' = place x ->
  exists s', updB f (InTags e) s = Ok (tt, s') /\ line_step e x' s s'.
Proof.
  intros Hok Hx Hf Hp. destruct (ls_upd f (tags s) e x x' Hok Hx Hf Hp) as (g & Hg & Hok' & Hsame & Hv).
  exists (with_tags g s). simpl. rewrite Hg. split; [done|]. by exists g.
Qed.

(** The same, after a change. *)
Lemma updB_step f e x x' (s s1 : S) :
  line_step e x s s1 -> f x = Ok x' -> place x' = place x ->
  exists s', updB f (InTags e) s1 = Ok (tt, s') /\ line_step e x' s s'.
Proof.
  intros Hs Hf Hp. pose proof Hs as (g & -> & Hok & _ & [= Hx _]).
  destruct (updB_run f e x x' (with_tags g s) Hok Hx Hf Hp) as (s' & Hu & Hs').
  exists s'. split; [done|]. by eapply line_step_trans.
Qed.

(** ** Requests *)

(** A plain access of the core to part of a line, with data [d]. *)
Record request (c : MemCmd.Command) (d : list Z) (p : Packet.t) : Prop := {
  rq_cmd : Packet.cmd p = c;
  rq_holds : holds d p;
  rq_word : in_word 64 (Packet.addr p);
  rq_size : 0 < Packet.size p < 2 ^ k;
  rq_line : Packet.addr p mod 2 ^ k + Packet.size p <= 2 ^ k;
  rq_cached : Request.isUncacheable (Packet.req p) = false;
  rq_plain : Request.isCacheMaintenance (Packet.req p) = false;
  rq_known : knownRequestor C p = true;
  rq_dom : Packet.getDomainID p = Ok dom;
  rq_sec : Packet._isSecure p = sigma;
  rq_paddr : Request.hasPaddr (Packet.req p) = true /\ Request._paddr (Packet.req p) = Packet.addr p;
  rq_rsec : Request.isSecure (Packet.req p) = sigma;
  rq_flags : Packet.cacheResponding p = false /\ Packet.hasSharers p = false
}.

Hypothesis k_range : 0 <= k < 32.
Hypothesis blk_size : blkSize C = 2 ^ k.

Lemma rq_carries c d p : request c d p -> Packet.carries k d p.
Proof.
  intros [Hc (Hv & Hptr & Hmask & Hd & Hlen & Hn) Hw Hs Hl _ _ _ _ _ _ _ _]. unfold Packet.carries. split_and!; try done; lia.
Qed.

(** The line of memory an address is in. *)
Definition line_of (a : Z) : Z := a - a mod 2 ^ k.

Lemma line_of_bounds a : line_of a <= a < line_of a + 2 ^ k.
Proof. unfold line_of. pose proof (Z.mod_pos_bound a (2 ^ k) (pow2_pos k ltac:(lia))). lia. Qed.

(** ** Satisfying a request from a line *)

Lemma satisfy_read_run d p e x (s : S) :
  request MemCmd.ReadReq d p -> ts_getBlk e (tags s) = Ok x -> CacheBlk.isValid x = true ->
  length (CacheBlk.data x) = Z.to_nat (2 ^ k) ->
  Cache.satisfyRequest C E p (InTags e) false false s
    = Ok (Packet.with_data (Some (slice (Z.to_nat (Packet.addr p mod 2 ^ k)) (Z.to_nat (Packet.size p)) (CacheBlk.data x))) p, s).
Proof.
  intros Hq Hx Hv Hlen. pose proof (rq_carries _ _ _ Hq) as Hcar. pose proof Hcar as (Hval & _ & _ & Hfit & _ & _ & _ & Hd).
  pose proof (rq_cmd _ _ _ Hq) as Hc.
  assert (BaseCache.satisfyRequest C E p (InTags e) s = Ok (Packet.with_data (Some (slice
    (Z.to_nat (Packet.addr p mod 2 ^ k)) (Z.to_nat (Packet.size p)) (CacheBlk.data x))) p, s)) as Hb.
  { unfold BaseCache.satisfyRequest, Packet.isRequest, Packet.cmd_is, Packet.isWrite, Packet.isRead, Packet.isLLSC,
      Packet.hasRespData. rewrite Hc. cmd_eval.
    assert (getB (InTags e) s = Ok (x, s)) as Hget by (simpl; by rewrite Hx). run Hget. rewrite Hv, blk_size. run_lift (Packet.getOffset_valid p k Hval k_range). run_lift (Packet.getSize_valid p Hval).
    rewrite (proj2 (Z.leb_le _ _) Hfit). unfold bind, ret, lift. cbn [rbind].
    rewrite (Packet.setDataFromBlock_carries k d p) by done. by rewrite Hd. }
  unfold Cache.satisfyRequest. run Hb. unfold Packet.isRead, Packet.fromCache. simpl. rewrite Hc. reflexivity.
Qed.

(** The line after a write. *)
Definition written (p : Packet.t) (d : list Z) (x : CacheBlk.t) : CacheBlk.t :=
  CacheBlk.with_coherence (Z.lor (CacheBlk.coherence x) CacheBlk.DirtyBit)
    (CacheBlk.with_data (splice (Z.to_nat (Packet.addr p mod 2 ^ k)) d (CacheBlk.data x)) x).

Lemma satisfy_write_run d p e x a (s s0 : S) :
  request MemCmd.WriteReq d p -> line_step e x s0 s -> ts_regenerateBlkAddr e (tags s0) = Ok a ->
  CacheBlk.isSet CacheBlk.WritableBit x = true -> CacheBlk.lockList x = [] ->
  length (CacheBlk.data x) = Z.to_nat (2 ^ k) ->
  exists s', Cache.satisfyRequest C E p (InTags e) false false s = Ok (p, s') /\ line_step e (written p d x) s0 s'.
Proof.
  intros Hq Hs Ha Hw Hlock Hlen. pose proof (rq_carries _ _ _ Hq) as Hcar. pose proof Hcar as (Hval & _ & _ & Hfit & _).
  pose proof (rq_cmd _ _ _ Hq) as Hc. pose proof Hw as [Hv _]%andb_prop.
  assert (CacheBlk.checkWrite p x = Ok (true, p, x)) as Hcheck.
  { unfold CacheBlk.checkWrite, Packet.isWrite, Packet.isLLSC. rewrite Hc, Hlock. done. }
  destruct (updB_step (fun x => let* (_, _, y) := CacheBlk.checkWrite p x in Ok y) e x x s0 s Hs) as (s1 & Hu1 & Hs1).
  { by rewrite Hcheck. } { done. }
  destruct (updB_step (fun x => let* d := Packet.writeDataToBlock (CacheBlk.data x) (blkSize C) p in
    Ok (CacheBlk.with_data d x)) e x (CacheBlk.with_data (splice (Z.to_nat (Packet.addr p mod 2 ^ k)) d (CacheBlk.data x)) x)
    s0 s1 Hs1) as (s2 & Hu2 & Hs2).
  { rewrite blk_size, (Packet.writeDataToBlock_carries k d) by done. done. } { done. }
  destruct (updB_step (CacheBlk.setCoherenceBits CacheBlk.DirtyBit) e _ (written p d x) s0 s2 Hs2) as (s3 & Hu3 & Hs3).
  { unfold CacheBlk.setCoherenceBits, CacheBlk.isValid in *. simpl. by rewrite Hv. } { done. }
  exists s3. split; [|done].
  assert (BaseCache.satisfyRequest C E p (InTags e) s = Ok (p, s3)) as Hb.
  { unfold BaseCache.satisfyRequest, Packet.isRequest, Packet.cmd_is, Packet.isWrite. rewrite Hc. cmd_eval.
    run (line_step_get _ _ _ _ Hs). rewrite Hv, blk_size.
    run_lift (Packet.getOffset_valid p k Hval k_range). run_lift (Packet.getSize_valid p Hval).
    rewrite (proj2 (Z.leb_le _ _) Hfit). rewrite Hw.
    run_lift Hcheck. run Hu1. unfold updateBlockData.
    erewrite bind_run; [|erewrite bind_run; [exact Hu2|by eapply line_step_addr]]. unfold setBits. by run Hu3. }
  unfold Cache.satisfyRequest. run Hb. unfold Packet.isRead, Packet.fromCache. by rewrite Hc.
Qed.

(** ** The simulation relation *)

(** A line of the cache: of the right length and without load locks; a valid one belongs
    to the domain, is readable and writable and has a time from which it can be used. *)
Record line_wf (x : CacheBlk.t) : Prop := {
  lw_length : length (CacheBlk.data x) = Z.to_nat (2 ^ k);
  lw_locks : CacheBlk.lockList x = [];
  lw_valid : CacheBlk.isValid x = true ->
    CacheBlk.isSecure x = sigma /\ CacheBlk.getDomainID x = dom /\
    CacheBlk.isSet CacheBlk.ReadableBit x = true /\ CacheBlk.isSet CacheBlk.WritableBit x = true /\
    CacheBlk.whenReady x <> MaxTick;
  lw_invalid : CacheBlk.isValid x = false -> CacheBlk.coherence x = 0;
  lw_bits : Z.ldiff (CacheBlk.coherence x) CacheBlk.AllBits = 0
}.

(** Address [z] is in the line of memory at [a]. *)
Definition in_line (a z : Z) : Prop := a <= z < a + 2 ^ k.

(** The memory may be stale at [z]: a dirty line covers it, or the write-back that is
    under way. *)
Definition stale (s : S) (pend : option (Z * list Z)) (z : Z) : Prop :=
  (exists e a x, at_line (tags s) e a x /\ CacheBlk.isSet CacheBlk.DirtyBit x = true /\ in_line a z) \/
  (exists a d, pend = Some (a, d) /\ in_line a z).

(** The core sees [f] through the cache in state [s] over the memory [m], with the
    write-back [pend] under way. *)
Record sim (f : Z -> Z) (pend : option (Z * list Z)) (s : S) (m : SimpleMemory.t) (bs : list Z) : Prop := {
  sim_store : ls_ok (tags s);
  sim_shift : line_shift (tags s) = k;
  sim_mshrs : Queue.allocatedList (MSHRQueue.queue (mshrQueue s)) = [];
  sim_writes : Queue.allocatedList (writeBuffer s) = [];
  sim_prefetcher : prefetcher s = None;
  sim_count : missCount s = 0;
  sim_mem : mem_after MC m0 (out s) = Ok m;
  sim_plain : plain (SimpleMemory.mem m) bs;
  sim_lines : forall e x, ts_getBlk e (tags s) = Ok x -> line_wf x;
  sim_addr : forall e x, ts_getBlk e (tags s) = Ok x -> CacheBlk.isValid x = true ->
    exists a, ts_regenerateBlkAddr e (tags s) = Ok a /\ line_of a = a /\ inside (SimpleMemory.mem m) a (2 ^ k);
  sim_data : forall e a x, at_line (tags s) e a x -> CacheBlk.data x = bytes_of f a (2 ^ k);
  sim_pend : forall a d, pend = Some (a, d) -> d = bytes_of f a (2 ^ k) /\ line_of a = a /\
    inside (SimpleMemory.mem m) a (2 ^ k) /\ forall e x, ~ at_line (tags s) e a x;
  sim_memory : forall z, inside (SimpleMemory.mem m) z 1 -> ~ stale s pend z ->
    bs !! AbstractMemory.toHostAddr z (SimpleMemory.mem m) = Some (f z)
}.

Definition core (r : res CacheBlk.t) : res CacheBlk.t := rmap (CacheBlk.with_refCount 0) r.

Lemma core_ok r x : core r = Ok x -> exists y, r = Ok y /\ CacheBlk.with_refCount 0 y = x.
Proof. destruct r as [y|]; simpl; intros Hr; simplify_res. by exists y. Qed.

(** What [sim] says of a line does not depend on its reference count. *)
Lemma core_same x y :
  CacheBlk.with_refCount 0 x = CacheBlk.with_refCount 0 y ->
  (line_wf x -> line_wf y) /\ CacheBlk.data x = CacheBlk.data y /\ CacheBlk.isValid x = CacheBlk.isValid y /\
  CacheBlk.isSet CacheBlk.DirtyBit x = CacheBlk.isSet CacheBlk.DirtyBit y.
Proof. destruct x, y. intros [= -> -> -> -> -> -> -> -> -> -> -> -> -> -> ->]. split_and!; try done. by intros []. Qed.

(** Replacing the store by one with the same lines, reference counts apart. *)
Lemma sim_same f pend s m bs g :
  sim f pend s m bs -> ls_ok g -> line_shift g = line_shift (tags s) ->
  (forall e, ts_regenerateBlkAddr e g = ts_regenerateBlkAddr e (tags s) /\
     core (ts_getBlk e g) = core (ts_getBlk e (tags s))) ->
  sim f pend (with_tags g s) m bs.
Proof.
  intros [Hst Hsh Hms Hwr Hpf Hct Hmem Hpl Hln Had Hdt Hpd Hmm] Hg Hshg Hsame.
  assert (forall e x, ts_getBlk e g = Ok x -> exists y, ts_getBlk e (tags s) = Ok y /\
    CacheBlk.with_refCount 0 y = CacheBlk.with_refCount 0 x) as Hold.
  { intros e x Hx. destruct (Hsame e) as [_ Hc]. rewrite Hx in Hc. simpl in Hc. symmetry in Hc. by apply core_ok. }
  assert (forall e a x, at_line g e a x -> exists y, at_line (tags s) e a y /\
    CacheBlk.with_refCount 0 y = CacheBlk.with_refCount 0 x) as Hat.
  { intros e a x [[= Hx Ha] Hv]. destruct (Hold e x Hx) as (y & Hy & Hc). exists y. split; [|done].
    destruct (core_same _ _ Hc) as (_ & _ & Hv' & _). split; [|congruence]. unfold view.
    destruct (Hsame e) as [<- _]. by rewrite Hy, Ha. }
  constructor; simpl; try done.
  - congruence.
  - intros e x Hx. destruct (Hold e x Hx) as (y & Hy & Hc). apply (core_same _ _ Hc), (Hln e), Hy.
  - intros e x Hx Hv. destruct (Hold e x Hx) as (y & Hy & Hc). destruct (Hsame e) as [-> _].
    apply (Had e y Hy). destruct (core_same _ _ Hc) as (_ & _ & -> & _). done.
  - intros e a x Hx. destruct (Hat e a x Hx) as (y & Hy & Hc). destruct (core_same _ _ Hc) as (_ & <- & _). by eapply Hdt.
  - intros a d Hp. destruct (Hpd a d Hp) as (? & ? & ? & Hno). split_and!; try done.
    intros e x Hx. destruct (Hat e a x Hx) as (y & Hy & _). by eapply Hno.
  - intros z Hz Hst'. apply Hmm; [done|]. intros Hs. apply Hst'. destruct Hs as [(e & a & x & Hx & Hd & Hin)|Hs]; [left|by right].
    destruct Hx as [[= Hx Ha] Hv]. destruct (Hsame e) as [Haddr Hc]. rewrite Hx in Hc. apply core_ok in Hc as (y & Hy & Hc).
    destruct (core_same _ _ Hc) as (_ & _ & Hv' & Hd'). exists e, a, y. split; [|split; [congruence|done]].
    split; [|congruence]. unfold view. simpl. by rewrite Hy, Haddr, Ha.
Qed.

Lemma line_disjoint a b z : line_of a = a -> line_of b = b -> in_line a z -> in_line b z -> a = b.
Proof.
  unfold line_of, in_line. pose proof (pow2_pos k ltac:(lia)) as Hpos. intros Ha Hb Hz Hz'.
  pose proof (Z.div_mod a (2 ^ k) ltac:(lia)). pose proof (Z.div_mod b (2 ^ k) ltac:(lia)).
  assert (a mod 2 ^ k = 0) by lia. assert (b mod 2 ^ k = 0) by lia.
  assert (a / 2 ^ k = b / 2 ^ k) by nia. nia.
Qed.

Lemma bytes_of_same f g a : (forall z, in_line a z -> f z = g z) -> bytes_of f a (2 ^ k) = bytes_of g a (2 ^ k).
Proof. intros Hfg. apply list_eq. intros i. rewrite !lookup_bytes_of. case_decide; [|done]. f_equal. apply Hfg. split; lia. Qed.

(** The lines other than [e] after it has changed. *)
Lemma other_line e x s s' e' a y : line_step e x s s' -> e' <> e -> at_line (tags s') e' a y <-> at_line (tags s) e' a y.
Proof. intros (g & -> & _ & [_ _ _ Ho] & _) Hne. unfold at_line. simpl. by rewrite Ho. Qed.

Lemma this_line e x s s' a y :
  line_step e x s s' -> at_line (tags s') e a y -> y = x /\ ts_regenerateBlkAddr e (tags s) = Ok a.
Proof. intros (g & -> & _ & _ & Hv) [Hy _]. simpl in Hy. rewrite Hv in Hy. by injection Hy. Qed.

Lemma line_step_fields e x s s' a y :
  line_step e x s s' -> ts_getBlk e (tags s) = Ok y -> ts_regenerateBlkAddr e (tags s) = Ok a ->
  CacheBlk.isValid x = true -> at_line (tags s') e a x.
Proof. intros (g & -> & _ & _ & Hv) Hy Ha Hx. split; [|done]. simpl. by rewrite Hv, Ha. Qed.

(** Two lines of the cache hold different lines of memory. *)
Lemma sim_distinct f pend s m bs e e' a x x' :
  sim f pend s m bs -> at_line (tags s) e a x -> at_line (tags s) e' a x' -> e = e'.
Proof.
  intros Hs Hx Hx'. eapply (ms_unique (tags s)); [by eapply sim_store|done|done|].
  destruct Hx as [[= Hx _] Hv], Hx' as [[= Hx' _] Hv'].
  destruct (lw_valid _ (sim_lines _ _ _ _ _ Hs e x Hx) Hv) as (-> & _).
  by destruct (lw_valid _ (sim_lines _ _ _ _ _ Hs e' x' Hx') Hv') as (-> & _).
Qed.

Lemma sim_aligned f pend s m bs e a x : sim f pend s m bs -> at_line (tags s) e a x -> line_of a = a.
Proof.
  intros Hs [[= Hx Ha] Hv]. destruct (sim_addr _ _ _ _ _ Hs e x Hx Hv) as (b & Hb & Hal & _). congruence.
Qed.

(** Changing the contents of a line that the cache holds. *)
Lemma sim_line_step f f' pend s s' m bs e a x x' :
  sim f pend s m bs -> at_line (tags s) e a x -> line_step e x' s s' -> line_wf x' -> CacheBlk.isValid x' = true ->
  CacheBlk.data x' = bytes_of f' a (2 ^ k) -> (forall z, ~ in_line a z -> f' z = f z) ->
  CacheBlk.isSet CacheBlk.DirtyBit x' = true \/
    ((forall z, f' z = f z) /\ CacheBlk.isSet CacheBlk.DirtyBit x' = CacheBlk.isSet CacheBlk.DirtyBit x) ->
  sim f' pend s' m bs.
Proof.
  intros Hs Hx Hstep Hwf Hv Hdata Hout Hdirty. pose proof Hstep as (g & -> & Hg & [_ Hsh _ Ho] & Hview).
  pose proof Hx as [[= Hget Haddr] Hvx].
  pose proof (sim_aligned _ _ _ _ _ _ _ _ Hs Hx) as Hal.
  assert (forall b, line_of b = b -> b <> a -> bytes_of f' b (2 ^ k) = bytes_of f b (2 ^ k)) as Hothers.
  { intros b Hb Hne. apply bytes_of_same. intros z Hz. apply Hout. intros Hz'. apply Hne. by eapply line_disjoint. }
  constructor; simpl; try (by destruct Hs).
  - rewrite Hsh. by apply Hs.
  - intros e' y Hy. destruct (decide (e' = e)) as [->|Hne].
    + unfold view in Hview. rewrite Hy in Hview. injection Hview as -> _. done.
    + specialize (Ho e' Hne). unfold view in Ho. rewrite Hy in Ho. injection Ho as Hy' _. by eapply (sim_lines _ _ _ _ _ Hs e').
  - intros e' y Hy Hvy. destruct (decide (e' = e)) as [->|Hne].
    + unfold view in Hview. injection Hview as _ ->. by eapply (sim_addr _ _ _ _ _ Hs e).
    + specialize (Ho e' Hne). unfold view in Ho. rewrite Hy in Ho. injection Ho as Hy' ->. by eapply (sim_addr _ _ _ _ _ Hs e').
  - intros e' b y Hy. destruct (decide (e' = e)) as [->|Hne].
    + destruct (this_line _ _ _ _ _ _ Hstep Hy) as [-> Hb]. assert (b = a) as -> by congruence. done.
    + apply (other_line _ _ _ _ _ _ _ Hstep Hne) in Hy. rewrite (sim_data _ _ _ _ _ Hs e' b y Hy). symmetry.
      apply Hothers; [by eapply sim_aligned|]. intros ->. apply Hne. symmetry. by eapply (sim_distinct _ _ _ _ _ _ _ _ _ _ Hs Hx).
  - intros b d Hp. destruct (sim_pend _ _ _ _ _ Hs b d Hp) as (Hd & Hb & Hi & Hno).
    assert (b <> a) as Hne by (intros ->; by eapply Hno). rewrite Hothers by done. split_and!; try done.
    intros e' y Hy. destruct (decide (e' = e)) as [->|Hne'].
    + destruct (this_line _ _ _ _ _ _ Hstep Hy) as [_ Hb']. congruence.
    + apply (other_line _ _ _ _ _ _ _ Hstep Hne') in Hy. by eapply Hno.
  - intros z Hz Hst. assert (~ stale s pend z /\ f' z = f z) as [Hns ->]; [|by apply (sim_memory _ _ _ _ _ Hs)].
    assert (at_line g e a x') as Hx' by (split; [|done]; by rewrite Hview, Haddr).
    split.
    + intros [(e' & b & y & Hy & Hd & Hin)|Hp]; apply Hst; [left|by right].
      destruct (decide (e' = e)) as [->|Hne]; [|exists e', b, y; split; [|done]; by apply (other_line _ _ _ _ _ _ _ Hstep)].
      destruct Hy as [[= Hy Hb] _]. simplify_eq. assert (b = a) as -> by congruence. assert (y = x) as -> by congruence.
      exists e, a, x'. split; [done|]. split; [|done]. destruct Hdirty as [->|[_ ->]]; done.
    + destruct Hdirty as [Hd|[Hsame _]]; [|apply Hsame]. apply Hout. intros Hin. apply Hst. left. by exists e, a, x'.
Qed.

(** [sim] does not depend on the random generator. *)
Lemma sim_rng f pend s m bs r : sim f pend s m bs -> sim f pend (with_rng r s) m bs.
Proof. intros []. by constructor. Qed.

(** Replacing line [e], which is not to be seen afterwards or not to be seen before. *)
Section replace.
Variables (s : S) (e : nat) (g : T) (y : CacheBlk.t).
Hypothesis (g_ok : ls_ok g) (g_same : same_but e (tags s) g) (g_line : ts_getBlk e g = Ok y).

Lemma replaced_line e' b z : e' <> e -> at_line g e' b z <-> at_line (tags s) e' b z.
Proof. intros Hne. destruct g_same as [_ _ _ Ho]. unfold at_line. by rewrite Ho. Qed.

Lemma replaced_get e' z : ts_getBlk e' g = Ok z -> (e' = e /\ z = y) \/ (e' <> e /\ ts_getBlk e' (tags s) = Ok z /\
  ts_regenerateBlkAddr e' g = ts_regenerateBlkAddr e' (tags s)).
Proof.
  intros Hz. destruct (decide (e' = e)) as [->|Hne]; [left; split; congruence|right].
  destruct g_same as [_ _ _ Ho]. specialize (Ho e' Hne). injection Ho as Ho1 Ho2. split_and!; congruence.
Qed.

(** Dropping a line: a dirty one is written back. *)
Lemma sim_drop f m bs a x :
  sim f None s m bs -> at_line (tags s) e a x -> CacheBlk.invalidate x = Ok y ->
  sim f (if CacheBlk.isSet CacheBlk.DirtyBit x then Some (a, CacheBlk.data x) else None) (with_tags g s) m bs.
Proof.
  intros Hs Hx Hinv. pose proof Hx as [[= Hget Haddr] Hvx].
  assert (CacheBlk.isValid y = false /\ line_wf y) as [Hvy Hwfy].
  { destruct (sim_lines _ _ _ _ _ Hs e x Hget) as [Hlen _ _ _ Hbits].
    unfold CacheBlk.invalidate, CacheBlk.setWhenReady in Hinv. inv_res. split; [done|].
    constructor; simpl; [done|done|done|done|]. by rewrite Hbits. }
  assert (forall e' b z, at_line g e' b z -> e' <> e) as Hne.
  { intros e' b z [[= Hz _] Hv] ->. congruence. }
  constructor; simpl; try (by destruct Hs).
  - rewrite (sb_shift _ _ _ g_same). by apply Hs.
  - intros e' z [(-> & ->)|(_ & Hz & _)]%replaced_get; [done|]. by eapply (sim_lines _ _ _ _ _ Hs e').
  - intros e' z [(-> & ->)|(_ & Hz & ->)]%replaced_get Hv; [congruence|]. by eapply (sim_addr _ _ _ _ _ Hs e').
  - intros e' b z Hz. eapply (sim_data _ _ _ _ _ Hs e'), replaced_line, Hz. by eapply Hne.
  - intros b d. destruct (CacheBlk.isSet CacheBlk.DirtyBit x); [|done]. intros [= <- <-].
    split; [by eapply sim_data|]. destruct (sim_addr _ _ _ _ _ Hs e x Hget Hvx) as (b & Hb & ? & ?).
    assert (b = a) as -> by congruence. split_and!; try done. intros e' z Hz. pose proof (Hne _ _ _ Hz) as Hn.
    apply (replaced_line _ _ _ Hn) in Hz. apply Hn. by eapply (sim_distinct _ _ _ _ _ _ _ _ _ _ Hs Hz).
  - intros z Hz Hst. apply (sim_memory _ _ _ _ _ Hs); [done|]. intros [(e' & b & w & Hw & Hd & Hin)|(? & ? & ? & _)]; [|done].
    apply Hst. destruct (decide (e' = e)) as [->|Hn].
    + destruct Hw as [[= Hw Hb] _]. assert (w = x) as -> by congruence. assert (b = a) as -> by congruence.
      rewrite Hd. right. by exists a, (CacheBlk.data x).
    + left. exists e', b, w. split; [|done]. by apply replaced_line.
Qed.

(** Filling a line that was not valid. *)
Lemma sim_fill f pend m bs a b :
  sim f pend s m bs -> ts_getBlk e (tags s) = Ok b -> CacheBlk.isValid b = false ->
  ts_regenerateBlkAddr e g = Ok a -> CacheBlk.isValid y = true -> line_wf y -> CacheBlk.data y = bytes_of f a (2 ^ k) ->
  line_of a = a -> inside (SimpleMemory.mem m) a (2 ^ k) -> (forall d, pend <> Some (a, d)) ->
  sim f pend (with_tags g s) m bs.
Proof.
  intros Hs Hb Hvb Haddr Hvy Hwfy Hdata Hal Hin Hpend.
  assert (forall e' c z, at_line g e' c z -> (e' = e /\ z = y /\ c = a) \/ (e' <> e /\ at_line (tags s) e' c z)) as Hcase.
  { intros e' c z Hz. destruct (decide (e' = e)) as [->|Hn]; [left|right; split; [done|by apply replaced_line]].
    destruct Hz as [[= Hz Hc] _]. split_and!; congruence. }
  constructor; simpl; try (by destruct Hs).
  - rewrite (sb_shift _ _ _ g_same). by apply Hs.
  - intros e' z [(-> & ->)|(_ & Hz & _)]%replaced_get; [done|]. by eapply (sim_lines _ _ _ _ _ Hs e').
  - intros e' z [(-> & ->)|(_ & Hz & ->)]%replaced_get Hv; [by exists a|]. by eapply (sim_addr _ _ _ _ _ Hs e').
  - intros e' c z [(-> & -> & ->)|[_ Hz]]%Hcase; [done|]. by eapply (sim_data _ _ _ _ _ Hs e').
  - intros c d Hp. destruct (sim_pend _ _ _ _ _ Hs c d Hp) as (? & ? & ? & Hno). split_and!; try done.
    intros e' z [(-> & -> & ->)|[_ Hz]]%Hcase; [by eapply Hpend|by eapply Hno].
  - intros z Hz Hst. apply (sim_memory _ _ _ _ _ Hs); [done|]. intros [(e' & c & w & Hw & Hd & Hi)|Hp]; apply Hst; [left|by right].
    exists e', c, w. split; [|done]. apply replaced_line; [|done]. intros ->. destruct Hw as [[= Hw _] Hv]. congruence.
Qed.
End replace.

(** *** Sending to the memory *)

Hypothesis latency_ok : 0 <= SimpleMemory.latency_var MC.

Lemma recvAtomic_run p m p' mem' :
  Packet.cacheResponding p = false -> AbstractMemory.access p (SimpleMemory.mem m) = Ok (p', mem', []) ->
  exists lat m', SimpleMemory.recvAtomic MC p m = Ok (lat, p', m', []) /\ SimpleMemory.mem m' = mem'.
Proof.
  intros Hcr Ha. unfold SimpleMemory.recvAtomic. rewrite Hcr, Ha. cbn [rbind]. unfold SimpleMemory.getLatency.
  destruct (truthy _); [|by eexists _, _].
  destruct (RandomMT.random_ok 0 (SimpleMemory.latency_var MC) (SimpleMemory.rng (SimpleMemory.with_mem mem' m)) latency_ok) as (v & -> & _).
  by eexists _, _.
Qed.

(** A read, or a notice of a clean eviction, leaves the memory as it was. *)
Lemma sim_send f pend s m bs p lat p' m' acts :
  sim f pend s m bs -> SimpleMemory.recvAtomic MC p m = Ok (lat, p', m', acts) ->
  SimpleMemory.mem m' = SimpleMemory.mem m -> sim f pend (with_out (out s ++ [SendAtomic p]) s) m' bs.
Proof.
  intros Hs Hr Hm. destruct (send_run MC m0 (out s) p m lat p' m' acts s eq_refl (sim_mem _ _ _ _ _ Hs) Hr) as [_ Hmem].
  destruct Hs. constructor; simpl; try done; rewrite Hm; done.
Qed.

(** The write-back under way reaches the memory. *)
Lemma sim_written f s m bs a d p lat p' m' acts :
  sim f (Some (a, d)) s m bs -> SimpleMemory.recvAtomic MC p m = Ok (lat, p', m', acts) ->
  SimpleMemory.mem m' = AbstractMemory.with_pmemAddr
    (Some (splice (AbstractMemory.toHostAddr a (SimpleMemory.mem m)) d bs)) (SimpleMemory.mem m) ->
  sim f None (with_out (out s ++ [SendAtomic p]) s) m' (splice (AbstractMemory.toHostAddr a (SimpleMemory.mem m)) d bs).
Proof.
  intros Hs Hr Hm. destruct (send_run MC m0 (out s) p m lat p' m' acts s eq_refl (sim_mem _ _ _ _ _ Hs) Hr) as [_ Hmem].
  destruct (sim_pend _ _ _ _ _ Hs a d eq_refl) as (Hd & Hal & [Hlo Hhi] & _). pose proof (pow2_pos k ltac:(lia)).
  pose proof (sim_plain _ _ _ _ _ Hs) as Hp. pose proof (pl_size _ _ Hp) as Hsize.
  assert (length d = Z.to_nat (2 ^ k)) as Hlen by (rewrite Hd; apply length_bytes_of).
  assert (AbstractMemory.toHostAddr a (SimpleMemory.mem m) + length d <= length bs)%nat as Hfit
    by (unfold AbstractMemory.toHostAddr; lia).
  constructor; simpl; try (by destruct Hs); try (rewrite Hm; by destruct Hs).
  - rewrite Hm. destruct Hp. constructor; simpl; try done. by rewrite length_splice.
  - intros z Hz Hst. rewrite Hm in *. simpl in Hz |- *. change (AbstractMemory.toHostAddr z _) with (AbstractMemory.toHostAddr z (SimpleMemory.mem m)).
    rewrite lookup_splice by done. destruct Hz as [Hz1 Hz2]. simpl in Hz1, Hz2. unfold AbstractMemory.toHostAddr in *. case_decide as Hin.
    + rewrite Hd, lookup_bytes_of. rewrite decide_True by lia. do 2 f_equal. lia.
    + apply (sim_memory _ _ _ _ _ Hs); [done|]. intros [Hl|(b & d' & [= <- <-] & Hi)]; [by apply Hst; left|].
      apply Hin. unfold in_line in Hi. lia.
Qed.

(** ** Evictions *)

Hypothesis not_read_only : isReadOnly C = false.

(** What the memory below is told of a line that is evicted. *)
Record eviction (x : CacheBlk.t) (a : Z) (p : Packet.t) : Prop := {
  ev_cmd : if CacheBlk.isSet CacheBlk.DirtyBit x then Packet.cmd p = MemCmd.WritebackDirty
           else Packet.cmd p = MemCmd.CleanEvict \/ Packet.cmd p = MemCmd.WritebackClean;
  ev_data : CacheBlk.isSet CacheBlk.DirtyBit x = true -> holds (CacheBlk.data x) p;
  ev_addr : Packet.addr p = a /\ Packet.size p = 2 ^ k;
  ev_flags : Packet.cacheResponding p = false /\ Request.isInstFetch (Packet.req p) = false
}.

(** A packet of the line at [a] before it has data. *)
Record bare (c : MemCmd.Command) (a : Z) (p : Packet.t) : Prop := {
  ba_cmd : Packet.cmd p = c;
  ba_valid : Packet.valid p;
  ba_addr : Packet.addr p = a;
  ba_size : Packet.size p = 2 ^ k;
  ba_flags : Packet.cacheResponding p = false;
  ba_nodata : Flags.noneSet (Packet.flags p) (Z.lor Packet.STATIC_DATA Packet.DYNAMIC_DATA) = true;
  ba_unmasked : Packet.isMaskedWrite p = false
}.

Lemma wb_packet_run e x a (s : S) c :
  ts_regenerateBlkAddr e (tags s) = Ok a -> MemCmd.eqb c MemCmd.WriteReq = false ->
  exists r p, wb_request C E (InTags e) x s = Ok (r, s) /\ Packet.make 0 r c = Ok p /\ bare c a p /\ Request.isInstFetch (Packet.req p) = false.
Proof.
  intros Ha Hne. unfold wb_request, bind, regenerateBlkAddr. rewrite Ha. cbn [rbind].
  destruct (CacheBlk.isSecure x); cbn; eexists _, _; (split; [reflexivity|]); (split; [reflexivity|]);
    (split; [|reflexivity]); (constructor; [reflexivity|split; reflexivity|reflexivity|exact blk_size|reflexivity..|by unfold Packet.isMaskedWrite, Packet.cmd_is; simpl; rewrite Hne]).
Qed.

(** Storage for the data of a packet that carries some. *)
Lemma allocate_run c a p :
  bare c a p -> Packet.hasData p || Packet.hasRespData p = true ->
  exists q, Packet.allocate p = Ok q /\ holds (replicate (Z.to_nat (2 ^ k)) 0) q /\
    q = Packet.with_data (Packet.data q) (Packet.with_flags (Flags.set (Packet.flags p) Packet.DYNAMIC_DATA) p).
Proof.
  intros [Hc Hv Ha Hs Hf Hn Hm] Hd. pose proof (pow2_pos k ltac:(lia)). unfold Packet.allocate.
  rewrite Hd, Hn, Packet.getSize_valid, Hs by done. cbn [rbind].
  eexists. split; [reflexivity|]. split; [|done]. destruct Hv as [Hva Hvs].
  assert (forall m, Flags.isSet (Packet.flags p) m = true -> Flags.isSet (Flags.set (Packet.flags p) Packet.DYNAMIC_DATA) m = true) as Hset
    by (intros m Hm'; rewrite Flags.isSet_set, Hm'; done).
  split_and!; simpl.
  - split; simpl; by apply Hset.
  - unfold Packet.hasDataPtr. simpl. rewrite Flags.isSet_set. by rewrite orb_true_r.
  - unfold Packet.isMaskedWrite in *. simpl. done.
  - done.
  - by rewrite length_replicate, Hs.
  - rewrite Hs. lia.
Qed.

Lemma same_but_trans e (g1 g2 g3 : T) : same_but e g1 g2 -> same_but e g2 g3 -> same_but e g1 g3.
Proof.
  intros [Hc Hs Hi Ho] [Hc' Hs' Hi' Ho']. constructor; [congruence..| |]; [intros a; by rewrite Hi', Hi|].
  intros e' Hne. by rewrite Ho', Ho.
Qed.

Lemma line_step_refl e x (s : S) : ls_ok (tags s) -> ts_getBlk e (tags s) = Ok x -> line_step e x s s.
Proof. intros Hok Hx. exists (tags s). split; [by destruct s|]. split; [done|]. split; [by constructor|]. unfold view. by rewrite Hx. Qed.

Lemma invalidateBlock_run e x a (s0 s : S) :
  line_step e x s0 s -> ts_regenerateBlkAddr e (tags s0) = Ok a -> CacheBlk.isValid x = true ->
  exists g y, invalidateBlock C E (InTags e) s = Ok (tt, with_tags g s0) /\ ls_ok g /\ same_but e (tags s0) g /\
    ts_getBlk e g = Ok y /\ CacheBlk.invalidate x = Ok y.
Proof.
  intros Hs Ha Hv. pose proof Hs as (g & -> & Hok & Hsame & [= Hx _]).
  destruct (ls_invalidate (now E) g e x Hok Hx Hv) as (g' & y & Hi & Hok' & Hsame' & Hy & Hinv).
  exists g', y. unfold invalidateBlock, updateBlockData.
  erewrite bind_run; [|erewrite bind_run; [done|by eapply line_step_addr]]. simpl. rewrite Hi. cbn [rbind].
  split; [done|]. split; [done|]. split; [by eapply same_but_trans|done].
Qed.

(** Invalidation does not depend on the permissions. *)
Lemma cleared_invalidate x :
  CacheBlk.invalidate (CacheBlk.clearCoherenceBits CacheBlk.DirtyBit (CacheBlk.clearCoherenceBits CacheBlk.WritableBit x))
    = CacheBlk.invalidate x.
Proof.
  unfold CacheBlk.invalidate. do 2 f_equal. destruct x. unfold CacheBlk.clearCoherenceBits, CacheBlk.with_coherence. simpl.
  by rewrite !Z.ldiff_ldiff_l.
Qed.

(** The packet made for an eviction, and the line it leaves. *)
Lemma evict_packet_run e x a (s : S) :
  ls_ok (tags s) -> line_wf x -> at_line (tags s) e a x -> line_of a = a ->
  exists p s' x', (if CacheBlk.isSet CacheBlk.DirtyBit x || writebackClean C then writebackBlk C E (InTags e)
                   else Cache.cleanEvictBlk C E (InTags e)) s = Ok (p, s') /\
    eviction x a p /\ line_step e x' s s' /\ CacheBlk.isValid x' = true /\ CacheBlk.invalidate x' = CacheBlk.invalidate x.
Proof.
  intros Hok Hwf [[= Hx Ha] Hv] Hal.
  assert (getB (InTags e) s = Ok (x, s)) as Hget by (simpl; by rewrite Hx).
  assert (a mod 2 ^ k = 0) as Hmod by (unfold line_of in Hal; lia).
  destruct (lw_valid _ Hwf Hv) as (_ & _ & _ & Hw & _).
  destruct (CacheBlk.isSet CacheBlk.DirtyBit x || writebackClean C) eqn:Ed.
  - set (c := if CacheBlk.isSet CacheBlk.DirtyBit x then MemCmd.WritebackDirty else MemCmd.WritebackClean).
    destruct (wb_packet_run e x a s c Ha) as (r & p & Hr & Hp & Hbare & Hfetch); [by unfold c; destruct (CacheBlk.isSet CacheBlk.DirtyBit x)|].
    destruct (updB_run (fun y => Ok (CacheBlk.clearCoherenceBits CacheBlk.WritableBit y)) e x
      (CacheBlk.clearCoherenceBits CacheBlk.WritableBit x) s Hok Hx eq_refl eq_refl) as (s1 & Hu1 & Hs1).
    destruct (updB_step (fun y => Ok (CacheBlk.clearCoherenceBits CacheBlk.DirtyBit y)) e _
      (CacheBlk.clearCoherenceBits CacheBlk.DirtyBit (CacheBlk.clearCoherenceBits CacheBlk.WritableBit x)) s s1 Hs1 eq_refl eq_refl)
      as (s2 & Hu2 & Hs2).
    destruct (allocate_run c a p Hbare) as (q & Hq & Hholds & Hqp).
    { unfold Packet.hasData. rewrite (ba_cmd _ _ _ Hbare). by unfold c; destruct (CacheBlk.isSet CacheBlk.DirtyBit x). }
    assert (Packet.carries k (replicate (Z.to_nat (2 ^ k)) 0) q) as Hcar.
    { destruct Hholds as (Hva & Hptr & Hmask & Hd & Hlen & Hn). destruct Hbare.
      assert (Packet.addr q = a /\ Packet.size q = 2 ^ k) as [Hqa Hqs] by (rewrite Hqp; done).
      unfold Packet.carries. rewrite Hqa, Hqs, Hmod. split_and!; try done; try lia; rewrite ?length_replicate; try done. }
    pose proof (Packet.setDataFromBlock_carries k _ q (CacheBlk.data x) Hcar (lw_length _ Hwf)) as Hset.
    eexists _, s2, _. split; [|split; [|split; [exact Hs2|split; [done|]]]].
    + unfold writebackBlk. rewrite not_read_only. cbn [negb orb]. run Hget. rewrite Hv, Ed. cbn [andb]. run Hr. fold c. run_lift Hp.
      unfold wb_transfer. rewrite Hw. erewrite bind_run; [|erewrite bind_run; [reflexivity|exact Hu1]]. cbn beta.
      run Hu2. run_lift Hq. rewrite blk_size. unfold lift. by rewrite Hset.
    + assert (Packet.addr q = a /\ Packet.size q = 2 ^ k /\ Packet.cmd q = c /\ Packet.req q = Packet.req p /\
        Packet.flags q = Flags.set (Packet.flags p) Packet.DYNAMIC_DATA) as (Hqa & Hqs & Hqc & Hqr & Hqf)
        by (rewrite Hqp; by destruct Hbare).
      assert (slice (Z.to_nat (Packet.addr q mod 2 ^ k)) (length (replicate (Z.to_nat (2 ^ k)) 0)) (CacheBlk.data x) = CacheBlk.data x) as ->
        by (rewrite Hqa, Hmod, length_replicate, <- (lw_length _ Hwf); unfold slice; simpl; by rewrite take_ge).
      destruct Hholds as (Hva & Hptr & Hmask & _ & _ & Hn). constructor; simpl.
      * rewrite Hqc. unfold c in *. destruct (CacheBlk.isSet CacheBlk.DirtyBit x); [done|by right].
      * intros _. split_and!; try done. simpl. by rewrite Hqs, (lw_length _ Hwf).
      * done.
      * split; [|by rewrite Hqr]. unfold Packet.cacheResponding. simpl. rewrite Hqf, Flags.isSet_set.
        by rewrite orb_false_r; destruct Hbare.
    + apply cleared_invalidate.
  - apply orb_false_elim in Ed as [Ed Ewb]. destruct (wb_packet_run e x a s MemCmd.CleanEvict Ha eq_refl) as (r & p & Hr & Hp & Hbare & Hfetch).
    exists p, s, x. split; [|split; [|split; [by apply line_step_refl|done]]].
    + unfold Cache.cleanEvictBlk. rewrite Ewb. cbn [negb]. run Hget. rewrite Hv, Ed. cbn [andb negb]. run Hr. run_lift Hp.
      unfold lift, Packet.allocate, Packet.hasData, Packet.hasRespData. by rewrite (ba_cmd _ _ _ Hbare).
    + destruct Hbare as [Hbc _ Hba Hbs Hbf _ _]. constructor; [rewrite Ed; by left|congruence|done|done].
Qed.

(** What is under way after the eviction of a line. *)
Definition pend_of (x : CacheBlk.t) (a : Z) : option (Z * list Z) :=
  if CacheBlk.isSet CacheBlk.DirtyBit x then Some (a, CacheBlk.data x) else None.

Lemma evictBlock_run f s m bs e a x :
  sim f None s m bs -> at_line (tags s) e a x ->
  exists p g y, Cache.evictBlock C E (InTags e) s = Ok (Some p, with_tags g s) /\ eviction x a p /\
    ls_ok g /\ same_but e (tags s) g /\ ts_getBlk e g = Ok y /\ CacheBlk.isValid y = false /\
    sim f (pend_of x a) (with_tags g s) m bs.
Proof.
  intros Hs Hx. pose proof Hx as [[= Hget Haddr] Hv]. pose proof (sim_store _ _ _ _ _ Hs) as Hok.
  destruct (evict_packet_run e x a s Hok (sim_lines _ _ _ _ _ Hs e x Hget) Hx (sim_aligned _ _ _ _ _ _ _ _ Hs Hx))
    as (p & s1 & x' & Hp & Hev & Hstep & Hv' & Hinv).
  destruct (invalidateBlock_run e x' a s s1 Hstep Haddr Hv') as (g & y & Hi & Hg & Hsame & Hy & Hiy).
  exists p, g, y. split.
  - unfold Cache.evictBlock. assert (isSetB CacheBlk.DirtyBit (InTags e) s = Ok (CacheBlk.isSet CacheBlk.DirtyBit x, s)) as Hd
      by (unfold isSetB, bind; simpl; by rewrite Hget). run Hd. run Hp. by run Hi.
  - rewrite Hinv in Hiy. split; [done|]. split; [done|]. split; [done|]. split; [done|].
    split; [by eapply invalidate_fields|]. by eapply sim_drop.
Qed.

(** ** Making room for a line *)

(** The write-backs that are still to be sent. *)
Definition to_send (pend : option (Z * list Z)) (wbs : list Packet.t) : Prop :=
  (wbs = [] /\ pend = None) \/ exists x a p, wbs = [p] /\ eviction x a p /\ pend = pend_of x a.

Lemma findMshr_run f pend s m bs a sec d : sim f pend s m bs -> findMshr a sec d s = Ok (None, s).
Proof. intros Hs. unfold findMshr, Queue.findMatch_dom. rewrite (sim_mshrs _ _ _ _ _ Hs). done. Qed.
Lemma findWrite_run f pend s m bs a sec d : sim f pend s m bs -> findWrite a sec d s = Ok (None, s).
Proof. intros Hs. unfold findWrite, Queue.findMatch_dom. rewrite (sim_writes _ _ _ _ _ Hs). done. Qed.

Lemma make_room f s m bs v :
  sim f None s m bs -> (v < bv_count (tags s))%nat ->
  exists wbs pend g b, handleEvictions (Cache.evictBlock C E) [v] [] s = Ok ((true, wbs), with_tags g s) /\
    ls_ok g /\ same_but v (tags s) g /\ ts_getBlk v g = Ok b /\ CacheBlk.isValid b = false /\
    sim f pend (with_tags g s) m bs /\ to_send pend wbs /\
    (forall a d, pend = Some (a, d) -> exists x, at_line (tags s) v a x).
Proof.
  intros Hs Hv. destruct (ls_get (tags s) v Hv) as [x Hx].
  assert (getB (InTags v) s = Ok (x, s)) as Hget by (simpl; by rewrite Hx).
  unfold handleEvictions, eviction_check. destruct (CacheBlk.isValid x) eqn:Ev.
  - destruct (sim_addr _ _ _ _ _ Hs v x Hx Ev) as (a & Ha & _).
    destruct (evictBlock_run f s m bs v a x Hs) as (p & g & y & Hp & Hev & Hg & Hsame & Hy & Hvy & Hsim).
    { split; [|done]. unfold view. by rewrite Hx, Ha. }
    exists [p], (pend_of x a), g, y. split_and!; try done.
    + assert (regenerateBlkAddr (InTags v) s = Ok (a, s)) as Hr by (simpl; by rewrite Ha).
      erewrite bind_run; [|run Hget; rewrite Ev; run Hr; run (findMshr_run f None s m bs a (CacheBlk.isSecure x) (CacheBlk.getDomainID x) Hs); reflexivity].
      cbn beta iota. unfold evict_valid, isValidB, evictBlock_to.
      erewrite bind_run; [reflexivity|]. erewrite bind_run; [|run Hget; reflexivity]. rewrite Ev.
      erewrite bind_run; [reflexivity|]. by run Hp.
    + right. by exists x, a, p.
    + unfold pend_of. destruct (CacheBlk.isSet _ _); [|done]. intros b d [= <- _]. exists x. split; [|done]. unfold view. by rewrite Hx, Ha.
  - exists [], None, (tags s), x. split_and!; try done; [|by eapply sim_store| |by left].
    + erewrite bind_run; [|run Hget; rewrite Ev; reflexivity]. unfold ret. by destruct s.
    + by replace (with_tags (tags s) s) with s by (by destruct s).
Qed.

(** A time after the present that can be a ready time. *)
Definition time_ok (tick : Z) : Prop := now E <= tick < MaxTick.
Hypothesis now_ok : now E <= MaxTick.

(** Allocating the line of [p], which the cache does not hold: a line with the address,
    the domain and no permissions yet. *)
Lemma allocateBlock_run f s m bs p :
  sim f None s m bs -> Packet.valid p -> in_word 64 (Packet.addr p) -> Packet._isSecure p = sigma ->
  Packet.getDomainID p = Ok dom -> knownRequestor C p = true ->
  (forall e x, ~ at_line (tags s) e (line_of (Packet.addr p)) x) ->
  exists wbs pend v s1 g r b x,
    allocateBlock C E (Cache.evictBlock C E) p [] s = Ok ((Some (InTags v), wbs), with_rng r (with_tags g s1)) /\
    sim f pend s1 m bs /\ to_send pend wbs /\ (forall a d, pend = Some (a, d) -> a <> line_of (Packet.addr p)) /\
    ts_getBlk v (tags s1) = Ok b /\ CacheBlk.isValid b = false /\
    ls_ok g /\ same_but v (tags s1) g /\ at_line g v (line_of (Packet.addr p)) x /\
    CacheBlk.isSecure x = sigma /\ CacheBlk.getDomainID x = dom /\ CacheBlk.data x = CacheBlk.data b /\
    CacheBlk.coherence x = 0 /\ CacheBlk.lockList x = [] /\ CacheBlk._tickInserted x = now E.
Proof.
  intros Hs Hval Hw Hsec Hdom Hkn Hno. pose proof (sim_store _ _ _ _ _ Hs) as Hok.
  assert (Packet.getAddr p = Ok (Packet.addr p) /\ Packet.isSecure p = Ok sigma) as [Ha Hse].
  { split; [by apply Packet.getAddr_valid|]. unfold Packet.isSecure. destruct Hval as [-> _]. by rewrite Hsec. }
  destruct (ms_find (tags s) (Packet.addr p) sigma dom Hok Hw) as (r & Hr & Hrm).
  assert (r = None) as ->.
  { destruct r as [e|]; [|done]. destruct Hrm as (x & Hx & _). rewrite (sim_shift _ _ _ _ _ Hs) in Hx. by destruct (Hno e x). }
  destruct (ms_victim (now E) (tags s) (Packet.addr p) sigma dom (blkSize C * 8) (rng s) Hok Hw Hr) as (v & g' & Hvic & Hv & Hfits).
  destruct (make_room f (with_rng g' s) m bs v (sim_rng _ _ _ _ _ _ Hs) Hv)
    as (wbs & pend & g & b & Hroom & Hg & Hsame & Hb & Hvb & Hsim & Hsend & Hpend). simpl in Hsame, Hpend.
  destruct (ls_get (tags s) v Hv) as [b0 Hb0].
  assert (ms_fits (Packet.addr p) sigma v g) as Hfits' by (by eapply ms_fits_others).
  destruct (ms_insert (now E) (maxRequestors C) p g v b (Packet.addr p) sigma dom g' Hg Hb Hvb Hfits' Ha Hse Hdom Hw)
    as (g2 & r2 & x & Hins & Hg2 & Hsame2 & Hx & Hxs & Hxd & Hxdata & Hxc & Hxl & Hxt); [by apply Z.ltb_lt in Hkn|done|].
  exists wbs, pend, v, (with_tags g (with_rng g' s)), g2, r2, b, x.
  pose proof (sim_lines _ _ _ _ _ Hsim v b Hb) as Hwf.
  split_and!; try done.
  - unfold allocateBlock. run_lift Ha. run_lift Hse. erewrite bind_run; [|reflexivity]. cbn beta.
    erewrite bind_run; [|apply lift_run; exact Hvic]. cbn beta iota. erewrite bind_run; [|reflexivity]. cbn beta iota.
    replace (with_rng g' (with_tags (tags s) s)) with (with_rng g' s) by (by destruct s). run Hroom. cbn [negb].
    erewrite bind_run; [|reflexivity]. cbn beta. erewrite bind_run; [|apply lift_run; exact Hins]. cbn beta iota.
    erewrite bind_run; [|reflexivity]. done.
  - intros a d Hp ->. destruct (Hpend _ _ Hp) as [y Hy]. by eapply Hno.
  - pose proof (sim_shift _ _ _ _ _ Hsim) as Hsh. simpl in Hsh. rewrite Hsh in Hx. done.
  - rewrite Hxc. by apply (lw_invalid _ Hwf).
  - rewrite Hxl. by apply (lw_locks _ Hwf).
Qed.

(** ** Filling a line *)

(** The answer of the memory to a miss on the line at [a]. *)
Record response (a : Z) (d : list Z) (p : Packet.t) : Prop := {
  rs_cmd : Packet.cmd p = MemCmd.ReadResp \/ Packet.cmd p = MemCmd.ReadExResp;
  rs_holds : holds d p;
  rs_addr : Packet.addr p = a /\ Packet.size p = 2 ^ k /\ line_of a = a /\ in_word 64 a;
  rs_owner : Packet._isSecure p = sigma /\ Packet.getDomainID p = Ok dom /\ knownRequestor C p = true;
  rs_flags : Packet.cacheResponding p = false /\ Packet.hasSharers p = false;
  rs_time : time_ok (u64 (clockEdge C E (fillLatency C) + Packet.headerDelay p + Packet.payloadDelay p))
}.

Definition filled (tick : Z) (d : list Z) (x : CacheBlk.t) : CacheBlk.t :=
  CacheBlk.with_whenReady tick (CacheBlk.with_data d
    (CacheBlk.with_coherence (Z.lor (Z.lor (CacheBlk.coherence x) CacheBlk.ReadableBit) CacheBlk.WritableBit) x)).

Lemma rs_carries a d p : response a d p -> Packet.carries k d p.
Proof.
  intros [_ (Hv & Hptr & Hmask & Hd & Hlen & Hn) (Ha & Hsz & Hal & _) _ _ _]. unfold Packet.carries.
  pose proof (line_of_bounds a). assert (a mod 2 ^ k = 0) by (unfold line_of in Hal; lia).
  rewrite Ha, Hsz in *. split_and!; try done; lia.
Qed.

Lemma fill_block_run a d p v x (s : S) :
  response a d p -> ls_ok (tags s) -> at_line (tags s) v a x -> CacheBlk.isSecure x = sigma ->
  CacheBlk.getDomainID x = dom -> length (CacheBlk.data x) = Z.to_nat (2 ^ k) -> CacheBlk._tickInserted x = now E ->
  exists s', fill_block C E p (InTags v) a sigma dom s = Ok (tt, s') /\
    line_step v (filled (u64 (clockEdge C E (fillLatency C) + Packet.headerDelay p + Packet.payloadDelay p)) d x) s s'.
Proof.
  intros Hp Hok [[= Hx Ha] Hv] Hsec Hdom Hlen Htick. pose proof (rs_carries _ _ _ Hp) as Hcar.
  set (tick := u64 _). assert (now E <= tick) as Htime by (pose proof (rs_time _ _ _ Hp) as [? _]; done).
  destruct Hp as [Hc (Hval & _ & _ & _ & Hdl & _) (Hpa & Hps & Hal & _) _ (Hcr & Hsh) _].
  pose proof Hv as Hv0. unfold CacheBlk.isValid in Hv0.
  destruct (updB_run (CacheBlk.setCoherenceBits CacheBlk.ReadableBit) v x
    (CacheBlk.with_coherence (Z.lor (CacheBlk.coherence x) CacheBlk.ReadableBit) x) s Hok Hx) as (s1 & Hu1 & Hs1).
  { unfold CacheBlk.setCoherenceBits. by rewrite Hv. } { done. }
  destruct (updB_step (CacheBlk.setCoherenceBits CacheBlk.WritableBit) v _
    (CacheBlk.with_coherence (Z.lor (Z.lor (CacheBlk.coherence x) CacheBlk.ReadableBit) CacheBlk.WritableBit) x) s s1 Hs1) as (s2 & Hu2 & Hs2).
  { unfold CacheBlk.setCoherenceBits, CacheBlk.isValid. simpl. by rewrite Hv0. } { done. }
  destruct (updB_step (fun x => let* d := Packet.writeDataToBlock (CacheBlk.data x) (blkSize C) p in
    Ok (CacheBlk.with_data d x)) v _ (CacheBlk.with_data d (CacheBlk.with_coherence
      (Z.lor (Z.lor (CacheBlk.coherence x) CacheBlk.ReadableBit) CacheBlk.WritableBit) x)) s s2 Hs2) as (s3 & Hu3 & Hs3).
  { rewrite blk_size. simpl. rewrite (Packet.writeDataToBlock_carries k d) by done. cbn [rbind]. do 2 f_equal.
    rewrite Hpa. assert (a mod 2 ^ k = 0) as -> by (unfold line_of in Hal; lia).
    unfold splice. simpl. rewrite drop_ge, app_nil_r by (rewrite Hlen; lia). done. } { done. }
  destruct (updB_step (CacheBlk.setWhenReady tick) v _ (filled tick d x) s s3 Hs3) as (s4 & Hu4 & Hs4).
  { unfold CacheBlk.setWhenReady. simpl. rewrite Htick, (proj2 (Z.leb_le _ _) Htime). done. } { done. }
  exists s4. split; [|done]. unfold fill_block.
  assert (getB (InTags v) s = Ok (x, s)) as Hget by (simpl; by rewrite Hx). run Hget. rewrite Hv, Hsec, eqb_reflx, Hdom, Z.eqb_refl.
  assert (regenerateBlkAddr (InTags v) s = Ok (a, s)) as Hr by (simpl; by rewrite Ha). run Hr. rewrite Z.eqb_refl.
  unfold setBits. run Hu1. rewrite Hsh, andb_false_r. cbn [negb].
  erewrite bind_run; [|run Hu2; by rewrite Hcr]. cbn beta iota.
  assert (Packet.isRead p = true /\ Packet.hasData p = true) as [-> ->]
    by (unfold Packet.isRead, Packet.hasData; by destruct Hc as [-> | ->]).
  erewrite bind_run; [exact Hu4|]. run_lift (Packet.getSize_valid p Hval). rewrite Hps, blk_size, Z.eqb_refl. unfold updateBlockData.
  erewrite bind_run; [exact Hu3|]. eapply line_step_addr; [exact Hs2|done].
Qed.

Lemma filled_wf tick d x :
  CacheBlk.isValid x = true -> CacheBlk.isSecure x = sigma -> CacheBlk.getDomainID x = dom -> CacheBlk.coherence x = 0 ->
  CacheBlk.lockList x = [] -> length d = Z.to_nat (2 ^ k) -> tick < MaxTick ->
  line_wf (filled tick d x) /\ CacheBlk.isValid (filled tick d x) = true.
Proof.
  intros Hv Hs Hd Hc Hl Hlen Ht. unfold filled. rewrite Hc. split; [|done]. constructor; simpl; try done.
  - intros _. split_and!; try done.
    + unfold CacheBlk.isSet, CacheBlk.isValid in *. simpl. by rewrite Hv.
    + unfold CacheBlk.isSet, CacheBlk.isValid in *. simpl. by rewrite Hv.
    + lia.
  - unfold CacheBlk.isValid in *. simpl. congruence.
Qed.

Lemma handleFill_run f s m bs a p :
  sim f None s m bs -> response a (bytes_of f a (2 ^ k)) p -> inside (SimpleMemory.mem m) a (2 ^ k) ->
  (forall e x, ~ at_line (tags s) e a x) ->
  exists wbs pend v s' y, handleFill C E (Cache.evictBlock C E) p None [] true s = Ok ((p, InTags v, wbs), s') /\
    sim f pend s' m bs /\ to_send pend wbs /\ at_line (tags s') v a y.
Proof.
  intros Hs Hp Hin Hno. pose proof (rs_holds _ _ _ Hp) as (Hval & _ & _ & _ & Hdl & _).
  pose proof (rs_addr _ _ _ Hp) as (Hpa & Hps & Hal & Hw). pose proof (rs_owner _ _ _ Hp) as (Hsec & Hdom & Hkn).
  assert (Packet.isResponse p = true /\ Packet.hasData p = true) as [Hresp Hdata]
    by (unfold Packet.isResponse, Packet.hasData; by destruct (rs_cmd _ _ _ Hp) as [-> | ->]).
  assert (Packet.getAddr p = Ok a /\ Packet.isSecure p = Ok sigma) as [Ha Hse].
  { split; [rewrite <- Hpa; by apply Packet.getAddr_valid|]. unfold Packet.isSecure. destruct Hval as [-> _]. by rewrite Hsec. }
  assert (Packet.getBlockAddr (blkSize C) p = Ok a) as Hba.
  { rewrite blk_size, Packet.getBlockAddr_valid by (done || rewrite Hpa; done). rewrite Hpa. f_equal. exact Hal. }
  destruct (allocateBlock_run f s m bs p Hs Hval) as (wbs & pend & v & s1 & g & r & b & x & Hall & Hs1 & Hsend & Hpend &
    Hb & Hvb & Hg & Hsame & Hx & Hxs & Hxd & Hxdata & Hxc & Hxl & Hxt); try done; [by rewrite Hpa|by rewrite Hpa, Hal|].
  rewrite Hpa, Hal in Hx, Hpend.
  assert (length (CacheBlk.data x) = Z.to_nat (2 ^ k)) as Hlen
    by (rewrite Hxdata; by apply (lw_length _ (sim_lines _ _ _ _ _ Hs1 v b Hb))).
  destruct (fill_block_run a _ p v x (with_rng r (with_tags g s1)) Hp Hg Hx Hxs Hxd Hlen Hxt) as (s' & Hfill & Hstep).
  set (y := filled _ _ x) in Hstep. pose proof (rs_time _ _ _ Hp) as [_ Htime].
  destruct (filled_wf (u64 (clockEdge C E (fillLatency C) + Packet.headerDelay p + Packet.payloadDelay p))
    (bytes_of f a (2 ^ k)) x) as [Hwf Hvy]; try done; [apply Hx|apply length_bytes_of|]. fold y in Hwf, Hvy.
  exists wbs, pend, v, s', y.
  assert (at_line (tags s') v a y) as Hy.
  { destruct Hx as [[= Hx1 Hx2] _]. eapply line_step_fields; done. }
  split; [|split; [|split; [done|done]]].
  - unfold handleFill. rewrite Hresp. run_lift Ha. run_lift Hse. run_lift Hdom. run_lift Hba. rewrite Z.eqb_refl.
    run (findWrite_run f None s m bs a sigma dom Hs). rewrite bool_decide_eq_true_2 by done. unfold fill_place.
    erewrite bind_run; [|rewrite Hdata; cbn [orb]; run Hall; reflexivity]. cbn beta iota. by run Hfill.
  - destruct Hstep as (g' & -> & Hg' & Hsame' & Hview). simpl in Hsame', Hview.
    replace (with_tags g' _) with (with_tags g' (with_rng r s1)) by (by destruct s1).
    injection Hview as Hview1 Hview2. destruct Hx as [[= _ Hx2] _].
    eapply (sim_fill (with_rng r s1) v g' y); try done.
    + by eapply same_but_trans.
    + by apply sim_rng.
    + congruence.
    + intros d Hd. by eapply Hpend.
Qed.

(** ** Looking a request up *)

(** The read or write of part of a line. *)
Definition demand (c : MemCmd.Command) : Prop := c = MemCmd.ReadReq \/ c = MemCmd.WriteReq.

Lemma rq_getters c d p : request c d p ->
  Packet.getAddr p = Ok (Packet.addr p) /\ Packet.isSecure p = Ok sigma /\ Packet.getDomainID p = Ok dom.
Proof.
  intros Hq. destruct (rq_holds _ _ _ Hq) as (Hval & _). split; [by apply Packet.getAddr_valid|]. split; [|by eapply rq_dom].
  unfold Packet.isSecure. destruct Hval as [-> _]. by rewrite (rq_sec _ _ _ Hq).
Qed.

Lemma lookup_run f s m bs a nf :
  sim f None s m bs -> in_word 64 a ->
  exists r g lat, ts_accessBlock (now E) a sigma dom nf (tags s) = Ok (r, g, lat) /\ sim f None (with_tags g s) m bs /\
    match r with Some e => exists x, at_line g e (line_of a) x | None => forall e x, ~ at_line g e (line_of a) x end.
Proof.
  intros Hs Hw. pose proof (sim_store _ _ _ _ _ Hs) as Hok.
  destruct (ms_access (now E) (tags s) a sigma dom nf Hok Hw) as (r & g & lat & Hacc & Hfind & Hg & _ & Hsh & Hsame).
  exists r, g, lat. split; [done|]. pose proof (sim_same f None s m bs g Hs Hg Hsh Hsame) as Hs'. split; [done|].
  destruct (ms_find (tags s) a sigma dom Hok Hw) as (r' & Hr' & Hm). assert (r' = r) as -> by congruence.
  rewrite (sim_shift _ _ _ _ _ Hs) in Hm. fold (line_of a) in Hm. destruct r as [e|].
  - destruct Hm as (x & [[= Hx Ha] Hv] & _). destruct (Hsame e) as [Hae Hc]. rewrite Hx in Hc.
    apply core_ok in Hc as (y & Hy & Hc). exists y. destruct (core_same _ _ Hc) as (_ & _ & Hvy & _).
    split; [|rewrite Hvy; done]. unfold view. by rewrite Hy, Hae, Ha.
  - intros e y [[= Hy Ha] Hv]. destruct (Hsame e) as [Hae Hc]. rewrite Hy in Hc. symmetry in Hc.
    apply core_ok in Hc as (x & Hx & Hc). destruct (core_same _ _ Hc) as (_ & _ & Hvx & _). rewrite Hv in Hvx.
    apply (Hm e x); [split; [|done]; unfold view; by rewrite Hx, <- Hae, Ha|].
    by destruct (lw_valid _ (sim_lines _ _ _ _ _ Hs e x Hx) Hvx) as (-> & _).
Qed.

(** The way of a request to the part of [access] that serves it. *)
Lemma access_to_demand f s m bs c d p r g lat lat0 :
  demand c -> request c d p -> sim f None (with_tags g s) m bs ->
  ts_accessBlock (now E) (Packet.addr p) sigma dom (Packet.isMayNotFill p) (tags s) = Ok (r, g, lat) ->
  Cache.access C E p lat0 [] s
    = access_demand C E (Cache.satisfyRequest C E) p (option_map InTags r) lat [] (with_tags g s).
Proof.
  intros Hc Hq Hs Hacc. destruct (rq_getters _ _ _ Hq) as (Ha & Hse & Hdom). pose proof (rq_cmd _ _ _ Hq) as Hcmd.
  unfold Cache.access. rewrite (rq_cached _ _ _ Hq). unfold BaseCache.access.
  assert (Packet.isRequest p = true /\ Packet.isEviction p = false /\ Packet.isWriteback p = false /\
    Packet.cmd_is p MemCmd.CleanEvict = false /\ Packet.cmd_is p MemCmd.WriteClean = false /\ Packet.cmd_is p MemCmd.HardPFReq = false)
    as (Hr & He & Hwb & Hce & Hwc & Hpf)
    by (unfold Packet.isRequest, Packet.isEviction, Packet.isWriteback, Packet.cmd_is; rewrite Hcmd; by destruct Hc as [-> | ->]).
  rewrite Hr, not_read_only. cbn [andb negb]. run_lift Ha. run_lift Hse. run_lift Hdom.
  erewrite bind_run; [|reflexivity]. run_lift Hacc. erewrite bind_run; [|reflexivity]. cbn beta.
  unfold access_block. rewrite Hpf. cbn [andb negb]. rewrite (rq_plain _ _ _ Hq), He. erewrite bind_run; [|reflexivity]. cbn beta iota.
  assert (hasPrefetcher (with_tags g s) = Ok (false, with_tags g s)) as Hno.
  { unfold hasPrefetcher, gets. by rewrite (sim_prefetcher _ _ _ _ _ Hs). }
  run Hno. rewrite andb_false_r. cbn [andb]. erewrite bind_run; [|reflexivity]. cbn beta.
  rewrite andb_false_r. cbn [andb]. erewrite bind_run; [|reflexivity]. cbn beta. by rewrite Hwb, Hce, Hwc.
Qed.

(** ** Serving a request from a line *)

(** What the core sees after the access. *)
Definition effect (c : MemCmd.Command) (p : Packet.t) (d : list Z) (f : Z -> Z) : Z -> Z :=
  if MemCmd.eqb c MemCmd.WriteReq then write f (Packet.addr p) d else f.

(** The packet once it is served: a read has its bytes. *)
Definition served (c : MemCmd.Command) (p : Packet.t) (f : Z -> Z) (q : Packet.t) : Prop :=
  q = Packet.with_data (Packet.data q) p /\
  (c = MemCmd.ReadReq -> Packet.data q = Some (bytes_of f (Packet.addr p) (Packet.size p))).

Lemma written_wf p d x :
  line_wf x -> CacheBlk.isValid x = true -> Packet.carries k d p -> line_wf (written p d x) /\
  CacheBlk.isValid (written p d x) = true /\ CacheBlk.isSet CacheBlk.DirtyBit (written p d x) = true.
Proof.
  intros [Hlen Hl Hv _ Hb] Hvx (_ & _ & _ & Hfit & _ & _ & _ & Hd). destruct (Hv Hvx) as (Hs & Hdm & Hr & Hw & Ht).
  pose proof (Z.mod_pos_bound (Packet.addr p) (2 ^ k) (pow2_pos k ltac:(lia))).
  assert (forall m, CacheBlk.isSet m x = true -> CacheBlk.isSet m (written p d x) = true) as Hset.
  { intros m. unfold CacheBlk.isSet, CacheBlk.isValid, written. simpl.
    intros [-> Ht']%andb_prop. rewrite Z.land_lor_distr_l, Flags.truthy_lor, Ht'. done. }
  split; [|split; [done|]].
  - constructor; simpl; try done.
    + rewrite length_splice by lia. done.
    + intros _. split_and!; try done; by apply Hset.
    + unfold CacheBlk.isValid in *. simpl. congruence.
    + rewrite Z.ldiff_land, Z.land_lor_distr_l, <- Z.ldiff_land. by rewrite Hb.
  - unfold CacheBlk.isSet. change (CacheBlk.isValid (written p d x)) with (CacheBlk.isValid x). rewrite Hvx. simpl.
    rewrite Z.land_lor_distr_l, Flags.truthy_lor. apply orb_true_r.
Qed.

Lemma satisfy_run f pend s m bs c d p e x :
  demand c -> request c d p -> sim f pend s m bs -> at_line (tags s) e (line_of (Packet.addr p)) x ->
  exists q s' y, Cache.satisfyRequest C E p (InTags e) false false s = Ok (q, s') /\ served c p f q /\
    sim (effect c p d f) pend s' m bs /\ ts_getBlk e (tags s') = Ok y.
Proof.
  intros Hc Hq Hs Hx. pose proof Hx as [[= Hget Ha] Hv]. pose proof (sim_lines _ _ _ _ _ Hs e x Hget) as Hwf.
  pose proof (rq_carries _ _ _ Hq) as Hcar. pose proof Hcar as (_ & _ & _ & Hfit & _ & _ & _ & Hd).
  pose proof (Z.mod_pos_bound (Packet.addr p) (2 ^ k) (pow2_pos k ltac:(lia))) as Hmod. pose proof (rq_size _ _ _ Hq) as Hsz.
  pose proof (sim_data _ _ _ _ _ Hs e _ x Hx) as Hdata. destruct Hc as [-> | ->]; unfold effect, served; cmd_eval.
  - eexists _, s, x. split; [by apply (satisfy_read_run d); [..|apply (lw_length _ Hwf)]|]. split; [|done]. split; [done|].
    intros _. simpl. rewrite Hdata, slice_bytes_of by lia. do 2 f_equal. unfold line_of. lia.
  - destruct (lw_valid _ Hwf Hv) as (_ & _ & _ & Hw & _).
    destruct (satisfy_write_run d p e x (line_of (Packet.addr p)) s s Hq) as (s' & Hrun & Hstep); try done.
    { apply line_step_refl; [by eapply sim_store|done]. } { by apply (lw_locks _ Hwf). } { by apply (lw_length _ Hwf). }
    destruct (written_wf p d x Hwf Hv Hcar) as (Hwf' & Hv' & Hdirty).
    exists p, s', (written p d x). split; [done|]. split; [split; [by destruct p|done]|]. split; [|destruct Hstep as (g & -> & _ & _ & [= Hy _]); done].
    eapply (sim_line_step f); try done; [| |by left].
    + unfold written. simpl. rewrite Hdata, bytes_of_write_in by (unfold line_of; lia). do 2 f_equal. unfold line_of. lia.
    + intros z Hz. unfold write. destruct (Z.leb_spec (Packet.addr p) z), (Z.ltb_spec z (Packet.addr p + Z.of_nat (length d))); try done.
      destruct Hz. unfold in_line, line_of. lia.
Qed.

(** ** Hits *)

Lemma needsWritable_run c d p : demand c -> request c d p -> Packet.needsWritable p = Ok (MemCmd.eqb c MemCmd.WriteReq).
Proof. intros Hc Hq. unfold Packet.needsWritable, Packet.isRequest. rewrite (rq_cmd _ _ _ Hq). by destruct Hc as [-> | ->]. Qed.

Lemma access_hit f s m bs c d p e x lat :
  demand c -> request c d p -> sim f None s m bs -> at_line (tags s) e (line_of (Packet.addr p)) x ->
  exists q s' y lat', access_demand C E (Cache.satisfyRequest C E) p (Some (InTags e)) lat [] s
      = Ok ((true, q, Some (InTags e), lat', []), s') /\
    served c p f q /\ sim (effect c p d f) None s' m bs /\ ts_getBlk e (tags s') = Ok y.
Proof.
  intros Hc Hq Hs Hx. destruct (satisfy_run f None s m bs c d p e x Hc Hq Hs Hx) as (q & s' & y & Hsat & Hserved & Hs' & Hy).
  pose proof Hx as [[= Hget _] Hv]. pose proof (sim_lines _ _ _ _ _ Hs e x Hget) as Hwf.
  destruct (lw_valid _ Hwf Hv) as (_ & _ & Hr & Hw & Ht).
  assert (getB (InTags e) s = Ok (x, s)) as Hg by (simpl; by rewrite Hget).
  assert (exists lat', (if Packet.isRead p then calculateAccessLatency C E (Some (InTags e)) (Packet.headerDelay p) lat
    else ret (calculateTagOnlyLatency C (Packet.headerDelay p) lat)) s = Ok (lat', s)) as [lat' Hlat].
  { destruct (Packet.isRead p); [|by eexists]. unfold calculateAccessLatency. run Hg.
    assert (CacheBlk.getWhenReady x = Ok (CacheBlk.whenReady x)) as Hwr
      by (unfold CacheBlk.getWhenReady; by rewrite (proj2 (Z.eqb_neq _ _) Ht)).
    run_lift Hwr. destruct (_ && _); by eexists. }
  exists q, s', y, lat'. split; [|done]. unfold access_demand. run_lift (needsWritable_run _ _ _ Hc Hq). unfold opt_and, isSetB.
  erewrite bind_run; [|run Hg; reflexivity]. cbn beta.
  assert (CacheBlk.isSet (if MemCmd.eqb c MemCmd.WriteReq then CacheBlk.WritableBit else CacheBlk.ReadableBit) x = true) as ->
    by (by destruct (MemCmd.eqb c MemCmd.WriteReq)).
  unfold incHitCount. rewrite (rq_known _ _ _ Hq). erewrite bind_run; [|reflexivity]. cbn beta. run Hlat. run Hsat.
  unfold maintainClusivity. assert (Packet.fromCache q = false) as ->.
  { destruct Hserved as [-> _]. unfold Packet.fromCache. simpl. rewrite (rq_cmd _ _ _ Hq). by destruct Hc as [-> | ->]. }
  erewrite bind_run; [reflexivity|].
  assert (getB (InTags e) s' = Ok (y, s')) as Hg' by (simpl; by rewrite Hy). by run Hg'.
Qed.

Lemma access_miss f s m bs c d p lat :
  demand c -> request c d p -> sim f None s m bs ->
  exists lat', access_demand C E (Cache.satisfyRequest C E) p None lat [] s = Ok ((false, p, None, lat', []), s).
Proof.
  intros Hc Hq Hs. eexists. unfold access_demand. run_lift (needsWritable_run _ _ _ Hc Hq). erewrite bind_run; [|reflexivity].
  cbn beta iota. assert (incMissCount C p s = Ok (tt, s)) as Hm.
  { unfold incMissCount. rewrite (rq_known _ _ _ Hq). erewrite bind_run; [|reflexivity]. cbn beta. by rewrite (sim_count _ _ _ _ _ Hs). }
  run Hm. erewrite bind_run; [|reflexivity]. cbn beta. unfold Packet.isLLSC. rewrite (rq_cmd _ _ _ Hq). by destruct Hc as [-> | ->].
Qed.

(** ** Misses *)

(** The packet a miss sends down. *)
Lemma createMissPacket_run c d p (s : S) :
  demand c -> request c d p ->
  exists q, Cache.createMissPacket C p None (MemCmd.eqb c MemCmd.WriteReq) false s = Ok (Some q, s) /\
    holds (replicate (Z.to_nat (2 ^ k)) 0) q /\ Packet.addr q = line_of (Packet.addr p) /\ Packet.size q = 2 ^ k /\
    (Packet.cmd q = MemCmd.ReadExReq \/ Packet.cmd q = MemCmd.ReadCleanReq \/ Packet.cmd q = MemCmd.ReadSharedReq) /\
    Packet.req q = Packet.req p /\ Packet._isSecure q = sigma /\
    Packet.cacheResponding q = false /\ Packet.hasSharers q = false /\ Packet.headerDelay q = 0 /\ Packet.payloadDelay q = 0.
Proof.
  intros Hc Hq. pose proof (rq_cmd _ _ _ Hq) as Hcmd. destruct (rq_paddr _ _ _ Hq) as [Hhp Hpa].
  set (cmd := if MemCmd.eqb c MemCmd.WriteReq then MemCmd.ReadExReq
              else if isReadOnly C || bool_decide (clusivity C = mostly_excl) then MemCmd.ReadCleanReq else MemCmd.ReadSharedReq).
  assert (cmd = MemCmd.ReadExReq \/ cmd = MemCmd.ReadCleanReq \/ cmd = MemCmd.ReadSharedReq) as Hcases.
  { unfold cmd. destruct (MemCmd.eqb c _); [by left|]. destruct (_ || _); [right; by left|by do 2 right]. }
  set (p0 := Packet.make_blk 0 (Packet.req p) cmd (blkSize C)).
  assert (Packet.addr p0 = line_of (Packet.addr p)) as Haddr.
  { unfold p0, Packet.make_blk. simpl. rewrite Hhp, Hpa, blk_size. unfold line_of.
    rewrite <- (land_unot_ones 64 k) by (lia || apply (rq_word _ _ _ Hq)). done. }
  assert (bare cmd (line_of (Packet.addr p)) p0) as Hbare.
  { constructor; [done| |done|done| | |].
    - unfold Packet.valid, p0, Packet.make_blk. simpl. rewrite Hhp. by destruct (Request.isNoFill _).
    - unfold Packet.cacheResponding, p0, Packet.make_blk. simpl. rewrite Hhp. by destruct (Request.isNoFill _).
    - unfold p0, Packet.make_blk. simpl. rewrite Hhp. by destruct (Request.isNoFill _).
    - unfold Packet.isMaskedWrite, Packet.cmd_is, p0. simpl. by destruct Hcases as [-> |[-> | ->]]. }
  destruct (allocate_run cmd _ p0 Hbare) as (q & Hall & Hholds & Hq0).
  { unfold Packet.hasData, Packet.hasRespData, p0. simpl. by destruct Hcases as [-> |[-> | ->]]. }
  assert (Packet.flags q = Flags.set (Packet.flags p0) Packet.DYNAMIC_DATA) as Hqf by (by rewrite Hq0).
  exists q. split_and!.
  - unfold Cache.createMissPacket, Packet.isEviction, Packet.isUpgrade, Packet.cmd_is, Packet.isClean, Packet.needsResponse, Packet.isLLSC.
    rewrite (rq_cached _ _ _ Hq), Hcmd. destruct (rq_flags _ _ _ Hq) as [_ Hsh]. rewrite Hsh. cbn [andb].
    assert (Packet.getAddr p0 = Ok (line_of (Packet.addr p))) as Ha
      by (rewrite <- Haddr; apply Packet.getAddr_valid; by destruct Hbare).
    assert (Packet.getBlockAddr (blkSize C) p0 = Ok (line_of (Packet.addr p))) as Hba.
    { pose proof (line_of_bounds (Packet.addr p)). pose proof (rq_word _ _ _ Hq) as [? ?].
      pose proof (Z.mod_le (Packet.addr p) (2 ^ k) ltac:(lia) (pow2_pos k ltac:(lia))).
      rewrite blk_size, Packet.getBlockAddr_valid; [|by destruct Hbare|done|rewrite Haddr; unfold in_word, line_of in *; lia].
      rewrite Haddr. f_equal. unfold line_of. pose proof (Zminus_mod_idemp_r (Packet.addr p) (Packet.addr p) (2 ^ k)) as Hmm.
      rewrite Hmm, Z.sub_diag, Zmod_0_l. lia. }
    clear Hcases. destruct Hc as [-> | ->]; cmd_eval; (erewrite bind_run; [|reflexivity]); cbn [negb andb orb].
    all: (erewrite bind_run; [|reflexivity]); cbn beta iota; (erewrite bind_run; [|reflexivity]); cbn beta iota.
    all: (erewrite bind_run; [|apply lift_run; exact Ha]); cbn beta; (erewrite bind_run; [|apply lift_run; exact Hba]); cbn beta.
    all: rewrite Z.eqb_refl; (erewrite bind_run; [|apply lift_run; exact Hall]); done.
  - done.
  - by rewrite Hq0.
  - rewrite Hq0. exact blk_size.
  - by rewrite Hq0.
  - by rewrite Hq0.
  - rewrite Hq0. simpl. rewrite Hhp. by apply (rq_rsec _ _ _ Hq).
  - unfold Packet.cacheResponding. rewrite Hqf, Flags.isSet_set. by rewrite orb_false_r; destruct Hbare.
  - unfold Packet.hasSharers. rewrite Hqf, Flags.isSet_set. unfold p0, Packet.make_blk. simpl. rewrite Hhp. by destruct (Request.isNoFill _).
  - by rewrite Hq0.
  - by rewrite Hq0.
Qed.

(** The bytes the memory has of a line the cache does not hold. *)
Lemma memory_line f s m bs a :
  sim f None s m bs -> line_of a = a -> inside (SimpleMemory.mem m) a (2 ^ k) -> (forall e x, ~ at_line (tags s) e a x) ->
  read_bytes (SimpleMemory.mem m) bs a (2 ^ k) = bytes_of f a (2 ^ k).
Proof.
  intros Hs Hal [Hlo Hhi] Hno. pose proof (sim_plain _ _ _ _ _ Hs) as Hp. pose proof (pl_size _ _ Hp) as Hsize.
  pose proof (pow2_pos k ltac:(lia)). unfold read_bytes.
  assert (AbstractMemory.toHostAddr a (SimpleMemory.mem m) + Z.to_nat (2 ^ k) <= length bs)%nat as Hfit
    by (unfold AbstractMemory.toHostAddr; lia).
  apply bytes_of_ext; rewrite length_slice by done; [done|]. intros i Hi. rewrite lookup_slice. case_decide; [|lia].
  replace (AbstractMemory.toHostAddr a (SimpleMemory.mem m) + i)%nat
    with (AbstractMemory.toHostAddr (a + Z.of_nat i) (SimpleMemory.mem m)) by (unfold AbstractMemory.toHostAddr; lia).
  apply (sim_memory _ _ _ _ _ Hs); [split; lia|].
  intros [(e & b & x & Hx & _ & Hin)|(? & ? & ? & _)]; [|done].
  assert (b = a) as -> by (eapply line_disjoint; [by eapply sim_aligned|done|done|unfold in_line; lia]).
  by eapply Hno.
Qed.

Hypothesis fill_time : time_ok (u64 (clockEdge C E (fillLatency C))).
Hypothesis no_snoops : forwardSnoops C = false.

Lemma clear_snoop_flag m p :
  Z.land Packet.EXPRESS_SNOOP m = 0 -> Flags.isSet (Flags.clear (Packet.flags p) Packet.EXPRESS_SNOOP) m = Flags.isSet (Packet.flags p) m.
Proof. apply Flags.isSet_clear_disjoint. Qed.

Lemma miss_answer f s m bs c d p q :
  sim f None s m bs -> request c d p -> inside (SimpleMemory.mem m) (line_of (Packet.addr p)) (2 ^ k) ->
  (forall e x, ~ at_line (tags s) e (line_of (Packet.addr p)) x) ->
  holds (replicate (Z.to_nat (2 ^ k)) 0) q -> Packet.addr q = line_of (Packet.addr p) -> Packet.size q = 2 ^ k ->
  (Packet.cmd q = MemCmd.ReadExReq \/ Packet.cmd q = MemCmd.ReadCleanReq \/ Packet.cmd q = MemCmd.ReadSharedReq) ->
  Packet.req q = Packet.req p -> Packet._isSecure q = sigma ->
  Packet.cacheResponding q = false -> Packet.hasSharers q = false -> Packet.headerDelay q = 0 -> Packet.payloadDelay q = 0 ->
  exists lat b m' s', port_sendAtomic (over_memory MC m0) q s = Ok ((lat, b), s') /\ tags s' = tags s /\
    sim f None s' m' bs /\ SimpleMemory.mem m' = SimpleMemory.mem m /\
    response (line_of (Packet.addr p)) (bytes_of f (line_of (Packet.addr p)) (2 ^ k)) b.
Proof.
  intros Hs Hq Hin Hno Hh Haddr Hsize Hcmd Hreq Hsec Hcr Hsh Hhd Hpd. set (a := line_of (Packet.addr p)) in *.
  assert (line_of a = a) as Hal.
  { unfold a, line_of. rewrite Zminus_mod_idemp_r, Z.sub_diag, Zmod_0_l. lia. }
  pose proof Hh as ((Hva & Hvs) & Hptr & Hmask & Hdata & Hlen & Hn).
  set (q1 := Packet.with_data (Some (read_bytes (SimpleMemory.mem m) bs (Packet.addr q) (Packet.size q))) q).
  set (b := Packet.with_flags (Flags.clear (Packet.flags q1) Packet.EXPRESS_SNOOP) (Packet.with_cmd (MemCmd.responseCommand (Packet.cmd q1)) q1)).
  assert (AbstractMemory.access q (SimpleMemory.mem m) = Ok (b, SimpleMemory.mem m, [])) as Hacc.
  { rewrite (access_read q _ bs _ (sim_plain _ _ _ _ _ Hs) Hh) by
      (rewrite ?Haddr, ?Hsize; first [done | unfold Packet.isRead, Packet.isWrite, Packet.isLLSC, Packet.needsResponse, Packet.isRequest;
         by destruct Hcmd as [-> |[-> | ->]]]).
    unfold Packet.makeResponse. fold q1. unfold Packet.needsResponse, Packet.isRequest. change (Packet.cmd q1) with (Packet.cmd q).
    unfold b. change (Packet.cmd q1) with (Packet.cmd q). by destruct Hcmd as [-> |[-> | ->]]. }
  destruct (recvAtomic_run q m b _ Hcr Hacc) as (lat & m' & Hrecv & Hm').
  destruct (send_run MC m0 (out s) q m lat b m' [] s eq_refl (sim_mem _ _ _ _ _ Hs) Hrecv) as [Hsend _].
  exists lat, b, m', (with_out (out s ++ [SendAtomic q]) s). split; [done|]. split; [done|].
  split; [by eapply sim_send|]. split; [done|].
  assert (Packet.size b = 2 ^ k /\ Packet.addr b = a /\ Packet.req b = Packet.req q) as (Hbs & Hba & Hbr) by done.
  pose proof (line_of_bounds (Packet.addr p)). pose proof (rq_word _ _ _ Hq) as [? ?].
  pose proof (Z.mod_le (Packet.addr p) (2 ^ k) ltac:(lia) (pow2_pos k ltac:(lia))).
  constructor.
  - change (Packet.cmd b) with (MemCmd.responseCommand (Packet.cmd q)). destruct Hcmd as [-> |[-> | ->]]; [by right|by left..].
  - change (Packet.data b) with (Some (read_bytes (SimpleMemory.mem m) bs (Packet.addr q) (Packet.size q))).
    assert (read_bytes (SimpleMemory.mem m) bs (Packet.addr q) (Packet.size q) = bytes_of f a (2 ^ k)) as Hrb
      by (rewrite Haddr, Hsize; by eapply memory_line).
    split_and!.
    + split; unfold b; simpl; by rewrite clear_snoop_flag.
    + unfold Packet.hasDataPtr, b. simpl. rewrite clear_snoop_flag; [exact Hptr|done].
    + unfold Packet.isMaskedWrite, Packet.cmd_is. change (Packet.cmd b) with (MemCmd.responseCommand (Packet.cmd q)).
      by destruct Hcmd as [-> |[-> | ->]].
    + by rewrite <- Hrb.
    + by rewrite length_bytes_of, Hbs.
    + rewrite Hbs. lia.
  - split_and!; try done. split; unfold a, line_of in *; lia.
  - split; [done|]. unfold Packet.getDomainID, knownRequestor, Packet.requestorId. rewrite Hbr, Hreq.
    split; [by eapply rq_dom|by eapply rq_known].
  - split; [unfold Packet.cacheResponding, b|unfold Packet.hasSharers, b]; simpl; rewrite clear_snoop_flag; done.
  - change (Packet.headerDelay b) with (Packet.headerDelay q). change (Packet.payloadDelay b) with (Packet.payloadDelay q).
    by rewrite Hhd, Hpd, !Z.add_0_r.
Qed.

Lemma not_whole_line c d p : demand c -> request c d p -> Packet.isWholeLineWrite (blkSize C) p = Ok false.
Proof.
  intros Hc Hq. destruct (rq_holds _ _ _ Hq) as (Hval & _). pose proof (rq_size _ _ _ Hq).
  unfold Packet.isWholeLineWrite, Packet.cmd_is. rewrite (rq_cmd _ _ _ Hq). destruct Hc as [-> | ->]; cmd_eval; [done|].
  rewrite blk_size, Packet.getOffset_valid by done. cbn [rbind]. destruct (_ =? 0); [|done].
  rewrite Packet.getSize_valid by done. cbn [rbind]. rewrite (proj2 (Z.eqb_neq _ _)) by lia. done.
Qed.

Lemma served_from_core c d p f q : demand c -> request c d p -> served c p f q -> Packet.fromCache q = false.
Proof.
  intros Hc Hq [-> _]. unfold Packet.fromCache. simpl. rewrite (rq_cmd _ _ _ Hq). by destruct Hc as [-> | ->].
Qed.

Lemma atomic_response_run f s m bs c d p b :
  demand c -> request c d p -> sim f None s m bs -> inside (SimpleMemory.mem m) (line_of (Packet.addr p)) (2 ^ k) ->
  (forall e x, ~ at_line (tags s) e (line_of (Packet.addr p)) x) ->
  response (line_of (Packet.addr p)) (bytes_of f (line_of (Packet.addr p)) (2 ^ k)) b ->
  exists q s' v y wbs pend, CacheAtomic.atomic_response C E p b None s = Ok ((q, Some (InTags v), wbs, false), s') /\
    served c p f q /\ sim (effect c p d f) pend s' m bs /\ to_send pend wbs /\ ts_getBlk v (tags s') = Ok y.
Proof.
  intros Hc Hq Hs Hin Hno Hb. destruct (handleFill_run f s m bs _ b Hs Hb Hin Hno) as (wbs & pend & v & s1 & x & Hfill & Hs1 & Hsend & Hx).
  destruct (satisfy_run f pend s1 m bs c d p v x Hc Hq Hs1 Hx) as (q & s' & y & Hsat & Hserved & Hs' & Hy).
  exists q, s', v, y, wbs, pend. split; [|done]. unfold CacheAtomic.atomic_response.
  assert (Packet.needsResponse p = true) as ->
    by (unfold Packet.needsResponse; rewrite (rq_cmd _ _ _ Hq); by destruct Hc as [-> | ->]).
  assert (Packet.isResponse b = true /\ Packet.isError b = false /\ Packet.isRead b = true /\ Packet.isInvalidate b = false)
    as (-> & -> & -> & ->) by (unfold Packet.isResponse, Packet.isError, Packet.isRead, Packet.isInvalidate;
      by destruct (rs_cmd _ _ _ Hb) as [-> | ->]).
  run_lift (not_whole_line _ _ _ Hc Hq). cbn [orb].
  assert (allocOnFill C (Packet.cmd p) = true) as ->.
  { unfold allocOnFill. rewrite (rq_cmd _ _ _ Hq). destruct Hc as [-> | ->]; cmd_eval; by rewrite ?orb_true_r. }
  run Hfill. run Hsat. rewrite (served_from_core _ _ _ _ _ Hc Hq Hserved). unfold maintainClusivity.
  erewrite bind_run; [reflexivity|]. assert (getB (InTags v) s' = Ok (y, s')) as Hg by (simpl; by rewrite Hy). by run Hg.
Qed.

(** ** Sending the write-backs *)

Lemma writebacks_run f pend s m bs wbs :
  sim f pend s m bs -> to_send pend wbs ->
  exists s' m' bs', CacheAtomic.doWritebacksAtomic C (over_memory MC m0) wbs s = Ok (tt, s') /\ sim f None s' m' bs' /\
    AbstractMemory.range (SimpleMemory.mem m') = AbstractMemory.range (SimpleMemory.mem m).
Proof.
  intros Hs [[-> ->]|(x & a & p & -> & Hev & ->)]; [by exists s, m, bs|].
  destruct (ev_flags _ _ _ Hev) as [Hcr Hif]. destruct (ev_addr _ _ _ Hev) as [Hpa Hps]. pose proof (ev_cmd _ _ _ Hev) as Hc.
  assert (forall p' mem', AbstractMemory.access p (SimpleMemory.mem m) = Ok (p', mem', []) ->
    exists s' m' lat, CacheAtomic.doWritebacksAtomic C (over_memory MC m0) [p] s = Ok (tt, s') /\ SimpleMemory.mem m' = mem' /\
      SimpleMemory.recvAtomic MC p m = Ok (lat, p', m', []) /\ s' = with_out (out s ++ [SendAtomic p]) s) as Hsend.
  { intros p' mem' Hacc. destruct (recvAtomic_run p m p' mem' Hcr Hacc) as (lat & m' & Hr & Hm').
    destruct (send_run MC m0 (out s) p m lat p' m' [] s eq_refl (sim_mem _ _ _ _ _ Hs) Hr) as [Hsnd _].
    exists (with_out (out s ++ [SendAtomic p]) s), m', lat. split; [|done].
    unfold CacheAtomic.doWritebacksAtomic, CacheAtomic.doWritebackAtomic, CacheAtomic.isCachedAbove. simpl. rewrite no_snoops. cbn [negb].
    erewrite bind_run; [reflexivity|]. erewrite bind_run; [|reflexivity]. cbn [negb orb]. by run Hsnd. }
  unfold pend_of in Hs. destruct (CacheBlk.isSet CacheBlk.DirtyBit x) eqn:Ed.
  - pose proof (ev_data _ _ _ Hev Ed) as Hh. destruct (sim_pend _ _ _ _ _ Hs a _ eq_refl) as (_ & _ & Hin & _).
    destruct (Hsend _ _ (access_writeback p _ bs (CacheBlk.data x) (sim_plain _ _ _ _ _ Hs) Hh ltac:(by rewrite Hpa, Hps) Hcr Hc Hif))
      as (s' & m' & lat & Hrun & Hm' & Hr & ->).
    eexists _, m', _. split; [exact Hrun|]. rewrite Hpa in Hm'. split; [by eapply sim_written|]. by rewrite Hm'.
  - destruct (Hsend _ _ (access_clean_evict p _ Hcr Hc)) as (s' & m' & lat & Hrun & Hm' & Hr & ->).
    eexists _, m', bs. split; [exact Hrun|]. split; [by eapply sim_send|]. by rewrite Hm'.
Qed.

Lemma miss_run f s m bs c d p :
  demand c -> request c d p -> sim f None s m bs -> inside (SimpleMemory.mem m) (line_of (Packet.addr p)) (2 ^ k) ->
  (forall e x, ~ at_line (tags s) e (line_of (Packet.addr p)) x) ->
  exists n q s' m' v y wbs pend,
    CacheAtomic.handleAtomicReqMiss C E (over_memory MC m0) p None s = Ok ((n, q, Some (InTags v), wbs), s') /\
    served c p f q /\ sim (effect c p d f) pend s' m' bs /\ to_send pend wbs /\ ts_getBlk v (tags s') = Ok y /\
    SimpleMemory.mem m' = SimpleMemory.mem m.
Proof.
  intros Hc Hq Hs Hin Hno.
  destruct (createMissPacket_run c d p s Hc Hq) as (b0 & Hmp & Hh & Ha & Hsz & Hcmd & Hreq & Hsec & Hcr & Hsh & Hhd & Hpd).
  destruct (miss_answer f s m bs c d p b0 Hs Hq Hin Hno Hh Ha Hsz Hcmd Hreq Hsec Hcr Hsh Hhd Hpd)
    as (lat & b & m' & s1 & Hsend & Htags & Hs1 & Hm' & Hresp).
  destruct (atomic_response_run f s1 m' bs c d p b Hc Hq Hs1) as (q & s' & v & y & wbs & pend & Har & Hserved & Hs' & Hts & Hy);
    [by rewrite Hm'|by rewrite Htags|done|].
  eexists _, q, s', m', v, y, wbs, pend. split; [|done]. unfold CacheAtomic.handleAtomicReqMiss.
  assert (Packet.isEviction p = false /\ Packet.cmd_is p MemCmd.WriteClean = false) as [-> ->]
    by (unfold Packet.isEviction, Packet.cmd_is; rewrite (rq_cmd _ _ _ Hq); by destruct Hc as [-> | ->]).
  rewrite (rq_cached _ _ _ Hq). cbn [andb orb]. run_lift (needsWritable_run _ _ _ Hc Hq). run_lift (not_whole_line _ _ _ Hc Hq).
  run Hmp. cbn [default from_option]. run Hsend. run Har.
  assert (opt_and (Some (InTags v)) isValidB s' = Ok (CacheBlk.isValid y, s')) as Hv
    by (unfold opt_and, isValidB, bind; simpl; by rewrite Hy).
  run Hv. cbn [andb]. by erewrite bind_run; [|reflexivity].
Qed.

(** ** An atomic access *)

(** The state of the system after an access that is equivalent to a state of [f']. *)
Definition refines (f' : Z -> Z) (m : SimpleMemory.t) (s' : S) : Prop :=
  exists m' bs', sim f' None s' m' bs' /\ AbstractMemory.range (SimpleMemory.mem m') = AbstractMemory.range (SimpleMemory.mem m).

Lemma served_response c d p f q :
  demand c -> request c d p -> served c p f q -> exists q', Packet.makeAtomicResponse q = Ok q' /\ Packet.isResponse q' = true /\
    Packet.needsResponse q = true /\ Packet.isClean q = false /\
    (c = MemCmd.ReadReq -> Packet.data q' = Some (bytes_of f (Packet.addr p) (Packet.size p))).
Proof.
  intros Hc Hq [Hqp Hd]. assert (Packet.cmd q = c) as Hcq by (rewrite Hqp; by apply (rq_cmd _ _ _ Hq)).
  unfold Packet.makeAtomicResponse, Packet.makeResponse, Packet.needsResponse, Packet.isRequest, Packet.isResponse, Packet.isClean.
  rewrite Hcq. destruct Hc as [-> | ->]; (eexists; split; [reflexivity|]; split_and!; done).
Qed.

Lemma recvAtomic_hit_or_miss f s m bs c d p :
  demand c -> request c d p -> sim f None s m bs -> inside (SimpleMemory.mem m) (line_of (Packet.addr p)) (2 ^ k) ->
  exists lat q s', CacheAtomic.recvAtomic C E (over_memory MC m0) p s = Ok ((lat, q), s') /\
    Packet.isResponse q = true /\
    (c = MemCmd.ReadReq -> Packet.data q = Some (bytes_of f (Packet.addr p) (Packet.size p))) /\
    refines (effect c p d f) m s'.
Proof.
  intros Hc Hq Hs Hin. destruct (rq_holds _ _ _ Hq) as (Hval & _). pose proof (rq_size _ _ _ Hq).
  assert (Cache.promoteWholeLineWrites C p = Ok p) as Hpr.
  { unfold Cache.promoteWholeLineWrites, Packet.cmd_is. rewrite (rq_cmd _ _ _ Hq). destruct Hc as [-> | ->]; cmd_eval; [done|].
    rewrite Packet.getSize_valid, blk_size, Packet.getOffset_valid by done. cbn [rbind]. by rewrite (proj2 (Z.eqb_neq _ _)) by lia. }
  unfold CacheAtomic.recvAtomic. destruct (rq_flags _ _ _ Hq) as [Hcr _].
  destruct (lookup_run f s m bs (Packet.addr p) (Packet.isMayNotFill p) Hs (rq_word _ _ _ Hq)) as (r & g & lat & Hacc & Hs1 & Hr).
  pose proof (access_to_demand f s m bs c d p r g lat (lookupLatency C) Hc Hq Hs1 Hacc) as Hdem.
  destruct r as [e|]; simpl in Hdem.
  - destruct Hr as [x Hx]. destruct (access_hit f (with_tags g s) m bs c d p e x lat Hc Hq Hs1 Hx) as (q & s' & y & lat' & Hhit & Hserved & Hs' & Hy).
    rewrite Hhit in Hdem. destruct (served_response _ _ _ _ _ Hc Hq Hserved) as (q' & Hq' & Hresp & Hnr & Hcl & Hdata).
    eexists _, q', s'. split; [|split; [done|split; [done|by exists m, bs]]].
    run_lift Hpr. rewrite Hcr. unfold BaseModes.recvAtomic. run Hdem.
    assert (opt_and (Some (InTags e)) (isSetB CacheBlk.DirtyBit) s' = Ok (CacheBlk.isSet CacheBlk.DirtyBit y, s')) as Hd
      by (unfold opt_and, isSetB, bind; simpl; by rewrite Hy).
    run Hd. rewrite Hcl. cbn [andb]. do 5 (erewrite bind_run; [|reflexivity]; cbn beta iota).
    rewrite bool_decide_eq_false_2 by done. cbn [andb]. rewrite Hnr. by run_lift Hq'.
  - destruct (access_miss f (with_tags g s) m bs c d p lat Hc Hq Hs1) as [lat' Hmiss]. rewrite Hmiss in Hdem.
    destruct (miss_run f (with_tags g s) m bs c d p Hc Hq Hs1 Hin Hr)
      as (n & q & s2 & m2 & v & y & wbs & pend & Hrun & Hserved & Hs2 & Hts & Hy & Hm2).
    destruct (writebacks_run _ pend s2 m2 bs wbs Hs2 Hts) as (s' & m' & bs' & Hwb & Hs' & Hrange).
    destruct (served_response _ _ _ _ _ Hc Hq Hserved) as (q' & Hq' & Hresp & Hnr & Hcl & Hdata).
    eexists _, q', s'. split; [|split; [done|split; [done|exists m', bs'; by rewrite <- Hm2]]].
    run_lift Hpr. rewrite Hcr. unfold BaseModes.recvAtomic. run Hdem.
    do 3 (erewrite bind_run; [|reflexivity]; cbn beta iota). erewrite bind_run; [|run Hrun; reflexivity]. cbn beta iota.
    run Hwb. erewrite bind_run; [|reflexivity]. cbn beta. rewrite bool_decide_eq_false_2 by done. cbn [andb]. rewrite Hnr. by run_lift Hq'.
Qed.

End cache.

(** ** Sequences of accesses *)

Section system.
Context {T P : Type} `{MapStore T} `{Prefetcher P} `{RandomSource}.
Variables (C : Config) (MC : SimpleMemory.Config) (m0 : SimpleMemory.t) (k : Z) (sigma : bool) (dom : Z).

(** The cache over the memory: each access at its time, and the answers. *)
Fixpoint run_cache (ops : list (Env * Packet.t)) (s : CacheState.t T P) : res (list Packet.t * CacheState.t T P) :=
  match ops with
  | [] => Ok ([], s)
  | (E, p) :: ops =>
      let* (r, s) := CacheAtomic.recvAtomic C E (over_memory MC m0) p s in
      let* (qs, s) := run_cache ops s in
      Ok (r.2 :: qs, s)
  end.

(** A memory alone: the bytes of each read. *)
Fixpoint run_memory (ops : list (Env * Packet.t)) (f : Z -> Z) : list (option (list Z)) :=
  match ops with
  | [] => []
  | (_, p) :: ops =>
      if Packet.isWrite p then None :: run_memory ops (write f (Packet.addr p) (default [] (Packet.data p)))
      else Some (bytes_of f (Packet.addr p) (Packet.size p)) :: run_memory ops f
  end.

(** A packet answers an access when it is a response with the bytes of the read. *)
Definition answers (q : Packet.t) (r : option (list Z)) : Prop :=
  Packet.isResponse q = true /\ match r with Some d => Packet.data q = Some d | None => True end.

(** Reads and writes of parts of lines that the memory has, at times that leave room for
    the fill latency. *)
Definition access_ok (a : Env * Packet.t) : Prop :=
  let '(E, p) := a in
  now E <= MaxTick /\ time_ok E (u64 (clockEdge C E (fillLatency C))) /\
  inside (SimpleMemory.mem m0) (line_of k (Packet.addr p)) (2 ^ k) /\
  exists c d, demand c /\ request C k sigma dom c d p.

(** A cache that holds nothing and has nothing outstanding. *)
Record empty_cache (s : CacheState.t T P) : Prop := {
  ec_store : ls_ok (tags s);
  ec_shift : line_shift (tags s) = k;
  ec_lines : forall e x, ts_getBlk e (tags s) = Ok x -> CacheBlk.isValid x = false /\ line_wf k sigma dom x;
  ec_mshrs : Queue.allocatedList (MSHRQueue.queue (mshrQueue s)) = [];
  ec_writes : Queue.allocatedList (writeBuffer s) = [];
  ec_prefetcher : prefetcher s = None;
  ec_count : missCount s = 0;
  ec_out : out s = []
}.

(** The bytes of the memory as a function of the address. *)
Definition contents (bs : list Z) (z : Z) : Z := nth (AbstractMemory.toHostAddr z (SimpleMemory.mem m0)) bs 0.

Lemma empty_sim s bs :
  empty_cache s -> plain (SimpleMemory.mem m0) bs -> sim MC m0 k sigma dom (contents bs) None s m0 bs.
Proof.
  intros [Hst Hsh Hln Hms Hwr Hpf Hct Hout] Hp. assert (forall e a x, ~ at_line (tags s) e a x) as Hno.
  { intros e a x [[= Hx _] Hv]. destruct (Hln e x Hx). congruence. }
  constructor; try done.
  - by rewrite Hout.
  - intros e x Hx. by apply (Hln e x).
  - intros e x Hx Hv. destruct (Hln e x Hx). congruence.
  - intros e a x Hx. by apply Hno in Hx.
  - intros z [Hlo Hhi] _. pose proof (pl_size _ _ Hp). unfold contents.
    destruct (lookup_lt_is_Some_2 bs (AbstractMemory.toHostAddr z (SimpleMemory.mem m0))) as [b Hb];
      [unfold AbstractMemory.toHostAddr; lia|]. rewrite Hb. f_equal. symmetry. by apply nth_lookup_Some.
Qed.

Hypothesis k_range : 0 <= k < 32.
Hypothesis blk_size : blkSize C = 2 ^ k.
Hypothesis latency_ok : 0 <= SimpleMemory.latency_var MC.
Hypothesis not_read_only : isReadOnly C = false.
Hypothesis no_snoops : forwardSnoops C = false.

Lemma run_simulates ops : forall f s m bs,
  sim MC m0 k sigma dom f None s m bs -> AbstractMemory.range (SimpleMemory.mem m) = AbstractMemory.range (SimpleMemory.mem m0) ->
  Forall access_ok ops ->
  exists qs s', run_cache ops s = Ok (qs, s') /\ Forall2 answers qs (run_memory ops f).
Proof.
  induction ops as [|[E p] ops IH]; intros f s m bs Hs Hm Hops; [by exists [], s|].
  apply Forall_cons in Hops as [(Hnow & Htime & Hin & c & d & Hc & Hq) Hops].
  assert (inside (SimpleMemory.mem m) (line_of k (Packet.addr p)) (2 ^ k)) as Hin' by (unfold inside; by rewrite Hm).
  destruct (recvAtomic_hit_or_miss C E MC m0 k sigma dom k_range blk_size latency_ok not_read_only Hnow Htime no_snoops
    f s m bs c d p Hc Hq Hs Hin') as (lat & q & s1 & Hrun & Hresp & Hdata & m1 & bs1 & Hs1 & Hm1).
  destruct (IH _ s1 m1 bs1 Hs1) as (qs & s' & Hrest & Hall); [congruence|done|].
  exists (q :: qs), s'. cbn [run_cache]. rewrite Hrun. cbn [rbind]. rewrite Hrest. split; [done|].
  destruct (rq_holds _ _ _ _ _ _ _ Hq) as (_ & _ & _ & Hd & _). simpl. unfold Packet.isWrite. rewrite (rq_cmd _ _ _ _ _ _ _ Hq).
  destruct Hc as [-> | ->]; cmd_eval; unfold effect in Hall; simpl in Hall; [|rewrite Hd; simpl]; (constructor; [|done]); split; try done. by apply Hdata.
Qed.

(** C5. A cache over a memory is a memory. Take an empty write-back cache, not read-only,
    over any tag store that is a map from lines of memory (the RaS store is one), directly
    above the main memory (one range, no interleaving, no locked addresses), with no
    prefetcher, no miss limit, nothing outstanding and no caches above that it has to
    snoop. Give it, in atomic mode, any sequence of cacheable reads and writes, each of
    less than a line, within one line of the memory, by requestors the system knows, all
    of one security state and one domain. (With both security states the cache holds two
    copies of a line and the memory one.) The accesses all return, and each read returns
    exactly the bytes that the memory alone would have returned, however lines have been
    filled, written, evicted and written back in between. *)
Theorem cache_refines_memory ops s bs :
  empty_cache s -> plain (SimpleMemory.mem m0) bs -> Forall access_ok ops ->
  exists qs s', run_cache ops s = Ok (qs, s') /\ Forall2 answers qs (run_memory ops (contents bs)).
Proof. intros Hs Hp Hops. by eapply run_simulates; [apply empty_sim| |]. Qed.

End system.

(** ** Five lines in a cache of four *)

(** A memory of five lines of 64 bytes. *)
Definition five_lines : SimpleMemory.t :=
  SimpleMemory.make (AbstractMemory.mk (AddrRange.make 0x1000 0x1140) (Some (replicate 320 7)) []) 0.
Definition mem_config : SimpleMemory.Config := SimpleMemory.mkConfig 100 0 (fun _ => 0).

Definition access (c : MemCmd.Command) (a : Z) (d : list Z) : Packet.t :=
  CacheExamples.the CacheExamples.spec_load
    (let* p := Packet.make 0 (Request.setDomainID 3 (Request.make 0 a 4 0 0)) c in
     let* p := Packet.allocate p in Packet.setData d p).

(** A write to each of five lines, and two reads: the fifth write evicts a line that the
    cache had modified. *)
Definition ops : list (Env * Packet.t) := Eval vm_compute in
  [(CacheExamples.env 1000, access MemCmd.WriteReq 0x1008 [1; 2; 3; 4]);
   (CacheExamples.env 2000, access MemCmd.WriteReq 0x1050 [5; 6; 7; 8]);
   (CacheExamples.env 3000, access MemCmd.WriteReq 0x1088 [9; 10; 11; 12]);
   (CacheExamples.env 4000, access MemCmd.WriteReq 0x10c0 [13; 14; 15; 16]);
   (CacheExamples.env 5000, access MemCmd.WriteReq 0x1104 [17; 18; 19; 20]);
   (CacheExamples.env 6000, access MemCmd.ReadReq 0x1008 [0; 0; 0; 0]);
   (CacheExamples.env 7000, access MemCmd.ReadReq 0x1052 [0; 0; 0; 0])].

Lemma ops_ok : Forall (access_ok CacheExamples.l1 five_lines 6 false 3) ops.
Proof.
  repeat constructor; try (by vm_compute).
  all: first [solve [exists MemCmd.ReadReq; eexists; split; [by left|]; constructor; by vm_compute]
             |exists MemCmd.WriteReq; eexists; split; [by right|]; constructor; by vm_compute].
Qed.

Lemma init_store : ls_ok (tags CacheExamples.init).
Proof.
  exists 4%nat. constructor.
  - constructor.
    + reflexivity.
    + split; [|done]. constructor; [constructor; simpl; done || lia|done|done|].
      exists 2. split; [lia|]. split; [simpl; lia|done].
    + done.
    + intros e b Hb. do 4 (destruct e as [|e]; [by simplify_eq/=|]). done.
    + intros e b Hb. do 4 (destruct e as [|e]; [by simplify_eq/=|]). done.
  - intros e e' b b' Hb Hb'. do 4 (destruct e as [|e]; [do 4 (destruct e' as [|e']; [by simplify_eq/=|]); done|]). done.
  - reflexivity.
  - simpl. lia.
  - intros e b Hb Hv. do 4 (destruct e as [|e]; [by injection Hb as <-|]). done.
Qed.

Lemma init_empty : empty_cache 6 false 3 CacheExamples.init.
Proof.
  constructor; [exact init_store|reflexivity| |reflexivity..]. intros e x Hx. apply lookupR_Ok in Hx.
  do 4 (destruct e as [|e]; [injection Hx as <-; split; [done|]; by constructor|]). done.
Qed.

Lemma five_plain : plain (SimpleMemory.mem five_lines) (replicate 320 7).
Proof. constructor; by vm_compute. Qed.

Lemma cache_refines_memory_witness :
  exists qs s', run_cache CacheExamples.l1 mem_config five_lines ops CacheExamples.init = Ok (qs, s') /\
    Forall2 answers qs [None; None; None; None; None; Some [1; 2; 3; 4]; Some [7; 8; 7; 7]].
Proof.
  destruct (cache_refines_memory CacheExamples.l1 mem_config five_lines 6 false 3 ltac:(lia) eq_refl ltac:(simpl; lia) eq_refl eq_refl
    ops CacheExamples.init (replicate 320 7) init_empty five_plain ops_ok) as (qs & s' & Hrun & Hall).
  exists qs, s'. split; [exact Hrun|]. exact Hall.
Defined.

End Transparency.
